(* ===== verification/_CoqProject ===== *)
-Q . S2P
Prelude.v
Integer.v
HuffmanTable.v
Huffman.v
HpackString.v
HpackTable.v
Hpack.v
H2Error.v
H2Codec.v
H2Wire.v
H2Request.v
H2Connection.v
H2Steps.v
H2Invariant.v
H2Example.v
H2Loop.v
H2Exchange.v
H2Lifecycle.v
H2Flow.v
H2Deviations.v
Poll.v
DateCache.v
H2Service.v
H2ServiceSpec.v
H2ServiceDeviations.v
H1Io.v
H1WriteBuf.v
H1Wire.v
H1State.v
H1Plain.v
H1Read.v
H1ReadSpec.v
H1Body.v
H1Write.v
H1WriteSpec.v
H1Chunks.v
H1Connection.v
H1Effects.v
H1Session.v
H1ConnectionSpec.v
H1Deviations.v
Upgrade.v
EarlyHints.v
H3Error.v
Incremental.v
Varint.v
H3Frame.v
H3Settings.v
QpackTable.v
QpackString.v
QpackDecoder.v
QpackEncoder.v
QpackLines.v
QpackStream.v
QpackSections.v
QpackAcks.v
QpackSession.v
QpackDeviations.v
H3Transport.v
H3Quinn.v
H3Endpoint.v
H3Shared.v
H3Reading.v
H3Control.v
H3ControlSpec.v
H3ControlLoop.v
H3Resets.v
H3Driver.v
H3DriverSpec.v
H3DriverRuns.v
H3Request.v
H3Stream.v
H3StreamSpec.v
H3StreamSend.v
H3StreamRun.v
H3Body.v
H3Task.v
H3TaskSpec.v
H3Deviations.v
H3Upgrade.v
