(* ===== verification/Prelude.v ===== *)
(** * zincio-http: a verification development

    zincio-http serves HTTP/1, HTTP/2 and HTTP/3 on one crate.  This library
    models the protocol logic of it, as the source has it, and proves what makes
    it correct.  It needs Rocq's Standard Library and stdpp.

    ** The program

    - A server hands a byte stream to [Http1] (src/src/h1) or [Http2]
      (src/src/h2), or a QUIC connection to [Http3] (src/src/h3).  Each has a
      method [handle] that runs until the connection ends and calls the user's
      handler once for each request.
    - HTTP/1 is one loop: read a head and its body off the stream, call the
      handler, write the response through a buffer of slices ([WriteBuf]).
    - HTTP/2 is one connection task, an event loop over the frames of the peer
      and the messages of its stream tasks; a stream task ([StreamDriver]) drives
      the handler and turns its response into messages.
    - HTTP/3 is one driver task that owns the control plane ([ControlStreams])
      and accepts request streams; a request task works on a [RequestStream].
      All of them share the QPACK codecs ([SharedCodecs]).
    - Integers and strings of field blocks and the Huffman code (src/src/hpack)
      serve HPACK (src/src/h2/hpack) and QPACK (src/src/h3/qpack) alike.

    ** The files

    Shared ground
    - Prelude: results, machine integers, slices, big-endian octets, bit
      operations as arithmetic, searches; the hints and tactics of the library
      ([zlia], [inv_result], the database [zlen]).
    - Poll: computations that may wait, for poll functions and async functions,
      with weakest preconditions ([wp]) and preorders of states ([within]).
    - Incremental: parsers fed in pieces.
    - DateCache: date.rs of HTTP/2 and of HTTP/3.

    Field compression
    - Integer, HuffmanTable, Huffman: src/src/hpack.
    - HpackString, HpackTable, Hpack: src/src/h2/hpack.
    - QpackTable, QpackString, QpackDecoder, QpackEncoder: src/src/h3/qpack, the
      definitions.  QpackLines, QpackStream, QpackSections, QpackAcks prove what
      travels on each stream; QpackSession puts both ends together;
      QpackDeviations.

    HTTP/2
    - H2Error, H2Codec, H2Request: error.rs, codec, the request validation.
    - H2Connection: connection/mod.rs and handlers.rs, every handler as a
      function of the state, [step] as one turn of the event loop.
    - H2Wire, H2Steps: what every write and every assignment of a handler keeps;
      H2Invariant, H2Loop, H2Lifecycle, H2Flow, H2Exchange prove with them;
      H2Example holds the concrete environment of the witnesses; H2Deviations.
    - H2Service: stream/service.rs, the task of one request; H2ServiceSpec: what
      it hands to the connection, and that it returns; H2ServiceDeviations.

    HTTP/1
    - H1Io: what the loop runs on, the classes [Io] and [Service] with their
      laws, and [Playback], an instance of them; H1Plain: an instance of the
      third-party parsers.
    - H1WriteBuf: writebuf.rs.  H1Wire, H1State, H1Read, H1Write, H1Connection:
      mod.rs, body.rs, write.rs.
    - H1ReadSpec, H1Body, H1WriteSpec, H1Chunks: reading and writing against the
      grammar; H1Effects, H1Session, H1ConnectionSpec: the loop as a sequence of
      exchanges; H1Deviations.
    - Upgrade, EarlyHints: upgrade.rs, early_hints.rs.

    HTTP/3
    - H3Error, Varint, H3Frame, H3Settings: error.rs, frame.rs, settings.rs.
    - H3Transport: the traits of transport.rs as a class with a history, which
      holds what the transport did, failures included: the theorems on errors
      say what happened last when a call failed.
    - H3Shared, H3Control, H3Request, H3Stream: the codecs, control/mod.rs and
      stream/mod.rs.  H3Reading, H3ControlSpec, H3ControlLoop, H3StreamSpec,
      H3StreamSend, H3StreamRun prove what they do.  A run of a request stream
      keeps a trace of its calls, each with the codecs it found, so that the
      fields of a block are tied to the decoder that gave them.
    - H3Body: [H3Body] of mod.rs, the body a handler reads.  H3Task: mod.rs,
      [handle_request], the task of one request; H3TaskSpec: what it puts on the
      stream; H3Deviations.
    - H3Quinn: quinn.rs, the adapter of quinn.
    - H3Upgrade: upgrade.rs, both halves of an upgraded stream.
    - H3Endpoint: the rest of transport.rs, streams accepted and the connection
      closed.  H3Resets: the reset budgets of mod.rs.  H3Driver: the driver of
      mod.rs, [poll_driver] as one poll of the task behind [Http3::handle].
      H3DriverSpec: what its parts keep; H3DriverRuns: its runs, with a log of
      what the environment did.  Two fields of the driver only record: the tasks
      it has spawned, and the error of the control plane that closed it.

    ** State and operations

    A struct is a record with the fields of the source (fields that only save
    allocations are left out, and the file says which), an enum an inductive
    type, a method a function that takes and returns the record.  [Result] is
    [result], [Poll] and async are [op] of Poll.  Unsigned integers are [Z],
    octets the [Z] in [0, 256) ([is_byte]); where the source truncates, wraps,
    saturates or checks an operation, the width is written out ([u8], [u32],
    [checked_add64], [saturating_add64]).  Hash maps are stdpp's [gmap], deques
    and vectors lists.

    What is not Rust of this repository is a parameter: the [http] crate
    ([Http], [Http3]), [httparse] ([H1Crates]), channels and tasks ([Channels],
    [Service]), the byte stream ([Io]), the QUIC transport ([Transport]).  The
    laws a theorem needs of them are classes of their own ([RecordedIo],
    [FiniteIo], [Recorded], [Finite], ...), each with an instance the witnesses
    run.

    ** What is proved

    - Round trips: integers, strings, Huffman code, header blocks over a whole
      connection (Hpack), frames of HTTP/2 (H2Codec) and HTTP/3 (H3Frame), QPACK
      sections over a connection interleaved in any way (QpackSession), chunked
      bodies (H1Chunks).
    - Refinement of an abstract specification: the dynamic table is a FIFO
      (HpackTable), the chunk queue of the frame decoder the octets it holds
      (H3Frame), the write buffer a queue (H1WriteBuf), an HTTP/1 connection a
      sequence of exchanges (H1ConnectionSpec), control stream and request
      streams the frames received (H3ControlLoop, H3StreamRun), the body a handler
      reads the DATA frames received (H3Body).
    - What a handler answers is what is sent: its response, hints and body are
      relayed once and in order, or the stream is reset (H2ServiceSpec,
      H3TaskSpec); an upgraded stream carries the octets of both sides
      (H3Upgrade), and the adapter of quinn writes each slice once (H3Quinn).
    - How octets arrive does not matter: get_head and the readers of bodies
      (H1ReadSpec, H1Body), the decoders of frames (H2Codec, H3Frame).
    - Invariants of every reachable state: the HTTP/2 connection (H2Loop), its
      streams (H2Lifecycle), the flow of DATA (H2Flow), the HTTP/3 connection
      (H3DriverRuns); what is written is
      well-formed (H2Loop, H1WriteSpec, H3StreamRun).
    - Progress: loops end (Hpack, H2Loop, H3ControlLoop, H3StreamRun), a poll of
      the HTTP/3 driver comes back (H3DriverRuns), what is sent is delivered
      (QpackSession), a request reaches the handler (H2Exchange).
    - Errors have a reason, and only that (H3ControlLoop, H3StreamRun,
      H3DriverRuns); exact characterisations of what is accepted (H2Request,
      H3Request); the reset budgets in floating point (H3Resets).
    - Deviations: theorems on what the code does against its comments or the
      RFCs, in the files of that name.

    ** Fuel

    A loop that is not structural takes fuel, and the theorems about it give the
    fuel that is enough: the octets of a buffer for a loop that consumes some
    each turn (Hpack.decode_total, H2Loop.process_frames_total,
    H3Control.drain_control), what the stream has left to deliver for a loop
    that reads ([FiniteIo], [Finite]; H1ReadSpec, H1Body, H3StreamRun).  More
    fuel than enough changes nothing ([fueled], [enough] of Poll).  Out of fuel
    is a value of its own ([Stuck]), excluded in the conclusions.

    ** Not modelled

    - Wakers and schedulers: which task runs when is left open, and the theorems
      hold for every order of the steps.
    - Real time: a timer is a branch the environment may take.
    - The early hints of the HTTP/1 loop: their queue and octets are modelled
      (EarlyHints, H1Write), not their interleaving with the body, so the theorem
      on the loop is for connections that do not enable them.
    - Of the HTTP/3 driver the wait for the QUIC handshake and the backstop timer
      of a shutdown, which only delay or wake it.
    - System calls (h1/zerocopy.rs), and the crate root, which only re-exports
      and dispatches.
    - Options builders, documentation, the interoperability servers and clients
      (src/interop), fuzz targets, benchmarks, examples and tests. *)

From stdpp Require Export prelude gmap list strings.
From Stdlib Require Export ZArith Lia.

#[global] Open Scope Z_scope.

(** ** Fallible code

    Rust's [Result<A, E>].  The monad instances give stdpp's
    [x ← e; k] notation, which reads as the [?] operator. *)

Inductive result (E A : Type) : Type :=
| Ok (a : A)
| Err (e : E).
Arguments Ok {E A} a.
Arguments Err {E A} e.

#[global] Instance result_ret {E} : MRet (result E) := λ A a, Ok a.
#[global] Instance result_bind {E} : MBind (result E) := λ A B f m,
  match m with Ok a => f a | Err e => Err e end.
#[global] Instance result_fmap {E} : FMap (result E) := λ A B f m,
  match m with Ok a => Ok (f a) | Err e => Err e end.

#[global] Instance result_eq_dec {E A} `{EqDecision E, EqDecision A} : EqDecision (result E A).
Proof. solve_decision. Defined.

(** [opt.ok_or(e)]. *)
Definition ok_or {E A} (o : option A) (e : E) : result E A :=
  match o with Some a => Ok a | None => Err e end.

(** [if b { return Err(e) }]. *)
Definition fail_if {E} (b : bool) (e : E) : result E unit :=
  if b then Err e else Ok tt.

(** [r.map_err(f)]. *)
Definition map_err {E F A} (f : E → F) (r : result E A) : result F A :=
  match r with Ok a => Ok a | Err e => Err (f e) end.

Lemma bind_Ok {E A B} (m : result E A) (f : A → result E B) b :
  m ≫= f = Ok b ↔ ∃ a, m = Ok a ∧ f a = Ok b.
Proof. destruct m as [a|e]; cbn; naive_solver. Qed.

Lemma bind_Err {E A B} (m : result E A) (f : A → result E B) e :
  m ≫= f = Err e ↔ m = Err e ∨ ∃ a, m = Ok a ∧ f a = Err e.
Proof. destruct m as [a|e']; cbn; naive_solver. Qed.

Lemma fail_if_Ok {E} (b : bool) (e : E) u : fail_if b e = Ok u ↔ b = false.
Proof. destruct b, u; cbn; naive_solver. Qed.

Lemma ok_or_Ok {E A} (o : option A) (e : E) a : ok_or o e = Ok a ↔ o = Some a.
Proof. destruct o; cbn; naive_solver. Qed.

(** Inverts a chain of binds in hypotheses. *)
Ltac inv_result :=
  repeat match goal with
  | H : (_ ≫= _) = Ok _ |- _ => apply bind_Ok in H as (? & ? & H)
  | H : fail_if _ _ = Ok _ |- _ => apply fail_if_Ok in H
  | H : ok_or _ _ = Ok _ |- _ => apply ok_or_Ok in H
  | H : Ok _ = Ok _ |- _ => injection H as H
  | H : Err _ = Err _ |- _ => injection H as H
  | H : Ok _ = Err _ |- _ => discriminate H
  | H : Err _ = Ok _ |- _ => discriminate H
  | x : unit |- _ => destruct x
  end.

(** [lia] with division and remainder by constants. *)
Ltac dlia := Z.div_mod_to_equations; lia.

(** ** Machine integers

    Unsigned integers are [Z] in range; the widths are written out where the
    source truncates. *)

Definition u8 (z : Z) : Z := z mod 2 ^ 8.
Definition u16 (z : Z) : Z := z mod 2 ^ 16.
Definition u32 (z : Z) : Z := z mod 2 ^ 32.
Definition u64 (z : Z) : Z := z mod 2 ^ 64.
Definition u32_max : Z := 2 ^ 32 - 1.
Definition u64_max : Z := 2 ^ 64 - 1.
Definition usize_max : Z := 2 ^ 64 - 1.

(** [a.checked_add(b)] on [u64]/[usize]. *)
Definition checked_add64 (a b : Z) : option Z :=
  if a + b <=? u64_max then Some (a + b) else None.

(** [a.checked_mul(b)] on [u64]. *)
Definition checked_mul64 (a b : Z) : option Z :=
  if a * b <=? u64_max then Some (a * b) else None.

(** [a.saturating_add(b)] and [a.saturating_mul(b)] on [usize]. *)
Definition saturating_add64 (a b : Z) : Z := Z.min (a + b) usize_max.
Definition saturating_mul64 (a b : Z) : Z := Z.min (a * b) usize_max.

(** [a.div_ceil(b)]. *)
Definition div_ceil (a b : Z) : Z := (a + b - 1) / b.

(** ** Bytes *)

(** A byte is a [Z] in [0, 256); a byte string a list of them. *)
Abbreviation byte := Z (only parsing).
Abbreviation bytes := (list Z) (only parsing).

Definition is_byte (b : byte) : Prop := 0 ≤ b < 256.
Abbreviation bytes_ok := (Forall is_byte).

#[global] Instance is_byte_dec b : Decision (is_byte b).
Proof. unfold is_byte; apply _. Defined.

(** Proves [bytes_ok] of a literal. *)
Ltac solve_bytes := apply (bool_decide_unpack _); vm_compute; exact I.

(** The length of a slice as a [usize]. *)
Definition zlen {A} (l : list A) : Z := Z.of_nat (length l).

(** [slice.get(i)] with a [usize] index. *)
Definition zget {A} (l : list A) (i : Z) : option A :=
  if (0 <=? i) && (i <? zlen l) then l !! Z.to_nat i else None.

(** [slice.get(a..b)]. *)
Definition zslice {A} (l : list A) (a b : Z) : option (list A) :=
  if (0 <=? a) && (a <=? b) && (b <=? zlen l)
  then Some (take (Z.to_nat (b - a)) (drop (Z.to_nat a) l)) else None.

(** A byte-string literal [b"..."]. *)
Definition b (s : string) : bytes :=
  map (λ c, Z.of_N (Ascii.N_of_ascii c)) (String.list_ascii_of_string s).

#[global] Arguments b : simpl never.

Lemma zlen_nonneg {A} (l : list A) : 0 ≤ zlen l.
Proof. unfold zlen; lia. Qed.

Lemma zlen_nil {A} : zlen (@nil A) = 0.
Proof. reflexivity. Qed.

Lemma zlen_cons {A} (x : A) l : zlen (x :: l) = 1 + zlen l.
Proof. unfold zlen; cbn [length]; lia. Qed.

Lemma zlen_app {A} (l k : list A) : zlen (l ++ k) = zlen l + zlen k.
Proof. unfold zlen; rewrite length_app; lia. Qed.

Lemma zlen_pos {A} (l : list A) : l ≠ [] → 0 < zlen l.
Proof. destruct l as [|x l]; [done|]. rewrite zlen_cons. pose proof (zlen_nonneg l). lia. Qed.

Create HintDb zlen.
#[export] Hint Rewrite @zlen_nil @zlen_cons @zlen_app : zlen.

(** [lia] with the lengths of lists. *)
Ltac zlia :=
  autorewrite with zlen in *;
  repeat match goal with
  | |- context [zlen ?l] => lazymatch goal with _ : 0 ≤ zlen l |- _ => fail | _ => pose proof (zlen_nonneg l) end
  | _ : context [zlen ?l] |- _ => lazymatch goal with _ : 0 ≤ zlen l |- _ => fail | _ => pose proof (zlen_nonneg l) end
  end; lia.

Lemma zget_Some {A} (l : list A) i x :
  zget l i = Some x ↔ 0 ≤ i ∧ l !! Z.to_nat i = Some x.
Proof.
  unfold zget. destruct (0 <=? i) eqn:H1; destruct (i <? zlen l) eqn:H2; cbn; split;
    try discriminate.
  - intros; split; [lia | done].
  - naive_solver.
  - intros [H3 H]. apply lookup_lt_Some in H. unfold zlen in H2. lia.
  - intros [? _]; lia.
  - intros [? _]; lia.
Qed.

Lemma zget_app_l {A} (l k : list A) i x :
  zget l i = Some x → zget (l ++ k) i = Some x.
Proof. rewrite !zget_Some. intros [? H]; split; [done|]. by apply lookup_app_l_Some. Qed.

Lemma zget_app_lt {A} (l k : list A) i : i < zlen l → zget (l ++ k) i = zget l i.
Proof.
  intros H. unfold zget. rewrite zlen_app. pose proof (zlen_nonneg k).
  destruct (Z.leb_spec 0 i); cbn [andb]; [|done].
  rewrite (proj2 (Z.ltb_lt i (zlen l))), (proj2 (Z.ltb_lt i (zlen l + zlen k))) by lia.
  apply lookup_app_l. unfold zlen in H. lia.
Qed.

(** [buf.get(off)] is the head of what is left of the buffer. *)
Lemma zget_head {A} (pre : list A) x post :
  zget (pre ++ x :: post) (zlen pre) = Some x.
Proof.
  apply zget_Some. unfold zlen. split; [lia|].
  rewrite Nat2Z.id, lookup_app_r, Nat.sub_diag by lia. done.
Qed.

Lemma zslice_app {A} (pre l post : list A) :
  zslice (pre ++ l ++ post) (zlen pre) (zlen pre + zlen l) = Some l.
Proof.
  unfold zslice. rewrite !zlen_app. pose proof (zlen_nonneg pre).
  pose proof (zlen_nonneg l). pose proof (zlen_nonneg post).
  replace (0 <=? zlen pre) with true by lia.
  replace (zlen pre <=? zlen pre + zlen l) with true by lia.
  replace (zlen pre + zlen l <=? zlen pre + (zlen l + zlen post)) with true by lia.
  cbn. f_equal. replace (Z.to_nat (zlen pre + zlen l - zlen pre)) with (length l) by (unfold zlen; lia).
  replace (Z.to_nat (zlen pre)) with (length pre) by (unfold zlen; lia).
  by rewrite drop_app_length, take_app_length.
Qed.

(** *** Loops over lists *)

(** An enumerating [for] loop: the index of the first match, counting from
    [i]. *)
Fixpoint scan {A} (p : A → bool) (l : list A) (i : Z) : option Z :=
  match l with
  | [] => None
  | x :: l => if p x then Some i else scan p l (i + 1)
  end.

(** [VecDeque::pop_back]. *)
Definition pop_back {A} (l : list A) : option (A * list A) :=
  match rev l with
  | [] => None
  | e :: r => Some (e, rev r)
  end.

Lemma pop_back_snoc {A} (l : list A) e : pop_back (l ++ [e]) = Some (e, l).
Proof. unfold pop_back. rewrite rev_app_distr. cbn. by rewrite rev_involutive. Qed.

Section scan.
Context {A : Type} (p : A → bool).

Lemma scan_ge l i j : scan p l i = Some j → i ≤ j < i + zlen l.
Proof.
  revert i. induction l as [|x l IH]; intros i; cbn [scan]; [done|].
  rewrite zlen_cons. pose proof (zlen_nonneg l).
  destruct (p x); [intros [= <-]; lia|]. intros H'. apply IH in H'. lia.
Qed.

Lemma scan_shift l i k : scan p l (i + k) = (λ j, j + k) <$> scan p l i.
Proof.
  revert i. induction l as [|x l IH]; intros i; cbn [scan]; [done|].
  destruct (p x); [done|]. rewrite <- IH. f_equal. lia.
Qed.

Lemma scan_app l k i :
  scan p (l ++ k) i = match scan p l i with
    | Some j => Some j | None => scan p k (i + zlen l) end.
Proof.
  revert i. induction l as [|x l IH]; intros i; cbn [scan app].
  - by rewrite zlen_nil, Z.add_0_r.
  - destruct (p x); [done|]. rewrite IH, zlen_cons. replace (i + 1 + zlen l) with (i + (1 + zlen l)) by lia.
    done.
Qed.

Lemma scan_get l i j : scan p l i = Some j → ∃ x, zget l (j - i) = Some x ∧ p x = true.
Proof.
  revert i. induction l as [|x l IH]; intros i; cbn [scan]; [done|].
  destruct (p x) eqn:E.
  - intros [= <-]. exists x. rewrite Z.sub_diag. split; [|done]. by apply (zget_head []).
  - intros H. pose proof (scan_ge _ _ _ H). apply IH in H as (y & Hy & Hp). exists y.
    split; [|done]. apply zget_Some in Hy as [_ Hy]. apply zget_Some. split; [lia|].
    replace (Z.to_nat (j - i)) with (S (Z.to_nat (j - (i + 1)))) by lia. done.
Qed.

Lemma scan_None l i : scan p l i = None ↔ Forall (λ x, p x = false) l.
Proof.
  revert i. induction l as [|x l IH]; intros i; cbn [scan]; [by split|].
  rewrite Forall_cons. destruct (p x); [split; [done|naive_solver]|]. rewrite IH. naive_solver.
Qed.
End scan.

(** A map that answers as the scan does keeps doing so when the last entry
    is evicted: the shape of [evict_entry]. *)
Lemma scan_evict {A} (q : bool) (p : A → bool) l e i (cur : option Z) :
  cur = scan p (l ++ [e]) i → (q = true ↔ p e = true) →
  (if q && bool_decide (cur = Some (i + zlen l)) then None else cur) = scan p l i.
Proof.
  intros -> Hq. rewrite scan_app. cbn [scan].
  destruct (scan p l i) as [j|] eqn:E.
  - apply scan_ge in E. rewrite bool_decide_eq_false_2, andb_false_r; [done|]. intros [= ?]. lia.
  - destruct (p e); [|by destruct q].
    destruct q; [by rewrite bool_decide_eq_true_2|]. naive_solver.
Qed.

Lemma scan_ext {A} (p q : A → bool) l i : (∀ x, p x = q x) → scan p l i = scan q l i.
Proof. intros H. revert i. induction l as [|x l IH]; intros i; cbn; [done|]. by rewrite H, IH. Qed.

(** *** Items of several streams in one list *)

(** The first item of a stream and what is left. *)
Fixpoint take_first {A} (sid : Z) (l : list (Z * A)) : option (A * list (Z * A)) :=
  match l with
  | [] => None
  | x :: l =>
      if x.1 =? sid then Some (x.2, l)
      else '(a, rest) ← take_first sid l; Some (a, x :: rest)
  end.

(** The items of a stream. *)
Definition on {A} (sid : Z) (l : list (Z * A)) : list A :=
  omap (λ x, if x.1 =? sid then Some x.2 else None) l.

#[global] Arguments on : simpl never.

Lemma on_cons {A} sid (x : Z * A) l : on sid (x :: l) = if x.1 =? sid then x.2 :: on sid l else on sid l.
Proof. unfold on. cbn. by destruct (x.1 =? sid). Qed.

Lemma on_app {A} sid (l k : list (Z * A)) : on sid (l ++ k) = on sid l ++ on sid k.
Proof. apply omap_app. Qed.

Lemma on_one {A} sid (x : Z * A) : on sid [x] = if x.1 =? sid then [x.2] else [].
Proof. by rewrite on_cons. Qed.

Lemma take_first_spec {A} sid (l : list (Z * A)) :
  match take_first sid l with
  | Some (a, rest) => ∃ l1 l2, l = l1 ++ (sid, a) :: l2 ∧ rest = l1 ++ l2 ∧ on sid l1 = []
  | None => on sid l = []
  end.
Proof.
  induction l as [|[s a] l IH]; [done|]. cbn [take_first fst snd]. rewrite on_cons. cbn [fst snd].
  destruct (Z.eqb_spec s sid) as [->|Hne]; [by exists [], l|].
  destruct (take_first sid l) as [[a' rest]|]; cbn [mbind option_bind]; [|done].
  destruct IH as (l1 & l2 & -> & -> & H). exists ((s, a) :: l1), l2. split; [done|]. split; [done|].
  rewrite on_cons. cbn [fst]. by rewrite (proj2 (Z.eqb_neq s sid)).
Qed.

(** [slice[i]], used where the code has checked the length. *)
Definition idx (l : bytes) (i : nat) : byte := nth i l 0.

(** *** Big-endian integers *)

(** [uN::from_be_bytes]. *)
Definition be (l : bytes) : Z := foldl (λ v x, v * 256 + x) 0 l.

(** [v.to_be_bytes()], [n] octets. *)
Fixpoint to_be (n : nat) (v : Z) : bytes :=
  match n with O => [] | S n => to_be n (v / 256) ++ [v mod 256] end.

Lemma be_snoc l x : be (l ++ [x]) = be l * 256 + x.
Proof. unfold be. by rewrite foldl_app. Qed.

Lemma length_to_be n v : length (to_be n v) = n.
Proof. revert v; induction n as [|n IH]; intros v; cbn; [done|]. rewrite length_app, IH. cbn. lia. Qed.

Lemma to_be_ok n v : bytes_ok (to_be n v).
Proof.
  revert v; induction n as [|n IH]; intros v; cbn; [done|]. apply Forall_app. split; [done|].
  apply Forall_singleton. unfold is_byte. dlia.
Qed.

Lemma pow256_S n : 256 ^ Z.of_nat (S n) = 256 * 256 ^ Z.of_nat n.
Proof. rewrite Nat2Z.inj_succ, Z.pow_succ_r by lia. done. Qed.

Lemma be_to_be n v : 0 ≤ v < 256 ^ Z.of_nat n → be (to_be n v) = v.
Proof.
  revert v; induction n as [|n IH]; intros v Hv; [cbn in *; lia|]. rewrite pow256_S in Hv.
  cbn [to_be]. rewrite be_snoc, IH by dlia. dlia.
Qed.

Lemma be_bound l : bytes_ok l → 0 ≤ be l < 256 ^ zlen l.
Proof.
  intros H. induction l as [|x l IH] using rev_ind; [by vm_compute|].
  apply Forall_app in H as [Hl Hx]. rewrite Forall_singleton in Hx. specialize (IH Hl).
  rewrite be_snoc. unfold zlen in *. rewrite length_app, Nat.add_1_r, pow256_S. unfold is_byte in Hx. lia.
Qed.

Lemma to_be_be l : bytes_ok l → to_be (length l) (be l) = l.
Proof.
  induction l as [|x l IH] using rev_ind; intros H; [done|].
  apply Forall_app in H as [Hl Hx]. rewrite Forall_singleton in Hx. unfold is_byte in Hx.
  rewrite length_app, Nat.add_1_r. cbn [to_be]. rewrite be_snoc.
  replace ((be l * 256 + x) / 256) with (be l) by dlia. replace ((be l * 256 + x) mod 256) with x by dlia.
  by rewrite IH.
Qed.

#[global] Arguments be : simpl never.
#[global] Arguments to_be : simpl never.

(** ** Bit operations as arithmetic *)

Lemma land_mask x n : 0 ≤ n → Z.land x (2 ^ n - 1) = x mod 2 ^ n.
Proof. intros. rewrite <- Z.land_ones, Z.ones_equiv by done. f_equal. Qed.

(** [h & !mask] clears the low [n] bits. *)
Lemma land_clear_low h n :
  0 ≤ n ≤ 64 → 0 ≤ h < 2 ^ 64 →
  Z.land h (u64_max - (2 ^ n - 1)) = h / 2 ^ n * 2 ^ n.
Proof.
  intros Hn Hh. replace (u64_max - (2 ^ n - 1)) with (Z.shiftl (Z.ones (64 - n)) n).
  2:{ rewrite Z.shiftl_mul_pow2, Z.ones_equiv by lia. unfold u64_max.
      replace (2 ^ 64) with (2 ^ (64 - n) * 2 ^ n) by (rewrite <- Z.pow_add_r by lia; f_equal; lia).
      lia. }
  rewrite <- Z.shiftr_div_pow2, <- Z.shiftl_mul_pow2 by lia.
  apply Z.bits_inj'. intros i Hi. rewrite Z.land_spec.
  destruct (Z.ltb_spec i n).
  - rewrite !Z.shiftl_spec_low by lia. by rewrite andb_false_r.
  - rewrite !Z.shiftl_spec_high, Z.shiftr_spec by lia. replace (i - n + n) with i by lia.
    destruct (Z.ltb_spec (i - n) (64 - n)).
    + rewrite Z.ones_spec_low by lia. by rewrite andb_true_r.
    + rewrite Z.ones_spec_high by lia. rewrite andb_false_r.
      symmetry. apply Z.bits_above_log2; [lia|].
      destruct (Z.eq_dec h 0) as [->|]; [cbn; lia|]. apply Z.log2_lt_pow2; [lia|].
      eapply Z.lt_le_trans; [apply Hh|]. apply Z.pow_le_mono_r; lia.
Qed.

(** [hi | lo] of values that do not overlap. *)
Lemma lor_disjoint hi lo n :
  0 ≤ n → 0 ≤ lo < 2 ^ n → Z.lor (hi * 2 ^ n) lo = hi * 2 ^ n + lo.
Proof.
  intros Hn Hlo. rewrite <- Z.add_lor_land.
  replace (Z.land (hi * 2 ^ n) lo) with 0; [lia|].
  rewrite <- Z.shiftl_mul_pow2 by lia. apply Z.bits_inj'. intros i Hi.
  rewrite Z.land_spec, Z.bits_0. destruct (Z.ltb_spec i n).
  - by rewrite Z.shiftl_spec_low by lia.
  - replace (Z.testbit lo i) with false; [by rewrite andb_false_r|].
    symmetry. destruct (Z.eq_dec lo 0) as [->|]; [apply Z.bits_0|].
    apply Z.bits_above_log2; [lia|]. apply Z.log2_lt_pow2; [lia|].
    eapply Z.lt_le_trans; [apply Hlo|]. apply Z.pow_le_mono_r; lia.
Qed.

(** A single-bit test. *)
Lemma land_bit_zero x n : 0 ≤ n → (Z.land x (2 ^ n) =? 0) = negb (Z.testbit x n).
Proof.
  intros Hn. assert (Z.land x (2 ^ n) = if Z.testbit x n then 2 ^ n else 0) as ->.
  { apply Z.bits_inj'. intros i Hi. rewrite Z.land_spec, Z.pow2_bits_eqb by lia.
    destruct (Z.eqb_spec n i) as [->|].
    - destruct (Z.testbit x i); rewrite ?Z.pow2_bits_true, ?Z.bits_0 by lia; done.
    - rewrite andb_false_r. destruct (Z.testbit x n);
        rewrite ?Z.pow2_bits_false, ?Z.bits_0 by done; done. }
  destruct (Z.testbit x n); cbn; [|done].
  apply Z.eqb_neq. pose proof (Z.pow_pos_nonneg 2 n). lia.
Qed.

Lemma testbit_small x n : 0 ≤ x < 2 ^ n → Z.testbit x n = false.
Proof.
  intros H. destruct (Z.eq_dec x 0) as [->|]; [apply Z.bits_0|].
  apply Z.bits_above_log2; [lia|]. apply Z.log2_lt_pow2; lia.
Qed.

Lemma testbit_top x n : 0 ≤ n → 2 ^ n ≤ x < 2 ^ (n + 1) → Z.testbit x n = true.
Proof.
  intros Hn H. rewrite Z.testbit_true by lia.
  rewrite Z.pow_add_r in H by lia.
  assert (x / 2 ^ n = 1) as ->; [|done].
  symmetry. apply (Z.div_unique x (2 ^ n) 1 (x - 2 ^ n)); lia.
Qed.
