(* ===== verification/Integer.v ===== *)
(** * Prefixed integers (src/src/hpack/integer.rs)

    The N-bit-prefix integer representation shared by HPACK (RFC 7541,
    Section 5.1) and QPACK (RFC 9204, Section 4.1.1): [encode], [decode] and
    [encoded_len], the round trip between them and their bounds. *)

From S2P Require Import Prelude.

(** The errors of the HPACK/QPACK primitives ([hpack::HpackError]). *)
Inductive HpackError : Type :=
| InvalidInteger
| InvalidString
| InvalidHuffman
| InvalidIndex
| InvalidMaxSize
| HeaderListTooLarge
| InvalidRepresentation.

#[global] Instance HpackError_eq_dec : EqDecision HpackError.
Proof. solve_decision. Defined.

(** [(1u64 << prefix_bits) - 1]. *)
Definition prefix_mask (prefix_bits : Z) : Z := u64 (Z.shiftl 1 prefix_bits) - 1.

(** The [while v >= 128] loop of [encode] and the final push.  A [u64] has at
    most ten 7-bit groups: [encode_loop_unfold] shows the fuel is never
    exhausted. *)
Fixpoint encode_loop (fuel : nat) (v : Z) : bytes :=
  match fuel with
  | O => [u8 v]
  | S fuel =>
      if 128 <=? v
      then Z.lor (u8 (Z.land v 0x7f)) 0x80 :: encode_loop fuel (Z.shiftr v 7)
      else [u8 v]
  end.

(** [encode(out, value, prefix_bits, header)]: [out] with the integer
    appended. *)
Definition encode (out : bytes) (value prefix_bits : Z) (header : byte) : bytes :=
  let mask := prefix_mask prefix_bits in
  if value <? mask
  then out ++ [u8 (Z.lor (Z.land header (u64_max - mask)) value)]
  else out ++ u8 (Z.lor (Z.land header (u64_max - mask)) mask)
           :: encode_loop 10 (value - mask).

(** The loop of [decode] over [rest], the octets of the buffer from [off] on. *)
Fixpoint decode_loop (rest : bytes) (off shift value : Z) : result HpackError (Z * Z) :=
  if 56 <? shift then Err InvalidInteger
  else match rest with
  | [] => Err InvalidInteger
  | b :: rest =>
      let off := off + 1 in
      value ← ok_or (checked_add64 value (u64 (Z.shiftl (Z.land b 0x7f) shift)))
                    InvalidInteger;
      if Z.land b 0x80 =? 0
      then _ ← fail_if (Z.shiftl 1 62 <=? value) InvalidInteger; Ok (value, off)
      else decode_loop rest off (shift + 7) value
  end.

(** [decode(buf, &mut off, prefix_bits, header)]: the value and the offset
    after it. *)
Definition decode (buf : bytes) (off prefix_bits : Z) (header : byte)
    : result HpackError (Z * Z) :=
  let mask := prefix_mask prefix_bits in
  let value := Z.land header mask in
  if value <? mask then Ok (value, off)
  else decode_loop (drop (Z.to_nat off) buf) off 0 value.

(** The loop of [encoded_len] over the octets from index [len] on. *)
Fixpoint encoded_len_loop (rest : bytes) (len : Z) : option Z :=
  match rest with
  | [] => None
  | b :: rest =>
      let len := len + 1 in
      if Z.land b 0x80 =? 0 then Some len else encoded_len_loop rest len
  end.

(** [encoded_len(buf, prefix_bits)]. *)
Definition encoded_len (buf : bytes) (prefix_bits : Z) : option Z :=
  let mask := prefix_mask prefix_bits in
  match buf with
  | [] => None
  | first :: rest =>
      if Z.land first mask <? mask then Some 1 else encoded_len_loop rest 1
  end.

(** ** RFC 7541, appendix C.1 *)

Example encode_c11 : encode [] 10 5 0 = [0x0a].
Proof. reflexivity. Qed.
Example encode_c12 : encode [] 1337 5 0 = [0x1f; 0x9a; 0x0a].
Proof. reflexivity. Qed.
Example encode_c13 : encode [] 42 8 0 = [0x2a].
Proof. reflexivity. Qed.
Example decode_c12 : decode [0x1f; 0x9a; 0x0a] 1 5 0x1f = Ok (1337, 3).
Proof. reflexivity. Qed.
Example decode_overflow :
  decode (0x1f :: repeat 0xff 10 ++ [0x7f]) 1 5 0x1f = Err InvalidInteger.
Proof. reflexivity. Qed.

(** ** Encoding *)

Lemma prefix_mask_eq p : 0 ≤ p < 64 → prefix_mask p = 2 ^ p - 1.
Proof.
  intros. unfold prefix_mask, u64. rewrite Z.shiftl_mul_pow2, Z.mul_1_l by lia.
  rewrite Z.mod_small; [done|]. split; [apply Z.pow_nonneg; lia|].
  apply Z.pow_lt_mono_r; lia.
Qed.

Lemma encode_loop_byte v :
  0 ≤ v → Z.lor (u8 (Z.land v 0x7f)) 0x80 = 128 + v mod 128.
Proof.
  intros. change 0x7f with (2 ^ 7 - 1). rewrite land_mask by lia.
  change (2 ^ 7) with 128. unfold u8. rewrite Z.mod_small by dlia.
  rewrite Z.lor_comm. change 0x80 with (1 * 2 ^ 7) at 1.
  rewrite lor_disjoint by dlia. lia.
Qed.

(** With fuel for every 7-bit group of [v] the loop never runs dry. *)
Lemma encode_loop_unfold n v :
  0 ≤ v < 2 ^ (7 * Z.of_nat (S n)) →
  encode_loop (S n) v
  = if 128 <=? v then 128 + v mod 128 :: encode_loop n (v / 128) else [v].
Proof.
  intros H. cbn [encode_loop]. destruct (Z.leb_spec 128 v).
  - rewrite encode_loop_byte, Z.shiftr_div_pow2 by lia. done.
  - unfold u8. by rewrite Z.mod_small by lia.
Qed.

Lemma div_128_bound v n : 0 ≤ v < 2 ^ (7 * Z.of_nat (S n)) → 0 ≤ v / 128 < 2 ^ (7 * Z.of_nat n).
Proof.
  intros H. split; [apply Z.div_pos; lia|]. apply Z.div_lt_upper_bound; [lia|].
  change 128 with (2 ^ 7). rewrite <- Z.pow_add_r by lia.
  replace (7 + 7 * Z.of_nat n) with (7 * Z.of_nat (S n)) by lia. lia.
Qed.

Lemma encode_loop_ok n v :
  0 ≤ v < 2 ^ (7 * Z.of_nat n) → bytes_ok (encode_loop n v).
Proof.
  revert v. induction n as [|n IH]; intros v H.
  - apply Forall_singleton. unfold is_byte, u8. change (2 ^ 8) with 256. dlia.
  - rewrite encode_loop_unfold by done. destruct (Z.leb_spec 128 v).
    + constructor; [unfold is_byte; dlia|]. by apply IH, div_128_bound.
    + apply Forall_singleton. unfold is_byte. lia.
Qed.

(** The octets [encode] appends: the prefix octet and the continuation. *)
Definition prefix_octet (value p : Z) (header : byte) : byte :=
  header / 2 ^ p * 2 ^ p + Z.min value (2 ^ p - 1).

Definition continuation (value p : Z) : bytes :=
  if value <? 2 ^ p - 1 then [] else encode_loop 10 (value - (2 ^ p - 1)).

Lemma encode_loop_len n v : zlen (encode_loop n v) ≤ Z.of_nat n + 1.
Proof.
  revert v. induction n as [|n IH]; intros v; cbn [encode_loop]; [by unfold zlen|].
  case_match; [rewrite zlen_cons; specialize (IH (Z.shiftr v 7)); lia|unfold zlen; cbn; lia].
Qed.

Lemma continuation_len value p : zlen (continuation value p) ≤ 11.
Proof.
  unfold continuation. case_match; [by unfold zlen|].
  pose proof (encode_loop_len 10 (value - (2 ^ p - 1))). lia.
Qed.

Lemma continuation_ok value p :
  1 ≤ p ≤ 8 → 0 ≤ value < 2 ^ 64 → bytes_ok (continuation value p).
Proof.
  intros Hp Hv. assert (0 < 2 ^ p) by (apply Z.pow_pos_nonneg; lia).
  unfold continuation. case_match; [done|]. apply encode_loop_ok.
  change (7 * Z.of_nat 10) with 70. assert (2 ^ 64 < 2 ^ 70) by done. lia.
Qed.

Lemma prefix_octet_bound value p header :
  1 ≤ p ≤ 8 → 0 ≤ value → is_byte header → is_byte (prefix_octet value p header).
Proof.
  intros Hp Hv Hh. unfold prefix_octet, is_byte in *.
  assert (2 ^ 8 = 2 ^ (8 - p) * 2 ^ p) as Heq by (rewrite <- Z.pow_add_r by lia; f_equal; lia).
  change (2 ^ 8) with 256 in Heq.
  assert (0 < 2 ^ p) by (apply Z.pow_pos_nonneg; lia).
  assert (0 ≤ header / 2 ^ p) by (apply Z.div_pos; lia).
  assert (header / 2 ^ p < 2 ^ (8 - p)) by (apply Z.div_lt_upper_bound; lia). nia.
Qed.

Lemma encode_octets out value p header :
  1 ≤ p ≤ 8 → 0 ≤ value → is_byte header →
  encode out value p header
  = out ++ prefix_octet value p header :: continuation value p.
Proof.
  intros Hp Hv Hh. pose proof (prefix_octet_bound value p header Hp Hv Hh) as Hb.
  assert (0 < 2 ^ p) by (apply Z.pow_pos_nonneg; lia).
  unfold encode, continuation, is_byte in *. rewrite prefix_mask_eq by lia.
  rewrite land_clear_low by lia.
  unfold prefix_octet in *. destruct (Z.ltb_spec value (2 ^ p - 1)) as [Hlt|Hge].
  - rewrite Z.min_l in * by lia.
    rewrite lor_disjoint by lia.
    unfold u8. by rewrite Z.mod_small by lia.
  - rewrite Z.min_r in * by lia.
    rewrite lor_disjoint by lia.
    unfold u8. by rewrite Z.mod_small by lia.
Qed.

(** ** Decoding *)

Lemma decode_loop_value k b :
  0 ≤ k ≤ 8 → is_byte b → u64 (Z.shiftl (Z.land b 0x7f) (7 * k)) = b mod 128 * 2 ^ (7 * k).
Proof.
  intros Hk Hb. change 0x7f with (2 ^ 7 - 1). rewrite land_mask, Z.shiftl_mul_pow2 by lia.
  change (2 ^ 7) with 128. unfold u64. apply Z.mod_small.
  assert (2 ^ (7 * k) ≤ 2 ^ 56) by (apply Z.pow_le_mono_r; lia).
  assert (0 < 2 ^ (7 * k)) by (apply Z.pow_pos_nonneg; lia).
  unfold is_byte in *. change (2 ^ 56) with 72057594037927936 in *.
  change (2 ^ 64) with 18446744073709551616. assert (0 ≤ b mod 128 < 128) by dlia. nia.
Qed.

Lemma land_0x80 b : is_byte b → (Z.land b 0x80 =? 0) = (b <? 128).
Proof.
  intros Hb. unfold is_byte in *. change 0x80 with (2 ^ 7) at 1. rewrite land_bit_zero by lia.
  destruct (Z.ltb_spec b 128).
  - by rewrite testbit_small by lia.
  - by rewrite testbit_top by lia.
Qed.

(** One octet of the loop, with the arithmetic done. *)
Lemma decode_loop_step d rest off k acc :
  is_byte d → 0 ≤ k ≤ 8 →
  decode_loop (d :: rest) off (7 * k) acc
  = let acc' := acc + d mod 128 * 2 ^ (7 * k) in
    if u64_max <? acc' then Err InvalidInteger
    else if d <? 128
    then if 2 ^ 62 <=? acc' then Err InvalidInteger else Ok (acc', off + 1)
    else decode_loop rest (off + 1) (7 * (k + 1)) acc'.
Proof.
  intros Hd Hk. cbn [decode_loop]. destruct (Z.ltb_spec 56 (7 * k)); [lia|].
  rewrite decode_loop_value, land_0x80 by done. unfold checked_add64. cbn zeta.
  rewrite Z.leb_antisym. destruct (u64_max <? _); cbn; [done|].
  change (Z.shiftl 1 62) with (2 ^ 62).
  replace (7 * k + 7) with (7 * (k + 1)) by lia.
  destruct (d <? 128); [|done]. by destruct (2 ^ 62 <=? _).
Qed.

(** [acc + v * 2 ^ (7 k)], one 7-bit group further. *)
Lemma group_split acc v k :
  0 ≤ k → acc + v * 2 ^ (7 * k)
  = acc + v mod 128 * 2 ^ (7 * k) + v / 128 * 2 ^ (7 * (k + 1)).
Proof.
  intros. pose proof (Z.div_mod v 128 ltac:(lia)).
  replace (7 * (k + 1)) with (7 * k + 7) by lia. rewrite Z.pow_add_r by lia.
  change (2 ^ 7) with 128. nia.
Qed.

(** Decoding what the encoder's loop wrote: exactly the 62-bit values. *)
Lemma decode_encode_loop n : ∀ v post off k acc,
  0 ≤ v < 2 ^ (7 * Z.of_nat (S n)) → 0 ≤ acc → 0 ≤ k ≤ 9 →
  decode_loop (encode_loop (S n) v ++ post) off (7 * k) acc
  = if (acc + v * 2 ^ (7 * k) <? 2 ^ 62) && (k <=? 8)
    then Ok (acc + v * 2 ^ (7 * k), off + zlen (encode_loop (S n) v))
    else Err InvalidInteger.
Proof.
  assert (Hu : u64_max = 18446744073709551615) by reflexivity.
  assert (H62 : 2 ^ 62 = 4611686018427387904) by reflexivity.
  induction n as [|n IH]; intros v post off k acc Hv Ha Hk;
    (destruct (Z.eq_dec k 9) as [->|];
     [rewrite andb_false_r; by destruct (_ ++ _)|]);
    rewrite encode_loop_unfold by done;
    assert (0 < 2 ^ (7 * k)) by (apply Z.pow_pos_nonneg; lia);
    replace (k <=? 8) with true by lia; rewrite andb_true_r;
    (destruct (Z.leb_spec 128 v);
     [|cbn [app]; rewrite decode_loop_step by (unfold is_byte; lia); cbn zeta;
       rewrite Z.mod_small, zlen_cons, zlen_nil by lia;
       replace (v <? 128) with true by lia; rewrite Z.leb_antisym;
       destruct (Z.ltb_spec (acc + v * 2 ^ (7 * k)) (2 ^ 62)),
         (Z.ltb_spec u64_max (acc + v * 2 ^ (7 * k))); cbn; done || lia]).
  - change (7 * Z.of_nat 1) with 7 in Hv. lia.
  - assert (0 ≤ v mod 128 < 128) by dlia.
    cbn [app]. rewrite decode_loop_step by (unfold is_byte; lia). cbn zeta.
    replace ((128 + v mod 128) mod 128) with (v mod 128) by dlia.
    replace (128 + v mod 128 <? 128) with false by lia.
    rewrite IH by (try apply div_128_bound; lia || nia).
    rewrite <- group_split, zlen_cons by lia.
    assert (0 ≤ v / 128 * 2 ^ (7 * (k + 1))).
    { apply Z.mul_nonneg_nonneg; [dlia|apply Z.pow_nonneg; lia]. }
    pose proof (group_split acc v k).
    destruct (Z.ltb_spec u64_max (acc + v mod 128 * 2 ^ (7 * k))).
    + replace (acc + v * 2 ^ (7 * k) <? 2 ^ 62) with false by lia. done.
    + destruct (Z.ltb_spec (acc + v * 2 ^ (7 * k)) (2 ^ 62)); cbn; [|done].
      replace (k + 1 <=? 8) with true.
      { f_equal. f_equal. lia. }
      destruct (Z.eq_dec k 8) as [->|]; [|lia].
      change (2 ^ (7 * 8)) with 72057594037927936 in *. lia.
Qed.

Lemma decode_octets pre post value p header :
  1 ≤ p ≤ 8 → 0 ≤ value < 2 ^ 64 → is_byte header →
  decode (pre ++ prefix_octet value p header :: continuation value p ++ post)
    (zlen pre + 1) p (prefix_octet value p header)
  = if value <? 2 ^ 62 then Ok (value, zlen pre + 1 + zlen (continuation value p))
    else Err InvalidInteger.
Proof.
  intros Hp Hv Hh. unfold decode. rewrite prefix_mask_eq by lia.
  assert (0 < 2 ^ p) by (apply Z.pow_pos_nonneg; lia).
  assert (2 ^ p ≤ 2 ^ 8) by (apply Z.pow_le_mono_r; lia).
  assert (2 ^ 8 = 256) by done. assert (2 ^ 62 = 4611686018427387904) by done.
  assert (Z.land (prefix_octet value p header) (2 ^ p - 1) = Z.min value (2 ^ p - 1)) as ->.
  { rewrite land_mask by lia. unfold prefix_octet.
    rewrite Z.add_comm, Z.mod_add, Z.mod_small by lia. done. }
  unfold continuation. destruct (Z.ltb_spec value (2 ^ p - 1)).
  - rewrite Z.min_l by lia. replace (value <? 2 ^ p - 1) with true by lia.
    replace (value <? 2 ^ 62) with true by lia. rewrite zlen_nil. do 2 f_equal. lia.
  - rewrite Z.min_r by lia. rewrite Z.ltb_irrefl.
    replace (Z.to_nat (zlen pre + 1)) with (S (length pre)) by (unfold zlen; lia).
    rewrite drop_app_ge by lia. replace (S (length pre) - length pre)%nat with 1%nat by lia.
    rewrite skipn_cons, drop_0. change 0 with (7 * 0). rewrite decode_encode_loop.
    + change (7 * 0) with 0. rewrite Z.pow_0_r, Z.mul_1_r.
      replace (2 ^ p - 1 + (value - (2 ^ p - 1))) with value by lia.
      change (0 <=? 8) with true. by rewrite andb_true_r.
    + split; [lia|]. change (7 * Z.of_nat 10) with 70.
      assert (2 ^ 64 < 2 ^ 70) by done. lia.
    + lia.
    + lia.
Qed.

(** What a successful decode tells: a 62-bit value, at most nine continuation
    octets, all inside the buffer. *)
Lemma decode_loop_bounds rest : ∀ off k acc v off',
  bytes_ok rest → 0 ≤ k → 0 ≤ acc →
  decode_loop rest off (7 * k) acc = Ok (v, off') →
  0 ≤ v < 2 ^ 62 ∧ off < off' ≤ off + zlen rest ∧ off' ≤ off + (9 - k).
Proof.
  induction rest as [|d rest IH]; intros off k acc v off' Hok Hk Ha H.
  - cbn in H. by destruct (56 <? 7 * k).
  - apply Forall_cons in Hok as [Hd Hok]. rewrite zlen_cons. pose proof (zlen_nonneg rest).
    destruct (Z.le_gt_cases k 8).
    2:{ cbn [decode_loop] in H. destruct (Z.ltb_spec 56 (7 * k)); [done|lia]. }
    rewrite decode_loop_step in H by done. cbn zeta in H.
    assert (0 ≤ d mod 128) by dlia.
    assert (0 < 2 ^ (7 * k)) by (apply Z.pow_pos_nonneg; lia).
    assert (0 ≤ acc + d mod 128 * 2 ^ (7 * k)) by nia.
    destruct (u64_max <? _); [done|]. destruct (d <? 128).
    + destruct (Z.leb_spec (2 ^ 62) (acc + d mod 128 * 2 ^ (7 * k))); [done|].
      injection H as <- <-. lia.
    + apply IH in H; [|done|lia|lia]. lia.
Qed.

Lemma decode_bounds_aux buf off p header v off' :
  1 ≤ p ≤ 8 → bytes_ok buf → is_byte header → 0 ≤ off ≤ zlen buf →
  decode buf off p header = Ok (v, off') →
  0 ≤ v < 2 ^ 62 ∧ off ≤ off' ≤ zlen buf ∧ off' ≤ off + 9.
Proof.
  intros Hp Hbuf Hh Hoff. unfold decode. rewrite prefix_mask_eq, land_mask by lia.
  assert (0 < 2 ^ p) by (apply Z.pow_pos_nonneg; lia).
  assert (2 ^ p ≤ 2 ^ 8) by (apply Z.pow_le_mono_r; lia).
  assert (2 ^ 8 = 256) by done. assert (2 ^ 62 = 4611686018427387904) by done.
  pose proof (Z.mod_pos_bound header (2 ^ p) ltac:(lia)).
  destruct (Z.ltb_spec (header mod 2 ^ p) (2 ^ p - 1)); intros Hd.
  - injection Hd as <- <-. lia.
  - change 0 with (7 * 0) in Hd at 1. apply decode_loop_bounds in Hd; [|by apply Forall_drop|lia|lia].
    unfold zlen in *. rewrite length_drop in Hd. lia.
Qed.

Lemma encoded_len_decode_loop rest : ∀ off k acc v off',
  bytes_ok rest → 0 ≤ k →
  decode_loop rest off (7 * k) acc = Ok (v, off') → encoded_len_loop rest off = Some off'.
Proof.
  induction rest as [|d rest IH]; intros off k acc v off' Hok Hk H.
  - cbn in H. by destruct (56 <? 7 * k).
  - apply Forall_cons in Hok as [Hd Hok].
    destruct (Z.le_gt_cases k 8).
    2:{ cbn [decode_loop] in H. destruct (Z.ltb_spec 56 (7 * k)); [done|lia]. }
    rewrite decode_loop_step in H by done. cbn zeta in H.
    cbn [encoded_len_loop]. rewrite land_0x80 by done.
    destruct (u64_max <? _); [done|]. destruct (d <? 128).
    + destruct (2 ^ 62 <=? _); [done|]. by injection H as <- <-.
    + by eapply IH in H; [|done|lia].
Qed.

(** The length probe agrees with the decoder. *)
Lemma encoded_len_decode first rest p v off :
  1 ≤ p ≤ 8 → bytes_ok (first :: rest) →
  decode (first :: rest) 1 p first = Ok (v, off) → encoded_len (first :: rest) p = Some off.
Proof.
  intros Hp Hok Hd. pose proof (Forall_cons_1 _ _ _ Hok) as [Hf Hr].
  unfold decode, encoded_len in *. case_match; [by injection Hd as <- <-|].
  change 0 with (7 * 0) in Hd at 1. by eapply encoded_len_decode_loop in Hd; [|done|lia].
Qed.

(** *** An integer as a piece of a buffer *)

Definition int_octets (value p : Z) (header : byte) : bytes :=
  prefix_octet value p header :: continuation value p.

Lemma encode_int out value p header :
  1 ≤ p ≤ 8 → 0 ≤ value → is_byte header →
  encode out value p header = out ++ int_octets value p header.
Proof. apply encode_octets. Qed.

Lemma int_octets_ok value p header :
  1 ≤ p ≤ 8 → 0 ≤ value < 2 ^ 64 → is_byte header → bytes_ok (int_octets value p header).
Proof.
  intros. constructor; [by apply prefix_octet_bound; [|lia|]|by apply continuation_ok].
Qed.

Lemma int_octets_len value p header : 1 ≤ zlen (int_octets value p header) ≤ 12.
Proof.
  unfold int_octets. rewrite zlen_cons. pose proof (continuation_len value p).
  zlia.
Qed.

Lemma decode_int pre post value p header :
  1 ≤ p ≤ 8 → 0 ≤ value < 2 ^ 62 → is_byte header →
  decode (pre ++ int_octets value p header ++ post) (zlen pre + 1) p (prefix_octet value p header)
  = Ok (value, zlen pre + zlen (int_octets value p header)).
Proof.
  intros Hp Hv Hh. assert (2 ^ 62 < 2 ^ 64) by done. unfold int_octets. cbn [app].
  rewrite decode_octets by (done || lia). replace (value <? 2 ^ 62) with true by lia.
  rewrite zlen_cons. do 2 f_equal. lia.
Qed.

Lemma encoded_len_int post value p header :
  1 ≤ p ≤ 8 → 0 ≤ value < 2 ^ 62 → is_byte header → bytes_ok post →
  encoded_len (int_octets value p header ++ post) p = Some (zlen (int_octets value p header)).
Proof.
  intros Hp Hv Hh Hpost. assert (2 ^ 62 < 2 ^ 64) by done.
  pose proof (int_octets_ok value p header Hp ltac:(lia) Hh) as Hok.
  apply (encoded_len_decode (prefix_octet value p header) (continuation value p ++ post) p value);
    [done|by apply (Forall_app_2 _ (int_octets value p header))|].
  by apply (decode_int [] post).
Qed.

Lemma int_octets_short value p header :
  1 ≤ p ≤ 8 → 0 ≤ value < 2 ^ 62 → is_byte header → zlen (int_octets value p header) ≤ 10.
Proof.
  intros Hp Hv Hh. assert (2 ^ 62 < 2 ^ 64) by done.
  pose proof (int_octets_ok value p header Hp ltac:(lia) Hh) as Hok.
  pose proof (decode_int [] [] value p header Hp Hv Hh) as Hd. rewrite app_nil_r in Hd. cbn [app] in Hd.
  change (zlen [] + 1) with 1 in Hd.
  apply decode_bounds_aux in Hd as (_ & Hoff & Hlen); [rewrite zlen_nil in Hlen; lia|done|done| |].
  - by apply Forall_cons in Hok as [? _].
  - pose proof (int_octets_len value p header). lia.
Qed.

(** *** More octets do not change what was read *)

Lemma encoded_len_loop_app l k n v : encoded_len_loop l n = Some v → encoded_len_loop (l ++ k) n = Some v.
Proof.
  revert n. induction l as [|x l IH]; intros n; [done|]. cbn. case_match; [done|]. apply IH.
Qed.

Lemma encoded_len_app l k p n : encoded_len l p = Some n → encoded_len (l ++ k) p = Some n.
Proof. destruct l as [|x l]; [done|]. cbn. case_match; [done|]. apply encoded_len_loop_app. Qed.

Lemma encoded_len_loop_bounds l n v : encoded_len_loop l n = Some v → n < v ≤ n + zlen l.
Proof.
  revert n. induction l as [|x l IH]; intros n; [done|]. cbn. rewrite zlen_cons. pose proof (zlen_nonneg l).
  case_match; [intros [= <-]; lia|]. intros Hv%IH. lia.
Qed.

Lemma encoded_len_range l p n : encoded_len l p = Some n → 1 ≤ n ≤ zlen l.
Proof.
  destruct l as [|x l]; [done|]. cbn. rewrite zlen_cons. pose proof (zlen_nonneg l).
  case_match; [intros [= <-]; lia|]. intros Hv%encoded_len_loop_bounds. lia.
Qed.

Lemma decode_loop_app l k off sh v r : decode_loop l off sh v = Ok r → decode_loop (l ++ k) off sh v = Ok r.
Proof.
  revert off sh v. induction l as [|x l IH]; intros off sh v; cbn [decode_loop app].
  - by destruct (56 <? sh).
  - destruct (56 <? sh); [done|]. destruct (ok_or _ _) as [a|]; [|done]. cbn.
    case_match; [done|]. apply IH.
Qed.

Lemma decode_app l k off p header r : 0 ≤ off ≤ zlen l →
  decode l off p header = Ok r → decode (l ++ k) off p header = Ok r.
Proof.
  intros Ho. unfold decode. case_match; [done|]. unfold zlen in Ho. rewrite drop_app_le by lia.
  apply decode_loop_app.
Qed.

(** Masks above the prefix see the header. *)
Lemma land_prefix_octet value p header m :
  1 ≤ p ≤ 8 → 0 ≤ value → Z.land m (2 ^ p - 1) = 0 →
  Z.land (prefix_octet value p header) m = Z.land header m.
Proof.
  intros Hp Hv Hm. assert (0 < 2 ^ p) by (apply Z.pow_pos_nonneg; lia).
  apply Z.bits_inj'. intros i Hi. rewrite !Z.land_spec. destruct (Z.ltb_spec i p).
  - assert (Z.testbit m i = false) as ->; [|by rewrite !andb_false_r].
    apply (f_equal (λ x, Z.testbit x i)) in Hm. rewrite Z.land_spec, Z.bits_0 in Hm.
    replace (2 ^ p - 1) with (Z.ones p) in Hm by (rewrite Z.ones_equiv; lia).
    rewrite Z.ones_spec_low, andb_true_r in Hm by lia. done.
  - f_equal. replace i with (i - p + p) by lia. rewrite <- !Z.div_pow2_bits by lia. f_equal.
    unfold prefix_octet. rewrite Z.add_comm, Z.div_add, Z.div_small by lia. lia.
Qed.

(** ** Properties *)

(** Round trip with exact domain: for every [u64] value, prefix width 1 to
    8 and header octet, [encode] appends one octet that keeps the header's
    high bits and its continuation octets, and [decode] placed on them (any
    bytes before and after) gives the value back with the offset just after
    them if the value is below 2^62, and [InvalidInteger] otherwise. *)
Theorem decode_encode pre post value p header :
  1 ≤ p ≤ 8 → 0 ≤ value < 2 ^ 64 → is_byte header →
  ∃ first rest, encode pre value p header = pre ++ first :: rest
    ∧ bytes_ok (first :: rest) ∧ first / 2 ^ p = header / 2 ^ p
    ∧ decode (pre ++ (first :: rest) ++ post) (zlen pre + 1) p first
      = if value <? 2 ^ 62 then Ok (value, zlen pre + zlen (first :: rest))
        else Err InvalidInteger.
Proof.
  intros Hp Hv Hh. exists (prefix_octet value p header), (continuation value p).
  assert (0 < 2 ^ p) by (apply Z.pow_pos_nonneg; lia).
  split_and!.
  - apply encode_octets; lia || done.
  - constructor; [apply prefix_octet_bound; lia || done|by apply continuation_ok].
  - unfold prefix_octet. rewrite Z.add_comm, Z.div_add, Z.div_small by lia. lia.
  - cbn [app]. rewrite decode_octets by done. case_match; [|done].
    rewrite zlen_cons. do 2 f_equal. lia.
Qed.

Lemma decode_encode_witness :
  ∃ first rest, encode [7] 1337 5 0x20 = [7] ++ first :: rest
    ∧ bytes_ok (first :: rest) ∧ first / 2 ^ 5 = 0x20 / 2 ^ 5
    ∧ decode ([7] ++ (first :: rest) ++ [1; 2]) (zlen [7] + 1) 5 first
      = if 1337 <? 2 ^ 62 then Ok (1337, zlen [7] + zlen (first :: rest))
        else Err InvalidInteger.
Proof. apply (decode_encode [7] [1; 2] 1337 5 0x20); unfold is_byte; lia. Defined.

(** Decoding is bounded and agrees with the length probe: a decoded integer
    is below 2^62, [decode] reads at most nine continuation octets and never
    past the buffer, and [encoded_len] on the same octets gives exactly the
    offset [decode] stops at. *)
Theorem decode_bounds first rest p v off :
  1 ≤ p ≤ 8 → bytes_ok (first :: rest) →
  decode (first :: rest) 1 p first = Ok (v, off) →
  0 ≤ v < 2 ^ 62 ∧ 1 ≤ off ≤ zlen (first :: rest) ∧ off ≤ 10
  ∧ encoded_len (first :: rest) p = Some off.
Proof.
  intros Hp Hok Hd. pose proof (zlen_nonneg rest).
  pose proof (Forall_cons_1 _ _ _ Hok) as [Hf Hr].
  split_and!; [..|by eapply encoded_len_decode];
    (apply decode_bounds_aux in Hd; rewrite ?zlen_cons in *; lia || done).
Qed.

Lemma decode_bounds_witness :
  0 ≤ 1337 < 2 ^ 62 ∧ 1 ≤ 3 ≤ zlen [0x1f; 0x9a; 0x0a; 9] ∧ 3 ≤ 10
  ∧ encoded_len [0x1f; 0x9a; 0x0a; 9] 5 = Some 3.
Proof.
  apply (decode_bounds 0x1f [0x9a; 0x0a; 9] 5 1337 3); [lia|solve_bytes|reflexivity].
Defined.
