(* ===== verification/Huffman.v ===== *)
(** * Huffman coding (src/src/hpack/huffman.rs)

    The RFC 7541 Appendix B code as the source lists it ([CODES]), the encoder
    [encode_with_len] with its 64-bit accumulator, the decoder [decode] that
    walks the byte-indexed DFA, and their specification on bit strings: [decode]
    accepts exactly the code words of a byte string followed by fewer than
    eight one-bits, and [encode_with_len] produces exactly that. *)

From S2P Require Import Prelude Integer HuffmanTable.

(** (bit length, code). Entry 256 is EOS. *)
Definition CODES : list (Z * Z) := [
   (13,0x1FF8); (23,0x7FFFD8); (28,0xFFFFFE2); (28,0xFFFFFE3); (28,0xFFFFFE4); (28,0xFFFFFE5); (28,0xFFFFFE6); (28,0xFFFFFE7);
   (28,0xFFFFFE8); (24,0xFFFFEA); (30,0x3FFFFFFC); (28,0xFFFFFE9); (28,0xFFFFFEA); (30,0x3FFFFFFD); (28,0xFFFFFEB); (28,0xFFFFFEC);
   (28,0xFFFFFED); (28,0xFFFFFEE); (28,0xFFFFFEF); (28,0xFFFFFF0); (28,0xFFFFFF1); (28,0xFFFFFF2); (30,0x3FFFFFFE); (28,0xFFFFFF3);
   (28,0xFFFFFF4); (28,0xFFFFFF5); (28,0xFFFFFF6); (28,0xFFFFFF7); (28,0xFFFFFF8); (28,0xFFFFFF9); (28,0xFFFFFFA); (28,0xFFFFFFB);
   (6,0x14); (10,0x3F8); (10,0x3F9); (12,0xFFA); (13,0x1FF9); (6,0x15); (8,0xF8); (11,0x7FA);
   (10,0x3FA); (10,0x3FB); (8,0xF9); (11,0x7FB); (8,0xFA); (6,0x16); (6,0x17); (6,0x18);
   (5,0x0); (5,0x1); (5,0x2); (6,0x19); (6,0x1A); (6,0x1B); (6,0x1C); (6,0x1D);
   (6,0x1E); (6,0x1F); (7,0x5C); (8,0xFB); (15,0x7FFC); (6,0x20); (12,0xFFB); (10,0x3FC);
   (13,0x1FFA); (6,0x21); (7,0x5D); (7,0x5E); (7,0x5F); (7,0x60); (7,0x61); (7,0x62);
   (7,0x63); (7,0x64); (7,0x65); (7,0x66); (7,0x67); (7,0x68); (7,0x69); (7,0x6A);
   (7,0x6B); (7,0x6C); (7,0x6D); (7,0x6E); (7,0x6F); (7,0x70); (7,0x71); (7,0x72);
   (8,0xFC); (7,0x73); (8,0xFD); (13,0x1FFB); (19,0x7FFF0); (13,0x1FFC); (14,0x3FFC); (6,0x22);
   (15,0x7FFD); (5,0x3); (6,0x23); (5,0x4); (6,0x24); (5,0x5); (6,0x25); (6,0x26);
   (6,0x27); (5,0x6); (7,0x74); (7,0x75); (6,0x28); (6,0x29); (6,0x2A); (5,0x7);
   (6,0x2B); (7,0x76); (6,0x2C); (5,0x8); (5,0x9); (6,0x2D); (7,0x77); (7,0x78);
   (7,0x79); (7,0x7A); (7,0x7B); (15,0x7FFE); (11,0x7FC); (14,0x3FFD); (13,0x1FFD); (28,0xFFFFFFC);
   (20,0xFFFE6); (22,0x3FFFD2); (20,0xFFFE7); (20,0xFFFE8); (22,0x3FFFD3); (22,0x3FFFD4); (22,0x3FFFD5); (23,0x7FFFD9);
   (22,0x3FFFD6); (23,0x7FFFDA); (23,0x7FFFDB); (23,0x7FFFDC); (23,0x7FFFDD); (23,0x7FFFDE); (24,0xFFFFEB); (23,0x7FFFDF);
   (24,0xFFFFEC); (24,0xFFFFED); (22,0x3FFFD7); (23,0x7FFFE0); (24,0xFFFFEE); (23,0x7FFFE1); (23,0x7FFFE2); (23,0x7FFFE3);
   (23,0x7FFFE4); (21,0x1FFFDC); (22,0x3FFFD8); (23,0x7FFFE5); (22,0x3FFFD9); (23,0x7FFFE6); (23,0x7FFFE7); (24,0xFFFFEF);
   (22,0x3FFFDA); (21,0x1FFFDD); (20,0xFFFE9); (22,0x3FFFDB); (22,0x3FFFDC); (23,0x7FFFE8); (23,0x7FFFE9); (21,0x1FFFDE);
   (23,0x7FFFEA); (22,0x3FFFDD); (22,0x3FFFDE); (24,0xFFFFF0); (21,0x1FFFDF); (22,0x3FFFDF); (23,0x7FFFEB); (23,0x7FFFEC);
   (21,0x1FFFE0); (21,0x1FFFE1); (22,0x3FFFE0); (21,0x1FFFE2); (23,0x7FFFED); (22,0x3FFFE1); (23,0x7FFFEE); (23,0x7FFFEF);
   (20,0xFFFEA); (22,0x3FFFE2); (22,0x3FFFE3); (22,0x3FFFE4); (23,0x7FFFF0); (22,0x3FFFE5); (22,0x3FFFE6); (23,0x7FFFF1);
   (26,0x3FFFFE0); (26,0x3FFFFE1); (20,0xFFFEB); (19,0x7FFF1); (22,0x3FFFE7); (23,0x7FFFF2); (22,0x3FFFE8); (25,0x1FFFFEC);
   (26,0x3FFFFE2); (26,0x3FFFFE3); (26,0x3FFFFE4); (27,0x7FFFFDE); (27,0x7FFFFDF); (26,0x3FFFFE5); (24,0xFFFFF1); (25,0x1FFFFED);
   (19,0x7FFF2); (21,0x1FFFE3); (26,0x3FFFFE6); (27,0x7FFFFE0); (27,0x7FFFFE1); (26,0x3FFFFE7); (27,0x7FFFFE2); (24,0xFFFFF2);
   (21,0x1FFFE4); (21,0x1FFFE5); (26,0x3FFFFE8); (26,0x3FFFFE9); (28,0xFFFFFFD); (27,0x7FFFFE3); (27,0x7FFFFE4); (27,0x7FFFFE5);
   (20,0xFFFEC); (24,0xFFFFF3); (20,0xFFFED); (21,0x1FFFE6); (22,0x3FFFE9); (21,0x1FFFE7); (21,0x1FFFE8); (23,0x7FFFF3);
   (22,0x3FFFEA); (22,0x3FFFEB); (25,0x1FFFFEE); (25,0x1FFFFEF); (24,0xFFFFF4); (24,0xFFFFF5); (26,0x3FFFFEA); (23,0x7FFFF4);
   (26,0x3FFFFEB); (27,0x7FFFFE6); (26,0x3FFFFEC); (26,0x3FFFFED); (27,0x7FFFFE7); (27,0x7FFFFE8); (27,0x7FFFFE9); (27,0x7FFFFEA);
   (27,0x7FFFFEB); (28,0xFFFFFFE); (27,0x7FFFFEC); (27,0x7FFFFED); (27,0x7FFFFEE); (27,0x7FFFFEF); (27,0x7FFFFF0); (26,0x3FFFFEE);
   (30,0x3FFFFFFF)].

(** [CODES[b as usize]]. *)
Definition code_at (b : Z) : Z * Z := nth (Z.to_nat b) CODES (0, 0).
#[global] Arguments code_at : simpl never.

(** [v.to_be_bytes()] of a [u32]. *)
Definition to_be_bytes32 (v : Z) : bytes :=
  [u8 (Z.shiftr v 24); u8 (Z.shiftr v 16); u8 (Z.shiftr v 8); u8 v].

(** One turn of the loop of [encode_with_len]; the state is [(bits, nbits, dst)]. *)
Definition encode_symbol (st : Z * Z * bytes) (b : byte) : Z * Z * bytes :=
  let '(bits, nbits, dst) := st in
  let '(len, code) := code_at b in
  let bits := Z.lor (u64 (Z.shiftl bits len)) code in
  let nbits := nbits + len in
  if 32 <=? nbits
  then let nbits := nbits - 32 in
       let dst := dst ++ to_be_bytes32 (u32 (Z.shiftr bits nbits)) in
       (Z.land bits (Z.shiftl 1 nbits - 1), nbits, dst)
  else (bits, nbits, dst).

(** [encode_with_len(src, dst, _)]: the length argument only sizes a debug
    assertion. *)
Definition encode_with_len (src dst : bytes) : bytes :=
  let '(bits, nbits, dst) := foldl encode_symbol (0, 0, dst) src in
  if 0 <? nbits
  then let byte_len := div_ceil nbits 8 in
       let padded := Z.lor (u64 (Z.shiftl bits (32 - nbits))) (Z.shiftl 1 (32 - nbits) - 1) in
       dst ++ take (Z.to_nat byte_len) (to_be_bytes32 (u32 padded))
  else dst.

(** [encoded_len(src)]: the number of bits. *)
Definition encoded_len (src : bytes) : Z :=
  foldr Z.add 0 (map (λ b, (code_at b).1) src).

(** The loop of [decode]; the state is [(state, accepted, dst)]. *)
Fixpoint decode_loop (src : bytes) (state : Z) (accepted : bool) (dst : bytes)
    : result HpackError bytes :=
  match src with
  | [] => if accepted then Ok dst else Err InvalidHuffman
  | byte :: src =>
      let '(next, flags, (high_sym, low_sym)) := HUFF_DFA8 (Z.lor (Z.shiftl state 8) byte) in
      if negb (Z.land flags 0x04 =? 0) then Err InvalidHuffman
      else
        let dst := if Z.land flags 0x02 =? 0 then dst else dst ++ [high_sym] in
        let dst := if Z.land flags 0x01 =? 0 then dst else dst ++ [low_sym] in
        decode_loop src next (negb (Z.land flags 0x08 =? 0)) dst
  end.

(** [decode(src, dst)]: the decoded string. *)
Definition decode (src : bytes) : result HpackError bytes := decode_loop src 0 true [].

Example encode_rfc :
  encode_with_len (b "www.example.com") []
  = [0xf1; 0xe3; 0xc2; 0xe5; 0xf2; 0x3a; 0x6b; 0xa0; 0xab; 0x90; 0xf4; 0xff].
Proof. vm_compute. reflexivity. Qed.
Example decode_rfc :
  decode [0xf1; 0xe3; 0xc2; 0xe5; 0xf2; 0x3a; 0x6b; 0xa0; 0xab; 0x90; 0xf4; 0xff]
  = Ok (b "www.example.com").
Proof. vm_compute. reflexivity. Qed.
Example decode_eos : decode [0xff; 0xff; 0xff; 0xff] = Err InvalidHuffman.
Proof. vm_compute. reflexivity. Qed.

(** ** The specification: bit strings *)

(** The low [n] bits of [z], most significant first. *)
Fixpoint Zbits (n : nat) (z : Z) : list bool :=
  match n with
  | O => []
  | S n => Z.testbit z (Z.of_nat n) :: Zbits n z
  end.

Definition bits_of (l : bytes) : list bool := mjoin (map (Zbits 8) l).

Definition code_bits (s : Z) : list bool :=
  let '(len, code) := code_at s in Zbits (Z.to_nat len) code.

Definition codes_of (l : bytes) : list bool := mjoin (map code_bits l).

(** A position inside the code: how many bits were read since the last code
    word, and their value. *)
Definition path : Type := Z * Z.
Definition path_bits (p : path) : list bool := Zbits (Z.to_nat p.1) p.2.

(** The symbol whose code word is [q], if any. *)
Fixpoint find_code (q : path) (codes : list (Z * Z)) (s : Z) : option Z :=
  match codes with
  | [] => None
  | c :: codes =>
      if (q.1 =? c.1) && (q.2 =? c.2) then Some s else find_code q codes (s + 1)
  end.

(** Reading one bit: [None] when it completes EOS, else the symbol it
    completes and the new position. *)
Definition bit_step (p : path) (bt : bool) : option (bytes * path) :=
  let q := (p.1 + 1, 2 * p.2 + Z.b2z bt) in
  match find_code q CODES 0 with
  | Some s => if s =? 256 then None else Some ([s], (0, 0))
  | None => Some ([], q)
  end.

Fixpoint bit_run (p : path) (bs : list bool) : option (bytes * path) :=
  match bs with
  | [] => Some ([], p)
  | bt :: bs =>
      '(s, p) ← bit_step p bt;
      '(s', p) ← bit_run p bs;
      Some (s ++ s', p)
  end.

(** Where a string may end: at most seven bits, all ones. *)
Definition final (p : path) : bool := (p.1 <? 8) && (p.2 =? 2 ^ p.1 - 1).

(** The position each state of the DFA stands for. *)
Definition state_paths : list path := [
   (0,0x0); (1,0x0); (2,0x0); (3,0x0); (4,0x0); (4,0x1); (3,0x1); (4,0x2); (4,0x3); (2,0x1); (3,0x2); (4,0x4);
   (4,0x5); (5,0xa); (5,0xb); (3,0x3); (4,0x6); (5,0xc); (5,0xd); (4,0x7); (5,0xe); (5,0xf); (1,0x1); (2,0x2);
   (3,0x4); (4,0x8); (5,0x10); (5,0x11); (4,0x9); (5,0x12); (5,0x13); (3,0x5); (4,0xa); (5,0x14); (5,0x15); (4,0xb);
   (5,0x16); (5,0x17); (6,0x2e); (6,0x2f); (2,0x3); (3,0x6); (4,0xc); (5,0x18); (6,0x30); (6,0x31); (5,0x19); (6,0x32);
   (6,0x33); (4,0xd); (5,0x1a); (6,0x34); (6,0x35); (5,0x1b); (6,0x36); (6,0x37); (3,0x7); (4,0xe); (5,0x1c); (6,0x38);
   (6,0x39); (5,0x1d); (6,0x3a); (6,0x3b); (4,0xf); (5,0x1e); (6,0x3c); (6,0x3d); (5,0x1f); (6,0x3e); (7,0x7c); (7,0x7d);
   (6,0x3f); (7,0x7e); (7,0x7f); (8,0xfe); (9,0x1fc); (9,0x1fd); (8,0xff); (9,0x1fe); (10,0x3fd); (9,0x1ff); (10,0x3fe); (11,0x7fd);
   (10,0x3ff); (11,0x7fe); (12,0xffc); (12,0xffd); (11,0x7ff); (12,0xffe); (12,0xfff); (13,0x1ffe); (13,0x1fff); (14,0x3ffe); (14,0x3fff); (15,0x7fff);
   (16,0xfffe); (17,0x1fffc); (18,0x3fff8); (18,0x3fff9); (19,0x7fff3); (17,0x1fffd); (18,0x3fffa); (19,0x7fff4); (19,0x7fff5); (18,0x3fffb); (19,0x7fff6); (19,0x7fff7);
   (20,0xfffee); (20,0xfffef); (16,0xffff); (17,0x1fffe); (18,0x3fffc); (19,0x7fff8); (20,0xffff0); (20,0xffff1); (19,0x7fff9); (20,0xffff2); (20,0xffff3); (18,0x3fffd);
   (19,0x7fffa); (20,0xffff4); (21,0x1fffe9); (20,0xffff5); (21,0x1fffea); (21,0x1fffeb); (19,0x7fffb); (20,0xffff6); (21,0x1fffec); (21,0x1fffed); (20,0xffff7); (21,0x1fffee);
   (21,0x1fffef); (17,0x1ffff); (18,0x3fffe); (19,0x7fffc); (20,0xffff8); (21,0x1ffff0); (21,0x1ffff1); (20,0xffff9); (21,0x1ffff2); (21,0x1ffff3); (19,0x7fffd); (20,0xffffa);
   (21,0x1ffff4); (21,0x1ffff5); (20,0xffffb); (21,0x1ffff6); (22,0x3fffec); (22,0x3fffed); (21,0x1ffff7); (22,0x3fffee); (22,0x3fffef); (18,0x3ffff); (19,0x7fffe); (20,0xffffc);
   (21,0x1ffff8); (22,0x3ffff0); (22,0x3ffff1); (21,0x1ffff9); (22,0x3ffff2); (22,0x3ffff3); (20,0xffffd); (21,0x1ffffa); (22,0x3ffff4); (22,0x3ffff5); (21,0x1ffffb); (22,0x3ffff6);
   (22,0x3ffff7); (19,0x7ffff); (20,0xffffe); (21,0x1ffffc); (22,0x3ffff8); (22,0x3ffff9); (21,0x1ffffd); (22,0x3ffffa); (23,0x7ffff5); (22,0x3ffffb); (23,0x7ffff6); (23,0x7ffff7);
   (20,0xfffff); (21,0x1ffffe); (22,0x3ffffc); (23,0x7ffff8); (23,0x7ffff9); (22,0x3ffffd); (23,0x7ffffa); (23,0x7ffffb); (24,0xfffff6); (24,0xfffff7); (21,0x1fffff); (22,0x3ffffe);
   (23,0x7ffffc); (24,0xfffff8); (25,0x1fffff0); (25,0x1fffff1); (24,0xfffff9); (25,0x1fffff2); (25,0x1fffff3); (23,0x7ffffd); (24,0xfffffa); (25,0x1fffff4); (25,0x1fffff5); (24,0xfffffb);
   (25,0x1fffff6); (25,0x1fffff7); (26,0x3ffffef); (22,0x3fffff); (23,0x7ffffe); (24,0xfffffc); (25,0x1fffff8); (26,0x3fffff0); (26,0x3fffff1); (25,0x1fffff9); (26,0x3fffff2); (26,0x3fffff3);
   (24,0xfffffd); (25,0x1fffffa); (26,0x3fffff4); (26,0x3fffff5); (25,0x1fffffb); (26,0x3fffff6); (26,0x3fffff7); (23,0x7fffff); (24,0xfffffe); (25,0x1fffffc); (26,0x3fffff8); (27,0x7fffff1);
   (26,0x3fffff9); (27,0x7fffff2); (27,0x7fffff3); (25,0x1fffffd); (26,0x3fffffa); (27,0x7fffff4); (27,0x7fffff5); (26,0x3fffffb); (27,0x7fffff6); (27,0x7fffff7); (24,0xffffff); (25,0x1fffffe);
   (26,0x3fffffc); (27,0x7fffff8); (27,0x7fffff9); (26,0x3fffffd); (27,0x7fffffa); (27,0x7fffffb); (25,0x1ffffff); (26,0x3fffffe); (27,0x7fffffc); (27,0x7fffffd); (26,0x3ffffff); (27,0x7fffffe);
   (27,0x7ffffff); (28,0xfffffff); (29,0x1ffffffe); (29,0x1fffffff)].

Definition state_path (s : Z) : path := nth (Z.to_nat s) state_paths (0, 0).

#[global] Arguments state_path : simpl never.
#[global] Arguments final : simpl never.
#[global] Arguments bit_step : simpl never.
#[global] Arguments Zbits : simpl nomatch.

(** A DFA entry agrees with four steps of the bit reader. *)
Definition entry_ok (p : path) (nibble : Z) (e : Z * Z * Z) : bool :=
  let '(next, flags, sym) := e in
  (0 <=? next) && (next <? 256) && (0 <=? flags) && (flags <? 8) &&
  match bit_run p (Zbits 4 nibble) with
  | None => negb (Z.land flags 4 =? 0)
  | Some (out, q) =>
      (Z.land flags 4 =? 0)
      && (if Z.land flags 2 =? 0 then bool_decide (out = []) else bool_decide (out = [sym]))
      && Bool.eqb (negb (Z.land flags 1 =? 0)) (final q)
      && bool_decide (state_path next = q)
  end.

Fixpoint row_ok (p : path) (nibble : Z) (row : list (Z * Z * Z)) : bool :=
  match row with
  | [] => true
  | e :: row => entry_ok p nibble e && row_ok p (nibble + 1) row
  end.

Fixpoint rows_ok (ps : list path) (es : list (Z * Z * Z)) : bool :=
  match ps with
  | [] => bool_decide (es = [])
  | p :: ps => row_ok p 0 (take 16 es) && rows_ok ps (drop 16 es)
  end.

Lemma dfa_checked : rows_ok state_paths HUFF_DFA = true.
Proof. vm_compute. reflexivity. Qed.

(** ** Lemmas on bit strings *)

Lemma length_Zbits n z : length (Zbits n z) = n.
Proof. induction n; cbn; congruence. Qed.

Lemma Zbits_ext n x y :
  (∀ i, 0 ≤ i < Z.of_nat n → Z.testbit x i = Z.testbit y i) → Zbits n x = Zbits n y.
Proof.
  induction n as [|n IH]; intros H; cbn; [done|].
  rewrite IH by (intros; apply H; lia). f_equal. apply H. lia.
Qed.

(** Splitting off the low [c] bits. *)
Lemma Zbits_app a c z : Zbits (a + c) z = Zbits a (Z.shiftr z (Z.of_nat c)) ++ Zbits c z.
Proof.
  induction a as [|a IH]; cbn; [done|]. rewrite IH, Z.shiftr_spec by lia.
  do 2 f_equal. lia.
Qed.

Lemma Zbits_mod n m z : (n ≤ m)%nat → Zbits n (z mod 2 ^ Z.of_nat m) = Zbits n z.
Proof. intros. apply Zbits_ext. intros. by rewrite Z.mod_pow2_bits_low by lia. Qed.

(** The bits of [hi] followed by those of [lo]. *)
Lemma Zbits_concat a c hi lo :
  0 ≤ lo < 2 ^ Z.of_nat c →
  Zbits (a + c) (hi * 2 ^ Z.of_nat c + lo) = Zbits a hi ++ Zbits c lo.
Proof.
  intros H. rewrite Zbits_app, Z.shiftr_div_pow2, Z.div_add_l, Z.div_small by lia.
  rewrite Z.add_0_r. f_equal. rewrite <- (Zbits_mod c c (_ + lo)) by lia.
  by rewrite Z.add_comm, Z.mod_add, Zbits_mod by lia.
Qed.

Lemma Zbits_snoc n v (bt : bool) : Zbits (S n) (2 * v + Z.b2z bt) = Zbits n v ++ [bt].
Proof.
  replace (S n) with (n + 1)%nat by lia. replace (2 * v) with (v * 2 ^ Z.of_nat 1) by (cbn; lia).
  rewrite Zbits_concat by (destruct bt; cbn; lia). f_equal. by destruct bt.
Qed.

Lemma Zbits_inj n x y :
  0 ≤ x < 2 ^ Z.of_nat n → 0 ≤ y < 2 ^ Z.of_nat n → Zbits n x = Zbits n y → x = y.
Proof.
  intros Hx Hy H. rewrite <- (Z.mod_small x (2 ^ Z.of_nat n)), <- (Z.mod_small y (2 ^ Z.of_nat n)) by lia.
  apply Z.bits_inj'. intros i Hi. destruct (Z.lt_ge_cases i (Z.of_nat n)) as [Hlt|Hge].
  2:{ by rewrite !Z.mod_pow2_bits_high by lia. }
  rewrite !Z.mod_pow2_bits_low by lia. clear Hx Hy.
  induction n as [|n IH]; [lia|]. cbn in H. injection H as H1 H2.
  destruct (Z.eq_dec i (Z.of_nat n)) as [->|]; [done|]. apply IH; [done|lia].
Qed.

Lemma Zbits_ones n : Zbits n (2 ^ Z.of_nat n - 1) = replicate n true.
Proof.
  transitivity (Zbits n (-1)).
  - apply Zbits_ext. intros i Hi. rewrite Z.bits_m1 by lia.
    replace (2 ^ Z.of_nat n - 1) with (Z.ones (Z.of_nat n)) by (rewrite Z.ones_equiv; lia).
    by apply Z.ones_spec_low.
  - induction n as [|n IH]; cbn [Zbits replicate]; [done|]. by rewrite IH, Z.bits_m1 by lia.
Qed.

Lemma bits_of_app l k : bits_of (l ++ k) = bits_of l ++ bits_of k.
Proof. unfold bits_of. by rewrite map_app, join_app. Qed.

Lemma codes_of_app l k : codes_of (l ++ k) = codes_of l ++ codes_of k.
Proof. unfold codes_of. by rewrite map_app, join_app. Qed.

Lemma length_bits_of l : length (bits_of l) = (8 * length l)%nat.
Proof.
  induction l as [|x l IH]; [done|]. change (x :: l) with ([x] ++ l).
  rewrite bits_of_app, length_app, IH. cbn. lia.
Qed.

Lemma bits_of_inj l : ∀ k, bytes_ok l → bytes_ok k → bits_of l = bits_of k → l = k.
Proof.
  induction l as [|x l IH]; intros [|y k] Hl Hk H; [done..|].
  apply Forall_cons in Hl as [Hx Hl], Hk as [Hy Hk].
  change (Zbits 8 x ++ bits_of l = Zbits 8 y ++ bits_of k) in H.
  apply app_inj_1 in H as [H1 H2]; [|by rewrite !length_Zbits].
  f_equal; [|by apply IH]. by eapply (Zbits_inj 8).
Qed.

Lemma bits_of_take n l : bits_of (take n l) = take (8 * n) (bits_of l).
Proof.
  revert l. induction n as [|n IH]; intros l; [by rewrite !take_0|].
  destruct l as [|x l]; [by rewrite !take_nil|].
  change (Zbits 8 x ++ bits_of (take n l) = take (8 * S n) (Zbits 8 x ++ bits_of l)).
  rewrite IH, take_app, length_Zbits. rewrite (take_ge (Zbits 8 x)) by (rewrite length_Zbits; lia).
  do 2 f_equal. lia.
Qed.

Lemma bits_of_be32 v : bits_of (to_be_bytes32 v) = Zbits 32 v.
Proof.
  unfold to_be_bytes32, bits_of. cbn [map mjoin list_join foldr].
  change 32%nat with (24 + 8)%nat. unfold u8.
  rewrite !(Zbits_mod 8 8) by done.
  change (24 + 8)%nat with (8 + 24)%nat. rewrite (Zbits_app 8 24).
  change 24%nat with (8 + 16)%nat at 2. rewrite (Zbits_app 8 16).
  change 16%nat with (8 + 8)%nat at 2. rewrite (Zbits_app 8 8).
  by rewrite app_nil_r.
Qed.

(** ** The bit reader *)

Lemma bit_run_app p xs ys :
  bit_run p (xs ++ ys)
  = ('(s, q) ← bit_run p xs; '(s', r) ← bit_run q ys; Some (s ++ s', r)).
Proof.
  revert p. induction xs as [|x xs IH]; intros p; cbn.
  - by destruct (bit_run p ys) as [[]|].
  - destruct (bit_step p x) as [[s q]|]; cbn; [|done]. rewrite IH.
    destruct (bit_run q xs) as [[s1 q1]|]; cbn; [|done].
    destruct (bit_run q1 ys) as [[s2 q2]|]; cbn; [|done]. by rewrite app_assoc.
Qed.

(** Every code word is 5 to 30 bits long and fits its length. *)
Definition code_ok (c : Z * Z) : bool := (5 <=? c.1) && (c.1 <=? 30) && (0 <=? c.2) && (c.2 <? 2 ^ c.1).

Lemma codes_checked : forallb code_ok CODES = true ∧ length CODES = 257%nat.
Proof. vm_compute. done. Qed.

Lemma code_at_ok s :
  0 ≤ s ≤ 256 → 5 ≤ (code_at s).1 ≤ 30 ∧ 0 ≤ (code_at s).2 < 2 ^ (code_at s).1.
Proof.
  intros Hs. destruct codes_checked as [Hc Hl]. rewrite forallb_forall in Hc.
  assert (In (code_at s) CODES) as Hin by (apply nth_In; lia).
  apply Hc in Hin. unfold code_ok in Hin. lia.
Qed.

Lemma find_code_Some q codes s0 s :
  find_code q codes s0 = Some s →
  s0 ≤ s < s0 + zlen codes ∧ nth (Z.to_nat (s - s0)) codes (0, 0) = q.
Proof.
  revert s0. induction codes as [|c codes IH]; intros s0; cbn [find_code]; [done|].
  rewrite zlen_cons. pose proof (zlen_nonneg codes).
  destruct ((q.1 =? c.1) && (q.2 =? c.2)) eqn:E.
  - intros [= <-]. split; [lia|]. rewrite Z.sub_diag. cbn. destruct q, c; cbn in E.
    f_equal; lia.
  - intros H'. apply IH in H' as [Hr Hn]. split; [lia|].
    replace (Z.to_nat (s - s0)) with (S (Z.to_nat (s - (s0 + 1)))) by lia. done.
Qed.

(** A position holds as many bits as it says. *)
Definition path_ok (p : path) : Prop := 0 ≤ p.1 ∧ 0 ≤ p.2 < 2 ^ p.1.

Lemma path_bits_snoc p bt :
  path_ok p → path_bits (p.1 + 1, 2 * p.2 + Z.b2z bt) = path_bits p ++ [bt].
Proof.
  intros [Hp _]. unfold path_bits. cbn [fst snd].
  replace (Z.to_nat (p.1 + 1)) with (S (Z.to_nat p.1)) by lia. apply Zbits_snoc.
Qed.

Lemma bit_step_sound p bt s q :
  path_ok p → bit_step p bt = Some (s, q) →
  path_ok q ∧ bytes_ok s ∧ path_bits p ++ [bt] = codes_of s ++ path_bits q.
Proof.
  intros Hp. unfold bit_step. rewrite <- path_bits_snoc by done.
  set (r := (p.1 + 1, 2 * p.2 + Z.b2z bt)).
  destruct (find_code r CODES 0) as [s'|] eqn:Hf.
  - apply find_code_Some in Hf as [Hr Hn]. destruct codes_checked as [_ Hl].
    unfold zlen in Hr. destruct (Z.eqb_spec s' 256); [done|]. intros [= <- <-].
    split_and!; [split; cbn; lia|constructor; [unfold is_byte; lia|done]|].
    unfold codes_of, code_bits. cbn [map mjoin list_join foldr]. rewrite !app_nil_r.
    unfold code_at. rewrite Z.sub_0_r in Hn. rewrite Hn. by destruct r.
  - intros [= <- <-]. split_and!; [|done|done]. destruct Hp as [H1 H2].
    unfold path_ok, r. cbn [fst snd]. split; [lia|]. rewrite Z.pow_add_r by lia.
    destruct bt; cbn [Z.b2z]; lia.
Qed.

Lemma bit_run_sound bs : ∀ p s q,
  path_ok p → bit_run p bs = Some (s, q) →
  path_ok q ∧ bytes_ok s ∧ path_bits p ++ bs = codes_of s ++ path_bits q.
Proof.
  induction bs as [|bt bs IH]; intros p s q Hp; cbn.
  - intros [= <- <-]. by rewrite app_nil_r.
  - destruct (bit_step p bt) as [[s1 p1]|] eqn:E1; cbn; [|done].
    destruct (bit_run p1 bs) as [[s2 p2]|] eqn:E2; cbn; [|done]. intros [= <- <-].
    apply bit_step_sound in E1 as (Hp1 & Hs1 & Hb1); [|done].
    apply IH in E2 as (Hp2 & Hs2 & Hb2); [|done].
    split_and!; [done|by apply Forall_app|].
    rewrite cons_middle, app_assoc, Hb1, <- app_assoc, Hb2, codes_of_app, app_assoc. done.
Qed.

(** Every code word is read back as its symbol. *)
Definition symbol_ok (s : Z) : bool :=
  bool_decide (bit_run (0, 0) (code_bits s) = Some ([s], (0, 0))).

Lemma symbols_checked : forallb symbol_ok (seqZ 0 256) = true.
Proof. vm_compute. done. Qed.

Lemma bit_run_codes s rest :
  bytes_ok s →
  bit_run (0, 0) (codes_of s ++ rest)
  = ('(s', q) ← bit_run (0, 0) rest; Some (s ++ s', q)).
Proof.
  induction 1 as [|x s Hx Hs IH]; [change (codes_of [] ++ rest) with rest; by destruct (bit_run (0, 0) rest) as [[]|]|].
  change (codes_of (x :: s)) with (code_bits x ++ codes_of s).
  rewrite <- app_assoc, bit_run_app.
  pose proof symbols_checked as Hc. rewrite forallb_forall in Hc.
  specialize (Hc x). rewrite <- list_elem_of_In, elem_of_seqZ in Hc.
  specialize (Hc ltac:(unfold is_byte in Hx; lia)).
  apply bool_decide_eq_true_1 in Hc. rewrite Hc. cbn. rewrite IH.
  by destruct (bit_run (0, 0) rest) as [[]|].
Qed.

Lemma final_path p : path_ok p → final p = true →
  path_bits p = replicate (Z.to_nat p.1) true ∧ (Z.to_nat p.1 < 8)%nat.
Proof.
  destruct p as [n v]. intros [Hn Hv] Hf. unfold final in Hf. cbn in *.
  split; [|lia]. unfold path_bits. cbn.
  replace v with (2 ^ Z.of_nat (Z.to_nat n) - 1) by (rewrite Z2Nat.id; lia). apply Zbits_ones.
Qed.

Lemma bit_run_padding k :
  (k < 8)%nat → ∃ p, bit_run (0, 0) (replicate k true) = Some ([], p) ∧ final p = true.
Proof.
  intros H. do 8 (destruct k as [|k]; [eexists; split; vm_compute; reflexivity|]). lia.
Qed.

(** ** The DFA *)

Lemma row_ok_nth p k row j :
  row_ok p k row = true → (j < length row)%nat →
  entry_ok p (k + Z.of_nat j) (nth j row (0, 0, 0)) = true.
Proof.
  revert k j. induction row as [|e row IH]; intros k j H Hj; [cbn in Hj; lia|].
  cbn in H. apply andb_true_iff in H as [He Hr]. destruct j as [|j].
  - by rewrite Z.add_0_r.
  - cbn [nth]. replace (k + Z.of_nat (S j)) with (k + 1 + Z.of_nat j) by lia.
    apply IH; [done|cbn in Hj; lia].
Qed.

Lemma nth_take_lt {A} (l : list A) n j d : (j < n)%nat → nth j (take n l) d = nth j l d.
Proof.
  revert l j. induction n as [|n IH]; intros [|x l] [|j] H; cbn; try done || lia.
  apply IH. lia.
Qed.

Lemma nth_drop_add {A} (l : list A) n j d : nth j (drop n l) d = nth (n + j) l d.
Proof.
  revert l. induction n as [|n IH]; intros [|x l]; cbn; [done..| |apply IH].
  by destruct j.
Qed.

Lemma rows_ok_nth ps : ∀ es i j,
  rows_ok ps es = true → length es = (16 * length ps)%nat →
  (i < length ps)%nat → (j < 16)%nat →
  entry_ok (nth i ps (0, 0)) (Z.of_nat j) (nth (16 * i + j) es (0, 0, 0)) = true.
Proof.
  induction ps as [|p ps IH]; intros es i j H Hl Hi Hj; [cbn in Hi; lia|].
  cbn in H, Hl. apply andb_true_iff in H as [Hr H]. destruct i as [|i].
  - apply (row_ok_nth _ _ _ j) in Hr; [|rewrite length_take; lia].
    rewrite nth_take_lt in Hr by done. done.
  - cbn [nth]. replace (16 * S i + j)%nat with (16 + (16 * i + j))%nat by lia.
    rewrite <- nth_drop_add. apply IH; [done|rewrite length_drop; lia|cbn in Hi; lia|done].
Qed.

Lemma dfa_entry state nibble :
  0 ≤ state < 256 → 0 ≤ nibble < 16 →
  entry_ok (state_path state) nibble (dfa_at (16 * state + nibble)) = true.
Proof.
  intros Hs Hn.
  pose proof (rows_ok_nth state_paths HUFF_DFA (Z.to_nat state) (Z.to_nat nibble) dfa_checked) as H.
  assert (length state_paths = 256%nat) as Hl by reflexivity.
  specialize (H ltac:(vm_compute; reflexivity) ltac:(lia) ltac:(lia)).
  rewrite Z2Nat.id in H by lia. unfold dfa_at, state_path.
  by replace (Z.to_nat (16 * state + nibble)) with (16 * Z.to_nat state + Z.to_nat nibble)%nat by lia.
Qed.

(** What one entry says, in terms of the bit reader. *)
Lemma entry_step state nibble next flags sym :
  0 ≤ state < 256 → 0 ≤ nibble < 16 →
  dfa_at (16 * state + nibble) = (next, flags, sym) →
  0 ≤ next < 256 ∧ 0 ≤ flags < 8 ∧
  match bit_run (state_path state) (Zbits 4 nibble) with
  | None => Z.testbit flags 2 = true
  | Some (out, q) =>
      Z.testbit flags 2 = false ∧ out = (if Z.testbit flags 1 then [sym] else [])
      ∧ Z.testbit flags 0 = final q ∧ state_path next = q
  end.
Proof.
  intros Hs Hn He. pose proof (dfa_entry state nibble Hs Hn) as H. rewrite He in H.
  unfold entry_ok in H. rewrite !andb_true_iff in H. destruct H as ((((H1 & H2) & H3) & H4) & H).
  split; [lia|]. split; [lia|].
  change (Z.land flags 4) with (Z.land flags (2 ^ 2)) in H. change (Z.land flags 2) with (Z.land flags (2 ^ 1)) in H.
  change (Z.land flags 1) with (Z.land flags (2 ^ 0)) in H.
  rewrite !land_bit_zero in H by lia.
  destruct (bit_run (state_path state) (Zbits 4 nibble)) as [[out q]|].
  - rewrite !andb_true_iff in H. destruct H as (((Ha & Hb) & Hc) & Hd).
    apply bool_decide_eq_true_1 in Hd. apply Bool.eqb_prop in Hc.
    rewrite negb_involutive in Hc. split_and!; [by destruct (Z.testbit flags 2)| |done|done].
    by destruct (Z.testbit flags 1); apply bool_decide_eq_true_1 in Hb.
  - by rewrite negb_involutive in H.
Qed.

(** [bit_run] over a whole byte, and the byte-indexed entry. *)
Lemma dfa8_step state byte next flags high_sym low_sym :
  0 ≤ state < 256 → is_byte byte →
  HUFF_DFA8 (Z.lor (Z.shiftl state 8) byte) = (next, flags, (high_sym, low_sym)) →
  match bit_run (state_path state) (Zbits 8 byte) with
  | None => (Z.land flags 4 =? 0) = false
  | Some (out, q) =>
      (Z.land flags 4 =? 0) = true ∧ 0 ≤ next < 256 ∧ state_path next = q
      ∧ out = (if Z.land flags 2 =? 0 then [] else [high_sym])
              ++ (if Z.land flags 1 =? 0 then [] else [low_sym])
      ∧ negb (Z.land flags 8 =? 0) = final q
  end.
Proof.
  intros Hs Hb. unfold is_byte in Hb. unfold HUFF_DFA8.
  rewrite (Z.shiftl_mul_pow2 state 8) by lia. rewrite (lor_disjoint state byte 8) by lia.
  change 0xff with (2 ^ 8 - 1). change 0x0f with (2 ^ 4 - 1). rewrite !land_mask by lia.
  rewrite !Z.shiftr_div_pow2, !Z.shiftl_mul_pow2 by lia.
  rewrite Z.div_add_l, Z.div_small, Z.add_0_r by lia.
  replace ((state * 2 ^ 8 + byte) mod 2 ^ 8) with byte
    by (rewrite Z.add_comm, Z.mod_add, Z.mod_small; lia).
  replace (state * 2 ^ 4) with (16 * state) by lia.
  assert (Hhi : 0 ≤ byte / 2 ^ 4 < 16) by (change (2 ^ 4) with 16; dlia).
  assert (Hlo : 0 ≤ byte mod 2 ^ 4 < 16) by (change (2 ^ 4) with 16; dlia).
  destruct (dfa_at (16 * state + byte / 2 ^ 4)) as [[hn hf] hs] eqn:Eh.
  pose proof (entry_step _ _ _ _ _ Hs Hhi Eh) as (Hhn & Hhf & Hh).
  rewrite Z.shiftl_mul_pow2 by lia. replace (hn * 2 ^ 4) with (16 * hn) by lia.
  destruct (dfa_at (16 * hn + byte mod 2 ^ 4)) as [[ln lf] ls] eqn:El.
  pose proof (entry_step _ _ _ _ _ Hhn Hlo El) as (Hln & Hlf & Hl).
  intros [= <- <- <- <-].
  change (Zbits 8 byte) with (Zbits (4 + 4) byte).
  rewrite Zbits_app, Z.shiftr_div_pow2, bit_run_app by lia.
  rewrite <- (Zbits_mod 4 4 byte) by lia. change (Z.of_nat 4) with 4.
  change (Z.land hf 2) with (Z.land hf (2 ^ 1)). change (Z.land lf 2) with (Z.land lf (2 ^ 1)).
  change (Z.land lf 1) with (Z.land lf (2 ^ 0)).
  change (Z.land (Z.lor hf lf) 4) with (Z.land (Z.lor hf lf) (2 ^ 2)).
  rewrite !land_bit_zero, Z.lor_spec by lia.
  destruct (bit_run (state_path state) (Zbits 4 (byte / 2 ^ 4))) as [[o1 q1]|]; cbn -[Zbits Z.testbit Z.land].
  - destruct Hh as (H2 & -> & _ & <-). rewrite H2. cbn [orb negb].
    destruct (bit_run (state_path hn) (Zbits 4 (byte mod 2 ^ 4))) as [[o2 q2]|]; cbn -[Zbits Z.testbit Z.land].
    + destruct Hl as (L2 & -> & <- & <-). rewrite L2.
      destruct (Z.testbit hf 1), (Z.testbit lf 1), (Z.testbit lf 0); cbn; split_and!; done || lia.
    + rewrite Hl. destruct (Z.testbit hf 1), (Z.testbit lf 1), (Z.testbit lf 0); done.
  - rewrite Hh. destruct (Z.testbit hf 1), (Z.testbit lf 1), (Z.testbit lf 0); done.
Qed.

Lemma decode_loop_run src : ∀ state dst,
  bytes_ok src → 0 ≤ state < 256 →
  decode_loop src state (final (state_path state)) dst
  = match bit_run (state_path state) (bits_of src) with
    | Some (s, q) => if final q then Ok (dst ++ s) else Err InvalidHuffman
    | None => Err InvalidHuffman
    end.
Proof.
  induction src as [|byte src IH]; intros state dst Hok Hs.
  - cbn -[final]. by rewrite app_nil_r.
  - apply Forall_cons in Hok as [Hb Hok]. cbn [decode_loop].
    destruct (HUFF_DFA8 _) as [[next flags] [hs ls]] eqn:E.
    pose proof (dfa8_step _ _ _ _ _ _ Hs Hb E) as H.
    change (bits_of (byte :: src)) with (Zbits 8 byte ++ bits_of src). rewrite bit_run_app.
    destruct (bit_run (state_path state) (Zbits 8 byte)) as [[o q]|]; cbn -[final Z.land Zbits].
    + destruct H as (H4 & Hn & <- & -> & ->). rewrite H4. cbn -[final Z.land].
      rewrite IH by done. destruct (bit_run (state_path next) (bits_of src)) as [[o' q']|]; cbn -[final Z.land]; [|done].
      destruct (final q'); [|done]. f_equal.
      destruct (Z.land flags 2 =? 0), (Z.land flags 1 =? 0); cbn; rewrite <- ?app_assoc; done.
    + by rewrite H.
Qed.

Lemma decode_run src :
  bytes_ok src →
  decode src = match bit_run (0, 0) (bits_of src) with
    | Some (s, q) => if final q then Ok s else Err InvalidHuffman
    | None => Err InvalidHuffman
    end.
Proof. intros H. apply (decode_loop_run src 0 [] H). lia. Qed.

(** [decode] against its specification. *)
Lemma decode_iff src s :
  bytes_ok src →
  decode src = Ok s ↔
  bytes_ok s ∧ ∃ k, (k < 8)%nat ∧ bits_of src = codes_of s ++ replicate k true.
Proof.
  intros Hok. rewrite decode_run by done. split.
  - destruct (bit_run (0, 0) (bits_of src)) as [[s' q]|] eqn:E; [|done].
    destruct (final q) eqn:Ef; [|done]. intros [= <-].
    apply bit_run_sound in E as (Hq & Hs & He); [|split; cbn; lia].
    apply final_path in Ef as [Hp Hk]; [|done]. split; [done|].
    exists (Z.to_nat q.1). split; [done|]. rewrite <- Hp. done.
  - intros (Hs & k & Hk & He). rewrite He, bit_run_codes by done.
    destruct (bit_run_padding k Hk) as (p & -> & Hf). cbn -[final]. rewrite Hf.
    by rewrite app_nil_r.
Qed.

(** ** The encoder *)

Lemma u32_small v : 0 ≤ v < 2 ^ 32 → u32 v = v.
Proof. intros. unfold u32. by apply Z.mod_small. Qed.

Lemma u64_small v : 0 ≤ v < 2 ^ 64 → u64 v = v.
Proof. intros. unfold u64. by apply Z.mod_small. Qed.

Lemma be32_ok v : bytes_ok (to_be_bytes32 v).
Proof. unfold to_be_bytes32, u8, is_byte. repeat constructor; apply Z.mod_pos_bound; lia. Qed.

(** [x * 2 ^ a < 2 ^ (n + a)]. *)
Lemma mul_pow2_bound x n a : 0 ≤ n → 0 ≤ a → 0 ≤ x < 2 ^ n → 0 ≤ x * 2 ^ a ∧ x * 2 ^ a + 2 ^ a ≤ 2 ^ (n + a).
Proof.
  intros Hn Ha Hx. rewrite Z.pow_add_r by lia.
  assert (0 < 2 ^ a) by (apply Z.pow_pos_nonneg; lia). nia.
Qed.

(** The accumulator: fewer than 32 pending bits, which with the octets written
    so far spell [w]. *)
Definition acc_ok (st : Z * Z * bytes) (w : list bool) : Prop :=
  let '(bits, nbits, dst) := st in
  0 ≤ nbits < 32 ∧ 0 ≤ bits < 2 ^ nbits ∧ bytes_ok dst
  ∧ bits_of dst ++ Zbits (Z.to_nat nbits) bits = w.

Lemma encode_symbol_ok st x w :
  acc_ok st w → is_byte x → acc_ok (encode_symbol st x) (w ++ code_bits x).
Proof.
  destruct st as [[bits nbits] dst]. intros (Hn & Hb & Hd & <-) Hx.
  unfold encode_symbol, code_bits. pose proof (code_at_ok x ltac:(unfold is_byte in Hx; lia)) as Hc.
  destruct (code_at x) as [len code]. cbn [fst snd] in Hc. destruct Hc as [Hlen Hcode].
  pose proof (mul_pow2_bound bits nbits len ltac:(lia) ltac:(lia) Hb) as Hm.
  assert (2 ^ (nbits + len) ≤ 2 ^ 61) by (apply Z.pow_le_mono_r; lia).
  assert (2 ^ 61 < 2 ^ 64) by done.
  rewrite Z.shiftl_mul_pow2, u64_small, lor_disjoint by lia.
  set (v := bits * 2 ^ len + code). assert (0 ≤ v < 2 ^ (nbits + len)) as Hv by lia.
  assert (Zbits (Z.to_nat nbits) bits ++ Zbits (Z.to_nat len) code
    = Zbits (Z.to_nat (nbits + len)) v) as Hw.
  { unfold v. rewrite Z2Nat.inj_add by lia.
    replace (2 ^ len) with (2 ^ Z.of_nat (Z.to_nat len)) by (f_equal; lia).
    rewrite Zbits_concat; [done|]. rewrite Z2Nat.id; lia. }
  destruct (Z.leb_spec 32 (nbits + len)) as [Hge|Hlt].
  - set (n := nbits + len - 32). assert (0 ≤ n < 32) as Hn' by lia.
    assert (0 < 2 ^ n) by (apply Z.pow_pos_nonneg; lia).
    assert (0 ≤ v / 2 ^ n < 2 ^ 32).
    { split; [apply Z.div_pos; lia|]. apply Z.div_lt_upper_bound; [lia|].
      rewrite <- Z.pow_add_r by lia. replace (n + 32) with (nbits + len) by lia. lia. }
    rewrite (Z.shiftl_mul_pow2 1), Z.mul_1_l, land_mask, Z.shiftr_div_pow2, u32_small by lia.
    split; [lia|]. split; [apply Z.mod_pos_bound; lia|].
    split; [apply Forall_app; split; [done|apply be32_ok]|].
    rewrite bits_of_app, bits_of_be32, <- !app_assoc, Hw. f_equal.
    replace (Z.to_nat (nbits + len)) with (32 + Z.to_nat n)%nat by lia.
    rewrite Zbits_app, Z.shiftr_div_pow2, Z2Nat.id by lia. f_equal.
    replace (2 ^ n) with (2 ^ Z.of_nat (Z.to_nat n)) by (f_equal; lia). by apply Zbits_mod.
  - split; [lia|]. split; [done|]. split; [done|]. by rewrite <- !app_assoc, Hw.
Qed.

Lemma encode_fold_ok src : ∀ st w,
  acc_ok st w → bytes_ok src → acc_ok (foldl encode_symbol st src) (w ++ codes_of src).
Proof.
  induction src as [|x src IH]; intros st w Hst Hok; cbn [foldl].
  - by rewrite app_nil_r.
  - apply Forall_cons in Hok as [Hx Hok].
    change (codes_of (x :: src)) with (code_bits x ++ codes_of src). rewrite app_assoc.
    apply IH; [|done]. by apply encode_symbol_ok.
Qed.

(** [encode_with_len] writes the code words and fewer than eight one-bits. *)
Lemma encode_with_len_bits src dst :
  bytes_ok src → bytes_ok dst →
  bytes_ok (encode_with_len src dst) ∧
  ∃ k, (k < 8)%nat ∧
    bits_of (encode_with_len src dst) = bits_of dst ++ codes_of src ++ replicate k true.
Proof.
  intros Hs Hd.
  enough (bytes_ok (encode_with_len src dst) ∧ ∃ k, (k < 8)%nat ∧
    bits_of (encode_with_len src dst) = (bits_of dst ++ codes_of src) ++ replicate k true)
    as (? & k & ? & Heq) by (rewrite <- app_assoc in Heq; eauto).
  pose proof (encode_fold_ok src (0, 0, dst) (bits_of dst)) as H.
  specialize (H ltac:(split_and!; cbn; try lia; [done|by rewrite app_nil_r]) Hs).
  unfold encode_with_len.
  destruct (foldl encode_symbol (0, 0, dst) src) as [[bits nbits] d]. destruct H as (Hn & Hb & Hok & He).
  rewrite <- He. destruct (Z.ltb_spec 0 nbits) as [Hlt|].
  2:{ split; [done|]. exists 0%nat. split; [lia|]. replace nbits with 0 by lia.
      cbn. by rewrite !app_nil_r. }
  set (m := 32 - nbits). assert (0 < 2 ^ m) by (apply Z.pow_pos_nonneg; lia).
  pose proof (mul_pow2_bound bits nbits m ltac:(lia) ltac:(lia) Hb) as Hm.
  replace (nbits + m) with 32 in Hm by lia. assert (2 ^ 32 < 2 ^ 64) by done.
  rewrite !Z.shiftl_mul_pow2, Z.mul_1_l, u64_small, lor_disjoint, u32_small by lia.
  set (len := Z.to_nat (div_ceil nbits 8)).
  assert (nbits ≤ 8 * Z.of_nat len < nbits + 8) as Hlen by (unfold len, div_ceil; dlia).
  split; [apply Forall_app; split; [done|]; apply Forall_take, be32_ok|].
  exists (8 * len - Z.to_nat nbits)%nat. split; [lia|].
  rewrite bits_of_app, bits_of_take, bits_of_be32, <- app_assoc. f_equal.
  replace 32%nat with (Z.to_nat nbits + Z.to_nat m)%nat by lia.
  replace (2 ^ m) with (2 ^ Z.of_nat (Z.to_nat m)) by (f_equal; lia).
  rewrite Zbits_concat by lia. rewrite Zbits_ones, take_app, length_Zbits, take_ge
    by (rewrite length_Zbits; lia).
  rewrite take_replicate. do 2 f_equal. lia.
Qed.

Lemma encoded_len_bits src : bytes_ok src → Z.of_nat (length (codes_of src)) = encoded_len src.
Proof.
  induction 1 as [|x src Hx Hs IH]; [done|].
  change (codes_of (x :: src)) with (code_bits x ++ codes_of src).
  rewrite length_app, Nat2Z.inj_add, IH. unfold encoded_len, code_bits. cbn [map foldr].
  pose proof (code_at_ok x ltac:(unfold is_byte in Hx; lia)). destruct (code_at x) as [len code].
  rewrite length_Zbits. cbn [fst snd] in *. lia.
Qed.

Lemma encoded_len_bounds src : bytes_ok src → 5 * zlen src ≤ encoded_len src ≤ 30 * zlen src.
Proof.
  induction 1 as [|x src Hx Hs IH]; [unfold zlen, encoded_len; cbn; lia|]. rewrite zlen_cons.
  unfold encoded_len in *. cbn [map foldr].
  pose proof (code_at_ok x ltac:(unfold is_byte in Hx; lia)). lia.
Qed.

Lemma length_encode_with_len src :
  bytes_ok src → zlen (encode_with_len src []) = div_ceil (encoded_len src) 8.
Proof.
  intros Hs. destruct (encode_with_len_bits src [] Hs) as [_ (k & Hk & He)]; [done|].
  apply (f_equal length) in He. rewrite !length_app, length_bits_of, length_replicate in He.
  rewrite <- (encoded_len_bits src Hs). unfold zlen, div_ceil. cbn in He. dlia.
Qed.

Lemma encode_with_len_app src dst :
  encode_with_len src dst = dst ++ encode_with_len src [].
Proof.
  assert (∀ bits nbits, foldl encode_symbol (bits, nbits, dst) src
    = let '(bs, n, d) := foldl encode_symbol (bits, nbits, []) src in (bs, n, dst ++ d)) as H.
  { assert (∀ bits nbits d1 d2, foldl encode_symbol (bits, nbits, d1 ++ d2) src
      = let '(bs, n, d) := foldl encode_symbol (bits, nbits, d2) src in (bs, n, d1 ++ d)) as Hgen.
    { induction src as [|x src IH]; intros; [done|]. cbn [foldl encode_symbol].
      destruct (code_at x) as [len code]. case_match; rewrite <- ?app_assoc, IH; done. }
    intros. rewrite <- Hgen. by rewrite app_nil_r. }
  unfold encode_with_len. rewrite H.
  destruct (foldl encode_symbol (0, 0, []) src) as [[bs n] d].
  destruct (0 <? n); [|done]. by rewrite <- app_assoc.
Qed.

Lemma decode_encode_aux src : bytes_ok src → decode (encode_with_len src []) = Ok src.
Proof.
  intros Hs. destruct (encode_with_len_bits src [] Hs) as [Hok (k & Hk & He)]; [done|].
  apply decode_iff; [done|]. split; [done|]. by exists k.
Qed.

(** ** Properties *)

(** C28. The byte-wise DFA decodes the RFC 7541 code: for any input, [decode]
    answers [s] exactly when the input's bits are the code words of [s] in
    order followed by fewer than eight one-bits (so EOS, over-long or wrong
    padding and truncated codes are all refused), and [InvalidHuffman] is its
    only error. *)
Theorem huffman_decode_spec src :
  bytes_ok src →
  (∀ s, decode src = Ok s ↔
    bytes_ok s ∧ ∃ k, (k < 8)%nat ∧ bits_of src = codes_of s ++ replicate k true)
  ∧ (∀ e, decode src = Err e → e = InvalidHuffman).
Proof.
  intros Hok. split; [intros; by apply decode_iff|]. intros e. rewrite decode_run by done.
  destruct (bit_run _ _) as [[s q]|]; [destruct (final q)|]; congruence.
Qed.

Lemma huffman_decode_spec_witness :
  (∀ s, decode [0x87] = Ok s ↔
    bytes_ok s ∧ ∃ k, (k < 8)%nat ∧ bits_of [0x87] = codes_of s ++ replicate k true)
  ∧ (∀ e, decode [0x87] = Err e → e = InvalidHuffman).
Proof. apply (huffman_decode_spec [0x87]). solve_bytes. Defined.

(** Huffman round trip and canonicity: the encoder appends to its buffer a
    string [w] of exactly [encoded_len / 8] (rounded up) octets, the length
    the source's debug assertion expects, [w] decodes to the source string,
    and no other octet string decodes to it. *)
Theorem huffman_round_trip src dst :
  bytes_ok src →
  ∃ w, encode_with_len src dst = dst ++ w ∧ bytes_ok w
    ∧ zlen w = div_ceil (encoded_len src) 8
    ∧ (∀ w', bytes_ok w' → decode w' = Ok src ↔ w' = w).
Proof.
  intros Hs. exists (encode_with_len src []).
  destruct (encode_with_len_bits src [] Hs) as [Hok (k & Hk & He)]; [done|].
  split_and!; [apply encode_with_len_app|done|by apply length_encode_with_len|].
  intros w' Hw'. split; [|intros ->; by apply decode_encode_aux].
  intros Hd. apply decode_iff in Hd as (_ & k' & Hk' & He'); [|done].
  apply bits_of_inj; [done|done|]. rewrite He', He. cbn. do 2 f_equal.
  apply (f_equal length) in He, He'.
  rewrite !length_app, length_bits_of, length_replicate in He.
  rewrite !length_app, length_bits_of, length_replicate in He'. cbn in He. lia.
Qed.

Lemma huffman_round_trip_witness :
  ∃ w, encode_with_len (b "GET") [1] = [1] ++ w ∧ bytes_ok w
    ∧ zlen w = div_ceil (encoded_len (b "GET")) 8
    ∧ (∀ w', bytes_ok w' → decode w' = Ok (b "GET") ↔ w' = w).
Proof. apply (huffman_round_trip (b "GET") [1]). solve_bytes. Defined.
