(* ===== verification/HpackString.v ===== *)
(** * HPACK string literals (src/src/h2/hpack/string.rs)

    RFC 7541, Section 5.2: a 7-bit-prefix length with the Huffman flag, then
    the raw or Huffman-coded octets. *)

From S2P Require Import Prelude Integer HuffmanTable Huffman.

Definition HUFFMAN_FLAG : Z := 0x80.

(** [huffman_encoded_len_if_shorter(value)]. *)
Definition huffman_encoded_len_if_shorter (value : bytes) : option Z :=
  let bit_len := Huffman.encoded_len value in
  if bit_len <? saturating_mul64 (zlen value) 8 then Some (div_ceil bit_len 8) else None.

(** [encode(out, value, huffman_len)]. *)
Definition encode (out value : bytes) (huffman_len : option Z) : bytes :=
  match huffman_len with
  | Some huffman_len =>
      let out := Integer.encode out huffman_len 7 HUFFMAN_FLAG in
      Huffman.encode_with_len value out
  | None =>
      let out := Integer.encode out (zlen value) 7 0 in
      out ++ value
  end.

(** [decode(buf, &mut off, max_length)]: the Huffman flag, the value and the
    offset after the literal. *)
Definition decode (buf : bytes) (off max_length : Z)
    : result HpackError (bool * bytes * Z) :=
  first ← ok_or (zget buf off) InvalidString;
  let off := off + 1 in
  '(len, off) ← Integer.decode buf off 7 first;
  _ ← fail_if (max_length <? len) InvalidString;
  end_ ← ok_or (checked_add64 off len) InvalidString;
  slice ← ok_or (zslice buf off end_) InvalidString;
  let off := end_ in
  if negb (Z.land first HUFFMAN_FLAG =? 0)
  then value ← Huffman.decode slice;
       _ ← fail_if (max_length <? zlen value) InvalidString;
       Ok (true, value, off)
  else Ok (false, slice, off).

Example empty_huffman_flag_keeps_flag : encode [] [] (Some 0) = [0x80].
Proof. reflexivity. Qed.
Example decode_empty_huffman : decode [0x80] 0 16 = Ok (true, [], 1).
Proof. reflexivity. Qed.
Example decode_max_length : decode (encode [] (b "toolong") None) 0 3 = Err InvalidString.
Proof. reflexivity. Qed.
Example decode_expansion :
  decode (encode [] (b "0123456789") (huffman_encoded_len_if_shorter (b "0123456789"))) 0 9
  = Err InvalidString.
Proof. vm_compute. reflexivity. Qed.

(** ** Lemmas *)

(** The octets of a literal; [huffman] says whether it is Huffman-coded. *)
Definition body (value : bytes) (huffman : bool) : bytes :=
  if huffman then encode_with_len value [] else value.

Definition literal (value : bytes) (huffman : bool) : bytes :=
  let n := zlen (body value huffman) in
  prefix_octet n 7 (if huffman then HUFFMAN_FLAG else 0) :: continuation n 7
  ++ body value huffman.

Lemma flag_octet n (huffman : bool) :
  0 ≤ n →
  is_byte (prefix_octet n 7 (if huffman then HUFFMAN_FLAG else 0))
  ∧ (Z.land (prefix_octet n 7 (if huffman then HUFFMAN_FLAG else 0)) HUFFMAN_FLAG =? 0) = negb huffman.
Proof.
  intros Hn. change HUFFMAN_FLAG with 128. unfold prefix_octet. change (2 ^ 7) with 128.
  assert (is_byte ((if huffman then 128 else 0) / 128 * 128 + Z.min n (128 - 1))) as Hb
    by (unfold is_byte; destruct huffman; [change (128 / 128) with 1|change (0 / 128) with 0]; lia).
  split; [done|]. rewrite land_0x80 by done.
  destruct huffman; [change (128 / 128) with 1|change (0 / 128) with 0]; cbn [negb]; lia.
Qed.

Lemma body_ok value huffman : bytes_ok value → bytes_ok (body value huffman).
Proof. intros. destruct huffman; [|done]. by apply encode_with_len_bits. Qed.

Lemma literal_ok value huffman :
  bytes_ok value → zlen (body value huffman) < 2 ^ 64 → bytes_ok (literal value huffman).
Proof.
  intros Hv Hl. pose proof (zlen_nonneg (body value huffman)).
  unfold literal. constructor; [by apply flag_octet|].
  apply Forall_app. split; [|by apply body_ok]. unfold continuation. case_match; [done|].
  apply encode_loop_ok. change (7 * Z.of_nat 10) with 70. assert (2 ^ 64 < 2 ^ 70) by done. lia.
Qed.

(** [encode] with the length it is called with. *)
Lemma encode_literal out value (huffman : bool) :
  bytes_ok value →
  encode out value (if huffman then Some (div_ceil (encoded_len value) 8) else None)
  = out ++ literal value huffman.
Proof.
  intros Hv. unfold encode, literal, body. destruct huffman.
  - rewrite length_encode_with_len by done. rewrite encode_with_len_app.
    pose proof (encoded_len_bounds value Hv). pose proof (zlen_nonneg value).
    rewrite encode_octets by (unfold is_byte, HUFFMAN_FLAG, div_ceil; dlia).
    rewrite <- app_assoc. done.
  - pose proof (zlen_nonneg value).
    rewrite encode_octets by (unfold is_byte; lia). by rewrite <- app_assoc.
Qed.

Lemma decode_literal pre value huffman post max_length :
  bytes_ok value → zlen (body value huffman) < 2 ^ 62 → zlen pre < 2 ^ 62 →
  zlen (body value huffman) ≤ max_length → zlen value ≤ max_length →
  decode (pre ++ literal value huffman ++ post) (zlen pre) max_length
  = Ok (huffman, value, zlen pre + zlen (literal value huffman)).
Proof.
  intros Hv Hl Hpre Hm Hm'. set (n := zlen (body value huffman)) in *.
  assert (0 ≤ n) by apply zlen_nonneg. pose proof (zlen_nonneg pre).
  set (flag := if huffman then HUFFMAN_FLAG else 0).
  assert (is_byte flag) by (unfold is_byte, flag, HUFFMAN_FLAG; destruct huffman; lia).
  pose proof (flag_octet n huffman ltac:(done)) as [Hf Hflag]. fold flag in Hf, Hflag.
  unfold literal. fold n flag. unfold decode. cbn [app]. rewrite zget_head.
  cbn [ok_or mbind result_bind]. rewrite <- app_assoc, (decode_octets pre (body value huffman ++ post))
    by (assert (2 ^ 62 < 2 ^ 64) by done; lia || done).
  replace (n <? 2 ^ 62) with true by lia. cbn [mbind result_bind].
  replace (max_length <? n) with false by lia. cbn [fail_if mbind result_bind].
  pose proof (continuation_len n 7). pose proof (zlen_nonneg (continuation n 7)).
  unfold checked_add64. change (2 ^ 62) with 4611686018427387904 in *.
  change u64_max with 18446744073709551615.
  replace (zlen pre + 1 + zlen (continuation n 7) + n <=? 18446744073709551615) with true by lia.
  cbn [ok_or mbind result_bind].
  replace (pre ++ prefix_octet n 7 flag :: continuation n 7 ++ body value huffman ++ post)
    with ((pre ++ prefix_octet n 7 flag :: continuation n 7) ++ body value huffman ++ post)
    by (rewrite <- app_assoc; done).
  replace (zlen pre + 1 + zlen (continuation n 7))
    with (zlen (pre ++ prefix_octet n 7 flag :: continuation n 7))
    by (rewrite zlen_app, zlen_cons; lia).
  pose proof (zslice_app (pre ++ prefix_octet n 7 flag :: continuation n 7) (body value huffman) post) as Hz.
  fold n in Hz. rewrite Hz. cbn [ok_or mbind result_bind]. rewrite Hflag, negb_involutive.
  assert (zlen (pre ++ prefix_octet n 7 flag :: continuation n 7) + n
    = zlen pre + zlen (prefix_octet n 7 flag :: continuation n 7 ++ body value huffman)) as ->
    by (rewrite !zlen_app, !zlen_cons, zlen_app; fold n; lia).
  destruct huffman; [|done]. unfold body. rewrite decode_encode_aux by done.
  cbn [mbind result_bind]. by replace (max_length <? zlen value) with false by lia.
Qed.

(** When Huffman coding is chosen, the literal is no longer than the raw form. *)
Lemma if_shorter_body value :
  bytes_ok value → zlen value < 2 ^ 60 →
  ∃ huffman : bool, huffman_encoded_len_if_shorter value
      = (if huffman then Some (div_ceil (encoded_len value) 8) else None)
    ∧ zlen (body value huffman) ≤ zlen value.
Proof.
  intros Hv Hl. unfold huffman_encoded_len_if_shorter.
  assert (saturating_mul64 (zlen value) 8 = zlen value * 8) as ->.
  { unfold saturating_mul64, usize_max. change (2 ^ 60) with 1152921504606846976 in Hl. lia. }
  destruct (Z.ltb_spec (encoded_len value) (zlen value * 8)).
  - exists true. split; [done|]. unfold body. rewrite length_encode_with_len by done.
    unfold div_ceil. dlia.
  - exists false. done.
Qed.

Lemma decode_ok_bounds buf off max_length huffman value off' :
  bytes_ok buf → 0 ≤ off →
  decode buf off max_length = Ok (huffman, value, off') →
  zlen value ≤ max_length ∧ off < off' ≤ zlen buf ∧ bytes_ok value.
Proof.
  intros Hbuf Hoff H. unfold decode in H.
  apply bind_Ok in H as (first & Hf & H). apply ok_or_Ok in Hf.
  apply bind_Ok in H as ([len off1] & Hd & H).
  apply bind_Ok in H as (? & Hm & H). apply fail_if_Ok in Hm.
  apply bind_Ok in H as (e & He & H). apply ok_or_Ok in He.
  apply bind_Ok in H as (slice & Hs & H). apply ok_or_Ok in Hs.
  apply zget_Some in Hf as [_ Hf].
  assert (is_byte first) by (by eapply Forall_lookup_1 in Hbuf).
  apply lookup_lt_Some in Hf.
  apply decode_bounds_aux in Hd as (Hlen & Hoff1 & _); [|lia|done|done|unfold zlen; lia].
  unfold checked_add64 in He. destruct (off1 + len <=? u64_max); [|done]. injection He as <-.
  unfold zslice in Hs. destruct ((0 <=? off1) && (off1 <=? off1 + len) && (off1 + len <=? zlen buf)) eqn:E;
    [|done]. injection Hs as <-.
  assert (bytes_ok (take (Z.to_nat (off1 + len - off1)) (drop (Z.to_nat off1) buf))) as Hslice
    by (by apply Forall_take, Forall_drop).
  destruct (negb _).
  - apply bind_Ok in H as (v & Hv & H). apply bind_Ok in H as (? & Hmax & H).
    apply fail_if_Ok in Hmax. injection H as <- <- <-.
    apply decode_iff in Hv as [Hv _]; [|done]. split_and!; [lia|lia|lia|done].
  - injection H as <- <- <-. split_and!; [|lia|lia|done].
    unfold zlen. rewrite length_take. lia.
Qed.

(** ** Properties *)

(** String literals round trip: for a value of fewer than 2^60 octets, the
    literal written with the length [huffman_encoded_len_if_shorter] chooses
    is never longer than the raw one plus its prefix, and [decode] placed on it
    in any buffer gives back the value, the Huffman flag used and the offset
    just after it, provided the value fits the maximum length. *)
Theorem string_round_trip pre value post max_length :
  bytes_ok value → zlen value < 2 ^ 60 → zlen pre < 2 ^ 62 → zlen value ≤ max_length →
  ∃ lit huffman, encode pre value (huffman_encoded_len_if_shorter value) = pre ++ lit
    ∧ bytes_ok lit ∧ zlen lit ≤ zlen value + 12
    ∧ decode (pre ++ lit ++ post) (zlen pre) max_length
      = Ok (huffman, value, zlen pre + zlen lit).
Proof.
  intros Hv Hl Hpre Hm. destruct (if_shorter_body value Hv Hl) as (h & -> & Hb).
  change (2 ^ 60) with 1152921504606846976 in Hl.
  exists (literal value h), h. split_and!.
  - by apply encode_literal.
  - apply literal_ok; [done|]. change (2 ^ 64) with 18446744073709551616. lia.
  - unfold literal. rewrite zlen_cons, zlen_app.
    pose proof (continuation_len (zlen (body value h)) 7). lia.
  - apply decode_literal; try done; try lia. 
Qed.

Lemma string_round_trip_witness :
  ∃ lit huffman, encode [9] (b "custom-key") (huffman_encoded_len_if_shorter (b "custom-key")) = [9] ++ lit
    ∧ bytes_ok lit ∧ zlen lit ≤ zlen (b "custom-key") + 12
    ∧ decode ([9] ++ lit ++ [1]) (zlen [9]) 1024
      = Ok (huffman, b "custom-key", zlen [9] + zlen lit).
Proof.
  apply (string_round_trip [9] (b "custom-key") [1] 1024);
    [solve_bytes|vm_compute; done|vm_compute; done|vm_compute; done].
Defined.
