(* ===== verification/HpackTable.v ===== *)
(** * HPACK header tables (src/src/h2/hpack/table.rs)

    The static table and its two perfect-hash maps, the dynamic table with its
    FIFO of entries, cached sizes and lookup maps, and the operations [get],
    [find], [find_name], [set_max_size] and [add].  The abstract dynamic table
    is a list trimmed to a budget ([fit]); the operations refine it, and the
    lookup maps are shown to agree with the linear scan. *)

From S2P Require Import Prelude.

(** A [phf::Map]: a finite map given by its entries. *)
Fixpoint phf_get {K} `{EqDecision K} (m : list (K * Z)) (k : K) : option Z :=
  match m with
  | [] => None
  | (k', i) :: m => if decide (k = k') then Some i else phf_get m k
  end.

Definition STATIC_EXACT : list ((bytes * bytes) * Z) := [
  ((b ":authority", b ""), 1);
  ((b ":method", b "GET"), 2);
  ((b ":method", b "POST"), 3);
  ((b ":path", b "/"), 4);
  ((b ":path", b "/index.html"), 5);
  ((b ":scheme", b "http"), 6);
  ((b ":scheme", b "https"), 7);
  ((b ":status", b "200"), 8);
  ((b ":status", b "204"), 9);
  ((b ":status", b "206"), 10);
  ((b ":status", b "304"), 11);
  ((b ":status", b "400"), 12);
  ((b ":status", b "404"), 13);
  ((b ":status", b "500"), 14);
  ((b "accept-charset", b ""), 15);
  ((b "accept-encoding", b "gzip, deflate"), 16);
  ((b "accept-language", b ""), 17);
  ((b "accept-ranges", b ""), 18);
  ((b "accept", b ""), 19);
  ((b "access-control-allow-origin", b ""), 20);
  ((b "age", b ""), 21);
  ((b "allow", b ""), 22);
  ((b "authorization", b ""), 23);
  ((b "cache-control", b ""), 24);
  ((b "content-disposition", b ""), 25);
  ((b "content-encoding", b ""), 26);
  ((b "content-language", b ""), 27);
  ((b "content-length", b ""), 28);
  ((b "content-location", b ""), 29);
  ((b "content-range", b ""), 30);
  ((b "content-type", b ""), 31);
  ((b "cookie", b ""), 32);
  ((b "date", b ""), 33);
  ((b "etag", b ""), 34);
  ((b "expect", b ""), 35);
  ((b "expires", b ""), 36);
  ((b "from", b ""), 37);
  ((b "host", b ""), 38);
  ((b "if-match", b ""), 39);
  ((b "if-modified-since", b ""), 40);
  ((b "if-none-match", b ""), 41);
  ((b "if-range", b ""), 42);
  ((b "if-unmodified-since", b ""), 43);
  ((b "last-modified", b ""), 44);
  ((b "link", b ""), 45);
  ((b "location", b ""), 46);
  ((b "max-forwards", b ""), 47);
  ((b "proxy-authenticate", b ""), 48);
  ((b "proxy-authorization", b ""), 49);
  ((b "range", b ""), 50);
  ((b "referer", b ""), 51);
  ((b "refresh", b ""), 52);
  ((b "retry-after", b ""), 53);
  ((b "server", b ""), 54);
  ((b "set-cookie", b ""), 55);
  ((b "strict-transport-security", b ""), 56);
  ((b "transfer-encoding", b ""), 57);
  ((b "user-agent", b ""), 58);
  ((b "vary", b ""), 59);
  ((b "via", b ""), 60);
  ((b "www-authenticate", b ""), 61)].

Definition STATIC_NAME : list (bytes * Z) := [
  (b ":authority", 1);
  (b ":method", 2);
  (b ":path", 4);
  (b ":scheme", 6);
  (b ":status", 8);
  (b "accept-charset", 15);
  (b "accept-encoding", 16);
  (b "accept-language", 17);
  (b "accept-ranges", 18);
  (b "accept", 19);
  (b "access-control-allow-origin", 20);
  (b "age", 21);
  (b "allow", 22);
  (b "authorization", 23);
  (b "cache-control", 24);
  (b "content-disposition", 25);
  (b "content-encoding", 26);
  (b "content-language", 27);
  (b "content-length", 28);
  (b "content-location", 29);
  (b "content-range", 30);
  (b "content-type", 31);
  (b "cookie", 32);
  (b "date", 33);
  (b "etag", 34);
  (b "expect", 35);
  (b "expires", 36);
  (b "from", 37);
  (b "host", 38);
  (b "if-match", 39);
  (b "if-modified-since", 40);
  (b "if-none-match", 41);
  (b "if-range", 42);
  (b "if-unmodified-since", 43);
  (b "last-modified", 44);
  (b "link", 45);
  (b "location", 46);
  (b "max-forwards", 47);
  (b "proxy-authenticate", 48);
  (b "proxy-authorization", 49);
  (b "range", 50);
  (b "referer", 51);
  (b "refresh", 52);
  (b "retry-after", 53);
  (b "server", 54);
  (b "set-cookie", 55);
  (b "strict-transport-security", 56);
  (b "transfer-encoding", 57);
  (b "user-agent", 58);
  (b "vary", 59);
  (b "via", 60);
  (b "www-authenticate", 61)].

Definition STATIC_TABLE : list (bytes * bytes) := [
  (b ":authority", b "");
  (b ":method", b "GET");
  (b ":method", b "POST");
  (b ":path", b "/");
  (b ":path", b "/index.html");
  (b ":scheme", b "http");
  (b ":scheme", b "https");
  (b ":status", b "200");
  (b ":status", b "204");
  (b ":status", b "206");
  (b ":status", b "304");
  (b ":status", b "400");
  (b ":status", b "404");
  (b ":status", b "500");
  (b "accept-charset", b "");
  (b "accept-encoding", b "gzip, deflate");
  (b "accept-language", b "");
  (b "accept-ranges", b "");
  (b "accept", b "");
  (b "access-control-allow-origin", b "");
  (b "age", b "");
  (b "allow", b "");
  (b "authorization", b "");
  (b "cache-control", b "");
  (b "content-disposition", b "");
  (b "content-encoding", b "");
  (b "content-language", b "");
  (b "content-length", b "");
  (b "content-location", b "");
  (b "content-range", b "");
  (b "content-type", b "");
  (b "cookie", b "");
  (b "date", b "");
  (b "etag", b "");
  (b "expect", b "");
  (b "expires", b "");
  (b "from", b "");
  (b "host", b "");
  (b "if-match", b "");
  (b "if-modified-since", b "");
  (b "if-none-match", b "");
  (b "if-range", b "");
  (b "if-unmodified-since", b "");
  (b "last-modified", b "");
  (b "link", b "");
  (b "location", b "");
  (b "max-forwards", b "");
  (b "proxy-authenticate", b "");
  (b "proxy-authorization", b "");
  (b "range", b "");
  (b "referer", b "");
  (b "refresh", b "");
  (b "retry-after", b "");
  (b "server", b "");
  (b "set-cookie", b "");
  (b "strict-transport-security", b "");
  (b "transfer-encoding", b "");
  (b "user-agent", b "");
  (b "vary", b "");
  (b "via", b "");
  (b "www-authenticate", b "")].

Definition STATIC_LEN : Z := 61.
Definition HYBRID_THRESHOLD : Z := 32.
Definition ENTRY_OVERHEAD : Z := 32.
Definition DEFAULT_MAX_SIZE : Z := 4096.

(** A header field with its cached size. *)
Record Header : Type := MkHeader {
  name : bytes;
  value : bytes;
  hdr_size : Z;
}.

#[global] Instance Header_eq_dec : EqDecision Header.
Proof. solve_decision. Defined.

(** [Header::new]. *)
Definition new_header (name value : bytes) : Header :=
  MkHeader name value (ENTRY_OVERHEAD + zlen name + zlen value).

(** The table: dynamic entries newest first, their size, the limit, and the
    lookup maps from an exact pair and from a name to the newest combined
    index. *)
Record Table : Type := MkTable {
  entries : list Header;
  size : Z;
  max_size : Z;
  exact : gmap (bytes * bytes) Z;
  name_map : gmap bytes Z;
  maintain_maps : bool;
}.

(** [Table::with_max_size] and [Table::with_max_size_no_maps]. *)
Definition with_max_size (max : Z) : Table := MkTable [] 0 max ∅ ∅ true.
Definition with_max_size_no_maps (max : Z) : Table := MkTable [] 0 max ∅ ∅ false.

(** [Table::new]. *)
Definition new_table : Table := with_max_size DEFAULT_MAX_SIZE.

(** [Table::get]: 1-based, static entries first. *)
Definition get (t : Table) (index : Z) : option Header :=
  if index =? 0 then None
  else if index <=? STATIC_LEN
  then '(n, v) ← zget STATIC_TABLE (index - 1); Some (new_header n v)
  else zget (entries t) (index - STATIC_LEN - 1).

Definition static_is (n v : bytes) (e : bytes * bytes) : bool :=
  bool_decide (e.1 = n) && bool_decide (e.2 = v).
Definition static_named (n : bytes) (e : bytes * bytes) : bool := bool_decide (e.1 = n).
Definition entry_is (n v : bytes) (h : Header) : bool :=
  bool_decide (name h = n) && bool_decide (value h = v).
Definition entry_named (n : bytes) (h : Header) : bool := bool_decide (name h = n).

(** [Table::find]. *)
Definition find (t : Table) (n v : bytes) : option Z :=
  if maintain_maps t && (HYBRID_THRESHOLD <? zlen (entries t))
  then match phf_get STATIC_EXACT (n, v) with
       | Some index => Some index
       | None => exact t !! (n, v)
       end
  else match scan (static_is n v) STATIC_TABLE 1 with
       | Some i => Some i
       | None => scan (entry_is n v) (entries t) (STATIC_LEN + 1)
       end.

(** [Table::find_name]. *)
Definition find_name (t : Table) (n : bytes) : option Z :=
  if maintain_maps t && (HYBRID_THRESHOLD <? zlen (entries t))
  then match phf_get STATIC_NAME n with
       | Some index => Some index
       | None => name_map t !! n
       end
  else match scan (static_named n) STATIC_TABLE 1 with
       | Some i => Some i
       | None => scan (entry_named n) (entries t) (STATIC_LEN + 1)
       end.

(** [Table::evict_entry]: drops [entry] from the maps where it is the stored
    match. *)
Definition evict_entry (t : Table) (entry : Header) (combined : Z) : Table :=
  if negb (maintain_maps t) then t
  else
    let names := if bool_decide (name_map t !! name entry = Some combined)
                 then delete (name entry) (name_map t) else name_map t in
    let key := (name entry, value entry) in
    let exacts := if bool_decide (exact t !! key = Some combined)
                  then delete key (exact t) else exact t in
    MkTable (entries t) (size t) (max_size t) exacts names (maintain_maps t).

(** The [while self.size + extra > self.max_size] loop of [set_max_size]
    ([extra = 0]) and of [add] (the new header's size).  Every turn pops an
    entry or leaves the loop: [evict_loop_fuel] shows that a turn per entry is
    enough fuel. *)
Fixpoint evict_loop (fuel : nat) (extra : Z) (t : Table) : Table :=
  match fuel with
  | O => t
  | S fuel =>
      if max_size t <? size t + extra
      then match pop_back (entries t) with
           | None => t
           | Some (entry, rest) =>
               let t := MkTable rest (size t - hdr_size entry) (max_size t) (exact t)
                                (name_map t) (maintain_maps t) in
               let combined := STATIC_LEN + zlen rest + 1 in
               evict_loop fuel extra (evict_entry t entry combined)
           end
      else t
  end.

(** [Table::set_max_size]. *)
Definition set_max_size (t : Table) (max : Z) : Table :=
  let t := MkTable (entries t) (size t) max (exact t) (name_map t) (maintain_maps t) in
  evict_loop (S (length (entries t))) 0 t.

(** [Table::add]. *)
Definition add (t : Table) (header : Header) : Table :=
  if max_size t <? hdr_size header
  then if maintain_maps t
       then MkTable [] 0 (max_size t) ∅ ∅ (maintain_maps t)
       else MkTable [] 0 (max_size t) (exact t) (name_map t) (maintain_maps t)
  else
    let t := evict_loop (S (length (entries t))) (hdr_size header) t in
    let combined := STATIC_LEN + 1 in
    if maintain_maps t
    then
      let exacts := (λ v, v + 1) <$> exact t in
      let names := (λ v, v + 1) <$> name_map t in
      MkTable (header :: entries t) (size t + hdr_size header) (max_size t)
        (<[(name header, value header) := combined]> exacts)
        (<[name header := combined]> names) (maintain_maps t)
    else MkTable (header :: entries t) (size t + hdr_size header) (max_size t)
           (exact t) (name_map t) (maintain_maps t).

(** The test [find_tracks_eviction_and_duplicates] of the source. *)
Example find_tracks_duplicates :
  let t := add (add (add (with_max_size 200) (new_header (b "a") (b "1")))
                    (new_header (b "b") (b "2"))) (new_header (b "a") (b "3")) in
  (find t (b "a") (b "3"), find t (b "a") (b "1"), find_name t (b "b"),
   find (set_max_size t 70) (b "a") (b "1"), find_name (set_max_size t 70) (b "b"))
  = (Some 62, Some 64, Some 63, None, Some 63).
Proof. vm_compute. reflexivity. Qed.

#[global] Arguments get : simpl never.
#[global] Arguments find : simpl never.
#[global] Arguments find_name : simpl never.
#[global] Arguments set_max_size : simpl never.
#[global] Arguments add : simpl never.

(** ** The abstract dynamic table *)

Fixpoint sizes (l : list Header) : Z :=
  match l with [] => 0 | h :: l => hdr_size h + sizes l end.

(** The newest entries that fit the budget: what RFC 7541, Section 4.4 keeps. *)
Fixpoint fit (budget : Z) (l : list Header) : list Header :=
  match l with
  | [] => []
  | h :: l => if hdr_size h <=? budget then h :: fit (budget - hdr_size h) l else []
  end.

Definition header_ok (h : Header) : Prop := hdr_size h = ENTRY_OVERHEAD + zlen (name h) + zlen (value h).

(** The invariant: cached sizes are right, the size is their sum and within
    the limit, and the maps (when maintained) answer as the linear scan does. *)
Record table_ok (t : Table) : Prop := MkTableOk {
  ok_headers : Forall header_ok (entries t);
  ok_size : size t = sizes (entries t);
  ok_bound : size t ≤ max_size t;
  ok_exact : maintain_maps t = true →
    ∀ n v, exact t !! (n, v) = scan (entry_is n v) (entries t) (STATIC_LEN + 1);
  ok_name : maintain_maps t = true →
    ∀ n, name_map t !! n = scan (entry_named n) (entries t) (STATIC_LEN + 1);
}.

Lemma header_ok_pos h : header_ok h → 32 ≤ hdr_size h.
Proof.
  intros ->. unfold ENTRY_OVERHEAD. pose proof (zlen_nonneg (name h)).
  zlia.
Qed.

Lemma new_header_ok n v : header_ok (new_header n v).
Proof. done. Qed.

Lemma sizes_app l k : sizes (l ++ k) = sizes l + sizes k.
Proof. induction l as [|h l IH]; cbn; lia. Qed.

Lemma sizes_nonneg l : Forall header_ok l → 0 ≤ sizes l.
Proof.
  induction 1 as [|h l Hh Hl IH]; cbn; [lia|]. apply header_ok_pos in Hh. lia.
Qed.

Lemma fit_all budget l : Forall header_ok l → sizes l ≤ budget → fit budget l = l.
Proof.
  intros Hl. revert budget. induction Hl as [|h l Hh Hl IH]; intros budget Hb; [done|].
  cbn in *. pose proof (sizes_nonneg l Hl). replace (hdr_size h <=? budget) with true by lia.
  rewrite IH; [done|lia].
Qed.

Lemma fit_snoc budget l e :
  Forall header_ok (l ++ [e]) → budget < sizes (l ++ [e]) → fit budget (l ++ [e]) = fit budget l.
Proof.
  revert budget. induction l as [|h l IH]; intros budget Hok Hb; cbn in *.
  - replace (hdr_size e <=? budget) with false by lia. done.
  - apply Forall_cons in Hok as [Hh Hok].
    destruct (Z.leb_spec (hdr_size h) budget); [|done]. rewrite IH; [done|done|lia].
Qed.

Lemma fit_sizes budget l : 0 ≤ budget → sizes (fit budget l) ≤ budget.
Proof.
  revert budget. induction l as [|h l IH]; intros budget Hb; cbn; [lia|].
  destruct (Z.leb_spec (hdr_size h) budget); cbn; [|lia]. specialize (IH (budget - hdr_size h)). lia.
Qed.

Lemma fit_prefix budget l : fit budget l `prefix_of` l.
Proof.
  revert budget. induction l as [|h l IH]; intros budget; cbn; [done|].
  case_match; [by apply prefix_cons|apply prefix_nil].
Qed.

Lemma entry_is_iff n v h : entry_is n v h = true ↔ name h = n ∧ value h = v.
Proof. unfold entry_is. by rewrite andb_true_iff, !bool_decide_eq_true. Qed.

Lemma entry_named_iff n h : entry_named n h = true ↔ name h = n.
Proof. unfold entry_named. by rewrite bool_decide_eq_true. Qed.

(** *** Eviction *)

(** The invariant without the size bound, which eviction restores. *)
Record table_pre (t : Table) : Prop := MkTablePre {
  pre_headers : Forall header_ok (entries t);
  pre_size : size t = sizes (entries t);
  pre_exact : maintain_maps t = true →
    ∀ n v, exact t !! (n, v) = scan (entry_is n v) (entries t) (STATIC_LEN + 1);
  pre_name : maintain_maps t = true →
    ∀ n, name_map t !! n = scan (entry_named n) (entries t) (STATIC_LEN + 1);
}.

Lemma evict_last_pre t l e :
  table_pre t → entries t = l ++ [e] →
  table_pre (evict_entry (MkTable l (size t - hdr_size e) (max_size t) (exact t)
    (name_map t) (maintain_maps t)) e (STATIC_LEN + zlen l + 1)).
Proof.
  intros [Hh Hs He Hn] Hl. rewrite Hl in *. apply Forall_app in Hh as [Hh _].
  rewrite sizes_app in Hs. cbn in Hs. unfold evict_entry. cbn.
  replace (STATIC_LEN + zlen l + 1) with (STATIC_LEN + 1 + zlen l) by lia.
  destruct (maintain_maps t) eqn:Hm; cbn; split; cbn; [done|lia| | |done|lia|done|done].
  - intros _ n v. rewrite <- (scan_evict (bool_decide ((name e, value e) = (n, v))) _ l e _ _ (He eq_refl n v)).
    2:{ rewrite bool_decide_eq_true, entry_is_iff. naive_solver. }
    destruct (decide ((name e, value e) = (n, v))) as [<-|Hne].
    + rewrite (bool_decide_eq_true_2 ((name e, value e) = (name e, value e))) by done. cbn [andb].
      case_bool_decide; [by rewrite lookup_delete_eq|done].
    + rewrite (bool_decide_eq_false_2 _ Hne). cbn [andb].
      case_bool_decide; [by rewrite lookup_delete_ne|done].
  - intros _ n. rewrite <- (scan_evict (bool_decide (name e = n)) _ l e _ _ (Hn eq_refl n)).
    2:{ by rewrite bool_decide_eq_true, entry_named_iff. }
    destruct (decide (name e = n)) as [<-|Hne].
    + rewrite (bool_decide_eq_true_2 (name e = name e)) by done. cbn [andb].
      case_bool_decide; [by rewrite lookup_delete_eq|done].
    + rewrite (bool_decide_eq_false_2 _ Hne). cbn [andb].
      case_bool_decide; [by rewrite lookup_delete_ne|done].
Qed.

Lemma evict_entry_fields t e c :
  entries (evict_entry t e c) = entries t ∧ size (evict_entry t e c) = size t
  ∧ max_size (evict_entry t e c) = max_size t ∧ maintain_maps (evict_entry t e c) = maintain_maps t.
Proof. unfold evict_entry. destruct (maintain_maps t) eqn:E; cbn; rewrite ?E; done. Qed.

(** With a turn per entry the loop ends with the entries that fit. *)
Lemma evict_loop_spec fuel : ∀ extra t,
  table_pre t → (length (entries t) < fuel)%nat →
  let t' := evict_loop fuel extra t in
  table_pre t' ∧ entries t' = fit (max_size t - extra) (entries t)
  ∧ max_size t' = max_size t ∧ maintain_maps t' = maintain_maps t.
Proof.
  induction fuel as [|fuel IH]; intros extra t Ht Hf; [lia|]. cbn [evict_loop].
  pose proof (pre_size t Ht) as Hs. pose proof (pre_headers t Ht) as Hh.
  destruct (Z.ltb_spec (max_size t) (size t + extra)) as [Hlt|Hge].
  - destruct (entries t) as [|e l _] eqn:El using rev_ind; [done|].
    rewrite pop_back_snoc. cbv zeta.
    set (t1 := MkTable l (size t - hdr_size e) (max_size t) (exact t) (name_map t) (maintain_maps t)).
    pose proof (evict_last_pre t l e Ht El) as Hpre. fold t1 in Hpre.
    destruct (evict_entry_fields t1 e (STATIC_LEN + zlen l + 1)) as (E1 & E2 & E3 & E4).
    rewrite length_app in Hf. cbn in Hf.
    destruct (IH extra _ Hpre ltac:(rewrite E1; cbn; lia)) as (H1 & H2 & H3 & H4).
    rewrite E1, E3 in H2. rewrite E3 in H3. rewrite E4 in H4. cbn in H2, H3, H4.
    split; [done|]. split; [|done]. rewrite H2. symmetry. apply fit_snoc; [done|lia].
  - split; [done|]. split; [|done]. symmetry. apply fit_all; [done|lia].
Qed.

Lemma evict_loop_fuel extra t : table_pre t → ∀ k,
  evict_loop (S (length (entries t)) + k) extra t = evict_loop (S (length (entries t))) extra t.
Proof.
  intros Ht k. remember (S (length (entries t))) as fuel eqn:E.
  assert (length (entries t) < fuel)%nat as Hf by lia. clear E.
  revert t Ht Hf. induction fuel as [|fuel IH]; intros t Ht Hf; [lia|].
  cbn [Nat.add evict_loop]. destruct (max_size t <? size t + extra); [|done].
  destruct (entries t) as [|e l _] eqn:El using rev_ind; [done|]. rewrite pop_back_snoc. cbv zeta.
  apply IH; [by apply evict_last_pre|]. rewrite length_app in Hf. cbn in Hf.
  rewrite (proj1 (evict_entry_fields _ _ _)). cbn. lia.
Qed.

Lemma table_ok_pre t : table_ok t → table_pre t.
Proof. intros []. by split. Qed.

Lemma pre_ok t : table_pre t → sizes (entries t) ≤ max_size t → table_ok t.
Proof. intros [] Hb. split; try done. lia. Qed.

(** ** The operations *)

Lemma with_max_size_ok max : 0 ≤ max → table_ok (with_max_size max) ∧ table_ok (with_max_size_no_maps max).
Proof. intros. split; split; cbn; done || lia. Qed.

Lemma set_max_size_spec t max :
  table_ok t → 0 ≤ max →
  let t' := set_max_size t max in
  table_ok t' ∧ entries t' = fit max (entries t) ∧ max_size t' = max
  ∧ maintain_maps t' = maintain_maps t.
Proof.
  intros Ht Hmax. unfold set_max_size. cbv zeta.
  set (t1 := MkTable (entries t) (size t) max (exact t) (name_map t) (maintain_maps t)).
  assert (table_pre t1) as Hpre by (apply table_ok_pre in Ht as []; by split).
  destruct (evict_loop_spec (S (length (entries t))) 0 t1 Hpre) as (H1 & H2 & H3 & H4); [cbn; lia|].
  set (t2 := evict_loop _ _ t1) in *. rewrite Z.sub_0_r in H2. clearbody t2.
  cbn in H2, H3, H4. rewrite H2, H3, H4. split; [|done].
  apply pre_ok; [done|]. rewrite H2, H3. by apply fit_sizes.
Qed.

Lemma add_spec t h :
  table_ok t → header_ok h →
  let t' := add t h in
  table_ok t' ∧ entries t' = fit (max_size t) (h :: entries t) ∧ max_size t' = max_size t
  ∧ maintain_maps t' = maintain_maps t.
Proof.
  intros Ht Hh. pose proof (header_ok_pos h Hh). unfold add. cbn [fit].
  pose proof (sizes_nonneg _ (ok_headers t Ht)). pose proof (ok_size t Ht). pose proof (ok_bound t Ht).
  rewrite Z.leb_antisym. destruct (Z.ltb_spec (max_size t) (hdr_size h)); cbn [negb].
  - destruct (maintain_maps t) eqn:Hm; cbn; (split; [|done]); split; cbn; done || lia.
  - destruct (evict_loop_spec (S (length (entries t))) (hdr_size h) t (table_ok_pre t Ht))
      as ([P1 P2 P3 P4] & P5 & P6 & P7); [lia|].
    set (t1 := evict_loop _ _ _) in *. clearbody t1. rewrite P7 in *. rewrite <- P5.
    assert (sizes (entries t1) ≤ max_size t - hdr_size h) by (rewrite P5; apply fit_sizes; lia).
    destruct (maintain_maps t) eqn:Hm; cbv zeta; cbn [entries max_size maintain_maps];
      (split; [|done]); split; cbn [entries max_size size maintain_maps sizes exact name_map];
      try done; try (by constructor); try lia.
    + intros _ n v. cbn [scan]. destruct (entry_is n v h) eqn:E.
      * apply entry_is_iff in E as [<- <-]. by rewrite lookup_insert_eq.
      * rewrite lookup_insert_ne, lookup_fmap, P3 by
          (done || (intros [= <- <-]; by rewrite (proj2 (entry_is_iff _ _ _)) in E)).
        by rewrite (scan_shift _ _ (STATIC_LEN + 1) 1).
    + intros _ n. cbn [scan]. destruct (entry_named n h) eqn:E.
      * apply entry_named_iff in E as <-. by rewrite lookup_insert_eq.
      * rewrite lookup_insert_ne, lookup_fmap, P4 by
          (done || (intros <-; by rewrite (proj2 (entry_named_iff _ _)) in E)).
        by rewrite (scan_shift _ _ (STATIC_LEN + 1) 1).
Qed.

(** *** The static maps *)

Lemma phf_get_scan {A} `{EqDecision A} (l : list A) (k : A) i :
  phf_get (imap (λ j x, (x, i + Z.of_nat j)) l) k = scan (λ x, bool_decide (x = k)) l i.
Proof.
  revert i. induction l as [|x l IH]; intros i; [done|]. cbn.
  case_decide as Hd; case_bool_decide as Hb; try congruence; [f_equal; lia|].
  rewrite <- IH. f_equal. apply imap_ext. intros j y _. cbn. f_equal. lia.
Qed.

Lemma static_exact_scan n v : phf_get STATIC_EXACT (n, v) = scan (static_is n v) STATIC_TABLE 1.
Proof.
  assert (STATIC_EXACT = imap (λ j x, (x, 1 + Z.of_nat j)) STATIC_TABLE) as -> by reflexivity.
  rewrite phf_get_scan. apply scan_ext. intros [n' v']. unfold static_is. cbn.
  repeat case_bool_decide; naive_solver.
Qed.

Lemma phf_get_None {K} `{EqDecision K} (m : list (K * Z)) k :
  k ∉ m.*1 → phf_get m k = None.
Proof.
  induction m as [|[k' i] m IH]; cbn; [done|]. rewrite not_elem_of_cons. intros [? ?].
  by rewrite decide_False, IH.
Qed.

Lemma static_names_checked :
  Forall (λ e, phf_get STATIC_NAME e.1 = scan (static_named e.1) STATIC_TABLE 1) STATIC_TABLE
  ∧ Forall (λ n, n ∈ STATIC_TABLE.*1) STATIC_NAME.*1.
Proof. split; apply (bool_decide_unpack _); vm_compute; done. Qed.

Lemma static_name_scan n : phf_get STATIC_NAME n = scan (static_named n) STATIC_TABLE 1.
Proof.
  destruct static_names_checked as [Hc Hsub]. rewrite Forall_forall in Hc. rewrite Forall_forall in Hsub.
  destruct (decide (n ∈ STATIC_TABLE.*1)) as [Hin|Hout].
  - apply list_elem_of_fmap in Hin as (e & -> & He). by apply Hc.
  - rewrite phf_get_None by (intros Hn; by apply Hout, Hsub). symmetry. apply scan_None.
    apply Forall_forall. intros e He. apply bool_decide_eq_false_2. intros <-.
    apply Hout, list_elem_of_fmap. eauto.
Qed.

(** Whichever path is taken, the lookups are the linear scans. *)
Lemma find_scan t n v :
  table_ok t →
  find t n v = match scan (static_is n v) STATIC_TABLE 1 with
    | Some i => Some i
    | None => scan (entry_is n v) (entries t) (STATIC_LEN + 1) end.
Proof.
  intros Ht. unfold find. destruct (maintain_maps t) eqn:Hm; cbn [andb]; [|done].
  destruct (HYBRID_THRESHOLD <? zlen (entries t)); [|done].
  by rewrite static_exact_scan, (ok_exact t Ht Hm).
Qed.

Lemma find_name_scan t n :
  table_ok t →
  find_name t n = match scan (static_named n) STATIC_TABLE 1 with
    | Some i => Some i
    | None => scan (entry_named n) (entries t) (STATIC_LEN + 1) end.
Proof.
  intros Ht. unfold find_name. destruct (maintain_maps t) eqn:Hm; cbn [andb]; [|done].
  destruct (HYBRID_THRESHOLD <? zlen (entries t)); [|done].
  by rewrite static_name_scan, (ok_name t Ht Hm).
Qed.

(** A combined index found by the two scans addresses a matching entry. *)
Lemma scans_get t (ps : bytes * bytes → bool) (pe : Header → bool) i :
  match scan ps STATIC_TABLE 1 with
  | Some i => Some i
  | None => scan pe (entries t) (STATIC_LEN + 1) end = Some i →
  1 ≤ i ≤ STATIC_LEN + zlen (entries t) ∧
  ∃ h, get t i = Some h
    ∧ ((∃ e, ps e = true ∧ h = new_header e.1 e.2) ∨ (h ∈ entries t ∧ pe h = true)).
Proof.
  assert (zlen STATIC_TABLE = 61) as Hl by reflexivity. unfold STATIC_LEN in *.
  unfold get, STATIC_LEN. destruct (scan ps STATIC_TABLE 1) as [j|] eqn:E.
  - intros [= <-]. pose proof (scan_ge _ _ _ _ E). apply scan_get in E as (e & He & Hp).
    pose proof (zlen_nonneg (entries t)). split; [lia|].
    replace (j =? 0) with false by lia. replace (j <=? 61) with true by lia.
    rewrite He. destruct e as [n v]. eexists. split; [done|]. left. by exists (n, v).
  - intros Hs. pose proof (scan_ge _ _ _ _ Hs). apply scan_get in Hs as (h & Hh & Hp).
    split; [lia|]. replace (i =? 0) with false by lia. replace (i <=? 61) with false by lia.
    replace (i - 61 - 1) with (i - (61 + 1)) by lia. exists h. split; [done|]. right.
    split; [|done]. apply zget_Some in Hh as [_ Hh]. by eapply list_elem_of_lookup_2.
Qed.

Lemma find_get t n v i :
  table_ok t → find t n v = Some i →
  1 ≤ i ≤ STATIC_LEN + zlen (entries t) ∧ get t i = Some (new_header n v).
Proof.
  intros Ht. rewrite find_scan by done. intros H. apply scans_get in H as (Hi & h & Hg & Hh).
  split; [done|]. rewrite Hg. destruct Hh as [(e & He & ->)|[Hin He]].
  - unfold static_is in He. apply andb_true_iff in He as [<-%bool_decide_eq_true_1 <-%bool_decide_eq_true_1]. done.
  - apply entry_is_iff in He as [<- <-]. f_equal.
    pose proof (ok_headers t Ht) as Hok. rewrite Forall_forall in Hok. specialize (Hok h Hin).
    destruct h. unfold header_ok in Hok. cbn in *. by subst.
Qed.

Lemma find_name_get t n i :
  table_ok t → find_name t n = Some i →
  1 ≤ i ≤ STATIC_LEN + zlen (entries t) ∧ ∃ h, get t i = Some h ∧ name h = n.
Proof.
  intros Ht. rewrite find_name_scan by done. intros H. apply scans_get in H as (Hi & h & Hg & Hh).
  split; [done|]. exists h. split; [done|]. destruct Hh as [(e & He & ->)|[Hin He]].
  - by apply bool_decide_eq_true_1 in He as <-.
  - by apply entry_named_iff in He.
Qed.

(** There are at most [max_size / 32] dynamic entries. *)
Lemma entries_bound t : table_ok t → 32 * zlen (entries t) ≤ max_size t.
Proof.
  intros [Hh Hs Hb _ _]. rewrite Hs in Hb. etransitivity; [|done].
  clear Hs Hb. induction Hh as [|h l Hh Hl IH]; cbn; [done|].
  rewrite zlen_cons. apply header_ok_pos in Hh. lia.
Qed.

(** ** Properties *)

(** The dynamic table refines the abstract FIFO: from a well-formed table,
    [add] leaves a well-formed table whose entries are the longest prefix of
    the new entry and the old ones that fits the limit (nothing when the entry
    alone is too large), and [set_max_size] leaves the longest prefix of the
    old entries that fits the new limit.  Well-formed includes the cached
    size, the size limit and both lookup maps agreeing with a linear scan. *)
Theorem table_refines_fifo t h max :
  table_ok t → header_ok h → 0 ≤ max →
  (table_ok (add t h) ∧ entries (add t h) = fit (max_size t) (h :: entries t)
   ∧ max_size (add t h) = max_size t)
  ∧ (table_ok (set_max_size t max) ∧ entries (set_max_size t max) = fit max (entries t)
     ∧ max_size (set_max_size t max) = max).
Proof.
  intros Ht Hh Hm. destruct (add_spec t h Ht Hh) as (? & ? & ? & _).
  destruct (set_max_size_spec t max Ht Hm) as (? & ? & ? & _). done.
Qed.

Lemma table_refines_fifo_witness :
  let t := with_max_size 200 in let h := new_header (b "a") (b "1") in
  (table_ok (add t h) ∧ entries (add t h) = fit (max_size t) (h :: entries t)
   ∧ max_size (add t h) = max_size t)
  ∧ (table_ok (set_max_size t 70) ∧ entries (set_max_size t 70) = fit 70 (entries t)
     ∧ max_size (set_max_size t 70) = 70).
Proof.
  apply (table_refines_fifo (with_max_size 200) (new_header (b "a") (b "1")) 70);
    [apply with_max_size_ok; lia|apply new_header_ok|lia].
Defined.

(** The optimised lookups are equivalent to the linear scan: on a
    well-formed table [find] and [find_name] answer exactly what the scan of
    the static table and then of the dynamic entries answers, on both sides
    of the 32-entry threshold, and the index they give addresses, through
    [get], a field with that name (and value). *)
Theorem find_equals_scan t n v :
  table_ok t →
  (find t n v = match scan (static_is n v) STATIC_TABLE 1 with
     | Some i => Some i
     | None => scan (entry_is n v) (entries t) (STATIC_LEN + 1) end)
  ∧ (find_name t n = match scan (static_named n) STATIC_TABLE 1 with
     | Some i => Some i
     | None => scan (entry_named n) (entries t) (STATIC_LEN + 1) end)
  ∧ (∀ i, find t n v = Some i → get t i = Some (new_header n v))
  ∧ (∀ i, find_name t n = Some i → ∃ h, get t i = Some h ∧ name h = n).
Proof.
  intros Ht. split_and!; [by apply find_scan|by apply find_name_scan| |].
  - intros i Hi. by apply find_get in Hi as [_ ?].
  - intros i Hi. by apply find_name_get in Hi as [_ ?].
Qed.

Lemma find_equals_scan_witness :
  let t := with_max_size 4096 in
  (find t (b "age") [] = match scan (static_is (b "age") []) STATIC_TABLE 1 with
     | Some i => Some i
     | None => scan (entry_is (b "age") []) (entries t) (STATIC_LEN + 1) end)
  ∧ (find_name t (b "age") = match scan (static_named (b "age")) STATIC_TABLE 1 with
     | Some i => Some i
     | None => scan (entry_named (b "age")) (entries t) (STATIC_LEN + 1) end)
  ∧ (∀ i, find t (b "age") [] = Some i → get t i = Some (new_header (b "age") []))
  ∧ (∀ i, find_name t (b "age") = Some i → ∃ h, get t i = Some h ∧ name h = b "age").
Proof. apply (find_equals_scan (with_max_size 4096)). apply with_max_size_ok. lia. Defined.
