(* ===== verification/Hpack.v ===== *)
(** * The HPACK codec (src/src/h2/hpack/decode.rs, encode.rs)

    [Decoder.decode] and [Encoder.encode] over the header table, with the
    representations of RFC 7541, Section 6.  The decoder's main loop is a step
    function on its local state; [decode_loop_total] shows its fuel suffices.
    The last part proves that an encoder and the decoder it feeds stay
    synchronised over any sequence of header blocks. *)

From S2P Require Import Prelude Integer HuffmanTable Huffman HpackString HpackTable.

Definition INDEXED : Z := 0x80.
Definition LITERAL_WITH_INDEXING : Z := 0x40.
Definition LITERAL_WITHOUT_INDEXING : Z := 0xf0.
Definition LITERAL_NEVER_INDEXED : Z := 0x10.
Definition SIZE_UPDATE_MASK : Z := 0xe0.
Definition SIZE_UPDATE : Z := 0x20.

Inductive Representation : Type :=
| Indexed
| LiteralWithIndexing
| LiteralWithoutIndexing
| LiteralNeverIndexed
| SizeUpdate.

#[global] Instance Representation_eq_dec : EqDecision Representation.
Proof. solve_decision. Defined.

(** [Representation::load]. *)
Definition load (byte : byte) : result HpackError Representation :=
  if Z.land byte INDEXED =? INDEXED then Ok Indexed
  else if Z.land byte LITERAL_WITH_INDEXING =? LITERAL_WITH_INDEXING then Ok LiteralWithIndexing
  else if Z.land byte LITERAL_WITHOUT_INDEXING =? 0 then Ok LiteralWithoutIndexing
  else if Z.land byte LITERAL_WITHOUT_INDEXING =? LITERAL_NEVER_INDEXED then Ok LiteralNeverIndexed
  else if Z.land byte SIZE_UPDATE_MASK =? SIZE_UPDATE then Ok SizeUpdate
  else Err InvalidRepresentation.

(** ** The decoder *)

Record Decoder : Type := MkDecoder {
  d_table : Table;
  d_max_table_size : Z;
  d_queued_size_update : option Z;
  d_max_header_list_size : Z;
}.

(** [Decoder::new]. *)
Definition new_decoder (max_table_size : Z) : Decoder :=
  MkDecoder (with_max_size_no_maps max_table_size) max_table_size None usize_max.

(** The [Some(match ...)] of both [queue_size_update]s. *)
Definition queue_update (queued : option Z) (size : Z) : option Z :=
  Some match queued with Some current => Z.max current size | None => size end.

(** [Decoder::queue_size_update]. *)
Definition decoder_queue_size_update (d : Decoder) (size : Z) : Decoder :=
  MkDecoder (d_table d) (d_max_table_size d) (queue_update (d_queued_size_update d) size)
    (d_max_header_list_size d).

(** [Decoder::set_max_header_list_size]. *)
Definition set_max_header_list_size (d : Decoder) (size : Z) : Decoder :=
  MkDecoder (d_table d) (d_max_table_size d) (d_queued_size_update d) size.

(** The variables the loop of [Decoder::decode] changes. *)
Record Loop : Type := MkLoop {
  l_table : Table;
  l_off : Z;
  l_headers : list Header;
  l_list_size : Z;
  l_can_resize : bool;
}.

(** An error leaves the loop with the list size reached; the table is the one
    the turn started with. *)
Abbreviation turn := (result (HpackError * Z)).
Definition at_size {A} (list_size : Z) (r : result HpackError A) : turn A :=
  map_err (λ e, (e, list_size)) r.

(** [*list_size += n; if *list_size > max { return Err(HeaderListTooLarge) }]. *)
Definition add_list_size (max list_size n : Z) : turn Z :=
  let list_size := list_size + n in
  _ ← fail_if (max <? list_size) (HeaderListTooLarge, list_size); Ok list_size.

(** The [Representation::Indexed] arm. *)
Definition decode_indexed (d : Decoder) (buf : bytes) (byte : byte) (st : Loop) : turn Loop :=
  let ls := l_list_size st in
  '(index, off) ← at_size ls (Integer.decode buf (l_off st) 7 byte);
  entry ← at_size ls (ok_or (get (l_table st) index) InvalidIndex);
  ls ← add_list_size (d_max_header_list_size d) ls (zlen (name entry) + zlen (value entry));
  Ok (MkLoop (l_table st) off (l_headers st ++ [entry]) ls false).

(** The literal arm. *)
Definition decode_literal_field (d : Decoder) (buf : bytes) (rep : Representation)
    (byte : byte) (st : Loop) : turn Loop :=
  let ls := l_list_size st in
  let max := d_max_header_list_size d in
  '(index, off) ← at_size ls
    (Integer.decode buf (l_off st) (if decide (rep = LiteralWithIndexing) then 6 else 4) byte);
  '(name, off) ← (if index =? 0
    then '(_, name, off) ← at_size ls (HpackString.decode buf off max); Ok (name, off)
    else entry ← at_size ls (ok_or (get (l_table st) index) InvalidIndex);
         Ok (name entry, off));
  '(_, value, off) ← at_size ls (HpackString.decode buf off max);
  ls ← add_list_size max ls (zlen name + zlen value);
  let header := new_header name value in
  let table := if decide (rep = LiteralWithIndexing) then add (l_table st) header
               else l_table st in
  Ok (MkLoop table off (l_headers st ++ [header]) ls false).

(** The [Representation::SizeUpdate] arm. *)
Definition decode_size_update (d : Decoder) (buf : bytes) (byte : byte) (st : Loop) : turn Loop :=
  let ls := l_list_size st in
  _ ← fail_if (negb (l_can_resize st)) (InvalidMaxSize, ls);
  '(size, off) ← at_size ls (Integer.decode buf (l_off st) 5 byte);
  _ ← fail_if (d_max_table_size d <? size) (InvalidMaxSize, ls);
  Ok (MkLoop (set_max_size (l_table st) size) off (l_headers st) ls (l_can_resize st)).

(** One turn of the loop, [byte] being [buf[off]]. *)
Definition decode_turn (d : Decoder) (buf : bytes) (byte : byte) (st : Loop) : turn Loop :=
  let st := MkLoop (l_table st) (l_off st + 1) (l_headers st) (l_list_size st) (l_can_resize st) in
  rep ← at_size (l_list_size st) (load byte);
  match rep with
  | Indexed => decode_indexed d buf byte st
  | LiteralWithIndexing | LiteralWithoutIndexing | LiteralNeverIndexed =>
      decode_literal_field d buf rep byte st
  | SizeUpdate => decode_size_update d buf byte st
  end.

(** The [while off < buf.len()] loop: the final state and what it returned.
    [None] is fuel exhausted. *)
Fixpoint decode_loop (fuel : nat) (d : Decoder) (buf : bytes) (st : Loop)
    : option (Loop * result HpackError ()) :=
  match fuel with
  | O => None
  | S fuel =>
      match zget buf (l_off st) with
      | None => Some (st, Ok ())
      | Some byte =>
          match decode_turn d buf byte st with
          | Ok st => decode_loop fuel d buf st
          | Err (e, ls) =>
              Some (MkLoop (l_table st) (l_off st) (l_headers st) ls (l_can_resize st), Err e)
          end
      end
  end.

(** [Decoder::decode(buf, list_size)]: the decoder and the list size left
    behind, and the result.  The [None] case is unreachable
    ([decode_loop_total]). *)
Definition decode (d : Decoder) (buf : bytes) (list_size : Z)
    : Decoder * Z * result HpackError (list Header) :=
  let max_table := default (d_max_table_size d) (d_queued_size_update d) in
  let d := MkDecoder (d_table d) max_table None (d_max_header_list_size d) in
  match decode_loop (S (length buf)) d buf (MkLoop (d_table d) 0 [] list_size true) with
  | Some (st, r) =>
      (MkDecoder (l_table st) max_table None (d_max_header_list_size d), l_list_size st,
       match r with Ok _ => Ok (l_headers st) | Err e => Err e end)
  | None => (d, list_size, Err InvalidRepresentation)
  end.

(** ** The encoder *)

Record Encoder : Type := MkEncoder {
  e_table : Table;
  e_queued_size_update : option Z;
  use_huffman : bool;
}.

Definition NEVER_INDEXED : list bytes := [b "authorization"; b "proxy-authorization"; b "cookie"].

(** [Encoder::new]. *)
Definition new_encoder (max_table_size : Z) : Encoder :=
  MkEncoder (with_max_size max_table_size) None true.

(** [Encoder::queue_size_update]. *)
Definition encoder_queue_size_update (e : Encoder) (size : Z) : Encoder :=
  MkEncoder (e_table e) (queue_update (e_queued_size_update e) size) (use_huffman e).

(** [Encoder::set_use_huffman]. *)
Definition set_use_huffman (e : Encoder) (use : bool) : Encoder :=
  MkEncoder (e_table e) (e_queued_size_update e) use.

(** [Encoder::encode_string]. *)
Definition encode_string (e : Encoder) (out value : bytes) : bytes :=
  let huffman_len := if use_huffman e then huffman_encoded_len_if_shorter value else None in
  HpackString.encode out value huffman_len.

(** The body of the [for header in headers] loop of [Encoder::encode]. *)
Definition encode_header (st : Encoder * bytes) (header : Header) : Encoder * bytes :=
  let '(e, out) := st in
  if bool_decide (name header ∈ NEVER_INDEXED)
  then
    let out := match find_name (e_table e) (name header) with
      | Some index => Integer.encode out index 4 LITERAL_NEVER_INDEXED
      | None => encode_string e (out ++ [LITERAL_NEVER_INDEXED]) (name header)
      end in
    (e, encode_string e out (value header))
  else
    match find (e_table e) (name header) (value header) with
    | Some index => (e, Integer.encode out index 7 INDEXED)
    | None =>
        let out := match find_name (e_table e) (name header) with
          | Some index => Integer.encode out index 6 LITERAL_WITH_INDEXING
          | None => encode_string e (out ++ [LITERAL_WITH_INDEXING]) (name header)
          end in
        let out := encode_string e out (value header) in
        (MkEncoder (add (e_table e) header) (e_queued_size_update e) (use_huffman e), out)
    end.

(** [Encoder::encode(headers, out)]. *)
Definition encode (e : Encoder) (headers : list Header) (out : bytes) : Encoder * bytes :=
  let '(e, out) := match e_queued_size_update e with
    | Some size =>
        (MkEncoder (set_max_size (e_table e) size) None (use_huffman e),
         Integer.encode out size 5 SIZE_UPDATE)
    | None => (e, out)
    end in
  foldl encode_header (e, out) headers.

(** ** RFC 7541, appendix C.4 (requests with Huffman coding) *)

Definition rfc_request : list Header :=
  [new_header (b ":method") (b "GET"); new_header (b ":scheme") (b "http");
   new_header (b ":path") (b "/"); new_header (b ":authority") (b "www.example.com")].

Example encode_c41 :
  (encode (new_encoder 4096) rfc_request []).2
  = [0x82; 0x86; 0x84; 0x41; 0x8c; 0xf1; 0xe3; 0xc2; 0xe5; 0xf2; 0x3a; 0x6b; 0xa0; 0xab;
     0x90; 0xf4; 0xff].
Proof. vm_compute. reflexivity. Qed.

Example decode_c41 :
  (decode (new_decoder 4096) [0x82; 0x86; 0x84; 0x41; 0x8c; 0xf1; 0xe3; 0xc2; 0xe5; 0xf2;
     0x3a; 0x6b; 0xa0; 0xab; 0x90; 0xf4; 0xff] 0).2 = Ok rfc_request.
Proof. vm_compute. reflexivity. Qed.

(** The test [size_update_emitted_at_block_start]. *)
Example encode_size_update :
  (encode (encoder_queue_size_update (new_encoder 4096) 0)
    [new_header (b ":method") (b "GET")] []).2 = [0x20; 0x82].
Proof. vm_compute. reflexivity. Qed.

(** ** Totality and accounting of the decoder *)

Lemma at_size_Ok {A} ls (r : result HpackError A) a : at_size ls r = Ok a ↔ r = Ok a.
Proof. unfold at_size, map_err. destruct r; naive_solver. Qed.

Lemma add_list_size_Ok max ls n ls' : add_list_size max ls n = Ok ls' ↔ ls' = ls + n ∧ ls + n ≤ max.
Proof.
  unfold add_list_size. cbv zeta. split.
  - intros H. apply bind_Ok in H as ([] & Hf & H). apply fail_if_Ok in Hf. injection H as <-. lia.
  - intros [-> Hle]. replace (max <? ls + n) with false by lia. done.
Qed.

(** The octets of a field that the list size counts. *)
Definition field_size (h : Header) : Z := zlen (name h) + zlen (value h).
Definition fields_size (hs : list Header) : Z := foldr (λ h n, field_size h + n) 0 hs.

Lemma fields_size_app l k : fields_size (l ++ k) = fields_size l + fields_size k.
Proof. unfold fields_size. induction l as [|h l IH]; cbn; lia. Qed.

Lemma field_size_nonneg h : 0 ≤ field_size h.
Proof. unfold field_size. pose proof (zlen_nonneg (name h)). zlia. Qed.

Lemma fields_size_nonneg l : 0 ≤ fields_size l.
Proof.
  induction l as [|h l IH]; [done|]. change (fields_size (h :: l)) with (field_size h + fields_size l).
  pose proof (field_size_nonneg h). lia.
Qed.

(** What a turn preserves, and that it consumes input. *)
Definition turn_ok (d : Decoder) (buf : bytes) (st st' : Loop) : Prop :=
  table_ok (l_table st') ∧ l_off st < l_off st' ≤ zlen buf
  ∧ max_size (l_table st') ≤ Z.max (max_size (l_table st)) (d_max_table_size d)
  ∧ ∃ hs, l_headers st' = l_headers st ++ hs
      ∧ l_list_size st' = l_list_size st + fields_size hs
      ∧ (hs ≠ [] → l_list_size st' ≤ d_max_header_list_size d).

Lemma decode_turn_ok d buf byte st st' :
  bytes_ok buf → table_ok (l_table st) → 0 ≤ l_off st → zget buf (l_off st) = Some byte →
  decode_turn d buf byte st = Ok st' → turn_ok d buf st st'.
Proof.
  intros Hbuf Ht Hoff Hb H. apply zget_Some in Hb as [_ Hb].
  assert (is_byte byte) as Hbyte by (by eapply Forall_lookup_1 in Hbuf).
  assert (l_off st < zlen buf) by (apply lookup_lt_Some in Hb; unfold zlen; lia).
  assert (∀ p idx off, 1 ≤ p ≤ 8 → Integer.decode buf (l_off st + 1) p byte = Ok (idx, off) →
    0 ≤ idx ∧ l_off st + 1 ≤ off ≤ zlen buf) as Hint.
  { intros p idx off Hp Hd. apply decode_bounds_aux in Hd; try done; lia. }
  unfold decode_turn in H. cbv zeta in H. cbn [l_table l_off l_headers l_list_size l_can_resize] in H.
  apply bind_Ok in H as (rep & Hrep & H).
  assert (∀ r, decode_literal_field d buf r byte
    (MkLoop (l_table st) (l_off st + 1) (l_headers st) (l_list_size st) (l_can_resize st)) = Ok st' →
    turn_ok d buf st st') as Hlit.
  { clear H rep Hrep. intros r H. unfold decode_literal_field in H. cbn in H.
    apply bind_Ok in H as ([idx off1] & Hd & H). apply at_size_Ok, Hint in Hd as [_ Hd];
      [|destruct (decide _); lia].
    apply bind_Ok in H as ([n off2] & Hn & H).
    assert (off1 ≤ off2 ≤ zlen buf) as Hoff2.
    { destruct (idx =? 0).
      - apply bind_Ok in Hn as ([[hf n'] o] & Hs & Hn). injection Hn as <- <-.
        apply at_size_Ok, decode_ok_bounds in Hs; [lia|done|lia].
      - apply bind_Ok in Hn as (entry & Hg & Hn). injection Hn as <- <-. lia. }
    apply bind_Ok in H as ([[hv v] off3] & Hv & H).
    apply at_size_Ok, decode_ok_bounds in Hv as (_ & Hv & _); [|done|lia].
    apply bind_Ok in H as (ls & Hls & H). apply add_list_size_Ok in Hls as [-> Hle].
    injection H as <-. unfold turn_ok. cbn.
    pose proof (add_spec (l_table st) (new_header n v) Ht (new_header_ok _ _)) as (Ha & _ & Hm & _).
    split; [by destruct (decide _)|]. split; [lia|]. split; [destruct (decide _); lia|].
    exists [new_header n v]. split; [done|]. cbn. unfold field_size. cbn. split; [lia|intros _; lia]. }
  destruct rep; [|exact (Hlit _ H)|exact (Hlit _ H)|exact (Hlit _ H)|]; clear Hlit; unfold turn_ok.
  - unfold decode_indexed in H. cbn in H. apply bind_Ok in H as ([idx off1] & Hd & H).
    apply at_size_Ok, Hint in Hd as [_ Hd]; [|lia].
    apply bind_Ok in H as (entry & Hg & H). apply bind_Ok in H as (ls & Hls & H).
    apply add_list_size_Ok in Hls as [-> Hle]. injection H as <-. cbn.
    split; [done|]. split; [lia|]. split; [lia|]. exists [entry]. split; [done|].
    cbn. unfold field_size. split; [lia|intros _; lia].
  - unfold decode_size_update in H. cbn in H. apply bind_Ok in H as ([] & _ & H).
    apply bind_Ok in H as ([sz off1] & Hd & H). apply at_size_Ok, Hint in Hd as [Hsz Hd]; [|lia].
    apply bind_Ok in H as ([] & Hm & H). apply fail_if_Ok in Hm. injection H as <-.
    cbn [l_table l_off l_headers l_list_size].
    pose proof (set_max_size_spec (l_table st) sz Ht Hsz) as (Ha & _ & Hmx & _).
    split; [done|]. split; [lia|]. split; [lia|]. exists []. cbn. split; [by rewrite app_nil_r|].
    split; [lia|intros Hne; by destruct Hne].
Qed.

(** The loop ends within its fuel, and its final state is well-formed. *)
Lemma decode_loop_total fuel : ∀ d buf st,
  bytes_ok buf → table_ok (l_table st) → 0 ≤ l_off st ≤ zlen buf →
  zlen buf - l_off st < Z.of_nat fuel →
  ∃ st' r, decode_loop fuel d buf st = Some (st', r)
    ∧ table_ok (l_table st')
    ∧ max_size (l_table st') ≤ Z.max (max_size (l_table st)) (d_max_table_size d)
    ∧ ∃ hs, l_headers st' = l_headers st ++ hs
      ∧ (r = Ok () → l_list_size st' = l_list_size st + fields_size hs
          ∧ (hs ≠ [] → l_list_size st' ≤ d_max_header_list_size d)).
Proof.
  induction fuel as [|fuel IH]; intros d buf st Hbuf Ht Hoff Hf.
  - lia.
  - cbn [decode_loop]. destruct (zget buf (l_off st)) as [byte|] eqn:Hb.
    2:{ exists st, (Ok ()). split; [done|]. split; [done|]. split; [lia|]. exists [].
        rewrite app_nil_r. split; [done|]. intros _. cbn. split; [lia|intros Hne; by destruct Hne]. }
    destruct (decode_turn d buf byte st) as [st1|[e ls]] eqn:Hturn.
    + apply decode_turn_ok in Hturn as (H1 & H2 & H3 & hs & Hh & Hl & Hm); [|done|done|lia|done].
      destruct (IH d buf st1) as (st' & r & -> & H1' & H2' & hs' & Hh' & Hok); [done|done|lia|lia|].
      exists st', r. split; [done|]. split; [done|]. split; [lia|]. exists (hs ++ hs').
      split; [by rewrite Hh', Hh, app_assoc|]. intros Hr. destruct (Hok Hr) as [Ha Hb'].
      rewrite fields_size_app. split; [lia|]. intros Hne. destruct hs' as [|h hs']; [|by apply Hb'].
      assert (hs ≠ []) as Hhs by (intros ->; by apply Hne). specialize (Hm Hhs). cbn in Ha. lia.
    + eexists _, _. split; [done|]. cbn. split; [done|]. split; [lia|]. exists []. rewrite app_nil_r. done.
Qed.

(** ** One field, encoded and decoded *)

(** The representation an octet with prefix width [p] and high bits [header]
    announces. *)
Definition announces (p header : Z) (rep : Representation) : bool :=
  forallb (λ v, bool_decide (load (prefix_octet v p header) = Ok rep)) (seqZ 0 (2 ^ p)).

Lemma announces_load p header rep v :
  1 ≤ p ≤ 8 → announces p header rep = true → 0 ≤ v → load (prefix_octet v p header) = Ok rep.
Proof.
  intros Hp H Hv. unfold announces in H. rewrite forallb_forall in H.
  assert (0 < 2 ^ p) by (apply Z.pow_pos_nonneg; lia).
  assert (prefix_octet v p header = prefix_octet (Z.min v (2 ^ p - 1)) p header) as ->
    by (unfold prefix_octet; f_equal; lia).
  specialize (H (Z.min v (2 ^ p - 1))). rewrite <- list_elem_of_In, elem_of_seqZ in H.
  specialize (H ltac:(lia)). by apply bool_decide_eq_true_1 in H.
Qed.

Lemma announces_table :
  announces 7 INDEXED Indexed = true ∧ announces 6 LITERAL_WITH_INDEXING LiteralWithIndexing = true
  ∧ announces 4 LITERAL_NEVER_INDEXED LiteralNeverIndexed = true
  ∧ announces 5 SIZE_UPDATE SizeUpdate = true.
Proof. vm_compute. done. Qed.

(** A string the decoder accepts under the limit [max], in the form the encoder
    wrote it. *)
Definition string_fits (max : Z) (v : bytes) (huffman : bool) : Prop :=
  bytes_ok v ∧ zlen v < 2 ^ 60 ∧ zlen v ≤ max ∧ zlen (body v huffman) ≤ zlen v.

Lemma string_fits_decode max pre v huffman post :
  string_fits max v huffman → zlen pre < 2 ^ 62 →
  HpackString.decode (pre ++ literal v huffman ++ post) (zlen pre) max
  = Ok (huffman, v, zlen (pre ++ literal v huffman)).
Proof.
  intros (Hv & Hl & Hm & Hb) Hpre. rewrite zlen_app. apply decode_literal; try done; try lia.
Qed.

Lemma encode_string_literal e v :
  bytes_ok v → zlen v < 2 ^ 60 →
  ∃ huffman, (∀ out, encode_string e out v = out ++ literal v huffman)
    ∧ ∀ max, zlen v ≤ max → string_fits max v huffman.
Proof.
  intros Hv Hl. unfold encode_string. destruct (use_huffman e).
  - destruct (if_shorter_body v Hv Hl) as (h & -> & Hb). exists h.
    split; [|done]. intros out. by rewrite encode_literal.
  - exists false. split; [|done]. intros out. by apply (encode_literal out v false).
Qed.

(** The octets of a literal representation. *)
Definition literal_field (idx p header : Z) (n v : bytes) (hn hv : bool) : bytes :=
  prefix_octet idx p header :: continuation idx p
  ++ (if idx =? 0 then literal n hn else []) ++ literal v hv.

Definition literal_prefix (rep : Representation) : Z :=
  if decide (rep = LiteralWithIndexing) then 6 else 4.

Lemma decode_literal_turn d pre post st idx rep header n v hn hv entry :
  rep = LiteralWithIndexing ∨ rep = LiteralWithoutIndexing ∨ rep = LiteralNeverIndexed →
  announces (literal_prefix rep) header rep = true → is_byte header →
  l_off st = zlen pre → 0 ≤ idx < 2 ^ 62 →
  zlen (pre ++ literal_field idx (literal_prefix rep) header n v hn hv) < 2 ^ 62 →
  (if idx =? 0 then string_fits (d_max_header_list_size d) n hn
   else get (l_table st) idx = Some entry ∧ name entry = n) →
  string_fits (d_max_header_list_size d) v hv →
  l_list_size st + (zlen n + zlen v) ≤ d_max_header_list_size d →
  decode_turn d (pre ++ literal_field idx (literal_prefix rep) header n v hn hv ++ post)
    (prefix_octet idx (literal_prefix rep) header) st
  = Ok (MkLoop (if decide (rep = LiteralWithIndexing) then add (l_table st) (new_header n v)
                else l_table st)
          (zlen (pre ++ literal_field idx (literal_prefix rep) header n v hn hv))
          (l_headers st ++ [new_header n v]) (l_list_size st + (zlen n + zlen v)) false).
Proof.
  intros Hrep Ha Hh Hoff Hidx Hlen Hn Hv Hls. set (p := literal_prefix rep) in *.
  assert (1 ≤ p ≤ 8) as Hp by (unfold p, literal_prefix; destruct (decide _); lia).
  unfold decode_turn. cbv zeta. rewrite (announces_load _ _ _ _ Hp Ha) by lia. cbn [at_size map_err mbind result_bind].
  set (st1 := MkLoop (l_table st) (l_off st + 1) (l_headers st) (l_list_size st) (l_can_resize st)).
  set (buf := pre ++ literal_field idx p header n v hn hv ++ post).
  transitivity (decode_literal_field d buf rep (prefix_octet idx p header) st1).
  { by destruct Hrep as [-> | [-> | ->]]. }
  unfold decode_literal_field. fold (literal_prefix rep) p. cbv zeta.
  set (c := continuation idx p) in *. set (po := prefix_octet idx p header) in *.
  set (nl := if idx =? 0 then literal n hn else []) in *.
  assert (buf = pre ++ po :: c ++ (nl ++ literal v hv ++ post)) as Hb1.
  { unfold buf, literal_field. fold c po nl. rewrite <- app_comm_cons, <- !app_assoc. done. }
  assert (buf = (pre ++ po :: c) ++ nl ++ literal v hv ++ post) as Hb2.
  { rewrite Hb1, <- app_assoc. done. }
  assert (buf = ((pre ++ po :: c) ++ nl) ++ literal v hv ++ post) as Hb3.
  { rewrite Hb2, <- !app_assoc. done. }
  assert (zlen (pre ++ literal_field idx p header n v hn hv)
    = zlen (((pre ++ po :: c) ++ nl) ++ literal v hv)) as Hz.
  { unfold literal_field. fold c po nl. rewrite <- !app_assoc. done. }
  rewrite Hz in Hlen. rewrite Hz. rewrite (zlen_app (_ ++ nl)), (zlen_app _ nl) in Hlen.
  pose proof (zlen_nonneg nl). pose proof (zlen_nonneg (literal v hv)).
  replace (l_off st1) with (zlen pre + 1) by (cbn; lia).
  assert (Integer.decode buf (zlen pre + 1) p po = Ok (idx, zlen pre + 1 + zlen c)) as ->.
  { rewrite Hb1. unfold po, c. rewrite decode_octets
      by (assert (2 ^ 62 < 2 ^ 64) by done; lia || done).
    by replace (idx <? 2 ^ 62) with true by lia. }
  cbn [at_size map_err mbind result_bind].
  replace (zlen pre + 1 + zlen c) with (zlen (pre ++ po :: c)) by (rewrite zlen_app, zlen_cons; lia).
  assert ((if idx =? 0
    then '(_, name, off) ← at_size (l_list_size st1)
           (HpackString.decode buf (zlen (pre ++ po :: c)) (d_max_header_list_size d)); Ok (name, off)
    else entry ← at_size (l_list_size st1) (ok_or (get (l_table st1) idx) InvalidIndex);
         Ok (name entry, zlen (pre ++ po :: c)))
    = Ok (n, zlen ((pre ++ po :: c) ++ nl))) as ->.
  { unfold nl in *. destruct (Z.eqb_spec idx 0) as [->|Hne].
    - rewrite Hb2 at 1. rewrite string_fits_decode by (done || lia). done.
    - destruct Hn as [Hg Hn]. cbn [l_table st1]. rewrite Hg. cbn. by rewrite Hn, app_nil_r. }
  cbn [mbind result_bind]. rewrite Hb3 at 1. rewrite string_fits_decode by (done || (rewrite zlen_app; lia)).
  cbn [at_size map_err mbind result_bind].
  rewrite (proj2 (add_list_size_Ok _ _ _ _)) by (split; [reflexivity|cbn; lia]). done.
Qed.

Lemma decode_indexed_turn d pre post st idx entry :
  l_off st = zlen pre → 0 ≤ idx < 2 ^ 62 → get (l_table st) idx = Some entry →
  l_list_size st + field_size entry ≤ d_max_header_list_size d →
  let w := prefix_octet idx 7 INDEXED :: continuation idx 7 in
  decode_turn d (pre ++ w ++ post) (prefix_octet idx 7 INDEXED) st
  = Ok (MkLoop (l_table st) (zlen (pre ++ w)) (l_headers st ++ [entry])
          (l_list_size st + field_size entry) false).
Proof.
  intros Hoff Hidx Hg Hls. cbv zeta. unfold decode_turn. cbv zeta.
  rewrite (announces_load 7 INDEXED Indexed) by (done || lia || apply announces_table).
  cbn [at_size map_err mbind result_bind]. unfold decode_indexed. cbn [l_table l_off l_headers l_list_size].
  rewrite Hoff. cbn [app]. rewrite decode_octets by (assert (2 ^ 62 < 2 ^ 64) by done; unfold is_byte, INDEXED; lia).
  replace (idx <? 2 ^ 62) with true by lia. cbn [at_size map_err mbind result_bind]. rewrite Hg.
  cbn [at_size map_err ok_or mbind result_bind].
  rewrite (proj2 (add_list_size_Ok _ _ _ _)) by (split; [reflexivity|unfold field_size in *; lia]).
  cbn. rewrite zlen_app, zlen_cons. unfold field_size. do 2 f_equal; lia.
Qed.

Lemma decode_size_update_turn d pre post st size :
  l_off st = zlen pre → 0 ≤ size < 2 ^ 62 → l_can_resize st = true →
  let w := prefix_octet size 5 SIZE_UPDATE :: continuation size 5 in
  decode_turn d (pre ++ w ++ post) (prefix_octet size 5 SIZE_UPDATE) st
  = if d_max_table_size d <? size then Err (InvalidMaxSize, l_list_size st)
    else Ok (MkLoop (set_max_size (l_table st) size) (zlen (pre ++ w)) (l_headers st)
          (l_list_size st) true).
Proof.
  intros Hoff Hsz Hcan. cbv zeta. unfold decode_turn. cbv zeta.
  rewrite (announces_load 5 SIZE_UPDATE SizeUpdate) by (done || lia || apply announces_table).
  cbn [at_size map_err mbind result_bind]. unfold decode_size_update.
  cbn [l_table l_off l_headers l_list_size l_can_resize]. rewrite Hcan, Hoff. cbn [negb fail_if mbind result_bind app].
  rewrite decode_octets by (assert (2 ^ 62 < 2 ^ 64) by done; unfold is_byte, SIZE_UPDATE; lia).
  replace (size <? 2 ^ 62) with true by lia. cbn [at_size map_err mbind result_bind].
  destruct (d_max_table_size d <? size); [done|]. cbn. do 2 f_equal. rewrite zlen_app, zlen_cons. lia.
Qed.

(** ** Synchronised tables *)

(** Two tables with the same dynamic entries and limit, whatever their maps. *)
Record twin (t t' : Table) : Prop := MkTwin {
  twin_ok : table_ok t;
  twin_ok' : table_ok t';
  twin_entries : entries t = entries t';
  twin_max : max_size t = max_size t';
}.

Lemma twin_get t t' i : twin t t' → get t i = get t' i.
Proof. intros [_ _ He _]. unfold get. by rewrite He. Qed.

Lemma twin_add t t' h : twin t t' → header_ok h → twin (add t h) (add t' h).
Proof.
  intros [H1 H2 He Hm] Hh. destruct (add_spec t h H1 Hh) as (? & E1 & M1 & _).
  destruct (add_spec t' h H2 Hh) as (? & E2 & M2 & _). split; congruence.
Qed.

Lemma twin_set_max_size t t' max : twin t t' → 0 ≤ max → twin (set_max_size t max) (set_max_size t' max).
Proof.
  intros [H1 H2 He Hm] Hmax. destruct (set_max_size_spec t max H1 Hmax) as (? & E1 & M1 & _).
  destruct (set_max_size_spec t' max H2 Hmax) as (? & E2 & M2 & _). split; congruence.
Qed.

Lemma get_index_bound t i h :
  table_ok t → max_size t < 2 ^ 60 → get t i = Some h → 0 < i < 2 ^ 62.
Proof.
  intros Ht Hm H. apply entries_bound in Ht. unfold get in H.
  change (2 ^ 60) with 1152921504606846976 in Hm. change (2 ^ 62) with 4611686018427387904.
  unfold STATIC_LEN in H. destruct (Z.eqb_spec i 0); [done|].
  destruct (Z.leb_spec i 61).
  - destruct (zget STATIC_TABLE (i - 1)) eqn:E; [|done]. apply zget_Some in E. lia.
  - apply zget_Some in H as [Hi H]. apply lookup_lt_Some in H. unfold zlen in Ht. lia.
Qed.

(** A field an encoder may be given: octets, not absurdly long, its size
    cached as [Header::new] does. *)
Record field_ok (h : Header) : Prop := MkFieldOk {
  field_name : bytes_ok (name h);
  field_value : bytes_ok (value h);
  field_short : field_size h < 2 ^ 60;
  field_cached : header_ok h;
}.

Lemma header_new h : header_ok h → new_header (name h) (value h) = h.
Proof. unfold header_ok, new_header. destruct h as [n v s]. cbn. by intros ->. Qed.

(** What [encode_header] appends for one field, and that the decoder undoes it
    wherever it finds it. *)
Definition field_step (e : Encoder) (t : Table) (h : Header) : Prop :=
  ∃ po w t', let w := po :: w in let e' := (encode_header (e, []) h).1 in
  (∀ out, encode_header (e, out) h = (e', out ++ w))
  ∧ twin (e_table e') t' ∧ max_size (e_table e') = max_size (e_table e)
  ∧ e_queued_size_update e' = e_queued_size_update e
  ∧ ∀ d pre post hs ls c,
    zlen (pre ++ w) < 2 ^ 62 → 0 ≤ ls → ls + field_size h ≤ d_max_header_list_size d →
    decode_turn d (pre ++ w ++ post) po (MkLoop t (zlen pre) hs ls c)
    = Ok (MkLoop t' (zlen (pre ++ w)) (hs ++ [h]) (ls + field_size h) false).

(** Both literal arms of [encode_header]: the name by reference or in full,
    then the value. *)
Lemma literal_written e t h rep header :
  let p := literal_prefix rep in
  twin (e_table e) t → max_size t < 2 ^ 60 → field_ok h →
  rep = LiteralWithIndexing ∨ rep = LiteralWithoutIndexing ∨ rep = LiteralNeverIndexed →
  announces p header rep = true → is_byte header →
  prefix_octet 0 p header = header → continuation 0 p = [] →
  ∃ idx hn hv, let w := literal_field idx p header (name h) (value h) hn hv in
  (∀ out, encode_string e
     match find_name (e_table e) (name h) with
     | Some index => Integer.encode out index p header
     | None => encode_string e (out ++ [header]) (name h)
     end (value h) = out ++ w)
  ∧ ∀ d pre post hs ls c,
    zlen (pre ++ w) < 2 ^ 62 → 0 ≤ ls → ls + field_size h ≤ d_max_header_list_size d →
    decode_turn d (pre ++ w ++ post) (prefix_octet idx p header) (MkLoop t (zlen pre) hs ls c)
    = Ok (MkLoop (if decide (rep = LiteralWithIndexing) then add t h else t)
            (zlen (pre ++ w)) (hs ++ [h]) (ls + field_size h) false).
Proof.
  cbv zeta. set (p := literal_prefix rep). intros Ht Hm [Hn Hv Hs Hc] Hrep Ha Hh H0 Hc0.
  pose proof (zlen_nonneg (name h)). pose proof (zlen_nonneg (value h)). unfold field_size in *.
  destruct (encode_string_literal e (name h) Hn) as (hn & Hen & Hfn); [lia|].
  destruct (encode_string_literal e (value h) Hv) as (hv & Hev & Hfv); [lia|].
  destruct (find_name (e_table e) (name h)) as [i|] eqn:Ei.
  - apply find_name_get in Ei as (_ & entry & Hg & He); [|apply Ht].
    rewrite (twin_get _ _ _ Ht) in Hg. assert (0 < i < 2 ^ 62) as Hi.
    { apply (get_index_bound t i entry); [apply Ht|done|done]. }
    exists i, hn, hv. split.
    + intros out. rewrite Hev, encode_octets by (done || lia ||
        (unfold p, literal_prefix; destruct (decide _); lia)).
      unfold literal_field. replace (i =? 0) with false by lia. by rewrite <- app_assoc.
    + intros d pre post hs ls c Hlen Hls Hfit.
      pose proof (decode_literal_turn d pre post (MkLoop t (zlen pre) hs ls c) i rep header
        (name h) (value h) hn hv entry) as HD.
      rewrite (header_new h Hc) in HD. apply HD; try done; try (cbn; lia).
      * by replace (i =? 0) with false by lia.
      * apply Hfv. lia.
  - exists 0, hn, hv. split.
    + intros out. rewrite Hev, Hen. unfold literal_field. rewrite H0, Hc0. cbn [Z.eqb].
      by rewrite <- !app_assoc.
    + intros d pre post hs ls c Hlen Hls Hfit.
      pose proof (decode_literal_turn d pre post (MkLoop t (zlen pre) hs ls c) 0 rep header
        (name h) (value h) hn hv (new_header [] [])) as HD.
      rewrite (header_new h Hc) in HD. apply HD; try done; try (cbn; lia).
      * apply Hfn. lia.
      * apply Hfv. lia.
Qed.

Lemma encode_header_step e t h :
  twin (e_table e) t → max_size t < 2 ^ 60 → field_ok h → field_step e t h.
Proof.
  intros Ht Hm Hh. pose proof announces_table as (A7 & A6 & A4 & _).
  unfold field_step. destruct (decide (name h ∈ NEVER_INDEXED)) as [Hin|Hin].
  - destruct (literal_written e t h LiteralNeverIndexed LITERAL_NEVER_INDEXED)
      as (idx & hn & hv & Henc & Hdec); try done; [by right; right|].
    eexists _, _, t. cbv zeta.
    assert (∀ out, encode_header (e, out) h = (e, out
      ++ literal_field idx 4 LITERAL_NEVER_INDEXED (name h) (value h) hn hv)) as He.
    { intros out. unfold encode_header. rewrite bool_decide_true by done. by rewrite <- Henc. }
    rewrite (He []). split; [exact He|]. split; [done|]. split; [done|]. split; [done|]. exact Hdec.
  - destruct (find (e_table e) (name h) (value h)) as [i|] eqn:Ei.
    + assert (∀ out, encode_header (e, out) h = (e, Integer.encode out i 7 INDEXED)) as He.
      { intros out. unfold encode_header. rewrite bool_decide_false by done. by rewrite Ei. }
      apply find_get in Ei as (_ & Hg); [|apply Ht]. rewrite (twin_get _ _ _ Ht) in Hg.
      assert (0 < i < 2 ^ 62) as Hi by (apply (get_index_bound t i (new_header (name h) (value h))); [apply Ht|done|done]).
      rewrite header_new in Hg by apply Hh.
      exists (prefix_octet i 7 INDEXED), (continuation i 7), t. cbv zeta. rewrite He.
      split; [|split; [done|split; [done|split; [done|]]]].
      * intros out. rewrite He, encode_octets by (unfold is_byte, INDEXED; lia). done.
      * intros d pre post hs ls c Hlen Hls Hfit.
        apply (decode_indexed_turn d pre post (MkLoop t (zlen pre) hs ls c)); done || lia.
    + destruct (literal_written e t h LiteralWithIndexing LITERAL_WITH_INDEXING)
        as (idx & hn & hv & Henc & Hdec); try done; [by left|].
      eexists _, _, (add t h). cbv zeta.
      assert (∀ out, encode_header (e, out) h
        = (MkEncoder (add (e_table e) h) (e_queued_size_update e) (use_huffman e), out
           ++ literal_field idx 6 LITERAL_WITH_INDEXING (name h) (value h) hn hv)) as He.
      { intros out. unfold encode_header. rewrite bool_decide_false by done. rewrite Ei.
        by rewrite <- Henc. }
      rewrite (He []). cbn [fst e_table e_queued_size_update].
      split; [exact He|]. split; [apply twin_add; [done|apply Hh]|].
      split; [apply add_spec; [apply Ht|apply Hh]|]. split; [done|]. exact Hdec.
Qed.

(** ** One block *)

Lemma zget_end {A} (l : list A) : zget l (zlen l) = None.
Proof. unfold zget. replace (zlen l <? zlen l) with false by lia. by rewrite andb_false_r. Qed.

Lemma block_loop hs : ∀ e t,
  twin (e_table e) t → max_size t < 2 ^ 60 → Forall field_ok hs →
  ∃ e' w t', (∀ out, foldl encode_header (e, out) hs = (e', out ++ w))
  ∧ twin (e_table e') t' ∧ max_size t' = max_size t
  ∧ e_queued_size_update e' = e_queued_size_update e
  ∧ ∀ d pre acc ls c fuel,
    zlen (pre ++ w) < 2 ^ 62 → 0 ≤ ls → ls + fields_size hs ≤ d_max_header_list_size d →
    (length w < fuel)%nat →
    ∃ c', decode_loop fuel d (pre ++ w) (MkLoop t (zlen pre) acc ls c)
    = Some (MkLoop t' (zlen (pre ++ w)) (acc ++ hs) (ls + fields_size hs) c', Ok ()).
Proof.
  induction hs as [|h hs IH]; intros e t Ht Hm Hok.
  - exists e, [], t. split; [intros; cbn; by rewrite app_nil_r|]. split_and!; try done.
    intros d pre acc ls c [|fuel] Hlen Hls Hfit Hfuel; [lia|]. exists c.
    cbn [decode_loop l_off fields_size foldr]. rewrite !app_nil_r, zget_end. by rewrite Z.add_0_r.
  - apply Forall_cons in Hok as [Hh Hok].
    destruct (encode_header_step e t h Ht Hm Hh) as (po & w1 & t1 & Henc & Ht1 & Hm1 & Hq1 & Hturn).
    cbv zeta in *. set (e1 := (encode_header (e, []) h).1) in *. clearbody e1.
    assert (max_size t1 = max_size t) as Hmt
      by (rewrite <- (twin_max _ _ Ht1), <- (twin_max _ _ Ht); done).
    destruct (IH e1 t1 Ht1 ltac:(lia) Hok) as (e' & w2 & t' & Henc2 & Ht2 & Hm2 & Hq2 & Hloop).
    exists e', ((po :: w1) ++ w2), t'. split_and!; [|done|congruence|congruence|].
    + intros out. cbn [foldl]. by rewrite Henc, Henc2, <- app_assoc.
    + intros d pre acc ls c fuel Hlen Hls Hfit Hfuel. cbn [fields_size foldr] in Hfit.
      fold (fields_size hs) in Hfit. destruct fuel as [|fuel]; [lia|].
      pose proof (fields_size_nonneg hs). pose proof (field_size_nonneg h). rewrite app_assoc, zlen_app in Hlen.
      pose proof (zlen_nonneg w2).
      cbn [decode_loop l_off]. cbn [app]. rewrite zget_head.
      change (pre ++ po :: w1 ++ w2) with (pre ++ (po :: w1) ++ w2).
      rewrite Hturn by lia. rewrite app_assoc.
      destruct (Hloop d (pre ++ po :: w1) (acc ++ [h]) (ls + field_size h) false fuel)
        as (c' & Hc'); [by rewrite zlen_app|lia|lia|rewrite length_app in Hfuel; cbn in Hfuel; lia|].
      exists c'. rewrite Hc'. cbn [fields_size foldr]. fold (fields_size hs).
      by rewrite (Z.add_assoc ls), <- (app_assoc acc [h] hs).
Qed.

(** A decoder and the encoder of its peer between two header blocks: tables
    equal, and the same table sizes announced since the last block. *)
Record synced (e : Encoder) (d : Decoder) : Prop := MkSynced {
  sync_twin : twin (e_table e) (d_table d);
  sync_small : max_size (d_table d) < 2 ^ 60 ∧ d_max_table_size d < 2 ^ 60;
  sync_pos : 0 ≤ max_size (d_table d);
  sync_queued : match e_queued_size_update e with
    | None => d_queued_size_update d = None
    | Some size => 0 ≤ size < 2 ^ 60 ∧ d_queued_size_update d = Some size
    end;
}.

Lemma decode_encode_block e d hs ls :
  synced e d → Forall field_ok hs → 0 ≤ ls → ls + fields_size hs ≤ d_max_header_list_size d →
  ∃ e' w, (∀ out, encode e hs out = (e', out ++ w))
  ∧ (zlen w < 2 ^ 62 → ∃ d', decode d w ls = (d', ls + fields_size hs, Ok hs)
    ∧ synced e' d' ∧ d_max_header_list_size d' = d_max_header_list_size d).
Proof.
  intros [Ht [Hm1 Hm2] Hpos Hq] Hok Hls Hfit. unfold encode, decode.
  destruct (e_queued_size_update e) as [size|] eqn:Eq.
  - destruct Hq as [Hsz Hq]. rewrite Hq.
    change (default (d_max_table_size d) (Some size)) with size.
    set (e1 := MkEncoder (set_max_size (e_table e) size) None (use_huffman e)).
    pose proof (twin_set_max_size _ _ size Ht ltac:(lia)) as Ht1.
    pose proof (set_max_size_spec (d_table d) size ltac:(apply Ht) ltac:(lia)) as (_ & _ & Hms & _).
    destruct (block_loop hs e1 (set_max_size (d_table d) size) Ht1 ltac:(lia) Hok)
      as (e' & w & t' & Henc & Ht' & Hm' & Hq' & Hloop).
    set (u := prefix_octet size 5 SIZE_UPDATE :: continuation size 5).
    exists e', (u ++ w). split.
    + intros out. rewrite encode_octets by (unfold is_byte, SIZE_UPDATE; lia).
      by rewrite Henc, <- app_assoc.
    + intros Hlen. cbn [decode_loop]. cbn [l_off d_table d_max_header_list_size].
      replace (zget (u ++ w) 0) with (Some (prefix_octet size 5 SIZE_UPDATE)) by done.
      set (d1 := MkDecoder (d_table d) size None (d_max_header_list_size d)).
      pose proof (decode_size_update_turn d1 [] w (MkLoop (d_table d) 0 [] ls true) size) as Hturn.
      cbv zeta in Hturn. fold u in Hturn. cbn [app l_table l_headers l_list_size] in Hturn.
      change (prefix_octet size 5 SIZE_UPDATE :: continuation size 5) with u in Hturn.
      rewrite Hturn by (done || (change (2 ^ 60) with 1152921504606846976 in *; lia)).
      cbn [d_max_table_size d1]. rewrite Z.ltb_irrefl.
      destruct (Hloop d1 u [] ls true (length (u ++ w))) as (c' & ->);
        [done|lia|done|rewrite length_app; cbn; lia|].
      eexists. split; [done|]. split; [|done]. split; cbn; [done|lia|lia|by rewrite Hq'].
  - rewrite Hq.
    change (default (d_max_table_size d) None) with (d_max_table_size d).
    destruct (block_loop hs e (d_table d) Ht Hm1 Hok) as (e' & w & t' & Henc & Ht' & Hm' & Hq' & Hloop).
    exists e', w. split; [done|]. intros Hlen.
    destruct (Hloop (MkDecoder (d_table d) (d_max_table_size d) None (d_max_header_list_size d))
      [] [] ls true (S (length w))) as (c' & Hc'); [done|lia|done|lia|].
    change (zlen []) with 0 in Hc'. cbn [app] in Hc'.
    cbn [d_table d_max_header_list_size]. rewrite Hc'.
    eexists. split; [done|]. split; [|done]. split; cbn; [done|lia|lia|by rewrite Hq', Eq].
Qed.

(** ** Sessions *)

(** What happens on one direction of a connection: a header block is sent, or
    the receiver's table size changes (acknowledged SETTINGS). *)
Inductive event : Type :=
| Block (headers : list Header)
| Resize (size : Z).

(** Runs the encoder and the decoder it feeds; [None] when a block is not
    decoded. *)
Fixpoint session (e : Encoder) (d : Decoder) (evs : list event) : option (list (list Header)) :=
  match evs with
  | [] => Some []
  | Resize size :: evs =>
      session (encoder_queue_size_update e size) (decoder_queue_size_update d size) evs
  | Block hs :: evs =>
      let '(e, wire) := encode e hs [] in
      match decode d wire 0 with
      | (d, _, Ok hs') => hss ← session e d evs; Some (hs' :: hss)
      | (_, _, Err _) => None
      end
  end.

(** The blocks of a run, as sent. *)
Definition blocks (evs : list event) : list (list Header) :=
  omap (λ ev, match ev with Block hs => Some hs | Resize _ => None end) evs.

Definition event_ok (max : Z) (ev : event) : Prop :=
  match ev with
  | Block hs => Forall field_ok hs ∧ fields_size hs ≤ max
  | Resize size => 0 ≤ size < 2 ^ 60
  end.

(** Every wire the run produces fits an address space. *)
Fixpoint wires_fit (e : Encoder) (evs : list event) : Prop :=
  match evs with
  | [] => True
  | Resize size :: evs => wires_fit (encoder_queue_size_update e size) evs
  | Block hs :: evs => zlen (encode e hs []).2 < 2 ^ 62 ∧ wires_fit (encode e hs []).1 evs
  end.

Lemma synced_new max size :
  0 ≤ size < 2 ^ 60 →
  synced (new_encoder size) (set_max_header_list_size (new_decoder size) max).
Proof.
  intros Hs. destruct (with_max_size_ok size ltac:(lia)) as [H1 H2]. by split; cbn; [split|lia|lia|].
Qed.

Lemma synced_resize e d size :
  synced e d → 0 ≤ size < 2 ^ 60 →
  synced (encoder_queue_size_update e size) (decoder_queue_size_update d size).
Proof.
  intros [Ht Hm Hp Hq] Hs. split; cbn; [done..|].
  destruct (e_queued_size_update e) as [c|]; [destruct Hq as [Hc ->]|rewrite Hq]; cbn; split; done || lia.
Qed.

(** C5. Header blocks survive a whole connection: whatever sequence of header
    blocks and table-size changes an encoder and the decoder it feeds go
    through from creation, every block is decoded to exactly the list of
    fields that was encoded, provided each list fits the decoder's
    header-list limit. *)
Theorem hpack_session size max evs :
  0 ≤ size < 2 ^ 60 → Forall (event_ok max) evs → wires_fit (new_encoder size) evs →
  session (new_encoder size) (set_max_header_list_size (new_decoder size) max) evs = Some (blocks evs).
Proof.
  intros Hs. pose proof (synced_new max size Hs) as H.
  assert (d_max_header_list_size (set_max_header_list_size (new_decoder size) max) = max) as Hmax by done.
  revert H Hmax. generalize (new_encoder size) as e.
  generalize (set_max_header_list_size (new_decoder size) max) as d.
  induction evs as [|[hs|s] evs IH]; intros d e Hsync Hmax Hok Hw; [done| |];
    apply Forall_cons in Hok as [Hev Hok]; cbn [session blocks omap list_omap].
  - destruct Hev as [Hhs Hfit].
    destruct (decode_encode_block e d hs 0 Hsync Hhs) as (e' & w & Henc & Hdec); [lia|lia|].
    cbn [wires_fit] in Hw. rewrite Henc in *. cbn in Hw. destruct Hw as [Hlen Hw].
    destruct (Hdec Hlen) as (d' & Hd & Hs' & Hmax'). cbn [app]. rewrite Hd.
    rewrite (IH d' e' Hs') by (congruence || done). done.
  - apply IH; [by apply synced_resize|done|done|done].
Qed.

Lemma hpack_session_witness :
  let evs := [Block rfc_request; Resize 0; Block rfc_request; Resize 100; Resize 50;
              Block [new_header (b "cookie") (b "a=b"); new_header (b "x") (b "y")];
              Block [new_header (b "x") (b "y")]] in
  session (new_encoder 4096) (set_max_header_list_size (new_decoder 4096) 1000) evs = Some (blocks evs).
Proof.
  apply (hpack_session 4096 1000); [by vm_compute| |by vm_compute].
  assert (∀ n v, field_size (new_header n v) < 2 ^ 60 → bytes_ok n → bytes_ok v →
    field_ok (new_header n v)) as Hf by (intros; split; try done; apply new_header_ok).
  repeat first [apply Forall_nil_2 | apply Forall_cons_2]; cbn [event_ok];
    try (split; vm_compute; done);
    (split; [repeat first [apply Forall_nil_2 | apply Forall_cons_2; [apply Hf; [by vm_compute|solve_bytes|solve_bytes]|]]|by vm_compute]).
Defined.

Lemma decode_runs d buf ls :
  bytes_ok buf → table_ok (d_table d) →
  let max_table := default (d_max_table_size d) (d_queued_size_update d) in
  let d1 := MkDecoder (d_table d) max_table None (d_max_header_list_size d) in
  (∃ out, decode_loop (S (length buf)) d1 buf (MkLoop (d_table d) 0 [] ls true) = Some out)
  ∧ let '(d', ls', r) := decode d buf ls in
    table_ok (d_table d') ∧ size (d_table d') ≤ Z.max (max_size (d_table d)) max_table
    ∧ d_max_table_size d' = max_table ∧ d_queued_size_update d' = None
    ∧ ∀ hs, r = Ok hs →
        ls' = ls + fields_size hs ∧ (hs ≠ [] → ls' ≤ d_max_header_list_size d).
Proof.
  intros Hbuf Ht. cbv zeta. set (max_table := default _ _). unfold decode. fold max_table.
  cbv zeta. cbn [d_table d_max_header_list_size]. set (d1 := MkDecoder _ _ _ _).
  pose proof (zlen_nonneg buf).
  destruct (decode_loop_total (S (length buf)) d1 buf (MkLoop (d_table d) 0 [] ls true))
    as (st' & r & -> & H1 & H2 & hs & Hh & Hok); [done|done|cbn; lia|cbn; unfold zlen; lia|].
  split; [by eexists|]. cbn in *. pose proof (ok_bound _ H1). split; [done|]. split; [lia|].
  split; [done|]. split; [done|]. intros hs' Hr. destruct r as [[]|e]; [|done].
  injection Hr as <-. rewrite Hh. by apply Hok.
Qed.

Lemma encode_header_ok e out h :
  table_ok (e_table e) → header_ok h →
  table_ok (e_table (encode_header (e, out) h).1)
  ∧ e_queued_size_update (encode_header (e, out) h).1 = e_queued_size_update e.
Proof.
  intros Ht Hh. unfold encode_header. destruct (bool_decide _); [done|].
  destruct (find _ _ _); [done|]. split; [|done]. by apply add_spec.
Qed.

(** The encoder keeps its table well-formed. *)
Lemma encode_ok e hs out :
  table_ok (e_table e) → Forall header_ok hs →
  match e_queued_size_update e with Some n => 0 ≤ n | None => True end →
  table_ok (e_table (encode e hs out).1) ∧ e_queued_size_update (encode e hs out).1 = None.
Proof.
  intros Ht Hhs Hq. unfold encode.
  assert (∀ hs e out, table_ok (e_table e) → Forall header_ok hs →
    table_ok (e_table (foldl encode_header (e, out) hs).1)
    ∧ e_queued_size_update (foldl encode_header (e, out) hs).1 = e_queued_size_update e) as Hf.
  { clear. induction hs as [|h hs IH]; intros e out Ht Hhs; [done|]. cbn [foldl].
    apply Forall_cons in Hhs as [Hh Hhs]. destruct (encode_header_ok e out h Ht Hh) as [H1 H2].
    destruct (encode_header (e, out) h) as [e1 o1]. destruct (IH e1 o1 H1 Hhs) as [H3 H4].
    split; [done|]. by rewrite H4. }
  destruct (e_queued_size_update e) as [n|] eqn:E.
  - destruct (set_max_size_spec (e_table e) n Ht Hq) as (Hs & _).
    match goal with |- table_ok (e_table (foldl _ (?e1, ?o) _).1) ∧ _ =>
      destruct (Hf hs e1 o Hs Hhs) as [H1 H2] end. by rewrite H2.
  - destruct (Hf hs e out Ht Hhs) as [H1 H2]. by rewrite H2.
Qed.

(** C27. The decoder always terminates with a result and keeps its table
    well-formed: on any octets whatever its loop ends within the fuel given,
    the dynamic table keeps its invariant and never grows past the larger of
    its old limit and the announced maximum, a queued size update is consumed,
    and a successful block adds exactly the size of its fields to the running
    list size, which stays within the limit. *)
Theorem decode_total d buf ls :
  bytes_ok buf → table_ok (d_table d) →
  let max_table := default (d_max_table_size d) (d_queued_size_update d) in
  let d1 := MkDecoder (d_table d) max_table None (d_max_header_list_size d) in
  (∃ out, decode_loop (S (length buf)) d1 buf (MkLoop (d_table d) 0 [] ls true) = Some out)
  ∧ let '(d', ls', r) := decode d buf ls in
    table_ok (d_table d') ∧ size (d_table d') ≤ Z.max (max_size (d_table d)) max_table
    ∧ d_max_table_size d' = max_table ∧ d_queued_size_update d' = None
    ∧ ∀ hs, r = Ok hs →
        ls' = ls + fields_size hs ∧ (hs ≠ [] → ls' ≤ d_max_header_list_size d).
Proof. apply decode_runs. Qed.

Lemma decode_total_witness :
  (∃ out, decode_loop 3 (MkDecoder new_table 4096 None 100) [0x3f; 0xff] (MkLoop new_table 0 [] 0 true)
          = Some out)
  ∧ let '(d', ls', r) := decode (MkDecoder new_table 4096 None 100) [0x3f; 0xff] 0 in
    table_ok (d_table d') ∧ size (d_table d') ≤ Z.max 4096 4096
    ∧ d_max_table_size d' = 4096 ∧ d_queued_size_update d' = None
    ∧ ∀ hs, r = Ok hs → ls' = 0 + fields_size hs ∧ (hs ≠ [] → ls' ≤ 100).
Proof.
  apply (decode_total (MkDecoder new_table 4096 None 100) [0x3f; 0xff] 0); [solve_bytes|].
  by apply (with_max_size_ok 4096).
Defined.

(** Queued table sizes keep their maximum, so lowering the size in two
    SETTINGS before the next block emits an update above the last one: a peer
    whose limit is the last size rejects the block, as RFC 7541, Section 4.2
    demands the final size be signalled. *)
Theorem size_update_exceeds_limit e d high low hs :
  synced e d → e_queued_size_update e = None →
  0 ≤ low < high → high < 2 ^ 60 → Forall field_ok hs →
  let e2 := encoder_queue_size_update (encoder_queue_size_update e high) low in
  let d2 := decoder_queue_size_update d low in
  (decode d2 (encode e2 hs []).2 0).2 = Err InvalidMaxSize.
Proof.
  intros [Ht [Hm _] _ Hq] He Hlow Hhigh Hok. rewrite He in Hq. cbv zeta.
  unfold encode, encoder_queue_size_update, decode, decoder_queue_size_update.
  cbn [e_queued_size_update e_table use_huffman d_queued_size_update d_table d_max_header_list_size].
  rewrite He, Hq. cbn [queue_update]. rewrite Z.max_l by lia.
  rewrite encode_octets by (unfold is_byte, SIZE_UPDATE; lia). cbn [app].
  set (e1 := MkEncoder _ _ _).
  destruct (block_loop hs e1 (set_max_size (d_table d) high)) as (e' & w & t' & Henc & _);
    [apply twin_set_max_size; [done|lia]| |done|].
  { rewrite <- (twin_max _ _ (twin_set_max_size _ _ high Ht ltac:(lia))).
    destruct (set_max_size_spec (e_table e) high) as (_ & _ & Hms & _); [apply Ht|lia|].
    by rewrite Hms. }
  rewrite Henc. cbn [snd]. set (u := prefix_octet high 5 SIZE_UPDATE :: continuation high 5).
  change (default (d_max_table_size d) (Some low)) with low.
  set (d1 := MkDecoder (d_table d) low None (d_max_header_list_size d)).
  assert (∀ fuel, decode_loop (S fuel) d1 (u ++ w) (MkLoop (d_table d) 0 [] 0 true)
    = Some (MkLoop (d_table d) 0 [] 0 true, Err InvalidMaxSize)) as Hl.
  { intros fuel. cbn [decode_loop l_off].
    change (zget (u ++ w) 0) with (Some (prefix_octet high 5 SIZE_UPDATE)).
    pose proof (decode_size_update_turn d1 [] w (MkLoop (d_table d) 0 [] 0 true) high) as Hturn.
    cbv zeta in Hturn. cbn [app] in Hturn.
    change (prefix_octet high 5 SIZE_UPDATE :: continuation high 5 ++ w) with (u ++ w) in Hturn.
    cbv beta iota. rewrite Hturn by (done || (change (2 ^ 60) with 1152921504606846976 in *; lia)).
    cbn [d_max_table_size d1]. by replace (low <? high) with true by lia. }
  fold u. by rewrite Hl.
Qed.

Lemma size_update_exceeds_limit_witness :
  let e2 := encoder_queue_size_update (encoder_queue_size_update (new_encoder 4096) 1000) 500 in
  let d2 := decoder_queue_size_update (set_max_header_list_size (new_decoder 4096) 9999) 500 in
  (decode d2 (encode e2 [] []).2 0).2 = Err InvalidMaxSize.
Proof.
  apply (size_update_exceeds_limit (new_encoder 4096) (set_max_header_list_size (new_decoder 4096) 9999));
    [by apply synced_new|done|done|done|constructor].
Defined.
