(* ===== verification/H2Error.v ===== *)
(** * HTTP/2 errors (src/src/h2/error.rs)

    The error codes of RFC 9113, Section 7, and the error values the frame
    and connection layers return. *)

From S2P Require Import Prelude.

Inductive Reason : Type :=
| NoError
| ProtocolError
| InternalError
| FlowControlError
| SettingsTimeout
| StreamClosed
| FrameSizeError
| RefusedStream
| Cancel
| CompressionError
| ConnectError
| EnhanceYourCalm
| InadequateSecurity
| Http11Required.

#[global] Instance Reason_eq_dec : EqDecision Reason.
Proof. solve_decision. Defined.

(** [Reason::code]. *)
Definition code (r : Reason) : Z :=
  match r with
  | NoError => 0x00
  | ProtocolError => 0x01
  | InternalError => 0x02
  | FlowControlError => 0x03
  | SettingsTimeout => 0x04
  | StreamClosed => 0x05
  | FrameSizeError => 0x06
  | RefusedStream => 0x07
  | Cancel => 0x08
  | CompressionError => 0x09
  | ConnectError => 0x0a
  | EnhanceYourCalm => 0x0b
  | InadequateSecurity => 0x0c
  | Http11Required => 0x0d
  end.

(** [Reason::from_code]. *)
Definition from_code (code : Z) : option Reason :=
  match code with
  | 0x00 => Some NoError
  | 0x01 => Some ProtocolError
  | 0x02 => Some InternalError
  | 0x03 => Some FlowControlError
  | 0x04 => Some SettingsTimeout
  | 0x05 => Some StreamClosed
  | 0x06 => Some FrameSizeError
  | 0x07 => Some RefusedStream
  | 0x08 => Some Cancel
  | 0x09 => Some CompressionError
  | 0x0a => Some ConnectError
  | 0x0b => Some EnhanceYourCalm
  | 0x0c => Some InadequateSecurity
  | 0x0d => Some Http11Required
  | _ => None
  end.

Record H2Error : Type := MkH2Error {
  reason : Reason;
  message : string;
}.

#[global] Instance H2Error_eq_dec : EqDecision H2Error.
Proof. solve_decision. Defined.

(** [H2Error::protocol] and [H2Error::frame_size]. *)
Definition protocol (message : string) : H2Error := MkH2Error ProtocolError message.
Definition frame_size (message : string) : H2Error := MkH2Error FrameSizeError message.

Lemma code_bound r : 0 ≤ code r ≤ 13.
Proof. destruct r; cbn; lia. Qed.

(** Error codes round trip: [from_code] gives a reason for a number
    exactly when the number is that reason's code. *)
Theorem reason_codes c r : from_code c = Some r ↔ code r = c.
Proof.
  split; [|intros <-; by destruct r].
  unfold from_code. repeat case_match; intros [= <-]; done.
Qed.
