(* ===== verification/H2Codec.v ===== *)
(** * The HTTP/2 frame codec (src/src/h2/codec/mod.rs)

    [FrameDecoder] parses frames incrementally out of a growing buffer;
    [FrameWriter] writes them.  The theorems relate the two, show that how the
    transport splits the octets does not matter, and state what the decoder
    guarantees of every frame it returns. *)

From S2P Require Import Prelude H2Error.

Definition FRAME_HEADER_LEN : Z := 9.
Definition DEFAULT_MAX_FRAME_SIZE : Z := 16384.
Definition MAX_FRAME_SIZE_LIMIT : Z := 16777215.
Definition DEFAULT_CONNECTION_WINDOW_SIZE : Z := 65535.
Definition DEFAULT_INITIAL_WINDOW_SIZE : Z := 1048576.
Definition MAX_WINDOW_SIZE : Z := 2147483647.

Definition DATA_TYPE : Z := 0x00.
Definition HEADERS_TYPE : Z := 0x01.
Definition PRIORITY_TYPE : Z := 0x02.
Definition RST_STREAM_TYPE : Z := 0x03.
Definition SETTINGS_TYPE : Z := 0x04.
Definition PUSH_PROMISE_TYPE : Z := 0x05.
Definition PING_TYPE : Z := 0x06.
Definition GOAWAY_TYPE : Z := 0x07.
Definition WINDOW_UPDATE_TYPE : Z := 0x08.
Definition CONTINUATION_TYPE : Z := 0x09.

Definition FLAG_END_STREAM : Z := 0x01.
Definition FLAG_ACK : Z := 0x01.
Definition FLAG_END_HEADERS : Z := 0x04.
Definition FLAG_PADDED : Z := 0x08.
Definition FLAG_PRIORITY : Z := 0x20.

Record Priority : Type := MkPriority {
  exclusive : bool;
  dependency : Z;
  weight : Z;
}.

Record Setting : Type := MkSetting { set_id : Z; set_value : Z }.

#[global] Instance Setting_eq_dec : EqDecision Setting.
Proof. solve_decision. Defined.
#[global] Instance Priority_eq_dec : EqDecision Priority.
Proof. solve_decision. Defined.

Inductive Frame : Type :=
| Data (stream_id : Z) (end_stream : bool) (data : bytes)
| Headers (stream_id : Z) (end_stream end_headers : bool) (priority : option Priority) (block : bytes)
| PriorityFrame (stream_id : Z) (priority : Priority)
| Reset_ (stream_id error_code : Z)
| Settings (ack : bool) (settings : list Setting)
| PushPromise (stream_id : Z) (end_headers : bool) (promised_stream_id : Z) (block : bytes)
| Ping (ack : bool) (payload : bytes)
| GoAway (last_stream_id error_code : Z) (debug : bytes)
| WindowUpdate (stream_id increment : Z)
| Continuation (stream_id : Z) (end_headers : bool) (block : bytes)
| Unknown (typ flags stream_id : Z) (payload : bytes).

#[global] Instance Frame_eq_dec : EqDecision Frame.
Proof. solve_decision. Defined.

(** ** The decoder *)

Record FrameDecoder : Type := MkFrameDecoder {
  buf : bytes;
  max_frame_size : Z;
  block_stream : option Z;
}.

(** [FrameDecoder::new], [extend], [set_max_frame_size] and [clear_block]. *)
Definition new_frame_decoder (max_frame_size : Z) : FrameDecoder :=
  MkFrameDecoder [] max_frame_size None.
Definition extend (d : FrameDecoder) (bytes : bytes) : FrameDecoder :=
  MkFrameDecoder (buf d ++ bytes) (max_frame_size d) (block_stream d).
Definition set_max_frame_size (d : FrameDecoder) (max : Z) : FrameDecoder :=
  MkFrameDecoder (buf d) max (block_stream d).
Definition set_block (d : FrameDecoder) (block : option Z) : FrameDecoder :=
  MkFrameDecoder (buf d) (max_frame_size d) block.
Definition clear_block (d : FrameDecoder) : FrameDecoder := set_block d None.

Abbreviation fallible := (result H2Error).

(** [flags & FLAG != 0]. *)
Definition flag (flags mask : Z) : bool := negb (Z.land flags mask =? 0).

Definition require_stream (stream_id : Z) : fallible () :=
  if stream_id =? 0 then Err (protocol "frame must use a non-zero stream identifier") else Ok ().

Definition validate_setting (id value : Z) : fallible () :=
  match id with
  | 0x02 => fail_if (1 <? value) (protocol "SETTINGS_ENABLE_PUSH must be 0 or 1")
  | 0x04 => fail_if (MAX_WINDOW_SIZE <? value)
              (MkH2Error FlowControlError "SETTINGS_INITIAL_WINDOW_SIZE exceeds 2^31-1")
  | 0x05 => fail_if (negb ((DEFAULT_MAX_FRAME_SIZE <=? value) && (value <=? MAX_FRAME_SIZE_LIMIT)))
              (protocol "SETTINGS_MAX_FRAME_SIZE outside 16384..16777215")
  | _ => Ok ()
  end.

(** [read_u32] on a slice of at least four octets. *)
Definition read_u32 (l : bytes) : Z := be [idx l 0; idx l 1; idx l 2; idx l 3].

(** [take_padding]: the padding length and what is left of the body. *)
Definition take_padding (body : bytes) (padded : bool) : fallible (Z * bytes) :=
  if negb padded then Ok (0, body)
  else
    pad_len ← ok_or (head body) (frame_size "PADDED frame payload too short for pad length");
    _ ← fail_if (zlen body <=? pad_len)
          (protocol "padding length is the length of the frame payload or greater");
    Ok (pad_len, take (Z.to_nat (zlen body - pad_len - 1)) (drop 1 body)).

(** [read_priority]: the priority and the body after it. *)
Definition read_priority (body : bytes) (stream_id : Z) : fallible (Priority * bytes) :=
  _ ← fail_if (zlen body <? 5) (frame_size "frame payload too short for priority fields");
  let exclusive := negb (Z.land (idx body 0) 0x80 =? 0) in
  let dependency := Z.land (be [idx body 0; idx body 1; idx body 2; idx body 3]) 0x7fffffff in
  _ ← fail_if (dependency =? stream_id)
        (protocol "stream priority depends on its own stream identifier");
  Ok (MkPriority exclusive dependency (idx body 4), drop 5 body).

(** [payload_slice]. *)
Definition payload_slice (payload body : bytes) (pad_len : Z) : bytes :=
  let start := zlen payload - pad_len - zlen body in
  default [] (zslice payload start (start + zlen body)).

(** The [while !body.is_empty()] loop of the SETTINGS arm; the length is a
    multiple of 6. *)
Fixpoint read_settings (body : bytes) : fallible (list Setting) :=
  match body with
  | b0 :: b1 :: b2 :: b3 :: b4 :: b5 :: body =>
      let id := be [b0; b1] in
      let value := be [b2; b3; b4; b5] in
      _ ← validate_setting id value;
      settings ← read_settings body;
      Ok (MkSetting id value :: settings)
  | _ => Ok []
  end.

(** [for setting in &settings { if setting.id == 0x05 {..} }]. *)
Definition adopt_max_frame_size (d : FrameDecoder) (settings : list Setting) : FrameDecoder :=
  foldl (λ d s, if set_id s =? 0x05 then set_max_frame_size d (set_value s) else d) d settings.

(** The [match typ] of [parse_frame]. *)
Definition parse_payload (typ flags stream_id : Z) (payload : bytes) (d : FrameDecoder)
    : fallible (FrameDecoder * Frame) :=
  let body := payload in
  match typ with
  | 0x00 =>
      _ ← require_stream stream_id;
      '(pad_len, body) ← take_padding body (flag flags FLAG_PADDED);
      Ok (d, Data stream_id (flag flags FLAG_END_STREAM) (payload_slice payload body pad_len))
  | 0x01 =>
      _ ← require_stream stream_id;
      let end_headers := flag flags FLAG_END_HEADERS in
      '(pad_len, body) ← take_padding body (flag flags FLAG_PADDED);
      '(priority, body) ← (if flag flags FLAG_PRIORITY
        then '(p, body) ← read_priority body stream_id; Ok (Some p, body) else Ok (None, body));
      let d := if negb end_headers then set_block d (Some stream_id) else d in
      Ok (d, Headers stream_id (flag flags FLAG_END_STREAM) end_headers priority
               (payload_slice payload body pad_len))
  | 0x02 =>
      _ ← require_stream stream_id;
      _ ← fail_if (negb (zlen body =? 5)) (frame_size "PRIORITY frame payload must be exactly 5 octets");
      '(priority, _) ← read_priority body stream_id;
      Ok (d, PriorityFrame stream_id priority)
  | 0x03 =>
      _ ← require_stream stream_id;
      _ ← fail_if (negb (zlen body =? 4)) (frame_size "RST_STREAM frame payload must be exactly 4 octets");
      Ok (d, Reset_ stream_id (read_u32 body))
  | 0x04 =>
      _ ← fail_if (negb (stream_id =? 0)) (protocol "SETTINGS frame must use stream identifier 0");
      let ack := flag flags FLAG_ACK in
      _ ← fail_if (ack && negb (zlen body =? 0))
            (frame_size "SETTINGS frame with ACK flag must have an empty payload");
      _ ← fail_if (negb (zlen body mod 6 =? 0))
            (frame_size "SETTINGS frame payload must be a multiple of 6 octets");
      settings ← read_settings body;
      let d := if negb ack then adopt_max_frame_size d settings else d in
      Ok (d, Settings ack settings)
  | 0x05 =>
      _ ← require_stream stream_id;
      let end_headers := flag flags FLAG_END_HEADERS in
      '(pad_len, body) ← take_padding body (flag flags FLAG_PADDED);
      _ ← fail_if (zlen body <? 4) (frame_size "PUSH_PROMISE frame payload must be at least 4 octets");
      let promised_stream_id := Z.land (read_u32 body) 0x7fffffff in
      _ ← fail_if (promised_stream_id =? 0) (protocol "PUSH_PROMISE promised stream identifier is 0");
      let d := if negb end_headers then set_block d (Some stream_id) else d in
      let body := drop 4 body in
      Ok (d, PushPromise stream_id end_headers promised_stream_id (payload_slice payload body pad_len))
  | 0x06 =>
      _ ← fail_if (negb (stream_id =? 0)) (protocol "PING frame must use stream identifier 0");
      _ ← fail_if (negb (zlen body =? 8)) (frame_size "PING frame payload must be exactly 8 octets");
      Ok (d, Ping (flag flags FLAG_ACK) (take 8 body))
  | 0x07 =>
      _ ← fail_if (negb (stream_id =? 0)) (protocol "GOAWAY frame must use stream identifier 0");
      _ ← fail_if (zlen body <? 8) (frame_size "GOAWAY frame payload must be at least 8 octets");
      Ok (d, GoAway (Z.land (read_u32 body) 0x7fffffff) (read_u32 (drop 4 body)) (drop 8 payload))
  | 0x08 =>
      _ ← fail_if (negb (zlen body =? 4)) (frame_size "WINDOW_UPDATE frame payload must be exactly 4 octets");
      let increment := Z.land (read_u32 body) 0x7fffffff in
      _ ← fail_if (increment =? 0) (protocol "WINDOW_UPDATE frame with zero increment");
      Ok (d, WindowUpdate stream_id increment)
  | 0x09 =>
      let end_headers := flag flags FLAG_END_HEADERS in
      let d := if end_headers then set_block d None else d in
      Ok (d, Continuation stream_id end_headers payload)
  | _ => Ok (d, Unknown typ flags stream_id payload)
  end.

(** The field-block discipline checked at the start of [parse_frame]. *)
Definition check_block (d : FrameDecoder) (typ stream_id : Z) : fallible () :=
  match block_stream d with
  | Some open_stream =>
      if negb (typ =? CONTINUATION_TYPE)
      then Err (protocol "frame received while field block was open")
      else fail_if (negb (stream_id =? open_stream))
        (protocol "CONTINUATION frame on a different stream than the open field block")
  | None => fail_if (typ =? CONTINUATION_TYPE)
        (protocol "CONTINUATION frame without a preceding HEADERS or PUSH_PROMISE")
  end.

(** [parse_frame]; on an error the decoder is as it was passed. *)
Definition parse_frame (typ flags stream_id : Z) (payload : bytes) (d : FrameDecoder)
    : FrameDecoder * fallible Frame :=
  match (_ ← check_block d typ stream_id; parse_payload typ flags stream_id payload d) with
  | Ok (d, frame) => (d, Ok frame)
  | Err e => (d, Err e)
  end.

(** [FrameDecoder::next_frame]. *)
Definition next_frame (d : FrameDecoder) : FrameDecoder * fallible (option Frame) :=
  if zlen (buf d) <? FRAME_HEADER_LEN then (d, Ok None)
  else
    let at_ := idx (buf d) in
    let payload_len := be [0; at_ 0%nat; at_ 1%nat; at_ 2%nat] in
    let typ := at_ 3%nat in
    let flags := at_ 4%nat in
    let raw_stream_id := be [at_ 5%nat; at_ 6%nat; at_ 7%nat; at_ 8%nat] in
    let stream_id := Z.land raw_stream_id 0x7fffffff in
    if max_frame_size d <? payload_len
    then (d, Err (frame_size "frame payload exceeds SETTINGS_MAX_FRAME_SIZE"))
    else
      let total := FRAME_HEADER_LEN + payload_len in
      if zlen (buf d) <? total then (d, Ok None)
      else
        let rest := drop (Z.to_nat FRAME_HEADER_LEN) (buf d) in
        let payload := take (Z.to_nat payload_len) rest in
        let d := MkFrameDecoder (drop (Z.to_nat payload_len) rest) (max_frame_size d) (block_stream d) in
        match parse_frame typ flags stream_id payload d with
        | (d, Ok frame) => (d, Ok (Some frame))
        | (d, Err e) => (d, Err e)
        end.

(** ** The writer *)

(** [FrameWriter::header]. *)
Definition header (out : bytes) (payload_len typ flags stream_id : Z) : bytes :=
  out ++ [Z.land (Z.shiftr payload_len 16) 0xff; Z.land (Z.shiftr payload_len 8) 0xff;
          Z.land payload_len 0xff; typ; flags;
          Z.land (Z.shiftr stream_id 24) 0x7f; Z.land (Z.shiftr stream_id 16) 0xff;
          Z.land (Z.shiftr stream_id 8) 0xff; Z.land stream_id 0xff].

Definition write_data (out : bytes) (stream_id : Z) (end_stream : bool) (data : bytes) : bytes :=
  let flags := if end_stream then FLAG_END_STREAM else 0 in
  header out (zlen data) DATA_TYPE flags stream_id ++ data.

(** [p.dependency & 0x7fff_ffff | if p.exclusive { 0x8000_0000 } else { 0 }]. *)
Definition priority_word (p : Priority) : Z :=
  Z.lor (Z.land (dependency p) 0x7fffffff) (if exclusive p then 0x80000000 else 0).

Definition write_headers (out : bytes) (stream_id : Z) (end_stream end_headers : bool)
    (priority : option Priority) (block : bytes) : bytes :=
  let flags := 0 in
  let flags := if end_stream then Z.lor flags FLAG_END_STREAM else flags in
  let flags := if end_headers then Z.lor flags FLAG_END_HEADERS else flags in
  let extra := match priority with Some _ => 5 | None => 0 end in
  let flags := if negb (extra =? 0) then Z.lor flags FLAG_PRIORITY else flags in
  let out := header out (zlen block + extra) HEADERS_TYPE flags stream_id in
  let out := match priority with
    | Some p => out ++ to_be 4 (priority_word p) ++ [weight p]
    | None => out
    end in
  out ++ block.

Definition write_continuation (out : bytes) (stream_id : Z) (end_headers : bool) (block : bytes) : bytes :=
  let flags := if end_headers then FLAG_END_HEADERS else 0 in
  header out (zlen block) CONTINUATION_TYPE flags stream_id ++ block.

(** The [while rest.len() > capacity] loop of [write_field_block] and the
    CONTINUATION after it; [None] is fuel exhausted. *)
Fixpoint write_rest (fuel : nat) (capacity : Z) (out : bytes) (stream_id : Z) (rest : bytes) : option bytes :=
  match fuel with
  | O => None
  | S fuel =>
      if capacity <? zlen rest
      then write_rest fuel capacity
             (write_continuation out stream_id false (take (Z.to_nat capacity) rest))
             stream_id (drop (Z.to_nat capacity) rest)
      else Some (write_continuation out stream_id true rest)
  end.

(** [FrameWriter::write_field_block] with [self.max_frame_size = capacity];
    [write_rest_total] shows the fuel suffices when it is positive. *)
Definition write_field_block (capacity : Z) (out : bytes) (stream_id : Z) (end_stream : bool)
    (block : bytes) : option bytes :=
  if zlen block <=? capacity
  then Some (write_headers out stream_id end_stream true None block)
  else
    let first := take (Z.to_nat capacity) block in
    let out := write_headers out stream_id end_stream false None first in
    write_rest (S (length block)) capacity out stream_id (drop (Z.to_nat capacity) block).

Definition write_priority (out : bytes) (stream_id : Z) (priority : Priority) : bytes :=
  header out 5 PRIORITY_TYPE 0 stream_id ++ to_be 4 (priority_word priority) ++ [weight priority].

Definition write_reset (out : bytes) (stream_id error_code : Z) : bytes :=
  header out 4 RST_STREAM_TYPE 0 stream_id ++ to_be 4 error_code.

Definition write_settings (out : bytes) (settings : list Setting) : bytes :=
  foldl (λ out s, out ++ to_be 2 (set_id s) ++ to_be 4 (set_value s))
    (header out (zlen settings * 6) SETTINGS_TYPE 0 0) settings.

Definition write_settings_ack (out : bytes) : bytes := header out 0 SETTINGS_TYPE FLAG_ACK 0.

Definition write_push_promise (out : bytes) (stream_id promised_stream_id : Z) (block : bytes) : bytes :=
  header out (4 + zlen block) PUSH_PROMISE_TYPE FLAG_END_HEADERS stream_id
  ++ to_be 4 (Z.land promised_stream_id 0x7fffffff) ++ block.

Definition write_ping (out payload : bytes) : bytes := header out 8 PING_TYPE 0 0 ++ payload.
Definition write_ping_ack (out payload : bytes) : bytes := header out 8 PING_TYPE FLAG_ACK 0 ++ payload.

Definition write_goaway (out : bytes) (last_stream_id error_code : Z) (debug : bytes) : bytes :=
  header out (8 + zlen debug) GOAWAY_TYPE 0 0 ++ to_be 4 (Z.land last_stream_id 0x7fffffff)
  ++ to_be 4 error_code ++ debug.

Definition write_window_update (out : bytes) (stream_id increment : Z) : bytes :=
  header out 4 WINDOW_UPDATE_TYPE 0 stream_id ++ to_be 4 (Z.land increment 0x7fffffff).

(** The writer of each frame the code can write. *)
Definition write_frame (out : bytes) (f : Frame) : bytes :=
  match f with
  | Data sid es data => write_data out sid es data
  | Headers sid es eh p block => write_headers out sid es eh p block
  | PriorityFrame sid p => write_priority out sid p
  | Reset_ sid c => write_reset out sid c
  | Settings false l => write_settings out l
  | Settings true _ => write_settings_ack out
  | PushPromise sid _ promised block => write_push_promise out sid promised block
  | Ping false p => write_ping out p
  | Ping true p => write_ping_ack out p
  | GoAway last c debug => write_goaway out last c debug
  | WindowUpdate sid inc => write_window_update out sid inc
  | Continuation sid eh block => write_continuation out sid eh block
  | Unknown _ _ _ _ => out
  end.

Example headers_example :
  next_frame (extend (new_frame_decoder 16384)
    (write_headers [] 3 true true (Some (MkPriority true 5 7)) [0x82; 0x86]))
  = (new_frame_decoder 16384, Ok (Some (Headers 3 true true (Some (MkPriority true 5 7)) [0x82; 0x86]))).
Proof. vm_compute. reflexivity. Qed.

#[global] Arguments payload_slice : simpl never.
#[global] Arguments read_u32 : simpl never.
#[global] Arguments header : simpl never.

(** ** What a frame does to the decoder *)

(** The open field block after a frame. *)
Definition block_after (f : Frame) (block : option Z) : option Z :=
  match f with
  | Headers sid _ false _ _ | PushPromise sid false _ _ => Some sid
  | Continuation _ true _ => None
  | _ => block
  end.

(** The last SETTINGS_MAX_FRAME_SIZE of a list, if any. *)
Definition last_max (settings : list Setting) (max : Z) : Z :=
  foldl (λ m s, if set_id s =? 0x05 then set_value s else m) max settings.

(** The payload limit after a frame. *)
Definition max_after (f : Frame) (max : Z) : Z :=
  match f with Settings false l => last_max l max | _ => max end.

Definition after (f : Frame) (d : FrameDecoder) : FrameDecoder :=
  MkFrameDecoder (buf d) (max_after f (max_frame_size d)) (block_after f (block_stream d)).

Lemma adopt_last l d :
  adopt_max_frame_size d l = MkFrameDecoder (buf d) (last_max l (max_frame_size d)) (block_stream d).
Proof.
  unfold adopt_max_frame_size, last_max. revert d. induction l as [|s l IH]; intros d; cbn; [by destruct d|].
  rewrite IH. by destruct (set_id s =? 5).
Qed.

(** The frame read off a payload does not depend on the decoder. *)
Lemma parse_payload_after typ flags sid p d :
  match parse_payload typ flags sid p d with
  | Ok (d', f) => d' = after f d ∧ ∀ d2, parse_payload typ flags sid p d2 = Ok (after f d2, f)
  | Err e => ∀ d2, parse_payload typ flags sid p d2 = Err e
  end.
Proof.
  unfold parse_payload. destruct d as [bf mx blk].
  repeat match goal with
  | |- context [match ?x with _ => _ end] => is_var x; destruct x
  end; try (split; [done|by intros []]).
  all: cbv [mbind result_bind].
  all: repeat (case_match; try done; simplify_eq).
  all: try (split; [done|by intros []]).
  all: match goal with H : negb ?b = _ |- _ => destruct b; try discriminate end.
  all: split; [|intros []]; rewrite ?adopt_last; done.
Qed.

Lemma parse_frame_Ok typ flags sid p d d' f :
  parse_frame typ flags sid p d = (d', Ok f) ↔
  check_block d typ sid = Ok () ∧ d' = after f d ∧ ∃ d2, parse_payload typ flags sid p d = Ok (d2, f).
Proof.
  unfold parse_frame. pose proof (parse_payload_after typ flags sid p d) as H.
  destruct (check_block d typ sid) as [[]|e]; cbn [mbind result_bind]; [|naive_solver].
  destruct (parse_payload typ flags sid p d) as [[d2 f2]|e]; [|naive_solver].
  destruct H as [-> _]. naive_solver.
Qed.

Lemma after_extend f d x : after f (extend d x) = extend (after f d) x.
Proof. done. Qed.

(** Octets that arrive later do not change what was parsed. *)
Lemma parse_frame_extend typ flags sid p d x d' r :
  parse_frame typ flags sid p d = (d', r) → parse_frame typ flags sid p (extend d x) = (extend d' x, r).
Proof.
  unfold parse_frame, check_block. cbn [extend block_stream].
  pose proof (parse_payload_after typ flags sid p d) as H.
  destruct (block_stream d) as [o|]; [destruct (negb (typ =? CONTINUATION_TYPE)); cbn; [naive_solver|]|];
    (destruct (fail_if _ _); cbn; [|naive_solver]);
    (destruct (parse_payload typ flags sid p d) as [[d2 f2]|e];
     [destruct H as [-> H]; rewrite H; intros [= <- <-]; done|rewrite H; intros [= <- <-]; done]).
Qed.

Lemma zlen_drop {A} n (l : list A) : (n ≤ length l)%nat → zlen (drop n l) = zlen l - Z.of_nat n.
Proof. intros. unfold zlen. rewrite length_drop. lia. Qed.

Lemma idx_app l x i : Z.of_nat i < zlen l → idx (l ++ x) i = idx l i.
Proof. intros H. unfold idx, zlen in *. apply app_nth1. lia. Qed.

Lemma next_frame_extend d x :
  match next_frame d with
  | (d', Ok None) => d' = d
  | (d', r) => next_frame (extend d x) = (extend d' x, r)
  end.
Proof.
  unfold next_frame. cbn [extend buf max_frame_size block_stream].
  pose proof (zlen_nonneg x).
  destruct (Z.ltb_spec (zlen (buf d)) FRAME_HEADER_LEN) as [|H9]; [done|].
  unfold FRAME_HEADER_LEN in *. rewrite zlen_app. replace (zlen (buf d) + zlen x <? 9) with false by lia.
  rewrite !idx_app by lia. set (pl := be [0; _; _; _]).
  destruct (max_frame_size d <? pl); [done|].
  destruct (Z.ltb_spec (zlen (buf d)) (9 + pl)) as [|Hl]; [done|].
  replace (zlen (buf d) + zlen x <? 9 + pl) with false by lia.
  change (Z.to_nat 9) with 9%nat.
  rewrite drop_app_le by (unfold zlen in H9; lia).
  assert (Z.to_nat pl ≤ length (drop 9 (buf d)))%nat by (rewrite length_drop; unfold zlen in *; lia).
  rewrite take_app_le, drop_app_le by done.
  destruct (parse_frame _ _ _ _ _) as [d2 r] eqn:E.
  apply parse_frame_extend with (x := x) in E. unfold extend in E. cbn [buf max_frame_size block_stream] in E. rewrite E.
  by destruct r.
Qed.

(** ** Draining the buffer *)

(** [while let Some(frame) = decoder.next_frame()? { .. }]: the frames read,
    and the error that stopped the loop. *)
Fixpoint drain (fuel : nat) (d : FrameDecoder) : FrameDecoder * list Frame * option H2Error :=
  match fuel with
  | O => (d, [], None)
  | S fuel =>
      match next_frame d with
      | (d, Ok None) => (d, [], None)
      | (d, Err e) => (d, [], Some e)
      | (d, Ok (Some f)) => let '(d, fs, r) := drain fuel d in (d, f :: fs, r)
      end
  end.

Definition drain_all (d : FrameDecoder) := drain (S (length (buf d))) d.

(** Reads from the transport, each drained before the next; stops at an
    error. *)
Fixpoint feed (d : FrameDecoder) (chunks : list bytes) : FrameDecoder * list Frame * option H2Error :=
  match chunks with
  | [] => (d, [], None)
  | c :: chunks =>
      match drain_all (extend d c) with
      | (d, fs, None) => let '(d, fs', r) := feed d chunks in (d, fs ++ fs', r)
      | (d, fs, Some e) => (d, fs, Some e)
      end
  end.

(** A frame takes its nine header octets at least out of the buffer. *)
Lemma next_frame_consumes d d' f :
  next_frame d = (d', Ok (Some f)) → (length (buf d') + 9 ≤ length (buf d))%nat.
Proof.
  unfold next_frame. destruct (Z.ltb_spec (zlen (buf d)) FRAME_HEADER_LEN) as [|H9]; [done|].
  destruct (max_frame_size d <? _); [done|]. destruct (zlen (buf d) <? _); [done|].
  destruct (parse_frame _ _ _ _ _) as [d2 [f2|e]] eqn:E; [|done]. intros [= <- <-].
  apply parse_frame_Ok in E as (_ & -> & _). cbn [after buf]. rewrite !length_drop.
  change (Z.to_nat FRAME_HEADER_LEN) with 9%nat. unfold zlen, FRAME_HEADER_LEN in H9. lia.
Qed.

(** Enough fuel is enough: the loop ends because nothing is left to parse. *)
Lemma drain_fuel n m d : (length (buf d) < n)%nat → (length (buf d) < m)%nat → drain n d = drain m d.
Proof.
  revert m d. induction n as [|n IH]; intros m d Hn Hm; [lia|]. destruct m as [|m]; [lia|].
  cbn [drain]. destruct (next_frame d) as [d' [[f|]|e]] eqn:E; try done.
  apply next_frame_consumes in E. by rewrite (IH m) by lia.
Qed.

Lemma drain_stops n d d' fs :
  (length (buf d) < n)%nat → drain n d = (d', fs, None) → next_frame d' = (d', Ok None).
Proof.
  revert d d' fs. induction n as [|n IH]; intros d d' fs Hn; [lia|]. cbn [drain].
  destruct (next_frame d) as [d1 [[f|]|e]] eqn:E; [| |done].
  - pose proof (next_frame_consumes _ _ _ E). destruct (drain n d1) as [[d2 fs2] r2] eqn:E2.
    intros [= <- _ ->]. by apply IH in E2; [|lia].
  - intros [= <- _]. pose proof (next_frame_extend d []) as H. rewrite E in H. by subst d1.
Qed.

Lemma drain_length n d d' fs r : drain n d = (d', fs, r) → (length (buf d') ≤ length (buf d))%nat ∨ r ≠ None.
Proof.
  revert d d' fs r. induction n as [|n IH]; intros d d' fs r; cbn; [naive_solver|].
  destruct (next_frame d) as [d3 [[f|]|e]] eqn:E; [| |naive_solver].
  - apply next_frame_consumes in E. destruct (drain n d3) as [[d4 fs4] r4] eqn:E4.
    intros [= -> _ ->]. apply IH in E4. naive_solver lia.
  - intros [= <- _ _]. pose proof (next_frame_extend d []) as H. rewrite E in H. subst. by left.
Qed.

Lemma drain_S n d :
  drain (S n) d =
  match next_frame d with
  | (d, Ok None) => (d, [], None)
  | (d, Err e) => (d, [], Some e)
  | (d, Ok (Some f)) => let '(d, fs, r) := drain n d in (d, f :: fs, r)
  end.
Proof. done. Qed.

(** Draining, reading more and draining again is reading everything and
    draining once. *)
Lemma drain_extend n m d x :
  (length (buf d) < n)%nat → (length (buf d) + length x < m)%nat →
  drain m (extend d x) =
  match drain n d with
  | (d', fs, None) => let '(d2, fs2, r) := drain m (extend d' x) in (d2, fs ++ fs2, r)
  | (d', fs, Some e) => (extend d' x, fs, Some e)
  end.
Proof.
  revert m d. induction n as [|n IH]; intros m d Hn Hm; [lia|]. destruct m as [|m]; [lia|].
  rewrite (drain_S m (extend d x)), (drain_S n d). pose proof (next_frame_extend d x) as H.
  destruct (next_frame d) as [d1 [[f|]|e]] eqn:E.
  - pose proof (next_frame_consumes _ _ _ E). rewrite H.
    rewrite (IH m d1) by lia. destruct (drain n d1) as [[d2 fs2] [e|]] eqn:E2; [done|].
    apply drain_length in E2 as [Hd2|]; [|done].
    rewrite (drain_fuel (S m) m) by (cbn; rewrite length_app; lia).
    by destruct (drain m (extend d2 x)) as [[d5 fs5] r5].
  - subst d1. rewrite drain_S. by destruct (next_frame (extend d x)) as [d1 [[f|]|e]];
      [destruct (drain m d1) as [[]]| |].
  - by rewrite H.
Qed.

Lemma drain_all_extend d x :
  drain_all (extend d x) =
  match drain_all d with
  | (d', fs, None) => let '(d2, fs2, r) := drain_all (extend d' x) in (d2, fs ++ fs2, r)
  | (d', fs, Some e) => (extend d' x, fs, Some e)
  end.
Proof.
  unfold drain_all at 1. rewrite (drain_extend (S (length (buf d)))) by (cbn; rewrite ?length_app; lia).
  fold (drain_all d). destruct (drain_all d) as [[d' fs] [e|]] eqn:E; [done|].
  apply drain_length in E as [E|]; [|done]. unfold drain_all.
  by rewrite (drain_fuel _ (S (length (buf (extend d' x))))) by (cbn; rewrite !length_app; lia).
Qed.

Lemma feed_drain chunks d :
  next_frame d = (d, Ok None) →
  let '(d1, fs1, r1) := feed d chunks in
  let '(d2, fs2, r2) := drain_all (extend d (mjoin chunks)) in
  fs1 = fs2 ∧ r1 = r2 ∧ (r1 = None → d1 = d2).
Proof.
  revert d. induction chunks as [|c chunks IH]; intros d Hd.
  - cbn [feed mjoin list_join]. unfold extend. rewrite app_nil_r.
    replace (MkFrameDecoder _ _ _) with d by (by destruct d).
    unfold drain_all. by rewrite drain_S, Hd.
  - cbn [feed]. change (mjoin (c :: chunks)) with (c ++ mjoin chunks).
    assert (extend d (c ++ mjoin chunks) = extend (extend d c) (mjoin chunks)) as ->
      by (unfold extend; cbn; by rewrite app_assoc).
    rewrite (drain_all_extend (extend d c)). destruct (drain_all (extend d c)) as [[d1 fs1] [e|]] eqn:E1; [done|].
    assert (next_frame d1 = (d1, Ok None)) as Hd1 by (apply drain_stops in E1; [done|lia]).
    specialize (IH d1 Hd1). destruct (feed d1 chunks) as [[d2 fs2] r2].
    destruct (drain_all _) as [[d3 fs3] r3]. naive_solver.
Qed.

(** ** Frames on the wire *)

(** Every frame is a header and a payload. *)
Definition header_octets (payload_len typ flags sid : Z) : bytes := header [] payload_len typ flags sid.

Lemma header_out out l t f s : header out l t f s = out ++ header_octets l t f s.
Proof. done. Qed.

Lemma land_ff x : Z.land x 0xff = x mod 256.
Proof. apply (land_mask x 8). lia. Qed.

Lemma land_7f x : Z.land x 0x7f = x mod 128.
Proof. apply (land_mask x 7). lia. Qed.

Lemma land_31 x : Z.land x 0x7fffffff = x mod 2147483648.
Proof. apply (land_mask x 31). lia. Qed.

Lemma be4 a b c d : be [a; b; c; d] = ((a * 256 + b) * 256 + c) * 256 + d.
Proof. unfold be. cbn [foldl]. lia. Qed.

Lemma be2 a b : be [a; b] = a * 256 + b.
Proof. unfold be. cbn [foldl]. lia. Qed.

Lemma be_high c : be [c] = c. Proof. unfold be. cbn [foldl]. lia. Qed.

(** [next_frame] on a buffer that starts with a header and its payload. *)
Lemma next_frame_wire d typ flags sid p rest :
  zlen p < 2 ^ 24 → 0 ≤ sid < 2 ^ 31 → zlen p ≤ max_frame_size d →
  buf d = header_octets (zlen p) typ flags sid ++ p ++ rest →
  next_frame d =
  match parse_frame typ flags sid p (MkFrameDecoder rest (max_frame_size d) (block_stream d)) with
  | (d, Ok frame) => (d, Ok (Some frame))
  | (d, Err e) => (d, Err e)
  end.
Proof.
  intros Hp Hs Hm Hb. pose proof (zlen_nonneg p). pose proof (zlen_nonneg rest).
  change (2 ^ 24) with 16777216 in Hp. change (2 ^ 31) with 2147483648 in Hs.
  unfold next_frame. rewrite Hb. unfold header_octets, header. cbn [app].
  rewrite !zlen_cons, zlen_app. unfold FRAME_HEADER_LEN.
  match goal with |- context [if ?x <? 9 then _ else _] => replace (x <? 9) with false by lia end.
  cbn [idx nth]. change (Z.to_nat 9) with 9%nat. cbn [drop].
  rewrite !land_ff, land_7f, !Z.shiftr_div_pow2, !be4 by lia.
  change (2 ^ 16) with 65536. change (2 ^ 8) with 256. change (2 ^ 24) with 16777216.
  match goal with |- context [max_frame_size d <? ?x] => replace x with (zlen p) by dlia end.
  match goal with |- context [Z.land ?x 2147483647] => replace (Z.land x 2147483647) with sid
    by (rewrite land_31; dlia) end.
  replace (max_frame_size d <? zlen p) with false by lia.
  match goal with |- context [?x <? 9 + zlen p] => replace (x <? 9 + zlen p) with false by lia end.
  unfold zlen. rewrite Nat2Z.id, drop_0, take_app_length, drop_app_length. done.
Qed.

(** A header that announces more than the limit. *)
Lemma next_frame_oversize d typ flags sid len rest :
  0 ≤ len < 2 ^ 24 → max_frame_size d < len →
  buf d = header_octets len typ flags sid ++ rest →
  next_frame d = (d, Err (frame_size "frame payload exceeds SETTINGS_MAX_FRAME_SIZE")).
Proof.
  intros Hp Hm Hb. pose proof (zlen_nonneg rest). change (2 ^ 24) with 16777216 in Hp.
  unfold next_frame. rewrite Hb. unfold header_octets, header. cbn [app]. rewrite !zlen_cons. unfold FRAME_HEADER_LEN.
  match goal with |- context [if ?x <? 9 then _ else _] => replace (x <? 9) with false by lia end.
  cbn [idx nth]. rewrite !land_ff, !Z.shiftr_div_pow2, !be4 by lia.
  change (2 ^ 16) with 65536. change (2 ^ 8) with 256. change (2 ^ 24) with 16777216.
  match goal with |- context [max_frame_size d <? ?x] => replace x with len by dlia end.
  by replace (max_frame_size d <? len) with true by lia.
Qed.

(** The frames the writers are given: stream identifiers and values of their
    widths, the stream required where the protocol requires it, settings the
    peer will accept, and no more octets than the 24-bit length can say. *)
Definition priority_ok (sid : Z) (p : Priority) : Prop :=
  0 ≤ dependency p < 2 ^ 31 ∧ dependency p ≠ sid ∧ is_byte (weight p).

Definition setting_ok (s : Setting) : Prop :=
  0 ≤ set_id s < 2 ^ 16 ∧ 0 ≤ set_value s < 2 ^ 32 ∧ validate_setting (set_id s) (set_value s) = Ok ().

Definition stream_ok (sid : Z) : Prop := 0 < sid < 2 ^ 31.

Definition frame_ok (f : Frame) : Prop :=
  match f with
  | Data sid _ data => stream_ok sid ∧ zlen data < 2 ^ 24
  | Headers sid _ _ p block =>
      stream_ok sid ∧ match p with
        | Some p => zlen block + 5 < 2 ^ 24 ∧ priority_ok sid p
        | None => zlen block < 2 ^ 24
        end
  | PriorityFrame sid p => stream_ok sid ∧ priority_ok sid p
  | Reset_ sid c => stream_ok sid ∧ 0 ≤ c < 2 ^ 32
  | Settings true l => l = []
  | Settings false l => Forall setting_ok l ∧ zlen l * 6 < 2 ^ 24
  | PushPromise sid eh promised block =>
      stream_ok sid ∧ eh = true ∧ stream_ok promised ∧ zlen block + 4 < 2 ^ 24
  | Ping _ p => zlen p = 8
  | GoAway last c debug => 0 ≤ last < 2 ^ 31 ∧ 0 ≤ c < 2 ^ 32 ∧ zlen debug + 8 < 2 ^ 24
  | WindowUpdate sid inc => 0 ≤ sid < 2 ^ 31 ∧ 0 < inc < 2 ^ 31
  | Continuation sid _ block => stream_ok sid ∧ zlen block < 2 ^ 24
  | Unknown _ _ _ _ => False
  end.

(** The field block open before [f], if the peer may send [f] then. *)
Definition block_allows (block : option Z) (f : Frame) : Prop :=
  match f with
  | Continuation sid _ _ => block = Some sid
  | _ => block = None
  end.

Lemma payload_slice_whole p : payload_slice p p 0 = p.
Proof.
  unfold payload_slice. pose proof (zslice_app [] p []) as H. rewrite app_nil_r in H. cbn [app] in H.
  change (zlen []) with 0 in H. replace (zlen p - 0 - zlen p) with 0 by lia. by rewrite H.
Qed.

Lemma payload_slice_tail p q : payload_slice (p ++ q) q 0 = q.
Proof.
  unfold payload_slice. pose proof (zslice_app p q []) as H. rewrite app_nil_r in H.
  rewrite zlen_app. replace (zlen p + zlen q - 0 - zlen q) with (zlen p) by lia. by rewrite H.
Qed.

Lemma read_u32_to_be v l : 0 ≤ v < 2 ^ 32 → read_u32 (to_be 4 v ++ l) = v.
Proof.
  intros Hv. rewrite <- (be_to_be 4 v) at 2 by done. pose proof (length_to_be 4 v) as Hl.
  destruct (to_be 4 v) as [|a [|b [|c [|d [|]]]]]; try done.
Qed.

Lemma zlen_to_be n v : zlen (to_be n v) = Z.of_nat n.
Proof. unfold zlen. by rewrite length_to_be. Qed.

(** The priority fields round trip. *)
Lemma priority_word_bound p : 0 ≤ dependency p < 2 ^ 31 →
  priority_word p = dependency p + (if exclusive p then 2 ^ 31 else 0).
Proof.
  intros Hd. unfold priority_word. rewrite land_31. change (2 ^ 31) with 2147483648 in *.
  rewrite Z.mod_small by lia. destruct (exclusive p); [|rewrite Z.lor_0_r; lia].
  rewrite Z.lor_comm. change 2147483648 with (1 * 2 ^ 31). rewrite lor_disjoint by (change (2 ^ 31) with 2147483648; lia).
  lia.
Qed.

Lemma read_priority_write sid p l :
  priority_ok sid p → read_priority (to_be 4 (priority_word p) ++ weight p :: l) sid = Ok (p, l).
Proof.
  intros (Hd & Hne & Hw). pose proof (priority_word_bound p Hd) as Hpw.
  change (2 ^ 31) with 2147483648 in *.
  assert (0 ≤ priority_word p < 2 ^ 32) as Hb
    by (rewrite Hpw; change (2 ^ 32) with 4294967296; destruct (exclusive p); lia).
  unfold read_priority. rewrite zlen_app, zlen_to_be, zlen_cons. pose proof (zlen_nonneg l).
  rewrite (proj2 (Z.ltb_ge _ 5)) by lia.
  cbn [fail_if mbind result_bind].
  pose proof (be_to_be 4 (priority_word p) Hb) as Hbe.
  pose proof (length_to_be 4 (priority_word p)) as Hl. pose proof (to_be_ok 4 (priority_word p)) as Hok.
  destruct (to_be 4 (priority_word p)) as [|a [|b [|c [|d [|]]]]]; try done. cbn [app idx nth drop].
  rewrite Hbe, Hpw, land_31. rewrite !Forall_cons in Hok. destruct Hok as (Ha & Hb' & Hc & Hd' & _).
  unfold is_byte in *. rewrite be4, Hpw in Hbe.
  assert ((dependency p + (if exclusive p then 2147483648 else 0)) mod 2147483648 = dependency p) as ->
    by (destruct (exclusive p); dlia).
  replace (dependency p =? sid) with false by lia. cbn [fail_if mbind result_bind].
  change 128 with (2 ^ 7). rewrite land_bit_zero, negb_involutive by lia.
  assert (Z.testbit a 7 = exclusive p) as ->.
  { destruct (exclusive p).
    - apply testbit_top; [lia|]. change (2 ^ (7 + 1)) with 256. change (2 ^ 7) with 128. lia.
    - apply testbit_small. change (2 ^ 7) with 128. lia. }
  by destruct p.
Qed.

Definition setting_octets (s : Setting) : bytes := to_be 2 (set_id s) ++ to_be 4 (set_value s).

Lemma write_settings_octets out l :
  write_settings out l = header out (zlen l * 6) SETTINGS_TYPE 0 0 ++ mjoin (map setting_octets l).
Proof.
  unfold write_settings. generalize (header out (zlen l * 6) SETTINGS_TYPE 0 0) as o.
  induction l as [|s l IH]; intros o; cbn [foldl map]; [by rewrite app_nil_r|].
  rewrite IH. change (mjoin (setting_octets s :: map setting_octets l))
    with (setting_octets s ++ mjoin (map setting_octets l)).
  unfold setting_octets. by rewrite <- !app_assoc.
Qed.

Lemma zlen_settings l : zlen (mjoin (map setting_octets l)) = zlen l * 6.
Proof.
  induction l as [|s l IH]; [done|].
  change (mjoin (map setting_octets (s :: l))) with (setting_octets s ++ mjoin (map setting_octets l)).
  rewrite zlen_app, IH, zlen_cons. unfold setting_octets. rewrite zlen_app, !zlen_to_be. lia.
Qed.

Lemma read_settings_octets l : Forall setting_ok l → read_settings (mjoin (map setting_octets l)) = Ok l.
Proof.
  induction 1 as [|s l (Hi & Hv & Hok) Hl IH]; [done|].
  change (mjoin (map setting_octets (s :: l))) with (setting_octets s ++ mjoin (map setting_octets l)).
  unfold setting_octets at 1. pose proof (be_to_be 2 (set_id s) Hi) as Ei.
  pose proof (be_to_be 4 (set_value s) Hv) as Ev.
  pose proof (length_to_be 2 (set_id s)). pose proof (length_to_be 4 (set_value s)).
  destruct (to_be 2 (set_id s)) as [|a [|b []]]; try done.
  destruct (to_be 4 (set_value s)) as [|c [|d [|e [|f []]]]]; try done.
  cbn [app read_settings]. rewrite Ei, Ev, Hok, IH. cbn. by destruct s.
Qed.

(** The type octet of a frame and the stream its header names. *)
Definition frame_type (f : Frame) : Z :=
  match f with
  | Data _ _ _ => DATA_TYPE
  | Headers _ _ _ _ _ => HEADERS_TYPE
  | PriorityFrame _ _ => PRIORITY_TYPE
  | Reset_ _ _ => RST_STREAM_TYPE
  | Settings _ _ => SETTINGS_TYPE
  | PushPromise _ _ _ _ => PUSH_PROMISE_TYPE
  | Ping _ _ => PING_TYPE
  | GoAway _ _ _ => GOAWAY_TYPE
  | WindowUpdate _ _ => WINDOW_UPDATE_TYPE
  | Continuation _ _ _ => CONTINUATION_TYPE
  | Unknown typ _ _ _ => typ
  end.

Definition frame_stream (f : Frame) : Z :=
  match f with
  | Data sid _ _ | Headers sid _ _ _ _ | PriorityFrame sid _ | Reset_ sid _ | PushPromise sid _ _ _
  | WindowUpdate sid _ | Continuation sid _ _ | Unknown _ _ sid _ => sid
  | Settings _ _ | Ping _ _ | GoAway _ _ _ => 0
  end.

(** What a writer emitted, seen from the reader. *)
Definition wire_ok (f : Frame) : Prop :=
  ∃ flags p, write_frame [] f = header_octets (zlen p) (frame_type f) flags (frame_stream f) ++ p
  ∧ zlen p < 2 ^ 24 ∧ ∀ d, ∃ d2, parse_payload (frame_type f) flags (frame_stream f) p d = Ok (d2, f).

Lemma require_stream_ok sid : stream_ok sid → require_stream sid = Ok ().
Proof. intros [H _]. unfold require_stream. by replace (sid =? 0) with false by lia. Qed.

(** Evaluates the tests on constant flags. *)
Ltac eval_flags :=
  repeat match goal with |- context [flag ?f ?m] =>
    let v := eval vm_compute in (flag f m) in change (flag f m) with v end;
  cbn [negb mbind result_bind].

Lemma headers_wire sid es eh p block : frame_ok (Headers sid es eh p block) → wire_ok (Headers sid es eh p block).
Proof.
  intros (Hs & Hp). pose proof (zlen_nonneg block).
  exists (Z.lor (Z.lor (if es then FLAG_END_STREAM else 0) (if eh then FLAG_END_HEADERS else 0))
    (match p with Some _ => FLAG_PRIORITY | None => 0 end)),
    (match p with Some p => to_be 4 (priority_word p) ++ [weight p] | None => [] end ++ block).
  split_and!.
  - unfold write_frame, write_headers. destruct p as [p|]; cbn [Z.eqb negb].
    + rewrite !zlen_app, zlen_to_be. change (zlen [weight p]) with 1. rewrite header_out. cbn [app].
      replace (Z.of_nat 4 + 1 + zlen block) with (zlen block + 5) by lia.
      rewrite <- !app_assoc. by destruct es, eh.
    + rewrite Z.add_0_r. rewrite header_out. cbn [app]. by destruct es, eh.
  - rewrite zlen_app. destruct p as [p|]; [rewrite zlen_app, zlen_to_be; change (zlen [weight p]) with 1|
      change (zlen []) with 0]; lia.
  - intros d. change (frame_stream (Headers sid es eh p block)) with sid.
    unfold parse_payload. cbn [frame_type HEADERS_TYPE]. rewrite (require_stream_ok sid Hs).
    destruct p as [p|].
    + pose proof (payload_slice_tail (to_be 4 (priority_word p) ++ [weight p]) block) as Hsl.
      pose proof (read_priority_write sid p block (proj2 Hp)) as Hrp. rewrite <- app_assoc in *. cbn [app] in *.
      destruct es, eh; eexists; unfold take_padding; cbn [mbind result_bind]; eval_flags;
        rewrite Hrp; cbn [mbind result_bind]; rewrite Hsl; reflexivity.
    + destruct es, eh; eexists; cbn [app]; unfold take_padding; cbn [mbind result_bind]; eval_flags;
        rewrite payload_slice_whole; reflexivity.
Qed.

Lemma frame_wire f : frame_ok f → wire_ok f.
Proof.
  destruct f as [sid es data|sid es eh p block|sid p|sid c|ack l|sid eh promised block|ack p
    |last c debug|sid inc|sid eh block|]; [| apply headers_wire |..]; cbn [frame_ok].
  - intros (Hs & Hd). exists (if es then FLAG_END_STREAM else 0), data. split_and!; [done|done|].
    intros d. unfold parse_payload. cbn [frame_type DATA_TYPE frame_stream].
    rewrite (require_stream_ok sid Hs). eexists. unfold take_padding.
    destruct es; cbn [mbind result_bind]; eval_flags; rewrite payload_slice_whole; reflexivity.
  - intros (Hs & Hp). exists 0, (to_be 4 (priority_word p) ++ [weight p]).
    assert (zlen (to_be 4 (priority_word p) ++ [weight p]) = 5) as Hl by (by rewrite zlen_app, zlen_to_be).
    rewrite Hl. split_and!; [done|done|]. intros d. unfold parse_payload.
    cbn [frame_type PRIORITY_TYPE frame_stream]. rewrite (require_stream_ok sid Hs), Hl.
    pose proof (read_priority_write sid p [] Hp) as Hr. eexists. cbn. rewrite Hr. reflexivity.
  - intros (Hs & Hc). exists 0, (to_be 4 c). rewrite zlen_to_be. split_and!; [done|done|].
    intros d. unfold parse_payload. cbn [frame_type RST_STREAM_TYPE frame_stream].
    rewrite (require_stream_ok sid Hs), zlen_to_be. pose proof (read_u32_to_be c [] Hc) as Hr.
    rewrite app_nil_r in Hr. eexists. cbn. rewrite Hr. reflexivity.
  - destruct ack.
    + intros ->. exists FLAG_ACK, []. split_and!; [done|done|]. intros d. eexists. reflexivity.
    + intros (Hok & Hl). exists 0, (mjoin (map setting_octets l)). rewrite zlen_settings.
      split_and!; [by cbn [write_frame]; rewrite write_settings_octets|done|].
      intros d. unfold parse_payload. cbn [frame_type SETTINGS_TYPE frame_stream].
      rewrite zlen_settings, Z.mod_mul, read_settings_octets by done. eexists. reflexivity.
  - intros (Hs & -> & Hp & Hl). exists FLAG_END_HEADERS, (to_be 4 (Z.land promised 0x7fffffff) ++ block).
    assert (Z.land promised 0x7fffffff = promised) as Hland.
    { rewrite land_31. unfold stream_ok in Hp. change (2 ^ 31) with 2147483648 in Hp. apply Z.mod_small. lia. }
    rewrite zlen_app, zlen_to_be. split_and!; [done|lia|]. intros d. unfold parse_payload.
    cbn [frame_type PUSH_PROMISE_TYPE frame_stream]. rewrite (require_stream_ok sid Hs), Hland.
    unfold take_padding. cbn [mbind result_bind]. eval_flags. rewrite zlen_app, zlen_to_be. pose proof (zlen_nonneg block).
    rewrite (proj2 (Z.ltb_ge _ 4)) by lia. cbn [fail_if mbind result_bind].
    unfold stream_ok in Hp. assert (2 ^ 31 < 2 ^ 32) by done.
    rewrite read_u32_to_be, Hland by lia. rewrite (proj2 (Z.eqb_neq promised 0)) by lia.
    cbn [fail_if mbind result_bind].
    replace (drop 4 (to_be 4 promised ++ block)) with block
      by (symmetry; rewrite drop_app_length'; [done|by rewrite length_to_be]).
    rewrite payload_slice_tail. eexists. reflexivity.
  - intros Hp. exists (if ack then FLAG_ACK else 0), p. rewrite Hp.
    split_and!; [by destruct ack|done|]. intros d. unfold parse_payload.
    cbn [frame_type PING_TYPE frame_stream]. rewrite Hp. eexists. cbn.
    rewrite take_ge by (unfold zlen in Hp; lia). destruct ack; reflexivity.
  - intros (Hla & Hc & Hl). exists 0, (to_be 4 (Z.land last 0x7fffffff) ++ to_be 4 c ++ debug).
    assert (Z.land last 0x7fffffff = last) as Hland.
    { rewrite land_31. change (2 ^ 31) with 2147483648 in Hla. apply Z.mod_small. lia. }
    rewrite !zlen_app, !zlen_to_be. pose proof (zlen_nonneg debug).
    split_and!; [|lia|].
    { cbn [write_frame]. unfold write_goaway. rewrite header_out. cbn [app frame_type frame_stream].
      do 2 f_equal. lia. }
    intros d. unfold parse_payload. cbn [frame_type GOAWAY_TYPE frame_stream].
    rewrite !zlen_app, !zlen_to_be, (proj2 (Z.ltb_ge _ 8)) by lia. rewrite Hland.
    assert (2 ^ 31 < 2 ^ 32) by done. rewrite read_u32_to_be, Hland by lia.
    replace (drop 4 (to_be 4 last ++ to_be 4 c ++ debug)) with (to_be 4 c ++ debug)
      by (symmetry; rewrite drop_app_length'; [done|by rewrite length_to_be]).
    rewrite read_u32_to_be by done.
    replace (drop 8 (to_be 4 last ++ to_be 4 c ++ debug)) with debug
      by (symmetry; rewrite app_assoc, drop_app_length'; [done|by rewrite length_app, !length_to_be]).
    eexists. reflexivity.
  - intros (Hs & Hi). exists 0, (to_be 4 (Z.land inc 0x7fffffff)). rewrite zlen_to_be.
    assert (Z.land inc 0x7fffffff = inc) as Hland.
    { rewrite land_31. change (2 ^ 31) with 2147483648 in Hi. apply Z.mod_small. lia. }
    split_and!; [done|done|]. intros d. unfold parse_payload.
    cbn [frame_type WINDOW_UPDATE_TYPE frame_stream]. rewrite zlen_to_be, Hland.
    assert (2 ^ 31 < 2 ^ 32) by done. pose proof (read_u32_to_be inc [] ltac:(lia)) as Hr.
    rewrite app_nil_r in Hr. rewrite Hr, Hland, (proj2 (Z.eqb_neq inc 0)) by lia. eexists. reflexivity.
  - intros (Hs & Hl). exists (if eh then FLAG_END_HEADERS else 0), block. split_and!; [done|done|].
    intros d. destruct eh; eexists; reflexivity.
  - done.
Qed.

Lemma write_frame_out out f : write_frame out f = out ++ write_frame [] f.
Proof.
  assert (∀ l t fl sid p, header out l t fl sid ++ p = out ++ header [] l t fl sid ++ p) as Hh
    by (intros; rewrite header_out; by rewrite <- app_assoc).
  destruct f as [|sid es eh [p|] block| | |[]| |[]| | | |]; cbn [write_frame];
    unfold write_data, write_headers, write_priority, write_reset, write_push_promise, write_ping,
      write_ping_ack, write_settings_ack, write_goaway, write_window_update, write_continuation;
    rewrite ?write_settings_octets; try apply Hh; try done.
  - rewrite <- !app_assoc. apply Hh.
  - by rewrite app_nil_r.
Qed.

Lemma check_block_allows d f : block_allows (block_stream d) f → frame_ok f →
  check_block d (frame_type f) (frame_stream f) = Ok ().
Proof.
  intros Hb Hok. unfold check_block. destruct f as [| | | | | | | | |sid|]; cbn in Hb; rewrite Hb; try done.
  cbn [frame_type frame_stream]. by rewrite (Z.eqb_refl sid).
Qed.

Lemma frame_stream_bound f : frame_ok f → 0 ≤ frame_stream f < 2 ^ 31.
Proof. destruct f; cbn; unfold stream_ok; try lia; naive_solver lia. Qed.

Lemma next_frame_write d f rest :
  frame_ok f → block_allows (block_stream d) f →
  zlen (write_frame [] f) ≤ FRAME_HEADER_LEN + max_frame_size d →
  buf d = write_frame [] f ++ rest →
  next_frame d = (after f (MkFrameDecoder rest (max_frame_size d) (block_stream d)), Ok (Some f)).
Proof.
  intros Hok Hb Hl Hbuf. destruct (frame_wire f Hok) as (flags & p & Hw & Hp & Hparse).
  rewrite Hw in Hl, Hbuf. rewrite <- app_assoc in Hbuf.
  rewrite zlen_app in Hl. change (zlen (header_octets _ _ _ _)) with 9 in Hl.
  rewrite (next_frame_wire d _ _ _ _ _ Hp (frame_stream_bound f Hok)) by (done || (unfold FRAME_HEADER_LEN in Hl; lia)).
  set (d1 := MkFrameDecoder _ _ _).
  rewrite (proj2 (parse_frame_Ok _ _ _ _ _ (after f d1) f)); [done|].
  split; [by apply (check_block_allows d1)|]. split; [done|]. apply Hparse.
Qed.

(** ** Properties *)

(** A sequence of frames the receiver's limits and field-block discipline
    accept. *)
Fixpoint sendable (max : Z) (block : option Z) (fs : list Frame) : Prop :=
  match fs with
  | [] => True
  | f :: fs =>
      frame_ok f ∧ block_allows block f ∧ zlen (write_frame [] f) ≤ FRAME_HEADER_LEN + max
      ∧ sendable (max_after f max) (block_after f block) fs
  end.

(** The octets of a sequence of frames, written one after the other. *)
Definition write_frames (out : bytes) (fs : list Frame) : bytes := foldl write_frame out fs.

Lemma write_frames_out out fs : write_frames out fs = out ++ write_frames [] fs.
Proof.
  unfold write_frames. revert out. induction fs as [|f fs IH]; intros out; cbn [foldl].
  - by rewrite app_nil_r.
  - rewrite IH, (IH (write_frame [] f)), (write_frame_out out). by rewrite app_assoc.
Qed.

Lemma drain_write fs : ∀ d rest n,
  sendable (max_frame_size d) (block_stream d) fs → buf d = write_frames [] fs ++ rest →
  (length (buf d) < n)%nat →
  drain n d =
  let d1 := foldl (λ d f, after f d) (MkFrameDecoder rest (max_frame_size d) (block_stream d)) fs in
  let '(d2, fs2, r) := drain n d1 in (d2, fs ++ fs2, r).
Proof.
  induction fs as [|f fs IH]; intros d rest n Hs Hb Hn; cbn [foldl]; cbv zeta.
  - cbn in Hb. destruct d as [bf mx bl]. cbn in *. subst bf. by destruct (drain n _) as [[]].
  - destruct Hs as (Hok & Hbl & Hl & Hs). unfold write_frames in Hb. cbn [foldl] in Hb.
    fold (write_frames (write_frame [] f) fs) in Hb. rewrite write_frames_out, <- app_assoc in Hb.
    pose proof (next_frame_write d f _ Hok Hbl Hl Hb) as Hnext.
    pose proof (next_frame_consumes _ _ _ Hnext) as Hc. cbn [after buf] in Hc.
    destruct n as [|n]; [lia|]. rewrite drain_S, Hnext.
    set (d0 := after f _). rewrite (IH d0 rest n); [|done|done|cbn; lia].
    cbv zeta. set (d1 := foldl _ _ fs).
    assert (buf d1 = rest) as Hd1.
    { unfold d1. cbn. generalize (max_after f (max_frame_size d)), (block_after f (block_stream d)).
      clear. induction fs as [|g fs IH]; intros m o; cbn; [done|]. apply IH. }
    change (foldl (λ d f, after f d) (after f (MkFrameDecoder rest (max_frame_size d) (block_stream d))) fs)
      with d1.
    rewrite length_app in Hc.
    rewrite (drain_fuel n (S n)) by (rewrite Hd1; lia). by destruct (drain (S n) d1) as [[]].
Qed.

Lemma drain_all_write d fs :
  buf d = [] → sendable (max_frame_size d) (block_stream d) fs →
  drain_all (extend d (write_frames [] fs)) = (foldl (λ d f, after f d) d fs, fs, None).
Proof.
  intros Hd Hs. unfold drain_all. rewrite (drain_write fs _ []).
  - cbv zeta. cbn [extend max_frame_size block_stream]. rewrite <- Hd.
    replace (MkFrameDecoder _ _ _) with d by (by destruct d).
    set (d1 := foldl _ d fs). rewrite drain_S.
    assert (buf d1 = []) as Hd1.
    { unfold d1. clear -Hd. revert d Hd. induction fs as [|g fs IH]; intros d Hd; cbn; [done|].
      by apply IH. }
    unfold next_frame. rewrite Hd1. change (zlen [] <? FRAME_HEADER_LEN) with true.
    cbv beta iota. by rewrite app_nil_r.
  - done.
  - cbn. by rewrite Hd, app_nil_r.
  - lia.
Qed.

(** C25. Frames round trip: the octets the writers emit for any sequence of
    frames, of every type the code writes, that respects the receiver's
    payload limit and the field-block discipline are decoded to exactly those
    frames, leaving nothing in the buffer and the decoder's limit and open
    block as the frames set them. *)
Theorem frames_round_trip d fs :
  buf d = [] → sendable (max_frame_size d) (block_stream d) fs →
  drain_all (extend d (write_frames [] fs)) = (foldl (λ d f, after f d) d fs, fs, None).
Proof. apply drain_all_write. Qed.

Lemma frames_round_trip_witness :
  let d := new_frame_decoder 16384 in
  let fs := [Settings false [MkSetting 4 65536; MkSetting 5 20000]; Settings true [];
             Headers 3 false false (Some (MkPriority true 5 7)) [0x82]; Continuation 3 true [0x86];
             Data 3 true (b "hello"); PriorityFrame 5 (MkPriority false 3 1); Reset_ 5 8;
             PushPromise 3 true 4 [1]; Ping false (b "12345678"); GoAway 3 0 (b "bye");
             WindowUpdate 0 1000] in
  drain_all (extend d (write_frames [] fs)) = (foldl (λ d f, after f d) d fs, fs, None).
Proof.
  apply (frames_round_trip (new_frame_decoder 16384)); [done|].
  repeat split; cbn; try done; try lia; repeat constructor; cbn; try lia; done.
Defined.

(** How the transport splits the octets does not matter: draining the
    decoder after every chunk read gives the same frames, the same error and
    (without one) the same decoder as draining once after all of them. *)
Theorem chunking_irrelevant d chunks :
  next_frame d = (d, Ok None) →
  let '(d1, fs1, r1) := feed d chunks in
  let '(d2, fs2, r2) := drain_all (extend d (mjoin chunks)) in
  fs1 = fs2 ∧ r1 = r2 ∧ (r1 = None → d1 = d2).
Proof. apply feed_drain. Qed.

Lemma chunking_irrelevant_witness :
  let '(d1, fs1, r1) := feed (new_frame_decoder 16384) [[0; 0]; [8; 6; 0]; [0; 0; 0; 0; 1; 2; 3]; [4; 5; 6; 7; 8; 0]] in
  let '(d2, fs2, r2) := drain_all (extend (new_frame_decoder 16384)
    (mjoin [[0; 0]; [8; 6; 0]; [0; 0; 0; 0; 1; 2; 3]; [4; 5; 6; 7; 8; 0]])) in
  fs1 = fs2 ∧ r1 = r2 ∧ (r1 = None → d1 = d2).
Proof. apply (chunking_irrelevant (new_frame_decoder 16384)). vm_compute. reflexivity. Defined.

(** ** Field blocks *)

(** The CONTINUATION frames of the rest of a block. *)
Fixpoint continuations (fuel : nat) (capacity sid : Z) (rest : bytes) : list Frame :=
  match fuel with
  | O => []
  | S fuel =>
      if capacity <? zlen rest
      then Continuation sid false (take (Z.to_nat capacity) rest)
           :: continuations fuel capacity sid (drop (Z.to_nat capacity) rest)
      else [Continuation sid true rest]
  end.

(** The fragments of a list of frames put together, as the connection does. *)
Definition fragment (f : Frame) : bytes :=
  match f with
  | Headers _ _ _ _ block | Continuation _ _ block | PushPromise _ _ _ block => block
  | _ => []
  end.

Definition reassemble (fs : list Frame) : bytes := mjoin (map fragment fs).

Lemma write_rest_total fuel capacity out sid rest :
  0 < capacity → (length rest < fuel)%nat →
  write_rest fuel capacity out sid rest
  = Some (write_frames out (continuations fuel capacity sid rest)).
Proof.
  intros Hc. revert out rest. induction fuel as [|fuel IH]; intros out rest Hf; [lia|].
  cbn [write_rest continuations]. destruct (Z.ltb_spec capacity (zlen rest)); [|done].
  rewrite IH; [done|]. rewrite length_drop. unfold zlen in *. lia.
Qed.

Lemma write_field_block_total capacity out sid end_stream block :
  0 < capacity → is_Some (write_field_block capacity out sid end_stream block).
Proof.
  intros Hc. unfold write_field_block. destruct (zlen block <=? capacity); [by eexists|].
  rewrite write_rest_total by (rewrite ?length_drop; lia). by eexists.
Qed.

Lemma continuations_sendable fuel capacity sid rest max :
  0 < capacity ≤ max → capacity < 2 ^ 24 → stream_ok sid → (length rest < fuel)%nat →
  let fs := continuations fuel capacity sid rest in
  sendable max (Some sid) fs ∧ reassemble fs = rest
  ∧ Forall (λ f, ∃ eh frag, f = Continuation sid eh frag ∧ zlen frag ≤ capacity) fs
  ∧ ∀ d, foldl (λ d f, after f d) d fs = MkFrameDecoder (buf d) (max_frame_size d) None.
Proof.
  intros Hc Hc24 Hs. cbv zeta. revert rest. induction fuel as [|fuel IH]; intros rest Hf; [lia|].
  cbn [continuations]. destruct (Z.ltb_spec capacity (zlen rest)) as [Hlt|Hge].
  - set (frag := take (Z.to_nat capacity) rest).
    assert (zlen frag = capacity) as Hfr by (unfold frag, zlen in *; rewrite length_take; lia).
    destruct (IH (drop (Z.to_nat capacity) rest)) as (H1 & H2 & H3 & H4);
      [rewrite length_drop; unfold zlen in *; lia|].
    split_and!.
    + cbn [sendable]. split; [split; [done|change (2 ^ 24) with 16777216 in *; lia]|]. split; [done|]. split; [|done].
      cbn [write_frame]. unfold write_continuation. rewrite zlen_app.
      change (zlen (header [] _ _ _ _)) with 9. unfold FRAME_HEADER_LEN. lia.
    + unfold reassemble in *. cbn [map fragment].
      change (mjoin (frag :: ?l)) with (frag ++ mjoin l). rewrite H2. apply take_drop.
    + constructor; [|done]. exists false, frag. split; [done|lia].
    + intros d. cbn [foldl]. by rewrite H4.
  - split_and!.
    + cbn [sendable]. split; [split; [done|change (2 ^ 24) with 16777216 in *; lia]|]. split; [done|]. split; [|done].
      cbn [write_frame]. unfold write_continuation. rewrite zlen_app.
      change (zlen (header [] _ _ _ _)) with 9. unfold FRAME_HEADER_LEN. lia.
    + unfold reassemble. cbn. apply app_nil_r.
    + constructor; [|done]. by exists true, rest.
    + done.
Qed.

(** A field block of any length survives its split: for a positive frame
    size limit that the receiver accepts, [write_field_block] terminates and
    emits one HEADERS frame and CONTINUATION frames of the same stream, each
    with a fragment within the limit; the receiver decodes exactly those
    frames, their fragments put together are the block, and no field block is
    left open. *)
Theorem field_block_round_trip d capacity out sid end_stream block :
  0 < capacity ≤ max_frame_size d → capacity < 2 ^ 24 → stream_ok sid →
  buf d = [] → block_stream d = None →
  ∃ wire end_headers first fs,
    write_field_block capacity out sid end_stream block = Some (out ++ wire)
    ∧ zlen first ≤ capacity
    ∧ Forall (λ f, ∃ eh frag, f = Continuation sid eh frag ∧ zlen frag ≤ capacity) fs
    ∧ let frames := Headers sid end_stream end_headers None first :: fs in
      reassemble frames = block
      ∧ drain_all (extend d wire) = (MkFrameDecoder [] (max_frame_size d) None, frames, None).
Proof.
  intros Hc Hc24 Hs Hb Hbl. unfold write_field_block.
  destruct (Z.leb_spec (zlen block) capacity) as [Hle|Hgt].
  - exists (write_frames [] [Headers sid end_stream true None block]), true, block, [].
    split_and!; [by rewrite <- write_frames_out|done|done|unfold reassemble; cbn; apply app_nil_r|].
    rewrite drain_all_write; [cbn; destruct d; cbn in *; by subst|done|].
    rewrite Hbl. cbn [sendable write_frame]. unfold write_headers. rewrite !zlen_app.
    change (zlen (header [] _ _ _ _)) with 9. split_and!; try done; [split; [done|lia]|].
    unfold FRAME_HEADER_LEN. lia.
  - set (first := take (Z.to_nat capacity) block). set (rest := drop (Z.to_nat capacity) block).
    assert (zlen first = capacity) as Hfr by (unfold first, zlen in *; rewrite length_take; lia).
    assert (length rest < S (length block))%nat as Hlr by (unfold rest; rewrite length_drop; lia).
    destruct (continuations_sendable _ capacity sid rest (max_frame_size d) Hc Hc24 Hs Hlr)
      as (H1 & H2 & H3 & H4). cbv zeta in *. set (fs := continuations _ capacity sid rest) in *.
    exists (write_frames [] (Headers sid end_stream false None first :: fs)), false, first, fs.
    split_and!; [|lia|done| |].
    + rewrite write_rest_total by (done || lia). fold fs. f_equal.
      by rewrite <- write_frames_out.
    + unfold reassemble in *. cbn [map fragment]. change (mjoin (first :: ?l)) with (first ++ mjoin l).
      rewrite H2. apply take_drop.
    + rewrite drain_all_write; [|done|].
      * cbn [foldl]. rewrite H4. cbn. by rewrite Hb.
      * rewrite Hbl. cbn [sendable write_frame]. unfold write_headers. rewrite !zlen_app.
        change (zlen (header [] _ _ _ _)) with 9. split_and!; try done; [split; [done|lia]|].
        unfold FRAME_HEADER_LEN. lia.
Qed.

Lemma field_block_round_trip_witness :
  ∃ wire end_headers first fs,
    write_field_block 2 [9] 3 true [1; 2; 3; 4; 5] = Some ([9] ++ wire)
    ∧ zlen first ≤ 2
    ∧ Forall (λ f, ∃ eh frag, f = Continuation 3 eh frag ∧ zlen frag ≤ 2) fs
    ∧ let frames := Headers 3 true end_headers None first :: fs in
      reassemble frames = [1; 2; 3; 4; 5]
      ∧ drain_all (extend (new_frame_decoder 16384) wire) = (MkFrameDecoder [] 16384 None, frames, None).
Proof. by apply (field_block_round_trip (new_frame_decoder 16384) 2 [9] 3 true [1; 2; 3; 4; 5]). Defined.

(** ** What the decoder guarantees *)

(** The octets a frame carries. *)
Definition carried (f : Frame) : bytes :=
  match f with
  | Data _ _ p | Headers _ _ _ _ p | PushPromise _ _ _ p | Ping _ p | GoAway _ _ p
  | Continuation _ _ p | Unknown _ _ _ p => p
  | PriorityFrame _ _ | Reset_ _ _ | Settings _ _ | WindowUpdate _ _ => []
  end.

(** The values the connection layer may rely on. *)
Definition frame_valid (f : Frame) : Prop :=
  match f with
  | Data sid _ _ => stream_ok sid
  | Headers sid _ _ p _ => stream_ok sid ∧ match p with Some p => priority_ok sid p | None => True end
  | PriorityFrame sid p => stream_ok sid ∧ priority_ok sid p
  | Reset_ sid c => stream_ok sid ∧ 0 ≤ c < 2 ^ 32
  | Settings ack l => Forall setting_ok l ∧ (ack = true → l = [])
  | PushPromise sid _ promised _ => stream_ok sid ∧ stream_ok promised
  | Ping _ p => zlen p = 8
  | GoAway last c _ => 0 ≤ last < 2 ^ 31 ∧ 0 ≤ c < 2 ^ 32
  | WindowUpdate sid inc => 0 ≤ sid < 2 ^ 31 ∧ 0 < inc < 2 ^ 31
  | Continuation sid _ _ => 0 ≤ sid < 2 ^ 31
  | Unknown typ _ sid _ => 9 < typ < 256 ∧ 0 ≤ sid < 2 ^ 31
  end.

Lemma payload_slice_mid pre q padding : payload_slice (pre ++ q ++ padding) q (zlen padding) = q.
Proof.
  unfold payload_slice. rewrite !zlen_app.
  replace (zlen pre + (zlen q + zlen padding) - zlen padding - zlen q) with (zlen pre) by lia.
  by rewrite zslice_app.
Qed.

Lemma take_padding_Ok p padded pad q :
  take_padding p padded = Ok (pad, q) → bytes_ok p → ∃ pre padding, p = pre ++ q ++ padding ∧ pad = zlen padding.
Proof.
  unfold take_padding. destruct padded; cbn [negb].
  - intros H Hp. apply bind_Ok in H as (n & Hn & H). apply ok_or_Ok in Hn.
    apply bind_Ok in H as ([] & Hl & H). apply fail_if_Ok in Hl. injection H as <- <-.
    destruct p as [|x p]; [done|]. injection Hn as ->. apply Forall_cons in Hp as [Hx _].
    unfold is_byte in Hx. rewrite zlen_cons in *. cbn [drop]. set (k := Z.to_nat _).
    exists [n], (drop k p). cbn. rewrite take_drop. split; [done|].
    unfold zlen in *. rewrite length_drop. lia.
  - intros [= <- <-] _. exists [], []. by rewrite app_nil_r.
Qed.

Lemma read_u32_bound p : bytes_ok p → 0 ≤ read_u32 p < 2 ^ 32.
Proof.
  intros H. unfold read_u32. apply (be_bound [_; _; _; _]).
  assert (∀ i, is_byte (idx p i)) as Hi; [|by rewrite !Forall_cons].
  intros i. unfold idx. destruct (nth_in_or_default i p 0) as [Hin| ->]; [|unfold is_byte; lia].
  rewrite Forall_forall in H. apply H. by apply list_elem_of_In.
Qed.

Lemma read_priority_Ok p sid pr q :
  read_priority p sid = Ok (pr, q) → bytes_ok p → priority_ok sid pr ∧ ∃ pre, p = pre ++ q.
Proof.
  unfold read_priority. intros H Hp. apply bind_Ok in H as ([] & Hl & H). apply fail_if_Ok in Hl.
  apply bind_Ok in H as ([] & Hd & H). apply fail_if_Ok in Hd. injection H as <- <-.
  fold (read_u32 p) in *. split; [|exists (take 5 p); by rewrite take_drop].
  unfold priority_ok. cbn [dependency weight]. rewrite land_31 in *.
  change (2 ^ 31) with 2147483648. split_and!; [dlia|dlia|lia|].
  unfold idx. destruct (nth_in_or_default 4 p 0) as [Hin| ->]; [|unfold is_byte; lia].
  rewrite Forall_forall in Hp. apply Hp. by apply list_elem_of_In.
Qed.

Lemma read_settings_Ok n : ∀ p l, (length p ≤ n)%nat → read_settings p = Ok l → bytes_ok p → Forall setting_ok l.
Proof.
  induction n as [|n IH]; intros p l Hn H Hp.
  - destruct p; [|cbn in Hn; lia]. by injection H as <-.
  - destruct p as [|b0 [|b1 [|b2 [|b3 [|b4 [|b5 p]]]]]]; try (by injection H as <-).
    cbn [read_settings] in H. apply bind_Ok in H as ([] & Hv & H). apply bind_Ok in H as (l' & Hl & H).
    injection H as <-. rewrite !Forall_cons in Hp. destruct Hp as (H0 & H1 & H2 & H3 & H4 & H5 & Hp).
    constructor; [|apply (IH p); [cbn in Hn; lia|done|done]].
    split; [apply (be_bound [b0; b1]); by rewrite !Forall_cons|].
    split; [apply (be_bound [b2; b3; b4; b5]); by rewrite !Forall_cons|done].
Qed.

Lemma require_stream_Ok sid u : 0 ≤ sid < 2 ^ 31 → require_stream sid = Ok u → stream_ok sid.
Proof. unfold require_stream, stream_ok. destruct (Z.eqb_spec sid 0); [done|lia]. Qed.

Lemma parse_payload_valid typ flags sid p d d' f :
  bytes_ok p → 0 ≤ sid < 2 ^ 31 → is_byte typ →
  parse_payload typ flags sid p d = Ok (d', f) →
  frame_valid f ∧ frame_type f = typ ∧ frame_stream f = sid ∧ carried f `sublist_of` p.
Proof.
  intros Hp Hs Ht H. assert (Ht' := Ht). unfold is_byte in Ht'.
  assert (∀ pre q padding, p = pre ++ q ++ padding → q `sublist_of` p) as Hsub.
  { intros pre q padding ->. by apply sublist_inserts_l, sublist_inserts_r. }
  assert (typ = 0 ∨ typ = 1 ∨ typ = 2 ∨ typ = 3 ∨ typ = 4 ∨ typ = 5 ∨ typ = 6 ∨ typ = 7 ∨ typ = 8
    ∨ typ = 9 ∨ 9 < typ) as Hcase by lia.
  unfold parse_payload in H.
  destruct Hcase as [-> |[-> |[-> |[-> |[-> |[-> |[-> |[-> |[-> |[-> |Hu]]]]]]]]]].
  - apply bind_Ok in H as (u & Hr & H). apply require_stream_Ok in Hr; [|done].
    apply bind_Ok in H as ([pad q] & Hq & H). injection H as <- <-.
    apply take_padding_Ok in Hq as (pre & padding & E & ->); [|done].
    split_and!; [done..|]. cbn [carried]. rewrite E at 1. rewrite payload_slice_mid. by eapply Hsub.
  - apply bind_Ok in H as (u & Hr & H). apply require_stream_Ok in Hr; [|done].
    apply bind_Ok in H as ([pad q] & Hq & H). apply bind_Ok in H as ([pr q2] & Hq2 & H).
    injection H as <- <-. apply take_padding_Ok in Hq as (pre & padding & E & ->); [|done].
    assert (bytes_ok q) as Hqok by (rewrite E in Hp; rewrite !Forall_app in Hp; apply Hp).
    assert (match pr with Some pr => priority_ok sid pr | None => True end ∧ ∃ pre2, q = pre2 ++ q2) as [Hpr [pre2 E2]].
    { destruct (flag flags FLAG_PRIORITY).
      - apply bind_Ok in Hq2 as ([pr' q'] & Hrp & Hq2). injection Hq2 as <- <-.
        by apply read_priority_Ok in Hrp.
      - injection Hq2 as <- <-. split; [done|by exists []]. }
    rewrite E2, <- app_assoc, app_assoc in E.
    split_and!; [done..|]. cbn [carried]. rewrite E at 1. rewrite payload_slice_mid. by eapply Hsub.
  - apply bind_Ok in H as (u & Hr & H). apply require_stream_Ok in Hr; [|done].
    apply bind_Ok in H as (u' & _ & H). apply bind_Ok in H as ([pr q] & Hq & H). injection H as <- <-.
    apply read_priority_Ok in Hq as [Hq _]; [|done]. split_and!; [done..|apply sublist_nil_l].
  - apply bind_Ok in H as (u & Hr & H). apply require_stream_Ok in Hr; [|done].
    apply bind_Ok in H as (u' & _ & H). injection H as <- <-.
    split_and!; [split; [done|by apply read_u32_bound]|done..|apply sublist_nil_l].
  - apply bind_Ok in H as (u & Hs0 & H). apply fail_if_Ok in Hs0.
    apply bind_Ok in H as (u' & Hack & H). apply fail_if_Ok in Hack.
    apply bind_Ok in H as (u'' & _ & H). apply bind_Ok in H as (l & Hl & H). injection H as <- <-.
    split_and!; [split|done|cbn; lia|apply sublist_nil_l].
    + by eapply read_settings_Ok.
    + intros Ha. rewrite Ha in Hack. cbn in Hack. destruct p; [by injection Hl as <-|done].
  - apply bind_Ok in H as (u1 & Hr & H). apply require_stream_Ok in Hr; [|done].
    apply bind_Ok in H as ([pad q] & Hq & H). apply bind_Ok in H as (u2 & _ & H).
    apply bind_Ok in H as (u3 & Hpr & H). apply fail_if_Ok in Hpr. injection H as <- <-.
    apply take_padding_Ok in Hq as (pre & padding & E & ->); [|done].
    rewrite land_31 in *. split_and!; [split; [done|split; [dlia|change (2 ^ 31) with 2147483648; dlia]]|done..|].
    rewrite <- (take_drop 4 q), <- app_assoc, app_assoc in E. cbn [carried]. rewrite E at 1.
    rewrite payload_slice_mid. by eapply Hsub.
  - apply bind_Ok in H as (u & Hs0 & H). apply fail_if_Ok in Hs0.
    apply bind_Ok in H as (u' & Hl & H). apply fail_if_Ok in Hl. injection H as <- <-.
    split_and!; [|done|cbn; lia|apply sublist_take]. cbn. unfold zlen in *. rewrite length_take. lia.
  - apply bind_Ok in H as (u & Hs0 & H). apply fail_if_Ok in Hs0.
    apply bind_Ok in H as (u' & Hl & H). injection H as <- <-.
    split_and!; [|done|cbn; lia|apply sublist_drop]. split; [rewrite land_31; change (2 ^ 31) with 2147483648; dlia|].
    apply read_u32_bound. by apply Forall_drop.
  - apply bind_Ok in H as (u & _ & H). apply bind_Ok in H as (u' & Hi & H). apply fail_if_Ok in Hi.
    injection H as <- <-. rewrite land_31 in *.
    split_and!; [split; [done|change (2 ^ 31) with 2147483648; dlia]|done..|apply sublist_nil_l].
  - injection H as <- <-. done.
  - repeat (case_match; try lia); injection H as <- <-; (split; [split; [lia|done]|done]).
Qed.

Definition max_ok (max : Z) : Prop := DEFAULT_MAX_FRAME_SIZE ≤ max ≤ MAX_FRAME_SIZE_LIMIT.

Lemma last_max_ok l max : Forall setting_ok l → max_ok max → max_ok (last_max l max).
Proof.
  unfold last_max. intros Hl. revert max. induction Hl as [|s l (_ & _ & Hs) Hl IH]; intros max Hm; [done|].
  cbn [foldl]. apply IH. destruct (Z.eqb_spec (set_id s) 5) as [E|]; [|done].
  rewrite E in Hs. cbn in Hs. apply fail_if_Ok in Hs. unfold max_ok. lia.
Qed.

Lemma next_frame_safe d d' f :
  bytes_ok (buf d) → max_ok (max_frame_size d) → next_frame d = (d', Ok (Some f)) →
  frame_valid f ∧ block_allows (block_stream d) f
  ∧ block_stream d' = block_after f (block_stream d)
  ∧ (∃ hd payload, buf d = hd ++ payload ++ buf d' ∧ zlen hd = FRAME_HEADER_LEN
      ∧ zlen payload ≤ max_frame_size d ∧ carried f `sublist_of` payload)
  ∧ max_frame_size d' = max_after f (max_frame_size d) ∧ max_ok (max_frame_size d').
Proof.
  intros Hb Hm. unfold next_frame.
  destruct (Z.ltb_spec (zlen (buf d)) FRAME_HEADER_LEN) as [|H9]; [done|]. unfold FRAME_HEADER_LEN in *.
  set (pl := be [0; _; _; _]). destruct (Z.ltb_spec (max_frame_size d) pl); [done|].
  destruct (Z.ltb_spec (zlen (buf d)) (9 + pl)) as [|Hl]; [done|].
  change (Z.to_nat 9) with 9%nat.
  set (payload := take (Z.to_nat pl) (drop 9 (buf d))).
  destruct (parse_frame _ _ _ _ _) as [d2 [f2|e]] eqn:E; [|done]. intros [= <- <-].
  apply parse_frame_Ok in E as (Hc & -> & d3 & Hp).
  assert (∀ i, is_byte (idx (buf d) i)) as Hidx.
  { intros i. unfold idx. destruct (nth_in_or_default i (buf d) 0) as [Hin| ->]; [|unfold is_byte; lia].
    rewrite Forall_forall in Hb. apply Hb. by apply list_elem_of_In. }
  assert (bytes_ok payload) as Hpok by (by apply Forall_take, Forall_drop).
  assert (0 ≤ pl) as Hpl by (apply (be_bound [_; _; _; _]); rewrite !Forall_cons; split; [unfold is_byte; lia|done]).
  pose proof Hp as Hv. apply parse_payload_valid in Hv as (Hv & Hty & Hst & Hsub); [|done| |apply Hidx].
  2:{ rewrite land_31. change (2 ^ 31) with 2147483648. dlia. }
  cbn [after block_stream max_frame_size buf].
  split; [done|]. split.
  { unfold check_block in Hc. cbn [block_stream] in Hc. rewrite <- Hty, <- Hst in Hc.
    destruct (block_stream d) as [o|]; destruct f2; cbn in Hc |- *; try done.
    - destruct (Z.eqb_spec stream_id o); [by subst|done].
    - cbn in Hv. unfold CONTINUATION_TYPE in Hc. replace (typ =? 9) with false in Hc by lia. done. }
  split; [done|]. split.
  { exists (take 9 (buf d)), payload. unfold payload. rewrite app_assoc, <- (app_assoc (take 9 (buf d))), !take_drop.
    split; [done|]. unfold zlen in *. rewrite !length_take, length_drop. split_and!; [lia|lia|done]. }
  split; [done|]. unfold max_after. destruct f2 as [| | | |[]| | | | | |]; try done. cbn in Hv.
  by apply last_max_ok; [apply Hv|].
Qed.

(** The buffer and the limit stay valid whatever the outcome. *)
Lemma next_frame_buffer d :
  bytes_ok (buf d) → max_ok (max_frame_size d) →
  bytes_ok (buf (next_frame d).1) ∧ max_ok (max_frame_size (next_frame d).1).
Proof.
  intros Hb Hm. pose proof (next_frame_safe d) as Hs. unfold next_frame in *.
  destruct (zlen (buf d) <? FRAME_HEADER_LEN); [done|].
  destruct (max_frame_size d <? _); [done|]. destruct (zlen (buf d) <? _); [done|].
  set (d1 := MkFrameDecoder _ _ _) in *.
  destruct (parse_frame _ _ _ _ d1) as [d2 [f|e]] eqn:E.
  - destruct (Hs d2 f Hb Hm eq_refl) as (_ & _ & _ & (hd & payload & Hbuf & _) & _ & ?). split; [|done].
    rewrite Hbuf in Hb. rewrite !Forall_app in Hb. apply Hb.
  - assert (d2 = d1) as ->.
    { unfold parse_frame in E. destruct (_ ≫= _) as [[]|]; [done|]. by injection E. }
    split; [|done]. by apply Forall_drop, Forall_drop.
Qed.

(** C26. What the connection may rely on: on any octets received, a frame the
    decoder returns has a valid stream identifier for its type, in-range
    fields, validated settings and a positive window increment; it respects
    the field-block discipline (while a block is open only CONTINUATION of its
    stream is returned, and CONTINUATION only then); its octets are part of a
    payload within the limit, taken off the front of the buffer; and the limit
    stays within the protocol's bounds. *)
Theorem decoded_frame_safe d d' f :
  bytes_ok (buf d) → max_ok (max_frame_size d) → next_frame d = (d', Ok (Some f)) →
  frame_valid f ∧ block_allows (block_stream d) f
  ∧ block_stream d' = block_after f (block_stream d)
  ∧ (∃ hd payload, buf d = hd ++ payload ++ buf d' ∧ zlen hd = FRAME_HEADER_LEN
      ∧ zlen payload ≤ max_frame_size d ∧ carried f `sublist_of` payload)
  ∧ max_frame_size d' = max_after f (max_frame_size d) ∧ max_ok (max_frame_size d').
Proof. apply next_frame_safe. Qed.

Lemma decoded_frame_safe_witness :
  let d := extend (new_frame_decoder 16384) [0; 0; 4; 8; 0; 128; 0; 0; 1; 0; 0; 1; 0; 7] in
  let d' := MkFrameDecoder [7] 16384 None in let f := WindowUpdate 1 256 in
  frame_valid f ∧ block_allows (block_stream d) f
  ∧ block_stream d' = block_after f (block_stream d)
  ∧ (∃ hd payload, buf d = hd ++ payload ++ buf d' ∧ zlen hd = FRAME_HEADER_LEN
      ∧ zlen payload ≤ max_frame_size d ∧ carried f `sublist_of` payload)
  ∧ max_frame_size d' = max_after f (max_frame_size d) ∧ max_ok (max_frame_size d').
Proof.
  apply (decoded_frame_safe (extend (new_frame_decoder 16384) [0; 0; 4; 8; 0; 128; 0; 0; 1; 0; 0; 1; 0; 7]));
    [solve_bytes|done|vm_compute; reflexivity].
Defined.
