(* ===== verification/H2Wire.v ===== *)
(** * Well-formed output

    [framed] octets are a sequence of frames a peer must accept: each within
    the values and sizes the protocol allows, field blocks contiguous and
    closed.  [writes] is what every write of the connection satisfies. *)

From S2P Require Import Prelude Integer HpackTable Hpack H2Error H2Codec.

(** The frames may follow while field block [block] is open, and leave none
    open. *)
Fixpoint disciplined (block : option Z) (fs : list Frame) : Prop :=
  match fs with
  | [] => block = None
  | f :: fs => block_allows block f ∧ disciplined (block_after f block) fs
  end.

Definition framed (octets : bytes) : Prop :=
  ∃ fs, octets = write_frames [] fs ∧ Forall frame_ok fs ∧ disciplined None fs.

Definition writes (w : bytes → bytes) : Prop :=
  ∀ out, ∃ fs, w out = write_frames out fs ∧ Forall frame_ok fs ∧ disciplined None fs.

Lemma disciplined_app block fs fs' : disciplined block fs → disciplined None fs' → disciplined block (fs ++ fs').
Proof. revert block. induction fs as [|f fs IH]; intros block H H'; cbn in *; [by subst|naive_solver]. Qed.

Lemma framed_nil : framed []. Proof. by exists []. Qed.

Lemma framed_writes pre out w : writes w → framed (pre ++ out) → framed (pre ++ w out).
Proof.
  intros Hw (fs & E & H1 & H2). destruct (Hw out) as (fs' & -> & H1' & H2').
  exists (fs ++ fs'). rewrite write_frames_out, app_assoc, E. split.
  - rewrite <- write_frames_out. unfold write_frames. by rewrite foldl_app.
  - split; [by apply Forall_app|by apply disciplined_app].
Qed.

(** One frame that opens no field block. *)
Lemma writes_one f : frame_ok f → block_allows None f → block_after f None = None → writes (λ out, write_frame out f).
Proof. intros H1 H2 H3 out. exists [f]. split; [done|]. split; [by constructor|]. by split. Qed.

Lemma code_u32 r : 0 ≤ code r < 2 ^ 32.
Proof. by destruct r. Qed.

Lemma writes_reset sid c : stream_ok sid → 0 ≤ c < 2 ^ 32 → writes (λ out, write_reset out sid c).
Proof. intros. by apply (writes_one (Reset_ sid c)). Qed.
Lemma writes_reset_code sid r : stream_ok sid → writes (λ out, write_reset out sid (code r)).
Proof. intros. apply writes_reset; [done|apply code_u32]. Qed.
Lemma writes_goaway last r debug :
  0 ≤ last < 2 ^ 31 → zlen debug < 2 ^ 16 → writes (λ out, write_goaway out last (code r) debug).
Proof.
  intros H Hd. apply (writes_one (GoAway last (code r) debug)); [|done..]. split; [done|]. split; [apply code_u32|].
  change (2 ^ 16) with 65536 in Hd. change (2 ^ 24) with 16777216. lia.
Qed.
Lemma writes_data sid es data : stream_ok sid → zlen data < 2 ^ 24 → writes (λ out, write_data out sid es data).
Proof. intros. by apply (writes_one (Data sid es data)). Qed.
Lemma writes_window_update sid inc :
  0 ≤ sid < 2 ^ 31 → 0 < inc < 2 ^ 31 → writes (λ out, write_window_update out sid inc).
Proof. intros. by apply (writes_one (WindowUpdate sid inc)). Qed.
Lemma writes_ping_ack p : zlen p = 8 → writes (λ out, write_ping_ack out p).
Proof. intros. by apply (writes_one (Ping true p)). Qed.
Lemma writes_settings_ack : writes write_settings_ack.
Proof. by apply (writes_one (Settings true [])). Qed.
Lemma writes_settings l : Forall setting_ok l → zlen l * 6 < 2 ^ 24 → writes (λ out, write_settings out l).
Proof. intros. by apply (writes_one (Settings false l)). Qed.

Lemma sendable_disciplined max block fs :
  sendable max block fs → foldl (λ b f, block_after f b) block fs = None → Forall frame_ok fs ∧ disciplined block fs.
Proof.
  revert max block. induction fs as [|f fs IH]; intros max block H Hb; [by split|]. cbn in *.
  destruct H as (H1 & H2 & _ & H). destruct (IH _ _ H Hb) as [H3 H4]. split; [by constructor|by split].
Qed.

(** A field block of any length is one HEADERS frame and its CONTINUATIONs. *)
Lemma writes_field_block capacity sid es block :
  max_ok capacity → stream_ok sid →
  writes (λ out, default out (write_field_block capacity out sid es block)).
Proof.
  intros [Hc Hl] Hs out. unfold DEFAULT_MAX_FRAME_SIZE, MAX_FRAME_SIZE_LIMIT in *.
  unfold write_field_block. destruct (Z.leb_spec (zlen block) capacity) as [Hle|Hgt].
  - exists [Headers sid es true None block]. split; [done|]. split; [|done]. constructor; [|done].
    split; [done|]. change (2 ^ 24) with 16777216. lia.
  - set (first := take _ block). set (rest := drop _ block).
    assert (length rest < S (length block))%nat as Hlr by (unfold rest; rewrite length_drop; lia).
    destruct (continuations_sendable (S (length block)) capacity sid rest capacity)
      as (H1 & _ & _ & H4); [lia|change (2 ^ 24) with 16777216; lia|done|done|]. cbv zeta in *.
    set (fs := continuations _ _ _ _) in *. rewrite write_rest_total by (done || lia). fold fs.
    exists (Headers sid es false None first :: fs). split; [done|].
    assert (foldl (λ b f, block_after f b) (Some sid) fs = None) as Hblk.
    { assert (∀ l d, block_stream (foldl (λ d f, after f d) d l) = foldl (λ b f, block_after f b) (block_stream d) l) as Hf.
      { induction l as [|f l IH]; intros d; [done|]. cbn. by rewrite IH. }
      specialize (Hf fs (MkFrameDecoder [] 0 (Some sid))). rewrite (H4 (MkFrameDecoder [] 0 (Some sid))) in Hf.
      symmetry. exact Hf. }
    destruct (sendable_disciplined _ _ _ H1 Hblk) as [H2 H3]. split; [|by split]. constructor; [|done].
    split; [done|]. unfold first. change (2 ^ 24) with 16777216. unfold zlen in *. rewrite length_take. lia.
Qed.

Create HintDb wire.
#[export] Hint Resolve writes_reset writes_reset_code writes_goaway writes_data writes_window_update writes_ping_ack
  writes_settings_ack writes_field_block : wire.
