(* ===== verification/H2Request.v ===== *)
(** * HTTP/2 request and trailer field blocks (src/src/h2/stream/mod.rs)

    [parse_request], [parse_trailers], [parse_content_length] and
    [te_is_trailers] over a decoded field list.  The types of the [http]
    crate are the parameters of the class [Http]. *)

From S2P Require Import Prelude HpackTable.

(** ** The [http] crate

    What the code calls of it.  Names and values are built from octets or
    refused; a [HeaderMap] is extended by [append]. *)
Class Http : Type := {
  HeaderName : Type;
  HeaderValue : Type;
  HeaderMap : Type;
  Method : Type;
  Uri : Type;
  (** [HeaderName::from_bytes], [HeaderValue::from_maybe_shared]. *)
  header_name_from_bytes : bytes → option HeaderName;
  header_value_from : bytes → option HeaderValue;
  (** [HeaderMap::new], [append], and [get(EXPECT)] with [to_str]. *)
  header_map_new : HeaderMap;
  header_map_append : HeaderMap → HeaderName → HeaderValue → HeaderMap;
  header_map_expect : HeaderMap → option bytes;
  (** [Method::from_bytes], [Uri::try_from(octets)], [Uri::try_from(path)] and
      [Uri::builder().scheme(s)[.authority(a)].path_and_query(p).build()]. *)
  method_from_bytes : bytes → option Method;
  uri_from_bytes : bytes → option Uri;
  uri_from_path : bytes → option Uri;
  uri_build : bytes → option bytes → bytes → option Uri;
}.

Inductive MalformedRequest : Type := Malformed.

#[global] Instance MalformedRequest_eq_dec : EqDecision MalformedRequest.
Proof. solve_decision. Defined.

Abbreviation parse := (result MalformedRequest).

(** ** Strings *)

Definition is_ascii_digit (x : byte) : bool := (48 <=? x) && (x <=? 57).
Definition is_ascii_uppercase (x : byte) : bool := (65 <=? x) && (x <=? 90).
Definition to_ascii_lowercase (x : byte) : byte := if is_ascii_uppercase x then x + 32 else x.

(** [a.eq_ignore_ascii_case(b)]. *)
Definition eq_ignore_ascii_case (l k : bytes) : bool :=
  bool_decide (map to_ascii_lowercase l = map to_ascii_lowercase k).

Definition in_range (lo hi x : Z) : bool := (lo <=? x) && (x <=? hi).

(** [str::from_utf8(v).is_ok()]: the well-formed sequences of the standard. *)
Fixpoint from_utf8 (v : bytes) : bool :=
  match v with
  | [] => true
  | a :: v =>
      if in_range 0x00 0x7f a then from_utf8 v
      else match v with
      | b :: v =>
          if in_range 0xc2 0xdf a && in_range 0x80 0xbf b then from_utf8 v
          else match v with
          | c :: v =>
              if (((a =? 0xe0) && in_range 0xa0 0xbf b)
                  || (in_range 0xe1 0xec a && in_range 0x80 0xbf b)
                  || ((a =? 0xed) && in_range 0x80 0x9f b)
                  || (in_range 0xee 0xef a && in_range 0x80 0xbf b)) && in_range 0x80 0xbf c
              then from_utf8 v
              else match v with
              | d :: v =>
                  (((a =? 0xf0) && in_range 0x90 0xbf b)
                   || (in_range 0xf1 0xf3 a && in_range 0x80 0xbf b)
                   || ((a =? 0xf4) && in_range 0x80 0x8f b))
                  && in_range 0x80 0xbf c && in_range 0x80 0xbf d && from_utf8 v
              | [] => false
              end
          | [] => false
          end
      | [] => false
      end
  end.

(** The length of the white-space character (Unicode White_Space, in UTF-8) a
    string starts with, 0 if none. *)
Definition ws_prefix (v : bytes) : nat :=
  match v with
  | a :: v' =>
      if in_range 0x09 0x0d a || (a =? 0x20) then 1%nat
      else match v' with
      | b :: v'' =>
          if (a =? 0xc2) && ((b =? 0x85) || (b =? 0xa0)) then 2%nat
          else match v'' with
          | c :: _ =>
              if ((a =? 0xe1) && (b =? 0x9a) && (c =? 0x80))
                 || ((a =? 0xe2) && (b =? 0x80)
                     && (in_range 0x80 0x8a c || (c =? 0xa8) || (c =? 0xa9) || (c =? 0xaf)))
                 || ((a =? 0xe2) && (b =? 0x81) && (c =? 0x9f))
                 || ((a =? 0xe3) && (b =? 0x80) && (c =? 0x80))
              then 3%nat else 0%nat
          | [] => 0%nat
          end
      | [] => 0%nat
      end
  | [] => 0%nat
  end.

(** [str::trim_start]; the fuel is the length. *)
Fixpoint trim_start (fuel : nat) (v : bytes) : bytes :=
  match fuel with
  | O => v
  | S fuel => match ws_prefix v with O => v | n => trim_start fuel (drop n v) end
  end.

(** The length of the white-space character a string ends with. *)
Definition ws_suffix (v : bytes) : nat :=
  let ends n := bool_decide (ws_prefix (drop (length v - n) v) = n) && (n <=? length v)%nat in
  if ends 1%nat then 1 else if ends 2%nat then 2 else if ends 3%nat then 3 else 0%nat.

Fixpoint trim_end (fuel : nat) (v : bytes) : bytes :=
  match fuel with
  | O => v
  | S fuel => match ws_suffix v with O => v | n => trim_end fuel (take (length v - n) v) end
  end.

(** [str::trim]. *)
Definition trim (v : bytes) : bytes :=
  let v := trim_start (length v) v in trim_end (length v) v.

(** [value.split(sep)]. *)
Fixpoint split (sep : byte) (v : bytes) : list bytes :=
  match v with
  | [] => [[]]
  | x :: v =>
      if x =? sep then [] :: split sep v
      else match split sep v with
           | part :: parts => (x :: part) :: parts
           | [] => [[x]]
           end
  end.

(** [te_is_trailers]. *)
Definition te_is_trailers (value : bytes) : bool :=
  from_utf8 value
  && forallb (λ part, bool_decide (trim part = b "trailers")) (split 0x2c value).

Example te_cases :
  map te_is_trailers [b "trailers"; b " trailers , trailers"; b "gzip"; b ""; b "trailers,";
    0xc2 :: 0xa0 :: b "trailers"; 0xff :: b "trailers"]
  = [true; true; false; false; false; true; false].
Proof. vm_compute. reflexivity. Qed.

(** [iter().position(p)] and [iter().rposition(p)]. *)
Fixpoint position (p : byte → bool) (l : bytes) : option nat :=
  match l with
  | [] => None
  | x :: l => if p x then Some O else S <$> position p l
  end.
Definition rposition (p : byte → bool) (l : bytes) : option nat :=
  (λ i, (length l - 1 - i)%nat) <$> position p (rev l).

Definition is_ows (x : byte) : bool := (x =? 0x20) || (x =? 0x09).

(** The [for &byte in value] loop of [parse_content_length]. *)
Fixpoint digits_loop (value : bytes) (r : Z) : parse Z :=
  match value with
  | [] => Ok r
  | x :: value =>
      r ← ok_or (n ← checked_mul64 r 10; checked_add64 n (x - 48)) Malformed;
      digits_loop value r
  end.

(** [parse_content_length]. *)
Definition parse_content_length (value : bytes) : parse Z :=
  match position (λ x, negb (is_ows x)) value with
  | None => Err Malformed
  | Some start =>
      let end_ := default start (rposition (λ x, negb (is_ows x)) value) in
      let value := take (end_ + 1 - start) (drop start value) in
      _ ← fail_if (bool_decide (value = []) || existsb (λ x, negb (is_ascii_digit x)) value) Malformed;
      digits_loop value 0
  end.

Example content_length_cases :
  map parse_content_length [b "42"; b " 7	"; b ""; b "  "; b "1 2"; b "+1"; b "18446744073709551615";
    b "18446744073709551616"]
  = [Ok 42; Ok 7; Err Malformed; Err Malformed; Err Malformed; Err Malformed;
     Ok 18446744073709551615; Err Malformed].
Proof. vm_compute. reflexivity. Qed.

Definition CONNECTION_SPECIFIC : list bytes :=
  [b "connection"; b "keep-alive"; b "proxy-connection"; b "transfer-encoding"; b "upgrade"].

Definition is_connection_specific (name : bytes) : bool := bool_decide (name ∈ CONNECTION_SPECIFIC).

Section request.
Context `{HT : Http}.

Record ParsedRequest : Type := MkParsedRequest {
  method : Method;
  uri : Uri;
  headers : HeaderMap;
  content_length : option Z;
  expect_continue : bool;
  is_connect : bool;
}.

(** The local variables of [parse_request]'s loop. *)
Record Fields : Type := MkFields {
  f_method : option bytes;
  f_scheme : option bytes;
  f_authority : option bytes;
  f_path : option bytes;
  f_protocol : option bytes;
  f_regular : HeaderMap;
  f_content_length : option Z;
  f_conflict : bool;
  f_pseudo_phase : bool;
}.

Definition no_fields : Fields :=
  MkFields None None None None None header_map_new None false true.

(** The [match name] on a pseudo-header. *)
Definition pseudo_field (f : Fields) (name value : bytes) : parse Fields :=
  let '(MkFields m s a p pr r cl cf ph) := f in
  if bool_decide (name = b ":method") then
    match m with Some _ => Err Malformed | None => Ok (MkFields (Some value) s a p pr r cl cf ph) end
  else if bool_decide (name = b ":scheme") then
    match s with Some _ => Err Malformed | None => Ok (MkFields m (Some value) a p pr r cl cf ph) end
  else if bool_decide (name = b ":authority") then
    match a with Some _ => Err Malformed | None => Ok (MkFields m s (Some value) p pr r cl cf ph) end
  else if bool_decide (name = b ":path") then
    match p with Some _ => Err Malformed | None => Ok (MkFields m s a (Some value) pr r cl cf ph) end
  else if bool_decide (name = b ":protocol") then
    match pr with Some _ => Err Malformed | None => Ok (MkFields m s a p (Some value) r cl cf ph) end
  else Err Malformed.

(** The [else] branch: a regular field. *)
Definition regular_field (f : Fields) (name value : bytes) : parse Fields :=
  let '(MkFields m s a p pr r cl cf _) := f in
  _ ← fail_if (is_connection_specific name) Malformed;
  _ ← fail_if (bool_decide (name = b "te") && negb (te_is_trailers value)) Malformed;
  '(cl, cf) ← (if bool_decide (name = b "content-length")
    then n ← parse_content_length value;
         match cl with
         | Some previous => Ok (Some previous, if negb (previous =? n) then true else cf)
         | None => Ok (Some n, cf)
         end
    else Ok (cl, cf));
  _ ← fail_if (existsb is_ascii_uppercase name) Malformed;
  hn ← ok_or (header_name_from_bytes name) Malformed;
  hv ← ok_or (header_value_from value) Malformed;
  Ok (MkFields m s a p pr (header_map_append r hn hv) cl cf false).

(** One turn of [for header in headers]. *)
Definition parse_field (f : Fields) (h : Header) : parse Fields :=
  if bool_decide (head (name h) = Some 0x3a)
  then _ ← fail_if (negb (f_pseudo_phase f)) Malformed; pseudo_field f (name h) (value h)
  else regular_field f (name h) (value h).

Fixpoint parse_fields (f : Fields) (hs : list Header) : parse Fields :=
  match hs with
  | [] => Ok f
  | h :: hs => f ← parse_field f h; parse_fields f hs
  end.

(** [parse_request]. *)
Definition parse_request (hs : list Header) : parse ParsedRequest :=
  f ← parse_fields no_fields hs;
  let is_connect := bool_decide (f_method f = Some (b "CONNECT")) in
  m ← ok_or (f_method f) Malformed;
  if is_connect then
    authority ← ok_or (f_authority f) Malformed;
    _ ← fail_if (bool_decide (is_Some (f_scheme f)) || bool_decide (is_Some (f_path f))) Malformed;
    _ ← fail_if (f_conflict f) Malformed;
    uri ← ok_or (uri_from_bytes authority) Malformed;
    method ← ok_or (method_from_bytes m) Malformed;
    Ok (MkParsedRequest method uri (f_regular f) (f_content_length f) false true)
  else
    _ ← fail_if (bool_decide (is_Some (f_protocol f))) Malformed;
    scheme ← ok_or (f_scheme f) Malformed;
    path ← ok_or (f_path f) Malformed;
    _ ← fail_if (bool_decide (path = [])) Malformed;
    _ ← fail_if (negb (from_utf8 scheme)) Malformed;
    _ ← fail_if (match f_authority f with Some a => negb (from_utf8 a) | None => false end) Malformed;
    _ ← fail_if (negb (from_utf8 path)) Malformed;
    uri ← match uri_build scheme (f_authority f) path with
          | Some uri => Ok uri
          | None => ok_or (uri_from_path path) Malformed
          end;
    let expect_continue := match header_map_expect (f_regular f) with
      | Some v => eq_ignore_ascii_case v (b "100-continue")
      | None => false
      end in
    _ ← fail_if (f_conflict f) Malformed;
    method ← ok_or (method_from_bytes m) Malformed;
    Ok (MkParsedRequest method uri (f_regular f) (f_content_length f) expect_continue false).

(** [parse_trailers]. *)
Fixpoint parse_trailers_loop (trailers : HeaderMap) (hs : list Header) : parse HeaderMap :=
  match hs with
  | [] => Ok trailers
  | h :: hs =>
      _ ← fail_if (bool_decide (head (name h) = Some 0x3a)) Malformed;
      _ ← fail_if (existsb is_ascii_uppercase (name h)) Malformed;
      hn ← ok_or (header_name_from_bytes (name h)) Malformed;
      hv ← ok_or (header_value_from (value h)) Malformed;
      parse_trailers_loop (header_map_append trailers hn hv) hs
  end.
Definition parse_trailers (hs : list Header) : parse HeaderMap := parse_trailers_loop header_map_new hs.
End request.

(** ** content-length *)

Lemma digit_range x : is_ascii_digit x → 48 ≤ x ≤ 57.
Proof. intros H%Is_true_true. unfold is_ascii_digit in H. lia. Qed.

Definition decimal (ds : bytes) (r : Z) : Z := foldl (λ n x, n * 10 + (x - 48)) r ds.

Lemma decimal_ge ds r : Forall is_ascii_digit ds → 0 ≤ r → r ≤ decimal ds r.
Proof.
  intros H. revert r. induction H as [|x ds Hx H IH]; intros r Hr; cbn; [lia|].
  apply digit_range in Hx. specialize (IH (r * 10 + (x - 48))). unfold decimal in IH. lia.
Qed.

Lemma digits_loop_spec ds r n :
  Forall is_ascii_digit ds → 0 ≤ r ≤ u64_max →
  digits_loop ds r = Ok n ↔ n = decimal ds r ∧ n ≤ u64_max.
Proof.
  intros H. revert r. induction H as [|x ds Hx H IH]; intros r Hr; cbn [digits_loop].
  - cbn. split; [intros [= <-]; lia|by intros [-> _]].
  - apply digit_range in Hx.
    unfold checked_mul64, checked_add64.
    change (decimal (x :: ds) r) with (decimal ds (r * 10 + (x - 48))).
    pose proof (decimal_ge ds (r * 10 + (x - 48)) H).
    destruct (Z.leb_spec (r * 10) u64_max); cbn [mbind option_bind ok_or result_bind]; [|split; [done|lia]].
    destruct (Z.leb_spec (r * 10 + (x - 48)) u64_max); cbn [ok_or mbind result_bind]; [|split; [done|lia]].
    apply IH. lia.
Qed.

Lemma position_Some p l i :
  position p l = Some i ↔ ∃ pre x post, l = pre ++ x :: post ∧ length pre = i ∧ Forall (λ y, p y = false) pre ∧ p x = true.
Proof.
  revert i. induction l as [|x l IH]; intros i; cbn [position].
  - split; [done|]. intros ([|] & ? & ? & ? & _); done.
  - destruct (p x) eqn:E.
    + split.
      * intros [= <-]. by exists [], x, l.
      * intros ([|z pre] & y & post & [= -> ->] & <- & Hp & Hy); [done|].
        apply Forall_cons in Hp as [Hp _]. congruence.
    + rewrite fmap_Some. split.
      * intros (j & (pre & y & post & -> & <- & Hp & Hy)%IH & ->). by exists (x :: pre), y, post; repeat constructor.
      * intros ([|z pre] & y & post & [= -> ->] & <- & Hp & Hy); [congruence|].
        apply Forall_cons in Hp as [_ Hp]. exists (length pre). split; [|done]. apply IH. by exists pre, y, post.
Qed.

Lemma rposition_Some p l i :
  rposition p l = Some i ↔ ∃ pre x post, l = pre ++ x :: post ∧ length pre = i ∧ Forall (λ y, p y = false) post ∧ p x = true.
Proof.
  unfold rposition. rewrite fmap_Some. split.
  - intros (j & (pre & x & post & E & <- & Hp & Hx)%position_Some & ->).
    exists (rev post), x, (rev pre). apply (f_equal (@rev _)) in E. rewrite rev_involutive in E.
    rewrite E, rev_app_distr. cbn [rev]. rewrite <- app_assoc. split; [done|].
    rewrite !length_app, !length_rev. cbn. split; [lia|]. split; [|done].
    by apply Forall_rev.
  - intros (pre & x & post & -> & <- & Hp & Hx). exists (length post). split.
    + apply position_Some. exists (rev post), x, (rev pre). rewrite rev_app_distr. cbn [rev].
      rewrite <- app_assoc, length_rev. split_and!; try done. by apply Forall_rev.
    + rewrite length_app. cbn. lia.
Qed.

Lemma not_ows l : Forall (λ y, negb (is_ows y) = false) l ↔ Forall is_ows l.
Proof. apply Forall_proper; [|done]. intros y. destruct (is_ows y); cbn; split; done. Qed.

Lemma not_digits l : existsb (λ x, negb (is_ascii_digit x)) l = false ↔ Forall is_ascii_digit l.
Proof.
  induction l as [|x l IH]; cbn; [done|]. rewrite Forall_cons, <- IH.
  destruct (is_ascii_digit x); cbn; naive_solver.
Qed.

(** The value between its leading and trailing spaces. *)
Definition spaced_number (value : bytes) (n : Z) : Prop :=
  ∃ pre digits post, value = pre ++ digits ++ post ∧ Forall is_ows pre ∧ Forall is_ows post
  ∧ digits ≠ [] ∧ Forall is_ascii_digit digits ∧ n = decimal digits 0 ∧ n ≤ u64_max.

Lemma parse_content_length_sound value n : parse_content_length value = Ok n → spaced_number value n.
Proof.
  set (p := λ x, negb (is_ows x)). unfold parse_content_length. fold p.
  destruct (position p value) as [start|] eqn:Es; [|done].
  apply position_Some in Es as (pre & x & post & E & <- & Hpre & Hx).
  destruct (rposition p value) as [end_|] eqn:Ee.
  2:{ exfalso. unfold rposition in Ee. apply fmap_None in Ee.
      assert (position p (rev value) ≠ None) as H; [|done]. clear Ee. rewrite E, rev_app_distr. cbn [rev].
      assert (∀ l k, position p ((l ++ [x]) ++ k) ≠ None) as H; [|apply H].
      induction l as [|y l IH]; intros k; cbn [app position]; [by rewrite Hx|].
      destruct (p y); [done|]. intros Hn%fmap_None. by apply (IH k). }
  apply rposition_Some in Ee as (pre2 & y & post2 & E2 & <- & Hpost & Hy). cbn [default].
  assert (length pre ≤ length pre2)%nat as Hle.
  { destruct (le_lt_dec (length pre) (length pre2)) as [|Hlt]; [done|].
    assert (value !! length pre2 = Some y) as Hl by (rewrite E2; by apply list_lookup_middle).
    rewrite E, lookup_app_l in Hl by done. rewrite Forall_lookup in Hpre.
    specialize (Hpre _ _ Hl). cbn in Hpre. congruence. }
  intros H. apply bind_Ok in H as ([] & Hf & H). apply fail_if_Ok, orb_false_iff in Hf as [Hne Hd].
  apply bool_decide_eq_false_1 in Hne. apply not_digits in Hd.
  apply (digits_loop_spec _ 0 n Hd) in H as [-> Hn]; [|done].
  set (ds := take _ _) in *. exists pre, ds, post2. rewrite <- !not_ows. split_and!; try done.
  assert (take (length pre) value = pre) as Ht by (rewrite E; by rewrite take_app_length).
  assert (drop (length pre2 + 1) value = post2) as Hdr.
  { rewrite E2. rewrite cons_middle, app_assoc, drop_app_length'; [done|]. rewrite length_app. cbn. lia. }
  etransitivity; [symmetry; apply (take_drop (length pre))|]. rewrite Ht. f_equal.
  etransitivity; [symmetry; apply (take_drop (length pre2 + 1 - length pre))|].
  unfold ds. f_equal. rewrite drop_drop, <- Hdr. f_equal. lia.
Qed.

Lemma parse_content_length_complete value n : spaced_number value n → parse_content_length value = Ok n.
Proof.
  set (p := λ x, negb (is_ows x)). unfold parse_content_length. fold p.
  intros (pre & ds & post & -> & Hpre & Hpost & Hne & Hd & -> & Hn).
  assert (∀ x, is_ascii_digit x → p x = true) as Hp.
  { intros x Hx%digit_range. unfold p, is_ows.
    destruct (x =? 32) eqn:E1, (x =? 9) eqn:E2; cbn; lia || done. }
  assert (position p (pre ++ ds ++ post) = Some (length pre)) as ->.
  { apply position_Some. destruct ds as [|x ds]; [done|]. exists pre, x, (ds ++ post).
    split_and!; [done|done|by apply not_ows|]. apply Forall_cons in Hd as [Hx _]. by apply Hp. }
  assert (rposition p (pre ++ ds ++ post) = Some (length pre + length ds - 1)%nat) as ->.
  { apply rposition_Some. destruct (exists_last Hne) as (ds' & y & ->).
    exists (pre ++ ds'), y, post. rewrite <- !app_assoc. cbn [app]. rewrite !length_app. cbn.
    split_and!; [done|lia|by apply not_ows|]. apply Forall_app in Hd as [_ Hy].
    rewrite Forall_singleton in Hy. by apply Hp. }
  assert (0 < length ds)%nat by (destruct ds; [done|cbn; lia]).
  change (default (length pre) (Some (length pre + length ds - 1)%nat)) with (length pre + length ds - 1)%nat.
  replace (length pre + length ds - 1 + 1 - length pre)%nat with (length ds) by lia.
  rewrite drop_app_length, take_app_length. rewrite bool_decide_false by done.
  rewrite (proj2 (not_digits ds) Hd). cbn [orb fail_if mbind result_bind]. by apply digits_loop_spec.
Qed.

(** [parse_content_length] accepts exactly the values made of optional
    spaces and tabs, at least one decimal digit and nothing else in between,
    optional spaces and tabs, whose number fits 64 bits; and it returns that
    number. *)
Theorem content_length_spec value n :
  parse_content_length value = Ok n ↔
  ∃ pre digits post, value = pre ++ digits ++ post ∧ Forall is_ows pre ∧ Forall is_ows post
  ∧ digits ≠ [] ∧ Forall is_ascii_digit digits ∧ n = decimal digits 0 ∧ n ≤ u64_max.
Proof. split; [apply parse_content_length_sound|apply parse_content_length_complete]. Qed.

(** ** Requests *)

Definition PSEUDO : list bytes := [b ":method"; b ":scheme"; b ":authority"; b ":path"; b ":protocol"].

(** The value of the first field with the given name. *)
Fixpoint field (hs : list Header) (n : bytes) : option bytes :=
  match hs with
  | [] => None
  | h :: hs => if bool_decide (name h = n) then Some (value h) else field hs n
  end.

(** The parsed content-length values of a list of fields. *)
Definition lengths (hs : list Header) : list (parse Z) :=
  parse_content_length ∘ value <$> filter (λ h, name h = b "content-length") hs.

Section request_spec.
Context `{HT : Http}.

(** A regular field a request may carry (RFC 9113, Sections 8.2.1 and
    8.2.2). *)
Record regular_ok (h : Header) : Prop := MkRegularOk {
  reg_colon : head (name h) ≠ Some 0x3a;
  reg_connection : is_connection_specific (name h) = false;
  reg_te : name h = b "te" → te_is_trailers (value h) = true;
  reg_length : name h = b "content-length" → ∃ n, parse_content_length (value h) = Ok n;
  reg_lowercase : existsb is_ascii_uppercase (name h) = false;
  reg_name : is_Some (header_name_from_bytes (name h));
  reg_value : is_Some (header_value_from (value h));
}.

(** The header map of a list of fields. *)
Definition append_field (m : HeaderMap) (h : Header) : HeaderMap :=
  match header_name_from_bytes (name h), header_value_from (value h) with
  | Some n, Some v => header_map_append m n v
  | _, _ => m
  end.
Definition header_map (hs : list Header) : HeaderMap := foldl append_field header_map_new hs.

(** The pseudo-header variables by name. *)
Definition slot (f : Fields) (n : bytes) : option bytes :=
  if decide (n = b ":method") then f_method f
  else if decide (n = b ":scheme") then f_scheme f
  else if decide (n = b ":authority") then f_authority f
  else if decide (n = b ":path") then f_path f
  else if decide (n = b ":protocol") then f_protocol f
  else None.

Definition same_regular (f f' : Fields) : Prop :=
  f_regular f' = f_regular f ∧ f_content_length f' = f_content_length f
  ∧ f_conflict f' = f_conflict f ∧ f_pseudo_phase f' = f_pseudo_phase f.

(** Closes a goal with two distinct literals equated. *)
Ltac clash := match goal with H : b _ = b _ |- _ => vm_compute in H; discriminate H end.

Lemma pseudo_field_Ok f n v f' :
  pseudo_field f n v = Ok f' ↔
  n ∈ PSEUDO ∧ slot f n = None ∧ same_regular f f'
  ∧ ∀ k, slot f' k = if decide (k = n) then Some v else slot f k.
Proof.
  destruct f as [m s a p pr r cl cf ph], f' as [m' s' a' p' pr' r' cl' cf' ph'].
  unfold pseudo_field, slot, same_regular. cbn.
  assert (∀ k, k ∈ PSEUDO ↔ k = b ":method" ∨ k = b ":scheme" ∨ k = b ":authority" ∨ k = b ":path"
    ∨ k = b ":protocol") as Hin by (intros k; unfold PSEUDO; set_solver).
  rewrite Hin. clear Hin.
  split.
  - repeat (case_bool_decide; [subst n; intros E; case_match; [done|]; injection E as <- <- <- <- <- <- <- <- <-;
      split; [naive_solver|]; split; [repeat (case_decide; try done; try clash)|]; split; [done|];
      intros k; repeat (case_decide; subst; try done; try clash)|]). done.
  - intros (Hin & Hs & (-> & -> & -> & ->) & Hk).
    pose proof (Hk (b ":method")) as H1. pose proof (Hk (b ":scheme")) as H2.
    pose proof (Hk (b ":authority")) as H3. pose proof (Hk (b ":path")) as H4.
    pose proof (Hk (b ":protocol")) as H5. clear Hk.
    destruct Hin as [-> | [-> | [-> | [-> | ->]]]]; vm_compute in Hs, H1, H2, H3, H4, H5; subst;
      vm_compute; done.
Qed.

Lemma regular_field_Ok f h f' :
  regular_field f (name h) (value h) = Ok f' ∧ head (name h) ≠ Some 0x3a ↔
  regular_ok h ∧ (∀ k, slot f' k = slot f k) ∧ f_pseudo_phase f' = false
  ∧ f_regular f' = append_field (f_regular f) h
  ∧ if decide (name h = b "content-length") then
      ∃ n, parse_content_length (value h) = Ok n
        ∧ f_content_length f' = Some (default n (f_content_length f))
        ∧ f_conflict f' = (f_conflict f || match f_content_length f with Some c => negb (c =? n) | None => false end)
    else f_content_length f' = f_content_length f ∧ f_conflict f' = f_conflict f.
Proof.
  destruct f as [m s a p pr r cl cf ph], f' as [m' s' a' p' pr' r' cl' cf' ph'].
  unfold regular_field. cbn [f_regular f_content_length f_conflict f_pseudo_phase]. split.
  - intros [E Hc]. apply bind_Ok in E as ([] & H1 & E). apply fail_if_Ok in H1.
    apply bind_Ok in E as ([] & H2 & E). apply fail_if_Ok in H2.
    apply bind_Ok in E as ([cl1 cf1] & H3 & E). apply bind_Ok in E as ([] & H4 & E). apply fail_if_Ok in H4.
    apply bind_Ok in E as (hn & H5 & E). apply ok_or_Ok in H5. apply bind_Ok in E as (hv & H6 & E).
    apply ok_or_Ok in H6. injection E as <- <- <- <- <- <- <- <- <-.
    case_bool_decide as Hcl.
    + rewrite decide_True by done. apply bind_Ok in H3 as (n & Hn & H3).
      split; [split; try done; try (intros _; by exists n); [|by eexists..]|].
      { intros Hte. rewrite Hte in Hcl. vm_compute in Hcl. discriminate. }
      split; [done|]. split; [done|]. split; [unfold append_field; by rewrite H5, H6|].
      exists n. split; [done|]. destruct cl as [c|]; [|by injection H3 as <- <-; rewrite orb_false_r].
      destruct (Z.eqb_spec c n); cbn in H3; injection H3 as <- <-; cbn; rewrite ?orb_false_r, ?orb_true_r; done.
    + rewrite decide_False by done. injection H3 as <- <-.
      split; [split; try done; [|by eexists..]|].
      { intros Hte. rewrite bool_decide_true in H2 by done. by destruct (te_is_trailers (value h)). }
      split; [done|]. split; [done|]. split; [unfold append_field; by rewrite H5, H6|done].
  - intros ([H1 H2 H3 H4 H5 [hn H6] [hv H7]] & Hs & -> & -> & Hl). split; [|done].
    rewrite H2. cbn [fail_if mbind result_bind].
    replace (bool_decide (name h = b "te") && negb (te_is_trailers (value h))) with false
      by (case_bool_decide; [rewrite H3 by done|]; done).
    cbn [fail_if mbind result_bind]. unfold append_field. rewrite H5, H6, H7.
    pose proof (Hs (b ":method")) as E1. pose proof (Hs (b ":scheme")) as E2.
    pose proof (Hs (b ":authority")) as E3. pose proof (Hs (b ":path")) as E4.
    pose proof (Hs (b ":protocol")) as E5. vm_compute in E1, E2, E3, E4, E5. subst. clear Hs.
    case_decide as Hcl; [rewrite bool_decide_true by done|rewrite bool_decide_false by done].
    + destruct Hl as (n & Hn & -> & ->). rewrite Hn. cbn [mbind result_bind]. destruct cl as [c|]; cbn.
      * by destruct (Z.eqb_spec c n); cbn; rewrite ?orb_false_r, ?orb_true_r.
      * by rewrite orb_false_r.
    + destruct Hl as [-> ->]. done.
Qed.

(** What the loop does with the content-length fields. *)
Fixpoint fold_lengths (hs : list Header) (cl : option Z) (conflict : bool) : option Z * bool :=
  match hs with
  | [] => (cl, conflict)
  | h :: hs =>
      if decide (name h = b "content-length") then
        match parse_content_length (value h) with
        | Ok n => fold_lengths hs (Some (default n cl))
            (conflict || match cl with Some c => negb (c =? n) | None => false end)
        | Err _ => fold_lengths hs cl conflict
        end
      else fold_lengths hs cl conflict
  end.

Lemma fold_lengths_agree hs cl n :
  (∀ h, h ∈ hs → name h = b "content-length" → ∃ n, parse_content_length (value h) = Ok n) →
  fold_lengths hs (Some cl) false = (n, false) ↔
  n = Some cl ∧ ∀ h, h ∈ hs → name h = b "content-length" → parse_content_length (value h) = Ok cl.
Proof.
  assert (∀ hs c, (fold_lengths hs c true).2 = true) as Htrue.
  { clear. induction hs as [|h hs IH]; intros c; cbn; [done|]. repeat case_match; apply IH. }
  induction hs as [|h hs IH]; intros Hok; cbn [fold_lengths].
  - split; [intros [= <-]; split; [done|set_solver]|by intros [-> _]].
  - assert (∀ h', h' ∈ hs → name h' = b "content-length" → ∃ n, parse_content_length (value h') = Ok n) as Hok'
      by (intros; apply Hok; set_solver).
    specialize (IH Hok'). case_decide as Hn.
    + destruct (Hok h) as [m Hm]; [set_solver|done|]. rewrite Hm. cbn [orb].
      change (default m (Some cl)) with cl. destruct (Z.eqb_spec cl m) as [->|Hne]; cbn [negb].
      * rewrite IH. split; (intros [H1 H2]; split; [done|]).
        -- intros h' [-> |Hin]%elem_of_cons Hn'; [done|by apply H2].
        -- intros h' Hin. apply H2. set_solver.
      * split.
        -- intros E. specialize (Htrue hs (Some cl)). by rewrite E in Htrue.
        -- intros [_ H2]. specialize (H2 h ltac:(set_solver) Hn). congruence.
    + rewrite IH. split; (intros [H1 H2]; split; [done|]).
      * intros h' [-> |Hin]%elem_of_cons Hn'; [done|by apply H2].
      * intros h' Hin. apply H2. set_solver.
Qed.

Lemma parse_regulars rs f f' :
  f_pseudo_phase f = false →
  parse_fields f rs = Ok f' ↔
  Forall regular_ok rs ∧ (∀ k, slot f' k = slot f k) ∧ f_pseudo_phase f' = false
  ∧ f_regular f' = foldl append_field (f_regular f) rs
  ∧ (f_content_length f', f_conflict f') = fold_lengths rs (f_content_length f) (f_conflict f).
Proof.
  revert f. induction rs as [|h rs IH]; intros f Hph; cbn [parse_fields foldl fold_lengths].
  - split.
    + intros [= <-]. done.
    + intros (_ & Hs & Hph' & Hr & [= Hl Hc]).
      destruct f as [m s a p pr r cl cf ph], f' as [m' s' a' p' pr' r' cl' cf' ph']. cbn in *. subst.
      pose proof (Hs (b ":method")) as E1. pose proof (Hs (b ":scheme")) as E2.
      pose proof (Hs (b ":authority")) as E3. pose proof (Hs (b ":path")) as E4.
      pose proof (Hs (b ":protocol")) as E5. vm_compute in E1, E2, E3, E4, E5. by subst.
  - rewrite Forall_cons, bind_Ok. unfold parse_field. rewrite Hph. split.
    + intros (f1 & H1 & H2). case_bool_decide as Hc; [done|].
      destruct (proj1 (regular_field_Ok f h f1) (conj H1 Hc)) as (Hok & Hs1 & Hp1 & Hr1 & Hl1).
      apply IH in H2 as (Hrs & Hs2 & Hp2 & Hr2 & Hl2); [|done].
      split; [done|]. split; [intros k; by rewrite Hs2|]. split; [done|]. split; [by rewrite Hr2, Hr1|].
      rewrite Hl2. case_decide; [destruct Hl1 as (n & -> & -> & ->); done|destruct Hl1 as [-> ->]; done].
    + intros ((Hok & Hrs) & Hs & Hp & Hr & Hl). rewrite bool_decide_false by apply Hok.
      assert (∃ f1, regular_field f (name h) (value h) = Ok f1) as [f1 H1].
      { unfold regular_field. destruct f as [m s a p pr r cl cf ph].
        destruct Hok as [H1 H2 H3 H4 H5 [hn H6] [hv H7]]. rewrite H2.
        replace (bool_decide (name h = b "te") && negb (te_is_trailers (value h))) with false
          by (case_bool_decide; [rewrite H3 by done|]; done).
        rewrite H5, H6, H7. cbn. case_bool_decide; [|by eexists].
        destruct H4 as [n ->]; [done|]. cbn. destruct cl; by eexists. }
      exists f1. split; [done|].
      destruct (proj1 (regular_field_Ok f h f1) (conj H1 (reg_colon h Hok))) as (_ & Hs1 & Hp1 & Hr1 & Hl1).
      apply IH; [done|]. split; [done|]. split; [intros k; by rewrite Hs1|]. split; [done|].
      split; [by rewrite Hr1|]. rewrite Hl.
      case_decide; [destruct Hl1 as (n & -> & -> & ->); done|destruct Hl1 as [-> ->]; done].
Qed.

Lemma parse_fields_Ok hs f f' :
  f_pseudo_phase f = true →
  parse_fields f hs = Ok f' →
  ∃ ps rs, hs = ps ++ rs ∧ Forall (λ h, name h ∈ PSEUDO ∧ slot f (name h) = None) ps
  ∧ NoDup (name <$> ps) ∧ Forall regular_ok rs
  ∧ (∀ k, slot f' k = match field ps k with Some v => Some v | None => slot f k end)
  ∧ f_regular f' = foldl append_field (f_regular f) rs
  ∧ (f_content_length f', f_conflict f') = fold_lengths rs (f_content_length f) (f_conflict f).
Proof.
  revert f. induction hs as [|h hs IH]; intros f Hph HE.
  - injection HE as <-. exists [], []. cbn. split_and!; try done; constructor.
  - destruct (decide (head (name h) = Some 0x3a)) as [Hc|Hc].
    + cbn [parse_fields] in HE. apply bind_Ok in HE as (f1 & H1 & H2). unfold parse_field in H1.
      rewrite bool_decide_true, Hph in H1 by done. cbn [negb fail_if mbind result_bind] in H1.
      apply pseudo_field_Ok in H1 as (Hin & Hs & (Hr & Hcl & Hcf & Hp) & Hk).
      destruct (IH f1 ltac:(congruence) H2) as (ps & rs & -> & Hps & Hnd & Hrs & Hs' & Hr' & Hl').
      exists (h :: ps), rs. split; [done|]. split; [|split; [|split; [done|split; [|split]]]].
      * constructor; [done|]. eapply Forall_impl; [exact Hps|]. intros h' [Hi Hn]. split; [done|].
        rewrite Hk in Hn. by case_decide.
      * cbn. constructor; [|done]. intros (h' & E & Hi)%list_elem_of_fmap.
        rewrite Forall_forall in Hps. apply Hps in Hi as [_ Hn]. rewrite Hk, decide_True in Hn by done. done.
      * intros k. rewrite Hs'. cbn [field]. case_bool_decide as E.
        -- destruct (field ps k) as [v|] eqn:Ef; [|by rewrite Hk, decide_True].
           exfalso. assert (∃ h', h' ∈ ps ∧ name h' = k) as (h' & Hi & En).
           { clear -Ef. induction ps as [|x ps IH]; cbn in Ef; [done|]. case_bool_decide; [exists x; set_solver|].
             destruct IH as (h' & ? & ?); [done|]. exists h'. set_solver. }
           rewrite Forall_forall in Hps. apply Hps in Hi as [_ Hn]. rewrite Hk, decide_True in Hn by congruence. done.
        -- destruct (field ps k); [done|]. rewrite Hk, decide_False; [done|]. intros ->. done.
      * by rewrite Hr', Hr.
      * by rewrite Hl', Hcl, Hcf.
    + cbn [parse_fields] in HE. apply bind_Ok in HE as (f1 & H1 & H2). unfold parse_field in H1.
      rewrite bool_decide_false in H1 by done.
      destruct (proj1 (regular_field_Ok f h f1) (conj H1 Hc)) as (Hok & Hs1 & Hp1 & Hr1 & Hl1).
      apply parse_regulars in H2 as (Hrs & Hs2 & Hp2 & Hr2 & Hl2); [|done].
      exists [], (h :: hs). split; [done|]. split; [constructor|]. split; [constructor|]. split; [by constructor|].
      split; [intros k; cbn; by rewrite Hs2, Hs1|]. cbn [foldl fold_lengths]. split; [by rewrite Hr2, Hr1|].
      rewrite Hl2. case_decide; [destruct Hl1 as (n & -> & -> & ->); done|destruct Hl1 as [-> ->]; done].
Qed.

(** The outcome of the loop for a field list split in two. *)
Definition collected (f : Fields) (ps rs : list Header) (f' : Fields) : Prop :=
  (∀ k, slot f' k = match field ps k with Some v => Some v | None => slot f k end)
  ∧ f_regular f' = foldl append_field (f_regular f) rs
  ∧ (f_content_length f', f_conflict f') = fold_lengths rs (f_content_length f) (f_conflict f).

Lemma parse_fields_total ps rs f :
  f_pseudo_phase f = true →
  Forall (λ h, name h ∈ PSEUDO ∧ slot f (name h) = None) ps → NoDup (name <$> ps) →
  Forall regular_ok rs →
  ∃ f', parse_fields f (ps ++ rs) = Ok f' ∧ collected f ps rs f'.
Proof.
  revert f. induction ps as [|h ps IH]; intros f Hph Hps Hnd Hrs; cbn [app].
  - destruct rs as [|h rs]; [by exists f|].
    set (f0 := let '(MkFields m s a p pr r cl cf _) := f in MkFields m s a p pr r cl cf false).
    assert (parse_fields f (h :: rs) = parse_fields f0 (h :: rs)) as ->.
    { cbn [parse_fields]. unfold parse_field. apply Forall_cons in Hrs as [Hh _].
      rewrite bool_decide_false by apply Hh. by destruct f. }
    set (cl := fold_lengths (h :: rs) (f_content_length f) (f_conflict f)).
    set (f' := MkFields (f_method f) (f_scheme f) (f_authority f) (f_path f) (f_protocol f)
      (foldl append_field (f_regular f) (h :: rs)) cl.1 cl.2 false).
    exists f'. split; [|split; [intros k; reflexivity|split; [done|symmetry; apply surjective_pairing]]].
    apply parse_regulars; [by destruct f|]. split; [done|]. split; [intros k; by destruct f|].
    split; [done|]. split; [by destruct f|]. unfold f', cl. cbn [f_content_length f_conflict].
    destruct f; cbn [f0 f_content_length f_conflict]. by destruct (fold_lengths _ _ _).
  - apply Forall_cons in Hps as [[Hin Hs] Hps]. cbn in Hnd. apply NoDup_cons in Hnd as [Hni Hnd].
    cbn [parse_fields]. unfold parse_field.
    assert (head (name h) = Some 0x3a) as Hc.
    { revert Hin. unfold PSEUDO. rewrite !elem_of_cons, elem_of_nil.
      intros [->|[->|[->|[->|[->|[]]]]]]; done. }
    rewrite bool_decide_true, Hph by done. cbn [negb fail_if mbind result_bind].
    assert (∃ f1, pseudo_field f (name h) (value h) = Ok f1) as [f1 H1].
    { revert Hs Hin. destruct f as [m s a p pr r cl cf ph]. generalize (name h) as n. clear. intros n Hs Hin.
      unfold pseudo_field, slot in *. cbn in Hs.
      repeat (case_bool_decide; [subst; rewrite ?decide_True in Hs by done;
        repeat (rewrite decide_False in Hs by (intros E; vm_compute in E; discriminate E));
        rewrite ?decide_True in Hs by done; rewrite Hs; by eexists|]).
      unfold PSEUDO in Hin. set_solver. }
    rewrite H1. cbn [mbind result_bind].
    apply pseudo_field_Ok in H1 as (_ & _ & (Hr & Hcl & Hcf & Hp) & Hk).
    destruct (IH f1) as (f' & -> & Hs' & Hr' & Hl'); [congruence| |done|done|].
    { rewrite Forall_forall in Hps |- *. intros x Hx. destruct (Hps x Hx) as [? Hn]. split; [done|].
      rewrite Hk. case_decide as E; [|done]. exfalso. apply Hni. rewrite <- E. by apply list_elem_of_fmap_2. }
    exists f'. split; [done|]. split; [|split; [by rewrite Hr', Hr|by rewrite Hl', Hcl, Hcf]].
    intros k. rewrite Hs'. cbn [field]. case_bool_decide as E.
    + assert (field ps k = None) as ->.
      { subst k. clear -Hni. induction ps as [|x ps IHp]; cbn in *; [done|].
        rewrite bool_decide_false by set_solver. apply IHp. set_solver. }
      by rewrite Hk, decide_True.
    + destruct (field ps k); [done|]. rewrite Hk, decide_False; [done|]. intros ->. done.
Qed.

(** What the request line of a field list must be: RFC 9113, Section 8.3.1,
    and 8.5 for CONNECT. *)
Definition target_ok (ps : list Header) (m : bytes) (r : ParsedRequest) : Prop :=
  if is_connect r then
    m = b "CONNECT" ∧ field ps (b ":scheme") = None ∧ field ps (b ":path") = None
    ∧ ∃ a, field ps (b ":authority") = Some a ∧ uri_from_bytes a = Some (uri r)
  else
    m ≠ b "CONNECT" ∧ field ps (b ":protocol") = None
    ∧ ∃ s p, field ps (b ":scheme") = Some s ∧ field ps (b ":path") = Some p ∧ p ≠ []
      ∧ from_utf8 s = true ∧ from_utf8 p = true
      ∧ (∀ a, field ps (b ":authority") = Some a → from_utf8 a = true)
      ∧ match uri_build s (field ps (b ":authority")) p with
        | Some u => Some u
        | None => uri_from_path p
        end = Some (uri r).

(** A well-formed request. *)
Definition request_ok (hs : list Header) (r : ParsedRequest) : Prop :=
  ∃ ps rs m, hs = ps ++ rs
  ∧ Forall (λ h, name h ∈ PSEUDO) ps ∧ NoDup (name <$> ps) ∧ Forall regular_ok rs
  ∧ field ps (b ":method") = Some m ∧ method_from_bytes m = Some (method r)
  ∧ target_ok ps m r
  ∧ headers r = header_map rs
  ∧ match content_length r with
    | Some n => (∃ h, h ∈ rs ∧ name h = b "content-length")
        ∧ ∀ h, h ∈ rs → name h = b "content-length" → parse_content_length (value h) = Ok n
    | None => ∀ h, h ∈ rs → name h ≠ b "content-length"
    end
  ∧ expect_continue r = (negb (is_connect r) && match header_map_expect (header_map rs) with
      | Some v => eq_ignore_ascii_case v (b "100-continue") | None => false end).

Lemma slot_names f : slot f (b ":method") = f_method f ∧ slot f (b ":scheme") = f_scheme f
  ∧ slot f (b ":authority") = f_authority f ∧ slot f (b ":path") = f_path f
  ∧ slot f (b ":protocol") = f_protocol f.
Proof. by destruct f. Qed.

Lemma fold_lengths_spec rs c :
  Forall regular_ok rs →
  fold_lengths rs None false = (c, false) ↔
  match c with
  | Some n => (∃ h, h ∈ rs ∧ name h = b "content-length")
      ∧ ∀ h, h ∈ rs → name h = b "content-length" → parse_content_length (value h) = Ok n
  | None => ∀ h, h ∈ rs → name h ≠ b "content-length"
  end.
Proof.
  induction rs as [|h rs IH]; intros Hrs; cbn [fold_lengths].
  - destruct c as [n|]; split; try done; [intros [(? & ?%elem_of_nil & _) _]; done|].
    intros _ h ?%elem_of_nil. done.
  - apply Forall_cons in Hrs as [Hh Hrs]. case_decide as Hn.
    + destruct (reg_length h Hh Hn) as [m Hm]. rewrite Hm. cbn [orb]. change (default m None) with m.
      rewrite fold_lengths_agree by (intros x Hx; apply reg_length; by rewrite Forall_forall in Hrs; apply Hrs).
      destruct c as [n|]; [|split; [by intros [? _]|intros Hc; exfalso; apply (Hc h); set_solver]].
      split.
      * intros [[= ->] Ha]. split; [exists h; set_solver|].
        intros h' [-> |Hin]%elem_of_cons Hn'; [done|by apply Ha].
      * intros [_ Ha]. assert (n = m) as -> by (specialize (Ha h ltac:(set_solver) Hn); congruence).
        split; [done|]. intros h' Hin. apply Ha. set_solver.
    + rewrite (IH Hrs). destruct c as [n|]; split.
      * intros [(x & Hx & Hxn) Ha]. split; [exists x; set_solver|].
        intros h' [-> |Hin]%elem_of_cons Hn'; [done|by apply Ha].
      * intros [(x & Hx & Hxn) Ha]. split; [exists x; set_solver|].
        intros h' Hin. apply Ha. set_solver.
      * intros Ha h' [-> |Hin]%elem_of_cons; [done|by apply Ha].
      * intros Ha h' Hin. apply Ha. set_solver.
Qed.

(** What the loop over the fields has collected. *)
Lemma collected_values ps rs f :
  collected no_fields ps rs f →
  f_method f = field ps (b ":method") ∧ f_scheme f = field ps (b ":scheme")
  ∧ f_authority f = field ps (b ":authority") ∧ f_path f = field ps (b ":path")
  ∧ f_protocol f = field ps (b ":protocol") ∧ f_regular f = header_map rs
  ∧ (f_content_length f, f_conflict f) = fold_lengths rs None false.
Proof.
  destruct (slot_names no_fields) as (N1 & N2 & N3 & N4 & N5).
  intros (Hs & Hr & Hl). destruct (slot_names f) as (M1 & M2 & M3 & M4 & M5).
  rewrite <- M1, <- M2, <- M3, <- M4, <- M5, !Hs, N1, N2, N3, N4, N5. cbn.
  split_and!; try done; by destruct (field ps _).
Qed.

Lemma parse_request_sound hs r : parse_request hs = Ok r → request_ok hs r.
Proof.
  unfold parse_request. rewrite bind_Ok.
  intros (f & Hf & HE). apply parse_fields_Ok in Hf as (ps & rs & -> & Hps & Hnd & Hrs & Hk & Hr & Hl); [|done].
  destruct (collected_values ps rs f) as (M1 & M2 & M3 & M4 & M5 & M6 & Hl'); [done|]. clear Hk Hr Hl.
  cbv zeta in HE. rewrite M1, M2, M3, M4, M5, M6 in HE. apply bind_Ok in HE as (m & Hm & HE). apply ok_or_Ok in Hm. rewrite Hm in HE.
  assert (Forall (λ h, name h ∈ PSEUDO) ps) as Hps' by (eapply Forall_impl; [exact Hps|by intros ? [? _]]).
  exists ps, rs, m. case_bool_decide as Hc.
  + injection Hc as ->.
    apply bind_Ok in HE as (a & Ha & HE). apply ok_or_Ok in Ha.
    apply bind_Ok in HE as ([] & Hsp & HE). apply fail_if_Ok, orb_false_iff in Hsp as [Hs Hp].
    apply bind_Ok in HE as ([] & Hcf & HE). apply fail_if_Ok in Hcf. rewrite Hcf in Hl'.
    apply bind_Ok in HE as (u & Hu & HE). apply ok_or_Ok in Hu.
    apply bind_Ok in HE as (mt & Hmt & HE). apply ok_or_Ok in Hmt. injection HE as <-.
    split_and!; try done; [|by apply fold_lengths_spec].
    unfold target_ok. cbn [is_connect uri]. split_and!; [done|..|by exists a].
    * by apply bool_decide_eq_false_1, eq_None_not_Some in Hs.
    * by apply bool_decide_eq_false_1, eq_None_not_Some in Hp.
  + apply bind_Ok in HE as ([] & Hpr & HE). apply fail_if_Ok in Hpr.
    apply bind_Ok in HE as (sc & Hsc & HE). apply ok_or_Ok in Hsc.
    apply bind_Ok in HE as (pa & Hpa & HE). apply ok_or_Ok in Hpa.
    apply bind_Ok in HE as ([] & Hne & HE). apply fail_if_Ok in Hne.
    apply bind_Ok in HE as ([] & U1 & HE). apply fail_if_Ok in U1.
    apply bind_Ok in HE as ([] & U2 & HE). apply fail_if_Ok in U2.
    apply bind_Ok in HE as ([] & U3 & HE). apply fail_if_Ok in U3.
    apply bind_Ok in HE as (u & Hu & HE).
    apply bind_Ok in HE as ([] & Hcf & HE). apply fail_if_Ok in Hcf. rewrite Hcf in Hl'.
    apply bind_Ok in HE as (mt & Hmt & HE). apply ok_or_Ok in Hmt. injection HE as <-.
    split_and!; try done; [|by apply fold_lengths_spec].
    unfold target_ok. cbn [is_connect uri]. split; [congruence|].
    split; [by apply bool_decide_eq_false_1, eq_None_not_Some in Hpr|]. exists sc, pa.
    apply bool_decide_eq_false_1 in Hne. apply negb_false_iff in U1, U3.
    split_and!; try done.
    * intros a Ha. rewrite Ha in U2. by apply negb_false_iff in U2.
    * destruct (uri_build _ _ _); [by injection Hu as <-|]. by apply ok_or_Ok in Hu.
Qed.

Lemma parse_request_complete hs r : request_ok hs r → parse_request hs = Ok r.
Proof.
  unfold parse_request. rewrite bind_Ok.
  intros (ps & rs & m & -> & Hps & Hnd & Hrs & Hm & Hmt & Ht & Hh & Hl & He).
  destruct (parse_fields_total ps rs no_fields) as (f & Hf & Hc); [done| |done|done|].
  { eapply Forall_impl; [exact Hps|]. intros h Hin. split; [done|].
    unfold slot. by repeat case_decide. }
  exists f. split; [done|]. destruct (collected_values ps rs f Hc) as (-> & -> & -> & -> & -> & -> & Hl').
  apply (fold_lengths_spec rs (content_length r) Hrs) in Hl. rewrite Hl in Hl'. injection Hl' as -> ->.
  cbv zeta. rewrite Hm. unfold target_ok in Ht. cbn [ok_or mbind result_bind].
  destruct r as [rm ru rh rc re ri]. cbn in *. subst rh re. destruct ri.
  + destruct Ht as (-> & -> & -> & a & Ha & Hu). rewrite bool_decide_true by done. rewrite Ha.
    cbn [ok_or mbind result_bind]. rewrite Hu, Hmt. done.
  + destruct Ht as (Hne & -> & sc & pa & -> & -> & Hpa & U1 & U3 & U2 & Hu).
    rewrite bool_decide_false by congruence. rewrite (bool_decide_false (is_Some None)) by (by intros []).
    cbn [fail_if ok_or mbind result_bind]. rewrite bool_decide_false by done. rewrite U1, U3.
    cbn [negb fail_if mbind result_bind].
    replace (match field ps (b ":authority") with Some a => negb (from_utf8 a) | None => false end) with false
      by (destruct (field ps (b ":authority")) as [x|] eqn:Ex; [by rewrite (U2 x eq_refl)|done]).
    cbn [negb fail_if mbind result_bind]. rewrite Hmt.
    destruct (uri_build _ _ _) as [u|]; [injection Hu as ->; done|]. rewrite Hu. done.
Qed.

(** C30. A field block is accepted as a request exactly when it is
    well-formed: pseudo-header fields first, all known and none repeated;
    then only regular fields that are lowercase, not connection-specific and
    valid, with [te] limited to trailers; a method; for CONNECT an authority
    and neither scheme nor path, otherwise a scheme and a non-empty path and
    no protocol; and every content-length field a number, all equal.  The
    parsed request carries exactly these values. *)
Theorem parse_request_spec hs r : parse_request hs = Ok r ↔ request_ok hs r.
Proof. split; [apply parse_request_sound|apply parse_request_complete]. Qed.
End request_spec.

(** ** A concrete [Http] *)

Definition plain_expect (m : list (bytes * bytes)) : option bytes :=
  snd <$> head (filter (λ f, f.1 = b "expect") m).

(** Names and values are the octets; everything the parser checked is
    accepted. *)
Definition plain_http : Http := {|
  HeaderName := bytes; HeaderValue := bytes; HeaderMap := list (bytes * bytes);
  Method := bytes; Uri := bytes;
  header_name_from_bytes := Some; header_value_from := Some;
  header_map_new := []; header_map_append m n v := m ++ [(n, v)]; header_map_expect := plain_expect;
  method_from_bytes := Some; uri_from_bytes := Some; uri_from_path := Some;
  uri_build scheme authority path := Some (scheme ++ b "://" ++ default [] authority ++ path);
|}.
