(* ===== verification/H2Connection.v ===== *)
(** * The HTTP/2 connection (src/src/h2/connection/mod.rs, handlers.rs)

    The state of [Connection] and every handler of it, as functions on that
    state; [step] is one turn of the event loop of [Connection::handle].  The
    transport, the user's handler and the stream tasks are the environment:
    what they do arrives as an [Event].  Proofs about these definitions are in
    the files that follow. *)

From S2P Require Import Prelude Integer HpackTable Hpack H2Error H2Codec H2Request.

(** ** Channels and messages *)

(** The channel a request body is delivered on ([kanal::bounded_async(8)]):
    [send(msg).await.is_ok()] is false once the reader is gone. *)
Class Channels `{HT : Http} : Type := {
  BodyTx : Type;
  body_channel : BodyTx;
  body_send : BodyTx → (bytes + HeaderMap + unit) → BodyTx * bool;
}.

(** [StreamMsg]; a header map appears as the list its iterator yields. *)
Inductive StreamMsg : Type :=
| MsgHeaders (status : Z) (fields : list (bytes * bytes)) (end_stream : bool)
| MsgInformational (status : Z) (fields : list (bytes * bytes))
| MsgData (data : bytes) (end_stream : bool)
| MsgTrailers (fields : list (bytes * bytes))
| MsgReset (error_code : Z)
| MsgClosed.

(** What [report_stream_error] is told. *)
Inductive Failure : Type :=
| StreamFailed (reason : Reason)
| ResetByPeer (error_code : Z)
| ResetByTask (error_code : Z).

Record ConnectionOptions : Type := MkConnectionOptions {
  send_continue_response : bool;
  max_concurrent_streams : Z;
  initial_stream_window_size : Z;
  initial_connection_window_size : Z;
  opt_max_frame_size : Z;
  opt_max_header_list_size : Z;
  enable_connect_protocol : bool;
  max_local_error_reset_streams : option Z;
  max_pending_accept_reset_streams : option Z;
  opt_max_continuation_frames : Z;
}.

(** [ConnectionOptions::default]; the [Date] header and the idle timeout
    concern the environment. *)
Definition default_options : ConnectionOptions :=
  MkConnectionOptions false 100 DEFAULT_INITIAL_WINDOW_SIZE DEFAULT_CONNECTION_WINDOW_SIZE
    DEFAULT_MAX_FRAME_SIZE u32_max false (Some 1024) (Some 20) 16.

Record PeerSettings : Type := MkPeerSettings {
  header_table_size : Z;
  enable_push : Z;
  initial_window_size : Z;
  peer_max_frame_size : Z;
  peer_max_header_list_size : Z;
}.

Definition default_peer : PeerSettings :=
  MkPeerSettings 4096 1 DEFAULT_CONNECTION_WINDOW_SIZE DEFAULT_MAX_FRAME_SIZE u32_max.

(** The bound of [closed_streams]. *)
Definition CLOSED_LIMIT : Z := 4096.
Definition i32_max : Z := 2 ^ 31 - 1.

Definition CLIENT_PREFACE : bytes :=
  b "PRI * HTTP/2.0" ++ [13; 10; 13; 10] ++ b "SM" ++ [13; 10; 13; 10].

Section connection.
Context `{HC : Channels}.

Definition BodyData (data : bytes) : bytes + HeaderMap + unit := inl (inl data).
Definition BodyTrailers (trailers : HeaderMap) : bytes + HeaderMap + unit := inl (inr trailers).
Definition BodyEndStream : bytes + HeaderMap + unit := inr ().

(** What the connection does beside writing: reports to the error callback,
    resets passed to stream tasks, stream tasks spawned with the parsed
    request, whether a body reader goes with it, and whether to answer
    [expect: 100-continue]. *)
Inductive Effect : Type :=
| Report (stream_id : Z) (failure : Failure)
| NotifyReset (stream_id error_code : Z)
| Spawn (stream_id : Z) (parsed : ParsedRequest) (has_body send_continue : bool).

(** The endpoints handed to the task ([msg_tx], [body_rx], [reset_rx],
    [wake_tx]) are the environment's; [msgs] is what is queued in [msg_rx]. *)
(** [StreamEntry]. *)
Record StreamEntry : Type := MkStreamEntry {
  body_tx : option BodyTx;
  msgs : list StreamMsg;
  field_block : bytes;
  pending_end_stream : bool;
  request_started : bool;
  response_started : bool;
  remote_ended : bool;
  local_ended : bool;
  content_length : option Z;
  data_sum : Z;
  trailers_seen : bool;
  task_done : bool;
  send_window : Z;
  pending_data : list (bytes * bool);
  deficit : Z;
  header_list_size : Z;
  continuation_frames : Z;
}.

Definition set_body_tx (x : option BodyTx) (e : StreamEntry) : StreamEntry :=
  MkStreamEntry x (msgs e) (field_block e) (pending_end_stream e) (request_started e)
    (response_started e) (remote_ended e) (local_ended e) (content_length e) (data_sum e)
    (trailers_seen e) (task_done e) (send_window e) (pending_data e) (deficit e)
    (header_list_size e) (continuation_frames e).
Definition set_msgs (x : list StreamMsg) (e : StreamEntry) : StreamEntry :=
  MkStreamEntry (body_tx e) x (field_block e) (pending_end_stream e) (request_started e)
    (response_started e) (remote_ended e) (local_ended e) (content_length e) (data_sum e)
    (trailers_seen e) (task_done e) (send_window e) (pending_data e) (deficit e)
    (header_list_size e) (continuation_frames e).
Definition set_field_block (x : bytes) (e : StreamEntry) : StreamEntry :=
  MkStreamEntry (body_tx e) (msgs e) x (pending_end_stream e) (request_started e)
    (response_started e) (remote_ended e) (local_ended e) (content_length e) (data_sum e)
    (trailers_seen e) (task_done e) (send_window e) (pending_data e) (deficit e)
    (header_list_size e) (continuation_frames e).
Definition set_pending_end_stream (x : bool) (e : StreamEntry) : StreamEntry :=
  MkStreamEntry (body_tx e) (msgs e) (field_block e) x (request_started e) (response_started e)
    (remote_ended e) (local_ended e) (content_length e) (data_sum e) (trailers_seen e)
    (task_done e) (send_window e) (pending_data e) (deficit e) (header_list_size e)
    (continuation_frames e).
Definition set_request_started (x : bool) (e : StreamEntry) : StreamEntry :=
  MkStreamEntry (body_tx e) (msgs e) (field_block e) (pending_end_stream e) x (response_started e)
    (remote_ended e) (local_ended e) (content_length e) (data_sum e) (trailers_seen e)
    (task_done e) (send_window e) (pending_data e) (deficit e) (header_list_size e)
    (continuation_frames e).
Definition set_response_started (x : bool) (e : StreamEntry) : StreamEntry :=
  MkStreamEntry (body_tx e) (msgs e) (field_block e) (pending_end_stream e) (request_started e) x
    (remote_ended e) (local_ended e) (content_length e) (data_sum e) (trailers_seen e)
    (task_done e) (send_window e) (pending_data e) (deficit e) (header_list_size e)
    (continuation_frames e).
Definition set_remote_ended (x : bool) (e : StreamEntry) : StreamEntry :=
  MkStreamEntry (body_tx e) (msgs e) (field_block e) (pending_end_stream e) (request_started e)
    (response_started e) x (local_ended e) (content_length e) (data_sum e) (trailers_seen e)
    (task_done e) (send_window e) (pending_data e) (deficit e) (header_list_size e)
    (continuation_frames e).
Definition set_local_ended (x : bool) (e : StreamEntry) : StreamEntry :=
  MkStreamEntry (body_tx e) (msgs e) (field_block e) (pending_end_stream e) (request_started e)
    (response_started e) (remote_ended e) x (content_length e) (data_sum e) (trailers_seen e)
    (task_done e) (send_window e) (pending_data e) (deficit e) (header_list_size e)
    (continuation_frames e).
Definition set_content_length (x : option Z) (e : StreamEntry) : StreamEntry :=
  MkStreamEntry (body_tx e) (msgs e) (field_block e) (pending_end_stream e) (request_started e)
    (response_started e) (remote_ended e) (local_ended e) x (data_sum e) (trailers_seen e)
    (task_done e) (send_window e) (pending_data e) (deficit e) (header_list_size e)
    (continuation_frames e).
Definition set_data_sum (x : Z) (e : StreamEntry) : StreamEntry :=
  MkStreamEntry (body_tx e) (msgs e) (field_block e) (pending_end_stream e) (request_started e)
    (response_started e) (remote_ended e) (local_ended e) (content_length e) x (trailers_seen e)
    (task_done e) (send_window e) (pending_data e) (deficit e) (header_list_size e)
    (continuation_frames e).
Definition set_trailers_seen (x : bool) (e : StreamEntry) : StreamEntry :=
  MkStreamEntry (body_tx e) (msgs e) (field_block e) (pending_end_stream e) (request_started e)
    (response_started e) (remote_ended e) (local_ended e) (content_length e) (data_sum e) x
    (task_done e) (send_window e) (pending_data e) (deficit e) (header_list_size e)
    (continuation_frames e).
Definition set_task_done (x : bool) (e : StreamEntry) : StreamEntry :=
  MkStreamEntry (body_tx e) (msgs e) (field_block e) (pending_end_stream e) (request_started e)
    (response_started e) (remote_ended e) (local_ended e) (content_length e) (data_sum e)
    (trailers_seen e) x (send_window e) (pending_data e) (deficit e) (header_list_size e)
    (continuation_frames e).
Definition set_send_window (x : Z) (e : StreamEntry) : StreamEntry :=
  MkStreamEntry (body_tx e) (msgs e) (field_block e) (pending_end_stream e) (request_started e)
    (response_started e) (remote_ended e) (local_ended e) (content_length e) (data_sum e)
    (trailers_seen e) (task_done e) x (pending_data e) (deficit e) (header_list_size e)
    (continuation_frames e).
Definition set_pending_data (x : list (bytes * bool)) (e : StreamEntry) : StreamEntry :=
  MkStreamEntry (body_tx e) (msgs e) (field_block e) (pending_end_stream e) (request_started e)
    (response_started e) (remote_ended e) (local_ended e) (content_length e) (data_sum e)
    (trailers_seen e) (task_done e) (send_window e) x (deficit e) (header_list_size e)
    (continuation_frames e).
Definition set_deficit (x : Z) (e : StreamEntry) : StreamEntry :=
  MkStreamEntry (body_tx e) (msgs e) (field_block e) (pending_end_stream e) (request_started e)
    (response_started e) (remote_ended e) (local_ended e) (content_length e) (data_sum e)
    (trailers_seen e) (task_done e) (send_window e) (pending_data e) x (header_list_size e)
    (continuation_frames e).
Definition set_header_list_size (x : Z) (e : StreamEntry) : StreamEntry :=
  MkStreamEntry (body_tx e) (msgs e) (field_block e) (pending_end_stream e) (request_started e)
    (response_started e) (remote_ended e) (local_ended e) (content_length e) (data_sum e)
    (trailers_seen e) (task_done e) (send_window e) (pending_data e) (deficit e) x
    (continuation_frames e).
Definition set_continuation_frames (x : Z) (e : StreamEntry) : StreamEntry :=
  MkStreamEntry (body_tx e) (msgs e) (field_block e) (pending_end_stream e) (request_started e)
    (response_started e) (remote_ended e) (local_ended e) (content_length e) (data_sum e)
    (trailers_seen e) (task_done e) (send_window e) (pending_data e) (deficit e)
    (header_list_size e) x.

(** [StreamEntry::new]. *)
Definition new_entry : StreamEntry :=
  MkStreamEntry None [] [] false false false false false None 0 false false 65535 [] 0 0 0.

(** [extend_block]; [take_block] is reading [field_block] and clearing it. *)
Definition extend_block (e : StreamEntry) (block : bytes) : StreamEntry :=
  set_field_block (field_block e ++ block) e.

(** [StreamEntry::send_body]. *)
Definition send_body (e : StreamEntry) (msg : bytes + HeaderMap + unit) : StreamEntry * bool :=
  match body_tx e with
  | Some tx => let '(tx, ok) := body_send tx msg in (set_body_tx (Some tx) e, ok)
  | None => (e, false)
  end.

(** The state; [drain_ids], [outbound_ids], [outbound_msgs] and
    [frame_buffer] are scratch space, cleared before each use.  [wire] is
    what has been flushed to the transport and [log] what else was done. *)
(** [Connection]. *)
Record Connection : Type := MkConnection {
  decoder : FrameDecoder;
  writer_max : Z;
  out : bytes;
  encoder : Encoder;
  request_decoder : Decoder;
  peer : PeerSettings;
  streams : gmap Z StreamEntry;
  conn_window : Z;
  closed_streams : gset Z;
  closed_order : list Z;
  opts : ConnectionOptions;
  local_error_resets : Z;
  pending_accept_resets : Z;
  complete_blocks : list Z;
  max_continuation_frames : Z;
  highest_stream_id : Z;
  closing : bool;
  graceful : bool;
  graceful_last_stream : Z;
  connection_error : option (Reason * bytes);
  wire : bytes;
  log : list Effect;
}.

Definition set_decoder (x : FrameDecoder) (c : Connection) : Connection :=
  MkConnection x (writer_max c) (out c) (encoder c) (request_decoder c) (peer c) (streams c)
    (conn_window c) (closed_streams c) (closed_order c) (opts c) (local_error_resets c)
    (pending_accept_resets c) (complete_blocks c) (max_continuation_frames c)
    (highest_stream_id c) (closing c) (graceful c) (graceful_last_stream c) (connection_error c)
    (wire c) (log c).
Definition set_writer_max (x : Z) (c : Connection) : Connection :=
  MkConnection (decoder c) x (out c) (encoder c) (request_decoder c) (peer c) (streams c)
    (conn_window c) (closed_streams c) (closed_order c) (opts c) (local_error_resets c)
    (pending_accept_resets c) (complete_blocks c) (max_continuation_frames c)
    (highest_stream_id c) (closing c) (graceful c) (graceful_last_stream c) (connection_error c)
    (wire c) (log c).
Definition set_out (x : bytes) (c : Connection) : Connection :=
  MkConnection (decoder c) (writer_max c) x (encoder c) (request_decoder c) (peer c) (streams c)
    (conn_window c) (closed_streams c) (closed_order c) (opts c) (local_error_resets c)
    (pending_accept_resets c) (complete_blocks c) (max_continuation_frames c)
    (highest_stream_id c) (closing c) (graceful c) (graceful_last_stream c) (connection_error c)
    (wire c) (log c).
Definition set_encoder (x : Encoder) (c : Connection) : Connection :=
  MkConnection (decoder c) (writer_max c) (out c) x (request_decoder c) (peer c) (streams c)
    (conn_window c) (closed_streams c) (closed_order c) (opts c) (local_error_resets c)
    (pending_accept_resets c) (complete_blocks c) (max_continuation_frames c)
    (highest_stream_id c) (closing c) (graceful c) (graceful_last_stream c) (connection_error c)
    (wire c) (log c).
Definition set_request_decoder (x : Decoder) (c : Connection) : Connection :=
  MkConnection (decoder c) (writer_max c) (out c) (encoder c) x (peer c) (streams c)
    (conn_window c) (closed_streams c) (closed_order c) (opts c) (local_error_resets c)
    (pending_accept_resets c) (complete_blocks c) (max_continuation_frames c)
    (highest_stream_id c) (closing c) (graceful c) (graceful_last_stream c) (connection_error c)
    (wire c) (log c).
Definition set_peer (x : PeerSettings) (c : Connection) : Connection :=
  MkConnection (decoder c) (writer_max c) (out c) (encoder c) (request_decoder c) x (streams c)
    (conn_window c) (closed_streams c) (closed_order c) (opts c) (local_error_resets c)
    (pending_accept_resets c) (complete_blocks c) (max_continuation_frames c)
    (highest_stream_id c) (closing c) (graceful c) (graceful_last_stream c) (connection_error c)
    (wire c) (log c).
Definition set_streams (x : gmap Z StreamEntry) (c : Connection) : Connection :=
  MkConnection (decoder c) (writer_max c) (out c) (encoder c) (request_decoder c) (peer c) x
    (conn_window c) (closed_streams c) (closed_order c) (opts c) (local_error_resets c)
    (pending_accept_resets c) (complete_blocks c) (max_continuation_frames c)
    (highest_stream_id c) (closing c) (graceful c) (graceful_last_stream c) (connection_error c)
    (wire c) (log c).
Definition set_conn_window (x : Z) (c : Connection) : Connection :=
  MkConnection (decoder c) (writer_max c) (out c) (encoder c) (request_decoder c) (peer c)
    (streams c) x (closed_streams c) (closed_order c) (opts c) (local_error_resets c)
    (pending_accept_resets c) (complete_blocks c) (max_continuation_frames c)
    (highest_stream_id c) (closing c) (graceful c) (graceful_last_stream c) (connection_error c)
    (wire c) (log c).
Definition set_closed_streams (x : gset Z) (c : Connection) : Connection :=
  MkConnection (decoder c) (writer_max c) (out c) (encoder c) (request_decoder c) (peer c)
    (streams c) (conn_window c) x (closed_order c) (opts c) (local_error_resets c)
    (pending_accept_resets c) (complete_blocks c) (max_continuation_frames c)
    (highest_stream_id c) (closing c) (graceful c) (graceful_last_stream c) (connection_error c)
    (wire c) (log c).
Definition set_closed_order (x : list Z) (c : Connection) : Connection :=
  MkConnection (decoder c) (writer_max c) (out c) (encoder c) (request_decoder c) (peer c)
    (streams c) (conn_window c) (closed_streams c) x (opts c) (local_error_resets c)
    (pending_accept_resets c) (complete_blocks c) (max_continuation_frames c)
    (highest_stream_id c) (closing c) (graceful c) (graceful_last_stream c) (connection_error c)
    (wire c) (log c).
Definition set_opts (x : ConnectionOptions) (c : Connection) : Connection :=
  MkConnection (decoder c) (writer_max c) (out c) (encoder c) (request_decoder c) (peer c)
    (streams c) (conn_window c) (closed_streams c) (closed_order c) x (local_error_resets c)
    (pending_accept_resets c) (complete_blocks c) (max_continuation_frames c)
    (highest_stream_id c) (closing c) (graceful c) (graceful_last_stream c) (connection_error c)
    (wire c) (log c).
Definition set_local_error_resets (x : Z) (c : Connection) : Connection :=
  MkConnection (decoder c) (writer_max c) (out c) (encoder c) (request_decoder c) (peer c)
    (streams c) (conn_window c) (closed_streams c) (closed_order c) (opts c) x
    (pending_accept_resets c) (complete_blocks c) (max_continuation_frames c)
    (highest_stream_id c) (closing c) (graceful c) (graceful_last_stream c) (connection_error c)
    (wire c) (log c).
Definition set_pending_accept_resets (x : Z) (c : Connection) : Connection :=
  MkConnection (decoder c) (writer_max c) (out c) (encoder c) (request_decoder c) (peer c)
    (streams c) (conn_window c) (closed_streams c) (closed_order c) (opts c)
    (local_error_resets c) x (complete_blocks c) (max_continuation_frames c) (highest_stream_id c)
    (closing c) (graceful c) (graceful_last_stream c) (connection_error c) (wire c) (log c).
Definition set_complete_blocks (x : list Z) (c : Connection) : Connection :=
  MkConnection (decoder c) (writer_max c) (out c) (encoder c) (request_decoder c) (peer c)
    (streams c) (conn_window c) (closed_streams c) (closed_order c) (opts c)
    (local_error_resets c) (pending_accept_resets c) x (max_continuation_frames c)
    (highest_stream_id c) (closing c) (graceful c) (graceful_last_stream c) (connection_error c)
    (wire c) (log c).
Definition set_max_continuation_frames (x : Z) (c : Connection) : Connection :=
  MkConnection (decoder c) (writer_max c) (out c) (encoder c) (request_decoder c) (peer c)
    (streams c) (conn_window c) (closed_streams c) (closed_order c) (opts c)
    (local_error_resets c) (pending_accept_resets c) (complete_blocks c) x (highest_stream_id c)
    (closing c) (graceful c) (graceful_last_stream c) (connection_error c) (wire c) (log c).
Definition set_highest_stream_id (x : Z) (c : Connection) : Connection :=
  MkConnection (decoder c) (writer_max c) (out c) (encoder c) (request_decoder c) (peer c)
    (streams c) (conn_window c) (closed_streams c) (closed_order c) (opts c)
    (local_error_resets c) (pending_accept_resets c) (complete_blocks c)
    (max_continuation_frames c) x (closing c) (graceful c) (graceful_last_stream c)
    (connection_error c) (wire c) (log c).
Definition set_closing (x : bool) (c : Connection) : Connection :=
  MkConnection (decoder c) (writer_max c) (out c) (encoder c) (request_decoder c) (peer c)
    (streams c) (conn_window c) (closed_streams c) (closed_order c) (opts c)
    (local_error_resets c) (pending_accept_resets c) (complete_blocks c)
    (max_continuation_frames c) (highest_stream_id c) x (graceful c) (graceful_last_stream c)
    (connection_error c) (wire c) (log c).
Definition set_graceful (x : bool) (c : Connection) : Connection :=
  MkConnection (decoder c) (writer_max c) (out c) (encoder c) (request_decoder c) (peer c)
    (streams c) (conn_window c) (closed_streams c) (closed_order c) (opts c)
    (local_error_resets c) (pending_accept_resets c) (complete_blocks c)
    (max_continuation_frames c) (highest_stream_id c) (closing c) x (graceful_last_stream c)
    (connection_error c) (wire c) (log c).
Definition set_graceful_last_stream (x : Z) (c : Connection) : Connection :=
  MkConnection (decoder c) (writer_max c) (out c) (encoder c) (request_decoder c) (peer c)
    (streams c) (conn_window c) (closed_streams c) (closed_order c) (opts c)
    (local_error_resets c) (pending_accept_resets c) (complete_blocks c)
    (max_continuation_frames c) (highest_stream_id c) (closing c) (graceful c) x
    (connection_error c) (wire c) (log c).
Definition set_connection_error (x : option (Reason * bytes)) (c : Connection) : Connection :=
  MkConnection (decoder c) (writer_max c) (out c) (encoder c) (request_decoder c) (peer c)
    (streams c) (conn_window c) (closed_streams c) (closed_order c) (opts c)
    (local_error_resets c) (pending_accept_resets c) (complete_blocks c)
    (max_continuation_frames c) (highest_stream_id c) (closing c) (graceful c)
    (graceful_last_stream c) x (wire c) (log c).
Definition set_wire (x : bytes) (c : Connection) : Connection :=
  MkConnection (decoder c) (writer_max c) (out c) (encoder c) (request_decoder c) (peer c)
    (streams c) (conn_window c) (closed_streams c) (closed_order c) (opts c)
    (local_error_resets c) (pending_accept_resets c) (complete_blocks c)
    (max_continuation_frames c) (highest_stream_id c) (closing c) (graceful c)
    (graceful_last_stream c) (connection_error c) x (log c).
Definition set_log (x : list Effect) (c : Connection) : Connection :=
  MkConnection (decoder c) (writer_max c) (out c) (encoder c) (request_decoder c) (peer c)
    (streams c) (conn_window c) (closed_streams c) (closed_order c) (opts c)
    (local_error_resets c) (pending_accept_resets c) (complete_blocks c)
    (max_continuation_frames c) (highest_stream_id c) (closing c) (graceful c)
    (graceful_last_stream c) (connection_error c) (wire c) x.

(** ** Shared steps *)

Definition put (sid : Z) (e : StreamEntry) (c : Connection) : Connection :=
  set_streams (<[sid := e]> (streams c)) c.
(** [self.streams.remove(&id)]. *)
Definition remove (sid : Z) (c : Connection) : Connection := set_streams (delete sid (streams c)) c.
(** [self.writer.write_..(&mut self.out, ..)]. *)
Definition emit (write : bytes → bytes) (c : Connection) : Connection := set_out (write (out c)) c.
Definition logged (x : Effect) (c : Connection) : Connection := set_log (log c ++ [x]) c.

(** [report_stream_error]. *)
Definition report_stream_error (sid : Z) (failure : Failure) (c : Connection) : Connection :=
  logged (Report sid failure) c.

(** [goaway]. *)
Definition goaway (reason : Reason) (debug : bytes) (c : Connection) : Connection :=
  let c := match connection_error c with
    | None => set_connection_error (Some (reason, debug)) c
    | Some _ => c
    end in
  let c := set_closing true c in
  emit (λ out, write_goaway out (highest_stream_id c) (code reason) debug) c.

(** [mark_closed]. *)
Definition mark_closed (sid : Z) (c : Connection) : Connection :=
  let c := if CLOSED_LIMIT <=? Z.of_nat (base.size (closed_streams c))
    then match closed_order c with
      | old :: order => set_closed_streams (closed_streams c ∖ {[old]}) (set_closed_order order c)
      | [] => c
      end
    else c in
  if bool_decide (sid ∈ closed_streams c) then c
  else set_closed_order (closed_order c ++ [sid]) (set_closed_streams ({[sid]} ∪ closed_streams c) c).

Definition close_stream (sid : Z) (c : Connection) : Connection := remove sid (mark_closed sid c).

(** [stream_error]. *)
Definition stream_error (sid : Z) (reason : Reason) (c : Connection) : Connection :=
  let c := report_stream_error sid (StreamFailed reason) c in
  let reset c := close_stream sid (emit (λ out, write_reset out sid (code reason)) c) in
  if bool_decide (reason ≠ InternalError) then
    if match max_local_error_reset_streams (opts c) with
       | Some max => max <=? local_error_resets c
       | None => false
       end
    then goaway EnhanceYourCalm (b "too many resets for peer protocol errors") c
    else reset (set_local_error_resets (local_error_resets c + 1) c)
  else reset c.

(** ** Flow-controlled DATA *)

(** What [pump_stream_data] and [pump_stream_data_drr] do once the front
    chunk [data] has been fully sent: pop it and retire the stream when it
    carried END_STREAM and the task is gone.  The flag says the stream was
    retired. *)
Definition pop_front (sid : Z) (e : StreamEntry) (rest : list (bytes * bool)) (end_ : bool)
    (c : Connection) : Connection * bool :=
  let e := set_pending_data rest e in
  let e := if end_ then set_local_ended true e else e in
  let c := put sid e c in
  if end_ && task_done e then (close_stream sid c, true) else (c, false).

(** Sends [amount] octets of the front chunk; then as above, or leaves the
    tail at the front.  The second flag is [all]. *)
Definition send_front (sid : Z) (e : StreamEntry) (data : bytes) (end_stream : bool)
    (rest : list (bytes * bool)) (amount : Z) (c : Connection) : Connection * bool * bool :=
  let all := amount =? zlen data in
  let frame_end := end_stream && all in
  let chunk := take (Z.to_nat amount) data in
  let e := set_send_window (send_window e - amount) e in
  let c := emit (λ out, write_data out sid frame_end chunk) c in
  let c := set_conn_window (conn_window c - amount) c in
  if all then (pop_front sid e rest frame_end c, true)
  else (put sid (set_pending_data ((drop (Z.to_nat amount) data, end_stream) :: rest) e) c, false, false).

(** One turn of the loop of [pump_stream_data]; the flag says it goes on. *)
Definition pump_turn (sid : Z) (c : Connection) : Connection * bool :=
  match streams c !! sid with
  | None => (c, false)
  | Some e =>
      if local_ended e then (c, false)
      else match pending_data e with
      | [] => (c, false)
      | (data, end_stream) :: rest =>
          if bool_decide (data = []) then
            let c := emit (λ out, write_data out sid end_stream data) c in
            let '(c, retired) := pop_front sid e rest end_stream c in (c, negb retired)
          else
            let available := Z.min (conn_window c) (send_window e) in
            if available <=? 0 then (c, false)
            else
              let orig_amount := Z.min (zlen data) available in
              let amount := Z.min orig_amount (peer_max_frame_size (peer c)) in
              let limited := negb (orig_amount =? amount) in
              let '(c, retired, all) := send_front sid e data end_stream rest amount c in
              (c, if all then negb retired else limited)
      end
  end.

Fixpoint pump (fuel : nat) (sid : Z) (c : Connection) : Connection :=
  match fuel with
  | O => c
  | S fuel => match pump_turn sid c with (c, true) => pump fuel sid c | (c, false) => c end
  end.

(** Turns the queue of a stream can take: one per octet and per chunk. *)
Definition queue_turns (q : list (bytes * bool)) : nat := foldr (λ d n, S (length d.1) + n)%nat O q.
Definition stream_turns (sid : Z) (c : Connection) : nat :=
  match streams c !! sid with Some e => queue_turns (pending_data e) | None => O end.

(** [pump_stream_data]; [pump_fuel] shows the fuel is enough. *)
Definition pump_stream_data (sid : Z) (c : Connection) : Connection := pump (S (stream_turns sid c)) sid c.

(** One turn of the loop of [pump_stream_data_drr]: only an empty chunk is
    followed by another. *)
Definition pump_drr_turn (sid : Z) (c : Connection) : Connection * bool :=
  match streams c !! sid with
  | None => (c, false)
  | Some e =>
      if local_ended e then (c, false)
      else match pending_data e with
      | [] => (c, false)
      | (data, end_stream) :: rest =>
          if bool_decide (data = []) then
            let c := emit (λ out, write_data out sid end_stream data) c in
            let '(c, retired) := pop_front sid e rest end_stream c in (c, negb retired)
          else if deficit e =? 0 then (c, false)
          else
            let available := Z.min (conn_window c) (send_window e) in
            if available <=? 0 then (c, false)
            else
              let orig_amount := Z.min (zlen data) available in
              let capped := Z.min orig_amount (deficit e) in
              let amount := Z.min capped (peer_max_frame_size (peer c)) in
              if amount =? 0 then (c, false)
              else
                let e := set_deficit (deficit e - amount) e in
                let '(c, _, _) := send_front sid e data end_stream rest amount c in (c, false)
      end
  end.

Fixpoint pump_drr (fuel : nat) (sid : Z) (c : Connection) : Connection :=
  match fuel with
  | O => c
  | S fuel => match pump_drr_turn sid c with (c, true) => pump_drr fuel sid c | (c, false) => c end
  end.

(** [pump_stream_data_drr]. *)
Definition pump_stream_data_drr (sid : Z) (c : Connection) : Connection :=
  pump_drr (S (stream_turns sid c)) sid c.

(** [!entry.pending_data.is_empty() && !entry.local_ended] of a stream. *)
Definition has_pending (c : Connection) (id : Z) : bool :=
  match streams c !! id with
  | Some e => negb (bool_decide (pending_data e = [])) && negb (local_ended e)
  | None => false
  end.

(** The [for &id in &ids] loop of [drain_pending_data]: the connection,
    [next_ids] and [progress]. *)
Fixpoint drain_round (ids : list Z) (quantum : Z) (c : Connection) (next_ids : list Z) (progress : bool)
    : Connection * list Z * bool :=
  match ids with
  | [] => (c, next_ids, progress)
  | id :: ids =>
      match streams c !! id with
      | None => drain_round ids quantum c next_ids progress
      | Some e =>
          if bool_decide (pending_data e = []) || local_ended e || (send_window e <=? 0)
          then drain_round ids quantum c next_ids progress
          else
            let before_conn := conn_window c in
            let c := put id (set_deficit (saturating_add64 (deficit e) quantum) e) c in
            let c := pump_stream_data_drr id c in
            let progress := progress || (conn_window c <? before_conn) in
            let next_ids := if has_pending c id then next_ids ++ [id] else next_ids in
            if conn_window c <=? 0 then (c, next_ids, progress)
            else drain_round ids quantum c next_ids progress
      end
  end.

Fixpoint drain_rounds (fuel : nat) (ids : list Z) (quantum : Z) (c : Connection) : Connection :=
  match fuel with
  | O => c
  | S fuel =>
      if (0 <? conn_window c) && negb (bool_decide (ids = []))
      then
        let '(c, next_ids, progress) := drain_round ids quantum c [] false in
        if progress then drain_rounds fuel next_ids quantum c else c
      else c
  end.

(** The order in which [self.streams.iter()] visits the map. *)
Context (iteration : Connection → list Z).

(** [drain_pending_data]; a round that goes on has lowered the connection
    window, so the fuel is enough. *)
Definition drain_pending_data (stream_id : option Z) (c : Connection) : Connection :=
  match stream_id with
  | Some id => pump_stream_data id c
  | None =>
      let quantum := peer_max_frame_size (peer c) in
      let ids := filter (λ id, has_pending c id = true) (iteration c) in
      drain_rounds (S (Z.to_nat (conn_window c))) ids quantum c
  end.

(** [handle_window_update]. *)
Definition handle_window_update (sid increment : Z) (c : Connection) : Connection :=
  if increment =? 0 then c
  else if sid =? 0 then
    if i32_max - increment <? conn_window c
    then goaway FlowControlError (b "connection window overflow") c
    else drain_pending_data None (set_conn_window (conn_window c + increment) c)
  else match streams c !! sid with
  | None =>
      if bool_decide (sid ∈ closed_streams c) then c
      else goaway ProtocolError (b "window update on idle stream") c
  | Some e =>
      if i32_max - increment <? send_window e then stream_error sid FlowControlError c
      else drain_pending_data (Some sid) (put sid (set_send_window (send_window e + increment) e) c)
  end.

(** ** SETTINGS *)

(** [for entry in self.streams.values_mut()] of the initial-window arm. *)
Definition shift_windows (delta : Z) (m : gmap Z StreamEntry) : gmap Z StreamEntry :=
  (λ e, set_send_window (send_window e + delta) e) <$> m.

Definition windows_overflow (m : gmap Z StreamEntry) : bool :=
  existsb (λ p, i32_max <? send_window p.2) (map_to_list m).

(** One setting; the flag is false when [apply_peer_settings] returns. *)
Definition apply_setting (s : Setting) (c : Connection) : Connection * bool :=
  let p := peer c in
  let v := set_value s in
  match set_id s with
  | 0x01 =>
      let c := set_peer (MkPeerSettings v (enable_push p) (initial_window_size p)
        (peer_max_frame_size p) (peer_max_header_list_size p)) c in
      (set_encoder (encoder_queue_size_update (encoder c) v) c, true)
  | 0x02 =>
      (set_peer (MkPeerSettings (header_table_size p) v (initial_window_size p)
        (peer_max_frame_size p) (peer_max_header_list_size p)) c, true)
  | 0x04 =>
      let delta := v - initial_window_size p in
      let c := set_peer (MkPeerSettings (header_table_size p) (enable_push p) v
        (peer_max_frame_size p) (peer_max_header_list_size p)) c in
      let c := set_streams (shift_windows delta (streams c)) c in
      (if windows_overflow (streams c)
       then goaway FlowControlError (b "initial window overflow") c else c, true)
  | 0x05 =>
      if (v <? DEFAULT_MAX_FRAME_SIZE) || (MAX_FRAME_SIZE_LIMIT <? v)
      then (goaway ProtocolError (b "invalid SETTINGS_MAX_FRAME_SIZE") c, false)
      else
        let c := set_peer (MkPeerSettings (header_table_size p) (enable_push p) (initial_window_size p)
          v (peer_max_header_list_size p)) c in
        (set_writer_max v c, true)
  | 0x06 =>
      (set_peer (MkPeerSettings (header_table_size p) (enable_push p) (initial_window_size p)
        (peer_max_frame_size p) v) c, true)
  | _ => (c, true)
  end.

(** [apply_peer_settings]. *)
Fixpoint apply_peer_settings (l : list Setting) (c : Connection) : Connection :=
  match l with
  | [] => c
  | s :: l => match apply_setting s c with (c, true) => apply_peer_settings l c | (c, false) => c end
  end.

(** ** Field blocks *)

(** [check_continuation_flood]. *)
Definition check_continuation_flood (sid : Z) (c : Connection) : Connection :=
  match streams c !! sid with
  | None => c
  | Some e =>
      let n := continuation_frames e + 1 in
      let c := put sid (set_continuation_frames n e) c in
      if max_continuation_frames c <? n then
        let c := if bool_decide (block_stream (decoder c) = Some sid)
                 then set_decoder (clear_block (decoder c)) c else c in
        stream_error sid ProtocolError c
      else c
  end.

(** [open_request_stream]. *)
Definition open_request_stream (sid : Z) (end_stream end_headers : bool) (block : bytes)
    (c : Connection) : Connection :=
  if (sid =? 0) || (sid mod 2 =? 0) then goaway ProtocolError (b "headers on invalid stream") c
  else if sid <=? highest_stream_id c then goaway ProtocolError (b "non-increasing stream id") c
  else
    let c := set_highest_stream_id sid c in
    if max_concurrent_streams (opts c) <=? u32 (Z.of_nat (base.size (streams c))) then
      let c := report_stream_error sid (StreamFailed RefusedStream) c in
      emit (λ out, write_reset out sid (code RefusedStream)) c
    else
      let e := set_send_window (initial_window_size (peer c)) new_entry in
      let e := if negb end_stream then set_body_tx (Some body_channel) e else e in
      let e := set_pending_end_stream end_stream e in
      let e := extend_block e block in
      let '(e, c) := if end_headers
        then (e, set_complete_blocks (complete_blocks c ++ [sid]) c)
        else (set_continuation_frames 1 e, c) in
      put sid e c.

(** [handle_headers_frame]. *)
Definition handle_headers_frame (sid : Z) (end_stream end_headers : bool) (block : bytes)
    (c : Connection) : Connection :=
  if graceful c && (graceful_last_stream c <? sid) then c
  else match streams c !! sid with
  | None => open_request_stream sid end_stream end_headers block c
  | Some e =>
      if remote_ended e then stream_error sid StreamClosed c
      else
        let e := extend_block (set_pending_end_stream end_stream e) block in
        if end_headers
        then set_complete_blocks (complete_blocks c ++ [sid]) (put sid (set_continuation_frames 0 e) c)
        else check_continuation_flood sid (put sid e c)
  end.

(** [handle_continuation]. *)
Definition handle_continuation (sid : Z) (end_headers : bool) (block : bytes) (c : Connection)
    : Connection :=
  match streams c !! sid with
  | None => goaway ProtocolError (b "continuation on unknown stream") c
  | Some e =>
      let e := extend_block e block in
      if end_headers
      then set_complete_blocks (complete_blocks c ++ [sid]) (put sid (set_continuation_frames 0 e) c)
      else check_continuation_flood sid (put sid e c)
  end.

(** [take_complete_block]: the loop over the queue, then on the connection. *)
Fixpoint pop_complete (m : gmap Z StreamEntry) (blocks : list Z) : option Z * list Z :=
  match blocks with
  | [] => (None, [])
  | sid :: blocks => if bool_decide (is_Some (m !! sid)) then (Some sid, blocks) else pop_complete m blocks
  end.

Definition take_complete_block (c : Connection) : option Z * Connection :=
  let '(sid, blocks) := pop_complete (streams c) (complete_blocks c) in
  (sid, set_complete_blocks blocks c).

(** ** Request bodies *)

(** [end_request_body]. *)
Definition end_request_body (sid : Z) (c : Connection) : Connection :=
  match streams c !! sid with
  | None => c
  | Some e =>
      if remote_ended e then c
      else
        let e := set_remote_ended true e in
        if match content_length e with Some cl => negb (data_sum e =? cl) | None => false end
        then stream_error sid ProtocolError (put sid e c)
        else match body_tx e with
        | None => put sid e c
        | Some _ =>
            let '(e, ok) := send_body e BodyEndStream in
            let c := put sid e c in
            if ok then c else close_stream sid c
        end
  end.

(** [handle_data_frame]. *)
Definition handle_data_frame (sid : Z) (end_stream : bool) (data : bytes) (c : Connection) : Connection :=
  if bool_decide (data = []) && negb end_stream then c
  else
    let c := if negb (bool_decide (data = [])) then
        emit (λ out, write_window_update out 0 (u32 (zlen data)))
          (emit (λ out, write_window_update out sid (u32 (zlen data))) c)
      else c in
    match streams c !! sid with
    | None =>
        if bool_decide (sid ∈ closed_streams c) then
          emit (λ out, write_reset out sid (code StreamClosed))
            (report_stream_error sid (StreamFailed StreamClosed) c)
        else goaway ProtocolError (b "data on idle stream") c
    | Some e =>
        if negb (request_started e) || remote_ended e then stream_error sid StreamClosed c
        else
          let e := set_data_sum (data_sum e + zlen data) e in
          let '(e, ok) := send_body e (BodyData data) in
          let c := put sid e c in
          if negb ok then close_stream sid c
          else if end_stream then end_request_body sid c else c
    end.

(** [handle_reset_frame]. *)
Definition handle_reset_frame (sid error_code : Z) (c : Connection) : Connection :=
  match streams c !! sid with
  | None =>
      if bool_decide (sid ∈ closed_streams c) then c
      else goaway ProtocolError (b "rst on idle stream") c
  | Some e =>
      let c := remove sid c in
      let c := report_stream_error sid (ResetByPeer error_code) c in
      let finish c :=
        let c := mark_closed sid c in
        if negb (remote_ended e) then logged (NotifyReset sid error_code) c else c in
      if negb (response_started e) then
        if match max_pending_accept_reset_streams (opts c) with
           | Some max => max <=? pending_accept_resets c
           | None => false
           end
        then goaway EnhanceYourCalm (b "too many resets before response") c
        else finish (set_pending_accept_resets (pending_accept_resets c + 1) c)
      else finish c
  end.

(** [spawn_request]. *)
Definition spawn_request (sid : Z) (end_stream : bool) (parsed : ParsedRequest) (c : Connection) : Connection :=
  match streams c !! sid with
  | None => c
  | Some e =>
      let e := set_content_length (H2Request.content_length parsed) (set_request_started true e) in
      let c := put sid e c in
      let send_continue := send_continue_response (opts c) && expect_continue parsed in
      let has_body := negb (is_connect parsed) && bool_decide (is_Some (body_tx e)) in
      if end_stream && match H2Request.content_length parsed with Some cl => negb (cl =? 0) | None => false end
      then stream_error sid ProtocolError c
      else logged (Spawn sid parsed has_body send_continue) (put sid (set_remote_ended end_stream e) c)
  end.

(** [finalize_field_block]. *)
Definition finalize_field_block (sid : Z) (c : Connection) : Connection :=
  match streams c !! sid with
  | None => c
  | Some e =>
      let block := field_block e in
      let end_stream := pending_end_stream e in
      let '(dec, list_size, decoded) := Hpack.decode (request_decoder c) block (header_list_size e) in
      let e := set_header_list_size list_size (set_field_block [] e) in
      let c := put sid e (set_request_decoder dec c) in
      match decoded with
      | Err HeaderListTooLarge => stream_error sid ProtocolError c
      | Err _ => goaway CompressionError (b "hpack decode error") c
      | Ok decoded =>
          if request_started e then
            match parse_trailers decoded with
            | Err Malformed => stream_error sid ProtocolError c
            | Ok trailers =>
                if trailers_seen e then stream_error sid ProtocolError c
                else
                  let e := set_trailers_seen true e in
                  let c := put sid e c in
                  if negb end_stream then stream_error sid ProtocolError c
                  else
                    let '(e, ok) := send_body e (BodyTrailers trailers) in
                    let c := put sid e c in
                    if negb ok then close_stream sid c
                    else if end_stream then end_request_body sid c else c
            end
          else
            match parse_request decoded with
            | Err Malformed => stream_error sid ProtocolError c
            | Ok parsed =>
                let c := if end_stream then end_request_body sid c else c in
                spawn_request sid end_stream parsed c
            end
      end
  end.

(** ** Responses *)

(** The three digits of a status code. *)
Definition status_value (status : Z) : bytes :=
  [u8 (48 + status / 100); u8 (48 + status / 10 mod 10); u8 (48 + status mod 10)].

(** [write_field_block] with the writer's limit; it never runs out of fuel
    ([write_rest_total]). *)
Definition emit_block (sid : Z) (end_stream : bool) (block : bytes) (c : Connection) : Connection :=
  emit (λ out, default out (write_field_block (writer_max c) out sid end_stream block)) c.

(** [self.encoder.encode(&headers, ..)] followed by [write_field_block]. *)
Definition encode_and_emit (sid : Z) (end_stream : bool) (fields : list Header) (c : Connection) : Connection :=
  let '(enc, block) := Hpack.encode (encoder c) fields [] in
  emit_block sid end_stream block (set_encoder enc c).

(** [encode_field_block]. *)
Definition encode_field_block (sid : Z) (end_stream : bool) (status : Z) (fields : list (bytes * bytes))
    (c : Connection) : Connection :=
  let kept := filter (λ f, is_connection_specific f.1 = false
    ∧ ¬ (f.1 = b "te" ∧ te_is_trailers f.2 = false)) fields in
  let fields := new_header (b ":status") (status_value status)
    :: map (λ f, new_header f.1 f.2) kept in
  encode_and_emit sid end_stream fields c.

(** [handle_stream_msg]. *)
Definition handle_stream_msg (sid : Z) (msg : StreamMsg) (c : Connection) : Connection :=
  match msg with
  | MsgInformational status fields => encode_field_block sid false status fields c
  | MsgHeaders status fields end_stream =>
      match streams c !! sid with
      | None => encode_field_block sid end_stream status fields c
      | Some e =>
          if local_ended e then c
          else encode_field_block sid end_stream status fields
            (put sid (set_response_started true (set_local_ended end_stream e)) c)
      end
  | MsgData data end_stream =>
      match streams c !! sid with
      | None => c
      | Some e =>
          if local_ended e then c
          else
            let e := set_response_started true e in
            let e := set_pending_data (pending_data e ++ [(data, end_stream)]) e in
            pump_stream_data sid (put sid e c)
      end
  | MsgTrailers fields =>
      match streams c !! sid with
      | None => c
      | Some e =>
          if local_ended e then c
          else
            let c := put sid (set_response_started true (set_local_ended true e)) c in
            encode_and_emit sid true (map (λ f, new_header f.1 f.2) fields) c
      end
  | MsgReset error_code =>
      let c := report_stream_error sid (ResetByTask error_code) c in
      close_stream sid (emit (λ out, write_reset out sid error_code) c)
  | MsgClosed =>
      match streams c !! sid with
      | None => c
      | Some e =>
          let c := put sid (set_task_done true e) c in
          if local_ended e then close_stream sid c else c
      end
  end.

(** The merging of a chunk with the blank END_STREAM chunk after it, in the
    [while let Some(mut msg)] loop of [drain_outbound]. *)
Fixpoint merge_end (l : list StreamMsg) : list StreamMsg :=
  match l with
  | [] => []
  | MsgData data end_stream :: l' =>
      match l' with
      | MsgData [] true :: l'' => MsgData data true :: merge_end l''
      | _ => MsgData data end_stream :: merge_end l'
      end
  | msg :: l' => msg :: merge_end l'
  end.

(** The body of [for stream_id in ids]. *)
Definition drain_stream (sid : Z) (c : Connection) : Connection :=
  match streams c !! sid with
  | None => c
  | Some e =>
      if negb (bool_decide (pending_data e = [])) then c
      else foldl (λ c msg, handle_stream_msg sid msg c) (put sid (set_msgs [] e) c) (merge_end (msgs e))
  end.

(** [drain_outbound]. *)
Definition drain_outbound (c : Connection) : Connection :=
  let ids := filter (λ id, match streams c !! id with
    | Some e => bool_decide (msgs e = []) | None => true end = false) (iteration c) in
  foldl (λ c id, drain_stream id c) c ids.

(** [begin_graceful_shutdown] and [finish_graceful_shutdown]. *)
Definition graceful_goaway (c : Connection) : Connection :=
  emit (λ out, write_goaway out (graceful_last_stream c) (code NoError) (b "graceful shutdown")) c.
Definition begin_graceful_shutdown (c : Connection) : Connection :=
  if graceful c || closing c then c
  else graceful_goaway (set_graceful_last_stream (highest_stream_id c) (set_graceful true c)).
Definition finish_graceful_shutdown (c : Connection) : Connection :=
  if closing c then c else graceful_goaway c.

(** [flush]. *)
Definition flush (c : Connection) : Connection := set_out [] (set_wire (wire c ++ out c) c).

(** ** The frame loop *)

(** The [match frame] of [process_frames]; [None] is [return Ok(true)]. *)
Definition dispatch (f : Frame) (c : Connection) : option Connection :=
  match f with
  | Settings false l => Some (emit write_settings_ack (apply_peer_settings l c))
  | Settings true _ => Some c
  | Ping false p => Some (emit (λ out, write_ping_ack out p) c)
  | Ping true _ => Some c
  | GoAway _ _ _ => None
  | Headers sid end_stream end_headers _ block =>
      Some (handle_headers_frame sid end_stream end_headers block c)
  | Continuation sid end_headers block => Some (handle_continuation sid end_headers block c)
  | Data sid end_stream data => Some (handle_data_frame sid end_stream data c)
  | Reset_ sid error_code => Some (handle_reset_frame sid error_code c)
  | PriorityFrame _ _ => Some c
  | WindowUpdate sid increment => Some (handle_window_update sid increment c)
  | PushPromise _ _ _ _ => Some (goaway ProtocolError (b "push promise to server") c)
  | Unknown _ _ _ _ => Some c
  end.

(** What follows the dispatch in the loop: finish a completed field block. *)
Definition finish_block (c : Connection) : Connection :=
  match take_complete_block c with
  | (Some sid, c) => finalize_field_block sid c
  | (None, c) => c
  end.

(** One turn of the loop of [process_frames]; [Some b] is [return Ok(b)]. *)
Definition process_turn (c : Connection) : Connection * option bool :=
  let '(d, r) := next_frame (decoder c) in
  let c := set_decoder d c in
  match r with
  | Ok None => (c, Some false)
  | Err error => (flush (goaway (reason error) (b "frame error") c), Some true)
  | Ok (Some f) =>
      match dispatch f c with
      | None => (c, Some true)
      | Some c =>
          let c := finish_block c in
          if closing c then (flush c, Some true) else (c, None)
      end
  end.

(** [process_frames]; the fuel is enough by [process_frames_total]. *)
Fixpoint process_frames (fuel : nat) (c : Connection) : option (Connection * bool) :=
  match fuel with
  | O => None
  | S fuel =>
      match process_turn c with
      | (c, Some ended) => Some (c, ended)
      | (c, None) => process_frames fuel c
      end
  end.

(** ** The event loop *)

(** [Connection::new]. *)
Definition new_connection : Connection :=
  MkConnection (new_frame_decoder DEFAULT_MAX_FRAME_SIZE) DEFAULT_MAX_FRAME_SIZE [] (new_encoder 4096)
    (new_decoder 4096) default_peer ∅ DEFAULT_CONNECTION_WINDOW_SIZE ∅ [] default_options 0 0 [] 16 0
    false false 0 None [] [].

(** The start of [handle]: the options, then the outcome of [read_preface]
    ([None] is the timeout).  [None] when the connection ends there. *)
Definition configure (o : ConnectionOptions) (c : Connection) : Connection :=
  let c := set_opts o c in
  let c := set_request_decoder (set_max_header_list_size (request_decoder c) (opt_max_header_list_size o)) c in
  let c := set_decoder (set_max_frame_size (decoder c) (opt_max_frame_size o)) c in
  let c := set_conn_window (initial_connection_window_size o) c in
  set_max_continuation_frames (opt_max_continuation_frames o) c.

Definition announce (c : Connection) : Connection :=
  let o := opts c in
  flush (emit (λ out, write_settings out
    [MkSetting 0x03 (max_concurrent_streams o); MkSetting 0x04 (initial_stream_window_size o);
     MkSetting 0x05 (opt_max_frame_size o); MkSetting 0x08 (if enable_connect_protocol o then 1 else 0)]) c).

Definition start (o : ConnectionOptions) (preface : option bytes) : Connection * bool :=
  let c := configure o new_connection in
  match preface with
  | None => (c, false)
  | Some magic =>
      if bool_decide (magic = CLIENT_PREFACE) then (announce c, true)
      else (flush (goaway ProtocolError (b "invalid connection preface") c), false)
  end.

(** What wakes the loop, and what the tasks and body readers do between its
    turns. *)
Inductive Event : Type :=
| Read (octets : bytes)
| Wake
| Shutdown
| Idle
| TaskMsg (stream_id : Z) (msg : StreamMsg)
| BodyChange (stream_id : Z) (tx : BodyTx).

(** One turn of the [while] loop of [handle]; false when it is left. *)
Definition step (ev : Event) (c : Connection) : Connection * bool :=
  match ev with
  | Read octets =>
      if bool_decide (octets = []) then (c, false)
      else
        let c := set_decoder (extend (decoder c) octets) c in
        match process_frames (S (length (buf (decoder c)))) c with
        | Some (c, ended) => (flush (drain_outbound c), negb ended)
        | None => (c, false)
        end
  | Wake => (flush (drain_outbound c), true)
  | Shutdown => (flush (begin_graceful_shutdown c), true)
  | Idle => (flush (begin_graceful_shutdown c), false)
  | TaskMsg sid msg =>
      (match streams c !! sid with
       | Some e => put sid (set_msgs (msgs e ++ [msg]) e) c
       | None => c
       end, true)
  | BodyChange sid tx =>
      (match streams c !! sid with
       | Some e => match body_tx e with Some _ => put sid (set_body_tx (Some tx) e) c | None => c end
       | None => c
       end, true)
  end.

(** The loop over a sequence of events, with its exit condition, and the
    end of [handle]. *)
Fixpoint run (c : Connection) (evs : list Event) : Connection :=
  match evs with
  | [] => c
  | ev :: evs =>
      if graceful c && bool_decide (streams c = ∅) then c
      else match step ev c with (c, true) => run c evs | (c, false) => c end
  end.

Definition finish (c : Connection) : Connection :=
  flush (if graceful c then finish_graceful_shutdown c else c).
End connection.
