(* ===== verification/H2Steps.v ===== *)
(** * Micro-steps of the HTTP/2 connection

    Every handler of [H2Connection] is a sequence of assignments to single
    fields; [micro] lists them with the restrictions the code keeps (output and
    log only grow, [closing] is never reset, ...).  A preorder that contains
    the micro-steps therefore holds across every handler ([micros_ind]). *)

From S2P Require Import Prelude Integer HpackTable Hpack H2Error H2Codec H2Request H2Connection.

(** ** Writers only append *)

Definition appends (w : bytes → bytes) : Prop := ∀ out, ∃ k, w out = out ++ k.

Lemma appends_frame f : appends (λ out, write_frame out f).
Proof. intros out. exists (write_frame [] f). apply write_frame_out. Qed.

Lemma write_rest_appends fuel capacity out sid rest o :
  write_rest fuel capacity out sid rest = Some o → ∃ k, o = out ++ k.
Proof.
  revert out rest. induction fuel as [|fuel IH]; intros out rest H; [done|]. cbn [write_rest] in H.
  assert (∀ eh block, ∃ k, write_continuation out sid eh block = out ++ k) as Hc
    by (intros eh block; apply (appends_frame (Continuation sid eh block))).
  destruct (capacity <? zlen rest).
  - destruct (Hc false (take (Z.to_nat capacity) rest)) as [k Hk]. rewrite Hk in H.
    apply IH in H as [k' ->]. exists (k ++ k'). by rewrite app_assoc.
  - injection H as <-. apply Hc.
Qed.

Lemma appends_field_block capacity sid es block :
  appends (λ out, default out (write_field_block capacity out sid es block)).
Proof.
  intros out. unfold write_field_block.
  destruct (appends_frame (Headers sid es true None block) out) as [k1 H1].
  destruct (appends_frame (Headers sid es false None (take (Z.to_nat capacity) block)) out) as [k2 H2].
  cbn [write_frame] in H1, H2. destruct (zlen block <=? capacity); [by exists k1|]. rewrite H2.
  destruct (write_rest _ _ _ _ _) as [o|] eqn:E; [|exists []; by rewrite app_nil_r].
  apply write_rest_appends in E as [k ->]. exists (k2 ++ k). by rewrite app_assoc.
Qed.

Section steps.
Context `{HC : Channels}.

(** [k] says whether the queue of complete field blocks may change. *)
Inductive micro (k : bool) : Connection → Connection → Prop :=
| micro_streams x c : micro k c (set_streams x c)
| micro_emit w c : appends w → micro k c (emit w c)
| micro_encoder x c : micro k c (set_encoder x c)
| micro_request_decoder x c : micro k c (set_request_decoder x c)
| micro_peer x c : micro k c (set_peer x c)
| micro_writer x c : micro k c (set_writer_max x c)
| micro_window x c : micro k c (set_conn_window x c)
| micro_closed x c : micro k c (set_closed_streams x c)
| micro_order x c : micro k c (set_closed_order x c)
| micro_local x c : micro k c (set_local_error_resets x c)
| micro_pending x c : micro k c (set_pending_accept_resets x c)
| micro_complete x c : k = true → micro k c (set_complete_blocks x c)
| micro_highest x c : highest_stream_id c ≤ x → micro k c (set_highest_stream_id x c)
| micro_closing c : micro k c (set_closing true c)
| micro_graceful c : micro k c (set_graceful true c)
| micro_last x c : micro k c (set_graceful_last_stream x c)
| micro_error x c : connection_error c = None → micro k c (set_connection_error (Some x) c)
| micro_log x c : micro k c (logged x c)
| micro_block c : micro k c (set_decoder (clear_block (decoder c)) c).

Definition micros (k : bool) : relation Connection := rtc (micro k).

(** A preorder holds across [micros] when it holds across [micro]. *)
Lemma micros_ind k (R : relation Connection) c c' :
  PreOrder R → (∀ a a', micro k a a' → R a a') → micros k c c' → R c c'.
Proof. intros Hpre Hm. induction 1; [reflexivity|]. etransitivity; [by apply Hm|done]. Qed.

Lemma micros_snoc k a c c' : micro k c c' → micros k a c → micros k a c'.
Proof. intros. by eapply rtc_r. Qed.
End steps.

Create HintDb micro.
#[export] Hint Extern 0 (micros _ ?c ?c) => unfold micros; reflexivity : micro.
#[export] Hint Extern 1 (appends (λ _, write_reset _ ?s ?c)) => exact (appends_frame (Reset_ s c)) : micro.
#[export] Hint Extern 1 (appends (λ _, write_goaway _ ?l ?c ?d)) => exact (appends_frame (GoAway l c d)) : micro.
#[export] Hint Extern 1 (appends (λ _, write_data _ ?s ?e ?d)) => exact (appends_frame (Data s e d)) : micro.
#[export] Hint Extern 1 (appends (λ _, write_window_update _ ?s ?i)) =>
  exact (appends_frame (WindowUpdate s i)) : micro.
#[export] Hint Extern 1 (appends (λ _, write_ping_ack _ ?p)) => exact (appends_frame (Ping true p)) : micro.
#[export] Hint Extern 1 (appends write_settings_ack) => exact (appends_frame (Settings true [])) : micro.
#[export] Hint Resolve appends_field_block : micro.

Section handlers.
Context `{HC : Channels}.

Ltac micro_tac := intros; eapply micros_snoc; [|eassumption]; constructor; eauto with micro.

Lemma m_streams {k} a x c : micros k a c → micros k a (set_streams x c). Proof. micro_tac. Qed.
Lemma m_put {k} a sid e c : micros k a c → micros k a (put sid e c). Proof. micro_tac. Qed.
Lemma m_remove {k} a sid c : micros k a c → micros k a (remove sid c). Proof. micro_tac. Qed.
Lemma m_emit {k} a w c : appends w → micros k a c → micros k a (emit w c). Proof. micro_tac. Qed.
Lemma m_encoder {k} a x c : micros k a c → micros k a (set_encoder x c). Proof. micro_tac. Qed.
Lemma m_request_decoder {k} a x c : micros k a c → micros k a (set_request_decoder x c). Proof. micro_tac. Qed.
Lemma m_peer {k} a x c : micros k a c → micros k a (set_peer x c). Proof. micro_tac. Qed.
Lemma m_writer {k} a x c : micros k a c → micros k a (set_writer_max x c). Proof. micro_tac. Qed.
Lemma m_window {k} a x c : micros k a c → micros k a (set_conn_window x c). Proof. micro_tac. Qed.
Lemma m_closed {k} a x c : micros k a c → micros k a (set_closed_streams x c). Proof. micro_tac. Qed.
Lemma m_order {k} a x c : micros k a c → micros k a (set_closed_order x c). Proof. micro_tac. Qed.
Lemma m_local {k} a x c : micros k a c → micros k a (set_local_error_resets x c). Proof. micro_tac. Qed.
Lemma m_pending {k} a x c : micros k a c → micros k a (set_pending_accept_resets x c). Proof. micro_tac. Qed.
Lemma m_complete a x c : micros true a c → micros true a (set_complete_blocks x c). Proof. micro_tac. Qed.
Lemma m_closing {k} a c : micros k a c → micros k a (set_closing true c). Proof. micro_tac. Qed.
Lemma m_logged {k} a x c : micros k a c → micros k a (logged x c). Proof. micro_tac. Qed.
Lemma m_block {k} a c : micros k a c → micros k a (set_decoder (clear_block (decoder c)) c). Proof. micro_tac. Qed.
Lemma m_highest {k} a x c : highest_stream_id c ≤ x → micros k a c → micros k a (set_highest_stream_id x c).
Proof. micro_tac. Qed.
End handlers.
#[export] Hint Resolve m_streams m_put m_remove m_emit m_encoder m_request_decoder m_peer m_writer m_window
  m_closed m_order m_local m_pending m_complete m_closing m_logged m_block m_highest : micro.

Section compound.
Context `{HC : Channels}.

Lemma m_goaway {k} a r d c : micros k a c → micros k a (goaway r d c).
Proof.
  intros H. unfold goaway. destruct (connection_error c) eqn:E; [eauto with micro|].
  assert (micros k a (set_connection_error (Some (r, d)) c)) by (eapply micros_snoc; [by constructor|done]).
  eauto with micro.
Qed.

Lemma m_mark_closed {k} a sid c : micros k a c → micros k a (mark_closed sid c).
Proof. intros H. unfold mark_closed. repeat case_match; eauto with micro. Qed.

Lemma m_close_stream {k} a sid c : micros k a c → micros k a (close_stream sid c).
Proof. intros H. apply m_remove, m_mark_closed, H. Qed.

Hint Resolve m_goaway m_mark_closed m_close_stream : micro.

Lemma m_stream_error {k} a sid r c : micros k a c → micros k a (stream_error sid r c).
Proof. intros H. unfold stream_error, report_stream_error. repeat case_match; eauto 10 with micro. Qed.

Hint Resolve m_stream_error : micro.

Lemma m_pop_front {k} a sid e rest end_ c : micros k a c → micros k a (pop_front sid e rest end_ c).1.
Proof. intros H. unfold pop_front. case_match; cbn; eauto with micro. Qed.

Lemma m_send_front {k} a sid e data es rest n c : micros k a c → micros k a (send_front sid e data es rest n c).1.1.
Proof.
  intros H. unfold send_front. destruct (n =? zlen data); [|cbn; eauto with micro].
  pose proof (m_pop_front (k:=k) a sid (set_send_window (send_window e - n) e) rest (es && true)) as Hp.
  destruct (pop_front _ _ _ _ _) eqn:E. cbn. specialize (Hp (set_conn_window (conn_window c - n)
    (emit (λ out, write_data out sid (es && true) (take (Z.to_nat n) data)) c))).
  cbn in E, Hp. rewrite E in Hp. cbn in Hp. apply Hp. eauto with micro.
Qed.

Lemma m_pump_turn {k} a sid c : micros k a c → micros k a (pump_turn sid c).1.
Proof.
  intros H. unfold pump_turn. destruct (streams c !! sid) as [e|]; [|done].
  destruct (local_ended e); [done|]. destruct (pending_data e) as [|[data es] rest]; [done|].
  case_bool_decide.
  - pose proof (m_pop_front (k:=k) a sid e rest es (emit (λ out, write_data out sid es data) c)) as Hp.
    destruct (pop_front _ _ _ _ _). apply Hp. eauto with micro.
  - destruct (_ <=? 0); [done|]. set (n := Z.min (Z.min _ _) _).
    pose proof (m_send_front (k:=k) a sid e data es rest n c H) as Hp.
    by destruct (send_front _ _ _ _ _ _ _) as [[c1 r] al].
Qed.

Lemma m_pump {k} a fuel sid c : micros k a c → micros k a (pump fuel sid c).
Proof.
  revert c. induction fuel as [|fuel IH]; intros c H; [done|]. cbn [pump].
  pose proof (m_pump_turn (k:=k) a sid c H) as Ht. destruct (pump_turn sid c) as [c1 []]; [by apply IH|done].
Qed.

Lemma m_pump_drr_turn {k} a sid c : micros k a c → micros k a (pump_drr_turn sid c).1.
Proof.
  intros H. unfold pump_drr_turn. destruct (streams c !! sid) as [e|]; [|done].
  destruct (local_ended e); [done|]. destruct (pending_data e) as [|[data es] rest]; [done|].
  case_bool_decide.
  - pose proof (m_pop_front (k:=k) a sid e rest es (emit (λ out, write_data out sid es data) c)) as Hp.
    destruct (pop_front _ _ _ _ _). apply Hp. eauto with micro.
  - destruct (_ =? 0); [done|]. destruct (_ <=? 0); [done|]. set (n := Z.min (Z.min _ _) _).
    destruct (n =? 0); [done|].
    pose proof (m_send_front (k:=k) a sid (set_deficit (deficit e - n) e) data es rest n c H) as Hp.
    by destruct (send_front _ _ _ _ _ _ _) as [[c1 r] al].
Qed.

Lemma m_pump_drr {k} a fuel sid c : micros k a c → micros k a (pump_drr fuel sid c).
Proof.
  revert c. induction fuel as [|fuel IH]; intros c H; [done|]. cbn [pump_drr].
  pose proof (m_pump_drr_turn (k:=k) a sid c H) as Ht. destruct (pump_drr_turn sid c) as [c1 []]; [by apply IH|done].
Qed.

Lemma m_drain_round {k} a ids q c next pr : micros k a c → micros k a (drain_round ids q c next pr).1.1.
Proof.
  revert c next pr. induction ids as [|id ids IH]; intros c next pr H; [done|]. cbn [drain_round].
  destruct (streams c !! id) as [e|]; [|by apply IH]. destruct (_ || _); [by apply IH|].
  set (c1 := put _ _ c). assert (micros k a (pump_stream_data_drr id c1)) as Hp
    by (apply m_pump_drr; unfold c1; eauto with micro).
  destruct (conn_window _ <=? 0); [done|]. by apply IH.
Qed.

Lemma m_drain_rounds {k} a fuel ids q c : micros k a c → micros k a (drain_rounds fuel ids q c).
Proof.
  revert ids c. induction fuel as [|fuel IH]; intros ids c H; [done|]. cbn [drain_rounds].
  destruct (_ && _); [|done]. pose proof (m_drain_round (k:=k) a ids q c [] false H) as Hp.
  destruct (drain_round _ _ _ _ _) as [[c1 next] []]; [by apply IH|done].
Qed.

Context (iteration : Connection → list Z).

Lemma m_drain_pending {k} a sid c : micros k a c → micros k a (drain_pending_data iteration sid c).
Proof. intros H. destruct sid; [by apply m_pump|by apply m_drain_rounds]. Qed.

Hint Resolve m_drain_pending m_pump : micro.

Lemma m_window_update {k} a sid n c : micros k a c → micros k a (handle_window_update iteration sid n c).
Proof. intros H. unfold handle_window_update. repeat case_match; eauto with micro. Qed.

Lemma m_apply_setting {k} a s c : micros k a c → micros k a (apply_setting s c).1.
Proof. intros H. unfold apply_setting. repeat (case_match; cbn [fst]; eauto with micro). Qed.

Lemma m_apply_peer_settings {k} a l c : micros k a c → micros k a (apply_peer_settings l c).
Proof.
  revert c. induction l as [|s l IH]; intros c H; [done|]. cbn [apply_peer_settings].
  pose proof (m_apply_setting (k:=k) a s c H) as Hs. destruct (apply_setting s c) as [c1 []]; [by apply IH|done].
Qed.

Lemma m_check_flood {k} a sid c : micros k a c → micros k a (check_continuation_flood sid c).
Proof. intros H. unfold check_continuation_flood. repeat case_match; eauto with micro. Qed.

Hint Resolve m_check_flood : micro.

Lemma m_open a sid es eh block c : micros true a c → micros true a (open_request_stream sid es eh block c).
Proof.
  intros H. unfold open_request_stream, report_stream_error. destruct (_ || _); [eauto with micro|].
  destruct (Z.leb_spec sid (highest_stream_id c)); [eauto with micro|].
  assert (micros true a (set_highest_stream_id sid c)) by (apply m_highest; [lia|done]).
  destruct (_ <=? _); [eauto with micro|]. destruct eh; eauto with micro.
Qed.

Hint Resolve m_open : micro.

Lemma m_headers a sid es eh block c : micros true a c → micros true a (handle_headers_frame sid es eh block c).
Proof. intros H. unfold handle_headers_frame. repeat case_match; eauto with micro. Qed.

Lemma m_continuation a sid eh block c : micros true a c → micros true a (handle_continuation sid eh block c).
Proof. intros H. unfold handle_continuation. repeat case_match; eauto with micro. Qed.

Lemma m_end_request_body {k} a sid c : micros k a c → micros k a (end_request_body sid c).
Proof. intros H. unfold end_request_body. repeat case_match; eauto with micro. Qed.

Hint Resolve m_end_request_body : micro.

Lemma m_data {k} a sid es data c : micros k a c → micros k a (handle_data_frame sid es data c).
Proof. intros H. unfold handle_data_frame, report_stream_error. repeat case_match; eauto 10 with micro. Qed.

Lemma m_reset {k} a sid code c : micros k a c → micros k a (handle_reset_frame sid code c).
Proof. intros H. unfold handle_reset_frame, report_stream_error. repeat case_match; eauto 10 with micro. Qed.

Lemma m_spawn {k} a sid es p c : micros k a c → micros k a (spawn_request sid es p c).
Proof. intros H. unfold spawn_request. repeat case_match; eauto with micro. Qed.

Hint Resolve m_spawn : micro.

Lemma m_finalize {k} a sid c : micros k a c → micros k a (finalize_field_block sid c).
Proof.
  intros H. unfold finalize_field_block. destruct (streams c !! sid) as [e|]; [|done].
  destruct (Hpack.decode _ _ _) as [[dec ls] r].
  destruct r as [decoded|[]]; eauto with micro.
  destruct (request_started _).
  - destruct (parse_trailers decoded) as [t|[]]; [|eauto with micro].
    destruct (trailers_seen _); [eauto with micro|]. destruct (negb _); [eauto with micro|].
    destruct (send_body _ _) as [e3 []]; cbn [negb]; [|eauto 10 with micro].
    destruct (pending_end_stream e); eauto 10 with micro.
  - destruct (parse_request decoded) as [p|[]]; [|eauto with micro].
    destruct (pending_end_stream e); eauto 10 with micro.
Qed.

Lemma m_encode_and_emit {k} a sid es fields c : micros k a c → micros k a (encode_and_emit sid es fields c).
Proof.
  intros H. unfold encode_and_emit, emit_block. destruct (Hpack.encode _ _ _).
  apply m_emit; [apply appends_field_block|eauto with micro].
Qed.

Hint Resolve m_encode_and_emit : micro.

Lemma m_stream_msg {k} a sid msg c : micros k a c → micros k a (handle_stream_msg sid msg c).
Proof.
  intros H. unfold handle_stream_msg, encode_field_block, report_stream_error, pump_stream_data.
  repeat case_match; eauto with micro.
Qed.

Lemma m_stream_msgs {k} a sid l c : micros k a c → micros k a (foldl (λ c msg, handle_stream_msg sid msg c) c l).
Proof. revert c. induction l as [|m l IH]; intros c H; [done|]. cbn. by apply IH, m_stream_msg. Qed.

Lemma m_drain_stream {k} a sid c : micros k a c → micros k a (drain_stream sid c).
Proof.
  intros H. unfold drain_stream. repeat case_match; try done. apply m_stream_msgs. eauto with micro.
Qed.

Lemma m_drain_outbound {k} a c : micros k a c → micros k a (drain_outbound iteration c).
Proof.
  intros H. unfold drain_outbound. generalize (filter (λ id, match streams c !! id with
    Some e => bool_decide (msgs e = []) | None => true end = false) (iteration c)) as ids.
  intros ids. revert c H. induction ids as [|id ids IH]; intros c H; [done|]. cbn. by apply IH, m_drain_stream.
Qed.

Lemma m_finish_block a c : micros true a c → micros true a (finish_block c).
Proof.
  intros H. unfold finish_block, take_complete_block. destruct (pop_complete _ _) as [[sid|] blocks].
  - apply m_finalize. eauto with micro.
  - eauto with micro.
Qed.

Lemma m_dispatch a f c c' : micros true a c → dispatch iteration f c = Some c' → micros true a c'.
Proof.
  intros H. destruct f as [| | | |[]| |[]| | | |]; cbn [dispatch]; intros [= <-]; try done.
  - by apply m_data.
  - by apply m_headers.
  - by apply m_reset.
  - apply m_emit; [auto with micro|]. by apply m_apply_peer_settings.
  - by apply m_goaway.
  - eauto with micro.
  - by apply m_window_update.
  - by apply m_continuation.
Qed.

Lemma m_begin_graceful {k} a c : micros k a c → micros k a (begin_graceful_shutdown c).
Proof.
  intros H. unfold begin_graceful_shutdown, graceful_goaway. destruct (_ || _); [done|].
  apply m_emit; [auto with micro|]. eapply micros_snoc; [constructor|]. by eapply micros_snoc; [constructor|].
Qed.

(** *** What no handler changes *)

Definition grows (c c' : Connection) : Prop :=
  buf (decoder c') = buf (decoder c) ∧ max_frame_size (decoder c') = max_frame_size (decoder c)
  ∧ opts c' = opts c ∧ wire c' = wire c
  ∧ out c `prefix_of` out c' ∧ log c `prefix_of` log c'
  ∧ highest_stream_id c ≤ highest_stream_id c'
  ∧ (closing c = true → closing c' = true)
  ∧ (∀ e, connection_error c = Some e → connection_error c' = Some e).

#[global] Instance grows_preorder : PreOrder grows.
Proof.
  split.
  - intros c. unfold grows. split_and!; done.
  - intros a b c (A1 & A2 & A3 & A4 & A5 & A6 & A7 & A8 & A9) (B1 & B2 & B3 & B4 & B5 & B6 & B7 & B8 & B9).
    unfold grows. split_and!; try congruence; try (etransitivity; eassumption); auto; lia.
Qed.

Lemma micros_grow k c c' : micros k c c' → grows c c'.
Proof.
  apply (micros_ind k grows); [apply _|]. intros a a' H. unfold grows.
  destruct H as [| w c0 Hw | | | | | | | | | | | | | | | x c0 He | |]; cbn; split_and!; try done; try lia.
  - destruct (Hw (out c0)) as [r ->]. by apply prefix_app_r.
  - intros e Hx. congruence.
  - by apply prefix_app_r.
Qed.
End compound.
