(* ===== verification/H2Invariant.v ===== *)
(** * The invariant of the HTTP/2 connection

    [conn_ok] and its preservation by every handler and by the event loop of
    [H2Connection]: the closed-stream memory, the identifiers of open streams,
    the flow-control windows, the concurrency limit, the reset budgets, the
    field-block budget and the HPACK tables. *)

From S2P Require Import Prelude Integer HpackTable Hpack H2Error H2Codec H2Wire H2Request H2Connection H2Steps.

(** The options a caller may set: what their types and the protocol allow. *)
Record options_ok (o : ConnectionOptions) : Prop := MkOptionsOk {
  oo_concurrent : 0 ≤ max_concurrent_streams o < 2 ^ 32;
  oo_conn : 0 ≤ initial_connection_window_size o ≤ i32_max;
  oo_stream : 0 ≤ initial_stream_window_size o ≤ i32_max;
  oo_frame : max_ok (opt_max_frame_size o);
  oo_local : match max_local_error_reset_streams o with Some n => 0 ≤ n | None => True end;
  oo_pending : match max_pending_accept_reset_streams o with Some n => 0 ≤ n | None => True end;
  oo_continuation : 1 ≤ opt_max_continuation_frames o;
}.

Record peer_ok (p : PeerSettings) : Prop := MkPeerOk {
  po_window : 0 ≤ initial_window_size p ≤ i32_max;
  po_frame : max_ok (peer_max_frame_size p);
}.

(** An error code is a [u32]. *)
Definition msg_ok (msg : StreamMsg) : Prop :=
  match msg with MsgReset error_code => 0 ≤ error_code < 2 ^ 32 | _ => True end.

#[global] Instance msg_ok_dec msg : Decision (msg_ok msg).
Proof. destruct msg; apply _. Defined.

Section invariant.
Context `{HC : Channels}.

(** How many fragments of a field block a stream may hold: one a frame counted;
    once the block is complete, and until it is taken up, one more than the
    limit. *)
Definition fragments (c : Connection) (sid : Z) (e : StreamEntry) : Z :=
  if bool_decide (sid ∈ complete_blocks c) then max_continuation_frames c + 1 else continuation_frames e.

Lemma fragments_none c sid e : complete_blocks c = [] → fragments c sid e = continuation_frames e.
Proof. unfold fragments. intros ->. by rewrite bool_decide_eq_false_2 by (by intros ?%elem_of_nil). Qed.

Lemma fragments_other c sid sid' e : complete_blocks c = [sid'] → sid ≠ sid' → fragments c sid e = continuation_frames e.
Proof. unfold fragments. intros -> Hne. by rewrite bool_decide_eq_false_2 by (by intros ?%list_elem_of_singleton). Qed.

Lemma fragments_this c sid e : complete_blocks c = [sid] → fragments c sid e = max_continuation_frames c + 1.
Proof. unfold fragments. intros ->. by rewrite bool_decide_eq_true_2 by (by left). Qed.

(** One stream of a connection [c]. *)
Record entry_ok (c : Connection) (sid : Z) (e : StreamEntry) : Prop := MkEntryOk {
  eo_id : 0 < sid ≤ highest_stream_id c ∧ sid mod 2 = 1;
  eo_open : sid ∉ closed_streams c;
  eo_low : initial_window_size (peer c) - i32_max ≤ send_window e;
  eo_high : send_window e ≤ i32_max ∨ closing c = true;
  eo_block : bytes_ok (field_block e);
  eo_frames : 0 ≤ continuation_frames e
    ∧ (continuation_frames e ≤ max_continuation_frames c ∨ closing c = true);
  eo_buffered : zlen (field_block e) ≤ fragments c sid e * 2 ^ 24 ∨ closing c = true;
  eo_deficit : 0 ≤ deficit e;
  eo_sum : 0 ≤ data_sum e;
  eo_msgs : Forall msg_ok (msgs e);
}.

(** The invariant between handlers. *)
Record conn_ok (c : Connection) : Prop := MkConnOk {
  co_order : NoDup (closed_order c);
  co_closed : list_to_set (closed_order c) = closed_streams c;
  co_limit : Z.of_nat (length (closed_order c)) ≤ CLOSED_LIMIT;
  co_streams : ∀ sid e, streams c !! sid = Some e → entry_ok c sid e;
  co_concurrent : Z.of_nat (base.size (streams c)) ≤ max_concurrent_streams (opts c);
  co_window : 0 ≤ conn_window c ≤ i32_max;
  co_peer : peer_ok (peer c);
  co_writer : max_ok (writer_max c);
  co_opts : options_ok (opts c);
  co_local : 0 ≤ local_error_resets c
    ∧ match max_local_error_reset_streams (opts c) with
      | Some n => local_error_resets c ≤ n | None => True end;
  co_pending : 0 ≤ pending_accept_resets c
    ∧ match max_pending_accept_reset_streams (opts c) with
      | Some n => pending_accept_resets c ≤ n | None => True end;
  co_continuation : 1 ≤ max_continuation_frames c;
  co_highest : 0 ≤ highest_stream_id c < 2 ^ 31
    ∧ ∀ sid, sid ∈ closed_streams c → sid ≤ highest_stream_id c;
  co_encoder : table_ok (e_table (encoder c))
    ∧ match e_queued_size_update (encoder c) with Some n => 0 ≤ n | None => True end;
  co_decoder : table_ok (d_table (request_decoder c));
  co_buffer : bytes_ok (buf (decoder c)) ∧ max_ok (max_frame_size (decoder c));
  co_graceful : 0 ≤ graceful_last_stream c < 2 ^ 31;
  co_framed : framed (wire c ++ out c);
}.

(** *** Primitives *)

Lemma size_put sid e (m : gmap Z StreamEntry) :
  is_Some (m !! sid) → base.size (<[sid := e]> m) = base.size m.
Proof. intros [x Hx]. by rewrite map_size_insert, Hx. Qed.

(** Steps that leave the fields of the invariant alone. *)
Definition same_state (c c' : Connection) : Prop :=
  streams c' = streams c ∧ closed_streams c' = closed_streams c ∧ closed_order c' = closed_order c
  ∧ conn_window c' = conn_window c ∧ peer c' = peer c ∧ writer_max c' = writer_max c
  ∧ opts c' = opts c ∧ local_error_resets c' = local_error_resets c
  ∧ pending_accept_resets c' = pending_accept_resets c
  ∧ max_continuation_frames c' = max_continuation_frames c
  ∧ highest_stream_id c' = highest_stream_id c ∧ encoder c' = encoder c
  ∧ request_decoder c' = request_decoder c ∧ buf (decoder c') = buf (decoder c)
  ∧ max_frame_size (decoder c') = max_frame_size (decoder c)
  ∧ graceful_last_stream c' = graceful_last_stream c ∧ complete_blocks c' = complete_blocks c ∧ (closing c = true → closing c' = true).

Lemma conn_ok_same c c' :
  same_state c c' → (framed (wire c ++ out c) → framed (wire c' ++ out c')) → conn_ok c → conn_ok c'.
Proof.
  intros (E1 & E2 & E3 & E4 & E5 & E6 & E7 & E8 & E9 & E10 & E11 & E12 & E13 & E14 & E15 & E17 & E18 & E16) Hfr [].
  split; rewrite ?E1, ?E2, ?E3, ?E4, ?E5, ?E6, ?E7, ?E8, ?E9, ?E10, ?E11, ?E12, ?E13, ?E14, ?E15, ?E17; try done;
    [|by apply Hfr].
  intros sid e Hs. destruct (co_streams0 sid e Hs) as [].
  split; unfold fragments in *; rewrite ?E2, ?E5, ?E10, ?E11, ?E18; try done.
  - destruct eo_high0; [by left|right; by apply E16].
  - destruct eo_frames0 as [? [?|?]]; (split; [done|]); [by left|right; by apply E16].
  - destruct eo_buffered0; [by left|right; by apply E16].
Qed.

Lemma same_goaway r d c : same_state c (goaway r d c).
Proof. unfold goaway. destruct (connection_error c); repeat split; done. Qed.

Lemma emit_ok w c : writes w → conn_ok c → conn_ok (emit w c).
Proof. intros Hw. apply conn_ok_same; [repeat split; done|]. by apply framed_writes. Qed.
Lemma logged_ok x c : conn_ok c → conn_ok (logged x c).
Proof. apply conn_ok_same; [repeat split; done|done]. Qed.
Lemma goaway_ok r d c : zlen d < 2 ^ 16 → conn_ok c → conn_ok (goaway r d c).
Proof.
  intros Hd Hok. pose proof (co_highest c Hok) as [Hh _].
  unfold goaway. set (c1 := set_closing true _).
  assert (conn_ok c1 ∧ highest_stream_id c1 = highest_stream_id c) as [Hok1 E].
  { unfold c1. destruct (connection_error c); (split; [|done]);
      (eapply conn_ok_same; [| |exact Hok]; [repeat split; done|done]). }
  apply emit_ok; [|done]. rewrite E. auto with wire.
Qed.

(** A stream the connection has seen. *)
Definition known (c : Connection) (sid : Z) : Prop := 0 < sid ≤ highest_stream_id c.

Lemma known_ok c sid : conn_ok c → known c sid → stream_ok sid.
Proof. intros Hok [H1 H2]. pose proof (co_highest c Hok) as [? _]. unfold stream_ok. lia. Qed.

Lemma known_entry c sid e : entry_ok c sid e → known c sid.
Proof. intros He. apply (eo_id _ _ _ He). Qed.

Lemma put_ok sid e c :
  conn_ok c → is_Some (streams c !! sid) → entry_ok c sid e → conn_ok (put sid e c).
Proof.
  intros [] Hs He. unfold put. split; cbn; try done.
  - intros sid' e'. rewrite lookup_insert_Some. intros [[<- <-]|[Hne Hl]].
    + destruct He. by split.
    + destruct (co_streams0 _ _ Hl). by split.
  - by rewrite size_put.
Qed.

Lemma remove_ok sid c : conn_ok c → conn_ok (remove sid c).
Proof.
  intros []. unfold remove. split; cbn; try done.
  - intros sid' e'. rewrite lookup_delete_Some. intros [Hne Hl].
    destruct (co_streams0 _ _ Hl). by split.
  - etransitivity; [|done]. apply Nat2Z.inj_le. rewrite map_size_delete. destruct (streams c !! sid); cbn; lia.
Qed.

(** [mark_closed] keeps the memory bounded and duplicate-free, and remembers
    [sid]. *)
Lemma mark_closed_spec sid c :
  NoDup (closed_order c) → list_to_set (closed_order c) = closed_streams c →
  Z.of_nat (length (closed_order c)) ≤ CLOSED_LIMIT →
  let c' := mark_closed sid c in
  NoDup (closed_order c') ∧ list_to_set (closed_order c') = closed_streams c'
  ∧ Z.of_nat (length (closed_order c')) ≤ CLOSED_LIMIT
  ∧ sid ∈ closed_streams c' ∧ closed_streams c' ⊆ {[sid]} ∪ closed_streams c
  ∧ c' = set_closed_order (closed_order c') (set_closed_streams (closed_streams c') c).
Proof.
  intros Hnd Hset Hlen. unfold mark_closed.
  assert (base.size (closed_streams c) = length (closed_order c)) as Hsize
    by (rewrite <- Hset; by apply size_list_to_set).
  set (c1 := if CLOSED_LIMIT <=? _ then _ else c).
  assert (NoDup (closed_order c1) ∧ list_to_set (closed_order c1) = closed_streams c1
    ∧ Z.of_nat (length (closed_order c1)) < CLOSED_LIMIT ∧ closed_streams c1 ⊆ closed_streams c
    ∧ c1 = set_closed_order (closed_order c1) (set_closed_streams (closed_streams c1) c))
    as (Hnd1 & Hset1 & Hlen1 & Hsub1 & Hc1).
  { unfold c1. destruct (Z.leb_spec CLOSED_LIMIT (Z.of_nat (base.size (closed_streams c)))) as [Hge|Hlt].
    - destruct (closed_order c) as [|old order] eqn:E; [rewrite Hsize in Hge; cbn in Hge; unfold CLOSED_LIMIT in Hge; lia|].
      cbn. apply NoDup_cons in Hnd as [Hni Hnd]. cbn in Hset, Hlen.
      split_and!; [done| |lia|set_solver|done]. rewrite <- Hset. set_solver.
    - split_and!; [done|done|lia|done|by destruct c]. }
  clearbody c1. cbv zeta. case_bool_decide as Hin.
  - split_and!; try done; [lia|set_solver].
  - cbn. split_and!.
    + apply NoDup_app. split; [done|]. split; [|apply NoDup_singleton].
      intros x Hx ->%list_elem_of_singleton. apply Hin. rewrite <- Hset1. by apply elem_of_list_to_set.
    + rewrite list_to_set_app_L, <- Hset1. set_solver.
    + rewrite length_app. cbn. lia.
    + set_solver.
    + set_solver.
    + by rewrite Hc1.
Qed.

Lemma mark_closed_ok sid c :
  conn_ok c → streams c !! sid = None → sid ≤ highest_stream_id c → conn_ok (mark_closed sid c).
Proof.
  intros Hok Hs Hsid. destruct (mark_closed_spec sid c) as (H1 & H2 & H3 & H4 & H5 & Hc); [apply Hok..|].
  cbv zeta in *. destruct Hok. rewrite Hc. split; cbn; try done.
  2:{ destruct co_highest0 as [Hh1 Hh2]. split; [done|]. intros x Hx.
      apply H5, elem_of_union in Hx as [->%elem_of_singleton|Hx]; [done|by apply Hh2]. }
  intros sid' e' Hl. destruct (co_streams0 _ _ Hl). split; cbn; try done.
  assert (sid' ≠ sid) by congruence. set_solver.
Qed.

Lemma close_stream_ok sid c : conn_ok c → known c sid → conn_ok (close_stream sid c).
Proof.
  intros Hok [_ Hsid]. unfold close_stream.
  assert (remove sid (mark_closed sid c) = mark_closed sid (remove sid c)) as ->.
  { unfold remove, mark_closed. destruct c as [? ? ? ? ? ? ? ? cs co]. cbn.
    destruct (CLOSED_LIMIT <=? Z.of_nat (base.size cs)); [destruct co|]; cbn; by case_bool_decide. }
  apply mark_closed_ok; [by apply remove_ok| |done]. cbn. apply lookup_delete_eq.
Qed.

(** Two states whose streams are checked against the same limits. *)
Lemma entry_ok_conn c c' sid e :
  highest_stream_id c' = highest_stream_id c → closed_streams c' = closed_streams c →
  peer c' = peer c → (closing c = true → closing c' = true) →
  max_continuation_frames c' = max_continuation_frames c → complete_blocks c' = complete_blocks c →
  entry_ok c sid e → entry_ok c' sid e.
Proof.
  intros E1 E2 E3 E4 E5 E6 []. split; unfold fragments in *; rewrite ?E1, ?E2, ?E3, ?E5, ?E6; try done.
  - destruct eo_high0; [by left|right; by apply E4].
  - destruct eo_frames0 as [? [?|?]]; (split; [done|]); [by left|right; by apply E4].
  - destruct eo_buffered0; [by left|right; by apply E4].
Qed.

(** A stream changed in fields the invariant does not mention. *)
Lemma entry_ok_same c sid e e' :
  send_window e' = send_window e → field_block e' = field_block e →
  continuation_frames e' = continuation_frames e → deficit e' = deficit e → data_sum e' = data_sum e →
  Forall msg_ok (msgs e') → entry_ok c sid e → entry_ok c sid e'.
Proof. intros E1 E2 E3 E4 E5 Hm []. by split; unfold fragments in *; rewrite ?E1, ?E2, ?E3, ?E4, ?E5. Qed.

(** Discharges [entry_ok] of a stream or a connection that agrees with that
    of [H] on what the invariant mentions. *)
Local Ltac entry_same H := solve
  [ eapply entry_ok_same; [..|exact H]; try done; apply H | eapply entry_ok_conn; [..|exact H]; done ].

Lemma put_same_ok sid e e' c :
  conn_ok c → streams c !! sid = Some e →
  send_window e' = send_window e → field_block e' = field_block e →
  continuation_frames e' = continuation_frames e → deficit e' = deficit e → data_sum e' = data_sum e →
  Forall msg_ok (msgs e') → conn_ok (put sid e' c).
Proof.
  intros Hok Hs E1 E2 E3 E4 E5 Hm. apply put_ok; [done|by eexists|].
  eapply entry_ok_same; [..|by eapply co_streams]; done.
Qed.

(** *** Errors *)

Lemma stream_error_ok sid r c :
  conn_ok c → known c sid → conn_ok (stream_error sid r c).
Proof.
  intros Hok Hk. pose proof (known_ok c sid Hok Hk) as Hsid. unfold stream_error. cbn [opts report_stream_error logged set_log].
  set (c1 := report_stream_error sid (StreamFailed r) c).
  assert (conn_ok c1) as Hok1 by (by apply logged_ok).
  case_bool_decide; [|by apply close_stream_ok; [apply emit_ok; [auto with wire|]|]].
  change (opts c1) with (opts c). change (local_error_resets c1) with (local_error_resets c).
  destruct (match max_local_error_reset_streams (opts c) with Some max => _ | None => false end) eqn:E;
    [by apply goaway_ok|].
  apply close_stream_ok; [|done]. apply emit_ok; [auto with wire|]. destruct Hok1. split; cbn; try done.
  - intros sid' e Hs. entry_same (co_streams0 _ _ Hs).
  - change (opts c1) with (opts c) in *. change (local_error_resets c1) with (local_error_resets c) in *.
    destruct (max_local_error_reset_streams (opts c)); lia.
Qed.

(** *** DATA *)

Lemma pop_front_ok sid e rest end_ c :
  conn_ok c → is_Some (streams c !! sid) → entry_ok c sid e → conn_ok (pop_front sid e rest end_ c).1.
Proof.
  intros Hok Hs He. unfold pop_front.
  set (e1 := if end_ then _ else _).
  assert (conn_ok (put sid e1 c)) as Hput.
  { apply put_ok; [done|done|]. destruct end_; entry_same He. }
  destruct (end_ && task_done e1); [|done]. apply close_stream_ok; [done|]. apply He.
Qed.

Lemma set_conn_window_ok w c : conn_ok c → 0 ≤ w ≤ i32_max → conn_ok (set_conn_window w c).
Proof.
  intros [] Hw. split; cbn; try done. intros sid e Hs.
  entry_same (co_streams0 _ _ Hs).
Qed.

Lemma take_writes sid es data n :
  stream_ok sid → 0 ≤ n < 2 ^ 24 → writes (λ out, write_data out sid es (take (Z.to_nat n) data)).
Proof. intros Hs Hn. apply writes_data; [done|]. unfold zlen. rewrite length_take. lia. Qed.

Lemma send_front_ok sid e data es rest amount c :
  conn_ok c → is_Some (streams c !! sid) → entry_ok c sid e →
  0 ≤ amount < 2 ^ 24 → amount ≤ conn_window c → amount ≤ send_window e →
  conn_ok (send_front sid e data es rest amount c).1.1.
Proof.
  intros Hok Hs He H0 Hc Hw. unfold send_front.
  set (e1 := set_send_window (send_window e - amount) e).
  set (c1 := set_conn_window _ (emit _ c)).
  pose proof (known_ok c sid Hok (known_entry _ _ _ He)) as Hsid.
  pose proof (co_window c Hok) as Hcw. pose proof (po_window _ (co_peer c Hok)) as Hpw.
  assert (conn_ok c1) as Hok1 by (apply set_conn_window_ok; [apply emit_ok, Hok; by apply take_writes|cbn; lia]).
  assert (entry_ok c1 sid e1) as He1.
  { apply (entry_ok_conn c); try done. destruct He. split; cbn; try done; [lia|].
    destruct eo_high0; [left; lia|by right]. }
  destruct (amount =? zlen data).
  - pose proof (pop_front_ok sid e1 rest (es && true) c1 Hok1 Hs He1) as H.
    by destruct (pop_front _ _ _ _ _).
  - cbn. apply put_ok; [done|done|]. entry_same He1.
Qed.

Lemma pump_turn_ok sid c : conn_ok c → conn_ok (pump_turn sid c).1.
Proof.
  intros Hok. unfold pump_turn. destruct (streams c !! sid) as [e|] eqn:Es; [|done].
  destruct (local_ended e); [done|]. destruct (pending_data e) as [|[data es] rest]; [done|].
  assert (entry_ok c sid e) as He by (by eapply co_streams).
  case_bool_decide as Hd.
  - set (c1 := emit _ c).
    assert (conn_ok c1) as Hok1.
    { apply emit_ok, Hok. subst data. apply writes_data; [|done]. by eapply known_ok, known_entry. }
    pose proof (pop_front_ok sid e rest es c1 Hok1 (mk_is_Some _ _ Es)) as H.
    destruct (pop_front _ _ _ _ _). apply H. entry_same He.
  - destruct (Z.leb_spec (Z.min (conn_window c) (send_window e)) 0); [done|].
    set (amount := Z.min (Z.min _ _) _).
    pose proof (po_frame _ (co_peer c Hok)) as Hf. unfold max_ok, DEFAULT_MAX_FRAME_SIZE, MAX_FRAME_SIZE_LIMIT in Hf.
    pose proof (zlen_nonneg data). change (2 ^ 24) with 16777216 in *.
    pose proof (send_front_ok sid e data es rest amount c Hok (mk_is_Some _ _ Es) He
      ltac:(unfold amount; lia) ltac:(unfold amount; lia) ltac:(unfold amount; lia)) as H'.
    destruct (send_front _ _ _ _ _ _ _) as [[c1 r] a]. exact H'.
Qed.

Lemma pump_ok fuel sid c : conn_ok c → conn_ok (pump fuel sid c).
Proof.
  revert c. induction fuel as [|fuel IH]; intros c Hok; [done|]. cbn [pump].
  pose proof (pump_turn_ok sid c Hok) as H. destruct (pump_turn sid c) as [c1 []]; [by apply IH|done].
Qed.

Lemma pump_drr_turn_ok sid c : conn_ok c → conn_ok (pump_drr_turn sid c).1.
Proof.
  intros Hok. unfold pump_drr_turn. destruct (streams c !! sid) as [e|] eqn:Es; [|done].
  destruct (local_ended e); [done|]. destruct (pending_data e) as [|[data es] rest]; [done|].
  assert (entry_ok c sid e) as He by (by eapply co_streams).
  case_bool_decide as Hd.
  - set (c1 := emit _ c).
    assert (conn_ok c1) as Hok1.
    { apply emit_ok, Hok. subst data. apply writes_data; [|done]. by eapply known_ok, known_entry. }
    pose proof (pop_front_ok sid e rest es c1 Hok1 (mk_is_Some _ _ Es)) as H.
    destruct (pop_front _ _ _ _ _). apply H. entry_same He.
  - destruct (Z.eqb_spec (deficit e) 0); [done|].
    destruct (Z.leb_spec (Z.min (conn_window c) (send_window e)) 0); [done|].
    set (amount := Z.min (Z.min _ _) _).
    destruct (Z.eqb_spec amount 0); [done|].
    pose proof (po_frame _ (co_peer c Hok)) as Hf. unfold max_ok, DEFAULT_MAX_FRAME_SIZE, MAX_FRAME_SIZE_LIMIT in Hf.
    pose proof (zlen_nonneg data). change (2 ^ 24) with 16777216 in *. pose proof (eo_deficit _ _ _ He).
    pose proof (send_front_ok sid (set_deficit (deficit e - amount) e) data es rest amount c Hok
      (mk_is_Some _ _ Es)) as H'.
    destruct (send_front _ _ _ _ _ _ _) as [[c1 r] a]. apply H'; try (cbn; unfold amount; lia).
    destruct He. split; cbn; try done. unfold amount. lia.
Qed.

Lemma pump_drr_ok fuel sid c : conn_ok c → conn_ok (pump_drr fuel sid c).
Proof.
  revert c. induction fuel as [|fuel IH]; intros c Hok; [done|]. cbn [pump_drr].
  pose proof (pump_drr_turn_ok sid c Hok) as H. destruct (pump_drr_turn sid c) as [c1 []]; [by apply IH|done].
Qed.

Lemma drain_round_ok ids quantum c next progress :
  0 ≤ quantum → conn_ok c → conn_ok (drain_round ids quantum c next progress).1.1.
Proof.
  intros Hq. revert c next progress. induction ids as [|id ids IH]; intros c next progress Hok; [done|].
  cbn [drain_round]. destruct (streams c !! id) as [e|] eqn:Es; [|by apply IH].
  destruct (_ || _); [by apply IH|]. set (c1 := put _ _ c).
  assert (conn_ok c1) as Hok1.
  { apply put_ok; [done|exact (mk_is_Some _ _ Es)|]. destruct (co_streams c Hok _ _ Es). split; cbn; try done.
    unfold saturating_add64, usize_max. lia. }
  pose proof (pump_drr_ok (S (stream_turns id c1)) id c1 Hok1) as Hok2.
  fold (pump_stream_data_drr id c1) in Hok2. destruct (conn_window _ <=? 0); [done|]. by apply IH.
Qed.

Lemma drain_rounds_ok fuel ids quantum c : 0 ≤ quantum → conn_ok c → conn_ok (drain_rounds fuel ids quantum c).
Proof.
  intros Hq. revert ids c. induction fuel as [|fuel IH]; intros ids c Hok; [done|]. cbn [drain_rounds].
  destruct (_ && _); [|done]. pose proof (drain_round_ok ids quantum c [] false Hq Hok) as H.
  destruct (drain_round _ _ _ _ _) as [[c1 next] []]; [by apply IH|done].
Qed.

Context (iteration : Connection → list Z).

Lemma drain_pending_data_ok sid c : conn_ok c → conn_ok (drain_pending_data iteration sid c).
Proof.
  intros Hok. destruct sid; [by apply pump_ok|]. apply drain_rounds_ok; [|done].
  pose proof (po_frame _ (co_peer c Hok)) as Hf. unfold max_ok, DEFAULT_MAX_FRAME_SIZE in Hf. lia.
Qed.

Lemma handle_window_update_ok sid inc c :
  0 ≤ inc → conn_ok c → conn_ok (handle_window_update iteration sid inc c).
Proof.
  intros Hi Hok. unfold handle_window_update. destruct (inc =? 0); [done|].
  destruct (sid =? 0).
  - destruct (Z.ltb_spec (i32_max - inc) (conn_window c)); [by apply goaway_ok|].
    apply drain_pending_data_ok, set_conn_window_ok; [done|]. pose proof (co_window c Hok). lia.
  - destruct (streams c !! sid) as [e|] eqn:Es.
    + destruct (Z.ltb_spec (i32_max - inc) (send_window e)); [apply stream_error_ok; [done|]; by apply (eo_id _ _ _ (co_streams c Hok _ _ Es))|].
      apply drain_pending_data_ok, put_ok; [done|exact (mk_is_Some _ _ Es)|].
      destruct (co_streams c Hok _ _ Es). split; cbn; try done; [lia|left; lia].
    + case_bool_decide; [done|by apply goaway_ok].
Qed.

Lemma stream_known c sid e : conn_ok c → streams c !! sid = Some e → known c sid.
Proof. intros Hok Hs. by eapply known_entry, co_streams. Qed.

(** *** SETTINGS *)

Lemma windows_fit m sid e :
  windows_overflow m = false → m !! sid = Some e → send_window e ≤ i32_max.
Proof.
  unfold windows_overflow. intros H Hs. apply elem_of_map_to_list in Hs.
  destruct (Z.leb_spec (send_window e) i32_max); [done|].
  assert (existsb (λ p, i32_max <? send_window p.2) (map_to_list m) = true); [|congruence].
  apply existsb_exists. exists (sid, e). split; [by apply list_elem_of_In|cbn; lia].
Qed.

Lemma set_peer_ok p c :
  initial_window_size p = initial_window_size (peer c) → max_ok (peer_max_frame_size p) →
  conn_ok c → conn_ok (set_peer p c).
Proof.
  intros Ei Hf []. split; cbn; try done.
  - intros sid e Hs. destruct (co_streams0 _ _ Hs). split; cbn; try done. by rewrite Ei.
  - destruct co_peer0. split; [by rewrite Ei|done].
Qed.

Lemma apply_setting_ok s c : setting_ok s → conn_ok c → conn_ok (apply_setting s c).1.
Proof.
  intros (Hid & Hv & Hval) Hok. pose proof (po_frame _ (co_peer c Hok)) as Hf. destruct s as [id v].
  cbn [set_id set_value] in *. unfold apply_setting. cbn [set_id set_value].
  assert (id = 1 ∨ id = 2 ∨ id = 4 ∨ id = 5 ∨ id = 6 ∨ (id ≠ 1 ∧ id ≠ 2 ∧ id ≠ 4 ∧ id ≠ 5 ∧ id ≠ 6))
    as [-> |[-> |[-> |[-> |[-> |(H1 & H2 & H4 & H5 & H6)]]]]] by lia.
  - cbn [fst]. match goal with |- conn_ok (set_encoder _ ?c1) => assert (conn_ok c1) as Hok1
      by (by apply set_peer_ok) end.
    destruct Hok1. split; cbn; try done.
    + intros sid e Hs. entry_same (co_streams0 _ _ Hs).
    + split; [apply co_encoder0|]. cbn in co_encoder0. destruct (e_queued_size_update (encoder c)); cbn; lia.
  - by apply set_peer_ok.
  - cbn in Hval. apply fail_if_Ok in Hval. unfold MAX_WINDOW_SIZE in Hval.
    assert (0 ≤ v ≤ i32_max) as Hv' by (unfold i32_max; change (2 ^ 31) with 2147483648; lia).
    cbn [fst]. set (m := shift_windows _ _).
    match goal with |- conn_ok (if windows_overflow ?x then _ else _) => change x with m end.
    set (c1 := set_streams m _).
    assert (conn_ok (set_closing (closing c || windows_overflow m) c1)) as Hshift.
    { destruct Hok. split; cbn; try done.
      - intros sid e' Hs. assert (Hs' := Hs). unfold m, shift_windows in Hs'.
        rewrite lookup_fmap in Hs'. apply fmap_Some in Hs' as (e & He & ->).
        destruct (co_streams0 _ _ He). split; cbn; try done; [lia| | |].
        2:{ destruct eo_frames0 as [? [?|Hc]]; (split; [done|]); [by left|right; cbn; by rewrite Hc]. }
        2:{ unfold fragments in *. destruct eo_buffered0 as [?|Hc]; [by left|right; cbn; by rewrite Hc]. }
        destruct (windows_overflow m) eqn:Eo; [right; cbn; by destruct (closing c)|left].
        by apply (windows_fit m sid _ Eo Hs).
      - unfold m, shift_windows. by rewrite map_size_fmap. }
    destruct (windows_overflow m) eqn:Eo.
    + rewrite orb_true_r in Hshift.
      assert (∀ r d, goaway r d c1 = goaway r d (set_closing true c1)) as -> by
        (intros r d; unfold goaway; cbn; by destruct (connection_error c)).
      by apply goaway_ok.
    + rewrite orb_false_r in Hshift. eapply conn_ok_same; [| |exact Hshift]; [repeat split; done|done].
  - destruct ((v <? DEFAULT_MAX_FRAME_SIZE) || (MAX_FRAME_SIZE_LIMIT <? v)) eqn:Eb; [by apply goaway_ok|].
    assert (max_ok v) as Hm by (unfold max_ok; lia). cbn [fst].
    match goal with |- conn_ok (set_writer_max _ ?c1) => assert (conn_ok c1) as Hok1
      by (by apply set_peer_ok) end.
    destruct Hok1. split; cbn; try done. intros sid e Hs. entry_same (co_streams0 _ _ Hs).
  - by apply set_peer_ok.
  - repeat (case_match; try done).
Qed.

Lemma apply_peer_settings_ok l c : Forall setting_ok l → conn_ok c → conn_ok (apply_peer_settings l c).
Proof.
  intros Hl. revert c. induction Hl as [|s l Hs Hl IH]; intros c Hok; [done|].
  cbn [apply_peer_settings]. pose proof (apply_setting_ok s c Hs Hok) as H.
  destruct (apply_setting s c) as [c1 []]; [by apply IH|done].
Qed.

(** *** Field blocks *)

(** A stream error on a stream just changed: the stream is forgotten, or the
    connection is closing. *)
Lemma stream_error_put sid r e c :
  stream_error sid r (put sid e c) = stream_error sid r c
  ∨ closing (stream_error sid r c) = true
    ∧ (∃ r' d, stream_error sid r c = goaway r' d (report_stream_error sid (StreamFailed r) c))
    ∧ stream_error sid r (put sid e c) = put sid e (stream_error sid r c).
Proof.
  assert (∀ c, close_stream sid (put sid e c) = close_stream sid c) as Hclose.
  { intros c0. unfold close_stream, remove, mark_closed, put. destruct c0 as [? ? ? ? ? ? ss ? cs co]. cbn.
    destruct (CLOSED_LIMIT <=? Z.of_nat (base.size cs)); [destruct co|]; cbn; case_bool_decide; cbn;
      by rewrite delete_insert_eq. }
  unfold stream_error. cbv zeta.
  assert (∀ c1, emit (λ out, write_reset out sid (code r)) (put sid e c1)
    = put sid e (emit (λ out, write_reset out sid (code r)) c1)) as Hemit by done.
  case_bool_decide; [|left; apply (Hclose (emit _ (report_stream_error sid (StreamFailed r) c)))].
  change (opts (report_stream_error sid (StreamFailed r) (put sid e c))) with (opts c).
  change (opts (report_stream_error sid (StreamFailed r) c)) with (opts c).
  change (local_error_resets (report_stream_error sid (StreamFailed r) (put sid e c)))
    with (local_error_resets c).
  change (local_error_resets (report_stream_error sid (StreamFailed r) c)) with (local_error_resets c).
  destruct (match max_local_error_reset_streams (opts c) with Some max => _ | None => false end).
  - right. split; [unfold goaway; cbn; by destruct (connection_error c)|]. split; [by eexists _, _|].
    unfold goaway. cbn. by destruct (connection_error c).
  - left. apply (Hclose (emit _ (set_local_error_resets _ (report_stream_error sid (StreamFailed r) c)))).
Qed.

Lemma put_put sid e e' c : put sid e (put sid e' c) = put sid e c.
Proof. unfold put. cbn. by rewrite insert_insert_eq. Qed.

(** A fragment was added to a block that goes on: the frame is counted, and the
    count is checked. *)
Lemma check_flood_ok sid e block c :
  conn_ok c → streams c !! sid = Some e → complete_blocks c = [] → bytes_ok block → zlen block < 2 ^ 24 →
  conn_ok (check_continuation_flood sid (put sid (extend_block e block) c)).
Proof.
  intros Hok Hs Hc Hb Hl. unfold check_continuation_flood. cbn [streams put set_streams]. rewrite lookup_insert_eq.
  pose proof (stream_known c sid e Hok Hs) as Hle. pose proof (co_streams c Hok _ _ Hs) as He.
  set (e1 := set_continuation_frames _ (extend_block e block)). rewrite put_put.
  change (max_continuation_frames (put sid e1 c)) with (max_continuation_frames c).
  change (continuation_frames (extend_block e block)) with (continuation_frames e).
  assert (∀ c1, entry_ok c1 sid e → complete_blocks c1 = [] →
    continuation_frames e + 1 ≤ max_continuation_frames c1 ∨ closing c1 = true → entry_ok c1 sid e1) as He1.
  { intros c1 [] Hc1 Hm. split; try done.
    - cbn. by apply Forall_app.
    - cbn. destruct eo_frames0. split; [lia|done].
    - rewrite fragments_none in * by done. cbn [field_block continuation_frames e1 set_continuation_frames extend_block set_field_block].
      rewrite zlen_app. destruct eo_buffered0 as [Hf|?]; [left; lia|by right]. }
  destruct (Z.ltb_spec (max_continuation_frames c) (continuation_frames e + 1)) as [Hgt|Hn].
  - set (c0 := if bool_decide (block_stream (decoder c) = Some sid)
      then set_decoder (clear_block (decoder c)) c else c).
    assert (conn_ok c0) as Hok0.
    { eapply conn_ok_same; [| |exact Hok]; unfold c0; case_bool_decide; first [done|repeat split; done]. }
    match goal with |- conn_ok (stream_error sid ProtocolError ?x) => assert (x = put sid e1 c0) as -> end.
    { unfold c0. cbn. by case_bool_decide. }
    assert (known c0 sid) as Hle0 by (unfold c0; by case_bool_decide).
    destruct (stream_error_put sid ProtocolError e1 c0) as [->|(Hcl & (r' & d & Hg) & ->)];
      [by apply stream_error_ok|].
    assert (streams (stream_error sid ProtocolError c0) = streams c
      ∧ complete_blocks (stream_error sid ProtocolError c0) = complete_blocks c) as [Hst Hcb].
    { rewrite Hg. unfold goaway, c0. cbn. case_bool_decide; cbn; by destruct (connection_error c). }
    pose proof (stream_error_ok sid ProtocolError c0 Hok0 Hle0) as Hok1.
    apply put_ok; [done|rewrite Hst; by eexists|]. rewrite <- Hst in Hs.
    apply He1; [by apply (co_streams _ Hok1)|congruence|by right].
  - apply put_ok; [done|by eexists|]. apply He1; [done..|by left; lia].
Qed.

(** A fragment completes a block: the block waits to be taken up. *)
Lemma complete_ok sid e block c :
  conn_ok c → streams c !! sid = Some e → complete_blocks c = [] → bytes_ok block → zlen block < 2 ^ 24 →
  conn_ok (set_complete_blocks (complete_blocks c ++ [sid])
    (put sid (set_continuation_frames 0 (extend_block e block)) c)).
Proof.
  intros Hok Hs Hc Hb Hl. pose proof (co_continuation c Hok) as Hm. pose proof (co_streams c Hok _ _ Hs) as He.
  rewrite Hc. cbn [app]. destruct Hok. unfold put. split; cbn; try done; [|by rewrite size_put by (by eexists)].
  intros sid' e'. rewrite lookup_insert_Some. intros [[<- <-]|[Hne Hs']].
  - destruct He. split; cbn; try done; [by apply Forall_app|split; [done|by left; lia]|].
    rewrite fragments_none in eo_buffered0 by done. rewrite fragments_this by done. cbn. rewrite zlen_app.
    destruct eo_buffered0 as [Hf|?]; [|by right]. destruct eo_frames0 as [? [?|?]]; [left; lia|by right].
  - destruct (co_streams0 _ _ Hs'). split; cbn; try done. rewrite fragments_none in eo_buffered0 by done.
    by rewrite (fragments_other _ _ sid) by done.
Qed.

Lemma open_request_stream_ok sid es eh block c :
  bytes_ok block → zlen block < 2 ^ 24 → stream_ok sid → streams c !! sid = None → complete_blocks c = [] → conn_ok c →
  conn_ok (open_request_stream sid es eh block c).
Proof.
  intros Hb Hlen Hsid Hs Hcb Hok. unfold open_request_stream.
  destruct ((sid =? 0) || (sid mod 2 =? 0)) eqn:Ez; [by apply goaway_ok|].
  destruct (Z.leb_spec sid (highest_stream_id c)) as [|Hhi]; [by apply goaway_ok|].
  set (c1 := set_highest_stream_id sid c).
  assert (conn_ok c1) as Hok1.
  { destruct Hok. destruct co_highest0 as [Hh1 Hh2]. split; cbn; try done.
    - intros sid' e Hl. destruct (co_streams0 _ _ Hl). split; cbn; try done. lia.
    - unfold stream_ok in Hsid. split; [lia|]. intros x Hx. specialize (Hh2 x Hx). lia. }
  change (opts c1) with (opts c). change (streams c1) with (streams c).
  pose proof (co_concurrent c Hok) as Hcc. pose proof (oo_concurrent _ (co_opts c Hok)) as Hmax.
  assert (u32 (Z.of_nat (base.size (streams c))) = Z.of_nat (base.size (streams c))) as ->
    by (apply Z.mod_small; lia).
  destruct (Z.leb_spec (max_concurrent_streams (opts c)) (Z.of_nat (base.size (streams c)))) as [|Hlt];
    [by apply emit_ok, logged_ok; [auto with wire|]|].
  set (e := extend_block _ block).
  assert (∀ e' c2, conn_ok c2 → streams c2 = streams c → highest_stream_id c2 = sid →
    closed_streams c2 = closed_streams c → opts c2 = opts c → peer c2 = peer c →
    send_window e' = initial_window_size (peer c) → field_block e' = block → 1 ≤ fragments c2 sid e' →
    0 ≤ continuation_frames e' ≤ 1 → deficit e' = 0 → data_sum e' = 0 → msgs e' = [] → conn_ok (put sid e' c2)) as Hput.
  { intros e' c2 Hok2 E1 E2 E3 E4 E5 E6 E7 Ef E8 E9 E10 E11. pose proof (po_window _ (co_peer c Hok)) as Hw.
    pose proof (co_continuation c2 Hok2) as Hcont. destruct Hok2. unfold put. split; cbn; try done.
    - intros sid' e1. rewrite lookup_insert_Some. intros [[<- <-]|[Hne Hl]].
      + split; cbn; rewrite ?E2, ?E3, ?E5, ?E6, ?E7, ?E9, ?E10, ?E11; try done; try lia.
        * unfold stream_ok in Hsid. split; [lia|]. dlia.
        * intros Hin. destruct (co_highest c Hok) as [_ Hh]. specialize (Hh sid Hin). lia.
        * left. change (zlen block ≤ fragments c2 sid e' * 2 ^ 24). lia.
      + destruct (co_streams0 _ _ Hl). by split.
    - rewrite map_size_insert, E1, Hs, E4. lia. }
  destruct eh.
  - assert (conn_ok (set_complete_blocks (complete_blocks c1 ++ [sid]) c1)) as Hok2.
    { destruct Hok1. split; cbn; try done. intros sid' e' Hl'. destruct (co_streams0 _ _ Hl'). split; cbn; try done.
      rewrite fragments_none in eo_buffered0 by done. rewrite (fragments_other _ _ sid); [done|cbn; by rewrite Hcb|congruence]. }
    apply Hput; try done; try (by cbn; destruct es).
    rewrite fragments_this by (cbn; by rewrite Hcb). cbn. pose proof (co_continuation c Hok). lia.
  - apply Hput; try done; try (by cbn; destruct es).
    rewrite fragments_none by done. cbn. lia.
Qed.

Lemma handle_headers_frame_ok sid es eh block c :
  bytes_ok block → zlen block < 2 ^ 24 → stream_ok sid → complete_blocks c = [] → conn_ok c →
  conn_ok (handle_headers_frame sid es eh block c).
Proof.
  intros Hb Hlen Hsid Hcb Hok. unfold handle_headers_frame. destruct (_ && _); [done|].
  destruct (streams c !! sid) as [e|] eqn:Hs; [|by apply open_request_stream_ok].
  pose proof (co_streams c Hok _ _ Hs) as He.
  destruct (remote_ended e); [apply stream_error_ok; [done|by eapply stream_known]|].
  set (e1 := set_pending_end_stream es e).
  assert (entry_ok c sid e1) as He1 by entry_same He.
  assert (conn_ok (put sid e1 c)) as Hok1 by (apply put_ok; [done|by eexists|done]).
  assert (streams (put sid e1 c) !! sid = Some e1) as Hs1 by (cbn; apply lookup_insert_eq).
  destruct eh; rewrite <- (put_put sid _ e1 c);
    [by apply (complete_ok sid e1 block (put sid e1 c))|by apply (check_flood_ok sid e1 block (put sid e1 c))].
Qed.

Lemma handle_continuation_ok sid eh block c :
  bytes_ok block → zlen block < 2 ^ 24 → complete_blocks c = [] → conn_ok c →
  conn_ok (handle_continuation sid eh block c).
Proof.
  intros Hb Hl Hcb Hok. unfold handle_continuation. destruct (streams c !! sid) as [e|] eqn:Hs; [|by apply goaway_ok].
  destruct eh; [by apply complete_ok|by apply check_flood_ok].
Qed.

(** *** Bodies *)

Lemma send_body_same e msg :
  send_window (send_body e msg).1 = send_window e ∧ field_block (send_body e msg).1 = field_block e
  ∧ continuation_frames (send_body e msg).1 = continuation_frames e
  ∧ deficit (send_body e msg).1 = deficit e ∧ data_sum (send_body e msg).1 = data_sum e
  ∧ msgs (send_body e msg).1 = msgs e.
Proof. unfold send_body. destruct (body_tx e); [|done]. by destruct (body_send _ _). Qed.

Lemma send_body_ok c sid e msg : entry_ok c sid e → entry_ok c sid (send_body e msg).1.
Proof.
  destruct (send_body_same e msg) as (E1 & E2 & E3 & E4 & E5 & E6). intros He.
  eapply entry_ok_same; [..|exact He]; try done. rewrite E6. apply He.
Qed.

Lemma end_request_body_ok sid c : conn_ok c → conn_ok (end_request_body sid c).
Proof.
  intros Hok. unfold end_request_body. destruct (streams c !! sid) as [e|] eqn:Hs; [|done].
  pose proof (co_streams c Hok _ _ Hs) as He. destruct (remote_ended e); [done|].
  set (e1 := set_remote_ended true e). assert (entry_ok c sid e1) as He1 by entry_same He.
  pose proof (stream_known c sid e Hok Hs) as Hle.
  destruct (match content_length e1 with Some cl => _ | None => false end).
  - apply stream_error_ok; [|done]. apply put_ok; [done|by eexists|done].
  - destruct (body_tx e1); [|apply put_ok; [done|by eexists|done]].
    pose proof (send_body_ok c sid e1 BodyEndStream He1) as He2.
    destruct (send_body e1 BodyEndStream) as [e2 ok]. cbn in He2.
    assert (conn_ok (put sid e2 c)) as Hp by (apply put_ok; [done|by eexists|done]).
    destruct ok; [done|]. by apply close_stream_ok.
Qed.

Lemma credit_writes (data : bytes) : data ≠ [] → zlen data < 2 ^ 24 → 0 < u32 (zlen data) < 2 ^ 31.
Proof.
  intros Hd Hl. change (2 ^ 24) with 16777216 in Hl. change (2 ^ 31) with 2147483648.
  assert (0 < zlen data) by by apply zlen_pos.
  unfold u32. change (2 ^ 32) with 4294967296. rewrite Z.mod_small by lia. lia.
Qed.

Lemma handle_data_frame_ok sid es data c :
  stream_ok sid → zlen data < 2 ^ 24 → conn_ok c → conn_ok (handle_data_frame sid es data c).
Proof.
  intros Hsid Hlen Hok. unfold handle_data_frame. destruct (_ && _); [done|].
  set (c1 := if negb (bool_decide (data = [])) then _ else c).
  assert (conn_ok c1) as Hok1.
  { unfold c1. case_bool_decide as Hd; [done|]. cbn [negb]. pose proof (credit_writes data Hd Hlen).
    apply emit_ok; [by apply writes_window_update|]. apply emit_ok; [|done].
    apply writes_window_update; [unfold stream_ok in Hsid; lia|done]. }
  clearbody c1. clear Hok. destruct (streams c1 !! sid) as [e|] eqn:Hs.
  - pose proof (co_streams c1 Hok1 _ _ Hs) as He. pose proof (stream_known c1 sid e Hok1 Hs) as Hle.
    destruct (_ || _); [by apply stream_error_ok|].
    set (e1 := set_data_sum (data_sum e + zlen data) e).
    assert (entry_ok c1 sid e1) as He1.
    { destruct He. split; cbn; try done. zlia. }
    pose proof (send_body_ok c1 sid e1 (BodyData data) He1) as He2.
    destruct (send_body e1 (BodyData data)) as [e2 ok]. cbn in He2.
    assert (conn_ok (put sid e2 c1)) as Hp by (apply put_ok; [done|by eexists|done]).
    destruct ok; cbn [negb]; [|by apply close_stream_ok]. destruct es; [by apply end_request_body_ok|done].
  - case_bool_decide; [by apply emit_ok, logged_ok; [auto with wire|]|by apply goaway_ok].
Qed.

Lemma handle_reset_frame_ok sid code c : conn_ok c → conn_ok (handle_reset_frame sid code c).
Proof.
  intros Hok. unfold handle_reset_frame. destruct (streams c !! sid) as [e|] eqn:Hs;
    [|case_bool_decide; [done|by apply goaway_ok]].
  set (c1 := report_stream_error sid _ (remove sid c)).
  assert (conn_ok c1) as Hok1 by (by apply logged_ok, remove_ok).
  assert (streams c1 !! sid = None) as Hs1 by (cbn; apply lookup_delete_eq).
  pose proof (stream_known c sid e Hok Hs) as Hle.
  assert (∀ c2, conn_ok c2 → streams c2 = streams c1 → highest_stream_id c2 = highest_stream_id c →
    conn_ok (if negb (remote_ended e) then logged (NotifyReset sid code) (mark_closed sid c2)
             else mark_closed sid c2)) as Hfin.
  { intros c2 Hok2 E1 E2. assert (conn_ok (mark_closed sid c2)) as Hm
      by (apply mark_closed_ok; [done|by rewrite E1|rewrite E2; apply Hle]).
    destruct (negb _); [by apply logged_ok|done]. }
  change (opts c1) with (opts c). change (pending_accept_resets c1) with (pending_accept_resets c).
  destruct (negb (response_started e)); [|by apply Hfin].
  destruct (match max_pending_accept_reset_streams (opts c) with Some max => _ | None => false end) eqn:E;
    [by apply goaway_ok|].
  apply Hfin; [|done|done]. destruct Hok1. split; cbn; try done.
  - intros sid' e' Hs'. entry_same (co_streams0 _ _ Hs').
  - change (opts c1) with (opts c) in *. change (pending_accept_resets c1) with (pending_accept_resets c) in *.
    destruct (max_pending_accept_reset_streams (opts c)); lia.
Qed.

Lemma spawn_request_ok sid es p c : conn_ok c → conn_ok (spawn_request sid es p c).
Proof.
  intros Hok. unfold spawn_request. destruct (streams c !! sid) as [e|] eqn:Hs; [|done].
  set (e1 := set_content_length _ _). pose proof (stream_known c sid e Hok Hs) as Hle.
  assert (entry_ok c sid e1) as He1 by (pose proof (co_streams c Hok _ _ Hs) as He; entry_same He).
  assert (conn_ok (put sid e1 c)) as Hp by (apply put_ok; [done|by eexists|done]).
  destruct (_ && _); [by apply stream_error_ok|]. apply logged_ok, put_ok; [done| |].
  - cbn. rewrite lookup_insert_eq. by eexists.
  - assert (entry_ok (put sid e1 c) sid e1) as He2 by entry_same He1. entry_same He2.
Qed.

(** The block taken off the queue is taken up. *)
Lemma finalize_field_block_ok sid c : conn_ok (set_complete_blocks [sid] c) → complete_blocks c = [] →
  is_Some (streams c !! sid) → conn_ok (finalize_field_block sid c).
Proof.
  intros Hok Hcb [e Hs]. unfold finalize_field_block. rewrite Hs.
  pose proof (co_streams _ Hok _ _ Hs) as He. pose proof (stream_known _ sid e Hok Hs) as Hle.
  pose proof (decode_runs (request_decoder c) (field_block e) (header_list_size e)
    (eo_block _ _ _ He) (co_decoder _ Hok)) as [_ Hd]. cbv zeta in Hd.
  destruct (Hpack.decode _ _ _) as [[dec ls] r]. destruct Hd as (Hdt & _).
  set (e1 := set_header_list_size ls (set_field_block [] e)).
  set (c1 := put sid e1 (set_request_decoder dec c)).
  assert (conn_ok c1) as Hok1.
  { destruct Hok. unfold c1, put. split; cbn; try done; [|by rewrite size_put by (by eexists)].
    intros sid' e'. rewrite lookup_insert_Some. intros [[<- <-]|[Hne Hs']].
    - destruct He. split; cbn; try done. left. rewrite fragments_none by done. destruct eo_frames0. cbn. rewrite zlen_nil. lia.
    - destruct (co_streams0 _ _ Hs'). split; cbn; try done. rewrite (fragments_other _ _ sid) in eo_buffered0 by done.
      by rewrite fragments_none. }
  assert (known c1 sid) as Hle1 by exact Hle.
  assert (streams c1 !! sid = Some e1) as Hs1 by (cbn; apply lookup_insert_eq).
  clearbody c1. destruct r as [decoded|[]]; try (by apply goaway_ok); [|by apply stream_error_ok].
  destruct (request_started e1).
  - destruct (parse_trailers decoded) as [trailers|[]]; [|by apply stream_error_ok].
    destruct (trailers_seen e1); [by apply stream_error_ok|].
    set (e2 := set_trailers_seen true e1).
    assert (entry_ok c1 sid e2) as He2 by (pose proof (co_streams c1 Hok1 _ _ Hs1) as H; entry_same H).
    assert (conn_ok (put sid e2 c1)) as Hp by (apply put_ok; [done|by eexists|done]).
    destruct (negb (pending_end_stream e)); [by apply stream_error_ok|].
    pose proof (send_body_ok c1 sid e2 (BodyTrailers trailers) He2) as He3.
    destruct (send_body e2 (BodyTrailers trailers)) as [e3 ok]. cbn in He3.
    assert (conn_ok (put sid e3 (put sid e2 c1))) as Hp3.
    { apply put_ok; [done|cbn; rewrite lookup_insert_eq; by eexists|]. entry_same He3. }
    destruct ok; cbn [negb]; [|by apply close_stream_ok].
    destruct (pending_end_stream e); [by apply end_request_body_ok|done].
  - destruct (parse_request decoded) as [parsed|[]]; [|by apply stream_error_ok].
    apply spawn_request_ok. destruct (pending_end_stream e); [by apply end_request_body_ok|done].
Qed.

(** *** Responses *)

Lemma encode_and_emit_ok sid es fields c :
  stream_ok sid → Forall header_ok fields → conn_ok c → conn_ok (encode_and_emit sid es fields c).
Proof.
  intros Hsid Hf Hok. unfold encode_and_emit.
  destruct (encode_ok (encoder c) fields [] (proj1 (co_encoder c Hok)) Hf (proj2 (co_encoder c Hok))) as [H1 H2].
  destruct (Hpack.encode _ _ _) as [enc block]. cbn in H1, H2.
  apply emit_ok; [apply writes_field_block; [apply Hok|done]|].
  destruct Hok. split; cbn; try done; [|by rewrite H2].
  intros sid' e Hs. entry_same (co_streams0 _ _ Hs).
Qed.

Lemma new_headers_ok l : Forall header_ok (map (λ f : bytes * bytes, new_header f.1 f.2) l).
Proof. induction l; cbn; constructor; [apply new_header_ok|done]. Qed.

Lemma encode_field_block_ok sid es st fields c :
  stream_ok sid → conn_ok c → conn_ok (encode_field_block sid es st fields c).
Proof.
  intros Hsid Hok. apply encode_and_emit_ok; [done| |done]. constructor; [apply new_header_ok|apply new_headers_ok].
Qed.

Lemma handle_stream_msg_ok sid msg c :
  known c sid → msg_ok msg → conn_ok c → conn_ok (handle_stream_msg sid msg c).
Proof.
  intros Hle Hmsg Hok. pose proof (known_ok c sid Hok Hle) as Hsid.
  assert (∀ e e', streams c !! sid = Some e → entry_ok c sid e' → conn_ok (put sid e' c)) as Hput
    by (intros e e' Hs He'; apply put_ok; [done|by eexists|done]).
  destruct msg as [st fields es|st fields|data es|fields|code|]; cbn [handle_stream_msg].
  - destruct (streams c !! sid) as [e|] eqn:Hs; [|by apply encode_field_block_ok].
    destruct (local_ended e); [done|]. apply encode_field_block_ok; [done|]. eapply Hput; [done|].
    pose proof (co_streams c Hok _ _ Hs) as He. entry_same He.
  - by apply encode_field_block_ok.
  - destruct (streams c !! sid) as [e|] eqn:Hs; [|done]. destruct (local_ended e); [done|].
    apply pump_ok. eapply Hput; [done|]. pose proof (co_streams c Hok _ _ Hs) as He. entry_same He.
  - destruct (streams c !! sid) as [e|] eqn:Hs; [|done]. destruct (local_ended e); [done|].
    apply encode_and_emit_ok; [done|apply new_headers_ok|]. eapply Hput; [done|].
    pose proof (co_streams c Hok _ _ Hs) as He. entry_same He.
  - apply close_stream_ok; [|done]. apply emit_ok; [by apply writes_reset|by apply logged_ok].
  - destruct (streams c !! sid) as [e|] eqn:Hs; [|done].
    assert (conn_ok (put sid (set_task_done true e) c)) as Hp.
    { eapply Hput; [done|]. pose proof (co_streams c Hok _ _ Hs) as He. entry_same He. }
    destruct (local_ended e); [by apply close_stream_ok|done].
Qed.
Lemma stream_msgs_ok sid l c :
  known c sid → Forall msg_ok l → conn_ok c → conn_ok (foldl (λ c msg, handle_stream_msg sid msg c) c l).
Proof.
  intros Hk Hl. revert c Hk. induction Hl as [|msg l Hm Hl IH]; intros c Hk Hok; [done|]. cbn [foldl].
  apply IH; [|by apply handle_stream_msg_ok].
  assert (micros false c (handle_stream_msg sid msg c)) as Hmi by (by apply m_stream_msg).
  apply micros_grow in Hmi as (_ & _ & _ & _ & _ & _ & Hh & _). unfold known in *. lia.
Qed.

Lemma merge_end_ok l : Forall msg_ok l → Forall msg_ok (merge_end l).
Proof.
  assert (∀ n l, (length l < n)%nat → Forall msg_ok l → Forall msg_ok (merge_end l)) as H; [|apply (H (S (length l))); lia].
  clear l. induction n as [|n IH]; intros l Hn Hl; [lia|]. destruct Hl as [|m l Hm Hl]; [done|].
  cbn in Hn. assert (Forall msg_ok (m :: merge_end l)) as Hone by (constructor; [done|apply IH; [lia|done]]).
  destruct m; try done. cbn [merge_end]. destruct l as [|m2 l2]; [done|].
  destruct m2 as [| |d2 es2| | |]; try done. destruct d2; [|done]. destruct es2; [|done].
  constructor; [done|]. apply IH; [cbn in Hn; lia|]. by inversion Hl.
Qed.

Lemma drain_stream_ok sid c : conn_ok c → conn_ok (drain_stream sid c).
Proof.
  intros Hok. unfold drain_stream. destruct (streams c !! sid) as [e|] eqn:Hs; [|done].
  destruct (negb _); [done|]. apply stream_msgs_ok; [exact (stream_known c sid e Hok Hs)| |].
  - apply merge_end_ok, (eo_msgs _ _ _ (co_streams c Hok _ _ Hs)).
  - by eapply put_same_ok.
Qed.

Lemma drain_outbound_ok c : conn_ok c → conn_ok (drain_outbound iteration c).
Proof.
  intros Hok. unfold drain_outbound. generalize (filter (λ id, match streams c !! id with
    Some e => bool_decide (msgs e = []) | None => true end = false) (iteration c)) as ids.
  intros ids. revert c Hok. induction ids as [|id ids IH]; intros c Hok; [done|]. by apply IH, drain_stream_ok.
Qed.

Lemma graceful_ok c : conn_ok c → conn_ok (begin_graceful_shutdown c).
Proof.
  intros Hok. unfold begin_graceful_shutdown. destruct (_ || _); [done|].
  pose proof (co_highest c Hok) as [Hh _].
  apply emit_ok; [by apply writes_goaway|]. destruct Hok. split; cbn; try done.
  intros sid e Hs. entry_same (co_streams0 _ _ Hs).
Qed.

Lemma flush_ok c : conn_ok c → conn_ok (flush c).
Proof. apply conn_ok_same; [repeat split; done|]. cbn. by rewrite app_nil_r. Qed.

(** *** Frames *)

Lemma dispatch_ok f c c' :
  frame_valid f → bytes_ok (carried f) → zlen (carried f) < 2 ^ 24 → complete_blocks c = [] → conn_ok c →
  dispatch iteration f c = Some c' → conn_ok c'.
Proof.
  intros Hv Hb Hl Hcb Hok. destruct f as [| | | |[]| |[]| | | |]; cbn in Hv, Hb, Hl |- *; intros [= <-]; try done.
  - by apply handle_data_frame_ok.
  - apply handle_headers_frame_ok; [done|done|apply Hv|done|done].
  - by apply handle_reset_frame_ok.
  - apply emit_ok; [apply writes_settings_ack|]. apply apply_peer_settings_ok; [apply Hv|done].
  - by apply goaway_ok.
  - apply emit_ok; [by apply writes_ping_ack|done].
  - apply handle_window_update_ok; [lia|done].
  - by apply handle_continuation_ok.
Qed.

(** A frame completes one block at most. *)
Lemma same_blocks c c' : micros false c c' → complete_blocks c' = complete_blocks c.
Proof.
  intros H. apply (micros_ind false (λ c c', complete_blocks c' = complete_blocks c)) in H; [done| |].
  - split; [by intros ?|]. intros c1 c2 c3 E1 E2. congruence.
  - intros a a' Hm. by destruct Hm.
Qed.

Lemma dispatch_blocks f c c' : complete_blocks c = [] → dispatch iteration f c = Some c' →
  complete_blocks c' = [] ∨ ∃ sid, complete_blocks c' = [sid].
Proof.
  intros Hc. assert (∀ c1 c2, micros false c1 c2 → complete_blocks c1 = [] → complete_blocks c2 = [] ∨ ∃ sid, complete_blocks c2 = [sid]) as Hsame.
  { intros c1 c2 Hm E. left. by rewrite (same_blocks _ _ Hm). }
  destruct f as [| sid es eh prio block | | |[]| |[]| | | sid eh block |]; cbn [dispatch]; intros [= <-]; try (by left).
  - eapply Hsame; [|exact Hc]. by apply m_data.
  - unfold handle_headers_frame. destruct (_ && _); [by left|]. destruct (streams c !! sid) as [e|].
    + destruct (remote_ended e); [by eapply Hsame; [|exact Hc]; apply m_stream_error|]. destruct eh.
      * right. exists sid. cbn. by rewrite Hc.
      * eapply Hsame; [by apply m_check_flood, m_put|done].
    + unfold open_request_stream. destruct (_ || _); [by eapply Hsame; [|exact Hc]; apply m_goaway|].
      destruct (_ <=? _); [by eapply Hsame; [|exact Hc]; apply m_goaway|].
      destruct (_ <=? _); [by left|]. destruct eh; [right; exists sid; cbn; by rewrite Hc|by left].
  - eapply Hsame; [|exact Hc]. by apply m_reset.
  - eapply Hsame; [|exact Hc]. apply m_emit; [auto with micro|]. by apply m_apply_peer_settings.
  - eapply Hsame; [|exact Hc]. by apply m_goaway.
  - eapply Hsame; [|exact Hc]. by apply m_window_update.
  - unfold handle_continuation. destruct (streams c !! sid) as [e|]; [|by eapply Hsame; [|exact Hc]; apply m_goaway].
    destruct eh; [right; exists sid; cbn; by rewrite Hc|]. eapply Hsame; [by apply m_check_flood, m_put|done].
Qed.

Lemma finish_block_ok c : complete_blocks c = [] ∨ (∃ sid, complete_blocks c = [sid]) → conn_ok c →
  conn_ok (finish_block c) ∧ complete_blocks (finish_block c) = [].
Proof.
  intros Hc Hok. unfold finish_block, take_complete_block. destruct Hc as [Hc|[sid Hc]]; rewrite Hc; cbn [pop_complete].
  - split; [|done]. eapply conn_ok_same; [| |exact Hok]; [repeat split; cbn; congruence|done].
  - case_bool_decide as Hs.
    + assert (set_complete_blocks [sid] (set_complete_blocks [] c) = c) as E by (rewrite <- Hc; by destruct c).
      split; [apply finalize_field_block_ok; [by rewrite E|done|done]|].
      by rewrite (same_blocks (set_complete_blocks [] c)) by (by apply m_finalize).
    + split; [|done]. destruct Hok. split; cbn; try done. intros sid' e' Hs'.
      destruct (co_streams0 _ _ Hs'). split; cbn; try done. rewrite fragments_none by done.
      rewrite (fragments_other _ _ sid) in eo_buffered0; [done|done|]. intros ->. apply Hs. by eexists.
Qed.

Lemma set_decoder_ok d c :
  bytes_ok (buf d) → max_ok (max_frame_size d) → conn_ok c → conn_ok (set_decoder d c).
Proof.
  intros Hb Hm []. split; cbn; try done. intros sid e Hs. entry_same (co_streams0 _ _ Hs).
Qed.

(** Between the turns of the loops no complete block waits. *)
Definition settled (c : Connection) : Prop := conn_ok c ∧ complete_blocks c = [].

Lemma goaway_blocks r d c : complete_blocks (goaway r d c) = complete_blocks c.
Proof. apply same_blocks, m_goaway. by unfold micros. Qed.

Lemma process_turn_ok c : settled c → settled (process_turn iteration c).1.
Proof.
  intros [Hok Hcb]. unfold process_turn. destruct (co_buffer c Hok) as [Hb Hm].
  destruct (next_frame_buffer _ Hb Hm) as [Hb' Hm'].
  pose proof (next_frame_safe (decoder c)) as Hsafe.
  destruct (next_frame (decoder c)) as [d [[f|]|e]]; cbn in Hb', Hm';
    pose proof (set_decoder_ok d c Hb' Hm' Hok) as Hok1;
    [|done|split; [by apply flush_ok, goaway_ok|by cbn [fst flush set_out set_wire complete_blocks]; rewrite goaway_blocks]].
  destruct (Hsafe d f Hb Hm eq_refl) as (Hv & _ & _ & (hd & payload & Hbuf & _ & Hpl & Hsub) & _).
  assert (bytes_ok (carried f)) as Hf.
  { apply Forall_forall. intros x Hx. eapply Forall_forall; [exact Hb|]. rewrite Hbuf.
    rewrite !elem_of_app. right; left. by eapply elem_of_sublist. }
  assert (zlen (carried f) < 2 ^ 24) as Hlen.
  { destruct Hm as [_ Hm]. unfold MAX_FRAME_SIZE_LIMIT in Hm. change (2 ^ 24) with 16777216.
    apply sublist_length in Hsub. unfold zlen in *. lia. }
  destruct (dispatch iteration f _) as [c2|] eqn:Ed; [|done].
  destruct (finish_block_ok _ (dispatch_blocks f (set_decoder d c) c2 Hcb Ed) (dispatch_ok f (set_decoder d c) c2 Hv Hf Hlen Hcb Hok1 Ed)) as [Hok2 Hcb2].
  destruct (closing _); (split; [|done]); [by apply flush_ok|done].
Qed.
End invariant.
