(* ===== verification/H2Example.v ===== *)
(** * A concrete environment of the HTTP/2 connection

    Values for the parameters of the model ([Http], [Channels], the iteration
    order of the stream map) and a short session, on which the theorems of the
    following files are instantiated. *)

From S2P Require Import Prelude Integer HpackTable Hpack H2Error H2Codec H2Request H2Connection.

#[local] Existing Instance plain_http.

(** A body channel whose reader keeps what it is sent, or is gone. *)
Definition plain_channels : Channels := {|
  BodyTx := option (list (bytes + HeaderMap + unit));
  body_channel := Some [];
  body_send tx msg := match tx with Some l => (Some (l ++ [msg]), true) | None => (None, false) end;
|}.
#[local] Existing Instance plain_channels.

(** The streams in the order of the map's own listing. *)
Definition table_order (c : Connection) : list Z := (map_to_list (streams c)).*1.

(** [GET https://a/], and its field block by a client's HPACK encoder. *)
Definition get_fields : list Header :=
  [new_header (b ":method") (b "GET"); new_header (b ":scheme") (b "https");
   new_header (b ":authority") (b "a"); new_header (b ":path") (b "/")].
Definition get_block : bytes := (Hpack.encode (new_encoder 4096) get_fields []).2.

(** A client's SETTINGS, its request on stream 1, and the answer. *)
Definition get_session : list Event :=
  [Read (write_settings [] []); Read (write_frame [] (Headers 1 true true None get_block));
   TaskMsg 1 (MsgHeaders 200 [(b "x", b "y")] false); TaskMsg 1 (MsgData (b "hello") false);
   TaskMsg 1 (MsgData [] true); TaskMsg 1 MsgClosed; Wake].

Definition after_get : Connection := run table_order (start default_options (Some CLIENT_PREFACE)).1 get_session.

(** The request is dispatched, the answer framed, the stream retired. *)
Example get_session_runs :
  length (log after_get) = 1%nat ∧ streams after_get = ∅ ∧ closed_order after_get = [1]
  ∧ conn_window after_get = 65530 ∧ connection_error after_get = None
  ∧ drop 33 (wire after_get)
    = write_data (write_frame (write_settings_ack []) (Headers 1 false true None
        [136; 64; 129; 243; 129; 245])) 1 true (b "hello").
Proof. vm_compute. done. Qed.

(** The same request from a client that opens its streams with [window] octets
    of credit, answered with [msgs]. *)
Definition narrow_session (window : Z) (msgs : list StreamMsg) : list Event :=
  [Read (write_settings [] [MkSetting 4 window]); Read (write_frame [] (Headers 1 true true None get_block))]
  ++ map (TaskMsg 1) msgs ++ [Wake].

(** Five octets answered to a window of three. *)
Definition blocked_session : list Event :=
  narrow_session 3 [MsgHeaders 200 [] false; MsgData (b "hello") true].
Definition blocked : Connection := run table_order (start default_options (Some CLIENT_PREFACE)).1 blocked_session.

Example blocked_waits :
  pending_data <$> streams blocked !! 1 = Some [(b "lo", true)]
  ∧ send_window <$> streams blocked !! 1 = Some 0 ∧ conn_window blocked = 65532.
Proof. vm_compute. done. Qed.
