(* ===== verification/H2Loop.v ===== *)
(** * The event loop of the HTTP/2 connection

    The frame loop terminates and leaves no complete frame unread; the
    invariant of [H2Invariant] holds in every state the event loop reaches,
    for any octets from the peer and any behaviour of the stream tasks. *)

From S2P Require Import Prelude Integer HpackTable Hpack H2Error H2Codec H2Wire H2Request H2Connection H2Steps H2Invariant H2Example.

Section loop.
Context `{HC : Channels} (iteration : Connection → list Z).

(** What the environment may do: octets are octets, error codes 32-bit. *)
Definition event_ok (ev : Event) : Prop :=
  match ev with Read octets => bytes_ok octets | TaskMsg _ msg => msg_ok msg | _ => True end.

#[global] Instance event_ok_dec ev : Decision (event_ok ev).
Proof. destruct ev; apply _. Defined.

(** ** Termination of the frame loop *)

Lemma dispatch_grows f c c' : dispatch iteration f c = Some c' → grows c (finish_block c').
Proof. intros H. apply (micros_grow true), m_finish_block. by eapply m_dispatch; [|done]. Qed.

(** A turn that continues took a frame off the buffer. *)
Lemma process_turn_consumes c c' :
  process_turn iteration c = (c', None) →
  (length (buf (decoder c')) + 9 ≤ length (buf (decoder c)))%nat.
Proof.
  unfold process_turn. pose proof (next_frame_consumes (decoder c)) as Hc.
  destruct (next_frame (decoder c)) as [d [[f|]|e]]; [|done|done].
  destruct (dispatch iteration f _) as [c2|] eqn:Ed; [|done].
  apply dispatch_grows in Ed as (Hb & _). destruct (closing _); [done|]. intros [= <-].
  rewrite Hb. by apply Hc with f.
Qed.

Lemma process_frames_runs fuel c :
  (length (buf (decoder c)) < fuel)%nat →
  ∃ r, process_frames iteration fuel c = Some r
    ∧ ∀ fuel', (length (buf (decoder c)) < fuel')%nat → process_frames iteration fuel' c = Some r.
Proof.
  revert c. induction fuel as [|fuel IH]; intros c Hf; [lia|].
  pose proof (process_turn_consumes c) as Ht. cbn [process_frames].
  destruct (process_turn iteration c) as [c' [e|]] eqn:E.
  - exists (c', e). split; [done|]. intros [|fuel'] ?; [lia|]. cbn [process_frames]. by rewrite E.
  - specialize (Ht c' eq_refl). destruct (IH c') as (r & Hr & Hr'); [lia|]. exists r. split; [done|].
    intros [|fuel'] ?; [lia|]. cbn [process_frames]. rewrite E. apply Hr'. lia.
Qed.

(** The frames of [c] have been read: what remains is no complete frame. *)
Definition quiescent (c : Connection) : Prop := next_frame (decoder c) = (decoder c, Ok None).

Lemma process_frames_reads fuel c c' :
  process_frames iteration fuel c = Some (c', false) → quiescent c'.
Proof.
  revert c. induction fuel as [|fuel IH]; intros c; [done|]. cbn [process_frames].
  destruct (process_turn iteration c) as [c1 [e|]] eqn:E; [|apply IH]. intros [= -> ->].
  unfold process_turn in E. pose proof (next_frame_extend (decoder c) []) as Hx.
  destruct (next_frame (decoder c)) as [d [[f|]|e]] eqn:En; [|injection E as <-; by subst|done].
  destruct (dispatch _ _ _); [destruct (closing _)|]; done.
Qed.

Lemma process_frames_ok fuel c c' ended :
  settled c → process_frames iteration fuel c = Some (c', ended) → settled c'.
Proof.
  revert c. induction fuel as [|fuel IH]; intros c Hok; [done|]. cbn [process_frames].
  pose proof (process_turn_ok iteration c Hok) as Ht.
  destruct (process_turn iteration c) as [c1 [e|]]; [by intros [= -> ->]|by apply IH].
Qed.

(** C29. The loop of [process_frames] terminates on any buffer: each turn
    that continues takes at least a frame header off it, so the fuel the
    model gives it is enough, more changes nothing, and when it returns
    [Ok(false)] no complete frame is left unread. *)
Theorem process_frames_total c :
  let n := S (length (buf (decoder c))) in
  ∃ c' ended, process_frames iteration n c = Some (c', ended)
    ∧ (∀ fuel, (n ≤ fuel)%nat → process_frames iteration fuel c = Some (c', ended))
    ∧ (ended = false → quiescent c').
Proof.
  cbv zeta. destruct (process_frames_runs (S (length (buf (decoder c)))) c) as ([c' ended] & H1 & H2); [lia|].
  exists c', ended. split; [done|]. split; [intros fuel ?; apply H2; lia|].
  intros ->. by eapply process_frames_reads.
Qed.

(** ** The invariant over a run *)

(** What handles no frame leaves the queue of complete blocks alone. *)
Lemma settled_micros c c' : conn_ok c' → micros false c c' → complete_blocks c = [] → settled (flush c').
Proof. intros Hok Hm Hc. split; [by apply flush_ok|]. cbn. by rewrite (same_blocks c c'). Qed.

Lemma step_ok ev c : event_ok ev → settled c → settled (step iteration ev c).1.
Proof.
  intros Hev [Hok Hc]. destruct ev as [octets| | | |sid msg|sid tx]; cbn [step fst].
  - case_bool_decide; [done|]. set (c1 := set_decoder _ c).
    assert (conn_ok c1) as Hok1.
    { destruct (co_buffer c Hok). apply set_decoder_ok; cbn; [by apply Forall_app|done|done]. }
    destruct (process_frames _ _ c1) as [[c2 ended]|] eqn:E; [|by split].
    destruct (process_frames_ok _ c1 _ _ (conj Hok1 Hc) E) as [Hok2 Hc2].
    eapply settled_micros; [by apply drain_outbound_ok|by apply m_drain_outbound|done].
  - eapply settled_micros; [by apply drain_outbound_ok|by apply m_drain_outbound|done].
  - eapply settled_micros; [by apply graceful_ok|by apply m_begin_graceful|done].
  - eapply settled_micros; [by apply graceful_ok|by apply m_begin_graceful|done].
  - destruct (streams c !! sid) as [e|] eqn:Hs; [|done]. split; [|done]. eapply put_same_ok; try done.
    apply Forall_app. split; [apply (co_streams c Hok _ _ Hs)|by constructor].
  - destruct (streams c !! sid) as [e|] eqn:Hs; [|done]. destruct (body_tx e); [|done].
    split; [|done]. eapply put_same_ok; try done. apply (co_streams c Hok _ _ Hs).
Qed.

Lemma run_ok evs c : Forall event_ok evs → settled c → settled (run iteration c evs).
Proof.
  intros Hevs. revert c. induction Hevs as [|ev evs Hev Hevs IH]; intros c Hok; [done|]. cbn [run].
  destruct (_ && _); [done|]. pose proof (step_ok ev c Hev Hok) as Hs.
  destruct (step iteration ev c) as [c1 []]; [by apply IH|done].
Qed.

(** The settings announced are settings a peer accepts. *)
Lemma announced_ok o :
  options_ok o →
  Forall setting_ok [MkSetting 0x03 (max_concurrent_streams o); MkSetting 0x04 (initial_stream_window_size o);
    MkSetting 0x05 (opt_max_frame_size o); MkSetting 0x08 (if enable_connect_protocol o then 1 else 0)].
Proof.
  intros [H1 _ H2 [H3 H4] _ _ _]. change (2 ^ 32) with 4294967296 in H1.
  unfold i32_max in H2. change (2 ^ 31 - 1) with 2147483647 in H2.
  unfold DEFAULT_MAX_FRAME_SIZE, MAX_FRAME_SIZE_LIMIT in *.
  repeat constructor; cbn [set_id set_value]; try (change (2 ^ 32) with 4294967296; lia); try done.
  - cbn. apply fail_if_Ok. unfold MAX_WINDOW_SIZE. lia.
  - cbn. apply fail_if_Ok. unfold DEFAULT_MAX_FRAME_SIZE, MAX_FRAME_SIZE_LIMIT. lia.
  - by destruct (enable_connect_protocol o).
  - by destruct (enable_connect_protocol o).
Qed.

Lemma flush_blocks c : complete_blocks (flush c) = complete_blocks c.
Proof. done. Qed.

Lemma start_ok o preface : options_ok o → settled (start o preface).1.
Proof.
  intros Ho. assert (conn_ok (configure o new_connection)) as Hok.
  { pose proof Ho as []. split; cbn; try done; try lia; [constructor| |apply framed_nil].
    rewrite map_size_empty. lia. }
  unfold start. destruct preface as [magic|]; [|done]. case_bool_decide; cbn [fst].
  - split; [|by unfold announce; rewrite flush_blocks]. apply flush_ok, emit_ok; [|done]. apply writes_settings; [|done]. by apply announced_ok.
  - split; [by apply flush_ok, goaway_ok|]. by rewrite flush_blocks, goaway_blocks.
Qed.

(** C1. Safety of the connection: with options in the ranges the protocol
    allows, whatever octets the peer sends and whatever the stream tasks and
    body readers do, every state the event loop reaches satisfies the
    invariant.  In particular the memory of closed streams holds at most
    4096 distinct identifiers and none of an open stream; open streams have
    odd identifiers up to the highest seen and number at most the advertised
    limit; the connection window stays within [0, 2^31-1] and stream windows
    never exceed it; the reset counters stay within their budgets; of a field
    block a stream counts no more frames than the CONTINUATION limit, and it
    holds no more octets than that many frames can carry; and the HPACK tables
    stay within their size limits.  A stream may be beyond its window or its
    CONTINUATION limit only when the connection is closing. *)
Theorem connection_invariant o preface evs :
  options_ok o → Forall event_ok evs →
  let c := run iteration (start o preface).1 evs in
  conn_ok c
  ∧ ∀ sid e, streams c !! sid = Some e → closing c = false →
      continuation_frames e ≤ max_continuation_frames c ∧ zlen (field_block e) ≤ continuation_frames e * 2 ^ 24.
Proof.
  intros Ho Hevs c. destruct (run_ok evs _ Hevs (start_ok o preface Ho)) as [Hok Hc]. split; [exact Hok|].
  intros sid e Hs Hcl. destruct (co_streams c Hok sid e Hs) as [_ _ _ _ _ [_ Hf] Hb _ _ _]. unfold c in *.
  rewrite fragments_none in Hb by done. rewrite Hcl in Hf, Hb. split; [by destruct Hf|by destruct Hb].
Qed.

Lemma finish_ok c : conn_ok c → conn_ok (finish c).
Proof.
  intros Hok. apply flush_ok. destruct (graceful c); [|done].
  unfold finish_graceful_shutdown. destruct (closing c); [done|].
  apply emit_ok; [|done]. apply writes_goaway; [apply Hok|done].
Qed.

(** C8. Everything the server sends over a connection is a sequence of frames
    a peer must accept, for options in the ranges the protocol allows, any
    octets received and any behaviour of the stream tasks: every frame has a stream identifier and
    values of the protocol's ranges and fits the 24-bit length, the announced
    settings are valid, every WINDOW_UPDATE has a positive increment below
    2^31, and each field block is one HEADERS and its CONTINUATION frames with
    nothing in between. *)
Theorem output_well_formed o preface evs :
  options_ok o → Forall event_ok evs →
  let c := finish (run iteration (start o preface).1 evs) in
  out c = [] ∧ ∃ fs, wire c = write_frames [] fs ∧ Forall frame_ok fs ∧ disciplined None fs.
Proof.
  intros Ho Hevs. cbv zeta. split; [done|].
  pose proof (co_framed _ (finish_ok _ (proj1 (run_ok evs _ Hevs (start_ok o preface Ho))))) as H.
  cbn [out finish flush set_out] in H. by rewrite app_nil_r in H.
Qed.
End loop.

#[local] Existing Instances plain_http plain_channels.

(** A field block that goes on. *)
Definition open_block : list Event := [Read [0; 0; 3; 1; 0; 0; 0; 0; 1; 130; 132; 134]].
Definition in_block : Connection := run table_order (start default_options (Some CLIENT_PREFACE)).1 open_block.

Lemma connection_invariant_witness :
  options_ok default_options ∧ Forall event_ok open_block ∧ conn_ok in_block
  ∧ ∃ e, streams in_block !! 1 = Some e ∧ field_block e = [130; 132; 134]
      ∧ continuation_frames e ≤ max_continuation_frames in_block ∧ zlen (field_block e) ≤ continuation_frames e * 2 ^ 24.
Proof.
  assert (options_ok default_options) as Ho by (by split).
  assert (Forall event_ok open_block) as He by (apply (bool_decide_unpack _); vm_compute; exact I).
  destruct (connection_invariant table_order default_options (Some CLIENT_PREFACE) open_block Ho He
    : let c := in_block in _) as [Hok Hb].
  split; [exact Ho|]. split; [exact He|]. split; [exact Hok|].
  assert (field_block <$> streams in_block !! 1 = Some [130; 132; 134]) as (e & E & Ef)%fmap_Some by (vm_compute; reflexivity).
  exists e. split; [exact E|]. split; [exact (eq_sym Ef)|]. refine (Hb 1 e E _). vm_compute. reflexivity.
Defined.

Lemma output_well_formed_witness :
  let c := finish after_get in
  out c = [] ∧ ∃ fs, wire c = write_frames [] fs ∧ Forall frame_ok fs ∧ disciplined None fs.
Proof.
  apply (output_well_formed table_order default_options (Some CLIENT_PREFACE) get_session); [by split|].
  apply (bool_decide_unpack _); vm_compute; exact I.
Defined.
