(* ===== verification/H2Exchange.v ===== *)
(** * From the wire to the handler

    The layers put together: a request a client encodes with HPACK and frames
    arrives at the user's handler with exactly the fields it was sent with,
    and the two HPACK tables stay in step for the next one. *)

From S2P Require Import Prelude Integer HpackTable Hpack H2Error H2Codec H2Wire H2Request H2Connection H2Steps.
From S2P Require Import H2Invariant H2Example H2Loop.

Section exchange.
Context `{HC : Channels} (iteration : Connection → list Z).

(** The connection waits for the next frame of a client whose HPACK encoder
    is [enc]. *)
Record ready (enc : Encoder) (c : Connection) : Prop := MkReady {
  rd_buffer : buf (decoder c) = [];
  rd_block : block_stream (decoder c) = None;
  rd_complete : complete_blocks c = [];
  rd_open : closing c = false;
  rd_graceful : graceful c = false;
  rd_synced : synced enc (request_decoder c);
}.

(** A fresh stream with the field block [block], as HEADERS leaves it. *)
Definition opened (c : Connection) (es : bool) (block : bytes) : StreamEntry :=
  MkStreamEntry (if es then None else Some body_channel) [] block es false false false false None 0 false false
    (initial_window_size (peer c)) [] 0 0 0.

(** The same stream once its request [r] is dispatched. *)
Definition dispatched (c : Connection) (es : bool) (r : ParsedRequest) (ls : Z) : StreamEntry :=
  MkStreamEntry (if es then None else Some body_channel) [] [] es true false es false (H2Request.content_length r) 0
    false false (initial_window_size (peer c)) [] 0 ls 0.

Lemma lookup_put sid e c : streams (put sid e c) !! sid = Some e.
Proof. apply lookup_insert_eq. Qed.

Lemma headers_open sid es block c :
  graceful c = false → streams c !! sid = None → 0 < sid → sid mod 2 = 1 → highest_stream_id c < sid →
  Z.of_nat (base.size (streams c)) < max_concurrent_streams (opts c) < 2 ^ 32 →
  handle_headers_frame sid es true block c
  = put sid (opened c es block)
      (set_complete_blocks (complete_blocks c ++ [sid]) (set_highest_stream_id sid c)).
Proof.
  intros Hg Hs Hpos Hodd Hhi Hmax. unfold handle_headers_frame. rewrite Hg, Hs. cbn [andb].
  unfold open_request_stream.
  rewrite (proj2 (Z.eqb_neq sid 0)), (proj2 (Z.eqb_neq (sid mod 2) 0)), (proj2 (Z.leb_gt sid (highest_stream_id c))) by lia.
  cbn [orb]. cbv zeta. change (opts (set_highest_stream_id sid c)) with (opts c).
  change (streams (set_highest_stream_id sid c)) with (streams c).
  unfold u32. rewrite Z.mod_small, (proj2 (Z.leb_gt _ _)) by lia. by destruct es.
Qed.

Lemma finalize_request sid es block c e dec ls hs r :
  streams c !! sid = Some e → e = opened c es block →
  Hpack.decode (request_decoder c) block 0 = (dec, ls, Ok hs) → parse_request hs = Ok r →
  (es = true → H2Request.content_length r = None ∨ H2Request.content_length r = Some 0) →
  let c1 := finalize_field_block sid c in
  streams c1 = <[sid := dispatched c es r ls]> (streams c) ∧ request_decoder c1 = dec
  ∧ log c1 = log c ++ [Spawn sid r (negb (is_connect r) && negb es) (send_continue_response (opts c) && expect_continue r)]
  ∧ out c1 = out c ∧ closing c1 = closing c ∧ graceful c1 = graceful c ∧ complete_blocks c1 = complete_blocks c
  ∧ decoder c1 = decoder c ∧ highest_stream_id c1 = highest_stream_id c.
Proof.
  intros Hs -> Hd Hp Hcl. cbv zeta. unfold finalize_field_block. rewrite Hs.
  change (field_block (opened c es block)) with block. change (header_list_size (opened c es block)) with 0.
  rewrite Hd. cbv zeta. set (c1 := put _ _ _). cbn [request_started set_header_list_size set_field_block opened].
  change (request_started _) with false. cbv iota. rewrite Hp.
  change (pending_end_stream (opened c es block)) with es.
  set (e2 := set_header_list_size ls (set_field_block [] (opened c es block))) in *.
  assert ((if es then end_request_body sid c1 else c1) = put sid (set_remote_ended es e2) (set_request_decoder dec c)) as ->.
  { destruct es; [|done]. unfold end_request_body. unfold c1 at 1. rewrite lookup_put. unfold c1. by rewrite put_put. }
  assert (spawn_request sid es r (put sid (set_remote_ended es e2) (set_request_decoder dec c))
    = logged (Spawn sid r (negb (is_connect r) && negb es) (send_continue_response (opts c) && expect_continue r))
        (put sid (dispatched c es r ls) (set_request_decoder dec c))) as ->; [|done].
  unfold spawn_request. rewrite lookup_put. cbv zeta.
  assert ((es && match H2Request.content_length r with Some cl => negb (cl =? 0) | None => false end) = false) as ->.
  { destruct es; [|done]. destruct (Hcl eq_refl) as [-> | ->]; done. }
  rewrite !put_put. by destruct es.
Qed.

(** The two turns of the frame loop a HEADERS frame takes. *)
Lemma one_frame c f c1 n :
  buf (decoder c) = [] → block_stream (decoder c) = None →
  frame_ok f → block_allows None f → block_after f None = None → max_after f (max_frame_size (decoder c)) = max_frame_size (decoder c) →
  zlen (write_frame [] f) ≤ FRAME_HEADER_LEN + max_frame_size (decoder c) →
  dispatch iteration f c = Some c1 → closing (finish_block c1) = false → decoder (finish_block c1) = decoder c →
  (2 ≤ n)%nat →
  process_frames iteration n (set_decoder (extend (decoder c) (write_frame [] f)) c) = Some (finish_block c1, false).
Proof.
  intros Hb Hbl Hf Ha Haf Hmx Hl Hd Hcl Hdec Hn. destruct n as [|[|n]]; [lia|lia|]. cbn [process_frames].
  unfold process_turn at 1. cbn [decoder set_decoder].
  assert (extend (decoder c) (write_frame [] f) = MkFrameDecoder (write_frame [] f) (max_frame_size (decoder c)) None) as ->
    by (unfold extend; by rewrite Hb, Hbl).
  assert (decoder c = MkFrameDecoder [] (max_frame_size (decoder c)) None) as Edec
    by (destruct (decoder c); cbn in *; congruence).
  rewrite (next_frame_write _ f []); [|done|done|done|by rewrite app_nil_r]. cbn [max_frame_size block_stream].
  assert (set_decoder (after f (MkFrameDecoder [] (max_frame_size (decoder c)) None))
    (set_decoder (MkFrameDecoder (write_frame [] f) (max_frame_size (decoder c)) None) c) = c) as ->.
  { unfold after. cbn [buf max_frame_size block_stream]. rewrite Haf, Hmx, <- Edec. by destruct c. }
  rewrite Hd. cbv zeta. rewrite Hcl. unfold process_turn. rewrite Hdec, Edec. cbn [next_frame buf].
  change (next_frame (MkFrameDecoder [] ?m ?b)) with (MkFrameDecoder [] m b, @Ok H2Error (option Frame) None).
  cbn. rewrite <- Edec, <- Hdec. by destruct (finish_block c1).
Qed.

(** C13. From the wire to the handler.  The connection waits for a frame, is not
    closing, and its HPACK decoder is in step with the client's encoder.  The
    client encodes the fields of a request [parse_request] accepts, within the
    header list limit, and frames the block in one HEADERS frame, within the
    frame limit and without priority, on an odd stream above every one seen; a
    frame that ends the stream announces no content; and the connection is
    below its concurrency limit.  Then reading those octets dispatches exactly
    one request, which is the one [parse_request] gives for those very fields;
    a body reader comes with it unless the frame ended the stream or the method
    is CONNECT; the stream is open with the peer's initial window; nothing is
    written; and the connection waits for the client's next request, the HPACK
    tables in step. *)
Theorem request_dispatched enc c sid es hs r n :
  conn_ok c → ready enc c → sid mod 2 = 1 → highest_stream_id c < sid < 2 ^ 31 →
  Z.of_nat (base.size (streams c)) < max_concurrent_streams (opts c) →
  Forall field_ok hs → fields_size hs ≤ d_max_header_list_size (request_decoder c) →
  parse_request hs = Ok r →
  (es = true → H2Request.content_length r = None ∨ H2Request.content_length r = Some 0) →
  zlen (Hpack.encode enc hs []).2 ≤ max_frame_size (decoder c) → (2 ≤ n)%nat →
  ∃ c1, process_frames iteration n
      (set_decoder (extend (decoder c) (write_headers [] sid es true None (Hpack.encode enc hs []).2)) c) = Some (c1, false)
    ∧ log c1 = log c ++ [Spawn sid r (negb (is_connect r) && negb es)
        (send_continue_response (opts c) && expect_continue r)]
    ∧ streams c1 = <[sid := dispatched c es r (fields_size hs)]> (streams c)
    ∧ out c1 = out c ∧ highest_stream_id c1 = sid ∧ ready (Hpack.encode enc hs []).1 c1.
Proof.
  intros Hok [R1 R2 R3 R4 R5 R6] Hodd Hsid Hroom Hfs Hsize Hp Hcl Hfit Hn.
  pose proof (co_highest c Hok) as [Hh Hcs]. pose proof (oo_concurrent _ (co_opts c Hok)) as Hmax.
  pose proof (co_buffer c Hok) as [_ [Hm1 Hm2]]. unfold DEFAULT_MAX_FRAME_SIZE, MAX_FRAME_SIZE_LIMIT in *.
  assert (streams c !! sid = None) as Hs.
  { destruct (streams c !! sid) as [e|] eqn:E; [|done]. pose proof (stream_known c sid e Hok E) as [_ ?]. lia. }
  destruct (decode_encode_block enc (request_decoder c) hs 0 R6 Hfs) as (enc1 & w & Henc & Hdec); [lia|lia|].
  assert (Hpack.encode enc hs [] = (enc1, w)) as Ew by (by rewrite Henc). rewrite Ew in Hfit |- *. cbn [fst snd] in *.
  destruct Hdec as (dec & Hd & Hsync & _); [change (2 ^ 62) with 4611686018427387904; lia|].
  pose proof (headers_open sid es w c R5 Hs ltac:(lia) Hodd ltac:(lia) ltac:(lia)) as Hopen.
  rewrite R3 in Hopen. set (cA := put sid _ _) in Hopen. cbn [app] in cA.
  assert (finish_block cA = finalize_field_block sid (set_complete_blocks [] cA)) as Hfin.
  { unfold finish_block, take_complete_block. change (complete_blocks cA) with [sid]. cbn [pop_complete].
    unfold cA. rewrite lookup_put, bool_decide_true by (by eexists). done. }
  pose proof (finalize_request sid es w (set_complete_blocks [] cA) (opened c es w) dec (fields_size hs) hs r
    (lookup_put _ _ _) eq_refl Hd Hp Hcl) as (F1 & F2 & F3 & F4 & F5 & F6 & F7 & F8 & F9).
  rewrite <- Hfin in *.
  exists (finish_block cA). split.
  - apply (one_frame c (Headers sid es true None w)); try done.
    + split; [unfold stream_ok; lia|]. change (2 ^ 24) with 16777216. lia.
    + cbn [write_frame]. unfold write_headers. rewrite zlen_app. change (zlen (header [] _ _ _ _)) with 9.
      unfold FRAME_HEADER_LEN. lia.
    + cbn [dispatch]. by rewrite Hopen.
    + by rewrite F5.
  - split; [done|]. split; [rewrite F1; cbn; by rewrite insert_insert_eq|]. split; [done|]. split; [done|].
    split; try done; rewrite ?F2, ?F5, ?F6, ?F7, ?F8; done.
Qed.
End exchange.

(** ** A client's first request *)

#[local] Existing Instances plain_http plain_channels.

Definition fresh : Connection := (start default_options (Some CLIENT_PREFACE)).1.

Lemma fresh_ok : conn_ok fresh.
Proof. apply start_ok. by split. Qed.

Lemma fresh_ready : ready (new_encoder 4096) fresh.
Proof. split; try reflexivity. by apply (synced_new u32_max 4096). Qed.

Definition get_parsed : ParsedRequest := MkParsedRequest (b "GET") (b "https://a/") [] None false false.

Lemma request_dispatched_witness :
  ∃ c1, process_frames table_order 2
      (set_decoder (extend (decoder fresh) (write_headers [] 1 true true None get_block)) fresh) = Some (c1, false)
    ∧ log c1 = log fresh ++ [Spawn 1 get_parsed false false]
    ∧ streams c1 = <[1 := dispatched fresh true get_parsed (fields_size get_fields)]> (streams fresh)
    ∧ out c1 = out fresh ∧ highest_stream_id c1 = 1 ∧ ready (Hpack.encode (new_encoder 4096) get_fields []).1 c1.
Proof.
  apply (request_dispatched table_order (new_encoder 4096) fresh 1 true get_fields get_parsed 2);
    [apply fresh_ok|apply fresh_ready|reflexivity|vm_compute; split; congruence|vm_compute; reflexivity| |
     vm_compute; congruence|vm_compute; reflexivity|by left|vm_compute; congruence|lia].
  unfold get_fields. repeat (apply Forall_cons; split; [split; [solve_bytes|solve_bytes|vm_compute; reflexivity|apply new_header_ok]|]).
  constructor.
Defined.
