(* ===== verification/H2Lifecycle.v ===== *)
(** * The life of a stream

    Across every handler a stream only moves forward: identifiers are never
    reused, flags are never cleared, and the request of a stream is handed to
    the user's handler at most once. *)

From S2P Require Import Prelude Integer HpackTable Hpack H2Error H2Codec H2Request H2Connection H2Example.

Section lifecycle.
Context `{HC : Channels}.

(** The streams a request was dispatched on, in order. *)
Definition spawned (l : list Effect) : list Z :=
  omap (λ x, match x with Spawn sid _ _ _ => Some sid | _ => None end) l.

Lemma spawned_app l l' : spawned (l ++ l') = spawned l ++ spawned l'.
Proof. apply omap_app. Qed.

(** A stream moves from [e] to [e']. *)
Record entry_le (e e' : StreamEntry) : Prop := MkEntryLe {
  le_request : request_started e = true → request_started e' = true;
  le_response : response_started e = true → response_started e' = true;
  le_local : local_ended e = true → local_ended e' = true;
  le_remote : request_started e = true → remote_ended e = true → remote_ended e' = true;
  le_length : request_started e = true → content_length e' = content_length e;
  le_trailers : trailers_seen e = true → trailers_seen e' = true;
  le_done : task_done e = true → task_done e' = true;
  le_data : data_sum e ≤ data_sum e';
}.

#[global] Instance entry_le_preorder : PreOrder entry_le.
Proof.
  split; [by split|]. intros e1 e2 e3 [] []. split; auto; [|lia].
  intros H. rewrite le_length1, le_length0; auto.
Qed.

(** The connection moves from [c] to [c']. *)
Record evolves (c c' : Connection) : Prop := MkEvolves {
  ev_highest : highest_stream_id c ≤ highest_stream_id c';
  ev_streams : ∀ sid e', streams c' !! sid = Some e' →
    (∃ e, streams c !! sid = Some e ∧ entry_le e e')
    ∨ highest_stream_id c < sid ≤ highest_stream_id c';
  ev_log : ∃ l, log c' = log c ++ l ∧ NoDup (spawned l)
    ∧ ∀ sid, sid ∈ spawned l →
      sid ≤ highest_stream_id c'
      ∧ (∀ e', streams c' !! sid = Some e' → request_started e' = true)
      ∧ ((∃ e, streams c !! sid = Some e ∧ request_started e = false) ∨ highest_stream_id c < sid);
}.

#[global] Instance evolves_preorder : PreOrder evolves.
Proof.
  split.
  - intros c. split; [done|intros sid e He; left; by exists e|]. exists [].
    rewrite app_nil_r. split; [done|]. split; [constructor|]. intros sid []%elem_of_nil.
  - intros c c1 c2 [A1 A2 (l1 & Al & An & Ai)] [B1 B2 (l2 & Bl & Bn & Bi)]. split; [lia| |].
    + intros sid e2 H2. destruct (B2 _ _ H2) as [(e1 & H1 & Hle)|Hhi]; [|right; lia].
      destruct (A2 _ _ H1) as [(e & H & Hle')|Hhi]; [left; exists e; split; [done|by etransitivity]|right; lia].
    + exists (l1 ++ l2). rewrite spawned_app. split; [by rewrite Bl, Al, app_assoc|]. split.
      * apply NoDup_app. split; [done|]. split; [|done]. intros sid H1 H2.
        destruct (Ai _ H1) as (Hhi & Hst & _). destruct (Bi _ H2) as (_ & _ & [(e & He & Hun)|]); [|lia].
        specialize (Hst _ He). congruence.
      * intros sid [H1|H2]%elem_of_app.
        -- destruct (Ai _ H1) as (Hhi & Hst & Hold). split; [lia|]. split; [|done]. intros e2 H2.
           destruct (B2 _ _ H2) as [(e1 & He1 & Hle)|]; [|lia]. by apply Hle, Hst.
        -- destruct (Bi _ H2) as (Hhi & Hst & Hold). split; [done|]. split; [done|].
           destruct Hold as [(e1 & He1 & Hun)|]; [|right; lia].
           destruct (A2 _ _ He1) as [(e & He & Hle)|]; [left|right; lia]. exists e. split; [done|].
           destruct (request_started e) eqn:Er; [|done]. rewrite (le_request _ _ Hle Er) in Hun. done.
Qed.

(** ** Steps *)

Lemma ev_step a c c' : evolves c c' → evolves a c → evolves a c'.
Proof. intros. by etransitivity. Qed.

(** Steps that change neither the streams, the identifiers nor the log. *)
Lemma ev_same a c c' :
  streams c' = streams c → highest_stream_id c' = highest_stream_id c → log c' = log c →
  evolves a c → evolves a c'.
Proof.
  intros E1 E2 E3. apply ev_step. split; [lia| |].
  - intros sid e' He. rewrite E1 in He. left. by exists e'.
  - exists []. rewrite app_nil_r. split; [done|]. split; [constructor|]. intros sid []%elem_of_nil.
Qed.

Lemma ev_logged a x c : (∀ s p hb sc, x ≠ Spawn s p hb sc) → evolves a c → evolves a (logged x c).
Proof.
  intros Hx. apply ev_step. split; [done|intros sid e He; left; by exists e|]. exists [x]. split; [done|].
  assert (spawned [x] = []) as -> by (destruct x; [done|done|by edestruct Hx]).
  split; [constructor|]. intros sid []%elem_of_nil.
Qed.

Lemma ev_put a sid e e' c :
  streams c !! sid = Some e → entry_le e e' → evolves a c → evolves a (put sid e' c).
Proof.
  intros Hs Hle. apply ev_step. split; [done| |].
  - intros sid' e1. cbn. rewrite lookup_insert_Some. intros [[<- <-]|[Hne H]]; left; [by exists e|by exists e1].
  - exists []. rewrite app_nil_r. split; [done|]. split; [constructor|]. intros sid' []%elem_of_nil.
Qed.

Lemma ev_remove a sid c : evolves a c → evolves a (remove sid c).
Proof.
  apply ev_step. split; [done| |].
  - intros sid' e1. cbn. rewrite lookup_delete_Some. intros [Hne H]. left. by exists e1.
  - exists []. rewrite app_nil_r. split; [done|]. split; [constructor|]. intros sid' []%elem_of_nil.
Qed.

Lemma ev_goaway a r d c : evolves a c → evolves a (goaway r d c).
Proof. apply ev_same; unfold goaway; by destruct (connection_error c). Qed.

Lemma ev_emit a w c : evolves a c → evolves a (emit w c). Proof. by apply ev_same. Qed.

Lemma ev_mark_closed a sid c : evolves a c → evolves a (mark_closed sid c).
Proof.
  apply ev_same; unfold mark_closed; destruct (CLOSED_LIMIT <=? _); try destruct (closed_order c);
    by case_bool_decide.
Qed.

Lemma ev_close_stream a sid c : evolves a c → evolves a (close_stream sid c).
Proof. intros H. by apply ev_remove, ev_mark_closed. Qed.

Lemma ev_report a sid f c : evolves a c → evolves a (report_stream_error sid f c).
Proof. by apply ev_logged. Qed.

Lemma ev_stream_error a sid r c : evolves a c → evolves a (stream_error sid r c).
Proof.
  intros H. unfold stream_error. cbv zeta. pose proof (ev_report a sid (StreamFailed r) c H) as H1.
  case_bool_decide; [|by apply ev_close_stream, ev_emit].
  destruct (match max_local_error_reset_streams _ with Some _ => _ | None => _ end); [by apply ev_goaway|].
  apply ev_close_stream, ev_emit. by eapply ev_same; [..|exact H1].
Qed.

(** ** Handlers *)

(** Discharges [entry_le] of a stream whose flags were only raised. *)
Local Ltac raised := split; cbn; intros; first [done | lia | congruence].

Lemma le_send_body e msg : entry_le e (send_body e msg).1.
Proof. unfold send_body. destruct (body_tx e); [|done]. destruct (body_send _ _). raised. Qed.

Lemma ev_pop_front a sid e0 e rest end_ c :
  streams c !! sid = Some e0 → entry_le e0 e → evolves a c → evolves a (pop_front sid e rest end_ c).1.
Proof.
  intros Hs Hle H. unfold pop_front. set (e1 := if end_ then _ else _).
  assert (evolves a (put sid e1 c)) as Hp.
  { eapply ev_put; [done| |done]. etransitivity; [exact Hle|]. unfold e1. destruct end_; raised. }
  destruct (end_ && task_done e1); [by apply ev_close_stream|done].
Qed.

Lemma ev_send_front a sid e0 e data es rest n c :
  streams c !! sid = Some e0 → entry_le e0 e → evolves a c → evolves a (send_front sid e data es rest n c).1.1.
Proof.
  intros Hs Hle H. unfold send_front. set (e1 := set_send_window _ e). set (c1 := set_conn_window _ _).
  assert (entry_le e0 e1) as Hle1 by (etransitivity; [exact Hle|raised]).
  assert (evolves a c1) as H1 by (eapply ev_same; [..|exact H]; done).
  destruct (n =? zlen data).
  - pose proof (ev_pop_front a sid e0 e1 rest (es && true) c1 Hs Hle1 H1) as Hp. by destruct (pop_front _ _ _ _ _).
  - eapply ev_put; [exact Hs| |done]. etransitivity; [exact Hle1|raised].
Qed.

Lemma ev_pump_turn a sid c : evolves a c → evolves a (pump_turn sid c).1.
Proof.
  intros H. unfold pump_turn. destruct (streams c !! sid) as [e|] eqn:Hs; [|done].
  destruct (local_ended e); [done|]. destruct (pending_data e) as [|[data es] rest]; [done|].
  case_bool_decide.
  - pose proof (ev_pop_front a sid e e rest es (emit (λ out, write_data out sid es data) c) Hs ltac:(done)) as Hp.
    destruct (pop_front _ _ _ _ _). by apply Hp, ev_emit.
  - destruct (_ <=? 0); [done|]. set (n := Z.min (Z.min _ _) _).
    pose proof (ev_send_front a sid e e data es rest n c Hs ltac:(done) H) as Hp.
    by destruct (send_front _ _ _ _ _ _ _) as [[c1 r] al].
Qed.

Lemma ev_pump a fuel sid c : evolves a c → evolves a (pump fuel sid c).
Proof.
  revert c. induction fuel as [|fuel IH]; intros c H; [done|]. cbn [pump].
  pose proof (ev_pump_turn a sid c H) as Ht. destruct (pump_turn sid c) as [c1 []]; [by apply IH|done].
Qed.

Lemma ev_pump_drr_turn a sid c : evolves a c → evolves a (pump_drr_turn sid c).1.
Proof.
  intros H. unfold pump_drr_turn. destruct (streams c !! sid) as [e|] eqn:Hs; [|done].
  destruct (local_ended e); [done|]. destruct (pending_data e) as [|[data es] rest]; [done|].
  case_bool_decide.
  - pose proof (ev_pop_front a sid e e rest es (emit (λ out, write_data out sid es data) c) Hs ltac:(done)) as Hp.
    destruct (pop_front _ _ _ _ _). by apply Hp, ev_emit.
  - destruct (_ =? 0); [done|]. destruct (_ <=? 0); [done|]. set (n := Z.min (Z.min _ _) _).
    destruct (n =? 0); [done|].
    pose proof (ev_send_front a sid e (set_deficit (deficit e - n) e) data es rest n c Hs ltac:(raised) H) as Hp.
    by destruct (send_front _ _ _ _ _ _ _) as [[c1 r] al].
Qed.

Lemma ev_pump_drr a fuel sid c : evolves a c → evolves a (pump_drr fuel sid c).
Proof.
  revert c. induction fuel as [|fuel IH]; intros c H; [done|]. cbn [pump_drr].
  pose proof (ev_pump_drr_turn a sid c H) as Ht. destruct (pump_drr_turn sid c) as [c1 []]; [by apply IH|done].
Qed.

Lemma ev_drain_round a ids q c next pr : evolves a c → evolves a (drain_round ids q c next pr).1.1.
Proof.
  revert c next pr. induction ids as [|id ids IH]; intros c next pr H; [done|]. cbn [drain_round].
  destruct (streams c !! id) as [e|] eqn:Hs; [|by apply IH]. destruct (_ || _); [by apply IH|].
  set (c1 := put _ _ c). assert (evolves a (pump_stream_data_drr id c1)) as Hp.
  { apply ev_pump_drr. eapply ev_put; [exact Hs|raised|done]. }
  destruct (conn_window _ <=? 0); [done|]. by apply IH.
Qed.

Lemma ev_drain_rounds a fuel ids q c : evolves a c → evolves a (drain_rounds fuel ids q c).
Proof.
  revert ids c. induction fuel as [|fuel IH]; intros ids c H; [done|]. cbn [drain_rounds].
  destruct (_ && _); [|done]. pose proof (ev_drain_round a ids q c [] false H) as Hp.
  destruct (drain_round _ _ _ _ _) as [[c1 next] []]; [by apply IH|done].
Qed.

Context (iteration : Connection → list Z).

Lemma ev_window_update a sid n c : evolves a c → evolves a (handle_window_update iteration sid n c).
Proof.
  intros H. unfold handle_window_update. destruct (n =? 0); [done|]. destruct (sid =? 0).
  - destruct (_ <? _); [by apply ev_goaway|]. apply ev_drain_rounds. by eapply ev_same; [..|exact H].
  - destruct (streams c !! sid) as [e|] eqn:Hs; [|case_bool_decide; [done|by apply ev_goaway]].
    destruct (_ <? _); [by apply ev_stream_error|]. apply ev_pump. eapply ev_put; [exact Hs|raised|done].
Qed.

Lemma ev_shift a delta c : evolves a c → evolves a (set_streams (shift_windows delta (streams c)) c).
Proof.
  apply ev_step. split; [done| |].
  - intros sid e'. cbn. unfold shift_windows. rewrite lookup_fmap. intros (e & He & ->)%fmap_Some.
    left. exists e. split; [done|raised].
  - exists []. rewrite app_nil_r. split; [done|]. split; [constructor|]. intros sid' []%elem_of_nil.
Qed.

Lemma ev_apply_setting a s c : evolves a c → evolves a (apply_setting s c).1.
Proof.
  intros H. assert (∀ p, evolves a (set_peer p c)) as Hp by (intros p; by eapply ev_same; [..|exact H]).
  unfold apply_setting. repeat (case_match; cbn [fst]; try done; try by apply ev_goaway).
  all: first [by eapply ev_same; [..|exact H] | apply ev_goaway | idtac].
  all: apply ev_shift, Hp.
Qed.

Lemma ev_apply_peer_settings a l c : evolves a c → evolves a (apply_peer_settings l c).
Proof.
  revert c. induction l as [|s l IH]; intros c H; [done|]. cbn [apply_peer_settings].
  pose proof (ev_apply_setting a s c H) as Hs. destruct (apply_setting s c) as [c1 []]; [by apply IH|done].
Qed.

(** *** Requests *)

Lemma ev_check_flood a sid c : evolves a c → evolves a (check_continuation_flood sid c).
Proof.
  intros H. unfold check_continuation_flood. destruct (streams c !! sid) as [e|] eqn:Hs; [|done].
  assert (evolves a (put sid (set_continuation_frames (continuation_frames e + 1) e) c)) as Hp
    by (eapply ev_put; [exact Hs|raised|done]).
  destruct (_ <? _); [|done]. apply ev_stream_error. case_bool_decide; [|done].
  by eapply ev_same; [..|exact Hp].
Qed.

Lemma ev_open a sid es eh block c : evolves a c → evolves a (open_request_stream sid es eh block c).
Proof.
  intros H. unfold open_request_stream. destruct (_ || _); [by apply ev_goaway|].
  destruct (Z.leb_spec sid (highest_stream_id c)) as [|Hlt]; [by apply ev_goaway|]. cbv zeta.
  assert (∀ c1 e, highest_stream_id c1 = sid → streams c1 = streams c → log c1 = log c → evolves a (put sid e c1)) as Hnew.
  { intros c1 e E1 E2 E3. etransitivity; [exact H|]. split; cbn; [lia| |].
    - intros sid' e'. rewrite lookup_insert_Some, E1, E2. intros [[<- <-]|[Hne He]]; [right; lia|left; by exists e'].
    - exists []. rewrite app_nil_r. split; [done|]. split; [constructor|]. intros sid' []%elem_of_nil. }
  destruct (_ <=? _).
  - apply ev_emit, ev_report. etransitivity; [exact H|]. split; cbn; [lia|intros sid' e He; left; by exists e|].
    exists []. rewrite app_nil_r. split; [done|]. split; [constructor|]. intros sid' []%elem_of_nil.
  - destruct eh; by apply Hnew.
Qed.

Lemma ev_headers a sid es eh block c : evolves a c → evolves a (handle_headers_frame sid es eh block c).
Proof.
  intros H. unfold handle_headers_frame. destruct (_ && _); [done|].
  destruct (streams c !! sid) as [e|] eqn:Hs; [|by apply ev_open].
  destruct (remote_ended e); [by apply ev_stream_error|]. destruct eh.
  - eapply ev_same; [..|eapply (ev_put a sid e); [exact Hs| |exact H]]; first [done|raised].
  - apply ev_check_flood. eapply ev_put; [exact Hs|raised|done].
Qed.

Lemma ev_continuation a sid eh block c : evolves a c → evolves a (handle_continuation sid eh block c).
Proof.
  intros H. unfold handle_continuation. destruct (streams c !! sid) as [e|] eqn:Hs; [|by apply ev_goaway].
  destruct eh.
  - eapply ev_same; [..|eapply (ev_put a sid e); [exact Hs| |exact H]]; first [done|raised].
  - apply ev_check_flood. eapply ev_put; [exact Hs|raised|done].
Qed.

Lemma ev_end_request_body a sid c : evolves a c → evolves a (end_request_body sid c).
Proof.
  intros H. unfold end_request_body. destruct (streams c !! sid) as [e|] eqn:Hs; [|done].
  destruct (remote_ended e); [done|]. set (e1 := set_remote_ended true e).
  assert (entry_le e e1) as Hle by raised.
  destruct (match content_length e1 with Some cl => _ | None => false end).
  - apply ev_stream_error. by eapply ev_put.
  - destruct (body_tx e1); [|by eapply ev_put]. pose proof (le_send_body e1 BodyEndStream) as Hs2.
    destruct (send_body e1 BodyEndStream) as [e2 ok]. cbn in Hs2.
    assert (evolves a (put sid e2 c)) as Hp by (eapply ev_put; [exact Hs|by etransitivity|done]).
    destruct ok; [done|by apply ev_close_stream].
Qed.

Lemma ev_data a sid es data c : evolves a c → evolves a (handle_data_frame sid es data c).
Proof.
  intros H. unfold handle_data_frame. destruct (_ && _); [done|].
  set (c1 := if negb (bool_decide (data = [])) then _ else c).
  assert (evolves a c1) as H1 by (unfold c1; destruct (negb _); [by do 2 apply ev_emit|done]). clearbody c1.
  destruct (streams c1 !! sid) as [e|] eqn:Hs.
  - destruct (_ || _); [by apply ev_stream_error|]. set (e1 := set_data_sum _ e).
    assert (entry_le e e1) as Hle by (pose proof (zlen_nonneg data); raised).
    pose proof (le_send_body e1 (BodyData data)) as Hs2. destruct (send_body e1 (BodyData data)) as [e2 ok].
    assert (evolves a (put sid e2 c1)) as Hp by (eapply ev_put; [exact Hs|by etransitivity|done]).
    destruct ok; cbn [negb]; [|by apply ev_close_stream]. destruct es; [by apply ev_end_request_body|done].
  - case_bool_decide; [by apply ev_emit, ev_report|by apply ev_goaway].
Qed.

Lemma ev_reset a sid code c : evolves a c → evolves a (handle_reset_frame sid code c).
Proof.
  intros H. unfold handle_reset_frame. destruct (streams c !! sid) as [e|] eqn:Hs;
    [|case_bool_decide; [done|by apply ev_goaway]].
  assert (∀ c1, evolves a c1 → evolves a (if negb (remote_ended e) then logged (NotifyReset sid code) (mark_closed sid c1)
    else mark_closed sid c1)) as Hfin.
  { intros c1 H1. destruct (negb _); [apply ev_logged; [done|]|]; by apply ev_mark_closed. }
  cbv zeta. assert (evolves a (report_stream_error sid (ResetByPeer code) (remove sid c))) as H1
    by (by apply ev_report, ev_remove).
  destruct (negb (response_started e)); [|by apply Hfin].
  destruct (match max_pending_accept_reset_streams _ with Some _ => _ | None => _ end); [by apply ev_goaway|].
  apply Hfin. by eapply ev_same; [..|exact H1].
Qed.

(** Dispatching the request of a stream whose request has not started. *)
Lemma ev_spawn a sid es p c e :
  streams c !! sid = Some e → request_started e = false → sid ≤ highest_stream_id c →
  evolves a c → evolves a (spawn_request sid es p c).
Proof.
  intros Hs Hun Hhi. unfold spawn_request. rewrite Hs. cbv zeta.
  set (e1 := set_content_length _ _). assert (entry_le e e1) as Hle by raised.
  destruct (es && _).
  { intros H. apply ev_stream_error. by eapply ev_put. }
  assert (entry_le e (set_remote_ended es e1)) as Hle2 by raised.
  apply ev_step. split; [done| |].
  - intros sid' e'. cbn. rewrite !lookup_insert_Some.
    intros [[<- <-]|[Hne [[? ?]|[_ He]]]]; left; [by exists e|done|by exists e'].
  - eexists [_]. split; [done|]. cbn. split; [apply NoDup_singleton|]. intros sid' ->%list_elem_of_singleton.
    split; [done|]. split; [|left; by exists e]. intros e'. rewrite lookup_insert_eq. by intros [= <-].
Qed.

(** Ending the request body does not start the request. *)
Lemma end_request_body_started sid c e e' :
  streams c !! sid = Some e → streams (end_request_body sid c) !! sid = Some e' →
  request_started e' = request_started e.
Proof.
  intros Hs. unfold end_request_body. rewrite Hs.
  destruct (remote_ended e); [rewrite Hs; by intros [= <-]|]. set (e1 := set_remote_ended true e).
  assert (∀ e2, request_started e2 = request_started e → ∀ e3, streams (put sid e2 c) !! sid = Some e3 →
    request_started e3 = request_started e) as Hput.
  { intros e2 E e3. cbn. rewrite lookup_insert_eq. by intros [= <-]. }
  destruct (match content_length e1 with Some cl => _ | None => false end).
  - assert (streams (stream_error sid ProtocolError (put sid e1 c)) !! sid = None
      ∨ streams (stream_error sid ProtocolError (put sid e1 c)) = streams (put sid e1 c)) as [->| ->]; [|done|by apply Hput].
    unfold stream_error. cbv zeta. rewrite bool_decide_true by done.
    destruct (match max_local_error_reset_streams _ with Some _ => _ | None => _ end); [right|left].
    + unfold goaway. by destruct (connection_error _).
    + apply lookup_delete_eq.
  - destruct (body_tx e1) as [tx|] eqn:Etx; [|by apply Hput].
    assert (request_started (send_body e1 BodyEndStream).1 = request_started e) as E
      by (unfold send_body; rewrite Etx; by destruct (body_send _ _)).
    destruct (send_body e1 BodyEndStream) as [e2 []]; [by apply Hput|].
    cbn. rewrite lookup_delete_eq. done.
Qed.

(** Streams have identifiers up to the highest seen. *)
Definition bounded (c : Connection) : Prop := ∀ sid e, streams c !! sid = Some e → sid ≤ highest_stream_id c.

Lemma evolves_bounded c c' : evolves c c' → bounded c → bounded c'.
Proof.
  intros [H1 H2 _] Hb sid e' He. destruct (H2 _ _ He) as [(e & H & _)|?]; [|lia]. specialize (Hb _ _ H). lia.
Qed.

Lemma ev_finalize sid c : bounded c → evolves c (finalize_field_block sid c).
Proof.
  intros Hb. unfold finalize_field_block. destruct (streams c !! sid) as [e|] eqn:Hs; [|done].
  destruct (Hpack.decode _ _ _) as [[dec ls] r]. set (e1 := set_header_list_size ls (set_field_block [] e)).
  set (c1 := put sid e1 (set_request_decoder dec c)).
  assert (evolves c c1) as H1.
  { apply (ev_put c sid e e1 (set_request_decoder dec c)); [done|raised|]. by apply (ev_same c c). }
  assert (streams c1 !! sid = Some e1) as Hs1 by apply lookup_insert_eq.
  clearbody c1. destruct r as [decoded|[]]; try (by apply ev_goaway); [|by apply ev_stream_error].
  destruct (request_started e1) eqn:Est.
  - destruct (parse_trailers decoded) as [trailers|[]]; [|by apply ev_stream_error].
    destruct (trailers_seen e1); [by apply ev_stream_error|]. set (e2 := set_trailers_seen true e1).
    assert (evolves c (put sid e2 c1)) as H2 by (eapply ev_put; [exact Hs1|raised|done]).
    destruct (negb _); [by apply ev_stream_error|]. pose proof (le_send_body e2 (BodyTrailers trailers)) as Hle3.
    destruct (send_body e2 (BodyTrailers trailers)) as [e3 ok]. cbn in Hle3.
    assert (evolves c (put sid e3 (put sid e2 c1))) as H3.
    { eapply ev_put; [|exact Hle3|done]. apply lookup_insert_eq. }
    destruct ok; cbn [negb]; [|by apply ev_close_stream]. destruct (pending_end_stream e); [by apply ev_end_request_body|done].
  - destruct (parse_request decoded) as [parsed|[]]; [|by apply ev_stream_error].
    set (c2 := if pending_end_stream e then end_request_body sid c1 else c1).
    assert (evolves c c2) as H2 by (unfold c2; destruct (pending_end_stream e); [by apply ev_end_request_body|done]).
    destruct (streams c2 !! sid) as [e2|] eqn:Hs2; [|unfold spawn_request; by rewrite Hs2].
    eapply ev_spawn; [exact Hs2| |by eapply (evolves_bounded c c2)|done].
    rewrite <- Est. unfold c2 in Hs2. destruct (pending_end_stream e); [by eapply end_request_body_started|congruence].
Qed.

(** *** Responses, frames and events *)

Lemma ev_encode_and_emit a sid es fields c : evolves a c → evolves a (encode_and_emit sid es fields c).
Proof. intros H. unfold encode_and_emit. destruct (Hpack.encode _ _ _). by apply ev_emit, (ev_same a c). Qed.

Lemma ev_stream_msg a sid msg c : evolves a c → evolves a (handle_stream_msg sid msg c).
Proof.
  intros H. destruct msg as [st fields es|st fields|data es|fields|code|]; cbn [handle_stream_msg];
    [ | |..|by apply ev_close_stream, ev_emit, ev_report|]; try by apply ev_encode_and_emit.
  all: destruct (streams c !! sid) as [e|] eqn:Hs; try done; try by apply ev_encode_and_emit.
  1,2,3: destruct (local_ended e) eqn:El; [done|].
  - apply ev_encode_and_emit. eapply ev_put; [exact Hs|raised|done].
  - apply ev_pump. eapply ev_put; [exact Hs|raised|done].
  - apply ev_encode_and_emit. eapply ev_put; [exact Hs|raised|done].
  - assert (evolves a (put sid (set_task_done true e) c)) as Hp by (eapply ev_put; [exact Hs|raised|done]).
    destruct (local_ended e); [by apply ev_close_stream|done].
Qed.

Lemma ev_drain_stream a sid c : evolves a c → evolves a (drain_stream sid c).
Proof.
  intros H. unfold drain_stream. destruct (streams c !! sid) as [e|] eqn:Hs; [|done]. destruct (negb _); [done|].
  generalize (merge_end (msgs e)) as l. intros l.
  assert (evolves a (put sid (set_msgs [] e) c)) as Hp by (eapply ev_put; [exact Hs|raised|done]).
  revert Hp. generalize (put sid (set_msgs [] e) c) as c1. induction l as [|m l IH]; intros c1 H1; [done|].
  by apply IH, ev_stream_msg.
Qed.

Lemma ev_drain_outbound a c : evolves a c → evolves a (drain_outbound iteration c).
Proof.
  intros H. unfold drain_outbound. set (ids := filter _ _). clearbody ids. revert c H.
  induction ids as [|id ids IH]; intros c H; [done|]. by apply IH, ev_drain_stream.
Qed.

Lemma ev_dispatch a f c c' : evolves a c → dispatch iteration f c = Some c' → evolves a c'.
Proof.
  intros H. destruct f as [| | | |[]| |[]| | | |]; cbn [dispatch]; intros [= <-]; try done.
  - by apply ev_data.
  - by apply ev_headers.
  - by apply ev_reset.
  - by apply ev_emit, ev_apply_peer_settings.
  - by apply ev_goaway.
  - by apply ev_emit.
  - by apply ev_window_update.
  - by apply ev_continuation.
Qed.

Lemma ev_finish_block c : bounded c → evolves c (finish_block c).
Proof.
  intros Hb. unfold finish_block, take_complete_block. destruct (pop_complete _ _) as [[sid|] blocks].
  - etransitivity; [|by apply ev_finalize]. by apply (ev_same c c).
  - by apply (ev_same c c).
Qed.

Lemma ev_process_turn c : bounded c → evolves c (process_turn iteration c).1.
Proof.
  intros Hb. unfold process_turn. destruct (next_frame (decoder c)) as [d [[f|]|e]];
    [|by apply (ev_same c c)|by apply (ev_same c (goaway (reason e) (b "frame error") (set_decoder d c))),
      ev_goaway, (ev_same c c)].
  assert (evolves c (set_decoder d c)) as H1 by (by apply (ev_same c c)).
  destruct (dispatch iteration f (set_decoder d c)) as [c2|] eqn:Ed; [|done].
  pose proof (ev_dispatch c _ _ _ H1 Ed) as H2.
  assert (evolves c (finish_block c2)) as H3 by (etransitivity; [exact H2|by eapply ev_finish_block, evolves_bounded]).
  destruct (closing _); [by eapply ev_same; [..|exact H3]|done].
Qed.

Lemma ev_process_frames fuel c c' r :
  bounded c → process_frames iteration fuel c = Some (c', r) → evolves c c'.
Proof.
  revert c. induction fuel as [|fuel IH]; intros c Hb; [done|]. cbn [process_frames].
  pose proof (ev_process_turn c Hb) as Ht. destruct (process_turn iteration c) as [c1 [e|]]; cbn in Ht.
  - by intros [= <- _].
  - intros Hp. etransitivity; [exact Ht|]. eapply IH; [by eapply evolves_bounded|done].
Qed.

Lemma ev_step_event ev c : bounded c → evolves c (step iteration ev c).1.
Proof.
  intros Hb. destruct ev as [octets| | | |sid msg|sid tx]; cbn [step fst].
  - case_bool_decide; [done|]. set (c1 := set_decoder _ c).
    assert (evolves c c1) as H1 by (by apply (ev_same c c)).
    destruct (process_frames _ _ c1) as [[c2 ended]|] eqn:E; [|done].
    apply (ev_same c (drain_outbound iteration c2)); [done..|]. apply ev_drain_outbound.
    etransitivity; [exact H1|]. eapply ev_process_frames; [|exact E]. by eapply evolves_bounded.
  - by apply (ev_same c (drain_outbound iteration c)), ev_drain_outbound.
  - apply (ev_same c c); try done; cbn; unfold begin_graceful_shutdown; by destruct (_ || _).
  - apply (ev_same c c); try done; cbn; unfold begin_graceful_shutdown; by destruct (_ || _).
  - destruct (streams c !! sid) as [e|] eqn:Hs; [|done]. eapply ev_put; [exact Hs|raised|done].
  - destruct (streams c !! sid) as [e|] eqn:Hs; [|done]. destruct (body_tx e); [|done].
    eapply ev_put; [exact Hs|raised|done].
Qed.

Lemma run_evolves evs c : bounded c → evolves c (run iteration c evs).
Proof.
  revert c. induction evs as [|ev evs IH]; intros c Hb; [done|]. cbn [run]. destruct (_ && _); [done|].
  pose proof (ev_step_event ev c Hb) as Hs. destruct (step iteration ev c) as [c1 []]; cbn in Hs; [|done].
  etransitivity; [exact Hs|]. by eapply IH, evolves_bounded.
Qed.

Lemma start_streams o preface : streams (start o preface).1 = ∅ ∧ log (start o preface).1 = [].
Proof. unfold start. destruct preface; [|done]. by case_bool_decide. Qed.

(** ** The life of a stream *)

Lemma reached o preface evs :
  let c := run iteration (start o preface).1 evs in bounded c ∧ evolves (start o preface).1 c.
Proof.
  assert (bounded (start o preface).1) as Hb.
  { intros sid e. destruct (start_streams o preface) as [-> _]. by rewrite lookup_empty. }
  cbv zeta. pose proof (run_evolves evs _ Hb) as Hr. split; [by eapply evolves_bounded|done].
Qed.

(** C23. In any state the event loop reaches, whatever the next event is: a
    stream that is open afterwards either was open before and only moved
    forward (started, response started, ended on either side, trailers seen,
    task done are never undone, the declared content-length of a started
    request never changes, received octets only accumulate), or it was opened
    with an identifier above all identifiers seen before.  So a stream that
    was closed never comes back and identifiers are never reused. *)
Theorem stream_lifecycle o preface evs ev :
  let c := run iteration (start o preface).1 evs in
  let c' := (step iteration ev c).1 in
  highest_stream_id c ≤ highest_stream_id c'
  ∧ ∀ sid e', streams c' !! sid = Some e' →
    (∃ e, streams c !! sid = Some e ∧ entry_le e e') ∨ highest_stream_id c < sid ≤ highest_stream_id c'.
Proof.
  cbv zeta. destruct (reached o preface evs) as [Hb _]. destruct (ev_step_event ev _ Hb) as [H1 H2 _].
  by split.
Qed.

(** C22. Over a whole connection each stream's request is dispatched to the
    user's handler at most once, however many field blocks arrive on it; a
    dispatched stream is at most the highest identifier seen, and as long as
    it is open it is marked as started. *)
Theorem dispatched_once o preface evs :
  let c := run iteration (start o preface).1 evs in
  NoDup (spawned (log c))
  ∧ ∀ sid, sid ∈ spawned (log c) →
    sid ≤ highest_stream_id c ∧ ∀ e, streams c !! sid = Some e → request_started e = true.
Proof.
  cbv zeta. destruct (reached o preface evs) as [_ [_ _ (l & Hl & Hnd & Hin)]].
  destruct (start_streams o preface) as [_ E]. rewrite E in Hl. cbn in Hl. rewrite Hl. split; [done|].
  intros sid Hs. destruct (Hin _ Hs) as (H1 & H2 & _). by split.
Qed.
End lifecycle.
