(* ===== verification/H2Flow.v ===== *)
(** * Flow control of responses

    What [pump_stream_data] and [drain_pending_data] put on the wire, against
    the queues of the streams and the flow-control windows: nothing is lost,
    reordered or sent beyond a window, END_STREAM is where the queue has it,
    and the loops stop only when the queue or the window is exhausted. *)

From S2P Require Import Prelude Integer HpackTable Hpack H2Error H2Codec H2Request H2Connection H2Steps H2Invariant H2Example H2Loop.

(** ** Queues *)

(** A queue of chunks as the octets it carries, with an END_STREAM mark
    ([None]) after each chunk that has the flag. *)
Definition marks (q : list (bytes * bool)) : list (option byte) :=
  concat (map (λ d : bytes * bool, map Some d.1 ++ (if d.2 then [None] else [])) q).
Definition octets (q : list (bytes * bool)) : Z := foldr (λ (d : bytes * bool) n, zlen d.1 + n) 0 q.
(** Some chunk carries END_STREAM. *)
Definition ends (q : list (bytes * bool)) : bool := existsb snd q.

Lemma marks_app q q' : marks (q ++ q') = marks q ++ marks q'.
Proof. unfold marks. by rewrite map_app, concat_app. Qed.

Lemma octets_app q q' : octets (q ++ q') = octets q + octets q'.
Proof. induction q as [|d q IH]; [done|]. unfold octets in *. cbn. lia. Qed.

Lemma octets_nonneg q : 0 ≤ octets q.
Proof. induction q as [|d q IH]; [done|]. unfold octets in *. cbn. pose proof (zlen_nonneg d.1). lia. Qed.

Lemma ends_app q q' : ends (q ++ q') = ends q || ends q'.
Proof. apply existsb_app. Qed.

(** Splitting the front chunk after [n] octets. *)
Lemma marks_split n d es q :
  marks ((take n d, false) :: (drop n d, es) :: q) = marks ((d, es) :: q).
Proof.
  unfold marks. cbn. rewrite app_nil_r, !app_assoc, <- map_app, take_drop. done.
Qed.

(** Frames [(stream, chunk)] in the order they are written. *)
Definition write_all (fs : list (Z * (bytes * bool))) (out : bytes) : bytes :=
  foldl (λ out (f : Z * (bytes * bool)), write_data out f.1 f.2.2 f.2.1) out fs.
(** Those of one stream. *)
Definition of_stream (sid : Z) (fs : list (Z * (bytes * bool))) : list (bytes * bool) :=
  (filter (λ f : Z * (bytes * bool), f.1 = sid) fs).*2.

Lemma of_stream_app sid fs fs' : of_stream sid (fs ++ fs') = of_stream sid fs ++ of_stream sid fs'.
Proof. unfold of_stream. by rewrite filter_app, fmap_app. Qed.

Lemma of_stream_one sid id d : of_stream sid [(id, d)] = if decide (id = sid) then [d] else [].
Proof. unfold of_stream. rewrite filter_cons. cbn. by case_decide. Qed.

Section flow.
Context `{HC : Channels}.

(** ** What a stream and the connection go through *)

(** Stream [e] with what the pumping loops change. *)
Definition serve (e : StreamEntry) (rest : list (bytes * bool)) (window : Z) (ended : bool) (credit : Z)
    : StreamEntry :=
  MkStreamEntry (body_tx e) (msgs e) (field_block e) (pending_end_stream e) (request_started e)
    (response_started e) (remote_ended e) ended (content_length e) (data_sum e) (trailers_seen e)
    (task_done e) window rest credit (header_list_size e) (continuation_frames e).

(** [c] with what they change of [c']. *)
Definition advance (c c' : Connection) : Connection :=
  MkConnection (decoder c) (writer_max c) (out c') (encoder c) (request_decoder c) (peer c) (streams c')
    (conn_window c') (closed_streams c') (closed_order c') (opts c) (local_error_resets c)
    (pending_accept_resets c) (complete_blocks c) (max_continuation_frames c) (highest_stream_id c)
    (closing c) (graceful c) (graceful_last_stream c) (connection_error c) (wire c) (log c).

(** Stream [e], of whose queue [q] was sent, has become [o]. *)
Definition served (e : StreamEntry) (q : list (bytes * bool)) (o : option StreamEntry) : Prop :=
  (q = [] ∨ local_ended e = false)
  ∧ (octets q = 0 ∨ octets q ≤ send_window e)
  ∧ ∃ rest, marks q ++ marks rest = marks (pending_data e) ∧ (q = [] → rest = pending_data e)
  ∧ match o with
    | Some e' => e' = serve e rest (send_window e - octets q) (local_ended e || ends q) (deficit e')
    | None => ends q = true ∧ task_done e = true
    end.

(** DATA frames [fs] take [c] to [c']. *)
Record drained (c : Connection) (fs : list (Z * (bytes * bool))) (c' : Connection) : Prop := MkDrained {
  dr_out : out c' = write_all fs (out c);
  dr_size : Forall (λ f, zlen f.2.1 ≤ peer_max_frame_size (peer c)) fs;
  dr_conn : conn_window c' = conn_window c - octets (fs.*2);
  dr_window : octets (fs.*2) = 0 ∨ octets (fs.*2) ≤ conn_window c;
  dr_streams : ∀ sid, match streams c !! sid with
    | Some e => served e (of_stream sid fs) (streams c' !! sid)
    | None => of_stream sid fs = [] ∧ streams c' !! sid = None
    end;
  dr_frame : c' = advance c c';
}.

Lemma served_refl e : served e [] (Some e).
Proof.
  split; [by left|]. split; [by left|]. exists (pending_data e). split; [done|]. split; [done|].
  destruct e. unfold serve. cbn. by rewrite orb_false_r, Z.sub_0_r.
Qed.

Lemma served_trans e q e1 q' o : served e q (Some e1) → served e1 q' o → served e (q ++ q') o.
Proof.
  intros (Hl & Hw & rest & Hm & Hq & He1) (Hl' & Hw' & rest' & Hm' & Hq' & Ho).
  pose proof (octets_nonneg q). pose proof (octets_nonneg q').
  assert (local_ended e1 = local_ended e || ends q) as El by (by rewrite He1).
  assert (send_window e1 = send_window e - octets q) as Ew by (by rewrite He1).
  assert (pending_data e1 = rest) as Ep by (by rewrite He1).
  assert (task_done e1 = task_done e) as Et by (by rewrite He1).
  unfold served. rewrite octets_app. split.
  { destruct Hl as [->|Hl]; [|by right]. destruct Hl' as [->|Hl']; [by left|right].
    rewrite El in Hl'. by apply orb_false_iff in Hl' as [? _]. }
  split; [lia|]. exists rest'. rewrite marks_app, <- app_assoc, Hm', Ep. split; [done|]. split.
  { intros [-> ->]%app_nil. by rewrite Hq', Ep, Hq. }
  rewrite ends_app. destruct o as [e2|].
  - rewrite Ho, El, Ew, He1. unfold serve. cbn. by rewrite orb_assoc, Z.sub_add_distr.
  - rewrite <- Et. destruct Ho as [-> ?]. by rewrite orb_true_r.
Qed.

Lemma drained_refl c : drained c [] c.
Proof.
  split; cbn; try done; [lia|by left| |by destruct c].
  intros sid. destruct (streams c !! sid); [apply served_refl|done].
Qed.

Lemma drained_trans c fs c1 fs' c2 : drained c fs c1 → drained c1 fs' c2 → drained c (fs ++ fs') c2.
Proof.
  intros [A1 A2 A3 A4 A5 A6] [B1 B2 B3 B4 B5 B6].
  assert (peer c1 = peer c) as Ep by (by rewrite A6).
  pose proof (octets_nonneg (fs.*2)). pose proof (octets_nonneg (fs'.*2)).
  split.
  - rewrite B1, A1. unfold write_all. by rewrite foldl_app.
  - rewrite Ep in B2. by apply Forall_app.
  - rewrite fmap_app, octets_app. lia.
  - rewrite fmap_app, octets_app. lia.
  - intros sid. specialize (A5 sid). specialize (B5 sid). rewrite of_stream_app.
    destruct (streams c !! sid) as [e|].
    + destruct (streams c1 !! sid) as [e1|]; [by eapply served_trans|].
      destruct B5 as [-> ->]. by rewrite app_nil_r.
    + destruct A5 as [-> E]. rewrite E in B5. destruct B5 as [-> ->]. done.
  - rewrite B6, A6. by destruct c.
Qed.

(** ** The front chunk *)

Lemma mark_closed_advance sid c :
  mark_closed sid c = advance c (mark_closed sid c) ∧ streams (mark_closed sid c) = streams c
  ∧ out (mark_closed sid c) = out c ∧ conn_window (mark_closed sid c) = conn_window c.
Proof.
  unfold mark_closed. destruct (CLOSED_LIMIT <=? _); [destruct (closed_order c)|];
    (case_bool_decide; split_and!; try done; by destruct c).
Qed.

(** What [pop_front] does to the connection. *)
Lemma pop_front_spec sid e rest end_ c :
  let '(c1, retired) := pop_front sid e rest end_ c in
  c1 = advance c c1 ∧ out c1 = out c ∧ conn_window c1 = conn_window c
  ∧ retired = end_ && task_done e
  ∧ streams c1 = (if retired then delete sid else
      insert sid (serve e rest (send_window e) (local_ended e || end_) (deficit e))) (streams c).
Proof.
  unfold pop_front.
  assert ((if end_ then set_local_ended true (set_pending_data rest e) else set_pending_data rest e)
    = serve e rest (send_window e) (local_ended e || end_) (deficit e)) as ->.
  { destruct end_; [by rewrite orb_true_r|by rewrite orb_false_r]. }
  set (e1 := serve _ _ _ _ _). change (task_done e1) with (task_done e).
  destruct (end_ && task_done e); [|by destruct c].
  destruct (mark_closed_advance sid (put sid e1 c)) as (E1 & E2 & E3 & E4).
  unfold close_stream, remove. set (c2 := mark_closed _ _) in *. cbn [out set_streams conn_window streams].
  rewrite E2, E3, E4. cbn. rewrite delete_insert_eq. split_and!; try done. rewrite E1. by destruct c.
Qed.

(** One frame [f] of stream [sid] takes [c] to [c1]. *)
Lemma drained_one sid c e f rest c1 :
  streams c !! sid = Some e → local_ended e = false →
  marks [f] ++ marks rest = marks (pending_data e) →
  zlen f.1 ≤ peer_max_frame_size (peer c) →
  zlen f.1 = 0 ∨ zlen f.1 ≤ conn_window c ∧ zlen f.1 ≤ send_window e →
  out c1 = write_data (out c) sid f.2 f.1 → conn_window c1 = conn_window c - zlen f.1 →
  (∀ id, id ≠ sid → streams c1 !! id = streams c !! id) →
  match streams c1 !! sid with
  | Some e1 => e1 = serve e rest (send_window e - zlen f.1) f.2 (deficit e1)
  | None => f.2 = true ∧ task_done e = true
  end →
  c1 = advance c c1 → drained c [(sid, f)] c1.
Proof.
  intros Hs Hl Hm Hmax Hw Hout Hconn Hoth Ho Hf.
  assert (octets [f] = zlen f.1) as Eo by (unfold octets; cbn; lia).
  split; try done; cbn [fmap list_fmap snd]; rewrite ?Eo; [by constructor|done|naive_solver|].
  intros id. rewrite of_stream_one. case_decide as Hid.
  - subst id. rewrite Hs. split; [by right|]. rewrite Eo. split; [naive_solver|].
    exists rest. split; [done|]. split; [done|]. rewrite Hl. unfold ends. cbn [existsb]. rewrite orb_false_r.
    by destruct (streams c1 !! sid).
  - rewrite Hoth by done. destruct (streams c !! id); [apply served_refl|done].
Qed.

(** Sending [amount] octets of the front chunk, and all of them for [all]. *)
Lemma send_front_spec sid c e credit data es q amount :
  streams c !! sid = Some e → local_ended e = false → pending_data e = (data, es) :: q →
  0 < amount ≤ zlen data → amount ≤ conn_window c → amount ≤ send_window e →
  amount ≤ peer_max_frame_size (peer c) →
  let '(c1, retired, all) := send_front sid (set_deficit credit e) data es q amount c in
  ∃ f, drained c [(sid, f)] c1 ∧ zlen f.1 = amount ∧ all = (amount =? zlen data)
    ∧ if retired then streams c1 !! sid = None ∧ all = true else
      ∃ e1, streams c1 !! sid = Some e1
      ∧ (queue_turns (pending_data e1) < queue_turns (pending_data e))%nat
      ∧ (all = false → local_ended e1 = false ∧ ∃ d r, pending_data e1 = (d, es) :: r ∧ d ≠ []
          ∧ send_window e1 = send_window e - amount).
Proof.
  intros Hs Hl Hp Ha Hc Hw Hm. unfold send_front.
  set (chunk := take (Z.to_nat amount) data). set (c0 := set_conn_window _ (emit _ c)).
  assert (zlen chunk = amount) as Hchunk by (unfold chunk, zlen in *; rewrite length_take; lia).
  assert (∀ c1 rest, marks [(chunk, es && (amount =? zlen data))] ++ marks rest = marks (pending_data e) →
    c1 = advance c0 c1 → out c1 = out c0 → conn_window c1 = conn_window c0 →
    (∀ id, id ≠ sid → streams c1 !! id = streams c !! id) →
    match streams c1 !! sid with
    | Some e1 => e1 = serve e rest (send_window e - amount) (es && (amount =? zlen data)) (deficit e1)
    | None => es && (amount =? zlen data) = true ∧ task_done e = true
    end → drained c [(sid, (chunk, es && (amount =? zlen data)))] c1) as Hone.
  { intros c1 rest H1 H2 H3 H4 H5 H6. eapply drained_one; cbn [fst snd]; rewrite ?Hchunk; try done; by right. }
  rewrite Hp in Hone |- *.
  destruct (Z.eqb_spec amount (zlen data)) as [Eall|Hpart].
  - set (e1 := set_send_window _ _). pose proof (pop_front_spec sid e1 q (es && true) c0) as Hpop.
    destruct (pop_front sid e1 q (es && true) c0) as [c1 retired].
    destruct Hpop as (P1 & P2 & P3 & P4 & P5).
    exists (chunk, es && true). split.
    { apply (Hone c1 q); try done.
      - unfold chunk. rewrite take_ge by (unfold zlen in *; lia). rewrite andb_true_r.
        by rewrite <- marks_app.
      - intros id Hid. rewrite P5. destruct retired; [by apply lookup_delete_ne|by apply lookup_insert_ne].
      - rewrite P5. destruct retired; [rewrite lookup_delete_eq|rewrite lookup_insert_eq].
        + by apply eq_sym, andb_true_iff in P4.
        + unfold serve, e1. cbn. by rewrite Hl. }
    split; [done|]. split; [done|]. rewrite P5. destruct retired; [by rewrite lookup_delete_eq|].
    rewrite lookup_insert_eq. eexists. split; [done|]. split; [|done]. unfold queue_turns. cbn. lia.
  - rewrite andb_false_r in *. cbn [fst snd].
    exists (chunk, false). split.
    { apply (Hone _ ((drop (Z.to_nat amount) data, es) :: q)); try done.
      - rewrite <- marks_app. apply (marks_split (Z.to_nat amount) data es q).
      - intros id Hid. by apply lookup_insert_ne.
      - cbn. rewrite lookup_insert_eq. unfold serve, set_pending_data, set_send_window, set_deficit. cbn. by rewrite Hl. }
    split; [done|]. split; [done|]. cbn. rewrite lookup_insert_eq. eexists. split; [done|]. cbn.
    rewrite length_drop. split; [unfold zlen in *; lia|]. intros _. split; [done|].
    eexists _, _. split; [done|]. split; [|done]. intros Hd%(f_equal length).
    rewrite length_drop in Hd. unfold zlen in *. cbn in Hd. lia.
Qed.

(** ** One turn of the loops *)

(** Stream [e] of [c] has nothing that may be sent. *)
Definition stuck (c : Connection) (e : StreamEntry) : Prop :=
  local_ended e = true ∨ pending_data e = []
  ∨ ∃ d es q, pending_data e = (d, es) :: q ∧ d ≠ [] ∧ Z.min (conn_window c) (send_window e) ≤ 0.

(** An empty chunk at the front is sent without regard to the windows. *)
Lemma empty_front_spec sid c e es q :
  streams c !! sid = Some e → local_ended e = false → pending_data e = ([], es) :: q →
  0 < peer_max_frame_size (peer c) →
  let '(c1, retired) := pop_front sid e q es (emit (λ out, write_data out sid es []) c) in
  drained c [(sid, ([], es))] c1
  ∧ if retired then streams c1 !! sid = None else
    ∃ e1, streams c1 !! sid = Some e1
    ∧ (queue_turns (pending_data e1) < queue_turns (pending_data e))%nat ∧ deficit e1 = deficit e.
Proof.
  intros Hs Hl Hp Hm. pose proof (pop_front_spec sid e q es (emit (λ out, write_data out sid es []) c)) as Hpop.
  destruct (pop_front _ _ _ _ _) as [c1 retired]. destruct Hpop as (P1 & P2 & P3 & P4 & P5).
  split.
  - apply (drained_one sid c e ([], es) q); try done.
    + rewrite Hp. by rewrite <- marks_app.
    + cbn. unfold zlen. cbn. lia.
    + by left.
    + cbn. rewrite P3. cbn. by rewrite Z.sub_0_r.
    + intros id Hid. rewrite P5. destruct retired; [by apply lookup_delete_ne|by apply lookup_insert_ne].
    + rewrite P5. destruct retired; [rewrite lookup_delete_eq|rewrite lookup_insert_eq].
      * by apply eq_sym, andb_true_iff in P4.
      * unfold serve. cbn. by rewrite Hl, Z.sub_0_r.
  - rewrite P5. destruct retired; [by rewrite lookup_delete_eq|]. rewrite lookup_insert_eq.
    eexists. split; [done|]. split; [|done]. rewrite Hp. unfold queue_turns. cbn. lia.
Qed.

Lemma pump_turn_spec sid c e :
  streams c !! sid = Some e → 0 < peer_max_frame_size (peer c) →
  let '(c1, more) := pump_turn sid c in
  (c1 = c ∧ more = false ∧ stuck c e)
  ∨ ∃ f, drained c [(sid, f)] c1 ∧
    match streams c1 !! sid with
    | None => more = false
    | Some e1 => (queue_turns (pending_data e1) < queue_turns (pending_data e))%nat ∧ (more = false → stuck c1 e1)
    end.
Proof.
  intros Hs Hm. unfold pump_turn. rewrite Hs.
  destruct (local_ended e) eqn:Hl; [left; split_and!; try done; by left|].
  destruct (pending_data e) as [|[data es] q] eqn:Hp; [left; split_and!; try done; right; by left|].
  case_bool_decide as Hd.
  - subst data. pose proof (empty_front_spec sid c e es q Hs Hl Hp Hm) as He.
    destruct (pop_front _ _ _ _ _) as [c1 retired]. destruct He as [Hdr He]. right. eexists. split; [exact Hdr|].
    destruct retired; [by rewrite He|]. destruct He as (e1 & -> & Hq & _). rewrite Hp in Hq. by split.
  - destruct (Z.leb_spec (Z.min (conn_window c) (send_window e)) 0).
    { left. split_and!; try done. right; right. by exists data, es, q. }
    set (amount := Z.min (Z.min _ _) _).
    assert (0 < zlen data) by by apply zlen_pos.
    assert (set_deficit (deficit e) e = e) as Ed by (by destruct e).
    pose proof (send_front_spec sid c e (deficit e) data es q amount Hs Hl Hp) as Hf.
    rewrite Ed in Hf. destruct (send_front _ _ _ _ _ _ _) as [[c1 retired] all].
    destruct Hf as (f & Hdr & Hlen & Hall & Hr); [unfold amount; lia..|].
    right. exists f. split; [done|]. destruct retired.
    + destruct Hr as [-> ->]. done.
    + destruct Hr as (e1 & -> & Hq & Hpart). rewrite Hp in Hq. split; [done|]. destruct all; [done|].
      destruct (Hpart eq_refl) as (Hl1 & d & r & Hp1 & Hd1 & Hw1). intros Hlim. right; right.
      exists d, es, r. split; [done|]. split; [done|].
      pose proof (dr_conn _ _ _ Hdr) as Hconn. cbn in Hconn. rewrite Hlen in Hconn.
      unfold amount in *. lia.
Qed.

(** Enough fuel: the loop ends because the stream is stuck or gone. *)
Lemma pump_fuel fuel sid c e :
  streams c !! sid = Some e → 0 < peer_max_frame_size (peer c) →
  (queue_turns (pending_data e) < fuel)%nat →
  ∃ q, drained c (pair sid <$> q) (pump fuel sid c)
    ∧ match streams (pump fuel sid c) !! sid with Some e' => stuck (pump fuel sid c) e' | None => True end.
Proof.
  revert c e. induction fuel as [|fuel IH]; intros c e Hs Hm Hf; [lia|]. cbn [pump].
  pose proof (pump_turn_spec sid c e Hs Hm) as Ht. destruct (pump_turn sid c) as [c1 more].
  destruct Ht as [(-> & -> & Hst)|(f & Hdr & Hst)].
  - exists []. split; [apply drained_refl|by rewrite Hs].
  - destruct (streams c1 !! sid) as [e1|] eqn:Hs1.
    + destruct Hst as [Hq Hst]. destruct more; [|exists [f]; by rewrite Hs1; eauto].
      destruct (IH c1 e1) as (q & Hq1 & Hst1); [done| |lia|].
      { rewrite (dr_frame _ _ _ Hdr). done. }
      exists (f :: q). split; [|done]. by apply (drained_trans c [(sid, f)] c1).
    + subst more. exists [f]. by rewrite Hs1.
Qed.

(** ** Deficit round robin *)

Lemma pump_drr_turn_spec sid c e :
  streams c !! sid = Some e → 0 < peer_max_frame_size (peer c) → 0 < deficit e →
  let '(c1, more) := pump_drr_turn sid c in
  (c1 = c ∧ more = false ∧ stuck c e)
  ∨ ∃ f, drained c [(sid, f)] c1 ∧
    if more then
      ∃ e1, streams c1 !! sid = Some e1 ∧ deficit e1 = deficit e
      ∧ (queue_turns (pending_data e1) < queue_turns (pending_data e))%nat
    else streams c1 !! sid = None ∨ conn_window c1 < conn_window c.
Proof.
  intros Hs Hm Hdef. unfold pump_drr_turn. rewrite Hs.
  destruct (local_ended e) eqn:Hl; [left; split_and!; try done; by left|].
  destruct (pending_data e) as [|[data es] q] eqn:Hp; [left; split_and!; try done; right; by left|].
  case_bool_decide as Hd.
  - subst data. pose proof (empty_front_spec sid c e es q Hs Hl Hp Hm) as He.
    destruct (pop_front _ _ _ _ _) as [c1 retired]. destruct He as [Hdr He]. right. eexists. split; [exact Hdr|].
    destruct retired; [by left|]. cbn [negb]. destruct He as (e1 & -> & Hq & Hd1). rewrite Hp in Hq. by exists e1.
  - rewrite (proj2 (Z.eqb_neq _ _)) by lia.
    destruct (Z.leb_spec (Z.min (conn_window c) (send_window e)) 0).
    { left. split_and!; try done. right; right. by exists data, es, q. }
    set (amount := Z.min (Z.min _ _) _).
    assert (0 < zlen data) by by apply zlen_pos.
    rewrite (proj2 (Z.eqb_neq amount _)) by lia.
    pose proof (send_front_spec sid c e (deficit e - amount) data es q amount Hs Hl Hp) as Hf.
    destruct (send_front _ _ _ _ _ _ _) as [[c1 retired] all].
    destruct Hf as (f & Hdr & Hlen & Hall & Hr); [unfold amount; lia..|].
    right. exists f. split; [done|]. right. pose proof (dr_conn _ _ _ Hdr) as Hconn. cbn in Hconn. lia.
Qed.

Lemma pump_drr_fuel fuel sid c e :
  streams c !! sid = Some e → 0 < peer_max_frame_size (peer c) → 0 < deficit e →
  (queue_turns (pending_data e) < fuel)%nat →
  ∃ q, drained c (pair sid <$> q) (pump_drr fuel sid c)
    ∧ (conn_window (pump_drr fuel sid c) < conn_window c
       ∨ match streams (pump_drr fuel sid c) !! sid with Some e' => stuck (pump_drr fuel sid c) e' | None => True end).
Proof.
  revert c e. induction fuel as [|fuel IH]; intros c e Hs Hm Hd Hf; [lia|]. cbn [pump_drr].
  pose proof (pump_drr_turn_spec sid c e Hs Hm Hd) as Ht. destruct (pump_drr_turn sid c) as [c1 more].
  destruct Ht as [(-> & -> & Hst)|(f & Hdr & Hst)].
  - exists []. split; [apply drained_refl|rewrite Hs; by right].
  - destruct more.
    + destruct Hst as (e1 & Hs1 & Hd1 & Hq). destruct (IH c1 e1) as (q & Hq1 & Hst1); [done| |lia|lia|].
      { rewrite (dr_frame _ _ _ Hdr). done. }
      exists (f :: q). split; [by apply (drained_trans c [(sid, f)] c1)|].
      pose proof (dr_conn _ _ _ Hdr) as Hc. cbn in Hc. pose proof (zlen_nonneg f.1).
      destruct Hst1; [left; lia|by right].
    + exists [f]. split; [done|]. destruct Hst as [->|]; [by right|by left].
Qed.

(** A stream no frame of which was sent. *)
Lemma drained_other c fs c1 id :
  drained c fs c1 → of_stream id fs = [] →
  match streams c !! id with
  | Some e => ∃ d, streams c1 !! id = Some (set_deficit d e)
  | None => streams c1 !! id = None
  end.
Proof.
  intros Hdr Hq. pose proof (dr_streams _ _ _ Hdr id) as Hs. rewrite Hq in Hs.
  destruct (streams c !! id) as [e|]; [|by destruct Hs].
  destruct Hs as (_ & _ & rest & _ & Hr & Ho). destruct (streams c1 !! id) as [e1|]; [|by destruct Ho].
  exists (deficit e1). f_equal. rewrite Ho, Hr by done. unfold serve, set_deficit. cbn.
  by rewrite orb_false_r, Z.sub_0_r.
Qed.

Lemma of_stream_other id sid q : id ≠ sid → of_stream id (pair sid <$> q) = [].
Proof.
  intros Hne. induction q as [|d q IH]; [done|].
  change (pair sid <$> d :: q) with ([(sid, d)] ++ (pair sid <$> q)).
  rewrite of_stream_app, of_stream_one, IH. by rewrite decide_False.
Qed.

Lemma of_stream_same sid q : of_stream sid (pair sid <$> q) = q.
Proof.
  induction q as [|d q IH]; [done|]. change (pair sid <$> d :: q) with ([(sid, d)] ++ (pair sid <$> q)).
  rewrite of_stream_app, of_stream_one, IH. by rewrite decide_True.
Qed.

(** Raising the credit of a stream sends nothing. *)
Lemma drained_credit sid e d c : streams c !! sid = Some e → drained c [] (put sid (set_deficit d e) c).
Proof.
  intros Hs. split; cbn; try done; [lia|by left|]. intros id.
  destruct (decide (id = sid)) as [->|Hne].
  - rewrite Hs, lookup_insert_eq. split; [by left|]. split; [by left|]. exists (pending_data e).
    split; [done|]. split; [done|]. unfold serve, set_deficit. cbn. by rewrite orb_false_r, Z.sub_0_r.
  - rewrite lookup_insert_ne by done. destruct (streams c !! id); [apply served_refl|done].
Qed.

(** *** Rounds *)

(** Stream [id] has nothing that its own window lets through. *)
Definition idle (c : Connection) (id : Z) : Prop :=
  ∀ e, streams c !! id = Some e → has_pending c id = true → send_window e ≤ 0.

Lemma idle_other c fs c1 id : drained c fs c1 → of_stream id fs = [] → idle c id → idle c1 id.
Proof.
  intros Hdr Hq Hi e1 Hs1 Hp1. pose proof (drained_other c fs c1 id Hdr Hq) as Ho.
  destruct (streams c !! id) as [e|] eqn:Hs; [|congruence]. destruct Ho as [d Ho].
  rewrite Hs1 in Ho. injection Ho as ->. apply (Hi e Hs). unfold has_pending in *. rewrite Hs1 in Hp1. by rewrite Hs.
Qed.

Lemma has_pending_false c id e :
  streams c !! id = Some e → has_pending c id = false ↔ pending_data e = [] ∨ local_ended e = true.
Proof.
  intros Hs. unfold has_pending. rewrite Hs. case_bool_decide as Hp; cbn.
  - split; [by left|done].
  - destruct (local_ended e); naive_solver.
Qed.

(** The turn of stream [id] in a round. *)
Lemma round_turn id c e quantum :
  conn_ok c → 0 < quantum → streams c !! id = Some e → 0 < conn_window c → 0 < send_window e →
  let c1 := pump_stream_data_drr id (put id (set_deficit (saturating_add64 (deficit e) quantum) e) c) in
  ∃ q, drained c (pair id <$> q) c1 ∧ (conn_window c1 < conn_window c ∨ has_pending c1 id = false).
Proof.
  intros Hok Hq Hs Hc Hw. cbv zeta. set (e0 := set_deficit _ e). set (c0 := put id e0 c).
  pose proof (co_streams c Hok _ _ Hs) as He. pose proof (eo_deficit _ _ _ He).
  pose proof (po_frame _ (co_peer c Hok)) as [Hmax _]. unfold DEFAULT_MAX_FRAME_SIZE in Hmax.
  assert (streams c0 !! id = Some e0) as Hs0 by apply lookup_insert_eq.
  destruct (pump_drr_fuel (S (stream_turns id c0)) id c0 e0) as (q & Hdr & Hst); [done|cbn; lia| |  |].
  { cbn. unfold saturating_add64, usize_max. lia. }
  { unfold stream_turns. rewrite Hs0. lia. }
  fold (pump_stream_data_drr id c0) in Hdr, Hst. set (c1 := pump_stream_data_drr id c0) in *.
  assert (drained c (pair id <$> q) c1) as Hd1
    by (by apply (drained_trans c [] c0); [apply drained_credit|]).
  exists q. split; [done|]. destruct Hst as [Hlt|Hst]; [by left|].
  pose proof (dr_conn _ _ _ Hd1) as Hconn. pose proof (dr_streams _ _ _ Hd1 id) as Hserv.
  rewrite Hs, of_stream_same in Hserv. destruct (streams c1 !! id) as [e1|] eqn:Hs1;
    [|right; unfold has_pending; by rewrite Hs1].
  destruct Hserv as (_ & _ & rest & _ & _ & He1). pose proof (octets_nonneg q).
  assert ((pair id <$> q).*2 = q) as Eq by (rewrite <- list_fmap_compose; apply list_fmap_id).
  rewrite Eq in Hconn. destruct (decide (octets q = 0)) as [E0|]; [|left; lia]. right.
  apply (has_pending_false _ _ _ Hs1). destruct Hst as [?|[?|(d & es & r & Hp & Hd & Hmin)]]; [by right|by left|].
  exfalso. assert (send_window e1 = send_window e - octets q) by (by rewrite He1). lia.
Qed.

(** The streams a round may have left unserved are those of [next_ids]. *)
Definition covered (ids : list Z) (c : Connection) : Prop := ∀ id, id ∈ ids ∨ idle c id.

Lemma drain_round_spec ids quantum c next progress :
  conn_ok c → 0 < quantum → 0 < conn_window c → covered (ids ++ next) c →
  let '(c1, next1, progress1) := drain_round ids quantum c next progress in
  (∃ fs, drained c fs c1)
  ∧ progress1 = progress || (conn_window c1 <? conn_window c)
  ∧ (0 < conn_window c1 → covered next1 c1 ∧ (progress1 = false → next1 = next)).
Proof.
  intros Hok Hq. revert c next progress Hok. induction ids as [|id ids IH]; intros c next progress Hok Hc Hcov.
  { cbn. rewrite Z.ltb_irrefl, orb_false_r. split; [by exists []; apply drained_refl|done]. }
  cbn [drain_round]. assert (idle c id → covered (ids ++ next) c) as Hskip.
  { intros Hi id'. destruct (Hcov id') as [[->|?]%elem_of_cons|?]; [by right|by left|by right]. }
  destruct (streams c !! id) as [e|] eqn:Hs.
  2:{ apply IH; [done|done|]. apply Hskip. intros e. congruence. }
  destruct (bool_decide (pending_data e = []) || local_ended e || (send_window e <=? 0)) eqn:Eb.
  { apply IH; [done|done|]. apply Hskip. intros e' Hs' Hp. rewrite Hs in Hs'. injection Hs' as <-.
    unfold has_pending in Hp. rewrite Hs in Hp. destruct (bool_decide _), (local_ended e); cbn in *; lia || done. }
  apply orb_false_iff in Eb as [Eb Hw]. set (c0 := put id _ c).
  destruct (round_turn id c e quantum) as (q & Hdr & Hprog); [done|done|done|done|lia|].
  pose proof (drain_round_ok [id] quantum c next progress ltac:(lia) Hok) as Hok1. cbn [drain_round] in Hok1.
  rewrite Hs, Eb, Hw in Hok1. cbn [orb] in Hok1. fold c0 in Hdr, Hprog, Hok1.
  set (c1 := pump_stream_data_drr id c0) in *.
  set (next1 := if has_pending c1 id then next ++ [id] else next).
  assert (conn_ok c1) as Hok1' by (by destruct (conn_window c1 <=? 0)). clear Hok1.
  assert (covered (ids ++ next1) c1) as Hcov1.
  { intros id'. destruct (decide (id' = id)) as [->|Hne].
    - unfold next1. destruct (has_pending c1 id) eqn:Hp; [left; set_solver|]. right. intros e' _. congruence.
    - destruct (Hcov id') as [[->|Hin]%elem_of_cons|Hi]; [done|left|right].
      + unfold next1. destruct (has_pending c1 id); set_solver.
      + eapply idle_other; [exact Hdr| |done]. by apply of_stream_other. }
  pose proof (dr_conn _ _ _ Hdr) as Hconn. pose proof (octets_nonneg ((pair id <$> q).*2)) as Hoct.
  destruct (Z.leb_spec (conn_window c1) 0) as [|Hc1].
  - split; [by eexists|]. split; [done|lia].
  - specialize (IH c1 next1 (progress || (conn_window c1 <? conn_window c)) Hok1' Hc1 Hcov1).
    destruct (drain_round _ _ _ _ _) as [[c2 next2] progress2]. destruct IH as ((fs & Hfs) & Hp2 & Hc2).
    pose proof (dr_conn _ _ _ Hfs). pose proof (octets_nonneg (fs.*2)).
    split; [eexists; by eapply drained_trans|]. split.
    + rewrite Hp2, <- orb_assoc. f_equal. lia.
    + intros Hpos. destruct (Hc2 Hpos) as [Hcv Hnx]. split; [done|]. intros Hp. rewrite (Hnx Hp).
      rewrite Hp in Hp2. unfold next1. destruct Hprog as [Hlt|Hnp]; [|by rewrite Hnp].
      rewrite (proj2 (Z.ltb_lt _ _) Hlt), orb_true_r in Hp2. done.
Qed.

(** The rounds: what they send, and that they stop only when the connection
    window is exhausted or no stream may send. *)
Lemma drain_rounds_spec fuel ids quantum c :
  conn_ok c → 0 < quantum → covered ids c → (Z.to_nat (conn_window c) < fuel)%nat →
  let c1 := drain_rounds fuel ids quantum c in
  (∃ fs, drained c fs c1) ∧ (0 < conn_window c1 → ∀ id, idle c1 id).
Proof.
  intros Hok Hq. cbv zeta. revert ids c Hok. induction fuel as [|fuel IH]; intros ids c Hok Hcov Hf; [lia|].
  cbn [drain_rounds]. destruct (Z.ltb_spec 0 (conn_window c)) as [Hc|Hc].
  2:{ cbn. split; [exists []; apply drained_refl|lia]. }
  cbn [andb]. case_bool_decide as Hids; cbn [negb].
  { subst ids. split; [exists []; apply drained_refl|]. intros _ id. destruct (Hcov id) as [Hin|]; [|done].
    by apply elem_of_nil in Hin. }
  pose proof (drain_round_spec ids quantum c [] false Hok Hq Hc) as Hr.
  pose proof (drain_round_ok ids quantum c [] false ltac:(lia) Hok) as Hok1.
  destruct (drain_round _ _ _ _ _) as [[c1 next] progress]. cbn in Hok1.
  rewrite app_nil_r in Hr. destruct (Hr Hcov) as ((fs & Hfs) & Hp & Hc1). cbn in Hp. subst progress.
  destruct (Z.ltb_spec (conn_window c1) (conn_window c)) as [Hlt|Hge].
  - destruct (Z.ltb_spec 0 (conn_window c1)) as [Hpos|Hneg].
    + destruct (IH next c1) as ((fs' & Hfs') & Hidle); [done|by apply Hc1|lia|].
      split; [eexists; by eapply drained_trans|done].
    + destruct fuel as [|fuel]; [split; [by eexists|cbn; lia]|]. cbn [drain_rounds].
      rewrite (proj2 (Z.ltb_ge _ _)) by lia. cbn. split; [by eexists|lia].
  - split; [by eexists|]. intros Hpos id. destruct (Hc1 Hpos) as [Hcv Hn]. rewrite Hn in Hcv by done.
    destruct (Hcv id) as [Hin|]; [by apply elem_of_nil in Hin|done].
Qed.

(** ** The contracts *)

(** C21. [pump_stream_data] on an open stream sends a sequence [q] of DATA
    frames of that stream and nothing else: read as octets and END_STREAM
    marks, [q] followed by what is left of the queue is the queue before; no
    frame is larger than the peer's SETTINGS_MAX_FRAME_SIZE; both windows drop
    by exactly the octets sent, which neither window was too small for; other
    streams and the rest of the state are untouched; the stream is retired
    only after END_STREAM, when its task is gone; and the loop terminates, with
    the stream ended, its queue empty, or a window exhausted. *)
Theorem pump_stream_data_spec sid c e :
  conn_ok c → streams c !! sid = Some e →
  let c1 := pump_stream_data sid c in
  ∃ q, drained c (pair sid <$> q) c1
    ∧ match streams c1 !! sid with Some e1 => stuck c1 e1 | None => True end.
Proof.
  intros Hok Hs. pose proof (po_frame _ (co_peer c Hok)) as [Hm _]. unfold DEFAULT_MAX_FRAME_SIZE in Hm.
  apply (pump_fuel _ sid c e Hs); [lia|]. unfold stream_turns. rewrite Hs. lia.
Qed.

Context (iteration : Connection → list Z).

Lemma drain_pending_spec c :
  conn_ok c → (∀ id, is_Some (streams c !! id) → id ∈ iteration c) →
  let c1 := drain_pending_data iteration None c in
  (∃ fs, drained c fs c1) ∧ (conn_window c1 ≤ 0 ∨ ∀ id, idle c1 id).
Proof.
  intros Hok Hit. pose proof (po_frame _ (co_peer c Hok)) as [Hm _]. unfold DEFAULT_MAX_FRAME_SIZE in Hm.
  cbv zeta. unfold drain_pending_data. set (ids := filter _ _).
  destruct (drain_rounds_spec (S (Z.to_nat (conn_window c))) ids (peer_max_frame_size (peer c)) c)
    as [Hd Hi]; [done|lia| |lia|].
  - intros id. destruct (has_pending c id) eqn:Hp; [left|right; intros e _; congruence].
    apply list_elem_of_filter. split; [done|]. apply Hit. unfold has_pending in Hp.
    destruct (streams c !! id); [by eexists|done].
  - split; [done|]. destruct (Z.leb_spec (conn_window (drain_rounds (S (Z.to_nat (conn_window c))) ids
      (peer_max_frame_size (peer c)) c)) 0); [by left|right; by apply Hi].
Qed.

(** C24. The deficit round robin of [drain_pending_data] sends each stream's
    queue in order and without loss, within both windows and the peer's frame
    size, and it is work-conserving: it terminates only when the connection
    window is exhausted or no stream with queued data has a window of its own
    left.  That [iter] visits every stream of the map is the hypothesis. *)
Theorem drain_pending_data_spec c :
  conn_ok c → (∀ id, is_Some (streams c !! id) → id ∈ iteration c) →
  let c1 := drain_pending_data iteration None c in
  (∃ fs, drained c fs c1) ∧ (conn_window c1 ≤ 0 ∨ ∀ id, idle c1 id).
Proof. apply drain_pending_spec. Qed.

(** An accepted WINDOW_UPDATE on the connection leaves nothing that could
    be sent: afterwards the connection window is exhausted or every stream is
    out of data or of window; and what was sent respects the raised window. *)
Theorem window_update_drains increment c :
  conn_ok c → (∀ c id, is_Some (streams c !! id) → id ∈ iteration c) →
  0 < increment → conn_window c + increment ≤ i32_max →
  let c1 := handle_window_update iteration 0 increment c in
  (∃ fs, drained (set_conn_window (conn_window c + increment) c) fs c1)
  ∧ (conn_window c1 ≤ 0 ∨ ∀ id, idle c1 id).
Proof.
  intros Hok Hit Hi Hmax. cbv zeta. unfold handle_window_update.
  rewrite (proj2 (Z.eqb_neq increment 0)) by lia. cbn [Z.eqb].
  rewrite (proj2 (Z.ltb_ge _ _)) by lia.
  apply drain_pending_spec; [|apply Hit]. apply set_conn_window_ok; [done|].
  pose proof (co_window c Hok). lia.
Qed.
End flow.

(** ** The contracts on a concrete connection *)

#[local] Existing Instances plain_http plain_channels.

Lemma blocked_ok : conn_ok blocked.
Proof.
  apply run_ok; [apply (bool_decide_unpack _); vm_compute; exact I|]. apply start_ok. by split.
Qed.

Lemma table_order_all (c : Connection) id : is_Some (streams c !! id) → id ∈ table_order c.
Proof.
  intros [e He]. unfold table_order. apply list_elem_of_fmap. exists (id, e).
  split; [done|]. by apply elem_of_map_to_list.
Qed.

Lemma pump_stream_data_spec_witness :
  let c := put 1 (set_send_window 1 (default new_entry (streams blocked !! 1))) blocked in
  ∃ q, drained c (pair 1 <$> q) (pump_stream_data 1 c)
    ∧ match streams (pump_stream_data 1 c) !! 1 with Some e1 => stuck (pump_stream_data 1 c) e1 | None => True end.
Proof.
  apply (pump_stream_data_spec 1 _ (set_send_window 1 (default new_entry (streams blocked !! 1))));
    [|apply lookup_insert_eq].
  assert (streams blocked !! 1 = Some (default new_entry (streams blocked !! 1))) as Hs by (vm_compute; reflexivity).
  apply put_ok; [apply blocked_ok|by eexists|].
  destruct (co_streams _ blocked_ok _ _ Hs). by split.
Defined.

Lemma drain_pending_data_spec_witness :
  let c1 := drain_pending_data table_order None blocked in
  (∃ fs, drained blocked fs c1) ∧ (conn_window c1 ≤ 0 ∨ ∀ id, idle c1 id).
Proof. apply (drain_pending_data_spec table_order blocked); [apply blocked_ok|apply table_order_all]. Defined.

Lemma window_update_drains_witness :
  let c1 := handle_window_update table_order 0 100 blocked in
  (∃ fs, drained (set_conn_window (conn_window blocked + 100) blocked) fs c1)
  ∧ (conn_window c1 ≤ 0 ∨ ∀ id, idle c1 id).
Proof.
  apply (window_update_drains table_order 100 blocked); [apply blocked_ok|apply table_order_all|lia|].
  vm_compute. congruence.
Defined.
