(* ===== verification/H2Deviations.v ===== *)
(** * Where the connection departs from the protocol

    Theorems that pin down behaviour of the handlers a peer would not expect:
    SETTINGS that open windows send nothing, trailers overtake queued DATA,
    refused streams are forgotten, padding is never credited, and the peer
    chooses the size of the frames it may send. *)

From S2P Require Import Prelude Integer HpackTable Hpack H2Error H2Codec H2Request H2Connection H2Steps H2Invariant.
From S2P Require Import H2Example H2Loop H2Flow.

Section deviations.
Context `{HC : Channels} (iteration : Connection → list Z).

(** ** SETTINGS_INITIAL_WINDOW_SIZE *)

Lemma shift_windows_pending delta m sid :
  pending_data <$> shift_windows delta m !! sid = pending_data <$> m !! sid.
Proof. unfold shift_windows. rewrite lookup_fmap. by destruct (m !! sid). Qed.

Lemma apply_setting_silent s c :
  let c1 := (apply_setting s c).1 in
  (closing c1 = false → out c1 = out c) ∧ conn_window c1 = conn_window c
  ∧ (closing c = true → closing c1 = true)
  ∧ ∀ sid, pending_data <$> streams c1 !! sid = pending_data <$> streams c !! sid.
Proof.
  assert (∀ r d a, closing (goaway r d a) = true ∧ conn_window (goaway r d a) = conn_window a
    ∧ streams (goaway r d a) = streams a) as Hg by (intros r d a; unfold goaway; by destruct (connection_error a)).
  cbv zeta. unfold apply_setting. repeat (case_match; try (by split_and!)).
  - destruct (Hg ProtocolError (b "invalid SETTINGS_MAX_FRAME_SIZE") c) as (E1 & E2 & E3). cbn [fst].
    rewrite E1, E2, E3. done.
  - cbn [fst]. match goal with |- context [goaway ?r ?d ?a] => destruct (Hg r d a) as (-> & -> & ->) end.
    split_and!; try done. apply shift_windows_pending.
  - split_and!; try done. apply shift_windows_pending.
Qed.

(** Nothing was sent between [c] and [c1]: no octets, no credit spent, every
    queue as it was. *)
Definition nothing_sent (c c1 : Connection) : Prop :=
  out c1 = out c ∧ conn_window c1 = conn_window c
  ∧ ∀ sid, pending_data <$> streams c1 !! sid = pending_data <$> streams c !! sid.

(** Applying the peer's SETTINGS never sends queued DATA, even when
    SETTINGS_INITIAL_WINDOW_SIZE opens the windows of blocked streams: unless
    the connection is ended by an error, nothing is written, the connection
    window is unchanged and every stream keeps its queue.  Such a stream waits
    for a WINDOW_UPDATE the peer has no reason to send. *)
Theorem settings_send_nothing l c :
  closing (apply_peer_settings l c) = false → nothing_sent c (apply_peer_settings l c).
Proof.
  unfold nothing_sent.
  revert c. induction l as [|s l IH]; intros c Hcl; [done|]. cbn [apply_peer_settings] in *.
  pose proof (apply_setting_silent s c) as (H1 & H2 & H3 & H4).
  destruct (apply_setting s c) as [c1 []]; cbn in H1, H2, H3, H4.
  - destruct (IH c1 Hcl) as (-> & -> & Hs). assert (closing c1 = false) as Hc1.
    { destruct (closing c1) eqn:E; [|done].
      assert (micros false c1 (apply_peer_settings l c1)) as Hm by (by apply m_apply_peer_settings).
      apply micros_grow in Hm as (_ & _ & _ & _ & _ & _ & _ & Hm & _). rewrite Hm in Hcl; done. }
    split; [by apply H1|]. split; [done|]. intros sid. by rewrite Hs.
  - split_and!; [by apply H1|done|done].
Qed.

(** ** Trailers *)

(** Stream [sid] of [c] has ended with the queue [q], which no pump sends. *)
Definition abandoned (sid : Z) (q : list (bytes * bool)) (c : Connection) : Prop :=
  (∃ e, streams c !! sid = Some e ∧ pending_data e = q ∧ local_ended e = true)
  ∧ pump_stream_data sid c = c ∧ has_pending c sid = false.

Lemma ended_abandoned sid c e :
  streams c !! sid = Some e → local_ended e = true → abandoned sid (pending_data e) c.
Proof.
  intros Hs Hl. split; [by exists e|]. unfold pump_stream_data. cbn [pump]. unfold pump_turn, has_pending.
  rewrite Hs, Hl. split; [done|]. by rewrite andb_false_r.
Qed.

(** Trailers overtake queued DATA: when a stream still has octets the
    flow-control windows held back, its trailers are sent at once and end the
    stream, the queue is kept but neither a WINDOW_UPDATE nor any later pump
    sends it, so the peer sees a complete response without those octets. *)
Theorem trailers_drop_pending sid fields c e :
  conn_ok c → streams c !! sid = Some e → local_ended e = false → pending_data e ≠ [] →
  let c1 := handle_stream_msg sid (MsgTrailers fields) c in
  abandoned sid (pending_data e) c1
  ∧ (∃ block, write_field_block (writer_max c) (out c) sid true block = Some (out c1))
  ∧ ∀ c2 e2, streams c2 !! sid = Some e2 → local_ended e2 = true → abandoned sid (pending_data e2) c2.
Proof.
  intros Hok Hs Hl Hp. cbn [handle_stream_msg]. rewrite Hs, Hl. cbv zeta. set (e1 := set_response_started _ _).
  unfold encode_and_emit. destruct (Hpack.encode _ _ _) as [enc block] eqn:He. split; [|split].
  - apply (ended_abandoned sid _ e1); [apply lookup_insert_eq|done].
  - exists block. destruct (co_writer c Hok) as [Hw _]. unfold DEFAULT_MAX_FRAME_SIZE in Hw.
    destruct (write_field_block_total (writer_max c) (out c) sid true block) as [o Ho]; [lia|].
    unfold emit_block. cbn. by rewrite Ho.
  - apply ended_abandoned.
Qed.

(** ** Refused streams *)

Lemma goaway_closing r d c : closing (goaway r d c) = true.
Proof. unfold goaway. by destruct (connection_error c). Qed.

Lemma reset_unknown sid code c :
  streams c !! sid = None → sid ∉ closed_streams c → closing (handle_reset_frame sid code c) = true.
Proof.
  intros Hs Hc. unfold handle_reset_frame. rewrite Hs, bool_decide_false by done. apply goaway_closing.
Qed.

Lemma window_update_unknown sid inc c :
  streams c !! sid = None → sid ∉ closed_streams c → sid ≠ 0 → 0 < inc →
  closing (handle_window_update iteration sid inc c) = true.
Proof.
  intros Hs Hc Hz Hi. unfold handle_window_update. rewrite (proj2 (Z.eqb_neq inc 0)), (proj2 (Z.eqb_neq sid 0)) by lia.
  rewrite Hs, bool_decide_false by done. apply goaway_closing.
Qed.

Lemma data_unknown sid data c :
  streams c !! sid = None → sid ∉ closed_streams c → closing (handle_data_frame sid true data c) = true.
Proof.
  intros Hs Hc. unfold handle_data_frame. rewrite andb_false_r. cbv zeta.
  set (c1 := if negb _ then _ else c).
  assert (streams c1 = streams c ∧ closed_streams c1 = closed_streams c) as [-> ->]
    by (unfold c1; by destruct (negb _)).
  rewrite Hs, bool_decide_false by done. apply goaway_closing.
Qed.

(** Stream [sid] is unknown to [c]: whatever arrives on it ends the
    connection. *)
Definition forgotten (sid : Z) (c : Connection) : Prop :=
  streams c !! sid = None ∧ sid ∉ closed_streams c
  ∧ (∀ data, closing (handle_data_frame sid true data c) = true)
  ∧ (∀ error_code, closing (handle_reset_frame sid error_code c) = true)
  ∧ (∀ inc, 0 < inc → closing (handle_window_update iteration sid inc c) = true)
  ∧ (∀ end_headers block, closing (handle_continuation sid end_headers block c) = true).

(** A stream refused for the concurrency limit is forgotten at once: it is
    neither open nor remembered as closed, and its field block never reaches
    the HPACK decoder.  Whatever the peer had already sent on it - its DATA,
    a RST_STREAM, a WINDOW_UPDATE or the rest of its field block - then ends
    the whole connection instead of being ignored. *)
Theorem refused_stream_forgotten sid es eh block c :
  conn_ok c → graceful c = false → 0 < sid → sid mod 2 = 1 → highest_stream_id c < sid →
  max_concurrent_streams (opts c) ≤ Z.of_nat (base.size (streams c)) →
  let c1 := handle_headers_frame sid es eh block c in
  closing c1 = closing c ∧ request_decoder c1 = request_decoder c ∧ complete_blocks c1 = complete_blocks c
  ∧ forgotten sid c1.
Proof.
  intros Hok Hg Hpos Hodd Hhi Hfull.
  assert (streams c !! sid = None) as Hs.
  { destruct (streams c !! sid) as [e|] eqn:E; [|done]. pose proof (stream_known c sid e Hok E) as [_ ?]. lia. }
  assert (sid ∉ closed_streams c) as Hcl.
  { intros Hin. destruct (co_highest c Hok) as [_ Hh]. specialize (Hh sid Hin). lia. }
  pose proof (co_concurrent c Hok). pose proof (oo_concurrent _ (co_opts c Hok)).
  cbv zeta. unfold handle_headers_frame. rewrite Hg, Hs. cbn [andb]. unfold open_request_stream.
  rewrite (proj2 (Z.eqb_neq sid 0)), (proj2 (Z.eqb_neq (sid mod 2) 0)), (proj2 (Z.leb_gt sid (highest_stream_id c))) by lia.
  cbn [orb]. cbv zeta. change (opts (set_highest_stream_id sid c)) with (opts c).
  change (streams (set_highest_stream_id sid c)) with (streams c).
  unfold u32. rewrite Z.mod_small by lia. rewrite (proj2 (Z.leb_le _ _)) by done.
  set (c1 := emit _ _). split; [done|]. split; [done|]. split; [done|]. split_and!; try done.
  - intros data. by apply data_unknown.
  - intros error_code. by apply reset_unknown.
  - intros inc Hi. apply window_update_unknown; try done. lia.
  - intros eh' block'. unfold handle_continuation. change (streams c1) with (streams c). rewrite Hs. apply goaway_closing.
Qed.

(** ** Padding *)

Lemma payload_slice_nil p n : payload_slice p [] n = [].
Proof.
  unfold payload_slice, zslice. change (zlen []) with 0. rewrite Z.add_0_r, Z.sub_diag.
  by destruct (_ && _).
Qed.

(** A DATA frame with [padding] and no data. *)
Definition padded_frame (sid : Z) (padding : bytes) : bytes :=
  header [] (1 + zlen padding) DATA_TYPE FLAG_PADDED sid ++ zlen padding :: padding.

(** Padding is never credited: a DATA frame of [n] octets of padding and
    no data is delivered as an empty chunk, on which [handle_data_frame] does
    nothing, so no WINDOW_UPDATE returns the 1 + n octets the frame took from
    both receive windows of the peer's accounting. *)
Theorem padding_uncredited max sid padding c :
  stream_ok sid → max_ok max → zlen padding < 256 →
  let d := extend (new_frame_decoder max) (padded_frame sid padding) in
  next_frame d = (new_frame_decoder max, Ok (Some (Data sid false [])))
  ∧ handle_data_frame sid false [] c = c.
Proof.
  intros Hs [Hm _] Hp. unfold DEFAULT_MAX_FRAME_SIZE in Hm. pose proof (zlen_nonneg padding). cbv zeta. split; [|done].
  assert (zlen (zlen padding :: padding) = 1 + zlen padding) as Hl by (rewrite zlen_cons; lia).
  rewrite (next_frame_wire _ DATA_TYPE FLAG_PADDED sid (zlen padding :: padding) []).
  - rewrite (proj2 (parse_frame_Ok _ _ _ _ _ (new_frame_decoder max) (Data sid false []))); [done|].
    split; [done|]. split; [done|]. eexists. unfold parse_payload, DATA_TYPE.
    unfold require_stream. rewrite (proj2 (Z.eqb_neq sid 0)) by (unfold stream_ok in Hs; lia).
    cbn [mbind result_bind]. change (flag FLAG_PADDED FLAG_PADDED) with true. unfold take_padding.
    cbn [negb head ok_or mbind result_bind]. rewrite Hl, (proj2 (Z.leb_gt _ _)) by lia.
    cbn [fail_if mbind result_bind]. replace (1 + zlen padding - zlen padding - 1) with 0 by lia. cbn [Z.to_nat take].
    change (take (Z.to_nat 0) _) with (@nil Z). by rewrite payload_slice_nil.
  - rewrite Hl. change (2 ^ 24) with 16777216. lia.
  - unfold stream_ok in Hs. lia.
  - rewrite Hl. cbn. lia.
  - cbn [buf extend new_frame_decoder app]. by rewrite Hl, app_nil_r.
Qed.

(** ** The size of received frames *)

(** SETTINGS with SETTINGS_MAX_FRAME_SIZE [v]. *)
Definition max_frame_size_setting (v : Z) : bytes := write_settings [] [MkSetting 5 v].

(** The receive limit is the peer's to set: a SETTINGS frame that carries
    SETTINGS_MAX_FRAME_SIZE [v] - the size the peer is willing to receive -
    replaces the limit on what it may send, whatever this side announced; a
    peer that announces the default has its larger frames refused with
    FRAME_SIZE_ERROR even when they fit the announced limit. *)
Theorem peer_sets_receive_limit d v rest sid data :
  buf d = max_frame_size_setting v ++ rest → block_stream d = None → max_ok (max_frame_size d) →
  DEFAULT_MAX_FRAME_SIZE ≤ v ≤ MAX_FRAME_SIZE_LIMIT → v < zlen data < 2 ^ 24 →
  next_frame d = (MkFrameDecoder rest v None, Ok (Some (Settings false [MkSetting 5 v])))
  ∧ ∃ e, next_frame (extend (MkFrameDecoder [] v None) (write_data [] sid true data))
      = (extend (MkFrameDecoder [] v None) (write_data [] sid true data), Err e) ∧ reason e = FrameSizeError.
Proof.
  intros Hb Hbl [Hm _] Hv Hd. split.
  - rewrite (next_frame_write d (Settings false [MkSetting 5 v]) rest); [by rewrite Hbl|..|done].
    + split; [|done]. constructor; [|done]. unfold setting_ok. cbn [set_id set_value].
      unfold MAX_FRAME_SIZE_LIMIT, DEFAULT_MAX_FRAME_SIZE in Hv. change (2 ^ 32) with 4294967296.
      split; [done|]. split; [lia|]. cbn. apply fail_if_Ok. unfold DEFAULT_MAX_FRAME_SIZE, MAX_FRAME_SIZE_LIMIT. lia.
    + by rewrite Hbl.
    + change (zlen (write_frame _ _)) with 15. unfold DEFAULT_MAX_FRAME_SIZE in Hm. unfold FRAME_HEADER_LEN. lia.
  - eexists. split; [|by instantiate (1 := frame_size "frame payload exceeds SETTINGS_MAX_FRAME_SIZE")].
    apply (next_frame_oversize _ DATA_TYPE FLAG_END_STREAM sid (zlen data) data);
      [zlia|cbn; lia|].
    cbn [buf extend app]. unfold write_data. by rewrite header_out.
Qed.
End deviations.

(** ** On concrete connections *)

#[local] Existing Instances plain_http plain_channels.

(** The client opens its windows, with a stream blocked on them. *)
Lemma settings_send_nothing_witness :
  let c := apply_peer_settings [MkSetting 4 65535] blocked in
  nothing_sent blocked c
  ∧ pending_data <$> streams c !! 1 = Some [(b "lo", true)] ∧ send_window <$> streams c !! 1 = Some 65532.
Proof.
  split; [apply (settings_send_nothing [MkSetting 4 65535] blocked); vm_compute; reflexivity|].
  vm_compute. split; reflexivity.
Defined.

Lemma trailers_drop_pending_witness :
  let e := default new_entry (streams blocked !! 1) in
  let c1 := handle_stream_msg 1 (MsgTrailers [(b "x", b "y")]) blocked in
  pending_data e = [(b "lo", true)]
  ∧ abandoned 1 (pending_data e) c1
  ∧ (∃ block, write_field_block (writer_max blocked) (out blocked) 1 true block = Some (out c1))
  ∧ ∀ c2 e2, streams c2 !! 1 = Some e2 → local_ended e2 = true → abandoned 1 (pending_data e2) c2.
Proof.
  cbv zeta. split; [vm_compute; reflexivity|].
  apply (trailers_drop_pending 1 [(b "x", b "y")] blocked (default new_entry (streams blocked !! 1)));
    [apply blocked_ok|vm_compute; reflexivity|vm_compute; reflexivity|vm_compute; discriminate].
Defined.

(** End to end: a five-octet body and its trailers, answered to a window of
    three octets, reach the client as a complete response of three octets. *)
Definition truncated : Connection :=
  run table_order (start default_options (Some CLIENT_PREFACE)).1
    (narrow_session 3 [MsgHeaders 200 [] false; MsgData (b "hello") false; MsgTrailers [(b "x", b "y")]; MsgClosed]
     ++ [Read (write_window_update [] 1 100); Read (write_window_update [] 0 100)]).

Example truncated_response :
  drop 33 (wire truncated)
  = write_frames [] [Settings true []; Headers 1 false true None [136]; Data 1 false (b "hel");
      Headers 1 true true None [64; 129; 243; 129; 245]]
  ∧ streams truncated = ∅ ∧ connection_error truncated = None.
Proof. vm_compute. split; [reflexivity|]. split; reflexivity. Qed.

(** A connection that allows no stream. *)
Definition closed_shop : Connection :=
  (start (MkConnectionOptions false 0 65535 65535 16384 65535 false None None 16) (Some CLIENT_PREFACE)).1.

Lemma refused_stream_forgotten_witness :
  let c1 := handle_headers_frame 1 false true get_block closed_shop in
  closing c1 = false ∧ request_decoder c1 = request_decoder closed_shop
  ∧ complete_blocks c1 = complete_blocks closed_shop ∧ forgotten table_order 1 c1.
Proof.
  apply (refused_stream_forgotten table_order 1 false true get_block closed_shop); try reflexivity.
  apply start_ok. by split.
Defined.

Lemma padding_uncredited_witness :
  let d := extend (new_frame_decoder 16384) (padded_frame 1 [0; 0]) in
  next_frame d = (new_frame_decoder 16384, Ok (Some (Data 1 false [])))
  ∧ handle_data_frame 1 false [] blocked = blocked.
Proof. apply (padding_uncredited 16384 1 [0; 0] blocked); done. Defined.

Lemma peer_sets_receive_limit_witness :
  let d := MkFrameDecoder (max_frame_size_setting 16384 ++ []) 1048576 None in
  let d1 := extend (MkFrameDecoder [] 16384 None) (write_data [] 1 true (replicate 16385 0)) in
  next_frame d = (MkFrameDecoder [] 16384 None, Ok (Some (Settings false [MkSetting 5 16384])))
  ∧ ∃ e, next_frame d1 = (d1, Err e) ∧ reason e = FrameSizeError.
Proof.
  apply (peer_sets_receive_limit (MkFrameDecoder (max_frame_size_setting 16384 ++ []) 1048576 None)
    16384 [] 1 (replicate 16385 0)); try done.
Defined.

(** Options are not checked: with an initial stream window of 2^31, which the
    builder takes, the first frame announces a value that a peer must answer
    with FLOW_CONTROL_ERROR. *)
Definition wide_options : ConnectionOptions :=
  MkConnectionOptions false 100 (2 ^ 31) 65535 16384 65535 false None None 16.

Example options_unchecked :
  let l := [MkSetting 3 100; MkSetting 4 (2 ^ 31); MkSetting 5 16384; MkSetting 8 0] in
  wire (start wide_options (Some CLIENT_PREFACE)).1 = write_frame [] (Settings false l)
  ∧ validate_setting 4 (2 ^ 31) ≠ Ok ().
Proof. vm_compute. split; [reflexivity|discriminate]. Qed.
