(* ===== verification/Poll.v ===== *)
(** * Poll functions and async code

    Both are computations over a state that end with a value or an error, that
    wait, or that are stuck: a poll function returns [Poll::Pending], an async
    function is suspended where it awaits.  Weakest preconditions and preorders
    of states are what the theorems on such computations are built of; [fueled]
    and [enough] are about the fuel of their loops. *)

From S2P Require Import Prelude.

(** ** Polling *)

Inductive poll (A : Type) : Type :=
| Ready (a : A)
| Pending.
Arguments Ready {A} a.
Arguments Pending {A}.

(** What a poll function comes back with: a value, an error, [Poll::Pending];
    [Stuck] when it panics or its loop is out of fuel. *)
Inductive outcome (E A : Type) : Type :=
| Done (a : A)
| Fail (e : E)
| Wait
| Stuck.
Arguments Done {E A} a.
Arguments Fail {E A} e.
Arguments Wait {E A}.
Arguments Stuck {E A}.

(** A poll function with [&mut self]: it keeps its changes whatever it returns. *)
Definition op (S E A : Type) : Type := S → outcome E A * S.

#[global] Instance op_ret {S E} : MRet (op S E) := λ A a s, (Done a, s).
#[global] Instance op_bind {S E} : MBind (op S E) := λ A B f m s,
  match m s with
  | (Done a, s) => f a s
  | (Fail e, s) => (Fail e, s)
  | (Wait, s) => (Wait, s)
  | (Stuck, s) => (Stuck, s)
  end.

Section op.
Context {S E : Type}.

Definition self : op S E S := λ s, (Done s, s).
Definition modify (f : S → S) : op S E () := λ s, (Done (), f s).
Definition fail {A} (e : E) : op S E A := λ s, (Fail e, s).
Definition wait {A} : op S E A := λ s, (Wait, s).
Definition stuck {A} : op S E A := λ s, (Stuck, s).

(** [ready!(m)]. *)
Definition ready {A} (m : op S E (poll A)) : op S E A :=
  r ← m; match r with Ready a => mret a | Pending => wait end.

(** A computation on a part of the state. *)
Definition zoom {P A} (get : S → P) (put : P → S → S) (m : op P E A) : op S E A :=
  λ s, ((m (get s)).1, put (m (get s)).2 s).

(** [r?] and [r.map_err(f)?] of a plain result. *)
Definition lift {F A} (f : F → E) (r : result F A) : op S E A :=
  match r with Ok a => mret a | Err e => fail (f e) end.
End op.

Lemma ends_with {A B} (m : A * B) a : m.1 = a → m = (a, m.2).
Proof. by destruct m as [x y]; cbn; intros ->. Qed.

(** Runs a computation as far as its state is known. *)
Ltac run_op := cbv [mbind op_bind mret op_ret self modify fail wait stuck lift ready]; cbn.

(** The weakest precondition of a poll function, and its rules. *)
Definition wp {S E A} (m : op S E A) (Q : outcome E A → S → Prop) (s : S) : Prop := Q (m s).1 (m s).2.

(** What is asked of a computation whose continuation has to meet [Q]. *)
Definition andthen {S E A B} (f : A → op S E B) (Q : outcome E B → S → Prop) (o : outcome E A) (s : S) : Prop :=
  match o with
  | Done a => wp (f a) Q s
  | Fail e => Q (Fail e) s
  | Wait => Q Wait s
  | Stuck => Q Stuck s
  end.

Section wp.
Context {S E : Type}.

Lemma wp_bind {A B} (m : op S E A) (f : A → op S E B) Q s : wp (m ≫= f) Q s ↔ wp m (andthen f Q) s.
Proof. unfold wp, mbind, op_bind. by destruct (m s) as [[a|e| |] s']. Qed.

Lemma wp_mono {A} (m : op S E A) (P Q : outcome E A → S → Prop) s :
  wp m P s → (∀ o s', P o s' → Q o s') → wp m Q s.
Proof. unfold wp. auto. Qed.

Lemma wp_self {B} (f : S → op S E B) Q s : wp (self ≫= f) Q s ↔ wp (f s) Q s.
Proof. done. Qed.

Lemma wp_ret {A} (a : A) Q s : wp (mret a : op S E A) Q s ↔ Q (Done a) s.
Proof. done. Qed.

Lemma wp_modify f Q s : wp (modify f : op S E ()) Q s ↔ Q (Done ()) (f s).
Proof. done. Qed.

Lemma wp_fail {A} (e : E) Q s : wp (fail e : op S E A) Q s ↔ Q (Fail e) s.
Proof. done. Qed.

Lemma wp_lift {F A} (f : F → E) (r : result F A) Q s :
  wp (lift f r : op S E A) Q s ↔ match r with Ok a => Q (Done a) s | Err e => Q (Fail (f e)) s end.
Proof. by destruct r. Qed.

Lemma wp_ready {A} (m : op S E (poll A)) Q s :
  wp (ready m) Q s ↔ wp m (λ o s, match o with
    | Done (Ready a) => Q (Done a) s | Done Pending => Q Wait s
    | Fail e => Q (Fail e) s | Wait => Q Wait s | Stuck => Q Stuck s end) s.
Proof. unfold ready. rewrite wp_bind. unfold wp. by destruct (m s) as [[[a|]|e| |] s']. Qed.
End wp.

Lemma wp_zoom {S P E A} (get : S → P) (put : P → S → S) (m : op P E A) Q s :
  wp (zoom get put m) Q s ↔ wp m (λ o p, Q o (put p s)) (get s).
Proof. done. Qed.

(** What relates the states before and after, for a preorder of states. *)
Definition within {S E A} (R : relation S) (m : op S E A) : Prop := ∀ s, R s (m s).2.

Section within.
Context {S E : Type} (R : relation S) `{!PreOrder R}.

Lemma within_bind {A B} (m : op S E A) (f : A → op S E B) : within R m → (∀ a, within R (f a)) → within R (m ≫= f).
Proof.
  intros Hm Hf s. specialize (Hm s). unfold mbind, op_bind. destruct (m s) as [[a|e| |] s']; try done.
  etransitivity; [exact Hm|]. apply Hf.
Qed.

Lemma within_self {B} (f : S → op S E B) : (∀ s, within R (f s)) → within R (self ≫= f).
Proof. intros Hf s. apply Hf. Qed.

Lemma within_ret {A} (a : A) : within R (mret a : op S E A).
Proof. intros s. reflexivity. Qed.

Lemma within_fail {A} (e : E) : within R (fail e : op S E A).
Proof. intros s. reflexivity. Qed.

Lemma within_wait {A} : within R (wait : op S E A).
Proof. intros s. reflexivity. Qed.

Lemma within_stuck {A} : within R (stuck : op S E A).
Proof. intros s. reflexivity. Qed.

Lemma within_lift {F A} (f : F → E) (r : result F A) : within R (lift f r : op S E A).
Proof. intros s. by destruct r. Qed.

Lemma within_modify f : (∀ s, R s (f s)) → within R (modify f : op S E ()).
Proof. intros Hf s. apply Hf. Qed.

Lemma within_ready {A} (m : op S E (poll A)) : within R m → within R (ready m).
Proof. intros Hm. apply within_bind; [done|]. intros [a|]; [apply within_ret|apply within_wait]. Qed.
End within.

Lemma wp_within {S E A} (R : relation S) (m : op S E A) (Q : outcome E A → S → Prop) s :
  within R m → wp m (λ o s', R s s' → Q o s') s → wp m Q s.
Proof. intros HR HQ. apply HQ, HR. Qed.

(** Takes a computation apart; what is left are its calls and updates. *)
Ltac stays := repeat (lazymatch goal with
  | |- within _ (self ≫= _) => apply (within_self _); intros ?
  | |- within _ (_ ≫= _) => apply (within_bind _); [|intros ?]
  | |- within _ (mret _) => apply (within_ret _)
  | |- within _ (fail _) => apply (within_fail _)
  | |- within _ wait => apply (within_wait _)
  | |- within _ stuck => apply (within_stuck _)
  | |- within _ (lift _ _) => apply (within_lift _)
  | |- within _ (ready _) => apply (within_ready _)
  | |- within _ (if ?b then _ else _) => destruct b
  | |- within _ (match ?x with _ => _ end) => destruct x
  end).

(** ** Fuel *)

(** Where [m] is not stuck, [m'] does the same. *)
Definition steady {S E A} (m m' : op S E A) : Prop := ∀ s, (m s).1 ≠ Stuck → m' s = m s.

Section steady.
Context {S E : Type}.

Lemma steady_refl {A} (m : op S E A) : steady m m.
Proof. by intros s. Qed.

Lemma steady_bind {A B} (m m' : op S E A) (f f' : A → op S E B) :
  steady m m' → (∀ a, steady (f a) (f' a)) → steady (m ≫= f) (m' ≫= f').
Proof.
  intros Hm Hf s. specialize (Hm s). unfold mbind, op_bind. destruct (m s) as [[a|e| |] s1]; cbn in *; intros Hs;
    rewrite ?Hm by done; try done. by apply Hf.
Qed.

Lemma steady_stuck {A} (m : op S E A) : steady stuck m.
Proof. by intros s []. Qed.
End steady.

(** Compares two computations that differ in their fuel. *)
Ltac steadies := repeat (lazymatch goal with
  | |- steady ?m ?m => apply steady_refl
  | |- steady stuck _ => apply steady_stuck
  | |- steady (_ ≫= _) (_ ≫= _) => apply steady_bind; [|intros ?]
  | |- steady (match ?x with _ => _ end) _ => destruct x
  end).

(** More fuel does not change what a computation does, once it is enough. *)
Definition fueled {S E A} (m : nat → op S E A) : Prop := ∀ n k, (n ≤ k)%nat → steady (m n) (m k).

(** With enough fuel the computation comes back. *)
Definition enough {S E A} (m : nat → op S E A) (s : S) : Prop :=
  ∃ N, ∀ fuel, (N ≤ fuel)%nat → (m fuel s).1 ≠ Stuck.

(** Computations that need no fuel. *)
Definition unstuck {S E A} (m : op S E A) : Prop := ∀ s, (m s).1 ≠ Stuck.

Section enough.
Context {S E : Type}.

Lemma unstuck_bind {A B} (m : op S E A) (f : A → op S E B) : unstuck m → (∀ a, unstuck (f a)) → unstuck (m ≫= f).
Proof.
  intros Hm Hf s. specialize (Hm s). unfold mbind, op_bind. destruct (m s) as [[a|e| |] s']; try done. apply Hf.
Qed.

Lemma unstuck_self {B} (f : S → op S E B) : (∀ s, unstuck (f s)) → unstuck (self ≫= f).
Proof. intros Hf s. apply Hf. Qed.

Lemma unstuck_ready {A} (m : op S E (poll A)) : unstuck m → unstuck (ready m).
Proof. intros Hm. apply unstuck_bind; [done|]. by intros [a|] s. Qed.

Lemma enough_unstuck {A} (m : op S E A) s : unstuck m → enough (λ _, m) s.
Proof. intros Hm. by exists 0%nat. Qed.

Lemma enough_bind {A B} (m : nat → op S E A) (f : nat → A → op S E B) s :
  fueled m → enough m s → (∀ n a s', m n s = (Done a, s') → enough (λ fuel, f fuel a) s') →
  enough (λ fuel, m fuel ≫= f fuel) s.
Proof.
  intros Hm [N HN] Hf. pose proof (HN N (le_n N)) as H0. destruct (m N s) as [o s'] eqn:Em.
  assert (∀ fuel, (N ≤ fuel)%nat → m fuel s = (o, s')) as Hfix.
  { intros fuel Hle. rewrite (Hm N fuel Hle s); [done|]. by rewrite Em. }
  destruct o as [a|e| |]; [|exists N; intros fuel Hle; unfold mbind, op_bind; by rewrite (Hfix fuel Hle)..].
  destruct (Hf N a s' Em) as [N' HN']. exists (N + N')%nat. intros fuel Hle. unfold mbind, op_bind.
  rewrite (Hfix fuel) by lia. apply HN'. lia.
Qed.

Lemma enough_then {A B} (m : op S E A) (f : nat → A → op S E B) s :
  unstuck m → wp m (λ o s', if o is Done a then enough (λ fuel, f fuel a) s' else True) s →
  enough (λ fuel, m ≫= f fuel) s.
Proof.
  intros Hm Hw. apply (enough_bind (λ _, m)); [|by apply enough_unstuck|].
  - intros n k _. apply steady_refl.
  - intros _ a s' E'. unfold wp in Hw. by rewrite E' in Hw.
Qed.

(** What comes back does not depend on the fuel, once it is enough. *)
Lemma enough_same {A} (m : nat → op S E A) s : fueled m → enough m s →
  ∃ N o s', o ≠ Stuck ∧ ∀ fuel, (N ≤ fuel)%nat → m fuel s = (o, s').
Proof.
  intros Hm [N HN]. exists N, (m N s).1, (m N s).2. split; [by apply HN|]. intros fuel Hle.
  rewrite (Hm N fuel Hle s) by (by apply HN). by destruct (m N s).
Qed.
End enough.

(** Takes a computation without fuel apart. *)
Ltac unsticks := repeat (lazymatch goal with
  | |- unstuck (self ≫= _) => apply unstuck_self; intros ?
  | |- unstuck (_ ≫= _) => apply unstuck_bind; [|intros ?]
  | |- unstuck (ready _) => apply unstuck_ready
  | |- unstuck (if ?b then _ else _) => destruct b
  | |- unstuck (match ?x with _ => _ end) => destruct x
  | |- unstuck (mret _) => by intros ?
  | |- unstuck (fail _) => by intros ?
  | |- unstuck wait => by intros ?
  | |- unstuck (modify _) => by intros ?
  end).
