(* ===== verification/DateCache.v ===== *)
(** * The cached date (src/src/h2/date.rs, src/src/h3/date.rs)

    [DateCache]: the text of the Date header, made again when the second has
    changed.  A time is the number of nanoseconds since 1970; the text of a time
    is made by [httpdate], and an octet string becomes a header value in the
    [http] crate: the operations of the section.  Whether the lock of the cache
    can be had is an argument. *)

From S2P Require Import Prelude.

Section cache.
Context (fmt_http_date : Z → bytes) (header_value : bytes → option bytes).

(** [duration_since(UNIX_EPOCH).ok().map(|d| d.as_secs())]. *)
Definition as_secs (t : Z) : option Z := if t <? 0 then None else Some (t / 10 ^ 9).

Definition DateCache : Type := option (bytes * Z).
Definition new_cache : DateCache := None.

(** Whether the text is out of date. *)
Definition stale (now : Z) (c : DateCache) : bool :=
  from_option (λ v, negb (bool_decide (as_secs v.2 = as_secs now))) true c.

Definition get_date_header_value (free : bool) (now : Z) (c : DateCache) : option bytes * DateCache :=
  if negb free then (None, c)
  else
    let c := if stale now c then Some (fmt_http_date now, now) else c in
    (header_value (from_option fst [] c), c).

(** ** The cache cannot be told from no cache *)

(** A date has whole seconds. *)
Context (whole_seconds : ∀ s t, as_secs s = as_secs t → as_secs s ≠ None → fmt_http_date s = fmt_http_date t).

(** The text is that of its time, which is not before 1970. *)
Definition cache_ok (c : DateCache) : Prop := ∀ v, c = Some v → v.1 = fmt_http_date v.2 ∧ 0 ≤ v.2.

Lemma cache_current free now c : 0 ≤ now → cache_ok c →
  cache_ok (get_date_header_value free now c).2
  ∧ (get_date_header_value free now c).1 = if free then header_value (fmt_http_date now) else None.
Proof.
  intros Hnow Hc. unfold get_date_header_value. destruct free; cbn [negb fst snd]; [|by split]. destruct (stale now c) eqn:Es; cbn.
  - split; [|done]. by intros v [= <-].
  - split; [exact Hc|]. destruct c as [[value t]|]; [|done]. destruct (Hc _ eq_refl) as [Hv Ht]. cbn in *.
    unfold stale in Es. cbn in Es. apply negb_false_iff, bool_decide_eq_true in Es. rewrite Hv. f_equal. apply whole_seconds; [exact Es|].
    unfold as_secs. by rewrite (proj2 (Z.ltb_ge _ _) Ht).
Qed.

(** The clock's readings, and whether the lock was had. *)
Fixpoint dates (l : list (bool * Z)) (c : DateCache) : list (option bytes) :=
  match l with
  | [] => []
  | (free, now) :: l => let '(r, c) := get_date_header_value free now c in r :: dates l c
  end.

Lemma dates_current l : ∀ c, Forall (λ x, 0 ≤ x.2) l → cache_ok c →
  dates l c = (λ x : bool * Z, if x.1 then header_value (fmt_http_date x.2) else None) <$> l.
Proof.
  induction l as [|[free now] l IH]; intros c Hl Hc; [done|]. apply Forall_cons in Hl as [Hnow Hl]. cbn [dates].
  destruct (cache_current free now c Hnow Hc) as [Hok Hr]. destruct (get_date_header_value free now c) as [r c']. cbn in *.
  by rewrite Hr, IH.
Qed.
End cache.

(** Whatever the clock reads, even when it is set back: every date is the date
    of the moment it is asked for, as without the cache. *)
Theorem date_cache_transparent (fmt_http_date : Z → bytes) (header_value : bytes → option bytes) l :
  (∀ s t, as_secs s = as_secs t → as_secs s ≠ None → fmt_http_date s = fmt_http_date t) → Forall (λ x, 0 ≤ x.2) l →
  dates fmt_http_date header_value l new_cache = (λ x : bool * Z, if x.1 then header_value (fmt_http_date x.2) else None) <$> l.
Proof. intros Hs Hl. by apply dates_current. Qed.

(** A clock that is set back. *)
Example date_cache_example :
  let secs t := [t / 10 ^ 9] in
  dates secs Some [(true, 5 * 10 ^ 9); (true, 5 * 10 ^ 9 + 7); (false, 6 * 10 ^ 9); (true, 4 * 10 ^ 9)] new_cache
    = [Some [5]; Some [5]; None; Some [4]].
Proof. by vm_compute. Qed.
