(* ===== verification/H2Service.v ===== *)
(** * The stream tasks of HTTP/2 (src/src/h2/stream/service.rs)

    [StreamDriver]: one task per request, which polls the user's handler and
    the body of its response and hands what they give to the connection, message
    by message, over a channel of eight.  The handler, the body, the channel and
    the resets of the peer are the environment, the class [StreamTask].

    The handler runs in an async block, which panics when it is polled after it
    has completed; that is the error of the computations here. *)

From S2P Require Import Prelude H2Error H2Connection Poll.

Abbreviation fields := (list (bytes * bytes)) (only parsing).

(** ** The environment *)

(** A frame of the response body: [into_data], [into_trailers], or neither. *)
Inductive BodyFrame : Type :=
| FrameData (data : bytes)
| FrameTrailers (trailers : fields)
| FrameOther.

(** A response: [is_end_stream] is what its body says before it is polled. *)
Record Response : Type := MkResponse {
  status : Z;
  headers : fields;
  is_end_stream : bool;
}.

Class StreamTask (T : Type) : Type := {
  (** [response_fut.poll], [reset_rx.recv()], the flag of [send_continue_body],
      [early_hints_rx.poll_recv] and the answer to its sender. *)
  poll_response : T → poll (result () Response) * T;
  poll_reset_rx : T → poll () * T;
  load_continue : T → bool * T;
  poll_hint : T → poll (option fields) * T;
  answer_hint : T → T;
  (** A poll of [msg_tx.send(msg)], and [wake_tx.try_send(())]. *)
  poll_channel : StreamMsg → T → poll (result () ()) * T;
  try_wake : T → T;
  (** [body.poll_frame] and [body.is_end_stream()]. *)
  poll_body_frame : T → poll (option (result () BodyFrame)) * T;
  body_is_end_stream : T → bool;
}.

(** ** The state *)

(** [StreamDriverState]; [completed] is that of [response_fut], [body] and
    [send_continue_body] say whether there is one. *)
Record ServiceState : Type := MkService {
  completed : bool;
  response_done : bool;
  parts : option (Z * fields);
  body : bool;
  send_continue : bool;
  send_continue_body : bool;
  continue_sent : bool;
  early_hints_open : bool;
  extended_connect : bool;
  is_head : bool;
}.

Record BodyState : Type := MkBody {
  body_parts : option (Z * fields);
  body_end : bool;
  first_frame : option BodyFrame;
}.

Inductive StreamDriverState : Type :=
| InService (v : ServiceState)
| InBody (v : BodyState).

Record StreamDriver (T : Type) : Type := MkDriver {
  msg_tx_fut : option StreamMsg;
  queue : list StreamMsg;
  done : bool;
  driver_state : StreamDriverState;
  env : T;
}.
Arguments MkDriver {T}.
Arguments msg_tx_fut {T}.
Arguments queue {T}.
Arguments done {T}.
Arguments driver_state {T}.
Arguments env {T}.

(** [StreamDriver::new]. *)
Definition new_driver {T} (send_continue send_continue_body extended_connect is_head : bool) (t : T) : StreamDriver T :=
  MkDriver None [] false
    (InService (MkService false false None false send_continue send_continue_body false true extended_connect is_head)) t.

(** *** Updates *)

Definition set_responded (v : ServiceState) : ServiceState :=
  MkService (completed v) true (parts v) (body v) (send_continue v) (send_continue_body v) (continue_sent v)
    (early_hints_open v) (extended_connect v) (is_head v).
Definition set_completed (v : ServiceState) : ServiceState :=
  MkService true (response_done v) (parts v) (body v) (send_continue v) (send_continue_body v) (continue_sent v)
    (early_hints_open v) (extended_connect v) (is_head v).
Definition set_parts (p : option (Z * fields)) (v : ServiceState) : ServiceState :=
  MkService (completed v) (response_done v) p (body v) (send_continue v) (send_continue_body v) (continue_sent v)
    (early_hints_open v) (extended_connect v) (is_head v).
Definition set_body (has : bool) (v : ServiceState) : ServiceState :=
  MkService (completed v) (response_done v) (parts v) has (send_continue v) (send_continue_body v) (continue_sent v)
    (early_hints_open v) (extended_connect v) (is_head v).
Definition set_continue_sent (v : ServiceState) : ServiceState :=
  MkService (completed v) (response_done v) (parts v) (body v) (send_continue v) (send_continue_body v) true
    (early_hints_open v) (extended_connect v) (is_head v).
Definition set_hints_closed (v : ServiceState) : ServiceState :=
  MkService (completed v) (response_done v) (parts v) (body v) (send_continue v) (send_continue_body v) (continue_sent v)
    false (extended_connect v) (is_head v).

Definition set_body_parts (p : option (Z * fields)) (v : BodyState) : BodyState := MkBody p (body_end v) (first_frame v).
Definition set_body_end (v : BodyState) : BodyState := MkBody (body_parts v) true (first_frame v).
Definition set_first_frame (o : option BodyFrame) (v : BodyState) : BodyState := MkBody (body_parts v) (body_end v) o.

(** ** Errors *)

(** What cannot be polled again. *)
Inductive Panic : Type := PolledAfterCompletion.

(** What [poll_service] returns beside [Pending]. *)
Inductive ServicePoll : Type := ServiceDone | ServiceBody.

Section task.
Context {T : Type} `{StreamTask T}.

Abbreviation task A := (op (StreamDriver T) Panic A).

Definition set_fut (o : option StreamMsg) : task () :=
  modify (λ s, MkDriver o (queue s) (done s) (driver_state s) (env s)).
Definition set_queue (l : list StreamMsg) : task () :=
  modify (λ s, MkDriver (msg_tx_fut s) l (done s) (driver_state s) (env s)).
Definition set_done : task () :=
  modify (λ s, MkDriver (msg_tx_fut s) (queue s) true (driver_state s) (env s)).
Definition set_state (v : StreamDriverState) : task () :=
  modify (λ s, MkDriver (msg_tx_fut s) (queue s) (done s) v (env s)).
Definition on_service (f : ServiceState → ServiceState) : task () :=
  modify (λ s, MkDriver (msg_tx_fut s) (queue s) (done s)
    (match driver_state s with InService v => InService (f v) | v => v end) (env s)).
Definition on_body (f : BodyState → BodyState) : task () :=
  modify (λ s, MkDriver (msg_tx_fut s) (queue s) (done s)
    (match driver_state s with InBody v => InBody (f v) | v => v end) (env s)).

(** A call of the environment. *)
Definition ask {A} (f : T → A * T) : task A := λ s,
  let '(a, t) := f (env s) in (Done a, MkDriver (msg_tx_fut s) (queue s) (done s) (driver_state s) t).
Definition tell (f : T → T) : task () := ask (λ t, ((), f t)).

(** ** The channel *)

(** [msg_tx.send(msg)], polled once. *)
Definition start_send (msg : StreamMsg) : task () :=
  _ ← set_fut (Some msg);
  r ← ready (ask (poll_channel msg));
  match r with
  | Ok _ => _ ← set_fut None; tell try_wake
  | Err _ => set_fut None
  end.

(** [send]: the message is delivered, or the connection is gone; [Pending] when
    the channel is full, with the message in [msg_tx_fut]. *)
Definition send (msg : StreamMsg) : task () :=
  s ← self;
  match msg_tx_fut s with
  | Some earlier =>
      r ← ready (ask (poll_channel earlier));
      match r with
      | Ok _ => _ ← set_fut None; _ ← tell try_wake; start_send msg
      | Err _ => mret ()
      end
  | None => start_send msg
  end.

(** ** [poll_service] *)

Definition CONTINUE : Z := 100.
Definition EARLY_HINTS : Z := 103.

(** [is_client_error() || is_server_error()]. *)
Definition is_error_status (status : Z) : bool := (400 <=? status) && (status <? 600).

(** The response has come. *)
Definition take_response (v : ServiceState) (r : Response) : task () :=
  _ ← (if send_continue v && negb (continue_sent v) then
         _ ← (if is_error_status (status r) then mret () else send (MsgInformational CONTINUE []));
         on_service set_continue_sent
       else mret ());
  let '(ends, has_body) := if is_head v then (true, false) else (is_end_stream r, true) in
  _ ← (if ends || extended_connect v then send (MsgHeaders (status r) (headers r) ends)
       else on_service (set_parts (Some (status r, headers r))));
  _ ← on_service (set_body has_body);
  on_service set_responded.

(** What an early hint becomes. *)
Definition forward_hint (hint : fields) : task () :=
  _ ← send (MsgInformational EARLY_HINTS hint);
  tell answer_hint.

(** The [loop] of [poll_service]; a turn that continues takes a response, a hint
    or the demand for [100 Continue]. *)
Fixpoint poll_service (fuel : nat) : task ServicePoll :=
  match fuel with
  | O => stuck
  | S fuel =>
      s ← self;
      match driver_state s with
      | InBody _ => stuck
      | InService v =>
          if response_done v then
            if body v then _ ← on_service (set_body false); mret ServiceBody else mret ServiceDone
          else if completed v then fail PolledAfterCompletion
          else
            r ← ask poll_response;
            match r with
            | Ready (Err _) => _ ← on_service set_completed; _ ← on_service set_responded; poll_service fuel
            | Ready (Ok response) => _ ← on_service set_completed; _ ← take_response v response; poll_service fuel
            | Pending =>
                reset ← ask poll_reset_rx;
                match reset with
                | Ready _ => mret ServiceDone
                | Pending =>
                    wanted ← (if send_continue v && negb (continue_sent v) && send_continue_body v
                              then ask load_continue else mret false);
                    if wanted : bool then
                      _ ← send (MsgInformational CONTINUE []);
                      _ ← on_service set_continue_sent;
                      poll_service fuel
                    else if early_hints_open v then
                      hint ← ask poll_hint;
                      match hint with
                      | Ready (Some hint) => _ ← forward_hint hint; poll_service fuel
                      | Ready None => _ ← on_service set_hints_closed; poll_service fuel
                      | Pending => wait
                      end
                    else wait
                end
            end
      end
  end.

(** ** [poll_body] *)

(** Whether a frame that has been read needs the response's head before it. *)
Definition head_first (v : BodyState) (frame : BodyFrame) : task bool :=
  match body_parts v with
  | Some (status, headers) =>
      _ ← on_body (set_body_parts None);
      _ ← on_body (set_first_frame (Some frame));
      _ ← set_fut (Some (MsgHeaders status headers false));
      mret true
  | None => mret false
  end.

(** The body frame [frame] as a message; false when the task ends with it. *)
Definition forward_frame (frame : BodyFrame) : task bool :=
  s ← self;
  match frame with
  | FrameData data =>
      let end_stream := body_is_end_stream (env s) in
      if bool_decide (data = []) && negb end_stream then mret true
      else _ ← set_fut (Some (MsgData data end_stream)); mret true
  | FrameTrailers trailers => _ ← set_fut (Some (MsgTrailers trailers)); _ ← on_body set_body_end; mret true
  | FrameOther => mret false
  end.

(** The end of the body. *)
Definition finish_body (v : BodyState) : task () :=
  match body_parts v with
  | Some (status, headers) =>
      _ ← on_body (set_body_parts None);
      _ ← set_fut (Some (MsgHeaders status headers true));
      on_body set_body_end
  | None => _ ← set_fut (Some (MsgData [] true)); on_body set_body_end
  end.

(** The frame kept back for the head, or the next one of the body. *)
Definition next_body_frame (v : BodyState) : task (poll (option (result () BodyFrame))) :=
  match first_frame v with
  | Some frame => _ ← on_body (set_first_frame None); mret (Ready (Some (Ok frame)))
  | None => ask poll_body_frame
  end.

(** A turn of the loop of [poll_body], behind what was on its way. *)
Definition body_turn (again : bool → task ()) (flush : bool) (v : BodyState) : task () :=
  reset ← ask poll_reset_rx;
  match reset with
  | Ready _ => mret ()
  | Pending =>
      frame ← next_body_frame v;
      match frame with
      | Ready (Some (Ok frame)) =>
          kept ← head_first v frame;
          if kept : bool then again flush
          else more ← forward_frame frame; if more : bool then again flush else mret ()
      | Ready (Some (Err _)) =>
          _ ← set_fut (Some (MsgReset (code InternalError))); _ ← on_body set_body_end; again flush
      | Ready None => _ ← finish_body v; again flush
      | Pending => _ ← (if flush : bool then tell try_wake else mret ()); wait
      end
  end.

(** [poll_body]; a turn sends what is on its way, or takes a frame. *)
Fixpoint poll_body (fuel : nat) (flush : bool) : task () :=
  match fuel with
  | O => stuck
  | S fuel =>
      s ← self;
      let pause := _ ← (if flush : bool then tell try_wake else mret ()); wait in
      sent ← match msg_tx_fut s with
             | Some msg =>
                 r ← ask (poll_channel msg);
                 match r with
                 | Ready r => _ ← set_fut None; mret (Some r)
                 | Pending => pause
                 end
             | None => mret None
             end;
      s ← self;
      match driver_state s, sent with
      | InService _, _ => stuck
      | _, Some (Err _) => mret ()
      | InBody v, _ =>
          let flush := flush || (if sent is Some _ then negb (body_end v) else false) in
          if body_end v then mret () else body_turn (poll_body fuel) flush v
      end
  end.

(** ** [StreamDriver::poll] *)

(** The state in which the task is, until it has nothing left to hand over. *)
Definition drive (fuel : nat) (v : StreamDriverState) : task bool :=
  match v with
  | InService _ =>
      p ← poll_service fuel;
      match p with
      | ServiceDone => mret false
      | ServiceBody =>
          s ← self;
          _ ← match driver_state s with
              | InService v => set_state (InBody (MkBody (parts v) false None))
              | InBody _ => mret ()
              end;
          mret true
      end
  | InBody _ => _ ← poll_body fuel false; mret false
  end.

(** [poll]; [turns] bounds the turns of its loop, [fuel] those of the loops
    inside. *)
Fixpoint poll_driver (fuel turns : nat) : task () :=
  match turns with
  | O => stuck
  | S turns =>
      s ← self;
      sent ← match msg_tx_fut s with
             | Some msg =>
                 r ← ready (ask (poll_channel msg));
                 _ ← set_fut None;
                 match r with Ok _ => _ ← tell try_wake; mret true | Err _ => mret false end
             | None => mret true
             end;
      if negb sent then mret ()
      else match queue s with
      | msg :: queue => _ ← set_queue queue; _ ← set_fut (Some msg); poll_driver fuel turns
      | [] =>
          if done s then mret ()
          else
            again ← drive fuel (driver_state s);
            if again : bool then poll_driver fuel turns
            else
              s ← self;
              _ ← set_queue (queue s ++ [MsgClosed]);
              _ ← set_done;
              poll_driver fuel turns
      end
  end.

(** *** Rules *)

Lemma wp_fut o Q s : wp (set_fut o) Q s ↔ Q (Done ()) (MkDriver o (queue s) (done s) (driver_state s) (env s)).
Proof. done. Qed.

Lemma wp_queue l Q s : wp (set_queue l) Q s ↔ Q (Done ()) (MkDriver (msg_tx_fut s) l (done s) (driver_state s) (env s)).
Proof. done. Qed.

Lemma wp_set_done Q s : wp set_done Q s ↔ Q (Done ()) (MkDriver (msg_tx_fut s) (queue s) true (driver_state s) (env s)).
Proof. done. Qed.

Lemma wp_state v Q s : wp (set_state v) Q s ↔ Q (Done ()) (MkDriver (msg_tx_fut s) (queue s) (done s) v (env s)).
Proof. done. Qed.

Lemma wp_service f Q fut q d v t :
  wp (on_service f) Q (MkDriver fut q d (InService v) t) ↔ Q (Done ()) (MkDriver fut q d (InService (f v)) t).
Proof. done. Qed.

Lemma wp_body f Q fut q d v t :
  wp (on_body f) Q (MkDriver fut q d (InBody v) t) ↔ Q (Done ()) (MkDriver fut q d (InBody (f v)) t).
Proof. done. Qed.

Lemma wp_ask {A} (f : T → A * T) Q s :
  wp (ask f) Q s ↔ Q (Done (f (env s)).1) (MkDriver (msg_tx_fut s) (queue s) (done s) (driver_state s) (f (env s)).2).
Proof. unfold wp, ask. by destruct (f (env s)). Qed.

Lemma wp_tell f Q s :
  wp (tell f) Q s ↔ Q (Done ()) (MkDriver (msg_tx_fut s) (queue s) (done s) (driver_state s) (f (env s))).
Proof. apply wp_ask. Qed.
End task.

(** Steps that need no case analysis. *)
Ltac tsteps := cbn [andthen msg_tx_fut queue done driver_state env fst snd negb]; repeat (first
  [ lazymatch goal with
    | |- wp (self ≫= _) _ _ => apply wp_self
    | |- wp (_ ≫= _) _ _ => apply wp_bind
    | |- wp (set_fut _) _ _ => apply wp_fut
    | |- wp (set_queue _) _ _ => apply wp_queue
    | |- wp set_done _ _ => apply wp_set_done
    | |- wp (set_state _) _ _ => apply wp_state
    | |- wp (on_service _) _ _ => apply wp_service
    | |- wp (on_body _) _ _ => apply wp_body
    | |- wp (ready _) _ _ => apply wp_ready
    | |- wp (tell _) _ _ => apply wp_tell
    | |- wp (ask _) _ _ => apply wp_ask
    | |- wp (mret _) _ _ => apply wp_ret
    | |- wp (fail _) _ _ => apply wp_fail
    end ]; cbn [andthen msg_tx_fut queue done driver_state env fst snd negb]).
