(* ===== verification/H2ServiceSpec.v ===== *)
(** * What a stream task tells the connection

    The task of H2Service polls four things and waits for a channel; what comes
    out of it is, message by message, what the handler and the body of its
    response gave, as if nothing had ever had to wait.  [meant] says what that
    is; the exception is a response that comes when the channel is full. *)

From S2P Require Import Prelude H2Error H2Connection Poll H2Service.

(** ** What happened to a task *)

(** [Framed f last]: a frame of the body, and whether the body says it was the
    last; [Handed m] and [Blocked m]: the channel took the message, or was full. *)
Inductive task_event : Type :=
| Responded (r : result () Response)
| ResetSeen
| ContinueWanted
| Hinted (hint : fields)
| Framed (f : BodyFrame) (last : bool)
| BodyEnded
| BodyFailed
| Handed (msg : StreamMsg) (accepted : bool)
| Blocked (msg : StreamMsg).

Definition response_event (r : poll (result () Response)) : list task_event :=
  match r with Ready r => [Responded r] | Pending => [] end.
Definition reset_event (r : poll ()) : list task_event := match r with Ready _ => [ResetSeen] | Pending => [] end.
Definition continue_event (wanted : bool) : list task_event := if wanted then [ContinueWanted] else [].
Definition hint_event (r : poll (option fields)) : list task_event :=
  match r with Ready (Some hint) => [Hinted hint] | _ => [] end.
Definition channel_event (msg : StreamMsg) (r : poll (result () ())) : task_event :=
  match r with Ready (Ok _) => Handed msg true | Ready (Err _) => Handed msg false | Pending => Blocked msg end.
Definition frame_event (r : poll (option (result () BodyFrame))) (last : bool) : list task_event :=
  match r with
  | Ready (Some (Ok f)) => [Framed f last] | Ready (Some (Err _)) => [BodyFailed]
  | Ready None => [BodyEnded] | Pending => []
  end.

(** An environment that remembers; whether the body is at its end is only
    changed by polling it. *)
Class RecordedTask (T : Type) `{StreamTask T} : Type := {
  past : T → list task_event;
  past_response t : past (poll_response t).2 = past t ++ response_event (poll_response t).1;
  past_reset t : past (poll_reset_rx t).2 = past t ++ reset_event (poll_reset_rx t).1;
  past_continue t : past (load_continue t).2 = past t ++ continue_event (load_continue t).1;
  past_hint t : past (poll_hint t).2 = past t ++ hint_event (poll_hint t).1;
  past_answer t : past (answer_hint t) = past t;
  past_channel msg t : past (poll_channel msg t).2 = past t ++ [channel_event msg (poll_channel msg t).1];
  past_wake t : past (try_wake t) = past t;
  past_frame t : past (poll_body_frame t).2
    = past t ++ frame_event (poll_body_frame t).1 (body_is_end_stream (poll_body_frame t).2);
  end_reset t : body_is_end_stream (poll_reset_rx t).2 = body_is_end_stream t;
  end_channel msg t : body_is_end_stream (poll_channel msg t).2 = body_is_end_stream t;
  end_wake t : body_is_end_stream (try_wake t) = body_is_end_stream t;
}.

(** The messages the channel was done with. *)
Definition handed (h : list task_event) : list StreamMsg :=
  omap (λ ev, match ev with Handed m _ => Some m | _ => None end) h.

#[global] Arguments handed : simpl never.

Lemma handed_snoc h ev : handed (h ++ [ev]) = handed h ++ match ev with Handed m _ => [m] | _ => [] end.
Proof. unfold handed. rewrite omap_app. by destruct ev. Qed.

Definition in_flight (o : option StreamMsg) : list StreamMsg := match o with Some m => [m] | None => [] end.

(** ** What is meant *)

(** How a task was created. *)
Record Config : Type := MkConfig {
  with_continue : bool;
  with_continue_body : bool;
  of_connect : bool;
  of_head : bool;
}.

(** Whether [100 Continue] has been sent, and the head of the response while it
    waits for the first frame of the body. *)
Record Meant : Type := MkMeant { told_continue : bool; waiting_head : option (Z * fields) }.

Definition frame_msgs (f : BodyFrame) (last : bool) : list StreamMsg :=
  match f with
  | FrameData data => if bool_decide (data = []) && negb last then [] else [MsgData data last]
  | FrameTrailers trailers => [MsgTrailers trailers]
  | FrameOther => []
  end.

Definition head_msgs (o : option (Z * fields)) (ends : bool) : list StreamMsg :=
  match o with Some (status, headers) => [MsgHeaders status headers ends] | None => [] end.

(** An event, as the connection is to be told of it.  A demand for
    [100 Continue] whose message has to wait is made again. *)
Definition meant_step (cfg : Config) (st : Meant) (ev : task_event) : list StreamMsg * Meant :=
  match ev with
  | Responded (Ok r) =>
      let interim := if with_continue cfg && negb (told_continue st) && negb (is_error_status (status r))
                     then [MsgInformational CONTINUE []] else [] in
      let ends := of_head cfg || is_end_stream r in
      if ends || of_connect cfg
      then (interim ++ [MsgHeaders (status r) (headers r) ends], MkMeant (told_continue st) None)
      else (interim, MkMeant (told_continue st) (Some (status r, headers r)))
  | Hinted hint => ([MsgInformational EARLY_HINTS hint], st)
  | ContinueWanted => ([MsgInformational CONTINUE []], MkMeant true (waiting_head st))
  | Blocked (MsgInformational status _) =>
      ([], if status =? CONTINUE then MkMeant false (waiting_head st) else st)
  | Framed f last => (head_msgs (waiting_head st) false ++ frame_msgs f last, MkMeant (told_continue st) None)
  | BodyEnded =>
      (match waiting_head st with Some _ => head_msgs (waiting_head st) true | None => [MsgData [] true] end,
       MkMeant (told_continue st) None)
  | BodyFailed => ([MsgReset (code InternalError)], st)
  | Responded (Err _) | ResetSeen | Handed _ _ | Blocked _ => ([], st)
  end.

Definition meant_from (cfg : Config) : list StreamMsg * Meant → list task_event → list StreamMsg * Meant :=
  foldl (λ m ev, let '(msgs, st) := meant_step cfg m.2 ev in (m.1 ++ msgs, st)).
Definition meant (cfg : Config) (h : list task_event) : list StreamMsg * Meant :=
  meant_from cfg ([], MkMeant false None) h.

Lemma meant_snoc cfg h ev : meant cfg (h ++ [ev])
  = ((meant cfg h).1 ++ (meant_step cfg (meant cfg h).2 ev).1, (meant_step cfg (meant cfg h).2 ev).2).
Proof.
  unfold meant, meant_from. rewrite foldl_app. cbn [foldl]. by destruct (meant_step _ _ _) as [msgs st].
Qed.

(** ** The order of the messages *)

Inductive phase : Type := Interim | Streaming | Ended.

#[global] Instance phase_eq_dec : EqDecision phase.
Proof. solve_decision. Defined.

(** Interim responses, one head, the body, and its end. *)
Definition msg_phase (p : phase) (m : StreamMsg) : option phase :=
  match p, m with
  | Interim, MsgInformational _ _ => Some Interim
  | Interim, MsgHeaders _ _ _ => Some Streaming
  | Streaming, MsgData _ _ => Some Streaming
  | Streaming, MsgTrailers _ => Some Ended
  | Interim, MsgReset _ | Streaming, MsgReset _ => Some Ended
  | _, _ => None
  end.

Definition phase_after (l : list StreamMsg) : option phase :=
  foldl (λ o m, p ← o; msg_phase p m) (Some Interim) l.

Lemma phase_snoc l m : phase_after (l ++ [m]) = p ← phase_after l; msg_phase p m.
Proof. unfold phase_after. by rewrite foldl_app. Qed.

(** ** The state of a task, against what is meant *)

Section spec.
Context {T : Type} `{RecordedTask T} (cfg : Config).

Abbreviation driver := (StreamDriver T).
Abbreviation task A := (op (StreamDriver T) Panic A).

Definition told (s : driver) : list StreamMsg := handed (past (env s)) ++ in_flight (msg_tx_fut s) ++ queue s.

(** The frame that waits for the head before it. *)
Definition kept_back (s : driver) : list StreamMsg :=
  match driver_state s with
  | InBody v => match first_frame v with Some f => frame_msgs f (body_is_end_stream (env s)) | None => [] end
  | InService _ => []
  end.

(** The response is lost: it was there when the channel was full. *)
Definition lost (s : driver) : bool :=
  match driver_state s with InService v => completed v && negb (response_done v) | InBody _ => false end.

Definition as_created (v : ServiceState) : Prop :=
  send_continue v = with_continue cfg ∧ send_continue_body v = with_continue_body cfg
  ∧ extended_connect v = of_connect cfg ∧ is_head v = of_head cfg.

(** The state, in a phase, agrees with what is meant. *)
Definition agrees (s : driver) (st : Meant) (p : phase) : Prop :=
  match driver_state s with
  | InService v =>
      as_created v ∧ parts v = waiting_head st
      ∧ (completed v = false → response_done v = false ∧ body v = false ∧ p = Interim ∧ waiting_head st = None
           ∧ continue_sent v = told_continue st
           ∧ (∀ headers, msg_tx_fut s = Some (MsgInformational CONTINUE headers) → continue_sent v = false))
      ∧ (body v = true → p = match parts v with Some _ => Interim | None => Streaming end)
  | InBody v =>
      body_end v = true ∧ first_frame v = None
      ∨ body_end v = false ∧ body_parts v = waiting_head st ∧ p = (match body_parts v with Some _ => Interim | None => Streaming end)
        ∧ (is_Some (first_frame v) → body_parts v = None)
  end.

(** [l] is what the task has told, without the notice of its end. *)
Definition faithful (s : driver) (l : list StreamMsg) : Prop :=
  let '(msgs, st) := meant cfg (past (env s)) in
  if lost s then l `prefix_of` msgs ∧ is_Some (phase_after l) ∧ ∃ m, Blocked m ∈ past (env s)
  else l ++ kept_back s = msgs ∧ ∃ p, phase_after l = Some p ∧ agrees s st p.

Definition consistent (s : driver) : Prop :=
  ∃ l, told s = l ++ (if done s then [MsgClosed] else []) ∧ faithful s l.

(** While the task polls its handler or its body, nothing is queued. *)
Definition working (s : driver) : Prop :=
  queue s = [] ∧ done s = false ∧ faithful s (handed (past (env s)) ++ in_flight (msg_tx_fut s)).

(** *** The channel *)

Lemma meant_channel h m r :
  (meant cfg (h ++ [channel_event m r])).1 = (meant cfg h).1
  ∧ waiting_head (meant cfg (h ++ [channel_event m r])).2 = waiting_head (meant cfg h).2
  ∧ (told_continue (meant cfg (h ++ [channel_event m r])).2 = told_continue (meant cfg h).2
     ∨ told_continue (meant cfg (h ++ [channel_event m r])).2 = false ∧ ∃ headers, m = MsgInformational CONTINUE headers).
Proof.
  rewrite meant_snoc. cbn [fst snd]. destruct r as [[[]|[]]|]; cbn; rewrite ?app_nil_r; auto.
  destruct m as [| status headers| | | |]; cbn; rewrite ?app_nil_r; auto.
  destruct (Z.eqb_spec status CONTINUE) as [->|]; cbn; rewrite ?app_nil_r; eauto 6.
Qed.

(** A poll of the message on its way changes nothing that is meant. *)
Lemma faithful_channel m r fut fut' q q' dn dn' v t t' l :
  faithful (MkDriver fut q dn v t) l → past t' = past t ++ [channel_event m r] →
  body_is_end_stream t' = body_is_end_stream t → fut = Some m → fut' = None ∨ fut' = Some m →
  faithful (MkDriver fut' q' dn' v t') l.
Proof.
  unfold faithful, kept_back, lost, agrees. cbn [driver_state env msg_tx_fut]. intros Hf Hp He -> Hfut. rewrite Hp, He.
  pose proof (meant_channel (past t) m r) as (Hm & Hw & Ht).
  destruct (meant cfg (past t)) as [msgs st], (meant cfg (past t ++ [channel_event m r])) as [msgs' st'].
  cbn [fst snd] in Hm, Hw, Ht. subst msgs'. destruct v as [v|v]; [|rewrite Hw; exact Hf].
  destruct (completed v && negb (response_done v)).
  { destruct Hf as (Hl & Hph & m' & Hm'). split; [done|]. split; [done|]. exists m'. apply elem_of_app. by left. }
  destruct Hf as [Hl (p & Hp' & Hc & Hparts & Hstart & Hbody)]. split; [done|]. exists p. rewrite Hw.
  repeat (split; [done|]). split; [|done]. intros Hcomp.
  destruct (Hstart Hcomp) as (Hr & Hb & -> & Hwait & Htold & Hfl). repeat (split; [done|]). split.
  - destruct Ht as [->|[-> [headers ->]]]; [done|]. by apply (Hfl headers).
  - intros headers E. destruct Hfut as [->| ->]; [done|]. by apply (Hfl headers).
Qed.

(** [send] with nothing on its way. *)
Lemma wp_send m Q v t :
  (∀ t' ok, past t' = past t ++ [Handed m ok] → Q (Done ()) (MkDriver None [] false v t')) →
  (∀ t', past t' = past t ++ [Blocked m] → Q Wait (MkDriver (Some m) [] false v t')) →
  wp (send m) Q (MkDriver None [] false v t).
Proof.
  intros Hdone Hwait. unfold send, start_send. tsteps. pose proof (past_channel m t) as Hp.
  destruct (poll_channel m t).1 as [[u|u]|]; tsteps.
  - apply (Hdone _ true). by rewrite past_wake.
  - by apply (Hdone _ false).
  - by apply Hwait.
Qed.

(** *** The handler *)

(** In the service, nothing on its way and the handler not done. *)
Definition serving (v : ServiceState) (h : list task_event) : Prop :=
  as_created v ∧ completed v = false ∧ response_done v = false ∧ parts v = None ∧ body v = false
  ∧ ∃ msgs st, meant cfg h = (msgs, st) ∧ msgs = handed h ∧ phase_after msgs = Some Interim
      ∧ waiting_head st = None ∧ continue_sent v = told_continue st.

Lemma serving_working v t : serving v (past t) → working (MkDriver None [] false (InService v) t).
Proof.
  intros (Hc & Hcomp & Hr & Hparts & Hb & msgs & st & Hm & Hh & Hp & Hw & Ht).
  split; [done|]. split; [done|]. unfold faithful, lost, kept_back, agrees.
  cbn [driver_state env msg_tx_fut in_flight]. rewrite Hm, Hcomp, !app_nil_r, <- Hh. split; [done|].
  exists Interim. split; [done|]. split; [done|]. split; [congruence|]. split; [by repeat split|]. by rewrite Hb.
Qed.

(** An event that tells the connection [m]: the message was sent at once, or waits. *)
Lemma serving_told v t t' ev m st :
  serving v (past t) → past t' = past t ++ [ev] →
  meant_step cfg (meant cfg (past t)).2 ev = ([m], st) → msg_phase Interim m = Some Interim → waiting_head st = None →
  (∀ t'' ok v', past t'' = past t' ++ [Handed m ok] → v' = v ∨ v' = set_continue_sent v →
     continue_sent v' = told_continue st → serving v' (past t''))
  ∧ (∀ t'', past t'' = past t' ++ [Blocked m] →
     continue_sent v = told_continue (meant_step cfg st (Blocked m)).2 →
     (∀ l, m = MsgInformational CONTINUE l → continue_sent v = false) →
     working (MkDriver (Some m) [] false (InService v) t'')).
Proof.
  intros (Hc & Hcomp & Hr & Hparts & Hb & msgs & st0 & Hm & Hh & Hp & _ & _) Hev Hstep Hph Hw.
  rewrite Hm in Hstep. cbn [snd] in Hstep. assert (meant cfg (past t') = (msgs ++ [m], st)) as Hm'.
  { rewrite Hev, meant_snoc, Hm. cbn [fst snd]. by rewrite Hstep. }
  assert (phase_after (msgs ++ [m]) = Some Interim) as Hp' by (rewrite phase_snoc, Hp; exact Hph).
  assert (handed (past t') = handed (past t)) as Hh'.
  { rewrite Hev, handed_snoc. destruct ev; try apply app_nil_r. discriminate Hstep. }
  split.
  - intros t'' ok v' Ht'' Hv' Hcont. assert (meant cfg (past t'') = (msgs ++ [m], st)) as Hm''.
    { rewrite Ht'', meant_snoc, Hm'. cbn. by rewrite app_nil_r. }
    split; [by destruct Hv' as [->| ->]|]. do 4 (split; [by destruct Hv' as [->| ->]|]).
    exists (msgs ++ [m]), st. split; [done|]. split; [by rewrite Ht'', handed_snoc, Hh', <- Hh|]. by repeat split.
  - intros t'' Ht'' Hcont Hfl. split; [done|]. split; [done|]. unfold faithful, lost, kept_back, agrees.
    cbn [driver_state env msg_tx_fut in_flight].
    pose proof (meant_channel (past t') m Pending) as (Hm1 & Hw1 & _). cbn [channel_event] in Hm1, Hw1.
    assert (meant cfg (past t'') = (msgs ++ [m], (meant_step cfg st (Blocked m)).2)) as ->.
    { rewrite Ht''. rewrite (surjective_pairing (meant cfg _)), Hm1, meant_snoc, Hm'. done. }
    rewrite Hcomp, Ht'', handed_snoc, Hh', <- Hh, !app_nil_r. split; [done|]. exists Interim. split; [done|].
    rewrite meant_snoc, Hm' in Hw1. cbn [snd] in Hw1. rewrite Hw1, Hw, Hb. split; [done|]. split; [done|]. split; [|done].
    intros _. split; [done|]. split; [done|]. split; [done|]. split; [done|]. split; [done|].
    intros l [= ->]. by apply (Hfl l).
Qed.

(** Events that say nothing. *)
Lemma serving_silent v t t' ev :
  serving v (past t) → past t' = past t ++ ev → ev = [] ∨ ev = [ResetSeen] → serving v (past t').
Proof.
  intros Hs -> [->| ->]; [by rewrite app_nil_r|].
  destruct Hs as (Hc & Hcomp & Hr & Hparts & Hb & msgs & st & Hm & Hh & Hp & Hw & Ht).
  do 5 (split; [done|]). exists msgs, st. rewrite meant_snoc, Hm, handed_snoc. cbn. by rewrite !app_nil_r.
Qed.

Lemma wp_forward_hint hint v t t' Q :
  serving v (past t) → past t' = past t ++ [Hinted hint] →
  (∀ t'', serving v (past t'') → Q (Done ()) (MkDriver None [] false (InService v) t'')) →
  (∀ s, working s → Q Wait s) →
  wp (forward_hint hint) Q (MkDriver None [] false (InService v) t').
Proof.
  intros Hs Hp Hdone Hwait. unfold forward_hint. tsteps.
  assert (continue_sent v = told_continue (meant cfg (past t)).2) as Hc.
  { destruct Hs as (_ & _ & _ & _ & _ & msgs & st & -> & _ & _ & _ & Ht). exact Ht. }
  assert (waiting_head (meant cfg (past t)).2 = None) as Hw.
  { destruct Hs as (_ & _ & _ & _ & _ & msgs & st & -> & _ & _ & Hw & _). exact Hw. }
  pose proof (serving_told v t t' _ _ _ Hs Hp eq_refl eq_refl Hw) as [Hnow Hlater].
  apply wp_send.
  - intros t'' ok Ht''. tsteps. apply Hdone. rewrite past_answer. by apply (Hnow t'' ok v Ht''); [left|].
  - intros t'' Ht''. apply Hwait. by apply Hlater.
Qed.

Lemma wp_continue {A} (k : task A) v t t' Q :
  serving v (past t) → past t' = past t ++ [ContinueWanted] → continue_sent v = false →
  (∀ t'', serving (set_continue_sent v) (past t'') →
     wp k Q (MkDriver None [] false (InService (set_continue_sent v)) t'')) →
  (∀ s, working s → Q Wait s) →
  wp (_ ← send (MsgInformational CONTINUE []); _ ← on_service set_continue_sent; k) Q (MkDriver None [] false (InService v) t').
Proof.
  intros Hs Hp Hc Hdone Hwait. tsteps.
  assert (waiting_head (meant cfg (past t)).2 = None) as Hw.
  { destruct Hs as (_ & _ & _ & _ & _ & msgs & st & -> & _ & _ & Hw & _). exact Hw. }
  pose proof (serving_told v t t' _ _ _ Hs Hp eq_refl eq_refl Hw) as [Hnow Hlater].
  apply wp_send.
  - intros t'' ok Ht''. tsteps. apply Hdone. by apply (Hnow t'' ok _ Ht''); [right|].
  - intros t'' Ht''. apply Hwait. by apply Hlater.
Qed.

(** The response has been taken; [l] is what is left to tell of it. *)
Definition answering (v : ServiceState) (h : list task_event) (l : list StreamMsg) (w : option (Z * fields)) : Prop :=
  as_created v ∧ completed v = true ∧ response_done v = false ∧ parts v = None
  ∧ (meant cfg h).1 = handed h ++ l ∧ waiting_head (meant cfg h).2 = w ∧ phase_after (handed h) = Some Interim.

Lemma answering_lost v t m l w :
  answering v (past t) (m :: l) w → is_Some (msg_phase Interim m) →
  ∀ t', past t' = past t ++ [Blocked m] → working (MkDriver (Some m) [] false (InService v) t').
Proof.
  intros (_ & Hcomp & Hr & _ & Hm & _ & Hp) [p Hph] t' Ht'. split; [done|]. split; [done|].
  unfold faithful, lost. cbn [driver_state env msg_tx_fut in_flight]. rewrite Hcomp, Hr. cbn [negb andb].
  pose proof (meant_channel (past t) m Pending) as [Hm1 _]. cbn [channel_event] in Hm1.
  rewrite Ht', (surjective_pairing (meant cfg (past t ++ _))), Hm1, Hm, handed_snoc, app_nil_r. split; [exists l; by rewrite <- app_assoc|].
  rewrite phase_snoc, Hp. cbn [mbind option_bind]. rewrite Hph. split; [eauto|]. exists m. apply elem_of_app. right. by left.
Qed.

Lemma answering_sent v t m l w t' ok :
  answering v (past t) (m :: l) w → past t' = past t ++ [Handed m ok] →
  (meant cfg (past t')).1 = handed (past t') ++ l ∧ waiting_head (meant cfg (past t')).2 = w
  ∧ phase_after (handed (past t')) = msg_phase Interim m.
Proof.
  intros (_ & _ & _ & _ & Hm & Hw & Hp) Ht'. pose proof (meant_channel (past t) m (Ready (if ok then Ok () else Err ()))) as (Hm1 & Hw1 & _).
  replace (channel_event m _) with (Handed m ok) in Hm1, Hw1 by (by destruct ok).
  rewrite Ht', Hm1, Hw1, Hm, Hw, handed_snoc, <- app_assoc, phase_snoc, Hp. done.
Qed.

(** The response has been taken, and told but for its head. *)
Definition answered (v : ServiceState) (h : list task_event) : Prop :=
  as_created v ∧ completed v = true ∧ response_done v = true
  ∧ (meant cfg h).1 = handed h ∧ parts v = waiting_head (meant cfg h).2
  ∧ ∃ p, phase_after (handed h) = Some p
      ∧ (body v = true → p = match parts v with Some _ => Interim | None => Streaming end).

Lemma answered_working v t : answered v (past t) → working (MkDriver None [] false (InService v) t).
Proof.
  intros (Hc & Hcomp & Hr & Hm & Hparts & p & Hp & Hb). split; [done|]. split; [done|].
  unfold faithful, lost, kept_back, agrees. cbn [driver_state env msg_tx_fut in_flight].
  rewrite (surjective_pairing (meant cfg (past t))), Hm, Hcomp, Hr, !app_nil_r. cbn [negb andb].
  split; [done|]. exists p. split; [done|]. split; [done|]. split; [done|]. by split.
Qed.

(** The head: sent at once when the response has no body to wait for. *)
Lemma wp_response_head v v1 (r : Response) t Q :
  let ends := is_head v || is_end_stream r in
  let head := MsgHeaders (status r) (headers r) ends in
  answering v1 (past t) (if ends || extended_connect v then [head] else [])
    (if ends || extended_connect v then None else Some (status r, headers r)) →
  (∀ v' t', answered v' (past t') → Q (Done ()) (MkDriver None [] false (InService v') t')) →
  (∀ s, working s → Q Wait s) →
  wp (let '(ends, has_body) := if is_head v then (true, false) else (is_end_stream r, true) in
      _ ← (if ends || extended_connect v then send (MsgHeaders (status r) (headers r) ends)
           else on_service (set_parts (Some (status r, headers r))));
      _ ← on_service (set_body has_body);
      on_service set_responded) Q (MkDriver None [] false (InService v1) t).
Proof.
  cbn zeta. intros Ha Hdone Hwait.
  replace (if is_head v then (true, false) else (is_end_stream r, true))
    with (is_head v || is_end_stream r, negb (is_head v)) by (by destruct (is_head v)).
  destruct ((is_head v || is_end_stream r) || extended_connect v) eqn:E; tsteps.
  - apply wp_send.
    + intros t' ok Ht'. tsteps. apply Hdone. destruct (answering_sent _ _ _ _ _ _ _ Ha Ht') as (Hm & Hw & Hp).
      destruct Ha as (Hc & Hcomp & Hr & Hparts & _). split; [done|]. split; [done|]. split; [done|].
      rewrite Hm, app_nil_r. split; [done|]. cbn. rewrite Hw, Hparts. split; [done|]. exists Streaming. by rewrite Hp.
    + intros t' Ht'. apply Hwait. eapply answering_lost; [exact Ha|by eexists|done].
  - apply Hdone. destruct Ha as (Hc & Hcomp & Hr & Hparts & Hm & Hw & Hp). split; [done|]. split; [done|]. split; [done|].
    rewrite Hm, app_nil_r. split; [done|]. cbn. rewrite Hw. split; [done|]. exists Interim. by rewrite Hp.
Qed.

Lemma wp_take_response v (r : Response) t t' Q :
  serving v (past t) → past t' = past t ++ [Responded (Ok r)] →
  (∀ v' t'', answered v' (past t'') → Q (Done ()) (MkDriver None [] false (InService v') t'')) →
  (∀ s, working s → Q Wait s) →
  wp (take_response v r) Q (MkDriver None [] false (InService (set_completed v)) t').
Proof.
  intros (Hc & Hcomp & Hr & Hparts & Hb & msgs & st & Hm & Hh & Hp & Hw & Ht) Hev Hdone Hwait.
  pose proof Hc as (Hc1 & _ & Hc3 & Hc4). unfold take_response. set (rest := let '(_, _) := _ in _).
  assert (∀ interim, interim = (if with_continue cfg && negb (told_continue st) && negb (is_error_status (status r))
                               then [MsgInformational CONTINUE []] else []) →
    answering (set_completed v) (past t')
      (interim ++ (if (is_head v || is_end_stream r) || extended_connect v
                   then [MsgHeaders (status r) (headers r) (is_head v || is_end_stream r)] else []))
      (if (is_head v || is_end_stream r) || extended_connect v then None else Some (status r, headers r))) as Ha.
  { intros interim ->. do 4 (split; [done|]). rewrite Hev, meant_snoc, Hm, handed_snoc. cbn [fst snd meant_step].
    rewrite Hc3, Hc4, app_nil_r, <- Hh.
    destruct ((of_head cfg || is_end_stream r) || of_connect cfg); cbn [fst snd waiting_head]; by rewrite ?app_nil_r. }
  rewrite Hc1, Ht. destruct (with_continue cfg && negb (told_continue st)) eqn:Econt; [|tsteps; by apply (wp_response_head v _ r t'); [exact (Ha [] eq_refl)|..]].
  cbn [andb] in Ha. destruct (is_error_status (status r)); [tsteps; by apply (wp_response_head v _ r t'); [exact (Ha [] eq_refl)|..]|].
  specialize (Ha _ eq_refl). tsteps. apply wp_send.
  - intros t'' ok Ht''. tsteps. apply (wp_response_head v _ r t''); [|done|done].
    destruct (answering_sent _ _ _ _ _ _ _ Ha Ht'') as (Hm' & Hw' & Hp'). by do 4 (split; [done|]).
  - intros t'' Ht''. apply Hwait. eapply answering_lost; [exact Ha|by eexists|done].
Qed.

(** What [poll_service] is called on, and the state a body is polled in. *)
Definition in_service (v : ServiceState) (t : T) : Prop :=
  serving v (past t) ∨ answered v (past t)
  ∨ completed v = true ∧ response_done v = false ∧ working (MkDriver None [] false (InService v) t).

Definition body_of (v : ServiceState) : StreamDriverState := InBody (MkBody (parts v) false None).

Lemma in_service_working v t : in_service v t → working (MkDriver None [] false (InService v) t).
Proof. intros [Hs|[Ha|[_ [_ Hw]]]]; [by apply serving_working|by apply answered_working|done]. Qed.

Lemma answered_body v t : answered v (past t) → body v = true → working (MkDriver None [] false (body_of v) t).
Proof.
  intros (Hc & Hcomp & Hr & Hm & Hparts & p & Hp & Hb) Hbody. split; [done|]. split; [done|].
  unfold faithful, lost, kept_back, agrees, body_of. cbn [driver_state env msg_tx_fut in_flight first_frame].
  rewrite (surjective_pairing (meant cfg (past t))), Hm, !app_nil_r. split; [done|]. exists p. split; [done|].
  right. cbn. split; [done|]. split; [done|]. split; [auto|]. by intros [? ?].
Qed.

Lemma serving_failed v t t' : serving v (past t) → past t' = past t ++ [Responded (Err ())] →
  answered (set_responded (set_completed v)) (past t').
Proof.
  intros (Hc & Hcomp & Hr & Hparts & Hb & msgs & st & Hm & Hh & Hp & Hw & Ht) Hev.
  do 3 (split; [done|]). rewrite Hev, meant_snoc, Hm, handed_snoc. cbn [fst snd meant_step]. rewrite !app_nil_r, <- Hh.
  split; [done|]. cbn. rewrite Hparts, Hw. split; [done|]. exists Interim. split; [done|]. by rewrite Hb.
Qed.

Lemma wp_poll_service fuel : ∀ v t Q,
  in_service v t →
  (∀ v' t', in_service v' t' → Q (Done ServiceDone) (MkDriver None [] false (InService v') t')) →
  (∀ v' t', working (MkDriver None [] false (body_of v') t') →
     Q (Done ServiceBody) (MkDriver None [] false (InService v') t')) →
  (∀ s, working s → Q Wait s ∧ Q Stuck s ∧ (lost s = true → Q (Fail PolledAfterCompletion) s)) →
  wp (poll_service fuel) Q (MkDriver None [] false (InService v) t).
Proof.
  induction fuel as [|fuel IH]; intros v t Q Hin Hend Hbody Hother; [by apply Hother, in_service_working|].
  cbn [poll_service]. tsteps. destruct (response_done v) eqn:Hr.
  { destruct (body v) eqn:Eb; tsteps; [|by apply Hend].
    apply Hbody. change (body_of (set_body false v)) with (body_of v). apply answered_body; [|done].
    destruct Hin as [(_ & _ & Hr' & _)|[Ha|(_ & Hr' & _)]]; [congruence|done|congruence]. }
  destruct (completed v) eqn:Hcomp; tsteps.
  { apply Hother; [by apply in_service_working|]. unfold lost. cbn. by rewrite Hcomp, Hr. }
  assert (serving v (past t)) as Hs.
  { destruct Hin as [Hs|[(_ & Hc & _)|(Hc & _)]]; [done|congruence..]. }
  clear Hin. pose proof (past_response t) as Hp. destruct (poll_response t) as [[[r|[]]|] t1]; cbn [fst snd response_event] in *.
  - tsteps. eapply wp_take_response; [exact Hs|exact Hp| |by intros; apply Hother].
    intros v' t' Ha. tsteps. apply IH; [right; by left|done..].
  - tsteps. apply IH; [right; left; by apply (serving_failed v t)|done..].
  - apply (serving_silent v t t1 []) in Hs; [|done|by left]. clear Hp. tsteps.
    pose proof (past_reset t1) as Hp. destruct (poll_reset_rx t1) as [[[]|] t2]; cbn [fst snd reset_event] in *.
    { tsteps. apply Hend. left. by apply (serving_silent v t1 t2 [ResetSeen]); [..|right]. }
    apply (serving_silent v t1 t2 []) in Hs; [|done|by left]. clear Hp. tsteps.
    assert (∀ t3, serving v (past t3) →
      wp (if early_hints_open v then
            hint ← ask poll_hint;
            match hint with
            | Ready (Some hint) => _ ← forward_hint hint; poll_service fuel
            | Ready None => _ ← on_service set_hints_closed; poll_service fuel
            | Pending => wait
            end
          else wait) Q (MkDriver None [] false (InService v) t3)) as Hhints.
    { intros t3 Hs3. destruct (early_hints_open v); [|by apply Hother, serving_working]. tsteps.
      pose proof (past_hint t3) as Hp. destruct (poll_hint t3) as [[[hint|]|] t4]; cbn [fst snd hint_event] in *.
      - tsteps. eapply wp_forward_hint; [exact Hs3|exact Hp| |by intros; apply Hother].
        intros t'' Hs4. tsteps. apply IH; [by left|done..].
      - tsteps. apply IH; [|done..]. left. change (serving v (past t4)). by apply (serving_silent v t3 t4 []); [..|left].
      - apply Hother, serving_working. by apply (serving_silent v t3 t4 []); [..|left]. }
    destruct (send_continue v && negb (continue_sent v) && send_continue_body v) eqn:E; tsteps; [|by apply Hhints].
    pose proof (past_continue t2) as Hp. destruct (load_continue t2) as [[] t3]; cbn [fst snd continue_event] in *.
    + apply andb_true_iff in E as [[_ E%negb_true_iff]%andb_true_iff _].
      cbn [andthen]. apply (wp_continue _ v t2 t3); [exact Hs|exact Hp|exact E| |by intros; apply Hother].
      intros t'' Hs4. apply IH; [by left|done..].
    + apply Hhints. by apply (serving_silent v t2 t3 []); [..|left].
Qed.

(** *** The body *)

Definition kept (v : BodyState) (t : T) : list StreamMsg :=
  match first_frame v with Some f => frame_msgs f (body_is_end_stream t) | None => [] end.

Definition head_phase (o : option (Z * fields)) : phase := match o with Some _ => Interim | None => Streaming end.

(** The state in which a body is polled, with [fut] on its way. *)
Definition streaming (fut : option StreamMsg) (v : BodyState) (t : T) : Prop :=
  (meant cfg (past t)).1 = (handed (past t) ++ in_flight fut) ++ kept v t
  ∧ ∃ p, phase_after (handed (past t) ++ in_flight fut) = Some p
      ∧ (body_end v = true ∧ first_frame v = None
         ∨ body_end v = false ∧ body_parts v = waiting_head (meant cfg (past t)).2 ∧ p = head_phase (body_parts v)
           ∧ (is_Some (first_frame v) → body_parts v = None)).

Lemma streaming_working fut v t : streaming fut v t ↔ working (MkDriver fut [] false (InBody v) t).
Proof.
  unfold working, faithful, lost, kept_back, agrees, streaming, kept. cbn [driver_state env msg_tx_fut queue done].
  destruct (meant cfg (past t)) as [msgs st]. cbn [fst snd]. split; [intros (-> & H1)|intros (_ & _ & <- & H1)]; eauto.
Qed.

(** Why a frame of the body may be left: the peer reset the stream, or the
    connection is gone. *)
Definition cut_off (h : list task_event) : Prop := ResetSeen ∈ h ∨ ∃ m, Handed m false ∈ h.

(** Events that say nothing. *)
Lemma streaming_silent fut v t t' ev :
  streaming fut v t → past t' = past t ++ ev → ev = [] ∨ ev = [ResetSeen] →
  first_frame v = None ∨ body_is_end_stream t' = body_is_end_stream t → streaming fut v t'.
Proof.
  unfold streaming. intros Hs Hp Hev Hend. replace (kept v t') with (kept v t) by (unfold kept; by destruct Hend as [->| ->]).
  rewrite Hp. destruct Hev as [->| ->]; [by rewrite app_nil_r|]. rewrite meant_snoc, handed_snoc. cbn. by rewrite !app_nil_r.
Qed.

Lemma streaming_sent m v t t' r :
  streaming (Some m) v t → past t' = past t ++ [channel_event m r] →
  body_is_end_stream t' = body_is_end_stream t →
  streaming (if r is Ready _ then None else Some m) v t'.
Proof.
  unfold streaming, kept. intros [Hm (p & Hp & Hcase)] Ht' ->. rewrite Ht'.
  pose proof (meant_channel (past t) m r) as (-> & -> & _). rewrite handed_snoc, Hm.
  assert ((handed (past t) ++ match channel_event m r with Handed m _ => [m] | _ => [] end)
      ++ in_flight (if r is Ready _ then None else Some m) = handed (past t) ++ in_flight (Some m)) as ->.
  { destruct r as [[[]|[]]|]; cbn; by rewrite app_nil_r. }
  split; [done|]. by exists p.
Qed.

(** Something that the body says, all of it on its way at once. *)
Lemma streaming_event v v' t t' ev msg st :
  streaming None v t → body_end v = false → first_frame v = None →
  past t' = past t ++ [ev] → match ev with Handed _ _ => False | _ => True end →
  meant_step cfg (meant cfg (past t)).2 ev = (in_flight msg ++ kept v' t', st) →
  (∃ p, foldl (λ o m, p ← o; msg_phase p m) (Some (head_phase (waiting_head (meant cfg (past t)).2))) (in_flight msg) = Some p
      ∧ (body_end v' = true ∧ first_frame v' = None ∨ body_end v' = false ∧ body_parts v' = waiting_head st ∧ p = head_phase (body_parts v')
           ∧ (is_Some (first_frame v') → body_parts v' = None))) →
  streaming msg v' t'.
Proof.
  unfold streaming. intros [Hm (p0 & Hp0 & Hcase)] He Hf Hev Hno Hstep (p & Hp & Hv').
  destruct Hcase as [[? _]|(_ & Hparts & -> & _)]; [congruence|].
  unfold kept in Hm at 1. rewrite Hf in Hm. cbn [in_flight] in Hm, Hp0. rewrite !app_nil_r in Hm. rewrite app_nil_r in Hp0.
  assert (handed (past t') = handed (past t)) as Hh.
  { rewrite Hev, handed_snoc. by destruct ev; rewrite ?app_nil_r. }
  rewrite Hh, Hev, meant_snoc, Hstep, Hm. cbn [fst snd]. split; [by rewrite app_assoc|].
  exists p. split; [|done]. unfold phase_after in *. by rewrite foldl_app, Hp0, Hparts.
Qed.

(** A frame is in the task's hands, and nothing but its message is missing. *)
Definition holding (f : BodyFrame) (v : BodyState) (t : T) : Prop :=
  (meant cfg (past t)).1 = handed (past t) ++ frame_msgs f (body_is_end_stream t)
  ∧ phase_after (handed (past t)) = Some Streaming ∧ waiting_head (meant cfg (past t)).2 = None
  ∧ body_parts v = None ∧ first_frame v = None ∧ body_end v = false.

Lemma holding_kept f v t :
  streaming None v t → first_frame v = Some f → body_end v = false → holding f (set_first_frame None v) t.
Proof.
  unfold streaming, kept, holding. intros [Hm (p & Hp & Hcase)] Hf He. rewrite Hf in Hm. cbn [in_flight] in Hm, Hp.
  rewrite app_nil_r in Hm, Hp. destruct Hcase as [[? _]|(_ & Hparts & -> & Hnone)]; [congruence|].
  specialize (Hnone ltac:(rewrite Hf; eauto)). rewrite Hnone in Hp, Hparts. by repeat split.
Qed.

Lemma holding_read f v t t' :
  streaming None v t → first_frame v = None → body_end v = false → body_parts v = None →
  past t' = past t ++ [Framed f (body_is_end_stream t')] → holding f v t'.
Proof.
  unfold streaming, kept, holding. intros [Hm (p & Hp & Hcase)] Hf He Hno Hev. rewrite Hf in Hm. cbn [in_flight] in Hm, Hp.
  rewrite !app_nil_r in Hm. rewrite app_nil_r in Hp. destruct Hcase as [[? _]|(_ & Hparts & -> & _)]; [congruence|].
  rewrite Hev, meant_snoc, handed_snoc, app_nil_r, Hm. cbn [fst snd meant_step waiting_head]. rewrite Hno in Hp, Hparts.
  rewrite <- Hparts. by repeat split.
Qed.

Lemma wp_forward_frame f v t Q :
  holding f v t →
  (∀ msg v', streaming msg v' t → Q (Done true) (MkDriver msg [] false (InBody v') t)) →
  (∀ v', streaming None v' t → first_frame v' = None → Q (Done false) (MkDriver None [] false (InBody v') t)) →
  wp (forward_frame f) Q (MkDriver None [] false (InBody v) t).
Proof.
  intros (Hm & Hp & Hw & Hparts & Hf & He) Hmore Hend. unfold forward_frame. tsteps.
  assert (∀ msg v', frame_msgs f (body_is_end_stream t) = in_flight msg → first_frame v' = None →
    (∃ p, foldl (λ o m, p ← o; msg_phase p m) (Some Streaming) (in_flight msg) = Some p
      ∧ (body_end v' = true ∧ first_frame v' = None ∨ body_end v' = false ∧ body_parts v' = None ∧ p = Streaming)) → streaming msg v' t) as Hgo.
  { intros msg v' E Hf' (p & Hfold & Hcase). unfold streaming, kept. rewrite Hf', app_nil_r, <- E, Hm, Hw. split; [done|].
    exists p. split; [unfold phase_after in *; by rewrite foldl_app, Hp, E|].
    destruct Hcase as [[? _]|(? & -> & ->)]; [left; by split|]. by right. }
  destruct f as [data|trailers|]; cbn [frame_msgs] in Hgo.
  - destruct (bool_decide (data = []) && negb (body_is_end_stream t)); tsteps; apply Hmore, Hgo; try done; eauto 8.
  - tsteps. apply Hmore, Hgo; [done..|]. exists Ended. by split; [|left; split].
  - apply Hend; [|done]. apply Hgo; [done..|]. eauto 8.
Qed.

Lemma wp_body_turn again flush v t Q :
  streaming None v t → body_end v = false →
  (∀ msg v' t' flush', streaming msg v' t' → wp (again flush') Q (MkDriver msg [] false (InBody v') t')) →
  (∀ v' t', streaming None v' t' → first_frame v' = None ∨ cut_off (past t') →
     Q (Done ()) (MkDriver None [] false (InBody v') t')) →
  (∀ s, working s → Q Wait s) →
  wp (body_turn again flush v) Q (MkDriver None [] false (InBody v) t).
Proof.
  intros Hs He Hagain Hdone Hwait. unfold body_turn. tsteps. pose proof (past_reset t) as Hp. pose proof (end_reset t) as Hend.
  destruct (poll_reset_rx t) as [[[]|] t1]; cbn [fst snd reset_event] in *.
  { tsteps. apply Hdone; [eapply streaming_silent; [exact Hs|exact Hp|by right|by right]|].
    right. left. rewrite Hp. apply elem_of_app. right. by left. }
  tsteps. eapply streaming_silent in Hs; [|exact Hp|by left|by right]. clear Hp Hend. unfold next_body_frame.
  destruct (first_frame v) as [f|] eqn:Hf; tsteps.
  { pose proof (holding_kept f v t1 Hs Hf He) as Hh. unfold head_first. pose proof Hh as (_ & _ & _ & Hparts & _). cbn in Hparts.
    rewrite Hparts. tsteps. apply wp_forward_frame; [done| |]; intros; tsteps; auto. }
  pose proof (past_frame t1) as Hp. destruct (poll_body_frame t1) as [[[[f|[]]|]|] t2]; cbn [fst snd frame_event] in *; tsteps.
  - unfold head_first. destruct (body_parts v) as [[status headers]|] eqn:Hparts; tsteps.
    + apply Hagain. pose proof Hs as [_ (p & _ & [[? _]|(_ & Hw & _)])]; [congruence|]. rewrite Hparts in Hw.
      eapply (streaming_event v _ t1 t2); [done..|exact Hp|done| |]; cbn [meant_step]; rewrite <- Hw; [done|].
      exists Streaming. split; [done|]. right. by repeat split.
    + apply wp_forward_frame; [by apply (holding_read f v t1)| |]; intros; tsteps; auto.
  - apply Hagain. pose proof Hs as [_ (p & _ & [[? _]|(_ & Hw & _)])]; [congruence|].
    eapply (streaming_event v _ t1 t2); [done..|exact Hp|done| |]; cbn [meant_step]; [unfold kept; cbn; by rewrite Hf|].
    exists Ended. split; [by destruct (waiting_head _)|by left; split].
  - unfold finish_body. pose proof Hs as [_ (p & _ & [[? _]|(_ & Hw & _)])]; [congruence|].
    destruct (body_parts v) as [[status headers]|] eqn:Hparts; tsteps; apply Hagain;
      (eapply (streaming_event v _ t1 t2); [done..|exact Hp|done| |]; cbn [meant_step]; rewrite <- Hw;
        [unfold kept; cbn; by rewrite Hf|]; exists Streaming; split; [done|by left; split]).
  - eapply streaming_silent in Hs; [|exact Hp|by left|by left].
    destruct flush; tsteps; apply Hwait, streaming_working; [|done].
    eapply streaming_silent; [exact Hs|by rewrite past_wake, app_nil_r|by left|by left].
Qed.

Lemma wp_poll_body fuel : ∀ flush fut v t Q,
  streaming fut v t →
  (∀ v' t', streaming None v' t' → first_frame v' = None ∨ cut_off (past t') →
     Q (Done ()) (MkDriver None [] false (InBody v') t')) →
  (∀ s, working s → Q Wait s ∧ Q Stuck s) →
  wp (poll_body fuel flush) Q (MkDriver fut [] false (InBody v) t).
Proof.
  induction fuel as [|fuel IH]; intros flush fut v t Q Hs Hdone Hother; [by apply Hother, streaming_working|].
  assert (∀ flush' v' t', streaming None v' t' →
    wp (if body_end v' then mret () else body_turn (poll_body fuel) flush' v') Q (MkDriver None [] false (InBody v') t')) as Hturn.
  { intros flush' v' t' Hs'. destruct (body_end v') eqn:He.
    { apply wp_ret, Hdone; [done|]. left. by destruct Hs' as [_ (p & _ & [[_ ?]|[? _]])]; [done|congruence]. }
    apply wp_body_turn; [done|done| |done|by intros; apply Hother]. intros. by apply IH. }
  cbn [poll_body]. tsteps. destruct fut as [m|]; tsteps; [|by apply Hturn].
  pose proof (past_channel m t) as Hp. pose proof (end_channel m t) as He.
  destruct (poll_channel m t) as [r t1]; cbn [fst snd] in *.
  pose proof (streaming_sent _ _ _ _ _ Hs Hp He) as Hs1. destruct r as [[[]|[]]|]; tsteps.
  - by apply Hturn.
  - apply Hdone; [done|]. right. right. exists m. rewrite Hp. apply elem_of_app. right. by left.
  - destruct flush; tsteps; apply Hother, streaming_working; [|done].
    eapply streaming_silent; [exact Hs1|by rewrite past_wake, app_nil_r|by left|right; apply end_wake].
Qed.

(** *** The task *)

(** The handler and the body are done with; what is left is to say so. *)
Definition over (s : driver) : Prop :=
  done s = true ∧ (queue s = [MsgClosed] ∧ msg_tx_fut s = None ∨ queue s = [] ∧ (msg_tx_fut s = None ∨ msg_tx_fut s = Some MsgClosed))
  ∧ (kept_back s = [] ∨ cut_off (past (env s)))
  ∧ ∃ l, told s = l ++ [MsgClosed] ∧ faithful s l.

Definition settled (s : driver) : Prop := working s ∨ over s.

(** After a poll: what it returns when. *)
Definition poll_ends (o : outcome Panic ()) (s : driver) : Prop :=
  settled s
  ∧ match o with
    | Done _ => msg_tx_fut s = None ∧ queue s = [] ∧ (done s = true ∨ ∃ m, Handed m false ∈ past (env s))
    | Fail _ => lost s = true
    | Wait | Stuck => True
    end.

Lemma working_in_service v t : working (MkDriver None [] false (InService v) t) → in_service v t.
Proof.
  intros Hwk. pose proof Hwk as (_ & _ & Hf). unfold faithful, lost, kept_back, agrees in Hf.
  cbn [driver_state env msg_tx_fut in_flight] in Hf. destruct (meant cfg (past t)) as [msgs st] eqn:Hm.
  rewrite app_nil_r in Hf. destruct (completed v) eqn:Hcomp, (response_done v) eqn:Hr; cbn [andb negb] in Hf;
    [right; left|right; right; by split|left|left]; rewrite ?app_nil_r in Hf;
    destruct Hf as (<- & p & Hp & Hc & Hparts & Hstart & Hbody).
  - do 3 (split; [done|]). rewrite Hm. do 2 (split; [done|]). by exists p.
  - destruct (Hstart eq_refl) as [? _]. congruence.
  - destruct (Hstart eq_refl) as (_ & Hb & -> & Hw & Ht & _). do 3 (split; [done|]). split; [congruence|].
    split; [done|]. by exists (handed (past t)), st.
Qed.

Lemma working_channel m r v t t' :
  working (MkDriver (Some m) [] false v t) → past t' = past t ++ [channel_event m r] →
  body_is_end_stream t' = body_is_end_stream t →
  working (MkDriver (if r is Ready _ then None else Some m) [] false v t').
Proof.
  intros (_ & _ & Hf) Hp He. split; [done|]. split; [done|]. cbn [env msg_tx_fut] in *. rewrite Hp.
  replace (handed (past t ++ _) ++ _) with (handed (past t) ++ in_flight (Some m)).
  - eapply faithful_channel; [exact Hf|exact Hp|exact He|done|]. destruct r; auto.
  - rewrite handed_snoc. destruct r as [[[]|[]]|]; cbn; by rewrite ?app_nil_r.
Qed.

Lemma over_channel r v t t' :
  over (MkDriver (Some MsgClosed) [] true v t) → past t' = past t ++ [channel_event MsgClosed r] →
  body_is_end_stream t' = body_is_end_stream t →
  over (MkDriver (if r is Ready _ then None else Some MsgClosed) [] true v t').
Proof.
  unfold over, told, kept_back, cut_off. cbn [driver_state env msg_tx_fut queue done in_flight app].
  intros (_ & _ & Hk & l & Ht & Hf) Hp He. split; [done|]. split; [right; destruct r; auto|]. split.
  - rewrite He, Hp. destruct Hk as [?|[?|[m Hm]]]; [by left|right; left|right; right; exists m]; apply elem_of_app; by left.
  - exists l. split.
    + rewrite Hp, handed_snoc, <- Ht. destruct r as [[[]|[]]|]; cbn; by rewrite ?app_nil_r.
    + eapply faithful_channel; [exact Hf|exact Hp|exact He|done|]. destruct r; auto.
Qed.

Lemma working_over v t :
  working (MkDriver None [] false v t) →
  kept_back (MkDriver None [] false v t) = [] ∨ cut_off (past t) → over (MkDriver None [MsgClosed] true v t).
Proof.
  intros (_ & _ & Hf) Hk. split; [done|]. split; [by left|]. split; [done|]. exists (handed (past t)). split; [done|].
  cbn [env msg_tx_fut in_flight] in Hf. rewrite app_nil_r in Hf. exact Hf.
Qed.

Lemma over_wake fut q v t : over (MkDriver fut q true v t) → over (MkDriver fut q true v (try_wake t)).
Proof.
  unfold over, kept_back, told, cut_off, faithful, lost, kept_back, agrees.
  cbn [env driver_state msg_tx_fut queue done]. by rewrite past_wake, end_wake.
Qed.

Lemma wp_over fuel turns : ∀ s, over s → wp (poll_driver fuel turns) poll_ends s.
Proof.
  induction turns as [|turns IH]; intros s Ho; [by split; [right|]|].
  destruct s as [fut q d v t]. pose proof Ho as (Hd & Hq & _). cbn [done queue msg_tx_fut] in Hd, Hq. subst d.
  cbn [poll_driver]. tsteps. destruct Hq as [[-> ->]|[-> [->| ->]]]; tsteps.
  - apply IH. destruct Ho as (_ & _ & Hk & l & Ht & Hf). split; [done|]. split; [auto|]. split; [done|].
    exists l. split; [done|]. unfold faithful, lost, kept_back, agrees in *. cbn [env driver_state msg_tx_fut] in *.
    destruct (meant cfg (past t)) as [msgs st], v as [v|v]; [|done]. destruct (completed v && _); [done|].
    destruct Hf as [? (p & ? & ? & ? & Hstart & ?)]. split; [done|]. exists p. repeat (split; [done|]). split; [|done].
    intros Hc. specialize (Hstart Hc). naive_solver.
  - split; [by right|]. auto.
  - pose proof (past_channel MsgClosed t) as Hp. pose proof (end_channel MsgClosed t) as He.
    destruct (poll_channel MsgClosed t) as [r t1]; cbn [fst snd] in *.
    pose proof (over_channel r v t t1 Ho Hp He) as Ho1. destruct r as [[[]|[]]|]; tsteps.
    + split; [by right; apply over_wake|]. auto.
    + split; [by right|]. auto.
    + split; [by right|done].
Qed.

Lemma working_wake fut v t : working (MkDriver fut [] false v t) → working (MkDriver fut [] false v (try_wake t)).
Proof.
  intros (_ & _ & Hf). split; [done|]. split; [done|]. unfold faithful, lost, kept_back, agrees in *.
  cbn [env driver_state msg_tx_fut] in *. by rewrite past_wake, end_wake.
Qed.

Lemma wp_working fuel turns : ∀ s, working s → wp (poll_driver fuel turns) poll_ends s.
Proof.
  induction turns as [|turns IH]; intros s Hw; [by split; [left|]|].
  assert (∀ v t, working (MkDriver None [] false v t) → kept_back (MkDriver None [] false v t) = [] ∨ cut_off (past t) →
    wp (poll_driver fuel turns) poll_ends (MkDriver None [MsgClosed] true v t)) as Hover.
  { intros v t Hwk Hk. by apply wp_over, working_over. }
  assert (∀ v t, working (MkDriver None [] false v t) →
    wp (again ← drive fuel v;
        if again : bool then poll_driver fuel turns
        else s ← self; _ ← set_queue (queue s ++ [MsgClosed]); _ ← set_done; poll_driver fuel turns)
      poll_ends (MkDriver None [] false v t)) as Hdrive.
  { intros v t Hwk. unfold drive. destruct v as [v|v]; tsteps.
    - apply wp_poll_service; [by apply working_in_service| | |].
      + intros v' t' Hin. tsteps. apply Hover; [by apply in_service_working|by left].
      + intros v' t' Hb. tsteps. by apply IH.
      + intros s' Hs'. split; [|split]; [by split; [left|]|by split; [left|]|]. intros Hl. split; [by left|done].
    - apply wp_poll_body; [by apply streaming_working| |].
      + intros v' t' Hs' Hk. tsteps. apply Hover; [by apply streaming_working|].
        unfold kept_back. cbn [driver_state]. destruct Hk as [->|]; auto.
      + intros s' Hs'. split; (split; [by left|done]). }
  destruct s as [fut q d v t]. pose proof Hw as (Hq & Hd & _). cbn [queue done] in Hq, Hd. subst q d.
  cbn [poll_driver]. tsteps. destruct fut as [m|]; tsteps; [|by apply (proj1 (wp_bind _ _ _ _)), Hdrive].
  pose proof (past_channel m t) as Hp. pose proof (end_channel m t) as He.
  destruct (poll_channel m t) as [r t1]; cbn [fst snd] in *.
  pose proof (working_channel m r v t t1 Hw Hp He) as Hw1. destruct r as [[[]|[]]|]; tsteps.
  - by apply (proj1 (wp_bind _ _ _ _)), Hdrive, working_wake.
  - split; [by left|]. split; [done|]. split; [done|]. right. exists m. cbn [env]. rewrite Hp. apply elem_of_app. right. by left.
  - by split; [left|].
Qed.

Lemma wp_settled fuel turns s : settled s → wp (poll_driver fuel turns) poll_ends s.
Proof. intros [?|?]; [by apply wp_working|by apply wp_over]. Qed.
End spec.

(** An environment with finitely many early hints and body frames to give. *)
Class FiniteTask (T : Type) `{StreamTask T} : Type := {
  backlog : T → nat;
  backlog_response t : (backlog (poll_response t).2 ≤ backlog t)%nat;
  backlog_reset t : (backlog (poll_reset_rx t).2 ≤ backlog t)%nat;
  backlog_continue t : (backlog (load_continue t).2 ≤ backlog t)%nat;
  backlog_hint t : (backlog (poll_hint t).2 + length (hint_event (poll_hint t).1) ≤ backlog t)%nat;
  backlog_answer t : (backlog (answer_hint t) ≤ backlog t)%nat;
  backlog_channel msg t : (backlog (poll_channel msg t).2 ≤ backlog t)%nat;
  backlog_wake t : (backlog (try_wake t) ≤ backlog t)%nat;
  backlog_frame t : (backlog (poll_body_frame t).2
    + match (poll_body_frame t).1 with Ready (Some (Ok _)) => 1 | _ => 0 end ≤ backlog t)%nat;
}.

(** ** An environment that plays back prepared answers *)

(** What each call answers next; when a list is used up, there is nothing more
    to give, and the channel takes what it gets. *)
Record TaskScript : Type := MkTaskScript {
  responses : list (poll (result () Response));
  resets : list (poll ());
  demands : list bool;
  hints : list (poll (option fields));
  replies : list (poll (result () ()));
  frames : list (poll (option (result () BodyFrame)) * bool);
  at_end : bool;
  events : list task_event;
}.

Definition next {A} (d : A) (l : list A) : A := default d (head l).

#[export] Instance script_task : StreamTask TaskScript := {
  poll_response s := let r := next Pending (responses s) in
    (r, MkTaskScript (tail (responses s)) (resets s) (demands s) (hints s) (replies s) (frames s) (at_end s)
          (events s ++ response_event r));
  poll_reset_rx s := let r := next Pending (resets s) in
    (r, MkTaskScript (responses s) (tail (resets s)) (demands s) (hints s) (replies s) (frames s) (at_end s)
          (events s ++ reset_event r));
  load_continue s := let r := next false (demands s) in
    (r, MkTaskScript (responses s) (resets s) (tail (demands s)) (hints s) (replies s) (frames s) (at_end s)
          (events s ++ continue_event r));
  poll_hint s := let r := next Pending (hints s) in
    (r, MkTaskScript (responses s) (resets s) (demands s) (tail (hints s)) (replies s) (frames s) (at_end s)
          (events s ++ hint_event r));
  answer_hint s := s;
  poll_channel msg s := let r := next (Ready (Ok ())) (replies s) in
    (r, MkTaskScript (responses s) (resets s) (demands s) (hints s) (tail (replies s)) (frames s) (at_end s)
          (events s ++ [channel_event msg r]));
  try_wake s := s;
  poll_body_frame s := let '(r, last) := next (Pending, at_end s) (frames s) in
    (r, MkTaskScript (responses s) (resets s) (demands s) (hints s) (replies s) (tail (frames s)) last
          (events s ++ frame_event r last));
  body_is_end_stream := at_end;
}.

#[export] Program Instance script_recorded_task : RecordedTask TaskScript := {| past := events |}.
Solve Obligations with try done.
Next Obligation. intros s. cbn. by destruct (next _ (frames s)). Qed.

#[export] Program Instance script_finite_task : FiniteTask TaskScript :=
  {| backlog s := (length (hints s) + length (frames s))%nat |}.
Solve Obligations with intros; cbn; lia.
Next Obligation. intros s. cbn. destruct (hints s) as [|[[h|]|] l]; cbn; lia. Qed.
Next Obligation. intros s. cbn. destruct (frames s) as [|[[[[f|]|]|] last] l]; cbn; lia. Qed.

(** A response of five octets in two pieces, with an early hint before it and
    [100 Continue] asked for, over a channel that is full when the second piece
    comes. *)
Definition five_octets : TaskScript :=
  MkTaskScript [Pending; Pending; Pending; Ready (Ok (MkResponse 200 [(b "x", b "y")] false))] []
    [false; true] [Ready (Some [(b "link", b "/s")]); Pending]
    [Ready (Ok ()); Ready (Ok ()); Ready (Ok ()); Ready (Ok ()); Pending]
    [(Ready (Some (Ok (FrameData (b "he")))), false); (Ready (Some (Ok (FrameData (b "llo")))), false);
     (Ready (Some (Ok (FrameTrailers [(b "z", b "1")]))), false)] false [].

(** ** A task over its whole life *)

Section life.
Context {T : Type} `{RecordedTask T}.

(** The task is polled until it is done, with the given fuels. *)
Fixpoint polls (l : list (nat * nat)) (s : StreamDriver T) : outcome Panic () * StreamDriver T :=
  match l with
  | [] => (Wait, s)
  | (fuel, turns) :: l =>
      match poll_driver fuel turns s with
      | (Wait, s) => polls l s
      | r => r
      end
  end.

Lemma polls_end cfg l : ∀ s, settled cfg s → poll_ends cfg (polls l s).1 (polls l s).2.
Proof.
  induction l as [|[fuel turns] l IH]; intros s Hs; [by split|]. cbn [polls].
  pose proof (wp_settled cfg fuel turns s Hs) as Hw. unfold wp in Hw.
  destruct (poll_driver fuel turns s) as [[u|e| |] s']; cbn [fst snd] in *; try done. apply IH. by destruct Hw.
Qed.

Lemma new_settled cfg t :
  past t = [] → settled cfg (new_driver (with_continue cfg) (with_continue_body cfg) (of_connect cfg) (of_head cfg) t).
Proof.
  intros Hp. left. apply serving_working. split; [done|]. do 4 (split; [done|]). rewrite Hp.
  by exists [], (MkMeant false None).
Qed.

(** C9. A stream task hands over the response of its handler, whole, in order
    and once.  Whatever the environment does and whenever the task is polled,
    what it has handed to the channel, what is on its way and what is queued are
    the messages [meant] for what the handler, the body, the early hints and the
    demand for [100 Continue] gave, with [Closed] behind them when the task is
    through; they come in the order interim responses, head, body, end.  When
    the task is done nothing is left behind, unless the peer reset the stream or
    the connection went away.  The one exception is a response that was there
    when the channel was full: its rest is lost, and the task panics. *)
Theorem stream_task_faithful cfg t l :
  past t = [] →
  let '(o, s) := polls l (new_driver (with_continue cfg) (with_continue_body cfg) (of_connect cfg) (of_head cfg) t) in
  let h := past (env s) in
  ∃ msgs, handed h ++ in_flight (msg_tx_fut s) ++ queue s = msgs ++ (if done s then [MsgClosed] else [])
    ∧ is_Some (phase_after msgs)
    ∧ (if lost s then msgs `prefix_of` (meant cfg h).1 ∧ ∃ m, Blocked m ∈ h
       else msgs ++ kept_back s = (meant cfg h).1)
    ∧ match o with
      | Done _ => msg_tx_fut s = None ∧ queue s = []
          ∧ (done s = true ∧ kept_back s = [] ∨ ResetSeen ∈ h ∨ ∃ m, Handed m false ∈ h)
      | Fail _ => lost s = true
      | _ => True
      end.
Proof.
  intros Hp. pose proof (polls_end cfg l _ (new_settled cfg t Hp)) as [Hs Ho]. destruct (polls l _) as [o s]. cbn [fst snd] in *.
  assert (∃ msgs, told s = msgs ++ (if done s then [MsgClosed] else []) ∧ faithful cfg s msgs) as (msgs & Ht & Hf).
  { destruct Hs as [(Hq & Hd & Hf)|(Hd & _ & _ & msgs & Ht & Hf)].
    - eexists. split; [|exact Hf]. unfold told. by rewrite Hq, Hd, !app_nil_r.
    - exists msgs. by rewrite Hd. }
  exists msgs. split; [done|]. unfold faithful in Hf. destruct (meant cfg (past (env s))) as [all st]. cbn [fst].
  split; [|split].
  - destruct (lost s); [by destruct Hf as (_ & ? & _)|]. destruct Hf as [_ (p & -> & _)]. eauto.
  - destruct (lost s); [by destruct Hf as (? & _ & ?)|by destruct Hf].
  - destruct o; try done. destruct Ho as (-> & -> & Hend). split; [done|]. split; [done|].
    destruct Hend as [Hd|?]; [|by right; right]. destruct Hs as [(_ & Hd' & _)|(_ & _ & [?|?] & _)]; [congruence|by left|by right].
Qed.
End life.

Lemma stream_task_faithful_witness :
  let cfg := MkConfig true true false false in
  let '(o, s) := polls [(9, 9); (9, 9); (9, 9)]%nat (new_driver true true false false five_octets) in
  o = Done ()
  ∧ handed (past (env s)) = [MsgInformational 103 [(b "link", b "/s")]; MsgInformational 100 [];
      MsgHeaders 200 [(b "x", b "y")] false; MsgData (b "he") false; MsgData (b "llo") false;
      MsgTrailers [(b "z", b "1")]; MsgClosed]
  ∧ ∃ msgs, handed (past (env s)) ++ in_flight (msg_tx_fut s) ++ queue s = msgs ++ (if done s then [MsgClosed] else [])
    ∧ is_Some (phase_after msgs)
    ∧ (if lost s then msgs `prefix_of` (meant cfg (past (env s))).1 ∧ ∃ m, Blocked m ∈ past (env s)
       else msgs ++ kept_back s = (meant cfg (past (env s))).1)
    ∧ match o with
      | Done _ => msg_tx_fut s = None ∧ queue s = []
          ∧ (done s = true ∧ kept_back s = [] ∨ ResetSeen ∈ past (env s) ∨ ∃ m, Handed m false ∈ past (env s))
      | Fail _ => lost s = true
      | _ => True
      end.
Proof.
  pose proof (stream_task_faithful (MkConfig true true false false) five_octets [(9, 9); (9, 9); (9, 9)]%nat eq_refl) as H.
  cbn [with_continue with_continue_body of_connect of_head] in H.
  destruct (polls _ _) as [o s] eqn:E. vm_compute in E. injection E as <- <-.
  do 2 (split; [vm_compute; reflexivity|]). exact H.
Defined.

(** ** A poll comes back *)

Section returns.
Context {T : Type} `{FiniteTask T}.

Abbreviation driver := (StreamDriver T).

(** What is left to do in a state. *)
Definition service_turns (v : ServiceState) (t : T) : nat :=
  (if response_done v then 0 else 1 + (if continue_sent v then 0 else 1) + (if early_hints_open v then 1 else 0)) + backlog t.
Definition body_turns (v : BodyState) (t : T) : nat :=
  (if body_end v then 0 else 1) + (if first_frame v then 1 else 0) + (if body_parts v then 1 else 0) + 2 * backlog t.

(** The poll came back, and no more is to come than [n]. *)
Definition back {A} (n : nat) (q : list StreamMsg) (d : bool) (P : StreamDriverState → Prop)
    (o : outcome Panic A) (s : driver) : Prop :=
  o ≠ Stuck ∧ (backlog (env s) ≤ n)%nat ∧ queue s = q ∧ done s = d ∧ P (driver_state s).

Lemma back_send m n Q fut q d v t :
  (backlog t ≤ n)%nat →
  (∀ o fut' t', o ≠ Stuck → (backlog t' ≤ n)%nat → Q o (MkDriver fut' q d v t')) →
  wp (send m) Q (MkDriver fut q d v t).
Proof.
  intros Hn HQ. unfold send. tsteps.
  assert (∀ t1, (backlog t1 ≤ n)%nat →
    wp (start_send m) Q (MkDriver None q d v t1)) as Hstart.
  { intros t1 H1. unfold start_send. tsteps. pose proof (backlog_channel m t1). destruct (poll_channel m t1) as [[[]|] t2]; cbn [fst snd] in *; tsteps;
      [pose proof (backlog_wake t2)|..]; apply HQ; try done; lia. }
  destruct fut as [m'|]; [|by apply Hstart]. tsteps.
  pose proof (backlog_channel m' t). destruct (poll_channel m' t) as [[[]|] t2]; cbn [fst snd] in *; tsteps; [|apply HQ; [done|lia]..].
  pose proof (backlog_wake t2). apply Hstart. lia.
Qed.

Lemma back_response v0 v r n Q fut q d t :
  (backlog t ≤ n)%nat →
  (∀ o fut' v' t', o ≠ Stuck → (o = Done () → response_done v' = true) → (backlog t' ≤ n)%nat →
     Q o (MkDriver fut' q d (InService v') t')) →
  wp (take_response v0 r) Q (MkDriver fut q d (InService v) t).
Proof.
  intros Hn HQ. unfold take_response. tsteps.
  assert (∀ fut1 v1 t1, (backlog t1 ≤ n)%nat →
    wp (let '(ends, has_body) := if is_head v0 then (true, false) else (is_end_stream r, true) in
        _ ← (if ends || extended_connect v0 then send (MsgHeaders (status r) (headers r) ends)
             else on_service (set_parts (Some (status r, headers r))));
        _ ← on_service (set_body has_body);
        on_service set_responded) Q (MkDriver fut1 q d (InService v1) t1)) as Hhead.
  { intros fut1 v1 t1 H1. destruct (if is_head v0 then _ else _) as [ends has_body].
    destruct (ends || extended_connect v0); tsteps; [|by apply HQ].
    apply (back_send _ n); [done|]. intros [[]|e| |] fut' t' Ho Ht'; tsteps; try done; by apply HQ. }
  destruct (send_continue v0 && negb (continue_sent v0)); tsteps; [|by apply Hhead].
  destruct (is_error_status (status r)); tsteps; [by apply Hhead|].
  apply (back_send _ n); [done|]. intros [[]|e| |] fut' t' Ho Ht'; tsteps; try done; [by apply Hhead|by apply HQ..].
Qed.

Lemma back_service fuel : ∀ fut q d v t,
  (service_turns v t < fuel)%nat →
  wp (poll_service fuel) (back (backlog t) q d (λ st, ∃ v, st = InService v)) (MkDriver fut q d (InService v) t).
Proof.
  unfold service_turns. induction fuel as [|fuel IH]; intros fut q d v t Hf; [lia|]. cbn [poll_service]. tsteps.
  assert (∀ fut' v' t', (backlog t' ≤ backlog t)%nat → (service_turns v' t' < fuel)%nat →
    wp (poll_service fuel) (back (backlog t) q d (λ st, ∃ v, st = InService v)) (MkDriver fut' q d (InService v') t')) as Hgo.
  { intros fut' v' t' H1 H2. eapply wp_mono; [by apply IH|]. intros o s' (Ho & Hb & Hst). split; [done|]. split; [lia|done]. }
  assert (∀ A (o : outcome Panic A) fut' v' t', o ≠ Stuck → (backlog t' ≤ backlog t)%nat →
    back (backlog t) q d (λ st, ∃ v, st = InService v) o (MkDriver fut' q d (InService v') t')) as Hend.
  { intros A o fut' v' t' Ho Hb. split; [done|]. split; [done|]. cbn. eauto 6. }
  unfold service_turns in Hgo.
  destruct (response_done v) eqn:Hr; [destruct (body v); tsteps; by apply Hend|].
  destruct (completed v) eqn:Hc; tsteps; [by apply Hend|].
  pose proof (backlog_response t). destruct (poll_response t) as [[[r|[]]|] t1]; cbn [fst snd] in *; tsteps.
  { apply (back_response _ _ _ (backlog t)); [lia|]. intros [[]|e| |] fut' v' t' Ho Hd Hb; tsteps; try done; try by apply Hend.
    apply Hgo; [done|]. rewrite Hd by done. lia. }
  { apply Hgo; [done|]. cbn. lia. }
  pose proof (backlog_reset t1). destruct (poll_reset_rx t1) as [[[]|] t2]; cbn [fst snd] in *; tsteps; [apply Hend; [done|lia]|].
  assert (∀ t3, (backlog t3 ≤ backlog t2)%nat →
    wp (if early_hints_open v then
          hint ← ask poll_hint;
          match hint with
          | Ready (Some hint) => _ ← forward_hint hint; poll_service fuel
          | Ready None => _ ← on_service set_hints_closed; poll_service fuel
          | Pending => wait
          end
        else wait) (back (backlog t) q d (λ st, ∃ v, st = InService v)) (MkDriver fut q d (InService v) t3)) as Hhints.
  { intros t3 H3. destruct (early_hints_open v) eqn:Eh; [|apply Hend; [done|lia]]. tsteps.
    pose proof (backlog_hint t3). destruct (poll_hint t3) as [[[hint|]|] t4]; cbn [fst snd hint_event length] in *; tsteps.
    - unfold forward_hint. tsteps. apply (back_send _ (backlog t4)); [done|].
      intros [[]|e| |] fut' t' Ho Hb; tsteps; try done; try (apply Hend; [done|lia]).
      pose proof (backlog_answer t'). apply Hgo; [lia|]. rewrite Hr, Eh. lia.
    - apply Hgo; [lia|]. cbn. rewrite Hr. lia.
    - apply Hend; [done|lia]. }
  destruct (send_continue v && negb (continue_sent v) && send_continue_body v) eqn:Econt; tsteps; [|by apply Hhints].
  pose proof (backlog_continue t2). destruct (load_continue t2) as [[] t3]; cbn [fst snd] in *; [|by apply Hhints].
  apply andb_true_iff in Econt as [[_ E%negb_true_iff]%andb_true_iff _].
  tsteps. apply (back_send _ (backlog t3)); [done|]. intros [[]|e| |] fut' t' Ho Hb; tsteps; try done; try (apply Hend; [done|lia]).
  apply Hgo; [lia|]. cbn. rewrite Hr, E in *. lia.
Qed.

Definition is_body (st : StreamDriverState) : Prop := ∃ v, st = InBody v.

Lemma back_forward f n Q q d v t :
  (backlog t ≤ n)%nat →
  (∀ more fut v', (body_turns v' t ≤ body_turns v t)%nat → Q (Done more) (MkDriver fut q d (InBody v') t)) →
  wp (forward_frame f) Q (MkDriver None q d (InBody v) t).
Proof.
  intros Hn HQ. unfold forward_frame. tsteps. destruct f as [data|trailers|]; [|tsteps; apply HQ; unfold body_turns; cbn..].
  - destruct (bool_decide _ && _); tsteps; by apply HQ.
  - destruct (body_end v); lia.
  - lia.
Qed.

Lemma back_turn again flush q d v t :
  body_end v = false →
  (∀ fut v' t' flush', (backlog t' ≤ backlog t)%nat → (body_turns v' t' < body_turns v t)%nat →
     wp (again flush') (back (backlog t) q d is_body) (MkDriver fut q d (InBody v') t')) →
  wp (body_turn again flush v) (back (backlog t) q d is_body) (MkDriver None q d (InBody v) t).
Proof.
  intros He Hagain. unfold body_turn. tsteps.
  assert (∀ A (o : outcome Panic A) fut' v' t', o ≠ Stuck → (backlog t' ≤ backlog t)%nat →
    back (backlog t) q d is_body o (MkDriver fut' q d (InBody v') t')) as Hend.
  { intros A o fut' v' t' Ho Hb. split; [done|]. split; [done|]. do 2 (split; [done|]). by exists v'. }
  pose proof (backlog_reset t). destruct (poll_reset_rx t) as [[[]|] t1]; cbn [fst snd] in *; tsteps; [by apply Hend|].
  unfold next_body_frame. destruct (first_frame v) as [f|] eqn:Hf; tsteps.
  - unfold head_first. destruct (body_parts v) as [[status headers]|] eqn:Hparts; tsteps.
    + apply Hagain; [lia|]. unfold body_turns. cbn. rewrite Hf, He, Hparts. lia.
    + apply (back_forward f (backlog t1)); [done|]. intros [] fut v' Hb; tsteps; [|apply Hend; [done|lia]].
      apply Hagain; [lia|]. eapply Nat.le_lt_trans; [exact Hb|]. unfold body_turns. cbn. rewrite Hf, He, Hparts. lia.
  - pose proof (backlog_frame t1). destruct (poll_body_frame t1) as [[[[f|[]]|]|] t2]; cbn [fst snd] in *; tsteps.
    + unfold head_first. destruct (body_parts v) as [[status headers]|] eqn:Hparts; tsteps.
      * apply Hagain; [lia|]. unfold body_turns. cbn. rewrite Hf, He, Hparts. lia.
      * apply (back_forward f (backlog t2)); [done|]. intros [] fut v' Hb; tsteps; [|apply Hend; [done|lia]].
        apply Hagain; [lia|]. eapply Nat.le_lt_trans; [exact Hb|]. unfold body_turns. cbn. rewrite Hf, He, Hparts. lia.
    + apply Hagain; [lia|]. unfold body_turns. cbn. rewrite Hf, He. lia.
    + unfold finish_body. destruct (body_parts v) as [[status headers]|] eqn:Hparts; tsteps;
        (apply Hagain; [lia|]; unfold body_turns; cbn; rewrite Hf, He, Hparts; lia).
    + pose proof (backlog_wake t2). destruct flush; tsteps; apply Hend; try done; lia.
Qed.

Lemma back_body fuel : ∀ flush fut q d v t,
  (body_turns v t < fuel)%nat →
  wp (poll_body fuel flush) (back (backlog t) q d is_body) (MkDriver fut q d (InBody v) t).
Proof.
  induction fuel as [|fuel IH]; intros flush fut q d v t Hf; [lia|].
  assert (∀ flush' t', (backlog t' ≤ backlog t)%nat →
    wp (if body_end v then mret () else body_turn (poll_body fuel) flush' v) (back (backlog t) q d is_body)
      (MkDriver None q d (InBody v) t')) as Hturn.
  { intros flush' t' Hb. destruct (body_end v) eqn:He; [by do 4 (split; [done|]); exists v|].
    eapply wp_mono; [apply back_turn; [done|]|intros o s' (? & ? & ?); split; [done|]; split; [lia|done]].
    intros fut' v' t'' flush'' H1 H2. unfold body_turns in *.
    eapply wp_mono; [apply IH; lia|]. intros o s' (? & ? & ?). split; [done|]. split; [lia|done]. }
  cbn [poll_body]. tsteps. destruct fut as [m|]; tsteps; [|by apply Hturn].
  pose proof (backlog_channel m t). destruct (poll_channel m t) as [[[[]|[]]|] t1]; cbn [fst snd] in *; tsteps.
  - by apply Hturn.
  - do 4 (split; [done|]). by exists v.
  - pose proof (backlog_wake t1). destruct flush; tsteps; (split; [done|]; split; [cbn; lia|do 2 (split; [done|]); by exists v]).
Qed.

(** Fuel and turns for an environment with [n] hints and frames to give: enough
    for any poll of any task. *)
Definition fuel_for (n : nat) : nat := 2 * n + 4.
Definition turns_for : nat := 5.

Lemma back_drive n fut q d v t :
  (backlog t ≤ n)%nat →
  wp (drive (fuel_for n) v) (λ o s, o ≠ Stuck ∧ (backlog (env s) ≤ n)%nat ∧ queue s = q ∧ done s = d
      ∧ (o = Done true → is_body (driver_state s) ∧ ¬ is_body v)) (MkDriver fut q d v t).
Proof.
  intros Hn. unfold drive, fuel_for. destruct v as [v|v]; tsteps.
  - eapply wp_mono; [apply back_service; unfold service_turns; destruct (response_done v), (continue_sent v), (early_hints_open v); lia|].
    intros [[]|e| |] [fut' q' d' v' t'] (Ho & Hb & Hq & Hd & w & Hw); cbn in Hb, Hq, Hd, Hw; subst; tsteps; repeat (split; [done || lia|]); try done.
    intros _. split; [by eexists|]. by intros [? ?].
  - eapply wp_mono; [apply back_body; unfold body_turns; destruct (body_end v), (first_frame v), (body_parts v); lia|].
    intros [[]|e| |] [fut' q' d' v' t'] (Ho & Hb & Hq & Hd & w & Hw); cbn in Hb, Hq, Hd, Hw; subst; tsteps; repeat (split; [done || lia|]); done.
Qed.

(** The turns a state needs. *)
Definition turns_left (s : driver) : nat :=
  length (queue s) + 1 + (if done s then 0 else match driver_state s with InService _ => 3 | InBody _ => 2 end).

(** What every state of a task satisfies. *)
Definition trim (s : driver) : Prop := (length (queue s) ≤ 1)%nat ∧ (done s = false → queue s = []).

Lemma wp_returns n turns : ∀ s,
  (backlog (env s) ≤ n)%nat → trim s → (turns_left s ≤ turns)%nat →
  wp (poll_driver (fuel_for n) turns) (λ o s', o ≠ Stuck ∧ (backlog (env s') ≤ n)%nat ∧ trim s') s.
Proof.
  unfold turns_left. induction turns as [|turns IH]; intros [fut q d v t] Hn Ht Hturns; cbn [queue done driver_state env] in *; [lia|].
  assert (∀ t', (backlog t' ≤ n)%nat →
    wp (match q with
        | msg :: q => _ ← set_queue q; _ ← set_fut (Some msg); poll_driver (fuel_for n) turns
        | [] =>
            if d then mret ()
            else
              again ← drive (fuel_for n) v;
              if again : bool then poll_driver (fuel_for n) turns
              else
                s ← self;
                _ ← set_queue (queue s ++ [MsgClosed]);
                _ ← set_done;
                poll_driver (fuel_for n) turns
        end) (λ o s', o ≠ Stuck ∧ (backlog (env s') ≤ n)%nat ∧ trim s') (MkDriver None q d v t')) as Hgo.
  { intros t' Ht'. destruct q as [|msg q]; tsteps.
    - destruct d; tsteps; [split; [done|]; split; [done|exact Ht]|]. eapply wp_mono; [by apply (back_drive n)|].
      intros [[]|e| |] [fut' q' d' v' t''] (Ho & Hb & Hq & Hd & Hkind); cbn in Hb, Hq, Hd, Hkind; subst; tsteps; try done.
      + destruct (Hkind eq_refl) as [[w ->] Hv]. apply IH; cbn; [done|by split; cbn; [lia|]|].
        destruct v as [v|v]; [cbn in Hturns; lia|]. destruct Hv. by exists v.
      + apply IH; cbn; [done|by split; cbn; [lia|]|]. destruct v; cbn in Hturns; lia.
    - destruct Ht as [Hl Hd]. cbn in Hl, Hd. destruct d; [|by discriminate Hd].
      apply IH; cbn in *; [done|split; cbn; [lia|done]|lia]. }
  cbn [poll_driver]. tsteps. destruct fut as [m|]; tsteps; [|by apply Hgo].
  pose proof (backlog_channel m t). destruct (poll_channel m t) as [[[[]|[]]|] t1]; cbn [fst snd] in *; tsteps.
  - pose proof (backlog_wake t1). apply Hgo. lia.
  - split; [done|]. split; [cbn; lia|exact Ht].
  - split; [done|]. split; [cbn; lia|exact Ht].
Qed.
End returns.

Section life_returns.
Context {T : Type} `{FiniteTask T}.

(** C35. A poll of a stream task comes back.  However many early hints and body
    frames its environment has to give, the fuel and turns stated for that many
    are enough for every poll of the task, from its creation to its end: no
    loop of it runs on by itself. *)
Theorem stream_task_returns (cfg : Config) (t : T) (l : list ()) :
  (polls ((λ _, (fuel_for (backlog t), turns_for)) <$> l)
     (new_driver (with_continue cfg) (with_continue_body cfg) (of_connect cfg) (of_head cfg) t)).1 ≠ Stuck.
Proof.
  set (n := backlog t). set (s0 := new_driver _ _ _ _ t).
  assert ((backlog (env s0) ≤ n)%nat ∧ trim s0) as Hs by (split; [done|by split; cbn; [lia|]]).
  revert Hs. generalize s0. clear s0. induction l as [|[] l IH]; intros s (Hn & Ht); [done|]. cbn [fmap list_fmap polls].
  pose proof (wp_returns n turns_for s Hn Ht) as Hw. unfold wp, turns_left, turns_for in *.
  destruct Hw as (Ho & Hb & Ht').
  { destruct Ht as [Hl Hd]. destruct (done s); [lia|]. rewrite Hd by done. cbn. destruct (driver_state s); lia. }
  destruct (poll_driver (fuel_for n) 5 s) as [[u|e| |] s']; cbn [fst snd] in *; try done. by apply IH.
Qed.
End life_returns.
