(* ===== verification/H2ServiceDeviations.v ===== *)
(** * Where the stream tasks of HTTP/2 go wrong

    A response that is lost because the channel is full, [100 Continue] sent
    twice, and a handler that fails: what the task does, and what becomes of the
    stream on the connection. *)

From S2P Require Import Prelude Integer HpackTable Hpack H2Error H2Codec H2Request H2Connection H2Example Poll H2Service H2ServiceSpec.

#[local] Existing Instances plain_http plain_channels.

(** [n] early hints. *)
Definition some_hints (n : nat) : list (poll (option fields)) := replicate n (Ready (Some [(b "link", b "/s")])).

(** A handler that sends eight early hints and answers at once with a response
    that has no body, over the channel of eight that [spawn_stream] makes. *)
Definition eight_hints : TaskScript :=
  MkTaskScript (replicate 8 Pending ++ [Ready (Ok (MkResponse 204 [] true))]) [] [] (some_hints 8)
    (replicate 8 (Ready (Ok ())) ++ [Pending]) [] true [].

(** A response can be lost and its task panic.  When the response is there
    and the channel is full, [poll_service] returns before it has noted that the
    handler is done, and polls it again when the channel has room: eight early
    hints and a response without a body are enough.  The connection has the
    head by then, but is never told that the task is through; of a response
    that [100 Continue] goes before, it does not even get the head. *)
Theorem response_lost_when_full :
  let '(o, s) := polls [(9, 9); (9, 9)]%nat (new_driver false false false false eight_hints) in
  o = Fail PolledAfterCompletion ∧ last (handed (past (env s))) = Some (MsgHeaders 204 [] true)
  ∧ let '(o, s) := polls [(9, 9); (9, 9)]%nat
      (new_driver true true false false
         (MkTaskScript [Ready (Ok (MkResponse 204 [] true))] [] [] [] [Pending] [] true [])) in
    o = Fail PolledAfterCompletion ∧ handed (past (env s)) = [MsgInformational 100 []].
Proof. vm_compute. done. Qed.

(** The same flag is set when the message has to wait. *)
Example continue_sent_twice :
  let '(o, s) := polls [(9, 9); (9, 9)]%nat
    (new_driver true true false false (MkTaskScript [] [] [true; true] [] [Pending] [] false [])) in
  o = Wait ∧ handed (past (env s)) = [MsgInformational 100 []; MsgInformational 100 []].
Proof. by vm_compute. Qed.

(** A handler that fails. *)
Definition failing : TaskScript := MkTaskScript [Ready (Err ())] [] [] [] [] [] false [].
Definition failing_task : outcome Panic () * StreamDriver TaskScript :=
  polls [(9, 9)]%nat (new_driver false false false false failing).

(** A server that takes one stream at a time, and a client's request on the
    streams 1 and 3. *)
Definition one_stream : ConnectionOptions :=
  MkConnectionOptions false 1 DEFAULT_INITIAL_WINDOW_SIZE DEFAULT_CONNECTION_WINDOW_SIZE
    DEFAULT_MAX_FRAME_SIZE u32_max false (Some 1024) (Some 20) 16.
Definition after_failure (more : list Event) : Connection :=
  run table_order (start one_stream (Some CLIENT_PREFACE)).1
    ([Read (write_settings [] []); Read (write_frame [] (Headers 1 true true None get_block))]
     ++ map (TaskMsg 1) (handed (past (env failing_task.2))) ++ [Wake] ++ more).

(** A handler that fails leaves its stream open for good.  All the
    connection is told is that the task is through; it sends nothing, neither a
    response nor RST_STREAM, keeps the stream, which counts against the limit
    of concurrent streams, and so refuses the next request. *)
Theorem failed_handler_keeps_stream :
  failing_task.1 = Done () ∧ handed (past (env failing_task.2)) = [MsgClosed]
  ∧ wire (after_failure []) = wire (run table_order (start one_stream (Some CLIENT_PREFACE)).1
        [Read (write_settings [] [])])
  ∧ (task_done <$> streams (after_failure []) !! 1) = Some true
  ∧ (local_ended <$> streams (after_failure []) !! 1) = Some false
  ∧ wire (after_failure [Read (write_frame [] (Headers 3 true true None get_block))])
    = write_reset (wire (after_failure [])) 3 (code RefusedStream).
Proof. vm_compute. done. Qed.
