(* ===== verification/H1Io.v ===== *)
(** * What an HTTP/1 connection runs on

    The stream, the channel to the request body and the signal of its reader
    are third-party or other tasks: the class [Io], with the history of what
    happened as its laws.  [Playback] is an instance that plays back prepared
    answers.  The types of the [http] crate and the parsers of [httparse] that
    HTTP/1 adds to [Http] are the class [H1Crates]. *)

From S2P Require Import Prelude Poll H2Request.

(** ** Errors *)

Inductive ErrorKind : Type :=
| UnexpectedEof | InvalidInput | InvalidData | WriteZero | TimedOut
| BrokenPipe | ConnectionReset | ConnectionAborted | Other.

#[global] Instance ErrorKind_eq_dec : EqDecision ErrorKind.
Proof. solve_decision. Defined.

(** [std::io::Error], with its message where the code gives one. *)
Record IoError : Type := MkIoError { error_kind : ErrorKind; message : string }.

#[global] Instance IoError_eq_dec : EqDecision IoError.
Proof. solve_decision. Defined.

(** ** The [http] and [httparse] crates *)

Inductive Version : Type := HTTP_10 | HTTP_11.

#[global] Instance Version_eq_dec : EqDecision Version.
Proof. solve_decision. Defined.

(** [httparse::Request] once it is complete. *)
Record ParsedHead : Type := MkParsedHead {
  hd_method : option bytes;
  hd_path : option bytes;
  hd_version : option Z;
  hd_headers : list (bytes * bytes);
}.

Class H1Crates `{HT : Http} : Type := {
  (** [httparse::Request::parse_with_uninit_headers] and [httparse::parse_headers]
      with room for so many fields: [None] is [Status::Partial]. *)
  parse_head : Z → bytes → result () (option ParsedHead);
  parse_trailers : Z → bytes → result () (option (list (bytes * bytes)));
  (** [HeaderMap::get] and the reading of names and values. *)
  header_get : HeaderMap → bytes → option HeaderValue;
  header_to_str : HeaderValue → option bytes;
  header_as_bytes : HeaderValue → bytes;
  header_name_str : HeaderName → bytes;
  (** [HeaderMap::insert], [remove] of one name, and the iterator. *)
  header_insert : HeaderMap → bytes → HeaderValue → HeaderMap;
  header_remove : HeaderMap → bytes → HeaderMap;
  header_iter : HeaderMap → list (HeaderName * HeaderValue);
  (** [HeaderValue::from_static], [from_maybe_shared_unchecked]. *)
  header_value_unchecked : bytes → HeaderValue;
  is_head_method : Method → bool;
  uri_from_str : bytes → option Uri;
  default_method : Method;
  default_uri : Uri;
  (** [HeaderValue::from_str]. *)
  header_value_from_str : bytes → option HeaderValue;
  (** [httpdate::fmt_http_date], of a time in nanoseconds. *)
  fmt_http_date : Z → bytes;
  (** [StatusCode::as_str] and [canonical_reason]. *)
  status_str : Z → bytes;
  canonical_reason : Z → option bytes;
}.

(** ** The stream and the other tasks *)

(** [http_body::Frame<Bytes>]. *)
Inductive BodyFrame `{HT : Http} : Type :=
| DataFrame (data : bytes)
| TrailersFrame (trailers : HeaderMap).

(** [http::Request] without its extensions, and [http::Response] without its
    body: [rs_size] is the exact size hint of the body, [rs_file] whether a
    [ZerocopyResponse] is installed. *)
Record Request `{HT : Http} : Type := MkRequest {
  rq_method : Method;
  rq_uri : Uri;
  rq_version : Version;
  rq_headers : HeaderMap;
}.
Record Response `{HT : Http} : Type := MkResponse {
  rs_status : Z;
  rs_headers : HeaderMap;
  rs_size : option Z;
  rs_file : bool;
}.
#[global] Arguments MkRequest {HT} _ _ _ _.
#[global] Arguments MkResponse {HT} _ _ _ _.

(** Why reading a head is given up. *)
Inductive Interruption : Type := TimedOut_ | Cancelled_.

Section io.
Context `{HT : Http}.

(** The answers to the calls an HTTP/1 connection makes; [Pending] means that
    the task stays suspended there.  [read] gives the octets read, none at the
    end of the stream; [read_or_notified] is the select of [fill_buf_or_wanted],
    [None] when the notification came first; [wanted] is what the reader of the
    body has set; [body_send] is the channel of the body. *)
Class Io (T : Type) : Type := {
  io_read : T → poll (result IoError bytes) * T;
  io_read_or_notified : T → poll (option (result IoError bytes)) * T;
  io_write : bytes → T → poll (result IoError Z) * T;
  io_write_vectored : list bytes → T → poll (result IoError Z) * T;
  io_write_all : bytes → T → poll (result IoError ()) * T;
  io_flush : T → poll (result IoError ()) * T;
  is_write_vectored : T → bool;
  wanted : T → bool;
  body_send : BodyFrame → T → poll () * T;
}.

(** The application and the runtime: [dispatch] calls the handler, [respond]
    awaits its response, [error_response] calls and awaits [error_fn],
    [next_frame] polls the body of the last response; [was_upgraded] is the flag
    [prepare_upgrade] sets; [interruption] ends a wait for a head, the deadline
    or the cancellation; [clock] is the time in nanoseconds since the epoch. *)
Class Service (T : Type) : Type := {
  dispatch : Request → T → T;
  respond : T → poll (result () Response) * T;
  error_response : bool → T → poll (result () Response) * T;
  next_frame : T → poll (option (result () BodyFrame)) * T;
  was_upgraded : T → bool;
  is_cancelled : T → bool;
  interruption : T → poll Interruption * T;
  clock : T → Z;
  zerocopy_enabled : T → bool;
  send_file : Z → T → poll (result IoError ()) * T;
}.

(** What happened on a connection. *)
Inductive happening : Type :=
| Got (chunk : bytes)
| GotEnd
| ReadFailed (e : IoError)
| WriteFailed (e : IoError)
| Put (data : bytes)
| Gave (f : BodyFrame)
| Asked (r : Request)
| Took (f : BodyFrame)
| Replied (r : Response).

Definition read_happened (r : result IoError bytes) : list happening :=
  match r with Ok [] => [GotEnd] | Ok c => [Got c] | Err e => [ReadFailed e] end.
Definition ready_read (r : poll (result IoError bytes)) : list happening :=
  match r with Ready r => read_happened r | Pending => [] end.
Definition ready_select (r : poll (option (result IoError bytes))) : list happening :=
  match r with Ready (Some r) => read_happened r | _ => [] end.
Definition wrote (data : bytes) (r : poll (result IoError Z)) : list happening :=
  match r with Ready (Ok n) => [Put (take (Z.to_nat n) data)] | _ => [] end.

Definition failed (r : poll (result IoError ())) : list happening :=
  match r with Ready (Err e) => [WriteFailed e] | _ => [] end.

(** The documented behaviour: a [write] that returns [n] has written the first
    [n] octets, one that fails or waits has written none; [write_all] has
    written some first part unless it succeeds; the octets of a read are new,
    and the notification comes after [wanted] is set. *)
Class RecordedIo (T : Type) `{Io T} : Type := {
  past : T → list happening;
  past_read t : past (io_read t).2 = past t ++ ready_read (io_read t).1;
  past_select t : past (io_read_or_notified t).2 = past t ++ ready_select (io_read_or_notified t).1;
  past_write data t : past (io_write data t).2 = past t ++ wrote data (io_write data t).1;
  past_vectored slices t :
    past (io_write_vectored slices t).2 = past t ++ wrote (mjoin slices) (io_write_vectored slices t).1;
  past_write_all data t :
    ∃ n, past (io_write_all data t).2 = past t ++ Put (take n data) :: failed (io_write_all data t).1
      ∧ (∀ u, (io_write_all data t).1 = Ready (Ok u) → take n data = data);
  past_flush t : past (io_flush t).2 = past t ++ failed (io_flush t).1;
  past_send f t : past (body_send f t).2
    = past t ++ match (body_send f t).1 with Ready _ => [Gave f] | Pending => [] end;
  write_bound data t n : (io_write data t).1 = Ready (Ok n) → 0 ≤ n ≤ zlen data;
  vectored_bound slices t n : (io_write_vectored slices t).1 = Ready (Ok n) → 0 ≤ n ≤ zlen (mjoin slices);
  read_octets t c : (io_read t).1 = Ready (Ok c) → bytes_ok c;
  select_octets t c : (io_read_or_notified t).1 = Ready (Some (Ok c)) → bytes_ok c;
  notified_wanted t : (io_read_or_notified t).1 = Ready None → wanted (io_read_or_notified t).2 = true;
  vectored_write data t : is_write_vectored (io_write data t).2 = is_write_vectored t;
  vectored_vectored slices t : is_write_vectored (io_write_vectored slices t).2 = is_write_vectored t;
  vectored_write_all data t : is_write_vectored (io_write_all data t).2 = is_write_vectored t;
  vectored_flush t : is_write_vectored (io_flush t).2 = is_write_vectored t;
  vectored_read t : is_write_vectored (io_read t).2 = is_write_vectored t;
  vectored_select t : is_write_vectored (io_read_or_notified t).2 = is_write_vectored t;
  vectored_send f t : is_write_vectored (body_send f t).2 = is_write_vectored t;
}.

(** A response the handler or [error_fn] gave. *)
Definition replied_with (r : poll (result () Response)) : list happening :=
  match r with Ready (Ok r) => [Replied r] | _ => [] end.
Definition took_frame (r : poll (option (result () BodyFrame))) : list happening :=
  match r with Ready (Some (Ok f)) => [Took f] | _ => [] end.

(** The application reads and writes only through the connection; of a file a
    first part is sent, and all of it unless sending fails or waits. *)
Class RecordedService (T : Type) `{RecordedIo T} `{!Service T} : Type := {
  past_dispatch r t : past (dispatch r t) = past t ++ [Asked r];
  past_respond t : past (respond t).2 = past t ++ replied_with (respond t).1;
  past_error b t : past (error_response b t).2 = past t ++ replied_with (error_response b t).1;
  past_frame t : past (next_frame t).2 = past t ++ took_frame (next_frame t).1;
  past_interruption t : past (interruption t).2 = past t;
  past_file n t : ∃ d, past (send_file n t).2 = past t ++ Put d :: failed (send_file n t).1 ∧ zlen d ≤ Z.max 0 n
    ∧ (∀ u, 0 ≤ n → (send_file n t).1 = Ready (Ok u) → zlen d = n);
  vectored_dispatch r t : is_write_vectored (dispatch r t) = is_write_vectored t;
  vectored_respond t : is_write_vectored (respond t).2 = is_write_vectored t;
  vectored_error b t : is_write_vectored (error_response b t).2 = is_write_vectored t;
  vectored_frame t : is_write_vectored (next_frame t).2 = is_write_vectored t;
  vectored_file n t : is_write_vectored (send_file n t).2 = is_write_vectored t;
  vectored_interruption t : is_write_vectored (interruption t).2 = is_write_vectored t;
}.

(** Finitely many octets to read and notifications to get: every one leaves
    less. *)
Class FiniteIo (T : Type) `{Io T} : Type := {
  left_over : T → nat;
  left_read t : (left_over (io_read t).2 + match (io_read t).1 with Ready (Ok c) => length c | _ => 0 end ≤ left_over t)%nat;
  left_select t : (left_over (io_read_or_notified t).2 + match (io_read_or_notified t).1 with
    | Ready (Some (Ok c)) => length c | Ready None => 1 | _ => 0 end ≤ left_over t)%nat;
  left_write_all data t : (left_over (io_write_all data t).2 ≤ left_over t)%nat;
  left_flush t : (left_over (io_flush t).2 ≤ left_over t)%nat;
  left_send f t : (left_over (body_send f t).2 ≤ left_over t)%nat;
}.

Class FiniteService (T : Type) `{FiniteIo T} `{!Service T} : Type := {
  left_write data t : (left_over (io_write data t).2 ≤ left_over t)%nat;
  left_vectored slices t : (left_over (io_write_vectored slices t).2 ≤ left_over t)%nat;
  left_dispatch r t : (left_over (dispatch r t) ≤ left_over t)%nat;
  left_respond t : (left_over (respond t).2 ≤ left_over t)%nat;
  left_error b t : (left_over (error_response b t).2 ≤ left_over t)%nat;
  left_frame t : (left_over (next_frame t).2 ≤ left_over t)%nat;
  left_interruption t : (left_over (interruption t).2 ≤ left_over t)%nat;
  left_file n t : (left_over (send_file n t).2 ≤ left_over t)%nat;
}.

(** ** Reading a history *)

Definition got (h : list happening) : bytes :=
  mjoin (omap (λ e, match e with Got c => Some c | _ => None end) h).
Definition put (h : list happening) : bytes :=
  mjoin (omap (λ e, match e with Put d => Some d | _ => None end) h).
Definition gave (h : list happening) : list BodyFrame :=
  omap (λ e, match e with Gave f => Some f | _ => None end) h.

Definition asked (h : list happening) : list Request :=
  omap (λ e, match e with Asked r => Some r | _ => None end) h.
Definition took (h : list happening) : list BodyFrame :=
  omap (λ e, match e with Took f => Some f | _ => None end) h.
Definition replied (h : list happening) : list Response :=
  omap (λ e, match e with Replied r => Some r | _ => None end) h.

Lemma got_app h k : got (h ++ k) = got h ++ got k.
Proof. unfold got. by rewrite omap_app, join_app. Qed.
Lemma put_app h k : put (h ++ k) = put h ++ put k.
Proof. unfold put. by rewrite omap_app, join_app. Qed.
Lemma gave_app h k : gave (h ++ k) = gave h ++ gave k.
Proof. apply omap_app. Qed.
Lemma asked_app h k : asked (h ++ k) = asked h ++ asked k.
Proof. apply omap_app. Qed.
Lemma took_app h k : took (h ++ k) = took h ++ took k.
Proof. apply omap_app. Qed.
Lemma replied_app h k : replied (h ++ k) = replied h ++ replied k.
Proof. apply omap_app. Qed.

(** Octets were written and nothing else happened. *)
Record wrote_octets `{RecordedIo T} (d : bytes) (t t' : T) : Prop := {
  wrote_put : put (past t') = put (past t) ++ d;
  wrote_got : got (past t') = got (past t);
  wrote_gave : gave (past t') = gave (past t);
  wrote_asked : asked (past t') = asked (past t);
  wrote_took : took (past t') = took (past t);
  wrote_replied : replied (past t') = replied (past t);
  wrote_mode : is_write_vectored t' = is_write_vectored t;
}.

Lemma wrote_nothing `{RecordedIo T} (t t' : T) :
  past t' = past t → is_write_vectored t' = is_write_vectored t → wrote_octets [] t t'.
Proof. intros Hp Hm. by split; rewrite ?Hp, ?app_nil_r. Qed.

(** Nothing but a failure happened. *)
Definition quiet (h : list happening) : Prop :=
  got h = [] ∧ put h = [] ∧ gave h = [] ∧ asked h = [] ∧ took h = [] ∧ replied h = [].

Lemma failed_quiet r : quiet (failed r).
Proof. by destruct r as [[[]|e]|]. Qed.
Lemma read_failed_quiet e : quiet (read_happened (Err e)).
Proof. done. Qed.

Lemma wrote_quiet `{RecordedIo T} h (t t' : T) : past t' = past t ++ h → quiet h →
  is_write_vectored t' = is_write_vectored t → wrote_octets [] t t'.
Proof.
  intros Hp (E1 & E2 & E3 & E4 & E5 & E6) Hm.
  by split; rewrite ?Hp, ?put_app, ?got_app, ?gave_app, ?asked_app, ?took_app, ?replied_app, ?E1, ?E2, ?E3, ?E4, ?E5, ?E6, ?app_nil_r.
Qed.

Lemma wrote_trans `{RecordedIo T} d e (t t' t'' : T) :
  wrote_octets d t t' → wrote_octets e t' t'' → wrote_octets (d ++ e) t t''.
Proof. intros [] []. split; try congruence. rewrite app_assoc. congruence. Qed.

Lemma wrote_some `{RecordedIo T} d h (t t' : T) :
  past t' = past t ++ Put d :: h → quiet h → is_write_vectored t' = is_write_vectored t → wrote_octets d t t'.
Proof.
  intros Hp (E1 & E2 & E3 & E4 & E5 & E6) Hm. change (Put d :: h) with ([Put d] ++ h) in Hp.
  split; rewrite ?Hp, ?put_app, ?got_app, ?gave_app, ?asked_app, ?took_app, ?replied_app, ?E1, ?E2, ?E3, ?E4, ?E5, ?E6, ?app_nil_r; try done;
    unfold put, got, gave, asked, took, replied; cbn; by rewrite !app_nil_r.
Qed.

Lemma wrote_answer `{RecordedIo T} d r (t t' : T) : past t' = past t ++ wrote d r → is_write_vectored t' = is_write_vectored t →
  wrote_octets (match r with Ready (Ok n) => take (Z.to_nat n) d | _ => [] end) t t'.
Proof.
  destruct r as [[n|e]|]; cbn; intros Hp Hm; [by eapply (wrote_some _ [])|rewrite app_nil_r in Hp; by apply wrote_nothing..].
Qed.
End io.

#[global] Arguments got {HT} _ : simpl never.
#[global] Arguments put {HT} _ : simpl never.
#[global] Arguments gave {HT} _ : simpl never.
#[global] Arguments asked {HT} _ : simpl never.
#[global] Arguments took {HT} _ : simpl never.
#[global] Arguments replied {HT} _ : simpl never.

(** ** Prepared answers *)

(** What comes next from the peer or from the reader of the body. *)
Inductive arrival : Type :=
| Chunk_ (first : byte) (more : bytes)
| End_
| Broken (e : IoError)
| Interest.

(** What the next write does; [write_all] stops after the octets named. *)
Inductive acceptance : Type :=
| Takes (n : Z)
| Blocks (n : nat)
| Breaks (n : nat) (e : IoError).

(** [replies] are the responses of the handler and of [error_fn] in turn,
    [frames] the answers of their bodies, [limits] what ends the waits for
    heads; [upgrading] and [cancelled] are flags. *)
Record Playback `{HT : Http} : Type := MkPlayback {
  arrivals : list arrival;
  acceptances : list acceptance;
  vectored_ok : bool;
  interest : bool;
  recorded : list happening;
  replies : list (result () Response);
  frames : list (poll (option (result () BodyFrame)));
  limits : list Interruption;
  upgrading : bool;
  cancelled : bool;
}.

#[global] Arguments MkPlayback {HT} _ _ _ _ _ _ _ _ _ _.

Section playback.
Context `{HT : Http}.

Definition arrive (t : Playback) (l : list arrival) (w : bool) (h : list happening) : Playback :=
  MkPlayback l (acceptances t) (vectored_ok t) w (recorded t ++ h) (replies t) (frames t) (limits t) (upgrading t) (cancelled t).

Fixpoint next_arrival (l : list arrival) (w : bool) : poll (result IoError bytes) * (list arrival * bool) :=
  match l with
  | Interest :: l => next_arrival l true
  | Chunk_ x c :: l => (Ready (Ok ((λ x, x mod 256) <$> x :: c)), (l, w))
  | End_ :: _ => (Ready (Ok []), (l, w))
  | Broken e :: _ => (Ready (Err e), (l, w))
  | [] => (Pending, ([], w))
  end.

Definition play_read (t : Playback) : poll (result IoError bytes) * Playback :=
  let '(r, (l, w)) := next_arrival (arrivals t) (interest t) in (r, arrive t l w (ready_read r)).

Definition accept_writes (t : Playback) (h : list happening) : Playback :=
  MkPlayback (arrivals t) (tail (acceptances t)) (vectored_ok t) (interest t) (recorded t ++ h)
    (replies t) (frames t) (limits t) (upgrading t) (cancelled t).

Definition serve (t : Playback) (h : list happening) (rs : list (result () Response))
    (fs : list (poll (option (result () BodyFrame)))) (ls : list Interruption) : Playback :=
  MkPlayback (arrivals t) (acceptances t) (vectored_ok t) (interest t) (recorded t ++ h) rs fs ls (upgrading t) (cancelled t).

Definition play_write (data : bytes) (t : Playback) : poll (result IoError Z) * Playback :=
  let r := match head (acceptances t) with
    | None => Ready (Ok (zlen data))
    | Some (Takes n) => Ready (Ok (Z.max 0 (Z.min n (zlen data))))
    | Some (Blocks _) => Pending
    | Some (Breaks _ e) => Ready (Err e)
    end in
  (r, accept_writes t (wrote data r)).

Definition play_write_all (data : bytes) (t : Playback) : poll (result IoError ()) * Playback :=
  match head (acceptances t) with
  | None | Some (Takes _) => (Ready (Ok ()), accept_writes t [Put data])
  | Some (Blocks n) => (Pending, accept_writes t [Put (take n data)])
  | Some (Breaks n e) => (Ready (Err e), accept_writes t [Put (take n data); WriteFailed e])
  end.

#[export] Instance playback_io : Io Playback := {
  io_read := play_read;
  io_read_or_notified t :=
    match arrivals t with
    | Interest :: l => (Ready None, arrive t l true [])
    | _ => let '(r, t') := play_read t in (match r with Ready r => Ready (Some r) | Pending => Pending end, t')
    end;
  io_write := play_write;
  io_write_vectored l := play_write (mjoin l);
  io_write_all := play_write_all;
  io_flush t := (Ready (Ok ()), t);
  is_write_vectored := vectored_ok;
  wanted := interest;
  body_send f t := (Ready (), arrive t (arrivals t) (interest t) [Gave f]);
}.

Definition play_reply (t : Playback) : poll (result () Response) * Playback :=
  let r := match replies t with r :: _ => Ready r | [] => Pending end in
  (r, serve t (replied_with r) (tail (replies t)) (frames t) (limits t)).
Definition play_frame (t : Playback) : poll (option (result () BodyFrame)) * Playback :=
  let r := match frames t with r :: _ => r | [] => Ready None end in
  (r, serve t (took_frame r) (replies t) (tail (frames t)) (limits t)).

(** The clock stands still, and a file is all zeros. *)
#[export] Instance playback_service : Service Playback := {
  dispatch r t := serve t [Asked r] (replies t) (frames t) (limits t);
  respond := play_reply;
  error_response _ := play_reply;
  next_frame := play_frame;
  was_upgraded := upgrading;
  is_cancelled := cancelled;
  interruption t :=
    (match limits t with l :: _ => Ready l | [] => Pending end, serve t [] (replies t) (frames t) (tail (limits t)));
  clock _ := 0;
  zerocopy_enabled _ := false;
  send_file n t := play_write_all (replicate (Z.to_nat n) 0) t;
}.

Lemma play_read_past t : recorded (play_read t).2 = recorded t ++ ready_read (play_read t).1.
Proof. unfold play_read. by destruct (next_arrival _ _) as [r [l w]]. Qed.

Lemma next_arrival_octets l w c : (next_arrival l w).1 = Ready (Ok c) → bytes_ok c.
Proof.
  revert w. induction l as [|[x d| | |] l IH]; intros w; cbn [next_arrival fst]; try done.
  - intros Hc. injection Hc as <-. change (bytes_ok ((λ x, x mod 256) <$> x :: d)).
    apply Forall_fmap, Forall_forall. intros y _. cbn. unfold is_byte. dlia.
  - by intros [= <-].
  - apply IH.
Qed.

Definition arrival_size (a : arrival) : nat := match a with Chunk_ _ c => S (length c) | Interest => 1 | _ => 0 end.
Definition still_to_come (l : list arrival) : nat := foldr (λ a n, arrival_size a + n)%nat 0%nat l.

Lemma next_arrival_length l w :
  (still_to_come (next_arrival l w).2.1 + match (next_arrival l w).1 with Ready (Ok c) => length c | _ => 0 end ≤ still_to_come l)%nat.
Proof.
  revert w. induction l as [|[x d| |e|] l IH]; intros w; [done|..].
  - change (still_to_come (Chunk_ x d :: l)) with (S (length d) + still_to_come l)%nat. cbn [next_arrival fst snd].
    rewrite length_fmap. cbn [length]. lia.
  - cbn. lia.
  - cbn. lia.
  - change (still_to_come (Interest :: l)) with (1 + still_to_come l)%nat. specialize (IH true). cbn [next_arrival]. lia.
Qed.

Lemma play_write_bound data t n : (play_write data t).1 = Ready (Ok n) → 0 ≤ n ≤ zlen data.
Proof.
  pose proof (zlen_nonneg data). unfold play_write. cbn. destruct (head _) as [[m|m|m e]|]; intros [= <-]; lia.
Qed.

#[export] Program Instance playback_recorded : RecordedIo Playback := {| past := recorded |}.
Next Obligation. apply play_read_past. Qed.
Next Obligation.
  intros t. pose proof (play_read_past t) as Hr. cbn. destruct (arrivals t) as [|[x c| |e|] l]; cbn; rewrite ?app_nil_r; try done;
    destruct (play_read t) as [[[c'|e']|] t']; cbn in *; done.
Qed.
Next Obligation. done. Qed.
Next Obligation. done. Qed.
Next Obligation.
  intros data t. cbn. unfold play_write_all. destruct (head _) as [[n|n|n e]|]; cbn.
  - exists (length data). by rewrite take_ge.
  - by exists n.
  - by exists n.
  - exists (length data). by rewrite take_ge.
Qed.
Next Obligation. intros t. symmetry. apply app_nil_r. Qed.
Next Obligation. done. Qed.
Next Obligation. intros data t n. apply play_write_bound. Qed.
Next Obligation. intros l t n. apply play_write_bound. Qed.
Next Obligation.
  intros t c. cbn. unfold play_read. pose proof (next_arrival_octets (arrivals t) (interest t) c) as Ho.
  destruct (next_arrival _ _) as [r [l w]]. apply Ho.
Qed.
Next Obligation.
  intros t c. cbn. unfold play_read. pose proof (next_arrival_octets (arrivals t) (interest t) c) as Ho.
  destruct (next_arrival _ _) as [[r|] [l w]]; destruct (arrivals t) as [|[x d| |e|] l']; cbn in *; try done;
    intros [= ->]; by apply Ho.
Qed.
Next Obligation.
  intros t. cbn. destruct (play_read t) as [[r|] t']; destruct (arrivals t) as [|[x d| |e|] l']; done.
Qed.

Next Obligation. done. Qed.
Next Obligation. done. Qed.
Next Obligation. intros data t. cbn. unfold play_write_all. by destruct (head _) as [[n|n|n e]|]. Qed.
Next Obligation. done. Qed.

Next Obligation. intros t. cbn. unfold play_read. by destruct (next_arrival _ _) as [r [l w]]. Qed.
Next Obligation.
  intros t. cbn. unfold play_read. destruct (next_arrival (arrivals t) (interest t)) as [[r|] [l' w]];
    by destruct (arrivals t) as [|[x c| |e|] l].
Qed.
Next Obligation. done. Qed.

#[export] Program Instance playback_finite : FiniteIo Playback := {| left_over t := still_to_come (arrivals t) |}.
Next Obligation.
  intros t. cbn -[still_to_come]. unfold play_read. pose proof (next_arrival_length (arrivals t) (interest t)) as Hl.
  destruct (next_arrival _ _) as [r [l w]]. exact Hl.
Qed.
Next Obligation.
  intros t. cbn -[still_to_come]. unfold play_read. pose proof (next_arrival_length (arrivals t) (interest t)) as Hl.
  destruct (arrivals t) as [|[x d| |e|] l'] eqn:E; try (destruct (next_arrival _ _) as [[[c|e']|] [l w]]; exact Hl).
  change (still_to_come (Interest :: l')) with (1 + still_to_come l')%nat. cbn [fst snd arrivals arrive]. lia.
Qed.
Next Obligation. intros data t. cbn -[still_to_come]. unfold play_write_all. destruct (head _) as [[n|n|n e]|]; cbn -[still_to_come]; lia. Qed.
Next Obligation. intros t. cbn -[still_to_come]. lia. Qed.
Next Obligation. intros f t. cbn -[still_to_come]. lia. Qed.

#[export] Program Instance playback_recorded_service : RecordedService Playback.
Next Obligation. done. Qed.
Next Obligation. done. Qed.
Next Obligation. done. Qed.
Next Obligation. done. Qed.
Next Obligation. intros t. apply app_nil_r. Qed.
Next Obligation.
  intros n t. destruct (past_write_all (replicate (Z.to_nat n) 0) t) as (k & Hp & Hall). eexists. split; [exact Hp|].
  split; [unfold zlen; rewrite length_take, length_replicate; lia|]. intros u Hn Hr. rewrite (Hall u Hr). unfold zlen. rewrite length_replicate. lia.
Qed.
Next Obligation. done. Qed.
Next Obligation. done. Qed.
Next Obligation. done. Qed.
Next Obligation. done. Qed.
Next Obligation. intros n t. cbn. unfold play_write_all. by destruct (head _) as [[]|]. Qed.
Next Obligation. done. Qed.

#[export] Program Instance playback_finite_service : FiniteService Playback.
Solve All Obligations with (intros; cbn -[still_to_come]; try unfold play_write_all; try destruct (head _) as [[]|]; cbn -[still_to_come]; lia).
End playback.

(** A stream that delivers these, and takes what is written; an application that
    answers nothing. *)
Definition playback `{HT : Http} (l : list arrival) : Playback := MkPlayback l [] true false [] [] [] [] false false.
