(* ===== verification/H1WriteBuf.v ===== *)
(** * The write buffer of HTTP/1 (src/src/h1/writebuf.rs)

    [WriteBuf] queues slices of memory it does not copy: slices the caller
    keeps, [Bytes] it holds beside them, and slices of chunks it copies into.
    A slice is modelled as the pointer it is; reading it looks into the memory
    it points to, so a chunk that moves or is freed leaves its slices dangling.
    The refinement at the end says that none ever dangles and that the buffer
    is a queue of octets. *)

From S2P Require Import Prelude Poll H2Request H1Io.

(** ** State *)

Definition COPIED_CHUNK_CAPACITY : Z := 1024.
Definition FLATTEN_WRITE_LIMIT : Z := 16384.

(** Where a slice points to: the caller's memory, the [Bytes] kept beside it,
    or the chunk at an address. *)
Inductive Memory : Type :=
| Borrowed (data : bytes)
| Owned
| Copied (address : nat).

Record IoSlice : Type := MkIoSlice { memory : Memory; slice_start : Z; slice_len : Z }.

(** A [BytesMut] of [copied_chunks]. *)
Record Chunk : Type := MkChunk { address : nat; capacity : Z; content : bytes }.

(** [allocated] numbers the addresses handed out. *)
Record WriteBuf : Type := MkWriteBuf {
  slices : list IoSlice;
  owned_bytes : list (option bytes);
  copied_chunks : list Chunk;
  flattened : bytes;
  queued_bytes : Z;
  allocated : nat;
}.

Definition new_write_buf : WriteBuf := MkWriteBuf [] [] [] [] 0 0.

(** ** Reading slices *)

Definition chunk_at (chunks : list Chunk) (a : nat) : option Chunk :=
  head (filter (λ c, address c = a) chunks).

(** What a slice points to; nothing when its memory is gone. *)
Definition read_slice (chunks : list Chunk) (x : IoSlice * option bytes) : option bytes :=
  let '(MkIoSlice m start len, owned) := x in
  target ← match m with
    | Borrowed data => Some data
    | Owned => owned
    | Copied a => content <$> chunk_at chunks a
    end;
  zslice target start (start + len).

Definition views (w : WriteBuf) : option (list bytes) :=
  mapM (read_slice (copied_chunks w)) (zip (slices w) (owned_bytes w)).

(** ** Queueing *)

Section buf.
(** [BytesMut::with_capacity], which may give more than it is asked for. *)
Context (with_capacity : Z → Z).

Definition queue (s : IoSlice) (owned : option bytes) (chunks : list Chunk) (allocated : nat) (w : WriteBuf) : WriteBuf :=
  MkWriteBuf (slices w ++ [s]) (owned_bytes w ++ [owned]) chunks (flattened w)
    (queued_bytes w + slice_len s) allocated.

Definition push (data : bytes) (w : WriteBuf) : WriteBuf :=
  queue (MkIoSlice (Borrowed data) 0 (zlen data)) None (copied_chunks w) (allocated w) w.

Definition push_bytes (data : bytes) (w : WriteBuf) : WriteBuf :=
  if bool_decide (data = []) then w
  else queue (MkIoSlice Owned 0 (zlen data)) (Some data) (copied_chunks w) (allocated w) w.

(** [BytesMut::extend_from_slice] moves the chunk when it has no room. *)
Definition extend_from_slice (c : Chunk) (data : bytes) (allocated : nat) : Chunk * nat :=
  let l := content c ++ data in
  if zlen l <=? capacity c then (MkChunk (address c) (capacity c) l, allocated)
  else (MkChunk allocated (with_capacity (zlen l)) l, S allocated).

(** The chunks, the last of which has room for so much. *)
Definition make_room (len : Z) (w : WriteBuf) : list Chunk * nat :=
  let need_new_chunk := match last (copied_chunks w) with
    | None => true
    | Some chunk => capacity chunk - zlen (content chunk) <? len
    end in
  if need_new_chunk then
    (copied_chunks w ++ [MkChunk (allocated w) (with_capacity (Z.max len COPIED_CHUNK_CAPACITY)) []], S (allocated w))
  else (copied_chunks w, allocated w).

Definition push_copy (data : bytes) (w : WriteBuf) : WriteBuf :=
  if bool_decide (data = []) then w
  else
    let '(chunks, n) := make_room (zlen data) w in
    match pop_back chunks with
    | None => w
    | Some (chunk, before) =>
        let '(chunk', n) := extend_from_slice chunk data n in
        queue (MkIoSlice (Copied (address chunk')) (zlen (content chunk)) (zlen data)) None (before ++ [chunk']) n w
    end.

Definition buf_len (w : WriteBuf) : Z := queued_bytes w.

(** ** Writing *)

(** [fill_flattened]'s loop. *)
Fixpoint fill_loop (target : Z) (flat : bytes) (l : list bytes) : bytes :=
  match l with
  | [] => flat
  | slice :: l =>
      let remaining := target - zlen flat in
      if remaining =? 0 then flat
      else
        let to_copy := Z.min (zlen slice) remaining in
        let flat := flat ++ take (Z.to_nat to_copy) slice in
        if to_copy <? zlen slice then flat else fill_loop target flat l
  end.

Definition fill_flattened (limit : Z) (l : list bytes) (w : WriteBuf) : WriteBuf :=
  MkWriteBuf (slices w) (owned_bytes w) (copied_chunks w) (fill_loop (Z.min limit (queued_bytes w)) [] l)
    (queued_bytes w) (allocated w).

(** [IoSlice::advance_slices]: how many slices are used up, and what is left of
    the others; [None] where it panics. *)
Fixpoint advance_slices (l : list IoSlice) (n : Z) : option (nat * list IoSlice) :=
  match l with
  | [] => if n =? 0 then Some (0%nat, []) else None
  | s :: l' =>
      if slice_len s <=? n then
        '(k, rest) ← advance_slices l' (n - slice_len s); Some (S k, rest)
      else Some (0%nat, MkIoSlice (memory s) (slice_start s + n) (slice_len s - n) :: l')
  end.

(** The chunks once no slice is left: the last one, emptied. *)
Definition retain_chunk (chunks : list Chunk) : list Chunk :=
  match last chunks with None => [] | Some c => [MkChunk (address c) (capacity c) []] end.

Definition consume_written (written : Z) (w : WriteBuf) : option WriteBuf :=
  let queued := Z.max 0 (queued_bytes w - written) in
  '(consumed, rest) ← advance_slices (slices w) written;
  Some (match rest with
    | [] => MkWriteBuf [] [] (retain_chunk (copied_chunks w)) [] 0 (allocated w)
    | _ => MkWriteBuf rest (drop consumed (owned_bytes w)) (copied_chunks w) (flattened w) queued (allocated w)
    end).

Context `{HT : Http} {T : Type} `{!Io T}.

Abbreviation writing := (op (WriteBuf * T) IoError).

Definition on_stream {A} (f : T → poll (result IoError A) * T) : writing A :=
  r ← ready (λ s, let '(a, t) := f s.2 in (Done a, (s.1, t)));
  lift id r.

(** [self.slices.make_contiguous()], read by the system. *)
Definition gathered : writing (list bytes) :=
  s ← self; match views s.1 with Some l => mret l | None => stuck end.

Definition consume (n : Z) : writing () :=
  s ← self; match consume_written n s.1 with Some w => modify (λ s, (w, s.2)) | None => stuck end.

Definition write_zero : IoError := MkIoError WriteZero "".

Definition no_slices (w : WriteBuf) : bool := match slices w with [] => true | _ => false end.

Definition write_vectored_inner : writing Z :=
  s ← self;
  if no_slices s.1 then mret 0
  else
    l ← gathered;
    n ← on_stream (io_write_vectored l);
    if n =? 0 then fail write_zero else _ ← consume n; mret n.

Definition flatten : writing bytes :=
  l ← gathered;
  _ ← modify (λ s, (fill_flattened FLATTEN_WRITE_LIMIT l s.1, s.2));
  s ← self; mret (flattened s.1).

Definition write_flattened_inner : writing Z :=
  s ← self;
  if no_slices s.1 then mret 0
  else
    data ← flatten;
    n ← on_stream (io_write data);
    if n =? 0 then fail write_zero else _ ← consume n; mret n.

(** The loops of [flush_vectored_inner] and [flush_flattened_inner]; every turn
    writes an octet or empties the queue. *)
Fixpoint flush_vectored_inner (fuel : nat) : writing () :=
  s ← self;
  if no_slices s.1 then mret ()
  else match fuel with
  | O => stuck
  | S fuel =>
      l ← gathered;
      n ← on_stream (io_write_vectored l);
      if n =? 0 then fail write_zero else _ ← consume n; flush_vectored_inner fuel
  end.

Fixpoint flush_flattened_inner (fuel : nat) : writing () :=
  s ← self;
  if no_slices s.1 then mret ()
  else match fuel with
  | O => stuck
  | S fuel =>
      data ← flatten;
      _ ← on_stream (io_write_all data);
      _ ← consume (zlen data);
      flush_flattened_inner fuel
  end.

Definition write (use_vectored : bool) : writing Z :=
  s ← self;
  if is_write_vectored s.2 && use_vectored then write_vectored_inner else write_flattened_inner.

Definition flush (use_vectored : bool) : writing () :=
  s ← self;
  let fuel := S (Z.to_nat (queued_bytes s.1)) in
  if is_write_vectored s.2 && use_vectored then flush_vectored_inner fuel else flush_flattened_inner fuel.
End buf.

(** ** A queue of octets *)

(** The buffer holds [l]: every slice can be read and together they are [l];
    no chunk is over its capacity, and none shares its address. *)
Record holds (w : WriteBuf) (l : bytes) : Prop := {
  beside : length (owned_bytes w) = length (slices w);
  readable : ∃ vs, views w = Some vs ∧ mjoin vs = l;
  counted : queued_bytes w = zlen l;
  roomy : Forall (λ c, zlen (content c) ≤ capacity c) (copied_chunks w);
  placed : Forall (λ c, (address c < allocated w)%nat) (copied_chunks w);
  apart : NoDup (address <$> copied_chunks w);
}.

Lemma zslice_app_l {A} (l k : list A) i j v : zslice l i j = Some v → zslice (l ++ k) i j = Some v.
Proof.
  unfold zslice. rewrite zlen_app. pose proof (zlen_nonneg k).
  destruct (0 <=? i) eqn:?; [|done]. destruct (i <=? j) eqn:?; [|done].
  destruct (j <=? zlen l) eqn:?; [|done]. replace (j <=? zlen l + zlen k) with true by lia. cbn.
  intros [= <-]. f_equal. unfold zlen in *. rewrite drop_app_le by lia. apply take_app_le. rewrite length_drop. lia.
Qed.

Lemma zslice_len {A} (l : list A) i n v : zslice l i (i + n) = Some v → n = zlen v.
Proof.
  unfold zslice. destruct (0 <=? i) eqn:?; [|done]. destruct (i <=? i + n) eqn:?; [|done].
  destruct (i + n <=? zlen l) eqn:?; [|done]. intros [= <-]. unfold zlen in *. rewrite length_take, length_drop. lia.
Qed.

Lemma zslice_advance {A} (l : list A) i m n v :
  0 ≤ n ≤ m → zslice l i (i + m) = Some v → zslice l (i + n) (i + n + (m - n)) = Some (drop (Z.to_nat n) v).
Proof.
  intros Hn. unfold zslice. destruct (0 <=? i) eqn:?; [|done]. destruct (i <=? i + m) eqn:?; [|done].
  destruct (i + m <=? zlen l) eqn:?; [|done]. replace (0 <=? i + n) with true by lia.
  replace (i + n <=? i + n + (m - n)) with true by lia. replace (i + n + (m - n) <=? zlen l) with true by lia.
  cbn. intros [= <-]. f_equal. rewrite skipn_firstn_comm, drop_drop. f_equal; [lia|]. f_equal. lia.
Qed.

Lemma zslice_whole {A} (l : list A) : zslice l 0 (zlen l) = Some l.
Proof. rewrite <- (app_nil_r l) at 1. apply (zslice_app [] l []). Qed.

Lemma read_slice_len chunks s o v : read_slice chunks (s, o) = Some v → slice_len s = zlen v.
Proof.
  destruct s as [m i n]. cbn. intros H. apply bind_Some in H as (t & _ & H). by apply zslice_len in H.
Qed.

Lemma chunk_at_snoc l c a :
  chunk_at (l ++ [c]) a = match chunk_at l a with Some d => Some d
    | None => if decide (address c = a) then Some c else None end.
Proof.
  unfold chunk_at. rewrite filter_app. destruct (filter _ l) as [|d k]; [|done]. cbn.
  by destruct (decide (address c = a)).
Qed.

Lemma chunk_at_None l a : a ∉ (address <$> l) → chunk_at l a = None.
Proof.
  intros H. unfold chunk_at. destruct (filter _ l) as [|c k] eqn:E; [done|]. exfalso.
  assert (c ∈ filter (λ c, address c = a) l) as Hc by (rewrite E; left).
  apply list_elem_of_filter in Hc as [<- Hc]. apply H, list_elem_of_fmap. eauto.
Qed.

(** Chunks that only grow at their ends. *)
Definition grows_to (l k : list Chunk) : Prop :=
  ∀ a c, chunk_at l a = Some c → ∃ d, chunk_at k a = Some d ∧ content c `prefix_of` content d.

Lemma read_slice_grow l k x v : grows_to l k → read_slice l x = Some v → read_slice k x = Some v.
Proof.
  intros Hg. destruct x as [[m i n] o]. cbn. intros H. apply bind_Some in H as (t & Ht & H). destruct m as [d| |a].
  - by injection Ht as ->.
  - by rewrite Ht.
  - destruct (chunk_at l a) as [c|] eqn:E; [|done]. injection Ht as <-.
    destruct (Hg _ _ E) as (c' & Hc & [more Hm]). rewrite Hc. cbn. rewrite Hm. by apply zslice_app_l.
Qed.

Lemma views_snoc w s o chunks n v l :
  holds w l → grows_to (copied_chunks w) chunks → read_slice chunks (s, o) = Some v →
  Forall (λ c, zlen (content c) ≤ capacity c) chunks → Forall (λ c, (address c < n)%nat) chunks →
  NoDup (address <$> chunks) → holds (queue s o chunks n w) (l ++ v).
Proof.
  intros [Hb (vs & Hv & <-) Hc _ _ _] Hg Hs Hr Hp Ha. unfold queue. split; cbn; [rewrite !length_app; cbn; lia| | |done..].
  - exists (vs ++ [v]). unfold views in *. cbn. rewrite zip_with_app by done. apply mapM_Some in Hv.
    split; [|by rewrite join_app; cbn; rewrite app_nil_r]. apply mapM_Some, Forall2_app; [|by repeat constructor].
    eapply Forall2_impl; [exact Hv|]. intros x y. by apply read_slice_grow.
  - rewrite Hc, zlen_app. f_equal. eauto using read_slice_len.
Qed.

Section queueing.
Context (with_capacity : Z → Z) (Hcap : ∀ n, n ≤ with_capacity n).

Lemma new_write_buf_holds : holds new_write_buf [].
Proof. split; try done; try constructor. by exists []. Qed.

Lemma grows_refl l : grows_to l l.
Proof. intros a c Hc. exists c. split; [done|reflexivity]. Qed.

Lemma push_holds data w l : holds w l → holds (push data w) (l ++ data).
Proof.
  intros H. apply views_snoc; [done|apply grows_refl| |apply H..]. cbn. apply (zslice_whole data).
Qed.

Lemma push_bytes_holds data w l : holds w l → holds (push_bytes data w) (l ++ data).
Proof.
  intros H. unfold push_bytes. destruct (bool_decide_reflect (data = [])) as [->|_]; [by rewrite app_nil_r|].
  apply views_snoc; [done|apply grows_refl| |apply H..]. cbn. apply (zslice_whole data).
Qed.

(** Copying into the last chunk, which has room. *)
Lemma copy_holds data w l before c n :
  holds w l → grows_to (copied_chunks w) (before ++ [c]) → zlen (content c) + zlen data ≤ capacity c →
  Forall (λ c, zlen (content c) ≤ capacity c) (before ++ [c]) → Forall (λ c, (address c < n)%nat) (before ++ [c]) →
  NoDup (address <$> before ++ [c]) →
  holds (queue (MkIoSlice (Copied (address c)) (zlen (content c)) (zlen data)) None
    (before ++ [MkChunk (address c) (capacity c) (content c ++ data)]) n w) (l ++ data).
Proof.
  intros H Hg Hroom Hr Hp Ha. apply Forall_app in Hr as [Hr _]. apply Forall_app in Hp as [Hp Hpc].
  rewrite fmap_app in Ha. assert (address c ∉ (address <$> before)) as Hfresh.
  { apply NoDup_app in Ha as (_ & Hd & _). intros Hin. apply (Hd _ Hin). by left. }
  apply views_snoc; [done| | | | |by rewrite fmap_app].
  - intros a d Hd. destruct (Hg _ _ Hd) as (d' & Hd' & Hpre). rewrite chunk_at_snoc in Hd' |- *. cbn.
    destruct (chunk_at before a) as [e|]; [by injection Hd' as ->; eauto|].
    destruct (decide (address c = a)); [|done]. injection Hd' as <-. eexists; split; [done|]. cbn.
    destruct Hpre as [m ->]. exists (m ++ data). by rewrite app_assoc.
  - cbn. rewrite chunk_at_snoc, chunk_at_None by done. cbn. rewrite decide_True by done. cbn.
    pose proof (zslice_app (content c) data []) as Hz. by rewrite app_nil_r in Hz.
  - apply Forall_app. split; [done|]. apply Forall_singleton. cbn. by rewrite zlen_app.
  - apply Forall_app. split; [done|]. rewrite Forall_singleton in Hpc. repeat constructor. exact Hpc.
Qed.

Lemma room_made len w l : holds w l → 0 ≤ len →
  ∃ before c n, make_room with_capacity len w = (before ++ [c], n) ∧ zlen (content c) + len ≤ capacity c
    ∧ grows_to (copied_chunks w) (before ++ [c])
    ∧ Forall (λ c, zlen (content c) ≤ capacity c) (before ++ [c]) ∧ Forall (λ c, (address c < n)%nat) (before ++ [c])
    ∧ NoDup (address <$> before ++ [c]).
Proof.
  intros [_ _ _ Hr Hp Ha] Hlen. unfold make_room. destruct (match last _ with None => _ | Some c => _ end) eqn:E.
  - eexists _, _, _. split; [done|]. pose proof (Hcap (Z.max len COPIED_CHUNK_CAPACITY)).
    split_and!; [cbn; rewrite zlen_nil; lia| | | |].
    + intros a d Hd. exists d. by rewrite chunk_at_snoc, Hd.
    + apply Forall_app. split; [done|]. apply Forall_singleton. cbn. rewrite zlen_nil. lia.
    + apply Forall_app. split; [eapply Forall_impl; [exact Hp|cbn; lia]|]. apply Forall_singleton. cbn. lia.
    + rewrite fmap_app. apply NoDup_app. split; [done|]. split; [|apply NoDup_singleton]. cbn. intros a Hin Hin'.
      apply list_elem_of_singleton in Hin' as ->. apply list_elem_of_fmap in Hin as (d & Hd & Hin).
      rewrite Forall_forall in Hp. specialize (Hp _ Hin). lia.
  - destruct (last (copied_chunks w)) as [c|] eqn:El; [|done]. apply last_Some in El as [before El].
    exists before, c, (allocated w). rewrite <- El. apply Z.ltb_ge in E.
    split_and!; [done|lia|apply grows_refl|done..].
Qed.

Lemma push_copy_holds data w l : holds w l → holds (push_copy with_capacity data w) (l ++ data).
Proof.
  intros H. unfold push_copy. destruct (bool_decide_reflect (data = [])) as [->|_]; [by rewrite app_nil_r|].
  destruct (room_made (zlen data) w l H (zlen_nonneg _)) as (before & c & n & -> & Hroom & Hg & Hr & Hp & Ha).
  rewrite pop_back_snoc. unfold extend_from_slice. rewrite zlen_app, (proj2 (Z.leb_le _ _)) by done.
  exact (copy_holds data w l before c n H Hg Hroom Hr Hp Ha).
Qed.
End queueing.

(** *** Taking octets off the front *)

Lemma advance_slices_spec chunks l o vs n :
  length o = length l → Forall2 (λ x v, read_slice chunks x = Some v) (zip l o) vs → 0 ≤ n ≤ zlen (mjoin vs) →
  ∃ k rest vs', advance_slices l n = Some (k, rest) ∧ length (drop k o) = length rest
    ∧ (n = zlen (mjoin vs) → rest = [])
    ∧ Forall2 (λ x v, read_slice chunks x = Some v) (zip rest (drop k o)) vs' ∧ mjoin vs' = drop (Z.to_nat n) (mjoin vs).
Proof.
  revert o vs n. induction l as [|s l IH]; intros [|x o] vs n Hl Hv Hn; try done.
  { apply Forall2_nil_inv_l in Hv as ->. unfold zlen in Hn. cbn in Hn. exists 0%nat, [], []. cbn.
    rewrite (proj2 (Z.eqb_eq n 0)) by lia. by rewrite drop_nil. }
  cbn [zip zip_with] in Hv. apply Forall2_cons_inv_l in Hv as (v & us & Hs & Hv & ->).
  change (mjoin (v :: us)) with (v ++ mjoin us) in *.
  rewrite zlen_app in Hn. pose proof (zlen_nonneg v). pose proof (read_slice_len _ _ _ _ Hs) as Hlen.
  cbn [advance_slices]. destruct (Z.leb_spec (slice_len s) n).
  - destruct (IH o us (n - slice_len s)) as (k & rest & us' & E & Hk & Hn' & Hu & Hj); [cbn in Hl; lia|done|lia|].
    exists (S k), rest, us'. rewrite E. split_and!; [done..|intros Hz; rewrite zlen_app in Hz; apply Hn'; lia|done|].
    rewrite Hj, drop_app_ge by (unfold zlen in *; lia). f_equal. unfold zlen in *. lia.
  - eexists 0%nat, _, (drop (Z.to_nat n) v :: us). split; [done|]. cbn. split; [done|].
    split; [pose proof (zlen_nonneg (mjoin us)); intros Hz; rewrite zlen_app in Hz; lia|]. split.
    + constructor; [|done]. destruct s as [m i len]. cbn in *. apply bind_Some in Hs as (t & -> & Hs). cbn.
      apply (zslice_advance _ _ _ n) in Hs; [done|lia].
    + rewrite drop_app_le by (unfold zlen in *; lia). done.
Qed.

Lemma consume_holds n w l : holds w l → 0 ≤ n ≤ zlen l →
  ∃ w', consume_written n w = Some w' ∧ holds w' (drop (Z.to_nat n) l) ∧ (n = zlen l → slices w' = []).
Proof.
  intros [Hb (vs & Hv & <-) Hc Hr Hp Ha] Hn. apply mapM_Some in Hv.
  destruct (advance_slices_spec _ _ _ _ _ Hb Hv Hn) as (k & rest & us & E & Hk & Hend & Hu & Hj). unfold consume_written.
  rewrite E. cbn. destruct rest as [|s rest].
  - eexists. split; [done|]. split; [|done]. destruct (drop k _) in Hu, Hk; [|done]. cbn in Hu. apply Forall2_nil_inv_l in Hu as ->.
    rewrite <- Hj. unfold retain_chunk. destruct (last (copied_chunks w)) as [c|] eqn:El.
    + apply last_Some in El as [before El]. rewrite El in Hr, Hp. apply Forall_app in Hr as [_ Hr], Hp as [_ Hp].
      rewrite Forall_singleton in Hr, Hp. pose proof (zlen_nonneg (content c)).
      split; cbn; [done|by exists []|done| |by repeat constructor|apply NoDup_singleton].
      repeat constructor. cbn. rewrite zlen_nil. lia.
    + split; cbn; [done|by exists []|done|constructor..].
  - eexists. split; [done|]. split; [|intros ->; by destruct (Hend eq_refl)]. split; cbn -[zip_with]; [done| | |done..].
    + exists us. split; [|done]. by apply mapM_Some.
    + rewrite Hc. unfold zlen in *. rewrite length_drop. lia.
Qed.

Lemma fill_loop_spec target flat l :
  zlen flat ≤ target → fill_loop target flat l = flat ++ take (Z.to_nat (target - zlen flat)) (mjoin l).
Proof.
  revert flat. induction l as [|v l IH]; intros flat H; cbn [fill_loop];
    [cbn; by rewrite take_nil, app_nil_r|]. change (mjoin (v :: l)) with (v ++ mjoin l). pose proof (zlen_nonneg v).
  destruct (Z.eqb_spec (target - zlen flat) 0) as [->|Hne]; [by rewrite take_0, app_nil_r|].
  destruct (Z.ltb_spec (Z.min (zlen v) (target - zlen flat)) (zlen v)).
  - rewrite Z.min_r by lia. rewrite take_app_le by (unfold zlen in *; lia). done.
  - rewrite Z.min_l by lia. rewrite (take_ge v) by (unfold zlen; lia). rewrite IH by (rewrite zlen_app; lia).
    rewrite <- app_assoc, zlen_app. rewrite take_app_ge by (unfold zlen in *; lia). do 3 f_equal. unfold zlen in *. lia.
Qed.

Lemma fill_holds limit vs w l : holds w l → 0 ≤ limit → mjoin vs = l →
  holds (fill_flattened limit vs w) l ∧ flattened (fill_flattened limit vs w) = take (Z.to_nat limit) l.
Proof.
  intros [Hb Hv Hc Hr Hp Ha] Hlim <-. split; [by split|]. cbn. rewrite Hc, fill_loop_spec; rewrite zlen_nil.
  - cbn. pose proof (zlen_nonneg (mjoin vs)). destruct (Z.min_spec limit (zlen (mjoin vs))) as [[_ ->]|[? ->]]; rewrite Z.sub_0_r; [done|].
    rewrite !take_ge; [done|unfold zlen in *; lia..].
  - zlia.
Qed.

(** *** Writing *)

Section writing.
Context (with_capacity : Z → Z) (Hcap : ∀ n, n ≤ with_capacity n).
Context `{HT : Http} {T : Type} `{!Io T} `{!RecordedIo T}.

Abbreviation state := (WriteBuf * T)%type.
Abbreviation writing := (op state IoError).

(** The first [n] octets left, and the buffer holds the others. *)
Definition took_off (n : nat) (l : bytes) (t : T) (s : state) : Prop :=
  holds s.1 (drop n l) ∧ wrote_octets (take n l) t s.2.

Lemma took_nothing w l t : holds w l → took_off 0 l t (w, t).
Proof. intros H. split; [done|]. by apply wrote_nothing. Qed.

Lemma took_trans m n l t s s' : took_off m l t s → took_off n (drop m l) s.2 s' → took_off (m + n) l t s'.
Proof.
  intros [_ H1] [H2 H3]. rewrite drop_drop in H2. split; [done|].
  rewrite <- take_take_drop. by eapply wrote_trans.
Qed.

Lemma wp_gathered w l t (Q : outcome IoError (list bytes) → state → Prop) : holds w l →
  (∀ vs, mjoin vs = l → views w = Some vs → Q (Done vs) (w, t)) → wp gathered Q (w, t).
Proof. intros [_ (vs & Hv & Hl) _ _ _ _] HQ. unfold gathered. rewrite wp_self. cbn. rewrite Hv. by apply HQ. Qed.

Lemma wp_on_stream {A} (f : T → poll (result IoError A) * T) Q (s : state) :
  wp (on_stream f) Q s ↔ match (f s.2).1 with
    | Ready (Ok a) => Q (Done a) (s.1, (f s.2).2) | Ready (Err e) => Q (Fail e) (s.1, (f s.2).2)
    | Pending => Q Wait (s.1, (f s.2).2) end.
Proof.
  unfold on_stream. rewrite wp_bind, wp_ready. unfold wp. cbn. destruct (f s.2) as [[[a|e]|] t']; done.
Qed.

Lemma wp_consume n w l t (Q : outcome IoError () → state → Prop) : holds w l → 0 ≤ n ≤ zlen l →
  (∀ w', holds w' (drop (Z.to_nat n) l) → (n = zlen l → no_slices w' = true) → Q (Done ()) (w', t)) → wp (consume n) Q (w, t).
Proof.
  intros Hw Hn HQ. unfold consume. rewrite wp_self. cbn.
  destruct (consume_holds n w l Hw Hn) as (w' & -> & Hw' & Hend). apply HQ; [done|].
  intros Heq. unfold no_slices. by rewrite Hend.
Qed.

Lemma wp_flatten w l t (Q : outcome IoError bytes → state → Prop) : holds w l →
  (∀ w', holds w' l → Q (Done (take (Z.to_nat FLATTEN_WRITE_LIMIT) l)) (w', t)) → wp flatten Q (w, t).
Proof.
  intros Hw HQ. unfold flatten. rewrite wp_bind. apply (wp_gathered w l); [done|]. intros vs Hl _.
  destruct (fill_holds FLATTEN_WRITE_LIMIT vs w l Hw ltac:(done) Hl) as [Hh Hf].
  set (w' := fill_flattened FLATTEN_WRITE_LIMIT vs w) in *. change (Q (Done (flattened w')) (w', t)). rewrite Hf. by apply HQ.
Qed.

Lemma no_slices_holds w l : holds w l → no_slices w = true → l = [].
Proof. intros [_ (vs & Hv & <-) _ _ _ _]. unfold no_slices. destruct (slices w) eqn:E; [|done]. unfold views in Hv. rewrite E in Hv. by injection Hv as <-. Qed.

(** What [write] does: the number it returns left the buffer. *)
Definition written_off (l : bytes) (t : T) (o : outcome IoError Z) (s : state) : Prop :=
  match o with
  | Done n => 0 ≤ n ∧ took_off (Z.to_nat n) l t s ∧ (n = 0 → l = [])
  | Fail _ | Wait => took_off 0 l t s
  | Stuck => False
  end.

(** A system call that writes some first part of [d], of which [l] starts with. *)
Lemma wp_some_written (f : T → poll (result IoError Z) * T) d w l t :
  holds w l → d `prefix_of` l → past (f t).2 = past t ++ wrote d (f t).1 → is_write_vectored (f t).2 = is_write_vectored t →
  (∀ n, (f t).1 = Ready (Ok n) → 0 ≤ n ≤ zlen d) →
  wp (n ← on_stream f; if n =? 0 then fail write_zero else _ ← consume n; mret n) (written_off l t) (w, t).
Proof.
  intros Hw [more ->] Hp Hm Hn. rewrite wp_bind, wp_on_stream. cbn [fst snd].
  apply wrote_answer in Hp; [|done]. destruct (f t) as [[[n|e]|] t']; cbn [fst snd] in *; [|by split..].
  destruct (Hn n eq_refl) as [Hn0 Hnd]. cbn [andthen]. destruct (Z.eqb_spec n 0) as [->|Hnz]; [by split|].
  rewrite wp_bind. eapply wp_consume; [done|zlia|].
  intros w' Hw' _. cbn. split; [lia|]. split; [|done]. split; [done|]. cbn.
  rewrite take_app_le by (unfold zlen in *; lia). done.
Qed.

Lemma write_spec use_vectored w l t : holds w l → wp (write use_vectored) (written_off l t) (w, t).
Proof.
  intros Hw. unfold write. rewrite wp_self. destruct (is_write_vectored _ && _).
  - unfold write_vectored_inner. rewrite wp_self. cbn [fst]. destruct (no_slices w) eqn:E.
    + cbn. split; [done|]. split; [by apply took_nothing|]. intros _. by apply (no_slices_holds w).
    + rewrite wp_bind. apply (wp_gathered w l); [done|]. intros vs Hl _. cbn [andthen].
      apply (wp_some_written _ (mjoin vs)); [done|by rewrite Hl|apply past_vectored|apply vectored_vectored|apply vectored_bound].
  - unfold write_flattened_inner. rewrite wp_self. cbn [fst]. destruct (no_slices w) eqn:E.
    + cbn. split; [done|]. split; [by apply took_nothing|]. intros _. by apply (no_slices_holds w).
    + rewrite wp_bind. apply (wp_flatten w l); [done|]. intros w' Hw'. cbn [andthen].
      apply (wp_some_written _ (take (Z.to_nat FLATTEN_WRITE_LIMIT) l)); [done| |apply past_write|apply vectored_write|apply write_bound].
      exists (drop (Z.to_nat FLATTEN_WRITE_LIMIT) l). by rewrite take_drop.
Qed.

(** What [flush] does, the queue and the octets written so far.  With
    [write_all] some may be written that are still in the queue. *)
Definition flushed (exact_ : bool) (l : bytes) (t : T) (o : outcome IoError ()) (s : state) : Prop :=
  ∃ n m, (n ≤ m)%nat ∧ holds s.1 (drop n l) ∧ wrote_octets (take m l) t s.2 ∧ (exact_ = true → m = n)
    ∧ match o with Done _ => drop n l = [] | Stuck => False | Fail _ | Wait => True end.

Lemma flushed_more exact_ k l t s o s' :
  took_off k l t s → flushed exact_ (drop k l) s.2 o s' → flushed exact_ l t o s'.
Proof.
  intros [_ Hw] (n & m & Hnm & Hh & Hw' & He & Ho). rewrite drop_drop in *. exists (k + n)%nat, (k + m)%nat.
  rewrite <- take_take_drop. split_and!; [lia|done|by eapply wrote_trans|intros Ht; specialize (He Ht); lia|done].
Qed.

Lemma flushed_stop exact_ w l t o : holds w l →
  match o with Done _ => l = [] | Stuck => False | Fail _ | Wait => True end → flushed exact_ l t o (w, t).
Proof. intros Hh Ho. exists 0%nat, 0%nat. split_and!; [done|done|by apply wrote_nothing|done|done]. Qed.

Lemma length_drop_lt (l : bytes) n : 0 < n ≤ zlen l → (length (drop (Z.to_nat n) l) < length l)%nat.
Proof. intros Hn. unfold zlen in Hn. rewrite length_drop. lia. Qed.

Lemma flush_vectored_spec fuel w l t : holds w l → no_slices w = true ∨ (length l < fuel)%nat →
  wp (flush_vectored_inner fuel) (flushed true l t) (w, t).
Proof.
  revert w l t. induction fuel as [|fuel IH]; intros w l t Hw Hf; cbn [flush_vectored_inner]; rewrite wp_self; cbn [fst].
  all: destruct (no_slices w) eqn:E; [cbn; apply flushed_stop; [done|by apply (no_slices_holds w)]|].
  { destruct Hf; [done|lia]. }
  rewrite wp_bind. apply (wp_gathered w l); [done|]. intros vs Hl _. cbn [andthen]. rewrite wp_bind, wp_on_stream. cbn [fst snd].
  pose proof (wrote_answer _ _ _ _ (past_vectored vs t) (vectored_vectored vs t)) as Hp. rewrite Hl in Hp. pose proof (vectored_bound vs t) as Hn.
  destruct (io_write_vectored vs t) as [[[n|e]|] t']; cbn [fst snd] in *.
  2-3: cbn; exists 0%nat, 0%nat; by split_and!.
  specialize (Hn n eq_refl). rewrite Hl in Hn. cbn [andthen]. destruct (Z.eqb_spec n 0) as [->|Hnz].
  { cbn. exists 0%nat, 0%nat. by split_and!. }
  rewrite wp_bind. eapply wp_consume; [done|done|]. intros w' Hw' Hend. cbn [andthen].
  eapply wp_mono; [apply IH; [exact Hw'|]|].
  - right. pose proof (length_drop_lt l n ltac:(lia)). destruct Hf as [Hf|Hf]; [congruence|lia].
  - intros o s' Hs. eapply (flushed_more _ _ _ _ (w', t')); [|exact Hs]. by split.
Qed.

Lemma flush_flattened_spec fuel w l t : holds w l → no_slices w = true ∨ (length l < fuel)%nat →
  wp (flush_flattened_inner fuel) (flushed false l t) (w, t).
Proof.
  revert w l t. induction fuel as [|fuel IH]; intros w l t Hw Hf; cbn [flush_flattened_inner]; rewrite wp_self; cbn [fst].
  all: destruct (no_slices w) eqn:E; [cbn; apply flushed_stop; [done|by apply (no_slices_holds w)]|].
  { destruct Hf; [done|lia]. }
  rewrite wp_bind. apply (wp_flatten w l); [done|]. intros w1 Hw1. cbn [andthen]. set (k := Z.to_nat FLATTEN_WRITE_LIMIT).
  rewrite wp_bind, wp_on_stream. cbn [fst snd]. destruct (past_write_all (take k l) t) as (m & Hp & Hall). apply wrote_some in Hp; [|apply failed_quiet|apply vectored_write_all].
  rewrite take_take in Hp, Hall. destruct (io_write_all _ t) as [[[[]|e]|] t']; cbn [fst snd] in *.
  2-3: cbn; exists 0%nat, (m `min` k)%nat; split_and!; [lia|done|done|done|done].
  specialize (Hall _ eq_refl). rewrite Hall in Hp. cbn [andthen].
  assert (zlen (take k l) ≤ zlen l) as Hle by (unfold zlen; rewrite length_take; lia).
  assert (Z.to_nat (zlen (take k l)) = length l `min` k)%nat as Hk by (unfold zlen; rewrite length_take; lia).
  rewrite wp_bind. eapply wp_consume; [done|split; [apply zlen_nonneg|done]|]. intros w' Hw' Hend. cbn [andthen].
  rewrite Hk in Hw'. eapply wp_mono; [apply IH; [exact Hw'|]|].
  - destruct (decide (length l ≤ k)%nat) as [Hkl|Hkl]; [left; apply Hend; rewrite take_ge by lia; done|right].
    rewrite length_drop. destruct Hf as [Hf|Hf]; [congruence|]. assert (0 < k)%nat by (unfold k, FLATTEN_WRITE_LIMIT; lia). lia.
  - intros o s' Hs. eapply (flushed_more _ _ _ _ (w', t')); [|exact Hs]. split; [done|]. cbn.
    by replace (take (length l `min` k) l) with (take k l) by (rewrite <- take_take, (take_ge (take k l)); [done|rewrite length_take; lia]).
Qed.

Lemma flush_spec use_vectored w l t : holds w l →
  wp (flush use_vectored) (flushed (is_write_vectored t && use_vectored) l t) (w, t).
Proof.
  intros Hw. unfold flush. rewrite wp_self. cbn [fst snd]. pose proof (counted _ _ Hw) as Hc. unfold zlen in Hc.
  destruct (is_write_vectored t && use_vectored); [apply flush_vectored_spec|apply flush_flattened_spec]; (done || right; lia).
Qed.

(** *** Any sequence of calls *)

Inductive BufCall : Type :=
| Push (data : bytes)
| PushBytes (data : bytes)
| PushCopy (data : bytes)
| Write
| Flush.

Definition pushed (c : BufCall) : bytes :=
  match c with Push d | PushBytes d | PushCopy d => d | Write | Flush => [] end.

Definition call (use_vectored : bool) (c : BufCall) : writing () :=
  match c with
  | Push data => modify (λ s, (push data s.1, s.2))
  | PushBytes data => modify (λ s, (push_bytes data s.1, s.2))
  | PushCopy data => modify (λ s, (push_copy with_capacity data s.1, s.2))
  | Write => _ ← write use_vectored; mret ()
  | Flush => flush use_vectored
  end.

(** What each call came back with, and whether the stream took vectored
    writes. *)
Fixpoint calls (use_vectored : bool) (l : list BufCall) (s : state) : list (outcome IoError () * bool) * state :=
  match l with
  | [] => ([], s)
  | c :: l =>
      let r := call use_vectored c s in
      let '(outs, s') := calls use_vectored l r.2 in ((r.1, is_write_vectored s.2 && use_vectored) :: outs, s')
  end.

(** A call is not cut short: it ran to its end, or its writes were vectored. *)
Definition uncut (x : outcome IoError () * bool) : Prop := x.1 = Done () ∨ x.2 = true.

Lemma call_spec use_vectored c w l t : holds w l →
  wp (call use_vectored c) (λ o s, o ≠ Stuck ∧ (uncut (o, is_write_vectored t && use_vectored) →
    ∃ n, holds s.1 (drop n (l ++ pushed c)) ∧ wrote_octets (take n (l ++ pushed c)) t s.2)) (w, t).
Proof.
  intros Hw. assert (∀ w', holds w' (l ++ pushed c) → wp (mret () : writing ())
    (λ o s, o ≠ Stuck ∧ (uncut (o, is_write_vectored t && use_vectored) →
      ∃ n, holds s.1 (drop n (l ++ pushed c)) ∧ wrote_octets (take n (l ++ pushed c)) t s.2)) (w', t)) as Hpush.
  { intros w' Hw'. apply wp_ret. split; [done|]. intros _. exists 0%nat. by apply took_nothing. }
  destruct c as [d|d|d| |]; cbn [pushed] in *.
  - exact (Hpush _ (push_holds d w l Hw)).
  - exact (Hpush _ (push_bytes_holds d w l Hw)).
  - exact (Hpush _ (push_copy_holds with_capacity Hcap d w l Hw)).
  - clear Hpush. rewrite app_nil_r. cbn [call]. rewrite wp_bind. eapply wp_mono; [by apply write_spec|].
    intros [n|e| |] s Ho; cbn in *; [|by split; [|exists 0%nat]..|done].
    split; [done|]. exists (Z.to_nat n). apply Ho.
  - clear Hpush. rewrite app_nil_r. eapply wp_mono; [by apply flush_spec|].
    intros o s (n & m & Hnm & Hh & Hput & He & Ho). split; [by destruct o|]. intros Hu. exists m.
    assert (drop m l = drop n l) as ->; [|done]. destruct Hu as [Hd|Hv].
    2: by rewrite (He Hv).
    + cbn in Hd. subst o. apply (f_equal (drop (m - n))) in Ho as Ho'.
      rewrite drop_drop, drop_nil in Ho'. rewrite Ho. by replace (n + (m - n))%nat with m in Ho' by lia.
Qed.

Lemma calls_spec use_vectored cs w l t : holds w l →
  let '(outs, s) := calls use_vectored cs (w, t) in
  Forall uncut outs →
  Forall (λ x, x.1 ≠ Stuck) outs
  ∧ ∃ done rest, l ++ mjoin (map pushed cs) = done ++ rest ∧ holds s.1 rest ∧ wrote_octets done t s.2.
Proof.
  revert w l t. induction cs as [|c cs IH]; intros w l t Hw; cbn [calls].
  { intros _. split; [constructor|]. exists [], l. cbn. rewrite app_nil_r. split; [done|]. by apply (took_nothing w). }
  pose proof (call_spec use_vectored c w l t Hw) as Hc. unfold wp in Hc.
  destruct (call use_vectored c (w, t)) as [o [w' t']]. cbn [fst snd] in Hc |- *. destruct Hc as [Hns Hc].
  destruct (calls use_vectored cs (w', t')) as [outs s] eqn:E. intros Hu. apply Forall_cons in Hu as [Ho Hu].
  destruct (Hc Ho) as (n & Hh & Hp). specialize (IH w' _ t' Hh). rewrite E in IH.
  destruct (IH Hu) as (Hs & d & rest & Heq & Hr & Hd). split; [by constructor|].
  exists (take n (l ++ pushed c) ++ d), rest. split_and!; [|done|by eapply wrote_trans]. cbn [map].
  change (mjoin (pushed c :: ?l)) with (pushed c ++ mjoin l). rewrite <- app_assoc, <- Heq, !app_assoc, take_drop. done.
Qed.
End writing.

(** C19. The write buffer is a queue of octets.  Whatever is pushed into a new
    buffer, borrowed, owned or copied, and however the stream takes what is
    written and flushed, no slice is ever read out of memory that moved or was
    freed, no call panics or runs on for ever, and what has been written to the
    stream followed by what the buffer still holds is exactly what was pushed.
    With flattened writes this takes that every call runs to its end. *)
Theorem write_buf_refines_queue (with_capacity : Z → Z) (Hcap : ∀ n, n ≤ with_capacity n)
  `{HT : Http} {T : Type} `{HI : !Io T} `{HR : !RecordedIo T} use_vectored cs (t : T) :
  let '(outs, s) := calls with_capacity use_vectored cs (new_write_buf, t) in
  Forall uncut outs →
  Forall (λ x, x.1 ≠ Stuck) outs
  ∧ ∃ written rest, mjoin (map pushed cs) = written ++ rest ∧ holds s.1 rest ∧ views s.1 ≠ None
      ∧ put (past s.2) = put (past t) ++ written.
Proof.
  pose proof (calls_spec with_capacity Hcap use_vectored cs new_write_buf [] t new_write_buf_holds) as H.
  destruct (calls _ _ _ _) as [outs s]. intros Hu. destruct (H Hu) as (Hs & d & rest & Heq & Hr & [Hd _ _ _ _ _]).
  split; [done|]. exists d, rest. split_and!; [done..| |done].
  destruct (readable _ _ Hr) as (vs & -> & _). done.
Qed.

(** A stream that takes three octets, then five, then blocks; the chunks hold
    what they are asked to. *)
Section witness.
#[local] Existing Instance plain_http.

Definition slow_stream : Playback := MkPlayback [] [Takes 3; Takes 5; Blocks 0] true false [] [] [] [] false false.
Definition slow_calls : list BufCall :=
  [PushCopy (b "abc"); Write; Push (b "de"); PushBytes (b "fgh"); PushCopy (b "ij"); Write; Flush].

Lemma write_buf_refines_queue_witness :
  let '(outs, s) := calls id true slow_calls (new_write_buf, slow_stream) in
  map fst outs = [Done (); Done (); Done (); Done (); Done (); Done (); Wait]
  ∧ put (past s.2) = b "abcdefgh" ∧ views s.1 = Some [b "ij"]
  ∧ ∃ written rest, mjoin (map pushed slow_calls) = written ++ rest ∧ holds s.1 rest.
Proof.
  pose proof (write_buf_refines_queue id (λ n, Z.le_refl n) true slow_calls slow_stream) as H.
  destruct (calls id true slow_calls (new_write_buf, slow_stream)) as [outs s] eqn:E. vm_compute in E.
  injection E as <- <-.
  split; [reflexivity|]. split; [vm_compute; reflexivity|]. split; [vm_compute; reflexivity|].
  assert (Hu : Forall uncut [(@Done IoError () (), true); (Done (), true); (Done (), true); (Done (), true);
    (Done (), true); (Done (), true); (Wait, true)]).
  { repeat (apply Forall_cons; split; [first [by left|by right]|]). constructor. }
  destruct (proj2 (H Hu)) as [w Hw]. exists w. destruct Hw as [rest Hw]. exists rest.
  split; [exact (proj1 Hw)|exact (proj1 (proj2 Hw))].
Defined.
End witness.
