(* ===== verification/H1Wire.v ===== *)
(** * Octets on an HTTP/1 connection (src/src/h1/mod.rs, src/src/h1/body.rs)

    The pure parts of the reader and the writer: the end of a head, the request
    line, chunk sizes and list-valued fields, and what each of them does to a
    stream that arrives in pieces. *)

From S2P Require Import Prelude H2Request.

(** ** Searching *)

(** The loop of [search_header_body_separator], from index [i]. *)
Fixpoint search_loop (i : Z) (slice : bytes) : option (Z * Z) :=
  match slice with
  | [] => None
  | x :: rest =>
      if x =? 0x0d then
        if bool_decide (take 3 rest = [0x0a; 0x0d; 0x0a]) then Some (i, 4) else search_loop (i + 1) rest
      else if (x =? 0x0a) && bool_decide (head rest = Some 0x0a) then Some (i, 2)
      else search_loop (i + 1) rest
  end.
Definition search_header_body_separator (slice : bytes) : option (Z * Z) :=
  if zlen slice <? 2 then None else search_loop 0 slice.

(** [memmem::find]. *)
Fixpoint find_loop (i : Z) (needle slice : bytes) : option Z :=
  if bool_decide (take (length needle) slice = needle) then Some i
  else match slice with [] => None | _ :: rest => find_loop (i + 1) needle rest end.
Definition find (slice needle : bytes) : option Z := find_loop 0 needle slice.

Definition CRLF : bytes := [0x0d; 0x0a].
Definition CRLF_CRLF : bytes := [0x0d; 0x0a; 0x0d; 0x0a].

(** [u8::is_ascii_whitespace]. *)
Definition is_ascii_whitespace (x : byte) : bool :=
  (x =? 0x20) || (x =? 0x09) || (x =? 0x0a) || (x =? 0x0c) || (x =? 0x0d).

(** The loop over the separators of the first line in [get_head]: whether the
    line is complete, or that it is bad. *)
Fixpoint first_line (l : bytes) (spaces : Z) : result () bool :=
  match l with
  | [] => Ok false
  | x :: l =>
      if x =? 0x20 then if 2 <=? spaces then Err () else first_line l (spaces + 1)
      else if (x =? 0x0d) || (x =? 0x0a) then if spaces =? 2 then Ok true else Err ()
      else first_line l spaces
  end.

(** ** Numbers *)

(** [char::to_digit] on ASCII. *)
Definition to_digit (radix : Z) (x : byte) : option Z :=
  let d := if in_range 0x30 0x39 x then Some (x - 0x30)
    else if in_range 0x61 0x7a x then Some (x - 0x61 + 10)
    else if in_range 0x41 0x5a x then Some (x - 0x41 + 10)
    else None in
  d ← d; if d <? radix then Some d else None.

Fixpoint radix_loop (radix : Z) (l : bytes) (v : Z) : option Z :=
  match l with
  | [] => Some v
  | x :: l =>
      d ← to_digit radix x;
      v ← checked_mul64 v radix;
      v ← checked_add64 v d;
      radix_loop radix l v
  end.

(** [usize::from_str_radix] and [str::parse::<u64>]: a plus sign is allowed. *)
Definition from_str_radix (radix : Z) (s : bytes) : option Z :=
  match s with
  | [] => None
  | [x] => if (x =? 0x2b) || (x =? 0x2d) then None else radix_loop radix [x] 0
  | x :: s' => if x =? 0x2b then radix_loop radix s' 0 else radix_loop radix s 0
  end.

Definition HEX_DIGITS : bytes := b "0123456789ABCDEF".

(** The loop of [write_chunk_size]; its buffer has room for sixteen digits. *)
Fixpoint hex_loop (fuel : nat) (n : Z) (digits : bytes) : bytes :=
  match fuel with
  | O => digits
  | S fuel =>
      let digits := idx HEX_DIGITS (Z.to_nat (Z.land n 0xf)) :: digits in
      let n := Z.shiftr n 4 in
      if n =? 0 then digits else hex_loop fuel n digits
  end.
Definition write_chunk_size (len : Z) : bytes := hex_loop 16 len [] ++ CRLF.

(** A [u64] as a header value: its decimal digits. *)
Fixpoint decimal_loop (fuel : nat) (n : Z) (digits : bytes) : bytes :=
  match fuel with
  | O => digits
  | S fuel =>
      let digits := 0x30 + n mod 10 :: digits in
      if n / 10 =? 0 then digits else decimal_loop fuel (n / 10) digits
  end.
Definition to_decimal (n : Z) : bytes := decimal_loop 20 n [].

(** [v.split(',').any(|v| v.trim().eq_ignore_ascii_case(token))]. *)
Definition has_token (token value : bytes) : bool :=
  existsb (λ v, eq_ignore_ascii_case (trim v) token) (split 0x2c value).

Example sizes : map write_chunk_size [0; 10; 255; 4096] = [b "0" ++ CRLF; b "A" ++ CRLF; b "FF" ++ CRLF; b "1000" ++ CRLF].
Proof. reflexivity. Qed.

Example radixes : map (from_str_radix 16) [b "ff"; b "+A"; b "-1"; b ""; b "+"; b "10000000000000000"; b "5;x=1"]
  = [Some 255; Some 10; None; None; None; None; None].
Proof. reflexivity. Qed.

Example separators : map search_header_body_separator
  [b "ab" ++ CRLF_CRLF; [0x0a; 0x0a]; [0x0a; 0x0d; 0x0a]; [0x0d; 0x0a; 0x0a]] = [Some (2, 4); Some (0, 2); None; Some (1, 2)].
Proof. reflexivity. Qed.

(** ** Chunk sizes round trip *)

Lemma hex_digit d : 0 ≤ d < 16 → to_digit 16 (idx HEX_DIGITS (Z.to_nat d)) = Some d.
Proof.
  intros H. assert (forallb (λ n, bool_decide (to_digit 16 (idx HEX_DIGITS n) = Some (Z.of_nat n))) (seq 0 16) = true) as Ht by reflexivity.
  rewrite forallb_forall in Ht. specialize (Ht (Z.to_nat d)). rewrite bool_decide_eq_true, Z2Nat.id in Ht by lia.
  apply Ht, in_seq. lia.
Qed.

(** The digits of a number read back, and any digits that follow them. *)
Lemma hex_loop_read fuel n digits v : 0 ≤ n < 16 ^ Z.of_nat fuel → n ≤ u64_max →
  ∃ pre, hex_loop fuel n digits = pre ++ digits ∧ (0 < fuel → pre ≠ [])%nat
    ∧ Forall (λ x, ∃ d, 0 ≤ d < 16 ∧ x = idx HEX_DIGITS (Z.to_nat d)) pre
    ∧ radix_loop 16 (pre ++ v) 0 = radix_loop 16 v n.
Proof.
  revert n digits v. induction fuel as [|fuel IH]; intros n digits v Hn Hmax; cbn [hex_loop].
  { exists []. cbn in *. split_and!; [done|lia|constructor|]. by replace n with 0 by lia. }
  rewrite Nat2Z.inj_succ, Z.pow_succ_r in Hn by lia.
  assert (Z.land n 15 = n mod 16) as -> by apply (land_mask n 4 ltac:(done)).
  rewrite Z.shiftr_div_pow2 by done. change (2 ^ 4) with 16. set (x := idx HEX_DIGITS _).
  assert (to_digit 16 x = Some (n mod 16)) as Hx by (apply hex_digit; dlia).
  assert (∃ d, 0 ≤ d < 16 ∧ x = idx HEX_DIGITS (Z.to_nat d)) as Hd by (exists (n mod 16); split; [dlia|done]).
  assert (∀ v, radix_loop 16 (x :: v) (n / 16) = radix_loop 16 v n) as Hstep.
  { intros v'. cbn [radix_loop]. rewrite Hx. cbn. unfold checked_mul64, checked_add64, u64_max in *.
    rewrite (proj2 (Z.leb_le _ _)) by dlia. cbn. rewrite (proj2 (Z.leb_le _ _)) by dlia. cbn. f_equal. dlia. }
  destruct (Z.eqb_spec (n / 16) 0) as [Hz|Hz].
  - exists [x]. split_and!; [done|done|by repeat constructor|]. cbn [app]. rewrite <- Hstep. by rewrite Hz.
  - destruct (IH (n / 16) (x :: digits) (x :: v)) as (pre & -> & _ & Hpre & Hr); [dlia|unfold u64_max in *; dlia|].
    exists (pre ++ [x]). rewrite <- !app_assoc. split_and!; [done|by destruct pre|by apply Forall_app; split; [|repeat constructor]|].
    cbn. by rewrite Hr.
Qed.

(** The same of decimal digits. *)
Lemma decimal_loop_read fuel n digits v : 0 ≤ n < 10 ^ Z.of_nat fuel → n ≤ u64_max →
  ∃ pre, decimal_loop fuel n digits = pre ++ digits ∧ (0 < fuel → pre ≠ [])%nat
    ∧ Forall (λ x, in_range 0x30 0x39 x = true) pre ∧ radix_loop 10 (pre ++ v) 0 = radix_loop 10 v n.
Proof.
  revert n digits v. induction fuel as [|fuel IH]; intros n digits v Hn Hmax; cbn [decimal_loop].
  { exists []. cbn in *. split_and!; [done|lia|constructor|]. by replace n with 0 by lia. }
  rewrite Nat2Z.inj_succ, Z.pow_succ_r in Hn by lia. set (x := 0x30 + n mod 10).
  assert (in_range 0x30 0x39 x = true) as Hd by (unfold in_range, x; dlia).
  assert (to_digit 10 x = Some (n mod 10)) as Hx.
  { unfold to_digit. rewrite Hd. cbn. unfold x. replace (0x30 + n mod 10 - 0x30) with (n mod 10) by lia.
    by rewrite (proj2 (Z.ltb_lt _ _)) by dlia. }
  assert (∀ v, radix_loop 10 (x :: v) (n / 10) = radix_loop 10 v n) as Hstep.
  { intros v'. cbn [radix_loop]. rewrite Hx. cbn. unfold checked_mul64, checked_add64, u64_max in *.
    rewrite (proj2 (Z.leb_le _ _)) by dlia. cbn. rewrite (proj2 (Z.leb_le _ _)) by dlia. cbn. f_equal. dlia. }
  destruct (Z.eqb_spec (n / 10) 0) as [Hz|Hz].
  - exists [x]. split_and!; [done|done|by repeat constructor|]. cbn [app]. rewrite <- Hstep. by rewrite Hz.
  - destruct (IH (n / 10) (x :: digits) (x :: v)) as (pre & -> & _ & Hpre & Hr); [dlia|unfold u64_max in *; dlia|].
    exists (pre ++ [x]). rewrite <- !app_assoc. split_and!; [done|by destruct pre|by apply Forall_app; split; [|repeat constructor]|].
    cbn. by rewrite Hr.
Qed.

(** A length that is written reads back. *)
Lemma to_decimal_read n : 0 ≤ n ≤ u64_max → from_str_radix 10 (to_decimal n) = Some n.
Proof.
  intros Hn. destruct (decimal_loop_read 20 n [] []) as (pre & E & Hne & Hp & Hr); [unfold u64_max in *; lia|lia|].
  unfold to_decimal. rewrite E. rewrite app_nil_r in *. destruct pre as [|x pre]; [by destruct (Hne ltac:(lia))|].
  apply Forall_cons in Hp as [Hx _]. unfold in_range in Hx. unfold from_str_radix. rewrite Hr.
  rewrite (proj2 (Z.eqb_neq x 0x2b)), (proj2 (Z.eqb_neq x 0x2d)) by lia. by destruct pre.
Qed.

Lemma hex_digits_plain pre : Forall (λ x, ∃ d, 0 ≤ d < 16 ∧ x = idx HEX_DIGITS (Z.to_nat d)) pre →
  Forall (λ x, in_range 0x30 0x39 x || in_range 0x41 0x46 x = true) pre.
Proof.
  intros H. eapply Forall_impl; [exact H|]. intros x (d & Hd & ->).
  assert (forallb (λ n, let x := idx HEX_DIGITS n in in_range 0x30 0x39 x || in_range 0x41 0x46 x) (seq 0 16) = true) as Ht by reflexivity.
  rewrite forallb_forall in Ht. apply (Ht (Z.to_nat d)), in_seq. lia.
Qed.

(** The digits [write_chunk_size] writes. *)
Definition chunk_digits (n : Z) : bytes := hex_loop 16 n [].

Lemma chunk_digits_spec n : 0 ≤ n ≤ u64_max →
  from_str_radix 16 (chunk_digits n) = Some n ∧ chunk_digits n ≠ []
  ∧ Forall (λ x, in_range 0x30 0x39 x || in_range 0x41 0x46 x = true) (chunk_digits n).
Proof.
  intros Hn. destruct (hex_loop_read 16 n [] []) as (pre & E & Hne & Hp & Hr); [unfold u64_max in *; lia|lia|].
  unfold chunk_digits. rewrite E. rewrite app_nil_r in *. apply hex_digits_plain in Hp.
  split; [|by split; [apply Hne; lia|]]. destruct pre as [|x pre]; [by destruct (Hne ltac:(lia))|].
  apply Forall_cons in Hp as [Hx _]. unfold in_range in Hx. unfold from_str_radix. rewrite Hr.
  rewrite (proj2 (Z.eqb_neq x 0x2b)), (proj2 (Z.eqb_neq x 0x2d)) by lia. destruct pre; done.
Qed.

Lemma hex_loop_length fuel n digits : (length (hex_loop fuel n digits) ≤ fuel + length digits)%nat.
Proof.
  revert n digits. induction fuel as [|fuel IH]; intros n digits; cbn [hex_loop]; [lia|].
  destruct (_ =? 0); [cbn; lia|]. specialize (IH (Z.shiftr n 4) (idx HEX_DIGITS (Z.to_nat (Z.land n 15)) :: digits)). cbn in *. lia.
Qed.

(** ** Searching a stream that grows *)

(** The first place a pattern matches, and what matches there. *)
Fixpoint locate (f : bytes → option Z) (i : Z) (l : bytes) : option (Z * Z) :=
  match f l with
  | Some n => Some (i, n)
  | None => match l with [] => None | _ :: l => locate f (i + 1) l end
  end.

(** A pattern of at most [m] octets looks at no more than it matches. *)
Record pattern (m : Z) (f : bytes → option Z) : Prop := {
  pattern_extend l k n : f l = Some n → f (l ++ k) = Some n;
  pattern_local l k n : f (l ++ k) = Some n → n ≤ zlen l → f l = Some n;
  pattern_size l n : f l = Some n → 0 < n ≤ Z.min m (zlen l);
}.

Section locate.
Context (m : Z) (f : bytes → option Z) (Hf : pattern m f).

Lemma drop_here (j : Z) (l : bytes) : drop (Z.to_nat (j - j)) l = l.
Proof. by rewrite Z.sub_diag. Qed.

Lemma locate_Some l i r : locate f i l = Some r ↔
  i ≤ r.1 ∧ f (drop (Z.to_nat (r.1 - i)) l) = Some r.2 ∧ ∀ j, i ≤ j < r.1 → f (drop (Z.to_nat (j - i)) l) = None.
Proof.
  destruct r as [p n]. cbn. revert i. induction l as [|x l IH]; intros i; cbn [locate].
  - destruct (f []) as [n'|] eqn:E.
    + split; [intros [= <- <-]; rewrite drop_here; split_and!; [lia|done|lia]|].
      intros (Hi & Hp & Hj). destruct (Z.eq_dec i p) as [->|]; [rewrite drop_here in Hp; congruence|].
      specialize (Hj i ltac:(lia)). rewrite drop_here in Hj. congruence.
    + split; [done|]. intros (_ & Hp & _). rewrite drop_nil in Hp. congruence.
  - destruct (f (x :: l)) as [n'|] eqn:E.
    + split; [intros [= <- <-]; rewrite drop_here; split_and!; [lia|done|lia]|].
      intros (Hi & Hp & Hj). destruct (Z.eq_dec i p) as [->|]; [rewrite drop_here in Hp; congruence|].
      specialize (Hj i ltac:(lia)). rewrite drop_here in Hj. congruence.
    + rewrite IH. split.
      * intros (Hi & Hp & Hj). split; [lia|]. split.
        { replace (Z.to_nat (p - i)) with (S (Z.to_nat (p - (i + 1)))) by lia. done. }
        intros j Hjp. destruct (Z.eq_dec j i) as [->|]; [by rewrite drop_here|].
        replace (Z.to_nat (j - i)) with (S (Z.to_nat (j - (i + 1)))) by lia. apply Hj. lia.
      * intros (Hi & Hp & Hj). destruct (Z.eq_dec p i) as [->|]; [rewrite drop_here in Hp; congruence|].
        replace (Z.to_nat (p - i)) with (S (Z.to_nat (p - (i + 1)))) in Hp by lia. split_and!; [lia|done|].
        intros j Hjp. specialize (Hj j ltac:(lia)). by replace (Z.to_nat (j - i)) with (S (Z.to_nat (j - (i + 1)))) in Hj by lia.
Qed.

Lemma locate_None l i : locate f i l = None ↔ ∀ j, f (drop j l) = None.
Proof.
  revert i. induction l as [|x l IH]; intros i; cbn [locate].
  - destruct (f []) eqn:E; split; try done; [intros H; specialize (H 0%nat); cbn in H; congruence|].
    intros _ j. by rewrite drop_nil.
  - destruct (f (x :: l)) eqn:E.
    + split; [done|]. intros H. specialize (H 0%nat). cbn in H. congruence.
    + rewrite IH. split; [intros H [|j]; [done|apply H]|]. intros H j. apply (H (S j)).
Qed.

Lemma locate_shift l i k : locate f (i + k) l = (λ r, (r.1 + k, r.2)) <$> locate f i l.
Proof.
  revert i. induction l as [|x l IH]; intros i; cbn [locate]; [by destruct (f [])|].
  destruct (f (x :: l)); [done|]. rewrite <- IH. f_equal. lia.
Qed.

Lemma locate_skip d l i : (∀ j, (j < d)%nat → f (drop j l) = None) → (d ≤ length l)%nat →
  locate f i l = locate f (i + Z.of_nat d) (drop d l).
Proof.
  revert l i. induction d as [|d IH]; intros l i Hn Hd; [by rewrite Z.add_0_r|].
  destruct l as [|x l]; [cbn in Hd; lia|]. cbn [locate]. pose proof (Hn 0%nat ltac:(lia)) as H0. cbn in H0. rewrite H0.
  rewrite (IH l (i + 1)); [cbn; f_equal; lia| |cbn in Hd; lia]. intros j Hj. apply (Hn (S j)). lia.
Qed.

(** The search may go on where the last [m - 1] octets of a part without a
    match begin. *)
Lemma locate_resume l k d : locate f 0 l = None → (d ≤ length l)%nat → Z.of_nat d ≤ Z.max 0 (zlen l - (m - 1)) →
  locate f 0 (l ++ k) = locate f (Z.of_nat d) (drop d (l ++ k)).
Proof.
  intros Hl Hd Hdm. rewrite (locate_skip d); [done| |rewrite length_app; lia]. intros j Hj.
  rewrite locate_None in Hl. destruct (f (drop j (l ++ k))) as [n|] eqn:E; [|done].
  rewrite drop_app_le in E by lia. pose proof (pattern_size _ _ Hf _ _ E) as Hn.
  apply (pattern_local _ _ Hf) in E; [by rewrite Hl in E|]. unfold zlen in *. rewrite length_drop. lia.
Qed.

(** A match that starts later ends later, so the first match stays the first
    when the stream grows. *)
Lemma locate_stable l k r :
  (∀ l d n n', f l = Some n' → (0 < d)%nat → f (drop d l) = Some n → n' ≤ Z.of_nat d + n) →
  locate f 0 l = Some r → locate f 0 (l ++ k) = Some r.
Proof.
  intros Hno. rewrite !locate_Some. destruct r as [p n]. cbn. rewrite Z.sub_0_r. intros (Hp & Hn & Hj).
  pose proof (pattern_size _ _ Hf _ _ Hn) as Hs. unfold zlen in Hs. rewrite length_drop in Hs.
  assert (f (drop (Z.to_nat p) (l ++ k)) = Some n) as Hn'.
  { rewrite drop_app_le by lia. by apply (pattern_extend _ _ Hf). }
  split_and!; [done|done|]. intros j Hjp. specialize (Hj j Hjp). rewrite Z.sub_0_r in *.
  destruct (f (drop (Z.to_nat j) (l ++ k))) as [n'|] eqn:E; [|done].
  pose proof (Hno _ (Z.to_nat (p - j)) n n' E ltac:(lia)) as Hle. rewrite drop_drop in Hle.
  replace (Z.to_nat j + Z.to_nat (p - j))%nat with (Z.to_nat p) in Hle by lia. specialize (Hle Hn').
  rewrite drop_app_le in E by lia. apply (pattern_local _ _ Hf) in E; [congruence|].
  unfold zlen. rewrite length_drop. lia.
Qed.
End locate.

(** The patterns of the code. *)
Definition separator (l : bytes) : option Z :=
  if bool_decide (take 4 l = CRLF_CRLF) then Some 4
  else if bool_decide (take 2 l = [0x0a; 0x0a]) then Some 2 else None.
Definition occurrence (needle : bytes) (l : bytes) : option Z :=
  if bool_decide (take (length needle) l = needle) then Some (zlen needle) else None.

Lemma take_full n (l s : bytes) : take n l = s → length s = n → (n ≤ length l)%nat.
Proof. intros <-. rewrite length_take. lia. Qed.

Lemma separator_pattern : pattern 4 separator.
Proof.
  split; unfold separator.
  - intros l k n. destruct (bool_decide_reflect (take 4 l = CRLF_CRLF)) as [E|_].
    + rewrite take_app_le by (by apply (take_full _ _ _ E)). by rewrite bool_decide_eq_true_2.
    + destruct (bool_decide_reflect (take 2 l = [0x0a; 0x0a])) as [E|_]; [|done].
      rewrite bool_decide_eq_false_2; [|destruct l as [|? [|? l]]; by try (injection E as -> -> || discriminate E)].
      rewrite take_app_le by (by apply (take_full _ _ _ E)). by rewrite bool_decide_eq_true_2.
  - intros l k n. destruct (bool_decide_reflect (take 4 (l ++ k) = CRLF_CRLF)) as [E|_].
    + intros [= <-] Hn. unfold zlen in Hn. rewrite take_app_le in E by lia. by rewrite bool_decide_eq_true_2.
    + destruct (bool_decide_reflect (take 2 (l ++ k) = [0x0a; 0x0a])) as [E|_]; [|done]. intros [= <-] Hn.
      unfold zlen in Hn. rewrite take_app_le in E by lia.
      rewrite bool_decide_eq_false_2; [|destruct l as [|? [|? l]]; by try (injection E as -> -> || discriminate E)].
      by rewrite bool_decide_eq_true_2.
  - intros l n. destruct (bool_decide_reflect (take 4 l = CRLF_CRLF)) as [E|_].
    + intros [= <-]. apply take_full in E; [unfold zlen; lia|done].
    + destruct (bool_decide_reflect (take 2 l = [0x0a; 0x0a])) as [E|_]; [|done]. intros [= <-].
      apply take_full in E; [unfold zlen; lia|done].
Qed.

Lemma separator_later l d n n' : separator l = Some n' → (0 < d)%nat → separator (drop d l) = Some n → n' ≤ Z.of_nat d + n.
Proof.
  unfold separator. intros H1 Hd H2. repeat case_bool_decide; simplify_eq; try lia.
  destruct (decide (d = 1%nat)) as [->|]; [|lia].
  unfold CRLF_CRLF in *. destruct l as [|x [|y [|z l]]]; try done. cbn in *. congruence.
Qed.

Lemma occurrence_pattern needle : needle ≠ [] → pattern (zlen needle) (occurrence needle).
Proof.
  intros Hne. assert (0 < length needle)%nat by (destruct needle; [done|cbn; lia]). split; unfold occurrence.
  - intros l k n. destruct (bool_decide_reflect (take (length needle) l = needle)) as [E|_]; [|done].
    rewrite take_app_le by (by apply (take_full _ _ _ E)). by rewrite bool_decide_eq_true_2.
  - intros l k n. destruct (bool_decide_reflect (take (length needle) (l ++ k) = needle)) as [E|_]; [|done].
    intros [= <-] Hn. unfold zlen in Hn. rewrite take_app_le in E by lia. by rewrite bool_decide_eq_true_2.
  - intros l n. destruct (bool_decide_reflect (take (length needle) l = needle)) as [E|_]; [|done]. intros [= <-].
    apply take_full in E; [|done]. unfold zlen. lia.
Qed.

Lemma occurrence_later needle l d n n' :
  occurrence needle l = Some n' → (0 < d)%nat → occurrence needle (drop d l) = Some n → n' ≤ Z.of_nat d + n.
Proof. unfold occurrence. intros H1 Hd H2. repeat case_bool_decide; simplify_eq. lia. Qed.

Lemma find_located needle l : find l needle = fst <$> locate (occurrence needle) 0 l.
Proof.
  unfold find. generalize 0. induction l as [|x l IH]; intros i; cbn [find_loop locate]; unfold occurrence; case_bool_decide; done.
Qed.

Lemma search_located l : search_header_body_separator l = locate separator 0 l.
Proof.
  assert (∀ i, search_loop i l = locate separator i l) as H.
  { induction l as [|x l IH]; intros i; [done|]. cbn [search_loop locate]. rewrite IH. unfold separator, CRLF_CRLF.
    destruct (Z.eqb_spec x 0x0d) as [->|Hx].
    - destruct (bool_decide_reflect (take 3 l = [0x0a; 0x0d; 0x0a])) as [E|E].
      + rewrite bool_decide_eq_true_2; [done|]. cbn. by rewrite E.
      + rewrite bool_decide_eq_false_2; [|cbn; congruence]. by rewrite bool_decide_eq_false_2.
    - rewrite (bool_decide_eq_false_2 (take 4 (x :: l) = [0x0d; 0x0a; 0x0d; 0x0a])); [|cbn; congruence].
      destruct (Z.eqb_spec x 0x0a) as [->|Hx']; cbn [andb].
      + destruct l as [|y l]; [done|]. cbn. rewrite take_0. destruct (bool_decide_reflect (Some y = Some 10)) as [E|E].
        * injection E as ->. by rewrite bool_decide_eq_true_2.
        * rewrite (bool_decide_eq_false_2 ([10; y] = [0x0a; 0x0a])); [done|congruence].
      + rewrite (bool_decide_eq_false_2 (take 2 (x :: l) = [0x0a; 0x0a])); [done|cbn; congruence]. }
  unfold search_header_body_separator. destruct (Z.ltb_spec (zlen l) 2) as [Hl|]; [|apply H].
  symmetry. apply locate_None. intros j. destruct (separator (drop j l)) as [n|] eqn:E; [|done].
  assert (2 ≤ n) by (revert E; unfold separator; repeat case_bool_decide; congruence || intros; simplify_eq; lia).
  apply (pattern_size _ _ separator_pattern) in E. unfold zlen in *. rewrite length_drop in E. lia.
Qed.

(** ** A head on a stream *)

Lemma first_line_done l k n r : first_line l n = r → r ≠ Ok false → first_line (l ++ k) n = r.
Proof.
  revert n. induction l as [|x l IH]; intros n; cbn [first_line app]; [by intros <-|].
  destruct (x =? 0x20); [destruct (2 <=? n); [by intros <-|apply IH]|].
  destruct ((x =? 0x0d) || (x =? 0x0a)); [by intros <-|apply IH].
Qed.

Lemma first_line_open l n : first_line l n = Ok false → ∀ i, locate separator i l = None.
Proof.
  assert (∀ l x, x ≠ 0x0d → x ≠ 0x0a → separator (x :: l) = None) as Hsep.
  { intros l' x H1 H2. unfold separator. rewrite !bool_decide_eq_false_2; [done|..]; intros [= -> _]; done. }
  revert n. induction l as [|x l IH]; intros n H i; [done|]. cbn [first_line locate] in *.
  destruct (Z.eqb_spec x 0x20) as [->|Hx].
  - rewrite Hsep by done. destruct (2 <=? n); [done|]. by eapply IH.
  - destruct (Z.eqb_spec x 0x0d); [by destruct (n =? 2)|]. destruct (Z.eqb_spec x 0x0a); [by destruct (n =? 2)|].
    rewrite Hsep by done. exact (IH n H _).
Qed.

(** What a stream shows of a request head, if white space of [skip] octets comes
    first and heads end before [max]. *)
Inductive head_scan : Type := BadLine | HeadAt (len : Z) | TooLarge | More.

Definition scan_head (max skip : Z) (l : bytes) : head_scan :=
  let v := drop (Z.to_nat skip) (take (Z.to_nat max) l) in
  let open := if max <=? zlen l then TooLarge else More in
  match first_line v 0 with
  | Err _ => BadLine
  | Ok true => match locate separator 0 v with Some (i, n) => HeadAt (i + n) | None => open end
  | Ok false => open
  end.

(** The verdict on a stream stands when more of it arrives. *)
Lemma scan_head_stable max skip l k : scan_head max skip l ≠ More → scan_head max skip (l ++ k) = scan_head max skip l.
Proof.
  unfold scan_head. set (v := drop _ (take (Z.to_nat max) l)).
  assert (max ≤ zlen l ∧ drop (Z.to_nat skip) (take (Z.to_nat max) (l ++ k)) = v
    ∨ zlen l < max ∧ ∃ k', drop (Z.to_nat skip) (take (Z.to_nat max) (l ++ k)) = v ++ k') as [[Hm ->]|[Hm (k' & Hk)]].
  { unfold v. destruct (Z.leb_spec max (zlen l)); [left|right]; (split; [done|]); unfold zlen in *.
    - by rewrite take_app_le by lia.
    - exists (drop (Z.to_nat skip - length l) (take (Z.to_nat max - length l) k)).
      by rewrite (take_ge l), take_app_ge, drop_app by lia. }
  - by rewrite zlen_app, !(proj2 (Z.leb_le _ _)) by zlia.
  - rewrite (proj2 (Z.leb_gt max (zlen l))) by lia. rewrite Hk.
    destruct (first_line v 0) as [[|]|[]] eqn:E; [|done|].
    + rewrite (first_line_done _ k' _ _ E) by done. destruct (locate separator 0 v) as [[i n]|] eqn:El; [|done].
      by rewrite (locate_stable _ _ separator_pattern _ k' _ separator_later El).
    + by rewrite (first_line_done _ k' _ _ E) by done.
Qed.
