(* ===== verification/H1State.v ===== *)
(** * The state of an HTTP/1 connection (src/src/h1/mod.rs, src/src/h1/options.rs)

    [Http1] and its options, the calls it makes of its stream, and the interim
    responses.  The cached header map, the slots for parsed headers and the
    buffer of the response head only save allocations: each use starts by
    clearing them, so they are not part of the state. *)

From S2P Require Import Prelude Poll H2Request H1Io H1WriteBuf.

Record Http1Options : Type := MkOptions {
  max_header_size : Z;
  max_header_count : Z;
  send_date_header : bool;
  header_read_timeout : option Z;
  send_continue_response : bool;
  enable_early_hints : bool;
  enable_vectored_write : bool;
}.

(** [Http1Options::new]; the timeout is in seconds. *)
Definition new_options : Http1Options := MkOptions 16384 128 true (Some 30) true false true.

(** [date_cached]: the formatted date and the nanoseconds it was made at;
    [cancel_token]: whether a token is attached. *)
Record Http1 (T : Type) : Type := MkHttp1 {
  io : T;
  options : Http1Options;
  cancel_token : bool;
  date_cached : option (bytes * Z);
  read_buf : bytes;
  write_buf : WriteBuf;
  connection_idle : bool;
}.
Arguments MkHttp1 {T} _ _ _ _ _ _ _.
Arguments io {T} _.
Arguments options {T} _.
Arguments cancel_token {T} _.
Arguments date_cached {T} _.
Arguments read_buf {T} _.
Arguments write_buf {T} _.
Arguments connection_idle {T} _.

Definition new_http1 {T} (t : T) (o : Http1Options) : Http1 T := MkHttp1 t o false None [] new_write_buf false.

(** [graceful_shutdown_token]. *)
Definition graceful_shutdown_token {T} (s : Http1 T) : Http1 T :=
  MkHttp1 (io s) (options s) true (date_cached s) (read_buf s) (write_buf s) (connection_idle s).

Section setters.
Context {T : Type}.
Definition set_io (t : T) (s : Http1 T) := MkHttp1 t (options s) (cancel_token s) (date_cached s) (read_buf s) (write_buf s) (connection_idle s).
Definition set_date (d : option (bytes * Z)) (s : Http1 T) := MkHttp1 (io s) (options s) (cancel_token s) d (read_buf s) (write_buf s) (connection_idle s).
Definition set_read_buf (l : bytes) (s : Http1 T) := MkHttp1 (io s) (options s) (cancel_token s) (date_cached s) l (write_buf s) (connection_idle s).
Definition set_write_buf (w : WriteBuf) (s : Http1 T) := MkHttp1 (io s) (options s) (cancel_token s) (date_cached s) (read_buf s) w (connection_idle s).
Definition set_idle (i : bool) (s : Http1 T) := MkHttp1 (io s) (options s) (cancel_token s) (date_cached s) (read_buf s) (write_buf s) i.
End setters.

(** ** Errors *)

Definition unexpected_eof : IoError := MkIoError UnexpectedEof "unexpected EOF".
Definition bad_first_line : IoError := MkIoError InvalidInput "bad request first line".
Definition request_too_large : IoError := MkIoError InvalidData "request too large".
Definition invalid_chunk_length : IoError := MkIoError InvalidData "invalid chunk length".
Definition chunk_length_overflow : IoError := MkIoError InvalidData "chunk length buffer overflow".
Definition chunk_length_too_large : IoError := MkIoError InvalidData "chunk length too large".
Definition trailers_incomplete : IoError := MkIoError InvalidInput "trailer headers incomplete".
Definition partial_head : IoError := MkIoError InvalidData "partial request head".
(** Errors with the message of the parser or of the [http] crate. *)
Definition parse_error (k : ErrorKind) : IoError := MkIoError k "parse error".

Section calls.
Context `{HT : Http} {T : Type} `{!Io T}.

Abbreviation http1 := (op (Http1 T) IoError).

(** A call of the stream or the other tasks. *)
Definition call_io {A} (f : T → A * T) : http1 A := λ s, (Done (f (io s)).1, set_io (f (io s)).2 s).

(** An awaited call that can fail. *)
Definition await {A} (f : T → poll (result IoError A) * T) : http1 A := r ← ready (call_io f); lift id r.

(** [self.read_buf[a..b]], which panics out of range. *)
Definition buffered (a b : Z) : http1 bytes :=
  s ← self; match zslice (read_buf s) a b with Some l => mret l | None => stuck end.

(** [self.read_buf.split_to(n)]; [advance(n)] drops what it returns. *)
Definition split_to (n : Z) : http1 bytes :=
  l ← buffered 0 n; _ ← modify (λ s, set_read_buf (drop (Z.to_nat n) (read_buf s)) s); mret l.

Definition version_line (v : Version) : bytes := match v with HTTP_10 => b "HTTP/1.0 " | HTTP_11 => b "HTTP/1.1 " end.

(** [write_100_continue]. *)
Definition write_100_continue (version : Version) : http1 () :=
  _ ← await (io_write_all (version_line version ++ b "100 Continue" ++ [0x0d; 0x0a; 0x0d; 0x0a]));
  await io_flush.

(** [fill_buf]: how many octets came; none at the end of the stream. *)
Definition fill_buf : http1 Z :=
  c ← await io_read;
  _ ← modify (λ s, set_read_buf (read_buf s ++ c) s);
  mret (zlen c).

(** [fill_buf_or_wanted]: with an expectation, a notification comes first. *)
Definition fill_buf_or_wanted (send_continue_body : bool) : http1 (option Z) :=
  if send_continue_body then
    r ← ready (call_io io_read_or_notified);
    match r with
    | None => mret None
    | Some r =>
        c ← lift id r;
        _ ← modify (λ s, set_read_buf (read_buf s ++ c) s);
        mret (Some (zlen c))
    end
  else n ← fill_buf; mret (Some n).

(** The guard before a body read: [100 Continue] once the handler asked for the
    body.  The result is [continue_sent]. *)
Definition continue_if_wanted (send_continue_body continue_sent : bool) (version : Version) : http1 bool :=
  s ← self;
  if negb continue_sent && send_continue_body && wanted (io s) then
    _ ← write_100_continue version; mret true
  else mret continue_sent.
End calls.
