(* ===== verification/H1Plain.v ===== *)
(** * A concrete [http] and [httparse] for HTTP/1

    [H1Crates] over the octets themselves, with a parser of heads that takes
    them apart line by line: the witnesses run the model with it. *)

From S2P Require Import Prelude H2Request H1Io H1Wire.

#[export] Existing Instance plain_http.

(** A line without its end. *)
Definition chop (line : bytes) : bytes := match pop_back line with Some (0x0d, l) => l | _ => line end.

(** The lines of a block that ends with an empty line. *)
Definition block_lines (l : bytes) : list bytes := filter (λ x, x ≠ []) (chop <$> split 0x0a l).

Definition plain_field (line : bytes) : option (bytes * bytes) :=
  p ← position (λ x, x =? 0x3a) line; Some (take p line, trim (drop (S p) line)).

Definition plain_fields (max : Z) (lines : list bytes) : result () (option (list (bytes * bytes))) :=
  match mapM plain_field lines with
  | Some fs => if zlen fs <=? max then Ok (Some fs) else Err ()
  | None => Err ()
  end.

Definition plain_head (max : Z) (l : bytes) : result () (option ParsedHead) :=
  match block_lines l with
  | line :: lines =>
      match split 0x20 line with
      | [m; p; v] =>
          fs ← plain_fields max lines;
          let version := if bool_decide (v = b "HTTP/1.0") then 0 else 1 in
          Ok (match fs with Some fs => Some (MkParsedHead (Some m) (Some p) (Some version) fs) | None => None end)
      | _ => Err ()
      end
  | [] => Err ()
  end.

Definition plain_reason (status : Z) : option bytes :=
  match status with
  | 101 => Some (b "Switching Protocols") | 200 => Some (b "OK") | 204 => Some (b "No Content")
  | 400 => Some (b "Bad Request") | 408 => Some (b "Request Timeout") | _ => None
  end.

#[export] Instance plain_crates : H1Crates := {
  parse_head := plain_head;
  parse_trailers max l := plain_fields max (block_lines l);
  header_get m n := snd <$> head (filter (λ f, eq_ignore_ascii_case f.1 n = true) m);
  header_to_str v := if forallb (λ x, in_range 0x20 0x7e x || (x =? 9)) v then Some v else None;
  header_as_bytes v := v;
  header_name_str n := map to_ascii_lowercase n;
  header_insert m n v := filter (λ f, eq_ignore_ascii_case f.1 n = false) m ++ [(n, v)];
  header_remove m n := filter (λ f, eq_ignore_ascii_case f.1 n = false) m;
  header_iter m := m;
  header_value_unchecked v := v;
  is_head_method m := bool_decide (m = b "HEAD");
  uri_from_str := Some;
  default_method := b "GET";
  default_uri := b "/";
  header_value_from_str := Some;
  fmt_http_date _ := b "Thu, 01 Jan 1970 00:00:00 GMT";
  status_str := to_decimal;
  canonical_reason := plain_reason;
}.

Example plain_parses :
  parse_head 10 (b "GET /a HTTP/1.1" ++ CRLF ++ b "Host: x" ++ CRLF_CRLF)
  = Ok (Some (MkParsedHead (Some (b "GET")) (Some (b "/a")) (Some 1) [(b "Host", b "x")])).
Proof. vm_compute. reflexivity. Qed.

(** A stream that delivers octets in pieces and takes what is written. *)
Definition piece (l : bytes) : list arrival := match l with [] => [] | x :: l => [Chunk_ x l] end.
Definition pieces (l : list bytes) : Playback := playback (l ≫= piece).
