(* ===== verification/H1Read.v ===== *)
(** * Reading requests (src/src/h1/mod.rs, src/src/h1/body.rs)

    [get_head] and [read_request], and the readers of the body: [read_body_fn],
    [read_body_chunk], [read_trailers] and [read_chunked_body_fn].  The async
    functions are computations over the connection; a loop takes fuel, a turn
    of each reads from the stream. *)

From S2P Require Import Prelude Poll H2Request H1Io H1WriteBuf H1Wire H1State.

Section read.
Context `{HT : Http} `{HC : !H1Crates} {T : Type} `{!Io T}.

Abbreviation http1 := (op (Http1 T) IoError).

(** ** The head of a request *)

(** [fill_buf], or what is buffered when the loop starts: [None] at the end of
    the stream. *)
Definition more_head (just_started : bool) : http1 (option Z) :=
  s ← self;
  if negb just_started || bool_decide (read_buf s = []) then
    n ← fill_buf;
    if n =? 0 then mret None else _ ← modify (set_idle false); mret (Some n)
  else mret (Some (zlen (read_buf s))).

(** What a turn does with the octets it has: whether the first line is complete,
    and the head once its end is found. *)
Definition take_head (begin_search bytes_read w : Z) (request_line_read : bool) : http1 (bool * option bytes) :=
  line ← (if request_line_read then mret true
    else l ← buffered w bytes_read; lift (λ _, bad_first_line) (first_line l 0) : http1 bool);
  if (line : bool) then
    let begin_search := Z.max begin_search w in
    l ← buffered begin_search bytes_read;
    match search_header_body_separator l with
    | Some (separator_index, separator_len) =>
        _ ← split_to w;
        head ← split_to (begin_search + separator_index + separator_len - w);
        mret (true, Some head)
    | None => mret (true, None)
    end
  else mret (false, None).

(** The loop of [get_head].  [whitespace_trimmed] is the index the search
    returned, which counts from the octets that are new in that turn. *)
Fixpoint get_head_loop (fuel : nat) (bytes_read : Z) (whitespace_trimmed : option Z)
    (request_line_read just_started : bool) : http1 (option bytes) :=
  s ← self;
  let max := max_header_size (options s) in
  if max <=? bytes_read then fail request_too_large
  else match fuel with
  | O => stuck
  | S fuel =>
      let old_bytes_read := bytes_read in
      let begin_search := Z.max 0 (old_bytes_read - 3) in
      more ← more_head just_started;
      match more with
      | None => if whitespace_trimmed is None then mret None else fail unexpected_eof
      | Some n =>
          let bytes_read := Z.min (old_bytes_read + n) max in
          trimmed ← (match whitespace_trimmed with
            | Some w => mret (Some w)
            | None => l ← buffered old_bytes_read bytes_read; mret (Z.of_nat <$> position (λ x, negb (is_ascii_whitespace x)) l)
            end : http1 (option Z));
          match trimmed with
          | None => get_head_loop fuel bytes_read None request_line_read false
          | Some w =>
              '(line, head) ← take_head begin_search bytes_read w request_line_read;
              match head with
              | Some head => mret (Some head)
              | None => get_head_loop fuel bytes_read trimmed line false
              end
          end
      end
  end.
Definition get_head (fuel : nat) : http1 (option bytes) := get_head_loop fuel 0 None false true.

(** ** The body *)

(** [read_body_fn]: the body of a known length; [continue_sent] is returned. *)
Fixpoint read_body_loop (fuel : nat) (remaining : Z) (send_continue_body continue_sent : bool)
    (version : Version) (just_started : bool) : http1 bool :=
  if remaining <=? 0 then mret continue_sent
  else match fuel with
  | O => stuck
  | S fuel =>
      continue_sent ← continue_if_wanted send_continue_body continue_sent version;
      s ← self;
      more ← (if negb just_started || bool_decide (read_buf s = [])
        then fill_buf_or_wanted send_continue_body else mret (Some 1) : http1 (option Z));
      match more with
      | None => read_body_loop fuel remaining send_continue_body continue_sent version false
      | Some 0 => mret continue_sent
      | Some _ =>
          s ← self;
          chunk ← split_to (Z.min (zlen (read_buf s)) (Z.min remaining usize_max));
          _ ← ready (call_io (body_send (DataFrame chunk)));
          read_body_loop fuel (remaining - zlen chunk) send_continue_body continue_sent version false
      end
  end.
Definition read_body_fn (fuel : nat) (content_length : Z) (send_continue_body continue_sent : bool) (version : Version) : http1 bool :=
  read_body_loop fuel content_length send_continue_body continue_sent version true.

(** The guarded read both loops of [read_body_chunk] begin with: how many more
    octets there are, [None] when the notification came instead. *)
Definition more_chunk (just_started send_continue_body continue_sent : bool) (version : Version) : http1 (bool * option Z) :=
  s ← self;
  if negb just_started || bool_decide (read_buf s = []) then
    continue_sent ← continue_if_wanted send_continue_body continue_sent version;
    n ← fill_buf_or_wanted send_continue_body;
    match n with
    | Some 0 => fail unexpected_eof
    | _ => mret (continue_sent, n)
    end
  else mret (continue_sent, Some (zlen (read_buf s))).

(** The size line: the loop up to [break len]. *)
Fixpoint chunk_len_loop (fuel : nat) (len_buf_pos : Z) (just_started send_continue_body continue_sent : bool)
    (version : Version) : http1 (bool * Z) :=
  if 48 <=? len_buf_pos then fail chunk_length_overflow
  else match fuel with
  | O => stuck
  | S fuel =>
      let begin_search := Z.max 0 (len_buf_pos - 1) in
      '(continue_sent, n) ← more_chunk just_started send_continue_body continue_sent version;
      match n with
      | None => chunk_len_loop fuel len_buf_pos false send_continue_body continue_sent version
      | Some n =>
          let len_buf_pos := len_buf_pos + n in
          l ← buffered begin_search (Z.min len_buf_pos 48);
          match find l CRLF with
          | Some pos =>
              numbers ← buffered 0 (begin_search + pos);
              len ← (if from_utf8 numbers then lift id (ok_or (from_str_radix 16 numbers) invalid_chunk_length)
                     else fail invalid_chunk_length : http1 Z);
              _ ← split_to (begin_search + pos + 2);
              mret (continue_sent, len)
          | None => chunk_len_loop fuel len_buf_pos false send_continue_body continue_sent version
          end
      end
  end.

(** The loop that waits for the data and two octets behind it. *)
Fixpoint chunk_data_loop (fuel : nat) (read len_plus_two : Z) (just_started send_continue_body continue_sent : bool)
    (version : Version) : http1 bool :=
  if len_plus_two <=? read then mret continue_sent
  else match fuel with
  | O => stuck
  | S fuel =>
      '(continue_sent, n) ← more_chunk just_started send_continue_body continue_sent version;
      chunk_data_loop fuel (read + default 0 n) len_plus_two false send_continue_body continue_sent version
  end.

Definition read_body_chunk (fuel : nat) (would_have_trailers send_continue_body continue_sent : bool)
    (version : Version) : http1 (bool * bytes) :=
  '(continue_sent, len) ← chunk_len_loop fuel 0 true send_continue_body continue_sent version;
  if (len =? 0) && would_have_trailers then mret (continue_sent, [])
  else
    len_plus_two ← lift id (ok_or (checked_add64 len 2) chunk_length_too_large);
    continue_sent ← chunk_data_loop fuel 0 len_plus_two true send_continue_body continue_sent version;
    chunk ← split_to len;
    _ ← split_to 2;
    mret (continue_sent, chunk).

(** ** Trailers *)

(** A field of [httparse] as [http] has it; [EMPTY_HEADER] ends the list. *)
Fixpoint header_fields (l : list (bytes * bytes)) (m : HeaderMap) : result IoError HeaderMap :=
  match l with
  | [] => Ok m
  | (name, value) :: l =>
      if bool_decide (name = [] ∧ value = []) then Ok m
      else
        n ← ok_or (header_name_from_bytes name) (parse_error Other);
        header_fields l (header_map_append m n (header_value_unchecked value))
  end.

Definition trailer_fields (block : bytes) (max_header_count : Z) : result IoError HeaderMap :=
  status ← map_err (λ _, parse_error InvalidInput) (parse_trailers max_header_count block);
  match status with
  | Some fields => header_fields fields header_map_new
  | None => Err trailers_incomplete
  end.

(** The read a turn begins with; an end of the stream is an error. *)
Definition more_trailers (just_started : bool) : http1 Z :=
  s ← self;
  if negb just_started || bool_decide (read_buf s = []) then
    n ← fill_buf;
    if n =? 0 then fail unexpected_eof else mret n
  else mret (zlen (read_buf s)).

Fixpoint read_trailers_loop (fuel : nat) (bytes_read : Z) (just_started : bool) : http1 (option HeaderMap) :=
  s ← self;
  let max := max_header_size (options s) in
  if max <=? bytes_read then fail request_too_large
  else match fuel with
  | O => stuck
  | S fuel =>
      let old_bytes_read := bytes_read in
      let begin_search := Z.max 0 (old_bytes_read - 3) in
      n ← more_trailers just_started;
      let bytes_read := Z.min (old_bytes_read + n) max in
      s ← self;
      if (2 <=? bytes_read) && bool_decide (take 2 (read_buf s) = CRLF) then mret None
      else
        l ← buffered begin_search bytes_read;
        match find l CRLF_CRLF with
        | Some separator_index =>
            block ← split_to (begin_search + separator_index + 4);
            m ← lift id (trailer_fields block (max_header_count (options s)));
            mret (Some m)
        | None => read_trailers_loop fuel bytes_read false
        end
  end.
Definition read_trailers (fuel : nat) : http1 (option HeaderMap) := read_trailers_loop fuel 0 true.

(** [read_chunked_body_fn]: every chunk takes at least three octets off the
    buffer or the stream, so the turns are bounded like the reads. *)
Fixpoint read_chunks (fuel : nat) (would_have_trailers send_continue_body continue_sent : bool) (version : Version) : http1 bool :=
  match fuel with
  | O => stuck
  | S fuel' =>
      '(continue_sent, chunk) ← read_body_chunk fuel would_have_trailers send_continue_body continue_sent version;
      if bool_decide (chunk = []) then mret continue_sent
      else
        _ ← ready (call_io (body_send (DataFrame chunk)));
        read_chunks fuel' would_have_trailers send_continue_body continue_sent version
  end.

Definition read_chunked_body_fn (fuel : nat) (would_have_trailers send_continue_body continue_sent : bool)
    (version : Version) : http1 bool :=
  continue_sent ← read_chunks fuel would_have_trailers send_continue_body continue_sent version;
  _ ← (if would_have_trailers then
         trailers ← read_trailers fuel;
         match trailers with
         | Some trailers => ready (call_io (body_send (TrailersFrame trailers)))
         | None => mret ()
         end
       else mret ());
  mret continue_sent.

(** ** The request *)

(** The request of a parsed head, in the order the code builds it. *)
Definition build_request (req : ParsedHead) : result IoError Request :=
  let version := match hd_version req with Some 0 => HTTP_10 | _ => HTTP_11 end in
  method ← match hd_method req with
    | Some m => ok_or (method_from_bytes m) (parse_error Other)
    | None => Ok default_method
    end;
  uri ← match hd_path req with
    | Some p => ok_or (uri_from_str p) (parse_error Other)
    | None => Ok default_uri
    end;
  headers ← header_fields (hd_headers req) header_map_new;
  Ok (MkRequest method uri version headers).

(** Whether the head asks for [100 Continue]. *)
Definition expects_continue (req : ParsedHead) : bool :=
  existsb (λ h, eq_ignore_ascii_case h.1 (b "expect") && eq_ignore_ascii_case h.2 (b "100-continue")) (hd_headers req).

(** [read_request]: the request and whether there is an expectation to meet. *)
Definition read_request (fuel : nat) : http1 (option (Request * bool)) :=
  head ← get_head fuel;
  match head with
  | None => mret None
  | Some head =>
      s ← self;
      status ← lift (λ _, parse_error InvalidData) (parse_head (max_header_count (options s)) head);
      match status with
      | None => fail partial_head
      | Some req =>
          let is_100_continue := send_continue_response (options s) && expects_continue req in
          request ← lift id (build_request req);
          mret (Some (request, is_100_continue))
      end
  end.
End read.
