(* ===== verification/H1ReadSpec.v ===== *)
(** * What the reader of HTTP/1 does with a stream that arrives in pieces

    A read appends to the buffer what the stream delivers.  The head that
    [get_head] returns is the one [scan_head] finds on the whole stream, and the
    body is what the grammar of bodies says of it, wherever the pieces end. *)

From S2P Require Import Prelude Poll H2Request H1Io H1WriteBuf H1Wire H1State H1Read H1Plain.

Section spec.
Context `{HT : Http} `{HC : !H1Crates} {T : Type} `{HI : !Io T} `{HR : !RecordedIo T}.

Abbreviation http1 := (op (Http1 T) IoError).
Abbreviation state := (Http1 T).

(** ** The calls *)

(** The last thing that happened was a read that failed with [e], or one that
    found the end of the stream. *)
Definition cut_off (s : state) (e : IoError) : Prop :=
  last (past (io s)) = Some (ReadFailed e) ∨ e = unexpected_eof ∧ last (past (io s)) = Some GotEnd.

Lemma cut_off_error (s : state) h e : past (io s) = h ++ read_happened (Err e) → cut_off s e.
Proof. intros H. left. rewrite H. apply last_snoc. Qed.
Lemma cut_off_end (s : state) h : past (io s) = h ++ read_happened (Ok []) → cut_off s unexpected_eof.
Proof. intros H. right. split; [done|]. rewrite H. apply last_snoc. Qed.

Lemma wp_await {A} (f : T → poll (result IoError A) * T) Q (s : state) :
  wp (await f) Q s ↔ match (f (io s)).1 with
    | Ready (Ok a) => Q (Done a) (set_io (f (io s)).2 s) | Ready (Err e) => Q (Fail e) (set_io (f (io s)).2 s)
    | Pending => Q Wait (set_io (f (io s)).2 s) end.
Proof.
  unfold await. rewrite wp_bind, wp_ready. unfold wp, call_io. cbn. by destruct (f (io s)) as [[[a|e]|] t'].
Qed.

Lemma set_read_buf_id (s : state) : s = set_read_buf (read_buf s) s.
Proof. by destruct s. Qed.

Lemma wp_call_io {A} (f : T → poll A * T) Q (s : state) :
  wp (ready (call_io f) : http1 A) Q s ↔ match (f (io s)).1 with
    | Ready a => Q (Done a) (set_io (f (io s)).2 s) | Pending => Q Wait (set_io (f (io s)).2 s) end.
Proof. rewrite wp_ready. unfold wp, call_io. cbn. by destruct (f (io s)) as [[a|] t']. Qed.

Lemma wp_buffered a b Q (s : state) : 0 ≤ a ≤ b → b ≤ zlen (read_buf s) →
  Q (Done (drop (Z.to_nat a) (take (Z.to_nat b) (read_buf s)))) s → wp (buffered a b) Q s.
Proof.
  intros Hab Hb HQ. unfold buffered. rewrite wp_self. unfold zslice.
  rewrite (proj2 (Z.leb_le 0 a)), (proj2 (Z.leb_le a b)), (proj2 (Z.leb_le b _)) by lia. cbn [andb].
  rewrite wp_ret. rewrite skipn_firstn_comm in HQ. by replace (Z.to_nat (b - a)) with (Z.to_nat b - Z.to_nat a)%nat by lia.
Qed.

Lemma wp_split_to n Q (s : state) : 0 ≤ n ≤ zlen (read_buf s) →
  Q (Done (take (Z.to_nat n) (read_buf s))) (set_read_buf (drop (Z.to_nat n) (read_buf s)) s) → wp (split_to n) Q s.
Proof.
  intros Hn HQ. unfold split_to. rewrite wp_bind. apply wp_buffered; [lia|lia|]. rewrite drop_0. exact HQ.
Qed.

(** What a read does. *)
Lemma wp_fill_buf Q (s : state) :
  (∀ c t', bytes_ok c → past t' = past (io s) ++ read_happened (Ok c) → io_read (io s) = (Ready (Ok c), t') →
    Q (Done (zlen c)) (set_read_buf (read_buf s ++ c) (set_io t' s))) →
  (∀ o t' h, past t' = past (io s) ++ h → match o with Fail e => h = read_happened (Err e) | Wait => h = [] | _ => False end →
    Q o (set_io t' s)) →
  wp fill_buf Q s.
Proof.
  intros HD HF. unfold fill_buf. rewrite wp_bind, wp_await. pose proof (past_read (io s)) as Hp.
  pose proof (read_octets (io s)) as Ho. destruct (io_read (io s)) as [[[c|e]|] t'] eqn:E; cbn [fst snd] in *.
  - apply HD; [by apply Ho|done|done].
  - by eapply HF.
  - by eapply HF.
Qed.

(** The stream delivered [c], and nothing was written or handed over. *)
Record heard (c : bytes) (s s' : state) : Prop := {
  heard_got : got (past (io s')) = got (past (io s)) ++ c;
  heard_put : put (past (io s')) = put (past (io s));
  heard_gave : gave (past (io s')) = gave (past (io s));
  heard_options : options s' = options s;
  heard_token : cancel_token s' = cancel_token s;
  heard_date : date_cached s' = date_cached s;
  heard_write_buf : write_buf s' = write_buf s;
}.

Lemma heard_nothing (s s' : state) : past (io s') = past (io s) → options s' = options s → cancel_token s' = cancel_token s →
  date_cached s' = date_cached s → write_buf s' = write_buf s → heard [] s s'.
Proof. intros H. split; rewrite ?H, ?app_nil_r; done. Qed.

Lemma heard_quiet h (s : state) t' : past t' = past (io s) ++ h → quiet h → heard [] s (set_io t' s).
Proof.
  intros Hp (E1 & E2 & E3 & _). split; cbn; try done; by rewrite Hp, ?got_app, ?put_app, ?gave_app, ?E1, ?E2, ?E3, ?app_nil_r.
Qed.

Lemma heard_trans c d (s s' s'' : state) : heard c s s' → heard d s' s'' → heard (c ++ d) s s''.
Proof. intros [] []. split; try congruence. rewrite app_assoc. congruence. Qed.

Lemma got_read (t t' : T) c : past t' = past t ++ read_happened (Ok c) →
  got (past t') = got (past t) ++ c ∧ put (past t') = put (past t) ∧ gave (past t') = gave (past t).
Proof.
  intros ->. rewrite got_app, put_app, gave_app. destruct c as [|x c]; unfold got, put, gave; cbn; by rewrite !app_nil_r.
Qed.

(** ** The head *)

Section head.
Context (max w : Z).

(** What is in the buffer, [l], and what the turns so far made of it. *)
Record scanned (l : bytes) (bytes_read : Z) (line : bool) (s : state) : Prop := {
  scanned_buf : read_buf s = l;
  scanned_max : max_header_size (options s) = max;
  scanned_to : bytes_read = Z.min (zlen l) max;
  scanned_skip : 0 ≤ w ≤ bytes_read;
  scanned_line : first_line (drop (Z.to_nat w) (take (Z.to_nat max) l)) 0 = Ok line;
  scanned_none : locate separator 0 (drop (Z.to_nat w) (take (Z.to_nat max) l)) = None;
}.

(** What [get_head] may end with on a stream; [why] are the reasons to fail
    before there is a verdict. *)
Definition head_verdict (why : IoError → Prop) (stream : bytes) (o : outcome IoError (option bytes)) (rest : bytes) : Prop :=
  match o with
  | Done (Some head) => scan_head max w stream = HeadAt (zlen head) ∧ stream = take (Z.to_nat w) stream ++ head ++ rest
  | Done None => stream = []
  | Fail e => scan_head max w stream = BadLine ∧ e = bad_first_line
      ∨ scan_head max w stream = TooLarge ∧ e = request_too_large
      ∨ scan_head max w stream = More ∧ why e
  | Wait => scan_head max w stream = More ∧ rest = stream
  | Stuck => False
  end.

Lemma scanned_open l n line s : scanned l n line s → scan_head max w l = if max <=? zlen l then TooLarge else More.
Proof. intros [_ _ _ _ Hl Hn]. unfold scan_head. rewrite Hl, Hn. by destruct line. Qed.

Abbreviation window l := (drop (Z.to_nat w) (take (Z.to_nat max) l)).

Lemma window_app (l k : bytes) : ∃ k', window (l ++ k) = window l ++ k'.
Proof. rewrite take_app, drop_app. by eexists. Qed.

Lemma zlen_window (l : bytes) : 0 ≤ w → 0 ≤ max → zlen (window l) = Z.max 0 (Z.min (zlen l) max - w).
Proof. intros. unfold zlen. rewrite length_drop, length_take. lia. Qed.

(** Cutting the head off, where the separator is. *)
Lemma cut_head (l : bytes) i n p (s : state) : read_buf s = l → 0 ≤ w ≤ zlen l → 0 ≤ max →
  first_line (window l) 0 = Ok true → locate separator 0 (window l) = Some (i, n) → p = w + i + n - w →
  wp (_ ← split_to w; head ← split_to p; mret (true, Some head) : http1 (bool * option bytes)) (λ o s', s' = set_read_buf (read_buf s') s ∧
    match o with Done (_, Some h) => head_verdict (cut_off s') l (Done (Some h)) (read_buf s') | _ => False end) s.
Proof.
  intros Hl Hw Hmax Hf Hloc ->. replace (w + i + n - w) with (i + n) by lia.
  pose proof (proj1 (locate_Some separator _ _ _) Hloc) as (Hi & Hn & _). cbn [fst snd] in *. rewrite Z.sub_0_r in Hn.
  apply (pattern_size _ _ separator_pattern) in Hn. unfold zlen in Hn. rewrite !length_drop, length_take in Hn. unfold zlen in Hw.
  rewrite wp_bind. apply wp_split_to; [unfold zlen; rewrite Hl; lia|]. cbn [andthen].
  rewrite wp_bind. apply wp_split_to; [cbn; unfold zlen; rewrite Hl, length_drop; lia|].
  cbn [andthen]. rewrite wp_ret. cbn [read_buf set_read_buf io head_verdict]. rewrite Hl.
  split; [done|]. split.
  - unfold scan_head. rewrite Hf, Hloc. f_equal. unfold zlen. rewrite length_take, length_drop. lia.
  - by rewrite !take_drop.
Qed.

(** A turn over a longer buffer: the verdict, or the scan goes on. *)
Lemma take_head_spec (l k : bytes) old line s : read_buf s = l ++ k → max_header_size (options s) = max → 0 ≤ max →
  old = Z.min (zlen l) max → 0 ≤ w ≤ Z.min (zlen (l ++ k)) max →
  (line = false ∨ first_line (window l) 0 = Ok true) → locate separator 0 (window l) = None →
  wp (take_head (Z.max 0 (old - 3)) (Z.min (zlen (l ++ k)) max) w line) (λ o s', s' = set_read_buf (read_buf s') s ∧
    match o with
    | Done (line', None) => s' = s ∧ scanned (l ++ k) (Z.min (zlen (l ++ k)) max) line' s
    | Done (_, Some h) => head_verdict (cut_off s') (l ++ k) (Done (Some h)) (read_buf s')
    | Fail e => head_verdict (cut_off s') (l ++ k) (Fail e) (read_buf s')
    | Wait | Stuck => False
    end) s.
Proof.
  intros Hs Hopt Hmax Hold Hw Hline Hnone. destruct (window_app l k) as [k' Hk]. pose proof (zlen_nonneg (l ++ k)).
  assert (take (Z.to_nat (Z.min (zlen (l ++ k)) max)) (l ++ k) = take (Z.to_nat max) (l ++ k)) as Htake.
  { destruct (Z.min_spec (zlen (l ++ k)) max) as [[? ->]|[? ->]]; [|done]. unfold zlen in *. rewrite !take_ge by lia. done. }
  unfold take_head. rewrite wp_bind.
  eapply (wp_mono _ (λ o s', s' = s ∧ match o with Done b => first_line (window (l ++ k)) 0 = Ok b
    | Fail e => first_line (window (l ++ k)) 0 = Err () ∧ e = bad_first_line | _ => False end)).
  { destruct line.
    - rewrite wp_ret. split; [done|]. destruct Hline as [|Hline]; [done|]. rewrite Hk. by apply (first_line_done _ k' 0 _ Hline).
    - rewrite wp_bind. apply wp_buffered; [lia|rewrite Hs; lia|]. rewrite Hs, Htake. cbn [andthen]. rewrite wp_lift.
      destruct (first_line (window (l ++ k)) 0) as [b|[]]; by split. }
  intros [[|]|e| |] s' [-> Hl']; cbn [andthen]; try done.
  3:{ destruct Hl' as [Hl' ->]. split; [apply set_read_buf_id|]. left. unfold scan_head. by rewrite Hl'. }
  2:{ rewrite wp_ret. split; [apply set_read_buf_id|]. split; [done|]. split; try done. by apply (first_line_open _ 0). }
  set (begin := Z.max (Z.max 0 (old - 3)) w). rewrite wp_bind. pose proof (zlen_nonneg l).
  apply wp_buffered; [unfold begin; zlia|rewrite Hs; lia|]. rewrite Hs, Htake. cbn [andthen].
  set (d := Z.to_nat (begin - w)). assert (drop (Z.to_nat begin) (take (Z.to_nat max) (l ++ k)) = drop d (window (l ++ k))) as ->.
  { rewrite drop_drop. f_equal. unfold d, begin. lia. }
  rewrite search_located. pose proof (locate_resume 4 separator separator_pattern (window l) k' d Hnone) as Hres.
  rewrite <- Hk in Hres. pose proof (zlen_window l ltac:(lia) Hmax) as Hwin. unfold zlen in Hwin at 1.
  specialize (Hres ltac:(unfold d, begin; lia) ltac:(unfold d, begin, zlen at 1; lia)).
  pose proof (locate_shift separator (drop d (window (l ++ k))) 0 (Z.of_nat d)) as Hshift. rewrite Z.add_0_l, <- Hres in Hshift.
  destruct (locate separator 0 (drop d (window (l ++ k)))) as [[i n]|]; cbn in Hshift.
  - eapply wp_mono; [apply (cut_head (l ++ k) (i + Z.of_nat d) n); try done; [lia|unfold d, begin; lia]|].
    intros [[? [h|]]|e| |] s' [Hio Hv]; try done.
  - rewrite wp_ret. split; [apply set_read_buf_id|]. by split.
Qed.

Lemma heard_read c (s : state) t' b i : past t' = past (io s) ++ read_happened (Ok c) →
  heard c s (set_idle i (set_read_buf b (set_io t' s))).
Proof. intros H. apply got_read in H as (Hg & Hp & Hv). by split. Qed.

(** Where [more_head] reads. *)
Definition reads_on (Q : outcome IoError (option Z) → state → Prop) (s : state) : Prop :=
  (∀ x c t', bytes_ok (x :: c) → io_read (io s) = (Ready (Ok (x :: c)), t') →
    heard (x :: c) s (set_idle false (set_read_buf (read_buf s ++ x :: c) (set_io t' s))) →
    Q (Done (Some (zlen (x :: c)))) (set_idle false (set_read_buf (read_buf s ++ x :: c) (set_io t' s))))
  ∧ (∀ o s', heard [] s s' → read_buf s' = read_buf s →
      match o with Done None => cut_off s' unexpected_eof | Fail e => cut_off s' e | Wait => True | _ => False end → Q o s').

Lemma wp_more_head (Q : outcome IoError (option Z) → state → Prop) (s : state) just_started :
  (just_started = true → read_buf s ≠ [] → Q (Done (Some (zlen (read_buf s)))) s) →
  (just_started = false ∨ read_buf s = [] → reads_on Q s) → wp (more_head just_started) Q s.
Proof.
  intros HB HR'. unfold more_head. rewrite wp_self.
  destruct (negb just_started || bool_decide (read_buf s = [])) eqn:E.
  2:{ apply orb_false_iff in E as [Ej Eb]. rewrite wp_ret. apply HB; [by destruct just_started|by apply bool_decide_eq_false in Eb]. }
  destruct HR' as [HD HF].
  { apply orb_true_iff in E as [E|E]; [left; by destruct just_started|right; by apply bool_decide_eq_true in E]. }
  rewrite wp_bind. apply wp_fill_buf.
  - intros [|x c] t' Hc Hp Hr; cbn [andthen].
    + change (Q (Done None) (set_read_buf (read_buf s ++ []) (set_io t' s))). apply HF; [|by cbn; rewrite app_nil_r|by eapply cut_off_end].
      apply got_read in Hp as (Hg & Hp & Hv). by split.
    + rewrite (proj2 (Z.eqb_neq _ _)) by zlia.
      apply HD; [done|done|by apply heard_read].
  - intros o t' h Hp Ho. assert (heard [] s (set_io t' s)) as Hh.
    { apply (heard_quiet h); [done|]. destruct o; try done; subst h; done. }
    destruct o as [n|e| |]; try done; (apply HF; [done|done|]); [|done]. subst h. by eapply cut_off_error.
Qed.

(** The turns after the first. *)
Lemma get_head_loop_spec `{!FiniteIo T} fuel l old line s : scanned l old line s → (left_over (io s) < fuel)%nat → 0 ≤ max →
  wp (get_head_loop fuel old (Some w) line false) (λ o s', ∃ c, heard c s s' ∧ head_verdict (cut_off s') (l ++ c) o (read_buf s')) s.
Proof.
  revert l old line s. induction fuel as [|fuel IH]; intros l old line s Hsc Hf Hmax; [lia|].
  pose proof (scanned_open _ _ _ _ Hsc) as Hopen. pose proof Hsc as [Hb Hm Ho Hs Hl Hn].
  cbn [get_head_loop]. rewrite wp_self, Hm. destruct (Z.leb_spec max old) as [Hle|Hlt].
  { rewrite wp_fail. exists []. split; [by apply heard_nothing|]. rewrite app_nil_r. right. left.
    by rewrite Hopen, (proj2 (Z.leb_le _ _)) by lia. }
  rewrite (proj2 (Z.leb_gt max (zlen l))) in Hopen by lia. assert (old = zlen l) as -> by lia.
  rewrite wp_bind. apply wp_more_head; [done|]. intros _. split.
  2:{ intros o s' Hh Hb' Hc. destruct o as [[n|]|e| |]; try done; cbn [andthen]; exists []; (split; [done|]);
      rewrite app_nil_r; [right; right; by split..|by rewrite Hb', Hb]. }
  intros x c t' Hc Hr Hh. set (s1 := set_idle false _) in *. cbn [andthen]. rewrite wp_bind, wp_ret. cbn [andthen].
  rewrite wp_bind. replace (zlen l + zlen (x :: c)) with (zlen (l ++ x :: c)) by apply zlen_app.
  eapply wp_mono; [apply (take_head_spec l (x :: c) (zlen l) line s1); try done|].
  - unfold s1. cbn. by rewrite Hb.
  - zlia.
  - destruct line; [by right|by left].
  - intros o s' [Hs' Ho']. destruct o as [[line' [h|]]|e| |]; try done; cbn [andthen].
    + exists (x :: c). split; [|done]. rewrite Hs'. by destruct Hh.
    + destruct Ho' as [-> Hsc']. eapply wp_mono; [apply (IH (l ++ x :: c)); [exact Hsc'| |done]|].
      * pose proof (left_read (io s)) as Hleft. rewrite Hr in Hleft. cbn in Hleft |- *. lia.
      * intros o s2 (d & Hd & Hv). exists ((x :: c) ++ d). split; [by eapply heard_trans|]. by rewrite app_assoc.
    + exists (x :: c). split; [|done]. rewrite Hs'. by destruct Hh.
Qed.
End head.

(** Whatever happens, [get_head] only listens. *)
Definition listens (s s' : state) : Prop := ∃ c, heard c s s'.

#[local] Instance listens_preorder : PreOrder listens.
Proof.
  split; [intros s; exists []; by apply heard_nothing|].
  intros s s' s'' [c Hc] [d Hd]. exists (c ++ d). by eapply heard_trans.
Qed.

Lemma listens_buf (f : bytes → bytes) : within listens (modify (λ s, set_read_buf (f (read_buf s)) s) : http1 ()).
Proof. apply within_modify. intros s. exists []. by apply heard_nothing. Qed.

Lemma listens_idle : within listens (modify (set_idle false) : http1 ()).
Proof. apply within_modify. intros s. exists []. by apply heard_nothing. Qed.

Lemma listens_fill : within listens fill_buf.
Proof.
  intros s. apply (wp_fill_buf (λ _ s', listens s s')).
  - intros c t' _ Hp _. exists c. apply got_read in Hp as (Hg & Hp & Hv). by split.
  - intros o t' h Hp Ho. exists []. apply (heard_quiet h); [done|]. destruct o; try done; subst h; done.
Qed.

Lemma listens_buffered a b : within listens (buffered a b).
Proof. unfold buffered. stays. Qed.

Lemma listens_split n : within listens (split_to n).
Proof. unfold split_to. stays; [apply listens_buffered|apply (listens_buf (drop (Z.to_nat n)))]. Qed.

Ltac only_listens := stays; first [apply listens_fill|apply listens_idle|apply listens_buffered|apply listens_split].

Lemma get_head_listens fuel n trimmed line js : within listens (get_head_loop fuel n trimmed line js).
Proof.
  revert n trimmed line js. induction fuel as [|fuel IH]; intros n trimmed line js; cbn [get_head_loop].
  { stays. }
  unfold more_head, take_head. stays; try apply IH; only_listens.
Qed.

(** The first octets [get_head] looks at: what is buffered, or the first read. *)
Definition first_piece (s : state) : bytes :=
  match read_buf s with
  | [] => match (io_read (io s)).1 with Ready (Ok c) => c | _ => [] end
  | l => l
  end.

(** The head begins in the first piece, behind [w] octets of white space; or
    nothing comes at all. *)
Definition starts (max : Z) (piece : bytes) (w : Z) : Prop :=
  match piece with
  | [] => w = 0
  | _ => position (λ x, negb (is_ascii_whitespace x)) (take (Z.to_nat max) piece) = Some (Z.to_nat w) ∧ 0 ≤ w
  end.

Lemma take_min (l : bytes) max : 0 ≤ max → take (Z.to_nat (Z.min (zlen l) max)) l = take (Z.to_nat max) l.
Proof.
  intros H. destruct (Z.min_spec (zlen l) max) as [[? ->]|[? ->]]; [|done]. unfold zlen in *. rewrite !take_ge by lia. done.
Qed.

(** The first turn, once there is something to look at. *)
Lemma first_turn `{!FiniteIo T} fuel max B (s s0 : state) c0 : B ≠ [] → read_buf s0 = B → max_header_size (options s0) = max →
  0 < max → (left_over (io s0) < fuel)%nat → heard c0 s s0 → read_buf s ++ c0 = B →
  wp (trimmed ← (l ← buffered 0 (Z.min (zlen B) max); mret (Z.of_nat <$> position (λ x, negb (is_ascii_whitespace x)) l) : http1 (option Z));
      match trimmed with
      | None => get_head_loop fuel (Z.min (zlen B) max) None false false
      | Some w =>
          '(line, head) ← take_head 0 (Z.min (zlen B) max) w false;
          match head with
          | Some head => mret (Some head)
          | None => get_head_loop fuel (Z.min (zlen B) max) trimmed line false
          end
      end)
    (λ o s', ∃ c, heard c s s' ∧ c0 `prefix_of` c ∧ ∀ w, 0 ≤ w →
      position (λ x, negb (is_ascii_whitespace x)) (take (Z.to_nat max) B) = Some (Z.to_nat w) →
      head_verdict max w (cut_off s') (read_buf s ++ c) o (read_buf s')) s0.
Proof.
  intros Hne HB Hm Hmax Hf Hh Hst. pose proof (zlen_nonneg B). rewrite wp_bind. apply (wp_mono _ (λ o s', s' = s0 ∧
    o = Done (Z.of_nat <$> position (λ x, negb (is_ascii_whitespace x)) (take (Z.to_nat max) B)))).
  { rewrite wp_bind. apply wp_buffered; [lia|rewrite HB; lia|]. cbn [andthen]. rewrite wp_ret, drop_0, HB, take_min by lia. done. }
  intros o ? [-> ->]. cbn [andthen]. destruct (position _ _) as [w|] eqn:Ep; cbn [fmap option_fmap option_map].
  2:{ destruct (get_head_listens fuel (Z.min (zlen B) max) None false false s0) as [d Hd]. unfold wp. exists (c0 ++ d).
      split; [by eapply heard_trans|]. split; [by exists d|done]. }
  assert (Z.of_nat w ≤ Z.min (zlen B) max) as Hw.
  { apply position_Some in Ep as (pre & x & post & Ep & Hl & _). apply (f_equal length) in Ep.
    rewrite length_take, length_app in Ep. cbn in Ep. unfold zlen. lia. }
  rewrite wp_bind. eapply wp_mono; [apply (take_head_spec max (Z.of_nat w) [] B 0 false s0); try done;
    [lia|change (0 = Z.min 0 max); lia|rewrite app_nil_l; lia|by left|by rewrite take_nil, drop_nil]|].
  intros o s' [Hs' Ho']. rewrite app_nil_l in *. destruct o as [[line' [h|]]|e| |]; try done; cbn [andthen].
  - exists c0. split; [rewrite Hs'; by destruct Hh|]. split; [done|]. intros w' Hw' [= ->]. rewrite Z2Nat.id, Hst in * by done. done.
  - destruct Ho' as [-> Hsc]. eapply wp_mono; [apply (get_head_loop_spec max (Z.of_nat w) fuel B _ line' s0 Hsc Hf); lia|].
    intros o s2 (d & Hd & Hv). exists (c0 ++ d). split; [by eapply heard_trans|]. split; [by exists d|].
    intros w' Hw' [= ->]. rewrite Z2Nat.id in Hv by done. by rewrite app_assoc, Hst.
  - exists c0. split; [rewrite Hs'; by destruct Hh|]. split; [done|]. intros w' Hw' [= ->]. rewrite Z2Nat.id, Hst in * by done. done.
Qed.

Lemma scan_head_nil max w : 0 < max → scan_head max w [] = More.
Proof. intros H. unfold scan_head. rewrite take_nil, drop_nil. cbn. by destruct max. Qed.

Lemma get_head_spec `{!FiniteIo T} fuel max (s : state) :
  max_header_size (options s) = max → 0 ≤ max → (S (left_over (io s)) < fuel)%nat →
  wp (get_head fuel) (λ o s', ∃ c, heard c s s'
    ∧ (∀ h, o = Done (Some h) → first_piece s ≠ [] ∧ (read_buf s = [] → first_piece s `prefix_of` c))
    ∧ ∀ w, starts max (first_piece s) w → head_verdict max w (cut_off s') (read_buf s ++ c) o (read_buf s')) s.
Proof.
  intros Hm Hmax Hf. unfold get_head. destruct fuel as [|fuel]; [lia|]. cbn [get_head_loop]. rewrite wp_self, Hm.
  destruct (Z.leb_spec max 0) as [Hle|Hlt].
  { rewrite wp_fail. exists []. split; [by apply heard_nothing|]. split; [done|]. intros w _. assert (max = 0) as -> by lia. right. left.
    split; [|done]. unfold scan_head. rewrite take_0, drop_nil. by rewrite (proj2 (Z.leb_le _ _)) by apply zlen_nonneg. }
  rewrite wp_bind. apply wp_more_head.
  - intros _ Hne. cbn [andthen]. rewrite Z.add_0_l. eapply wp_mono; [apply (first_turn fuel max (read_buf s) s s []); try done|].
    + lia.
    + by apply heard_nothing.
    + apply app_nil_r.
    + intros o s' (c & Hh & _ & Hv). exists c. split; [done|]. split; [intros h _; unfold first_piece; by destruct (read_buf s)|].
      intros w Hst. unfold starts, first_piece in Hst.
      destruct (read_buf s) as [|x l]; [done|]. destruct Hst as [Hst Hw]. by apply Hv.
  - intros Hempty. assert (read_buf s = []) as Hb by by destruct Hempty. split.
    + intros x c t' Hc Hr Hh. set (s0 := set_idle false _) in *. cbn [andthen]. rewrite Z.add_0_l.
      assert (left_over (io s0) < fuel)%nat as Hl by (pose proof (left_read (io s)) as Hl; rewrite Hr in Hl; cbn in *; lia).
      assert (read_buf s ++ x :: c = x :: c) as Hst by by rewrite Hb.
      eapply wp_mono; [apply (first_turn fuel max (x :: c) s s0 (x :: c)); try done|].
      intros o s' (c' & Hh' & [d ->] & Hv). eexists. split; [done|]. unfold first_piece. rewrite Hb, Hr in *. cbn [fst] in *.
      split; [intros h _; split; [done|]; intros _; by exists d|]. intros w Hw. destruct Hw as [Hw H0]. by apply Hv.
    + intros o s' Hh Hb' Ho.
      assert (∀ o' : outcome IoError (option bytes), (∀ w, head_verdict max w (cut_off s') [] o' []) → (∀ h, o' ≠ Done (Some h)) →
        ∃ c, heard c s s' ∧ (∀ h, o' = Done (Some h) → first_piece s ≠ [] ∧ (read_buf s = [] → first_piece s `prefix_of` c))
          ∧ ∀ w, starts max (first_piece s) w → head_verdict max w (cut_off s') (read_buf s ++ c) o' (read_buf s')) as Hnone.
      { intros o' H Hd. exists []. split; [done|]. split; [intros h E; by destruct (Hd h E)|]. intros w _. rewrite Hb', Hb. apply H. }
      destruct o as [[n|]|e| |]; try done; cbn [andthen]; rewrite ?wp_ret; (apply Hnone; [intros w|done]); [done|..].
      * right. right. split; [|done]. by apply scan_head_nil.
      * split; [|done]. by apply scan_head_nil.
Qed.
(** [c] came in and [l] was taken off the buffer. *)
Definition cut (s : state) (l : bytes) (s' : state) : Prop :=
  ∃ c, got (past (io s')) = got (past (io s)) ++ c ∧ read_buf s ++ c = l ++ read_buf s'.

Lemma cut_refl (s : state) : cut s [] s.
Proof. exists []. by rewrite !app_nil_r. Qed.

Lemma cut_trans l k (s s' s'' : state) : cut s l s' → cut s' k s'' → cut s (l ++ k) s''.
Proof.
  intros (c & Hc & Hb) (d & Hd & Hk). exists (c ++ d). split; [by rewrite Hd, Hc, app_assoc|].
  by rewrite app_assoc, Hb, <- app_assoc, Hk, app_assoc.
Qed.

Lemma split_to_cut n (s : state) : wp (split_to n) (λ o s', match o with Done l => cut s l s' ∧ zlen l = n | _ => True end) s.
Proof.
  unfold split_to. rewrite wp_bind. unfold buffered. rewrite wp_self. destruct (zslice (read_buf s) 0 n) as [l|] eqn:E; [|done].
  rewrite wp_ret. cbn [andthen]. rewrite wp_bind. unfold modify at 1. unfold wp at 1. cbn [fst snd andthen]. rewrite wp_ret.
  split; [|pose proof (zslice_len (read_buf s) 0 n l) as H; rewrite Z.add_0_l in H; specialize (H E); lia].
  exists []. cbn. rewrite !app_nil_r. split; [done|]. unfold zslice in E. destruct (_ && _ && _); [|done]. injection E as <-.
  rewrite Z.sub_0_r. by rewrite drop_0, take_drop.
Qed.

Lemma take_head_cut b0 r w line (s : state) : 0 ≤ w →
  wp (take_head b0 r w line) (λ o s', match o with
    | Done (_, Some head) => head ≠ [] ∧ ∃ sk, cut s (sk ++ head) s'
    | Done (_, None) => s' = s
    | _ => True end) s.
Proof.
  intros Hw. unfold take_head. rewrite wp_bind.
  eapply (wp_mono _ (λ o s', match o with Done _ => s' = s | _ => True end)).
  { destruct line; [done|]. rewrite wp_bind. unfold buffered. rewrite wp_self. destruct (zslice _ _ _) as [l|]; [|done].
    rewrite wp_ret. cbn [andthen]. rewrite wp_lift. by destruct (first_line l 0). }
  intros [[|]|e| |] s1 Hs1; cbn [andthen]; try done; subst s1. rewrite wp_bind. unfold buffered at 1. rewrite wp_self.
  destruct (zslice _ _ _) as [l|]; [|done]. rewrite wp_ret. cbn [andthen]. rewrite search_located.
  destruct (locate separator 0 l) as [[i n]|] eqn:E; [|done].
  apply locate_Some in E as (Hi & Hn & _). cbn [fst snd] in *. pose proof (pattern_size _ _ separator_pattern _ _ Hn) as Hsize.
  rewrite wp_bind. eapply wp_mono; [apply split_to_cut|]. intros [sk|e| |] s1 H1; cbn [andthen]; try done.
  rewrite wp_bind. eapply wp_mono; [apply split_to_cut|]. intros [head|e| |] s2 H2; cbn [andthen]; try done. rewrite wp_ret.
  destruct H1 as [H1 _], H2 as [H2 Hlen]. split.
  - intros ->. change (zlen (@nil Z)) with 0 in Hlen. cbn [fst snd] in *. lia.
  - exists sk. by eapply cut_trans.
Qed.

(** Every slice is in range, so nothing panics, and every turn reads. *)
Lemma take_head_total b0 r w line (s : state) : 0 ≤ w ≤ r → 0 ≤ b0 ≤ r → r ≤ zlen (read_buf s) →
  wp (take_head b0 r w line) (λ o s', o ≠ Stuck) s.
Proof.
  intros Hw Hb Hr. unfold take_head. rewrite wp_bind. eapply (wp_mono _ (λ o s', s' = s ∧ o ≠ Stuck)).
  { destruct line; [by rewrite wp_ret|]. rewrite wp_bind. apply wp_buffered; [lia..|]. cbn [andthen]. rewrite wp_lift. by destruct (first_line _ 0). }
  intros [[|]|e| |] s1 [-> H1]; cbn [andthen]; try done. rewrite wp_bind. apply wp_buffered; [lia..|]. cbn [andthen].
  rewrite search_located. destruct (locate separator 0 _) as [[i n]|] eqn:E; [|done].
  apply locate_Some in E as (Hi & Hn & _). cbn [fst snd] in *. pose proof (pattern_size _ _ separator_pattern _ _ Hn) as Hsize.
  unfold zlen in Hsize, Hr. rewrite !length_drop, length_take in Hsize. unfold zlen.
  rewrite wp_bind. apply wp_split_to; [unfold zlen; lia|]. cbn [andthen]. rewrite wp_bind.
  apply wp_split_to; [unfold zlen; cbn; rewrite length_drop; lia|]. by cbn [andthen].
Qed.

Lemma get_head_total `{!FiniteIo T} fuel n trimmed line js (s : state) : 0 ≤ max_header_size (options s) →
  (js = true ∧ n = 0 ∧ (S (left_over (io s)) < fuel)%nat
    ∨ js = false ∧ n = Z.min (zlen (read_buf s)) (max_header_size (options s)) ∧ (left_over (io s) < fuel)%nat) →
  (∀ w, trimmed = Some w → 0 ≤ w ≤ n) →
  wp (get_head_loop fuel n trimmed line js) (λ o s', o ≠ Stuck) s.
Proof.
  revert n trimmed line js s. induction fuel as [|fuel IH]; intros n trimmed line js s Hmax Hcase Hw; [lia|]. cbn [get_head_loop].
  rewrite wp_self. destruct (Z.leb_spec (max_header_size (options s)) n) as [|Hlt]; [done|]. rewrite wp_bind.
  pose proof (zlen_nonneg (read_buf s)) as Hlen.
  eapply (wp_mono _ (λ o s1, options s1 = options s ∧ match o with
    | Done (Some k) => zlen (read_buf s1) = n + k ∧ 0 < k ∧ (left_over (io s1) < fuel)%nat | Stuck => False | _ => True end)).
  { unfold more_head. rewrite wp_self. destruct js; cbn [negb orb]; [destruct (bool_decide_reflect (read_buf s = [])) as [Hb|Hb]|].
    2:{ rewrite wp_ret. split; [done|]. split; [|split]; [lia| |lia]. destruct (read_buf s) as [|x l]; [done|]. zlia. }
    all: rewrite wp_bind; apply wp_fill_buf; [|intros [a|e| |] t' Hp Ho; try done]; intros c t' _ _ Hread; cbn [andthen];
      (destruct (Z.eqb_spec (zlen c) 0) as [Hz|Hz]; [done|]); rewrite wp_bind; unfold modify, wp; cbn -[zlen]; rewrite wp_ret; cbn -[zlen];
      pose proof (left_read (io s)) as Hl; rewrite Hread in Hl; cbn in Hl; pose proof (zlen_nonneg c); rewrite zlen_app;
      (split; [done|]); (split; [|split]; [|lia|unfold zlen in *; lia]).
    - rewrite Hb. cbn. change (zlen (@nil Z)) with 0. lia.
    - lia. }
  intros [[k|]|e| |] s1 [Ho H1]; cbn [andthen]; try done; [|by destruct trimmed]. destruct H1 as (Hk & Hpos & Hl). rewrite wp_bind.
  set (n' := Z.min (n + k) (max_header_size (options s))).
  eapply (wp_mono _ (λ o s', s' = s1 ∧ match o with Done (Some w) => 0 ≤ w ≤ n' | Stuck => False | _ => True end)).
  { destruct trimmed as [w|]; [rewrite wp_ret; split; [done|]; specialize (Hw w eq_refl); lia|]. rewrite wp_bind.
    apply wp_buffered; [lia..|]. cbn [andthen]. rewrite wp_ret. destruct (position _ _) as [p|] eqn:Ep; [|done]. split; [done|]. cbn.
    apply position_Some in Ep as (pre & x & post & Ep & <- & _). apply (f_equal length) in Ep.
    rewrite length_drop, length_take, length_app in Ep. cbn in Ep. unfold zlen in *. lia. }
  intros [[w|]|e| |] s2 [-> H2]; cbn [andthen]; try done.
  - rewrite wp_bind. pose proof (take_head_total (Z.max 0 (n - 3)) n' w line s1 ltac:(lia) ltac:(lia) ltac:(lia)) as Ht.
    pose proof (take_head_cut (Z.max 0 (n - 3)) n' w line s1 ltac:(lia)) as Hc. unfold wp in *.
    destruct (take_head (Z.max 0 (n - 3)) n' w line s1) as [[[line' [head|]]|e| |] s3]; cbn [fst snd andthen] in *; try done.
    subst s3. apply IH; [by rewrite Ho|right; rewrite Ho, Hk; done|]. by intros ? [= <-].
  - apply IH; [by rewrite Ho|right; rewrite Ho, Hk; done|done].
Qed.

Lemma get_head_ends `{!FiniteIo T} fuel (s : state) : 0 ≤ max_header_size (options s) → (S (left_over (io s)) < fuel)%nat →
  wp (get_head fuel) (λ o s', o ≠ Stuck) s.
Proof. intros Hmax Hfuel. apply get_head_total; [done|by left|done]. Qed.
End spec.

(** C18. Reading a request head does not depend on how its octets arrive.  With
    enough fuel for what the stream delivers, [get_head] ends or waits.  If the
    head begins in the first piece, at once or behind [w] octets of white space
    in it, where the first piece is what is buffered or else the first read, then
    it returns exactly the head that [scan_head] finds on the whole stream, the
    rest staying in the buffer, and fails exactly for a bad first line, a head
    over the limit or an end of the stream before there is a verdict; a verdict
    of [scan_head], once there is one, holds of every longer stream.  Nothing is
    said of a first piece that is white space only, where the code loses count. *)
Theorem get_head_refines_scan `{HT : Http} {T : Type} `{HI : !Io T} `{HR : !RecordedIo T} `{HF : !FiniteIo T}
  fuel (s : Http1 T) (Hmax : 0 ≤ max_header_size (options s)) (Hfuel : (S (left_over (io s)) < fuel)%nat) :
  let max := max_header_size (options s) in
  let '(o, s') := get_head fuel s in
  o ≠ Stuck ∧ ∃ c, heard c s s' ∧ ∀ w, starts max (first_piece s) w →
    head_verdict max w (cut_off s') (read_buf s ++ c) o (read_buf s')
    ∧ ∀ more, scan_head max w (read_buf s ++ c) ≠ More →
        scan_head max w (read_buf s ++ c ++ more) = scan_head max w (read_buf s ++ c).
Proof.
  pose proof (get_head_spec fuel _ s eq_refl Hmax Hfuel) as H. pose proof (get_head_ends fuel s Hmax Hfuel) as Hend. unfold wp in *.
  destruct (get_head fuel s) as [o s']. split; [exact Hend|]. destruct H as (c & Hh & _ & Hv). exists c. split; [done|].
  intros w Hw. split; [by apply Hv|]. intros more Hmore. rewrite app_assoc. by apply scan_head_stable.
Qed.

(** A head in three pieces behind white space, and the request after it. *)
Definition three_pieces : Playback :=
  pieces [CRLF ++ b "GET / HT"; b "TP/1.1" ++ CRLF ++ b "Host: a" ++ [0x0d]; [0x0a; 0x0d; 0x0a] ++ b "GET /b"].
Definition first_head : bytes := b "GET / HTTP/1.1" ++ CRLF ++ b "Host: a" ++ CRLF_CRLF.

Lemma get_head_refines_scan_witness :
  let '(o, s') := get_head 100 (new_http1 three_pieces new_options) in
  o = Done (Some first_head) ∧ read_buf s' = b "GET /b"
  ∧ ∃ c, heard c (new_http1 three_pieces new_options) s' ∧ head_verdict 16384 2 (cut_off s') c o (read_buf s').
Proof.
  assert (starts 16384 (first_piece (new_http1 three_pieces new_options)) 2) as Hstarts by (vm_compute; split; [reflexivity|discriminate]).
  pose proof (get_head_refines_scan 100 (new_http1 three_pieces new_options)
    ltac:(vm_compute; discriminate) ltac:(vm_compute; lia)) as H.
  destruct (get_head 100 (new_http1 three_pieces new_options)) as [o s'] eqn:E.
  vm_compute in E. injection E as <- <-. do 2 (split; [vm_compute; reflexivity|]).
  destruct H as [_ [c [Hh Hv]]]. exists c. split; [exact Hh|]. exact (proj1 (Hv 2 Hstarts)).
Defined.
