(* ===== verification/H1Body.v ===== *)
(** * The bodies of HTTP/1 requests

    What a stream shows of a body, whichever pieces it arrives in, and that the
    readers of [H1Read] hand over exactly that: the octets of a known length,
    or the chunks of a chunked body. *)

From S2P Require Import Prelude Poll H2Request H1Io H1WriteBuf H1Wire H1State H1Read H1ReadSpec H1Plain.

(** ** What a stream shows *)

(** The size line of a chunk: how long it is with its CRLF, and the size. *)
Inductive size_scan : Type := SizeAt (line size : Z) | BadSize (e : IoError) | MoreSize.

Definition scan_size (l : bytes) : size_scan :=
  match find (take 48 l) CRLF with
  | Some p =>
      let numbers := take (Z.to_nat p) l in
      if from_utf8 numbers then
        match from_str_radix 16 numbers with Some n => SizeAt (p + 2) n | None => BadSize invalid_chunk_length end
      else BadSize invalid_chunk_length
  | None => if 48 <=? zlen l then BadSize chunk_length_overflow else MoreSize
  end.

(** A chunk and the octets it takes; with trailers the last one ends at its
    size line. *)
Inductive chunk_scan : Type := ChunkAt (data : bytes) (taken : Z) | BadChunk (e : IoError) | MoreChunk.

Definition scan_chunk (would_have_trailers : bool) (l : bytes) : chunk_scan :=
  match scan_size l with
  | BadSize e => BadChunk e
  | MoreSize => MoreChunk
  | SizeAt line n =>
      if (n =? 0) && would_have_trailers then ChunkAt [] line
      else if u64_max <? n + 2 then BadChunk chunk_length_too_large
      else if line + n + 2 <=? zlen l then ChunkAt (take (Z.to_nat n) (drop (Z.to_nat line) l)) (line + n + 2)
      else MoreChunk
  end.

(** Some chunks with data at the start of a stream, and what follows them. *)
Inductive chunk_run (would_have_trailers : bool) : bytes → list bytes → bytes → Prop :=
| run_none l : chunk_run would_have_trailers l [] l
| run_chunk l d n ds rest : scan_chunk would_have_trailers l = ChunkAt d n → d ≠ [] →
    chunk_run would_have_trailers (drop (Z.to_nat n) l) ds rest → chunk_run would_have_trailers l (d :: ds) rest.

(** The trailers behind the last chunk: an empty line, a block that ends with
    one, or neither within the limit. *)
Inductive trailer_scan : Type := NoTrailers | TrailersAt (len : Z) | TrailersTooLarge | MoreTrailers.

Definition scan_trailers (max : Z) (l : bytes) : trailer_scan :=
  if (2 <=? Z.min (zlen l) max) && bool_decide (take 2 l = CRLF) then NoTrailers
  else match find (take (Z.to_nat max) l) CRLF_CRLF with
  | Some p => TrailersAt (p + 4)
  | None => if max <=? zlen l then TrailersTooLarge else MoreTrailers
  end.

Lemma find_bound needle l p : needle ≠ [] → find l needle = Some p → 0 ≤ p ∧ p + zlen needle ≤ zlen l.
Proof.
  intros Hne. rewrite find_located. destruct (locate _ 0 l) as [[q n]|] eqn:E; [|done]. intros [= ->].
  apply locate_Some in E as (Hp & Hn & _). cbn in *. pose proof (pattern_size _ _ (occurrence_pattern _ Hne) _ _ Hn) as Hs.
  unfold occurrence in Hn. case_bool_decide; [|done]. injection Hn as <-. unfold zlen in *. rewrite length_drop in Hs.
  rewrite Z.sub_0_r in Hs. lia.
Qed.

Lemma from_str_radix_nonneg radix s n : 0 ≤ radix → from_str_radix radix s = Some n → 0 ≤ n ≤ u64_max.
Proof.
  intros Hr. assert (∀ l v, 0 ≤ v ≤ u64_max → radix_loop radix l v = Some n → 0 ≤ n ≤ u64_max) as Hl.
  { induction l as [|x l IH]; intros v Hv; cbn [radix_loop]; [by intros [= <-]|].
    unfold to_digit, checked_mul64, checked_add64, in_range. intros H.
    apply bind_Some in H as (d & Hd & H). apply bind_Some in H as (v1 & H1 & H). apply bind_Some in H as (v2 & H2 & H).
    apply (IH v2); [|done]. apply bind_Some in Hd as (d' & Hd' & Hd). assert (0 ≤ d').
    { destruct ((0x30 <=? x) && (x <=? 0x39)) eqn:?; [injection Hd' as <-; lia|].
      destruct ((0x61 <=? x) && (x <=? 0x7a)) eqn:?; [injection Hd' as <-; lia|].
      destruct ((0x41 <=? x) && (x <=? 0x5a)) eqn:?; [injection Hd' as <-; lia|done]. }
    destruct (d' <? radix); [|done]. injection Hd as <-. destruct (v * radix <=? u64_max) eqn:?; [|done]. injection H1 as <-.
    destruct (v * radix + d' <=? u64_max) eqn:?; [|done]. injection H2 as <-. split; [nia|lia]. }
  unfold from_str_radix. destruct s as [|x s]; [done|]. assert (0 ≤ 0 ≤ u64_max) as H0 by by unfold u64_max.
  destruct s; destruct (x =? 0x2b); cbn [orb]; try done; [destruct (x =? 0x2d); [done|]|..]; by apply Hl.
Qed.

Lemma scan_size_bounds l line n : scan_size l = SizeAt line n → 2 ≤ line ≤ 48 ∧ line ≤ zlen l ∧ 0 ≤ n ≤ u64_max.
Proof.
  unfold scan_size. destruct (find (take 48 l) CRLF) as [p|] eqn:E; [|by destruct (48 <=? _)].
  apply find_bound in E as [Hp Hl]; [|done]. destruct (from_utf8 _); [|done].
  destruct (from_str_radix 16 _) as [m|] eqn:Em; [|done]. intros [= <- <-].
  apply from_str_radix_nonneg in Em; [|done]. unfold zlen in *. rewrite length_take in Hl. change (length CRLF) with 2%nat in Hl. lia.
Qed.

Lemma scan_chunk_bounds tr l d n : scan_chunk tr l = ChunkAt d n → 2 ≤ n ≤ zlen l.
Proof.
  unfold scan_chunk. destruct (scan_size l) as [line m| |] eqn:E; try done. apply scan_size_bounds in E as (Hl & Hz & Hm).
  destruct ((m =? 0) && tr); [intros [= <- <-]; lia|]. destruct (u64_max <? m + 2); [done|].
  destruct (Z.leb_spec (line + m + 2) (zlen l)); [|done]. intros [= <- <-]. lia.
Qed.

Lemma chunk_run_app tr l ds mid es rest : chunk_run tr l ds mid → chunk_run tr mid es rest → chunk_run tr l (ds ++ es) rest.
Proof. induction 1 as [|l d n ds mid Hs Hd Hr IH]; [done|]. intros H. cbn. eapply run_chunk; eauto. Qed.

(** Searching on where the part without an occurrence may hold the start of one. *)
Lemma find_resume needle max l k : needle ≠ [] → find (take (Z.to_nat max) l) needle = None → zlen l < max →
  let begin := Z.max 0 (zlen l - (zlen needle - 1)) in
  find (drop (Z.to_nat begin) (take (Z.to_nat max) (l ++ k))) needle
  = (λ p, p - begin) <$> find (take (Z.to_nat max) (l ++ k)) needle.
Proof.
  intros Hne Hnone Hl begin. unfold zlen in Hl. rewrite !find_located in *. rewrite take_app.
  destruct (locate _ 0 (take _ l)) eqn:E; [done|]. rewrite (take_ge l) in * by lia. set (k' := take _ k).
  pose proof (locate_resume _ _ (occurrence_pattern needle Hne) _ k' (Z.to_nat begin) E) as Hres.
  assert (0 < zlen needle) by (destruct needle; [done|unfold zlen; cbn; lia]).
  rewrite Hres by (unfold begin, zlen in *; lia). rewrite Z2Nat.id by (unfold begin; lia).
  pose proof (locate_shift (occurrence needle) (drop (Z.to_nat begin) (l ++ k')) 0 begin) as Hs.
  rewrite Z.add_0_l in Hs. rewrite Hs. destruct (locate _ 0 (drop _ _)) as [[i n]|]; cbn; [f_equal; lia|done].
Qed.

(** The verdicts stand when more arrives. *)
Lemma scan_size_stable l k : scan_size l ≠ MoreSize → scan_size (l ++ k) = scan_size l.
Proof.
  unfold scan_size. destruct (find (take 48 l) CRLF) as [p|] eqn:E.
  - intros _. assert (find (take 48 (l ++ k)) CRLF = Some p) as ->.
    { rewrite find_located in E |- *. rewrite take_app. destruct (locate _ 0 (take 48 l)) as [r|] eqn:El; [|done].
      rewrite (locate_stable _ _ (occurrence_pattern CRLF ltac:(done)) _ _ r); [done| |done].
      intros. by eapply occurrence_later. }
    apply find_bound in E as [Hp Hl]; [|done]. unfold zlen in Hl. rewrite length_take in Hl. change (length CRLF) with 2%nat in Hl.
    by rewrite take_app_le by lia.
  - destruct (Z.leb_spec 48 (zlen l)) as [Hl|Hl]; [|done]. intros _. rewrite take_app_le by (unfold zlen in Hl; lia). rewrite E.
    rewrite zlen_app. pose proof (zlen_nonneg k). by rewrite (proj2 (Z.leb_le _ _)) by lia.
Qed.

Lemma scan_chunk_stable tr l k : scan_chunk tr l ≠ MoreChunk → scan_chunk tr (l ++ k) = scan_chunk tr l.
Proof.
  unfold scan_chunk. intros H. destruct (scan_size l) as [line n|e|] eqn:E; [| |done]; rewrite scan_size_stable, E by (by rewrite E); [|done].
  destruct ((n =? 0) && tr); [done|]. destruct (u64_max <? n + 2); [done|]. apply scan_size_bounds in E as (Hl & Hz & Hn).
  destruct (Z.leb_spec (line + n + 2) (zlen l)); [|done]. rewrite zlen_app. pose proof (zlen_nonneg k).
  rewrite (proj2 (Z.leb_le _ _)) by lia. unfold zlen in *. rewrite drop_app_le by lia.
  rewrite take_app_le; [done|]. rewrite length_drop. lia.
Qed.

(** ** The reader *)

Section spec.
Context `{HT : Http} `{HC : !H1Crates} {T : Type} `{HI : !Io T} `{HR : !RecordedIo T} `{HF : !FiniteIo T}.

Abbreviation http1 := (op (Http1 T) IoError).
Abbreviation state := (Http1 T).

(** The stream delivered [c], [fs] were handed over and [d] was written. *)
Record served (c : bytes) (fs : list BodyFrame) (d : bytes) (s s' : state) : Prop := {
  served_got : got (past (io s')) = got (past (io s)) ++ c;
  served_gave : gave (past (io s')) = gave (past (io s)) ++ fs;
  served_put : put (past (io s')) = put (past (io s)) ++ d;
  served_options : options s' = options s;
  served_token : cancel_token s' = cancel_token s;
  served_date : date_cached s' = date_cached s;
  served_write_buf : write_buf s' = write_buf s;
  served_idle : connection_idle s' = connection_idle s;
  served_left : (left_over (io s') + length c ≤ left_over (io s))%nat;
}.

Lemma served_then c fs d c' fs' d' (s s' s'' : state) :
  served c fs d s s' → served c' fs' d' s' s'' → served (c ++ c') (fs ++ fs') (d ++ d') s s''.
Proof. intros [] []. split; try congruence; rewrite ?length_app, ?app_assoc; (congruence || lia). Qed.

Lemma served_buf l (s : state) : served [] [] [] s (set_read_buf l s).
Proof. split; cbn; rewrite ?app_nil_r; done || lia. Qed.

Lemma served_same (s : state) : served [] [] [] s s.
Proof. split; cbn; rewrite ?app_nil_r; done || lia. Qed.

(** The octets of the interim response. *)
Definition continue_line (v : Version) : bytes := version_line v ++ b "100 Continue" ++ [0x0d; 0x0a; 0x0d; 0x0a].

(** What was written when [continue_sent] went from [before] to [after]. *)
Definition continued (v : Version) (before after : bool) : bytes := if negb before && after then continue_line v else [].

(** [before] never turns back, and only turns with an expectation. *)
Definition only_once (expected before after : bool) : Prop := after = before ∨ before = false ∧ after = true ∧ expected = true.

Lemma continued_trans expected v x y z : only_once expected x y → only_once expected y z →
  continued v x y ++ continued v y z = continued v x z ∧ only_once expected x z.
Proof.
  unfold continued, only_once. intros Hx Hy. destruct_or!; destruct_and?; simplify_eq;
    repeat match goal with b : bool |- _ => destruct b end; cbn; rewrite ?app_nil_r; auto 10.
Qed.

Lemma continued_refl expected v x : continued v x x = [] ∧ only_once expected x x.
Proof. split; [by destruct x|by left]. Qed.

(** The octets written before a run stopped: at most one interim response. *)
Definition partly_continued (expected : bool) (v : Version) (before : bool) (d : bytes) : Prop :=
  d = [] ∨ before = false ∧ expected = true ∧ d `prefix_of` continue_line v.

Lemma partly_after expected v x y d : only_once expected x y → partly_continued expected v y d →
  partly_continued expected v x (continued v x y ++ d).
Proof.
  unfold continued, only_once, partly_continued. intros [->|(-> & -> & ->)] [->|(Hf & He & Hp)]; try done.
  - rewrite app_nil_r. destruct x; cbn; by left.
  - destruct x; [done|]. right. by split_and!.
  - right. cbn. by rewrite app_nil_r.
Qed.

Lemma served_past (s : state) t' e : past t' = past (io s) ++ e → (left_over t' + length (got e) ≤ left_over (io s))%nat →
  served (got e) (gave e) (put e) s (set_io t' s).
Proof. intros H Hl. split; cbn; try done; by rewrite H, ?got_app, ?gave_app, ?put_app. Qed.

Lemma wp_call_served {A} (f : T → poll A * T) (Q : outcome IoError A → state → Prop) (s : state) e :
  past (f (io s)).2 = past (io s) ++ e → (left_over (f (io s)).2 + length (got e) ≤ left_over (io s))%nat →
  (∀ o s', served (got e) (gave e) (put e) s s' → read_buf s' = read_buf s → io s' = (f (io s)).2 →
    (match (f (io s)).1 with Ready a => o = Done a | Pending => o = Wait end) → Q o s') → wp (ready (call_io f)) Q s.
Proof.
  intros Hp Hl HQ. apply wp_call_io. pose proof (served_past s _ e Hp Hl) as Hs.
  destruct (f (io s)) as [[a|] t']; cbn [fst snd] in *; apply HQ; done.
Qed.

Lemma put_only d r : let h := Put d :: failed r in got h = [] ∧ gave h = [] ∧ put h = d.
Proof. unfold got, gave, put. destruct r as [[]|]; cbn; by rewrite app_nil_r. Qed.

(** The last thing that happened is why the stream gave [e]: a read that was
    cut off, or a write that failed. *)
Definition stream_failed (s : state) (e : IoError) : Prop := cut_off s e ∨ last (past (io s)) = Some (WriteFailed e).

Lemma write_100_spec expected (s : state) v (Q : outcome IoError () → state → Prop) : expected = true →
  (∀ s', served [] [] (continue_line v) s s' → read_buf s' = read_buf s → Q (Done ()) s') →
  (∀ o s' d, served [] [] d s s' → read_buf s' = read_buf s → partly_continued expected v false d →
     match o with Fail e => stream_failed s' e | Wait => True | _ => False end → Q o s') →
  wp (write_100_continue v) Q s.
Proof.
  intros He HD HS. unfold write_100_continue. fold (continue_line v). rewrite wp_bind, wp_await.
  destruct (past_write_all (continue_line v) (io s)) as (n & Hp & Hall). pose proof (left_write_all (continue_line v) (io s)) as Hl.
  destruct (put_only (take n (continue_line v)) (io_write_all (continue_line v) (io s)).1) as (H1 & H2 & H3).
  assert (partly_continued expected v false (take n (continue_line v))) as Hpart.
  { right. split_and!; [done|done|]. exists (drop n (continue_line v)). by rewrite take_drop. }
  pose proof (served_past s _ _ Hp) as Hs. rewrite H1, H2, H3 in Hs. specialize (Hs ltac:(cbn; lia)).
  destruct (io_write_all (continue_line v) (io s)) as [[[u|e]|] t']; cbn [fst snd] in *; [|eapply HS; try done..].
  2:{ right. cbn. rewrite Hp. cbn. rewrite (cons_middle _ (past (io s))), app_assoc. apply last_snoc. }
  specialize (Hall u eq_refl). rewrite Hall in *. cbn [andthen]. rewrite wp_await.
  pose proof (past_flush (io (set_io t' s))) as Hp'. destruct (failed_quiet (io_flush (io (set_io t' s))).1) as (E1 & E2 & E3 & _).
  pose proof (served_past (set_io t' s) _ _ Hp') as Hs'. rewrite E1, E2, E3 in Hs'.
  specialize (Hs' ltac:(rewrite Nat.add_0_r; apply left_flush)). pose proof (served_then _ _ _ _ _ _ _ _ _ Hs Hs') as Hs2.
  cbn [app] in Hs2. rewrite app_nil_r in Hs2. destruct (io_flush _) as [[[[]|e]|] t'']; cbn [fst snd] in *; [by apply HD|eapply HS; try done..].
  right. cbn. rewrite Hp'. apply last_snoc.
Qed.

Lemma continue_spec (s : state) expected sent v (Q : outcome IoError bool → state → Prop) :
  (∀ sent' s', served [] [] (continued v sent sent') s s' → only_once expected sent sent' → read_buf s' = read_buf s → Q (Done sent') s') →
  (∀ o s' d, served [] [] d s s' → read_buf s' = read_buf s → partly_continued expected v sent d →
     match o with Fail e => stream_failed s' e | Wait => True | _ => False end → Q o s') →
  wp (continue_if_wanted expected sent v) Q s.
Proof.
  intros HD HS. unfold continue_if_wanted. rewrite wp_self. destruct (negb sent && expected && wanted (io s)) eqn:E.
  - apply andb_true_iff in E as [E _]. apply andb_true_iff in E as [Es ->]. destruct sent; [done|]. rewrite wp_bind.
    apply (write_100_spec true); [done| |].
    + intros s' Hs Hb. cbn [andthen]. rewrite wp_ret. apply HD; [done|by right|done].
    + intros o s' d Hs Hb Hp Ho. destruct o; try done; cbn [andthen]; by eapply HS.
  - rewrite wp_ret. destruct (continued_refl expected v sent) as [Hc Hone]. apply HD; [rewrite Hc; apply served_same|done|done].
Qed.

(** A read of the body: the octets that came, or why none did. *)
Definition filled (s : state) (o : outcome IoError (option Z)) (s' : state) : Prop :=
  ∃ c, served c [] [] s s' ∧ read_buf s' = read_buf s ++ c ∧
  match o with
  | Done (Some n) => n = zlen c ∧ (c = [] → cut_off s' unexpected_eof)
  | Done None => c = [] ∧ (left_over (io s') < left_over (io s))%nat
  | Fail e => c = [] ∧ cut_off s' e
  | Wait => c = []
  | Stuck => False
  end.

Lemma read_only c : got (read_happened (Ok c)) = c ∧ gave (read_happened (Ok c)) = [] ∧ put (read_happened (Ok c)) = [].
Proof. destruct c; unfold got, gave, put; cbn; by rewrite ?app_nil_r. Qed.

Lemma served_read c (s : state) t' b : past t' = past (io s) ++ read_happened (Ok c) →
  (left_over t' + length c ≤ left_over (io s))%nat → served c [] [] s (set_read_buf b (set_io t' s)).
Proof.
  intros Hp Hl. destruct (read_only c) as (H1 & H2 & H3). pose proof (served_past s t' _ Hp) as Hs.
  rewrite H1, H2, H3 in Hs. specialize (Hs Hl). by destruct Hs.
Qed.

Lemma served_failed (s : state) t' e : past t' = past (io s) ++ read_happened (Err e) → (left_over t' ≤ left_over (io s))%nat →
  served [] [] [] s (set_io t' s).
Proof. intros Hp Hl. apply (served_past s t' _ Hp). change (got _) with (@nil Z). cbn. lia. Qed.

Lemma served_still (s : state) t' : past t' = past (io s) → (left_over t' ≤ left_over (io s))%nat → served [] [] [] s (set_io t' s).
Proof. intros Hp Hl. apply (served_past s t' []); [by rewrite app_nil_r|change (got []) with (@nil Z); cbn; lia]. Qed.

Lemma filled_read (s : state) r t' : past t' = past (io s) ++ read_happened r →
  (left_over t' + match r with Ok c => length c | Err _ => 0 end ≤ left_over (io s))%nat →
  wp (c ← lift id r; _ ← modify (λ s, set_read_buf (read_buf s ++ c) s); mret (Some (zlen c)) : http1 (option Z))
    (filled s) (set_io t' s).
Proof.
  intros Hp Hl. rewrite wp_bind, wp_lift. destruct r as [c|e]; cbn [andthen].
  - exists c. split; [by apply served_read|]. split; [done|]. split; [done|]. intros ->. by eapply cut_off_end.
  - exists []. rewrite app_nil_r. split; [apply (served_failed _ _ e); [done|lia]|]. split_and!; [done|done|by eapply cut_off_error].
Qed.

Lemma fill_or_wanted_spec expected (s : state) : wp (fill_buf_or_wanted expected) (filled s) s.
Proof.
  assert (∀ t', past t' = past (io s) → (left_over t' ≤ left_over (io s))%nat → filled s Wait (set_io t' s)) as Hwait.
  { intros t' Hp Hl. exists []. rewrite app_nil_r. split; [by apply served_still|done]. }
  unfold fill_buf_or_wanted. destruct expected.
  - rewrite wp_bind, wp_call_io. pose proof (past_select (io s)) as Hp. pose proof (left_select (io s)) as Hl.
    destruct (io_read_or_notified (io s)) as [[[r|]|] t'] eqn:E; cbn [fst snd ready_select] in *; cbn [andthen].
    + apply filled_read; [done|by destruct r].
    + rewrite wp_ret. exists []. rewrite app_nil_r in *. split; [apply served_still; [done|lia]|]. split_and!; [done|done|cbn; lia].
    + rewrite app_nil_r in Hp. apply Hwait; [done|lia].
  - unfold fill_buf. rewrite wp_bind, wp_bind, wp_await. pose proof (past_read (io s)) as Hp. pose proof (left_read (io s)) as Hl.
    destruct (io_read (io s)) as [[r|] t'] eqn:E; cbn [fst snd ready_read] in *.
    + pose proof (filled_read s r t' Hp ltac:(by destruct r)) as Hr. by destruct r.
    + rewrite app_nil_r in Hp. apply Hwait; [done|lia].
Qed.

(** The guarded read before a body loop looks at the buffer. *)
Definition fetched (expected sent : bool) (v : Version) (js : bool) (s : state)
    (o : outcome IoError (bool * option Z)) (s' : state) : Prop :=
  ∃ c d, served c [] d s s' ∧ read_buf s' = read_buf s ++ c ∧
  match o with
  | Done (sent', n) => d = continued v sent sent' ∧ only_once expected sent sent' ∧
      match n with
      | Some n => js = true ∧ read_buf s ≠ [] ∧ c = [] ∧ n = zlen (read_buf s)
          ∨ (js = false ∨ read_buf s = []) ∧ c ≠ [] ∧ n = zlen c
      | None => (js = false ∨ read_buf s = []) ∧ c = [] ∧ (left_over (io s') < left_over (io s))%nat
      end
  | Fail e => partly_continued expected v sent d ∧ c = [] ∧ (js = false ∨ read_buf s = []) ∧ stream_failed s' e
  | Wait => partly_continued expected v sent d ∧ c = [] ∧ (js = false ∨ read_buf s = [])
  | Stuck => False
  end.

Lemma more_chunk_spec js expected sent v (s : state) : wp (more_chunk js expected sent v) (fetched expected sent v js s) s.
Proof.
  unfold more_chunk. rewrite wp_self. destruct (continued_refl expected v sent) as [Hc0 Ho0].
  destruct (negb js || bool_decide (read_buf s = [])) eqn:E.
  2:{ apply orb_false_iff in E as [Ej Eb]. apply bool_decide_eq_false in Eb. rewrite wp_ret. exists [], []. rewrite app_nil_r.
      split_and!; [apply served_same|done|done|done|]. left. by destruct js. }
  assert (js = false ∨ read_buf s = []) as Hread.
  { apply orb_true_iff in E as [E|E]; [left; by destruct js|right; by apply bool_decide_eq_true in E]. }
  rewrite wp_bind. apply (continue_spec s expected).
  - intros sent' s1 Hs1 Hone Hb1. cbn [andthen]. rewrite wp_bind. eapply wp_mono; [apply fill_or_wanted_spec|].
    intros o s2 (c & Hs2 & Hb2 & Ho). pose proof (served_then _ _ _ _ _ _ _ _ _ Hs1 Hs2) as Hs. cbn [app] in Hs. rewrite app_nil_r in Hs.
    rewrite Hb1 in Hb2. assert (partly_continued expected v sent (continued v sent sent')) as Hpart.
    { rewrite <- (app_nil_r (continued _ _ _)). eapply partly_after; [done|by left]. }
    destruct o as [[n|]|e| |]; cbn [andthen]; try done.
    + destruct Ho as [-> He]. destruct c as [|x c].
      * rewrite zlen_nil, wp_fail. exists [], (continued v sent sent'). split_and!; try done. left. by apply He.
      * assert (zlen (x :: c) ≠ 0) as Hz by zlia.
        destruct (zlen (x :: c)) as [|p|p] eqn:Ez; [done| |]; rewrite wp_ret; exists (x :: c), (continued v sent sent');
          (split_and!; [done..|]); right; by split_and!.
    + destruct Ho as [-> Hl]. rewrite wp_ret. exists [], (continued v sent sent'). split_and!; try done.
      destruct Hs1. cbn in *. lia.
    + destruct Ho as [-> He]. exists [], (continued v sent sent'). split_and!; try done. by left.
    + subst c. exists [], (continued v sent sent'). by split_and!.
  - intros o s1 d Hs1 Hb1 Hp Ho. destruct o; try done; cbn [andthen]; exists [], d; rewrite app_nil_r; by split_and!.
Qed.

(** *** The size line *)

Definition size_post (expected sent : bool) (v : Version) (s : state) (o : outcome IoError (bool * Z)) (s' : state) : Prop :=
  ∃ c d, served c [] d s s' ∧
  match o with
  | Done (sent', n) => d = continued v sent sent' ∧ only_once expected sent sent' ∧
      ∃ line, scan_size (read_buf s ++ c) = SizeAt line n ∧ read_buf s' = drop (Z.to_nat line) (read_buf s ++ c)
  | Fail e => partly_continued expected v sent d ∧
      (scan_size (read_buf s ++ c) = BadSize e ∨ scan_size (read_buf s ++ c) = MoreSize ∧ stream_failed s' e)
  | Wait => partly_continued expected v sent d ∧ scan_size (read_buf s ++ c) = MoreSize
  | Stuck => False
  end.

(** More of the loop, after a part of it. *)
Lemma size_post_later expected sent sent' v c (s s1 : state) o s' :
  served c [] (continued v sent sent') s s1 → read_buf s1 = read_buf s ++ c → only_once expected sent sent' →
  size_post expected sent' v s1 o s' → size_post expected sent v s o s'.
Proof.
  intros Hs Hb Hone (c' & d & Hs' & Ho). exists (c ++ c'), (continued v sent sent' ++ d).
  split; [exact (served_then _ _ _ _ _ _ _ _ _ Hs Hs')|]. rewrite Hb, <- app_assoc in Ho.
  destruct o as [[sent2 n]|e| |]; try done.
  - destruct Ho as (-> & Hone' & Hl). destruct (continued_trans _ v _ _ _ Hone Hone') as [-> Hone2]. by split_and!.
  - destruct Ho as [Hp Ho]. split; [by eapply partly_after|done].
  - destruct Ho as [Hp Ho]. split; [by eapply partly_after|done].
Qed.

(** What a turn does with the octets it has. *)
Lemma take_size l k sent (s : state) Q : read_buf s = l ++ k → find (take 48 l) CRLF = None → zlen l < 48 →
  (∀ line n, scan_size (l ++ k) = SizeAt line n →
    Q (Done (sent, n)) (set_read_buf (drop (Z.to_nat line) (l ++ k)) s)) →
  (∀ e, scan_size (l ++ k) = BadSize e → find (take 48 (l ++ k)) CRLF ≠ None → Q (Fail e) s) →
  ∀ again : http1 (bool * Z), (find (take 48 (l ++ k)) CRLF = None → wp again Q s) →
  wp (x ← buffered (Z.max 0 (zlen l - 1)) (Z.min (zlen (l ++ k)) 48);
      match find x CRLF with
      | Some pos =>
          numbers ← buffered 0 (Z.max 0 (zlen l - 1) + pos);
          len ← (if from_utf8 numbers then lift id (ok_or (from_str_radix 16 numbers) invalid_chunk_length)
                 else fail invalid_chunk_length : http1 Z);
          _ ← split_to (Z.max 0 (zlen l - 1) + pos + 2);
          mret (sent, len)
      | None => again
      end) Q s.
Proof.
  intros Hb Hnone Hl HD HE again HA. set (begin := Z.max 0 (zlen l - 1)). pose proof (zlen_nonneg l).
  assert (zlen l ≤ zlen (l ++ k)) by zlia.
  rewrite wp_bind. apply wp_buffered; [unfold begin; lia|rewrite Hb; lia|]. rewrite Hb. cbn [andthen].
  replace (take (Z.to_nat (Z.min (zlen (l ++ k)) 48)) (l ++ k)) with (take 48 (l ++ k)) by (symmetry; by apply (take_min _ 48)).
  pose proof (find_resume CRLF 48 l k ltac:(done) Hnone Hl) as Hres. cbn zeta in Hres.
  change (zlen l - (zlen CRLF - 1)) with (zlen l - 1) in Hres. fold begin in Hres. change (Z.to_nat 48) with 48%nat in Hres. rewrite Hres.
  destruct (find (take 48 (l ++ k)) CRLF) as [p|] eqn:Ef; cbn [fmap option_fmap option_map]; [|by apply HA].
  pose proof Ef as Hp. apply find_bound in Hp as [Hp Hp']; [|done]. change (zlen CRLF) with 2 in Hp'.
  assert (zlen (take 48 (l ++ k)) ≤ zlen (l ++ k)) by (unfold zlen; rewrite length_take; lia).
  replace (begin + (p - begin)) with p by lia. rewrite wp_bind. apply wp_buffered; [lia|rewrite Hb; lia|]. rewrite drop_0, Hb. cbn [andthen].
  unfold scan_size in HD, HE. rewrite Ef in HD, HE. rewrite wp_bind. destruct (from_utf8 _); [|rewrite wp_fail; by apply HE].
  rewrite wp_lift. destruct (from_str_radix 16 _) as [n|]; cbn [ok_or andthen]; [|by apply HE].
  rewrite wp_bind. apply wp_split_to; [rewrite Hb; lia|]. cbn [andthen]. rewrite wp_ret, Hb. by apply HD.
Qed.

Lemma chunk_len_spec fuel pos js expected sent v (s : state) :
  (js = true ∧ pos = 0 ∧ (S (left_over (io s)) < fuel)%nat ∨
   js = false ∧ pos = zlen (read_buf s) ∧ find (take 48 (read_buf s)) CRLF = None ∧ (left_over (io s) < fuel)%nat) →
  wp (chunk_len_loop fuel pos js expected sent v) (size_post expected sent v s) s.
Proof.
  revert pos js sent s. induction fuel as [|fuel IH]; intros pos js sent s Hcase; [destruct Hcase; lia|].
  cbn [chunk_len_loop]. destruct (Z.leb_spec 48 pos) as [Hover|Hpos].
  { rewrite wp_fail. destruct Hcase as [(_ & -> & _)|(_ & -> & Hnone & _)]; [lia|].
    exists [], []. split; [apply served_same|]. split; [by left|]. left. rewrite app_nil_r. unfold scan_size. rewrite Hnone.
    by rewrite (proj2 (Z.leb_le _ _)). }
  assert (js = false ∨ read_buf s = [] → scan_size (read_buf s) = MoreSize) as Hmore.
  { destruct Hcase as [(-> & _)|(-> & -> & Hnone & _)]; [by intros [ | ->]|]. intros _. unfold scan_size.
    by rewrite Hnone, (proj2 (Z.leb_gt _ _)). }
  rewrite wp_bind. eapply wp_mono; [apply more_chunk_spec|]. intros o s1 (c & d & Hs1 & Hb1 & Ho).
  destruct o as [[sent' [n|]]|e| |]; cbn [andthen]; try done.
  - destruct Ho as (-> & Hone & Hn). set (l := if js then [] else read_buf s).
    assert (∃ k, read_buf s1 = l ++ k ∧ pos + n = zlen (l ++ k) ∧ find (take 48 l) CRLF = None ∧ pos = zlen l) as (k & Hk & Hpn & Hnone & Hpl).
    { unfold l. destruct Hcase as [(-> & -> & _)|(-> & -> & Hnone & _)].
      - exists (read_buf s1). split_and!; [done| |done|done]. rewrite app_nil_l, Hb1, zlen_app.
        destruct Hn as [(_ & _ & -> & ->)|([ | ->] & _ & ->)]; first [done|unfold zlen; cbn; lia].
      - exists c. destruct Hn as [(? & _)|(_ & _ & ->)]; [done|]. by rewrite zlen_app. }
    rewrite Hpn, Hpl. rewrite Hpl in Hpos. rewrite Hb1 in Hk.
    eapply (take_size l k sent' s1); [by rewrite Hb1|done|done| | |].
    + intros line m Hscan. exists c, (continued v sent sent'). split; [by destruct Hs1|]. split_and!; [done|done|]. exists line. rewrite Hk. done.
    + intros e Hscan _. exists c, (continued v sent sent'). split; [done|]. rewrite Hk. split; [|by left].
      rewrite <- (app_nil_r (continued _ _ _)). eapply partly_after; [done|by left].
    + intros Hnone'. eapply wp_mono; [apply (IH _ false)|intros o s'; by apply (size_post_later expected sent sent' v c s s1)]. right. split_and!; [done|congruence|congruence|].
      destruct Hs1 as [_ _ _ _ _ _ _ _ Hleft]. destruct Hcase as [(-> & _ & Hf)|(-> & _ & _ & Hf)]; [lia|].
      destruct Hn as [(? & _)|(_ & Hc & _)]; [done|]. destruct c; [done|]. cbn in Hleft. lia.
  - destruct Ho as (-> & Hone & Hread & -> & Hl).
    eapply wp_mono; [apply (IH _ false)|intros o s'; by apply (size_post_later expected sent sent' v [] s s1)].
    right. rewrite app_nil_r in Hb1. rewrite Hb1. destruct Hcase as [(-> & -> & Hf)|(-> & -> & Hnone & Hf)].
    + destruct Hread as [|Hempty]; [done|]. rewrite Hempty. split_and!; [done..|lia].
    + split_and!; [done..|lia].
  - destruct Ho as (Hp & -> & Hread & Hwhy). exists [], d. split_and!; [done|done|]. right. rewrite app_nil_r. split; [by apply Hmore|done].
  - destruct Ho as (Hp & -> & Hread). exists [], d. split_and!; [done|done|]. rewrite app_nil_r. by apply Hmore.
Qed.

(** *** The data of a chunk *)

Definition data_post (expected sent : bool) (v : Version) (n : Z) (s : state) (o : outcome IoError bool) (s' : state) : Prop :=
  ∃ c d, served c [] d s s' ∧ read_buf s' = read_buf s ++ c ∧
  match o with
  | Done sent' => d = continued v sent sent' ∧ only_once expected sent sent' ∧ n ≤ zlen (read_buf s ++ c)
  | Fail e => partly_continued expected v sent d ∧ zlen (read_buf s ++ c) < n ∧ stream_failed s' e
  | Wait => partly_continued expected v sent d ∧ zlen (read_buf s ++ c) < n
  | Stuck => False
  end.

Lemma data_post_later expected sent sent' v n c (s s1 : state) o s' :
  served c [] (continued v sent sent') s s1 → read_buf s1 = read_buf s ++ c → only_once expected sent sent' →
  data_post expected sent' v n s1 o s' → data_post expected sent v n s o s'.
Proof.
  intros Hs Hb Hone (c' & d & Hs' & Hb' & Ho). exists (c ++ c'), (continued v sent sent' ++ d).
  split; [exact (served_then _ _ _ _ _ _ _ _ _ Hs Hs')|]. rewrite Hb, <- app_assoc in *. split; [done|].
  destruct o as [sent2|e| |]; try done.
  - destruct Ho as (-> & Hone' & Hl). destruct (continued_trans _ v _ _ _ Hone Hone') as [-> Hone2]. by split_and!.
  - destruct Ho as [Hp Ho]. split; [by eapply partly_after|done].
  - destruct Ho as [Hp Ho]. split; [by eapply partly_after|done].
Qed.

Lemma chunk_data_spec fuel pos n js expected sent v (s : state) : 0 < n →
  (js = true ∧ pos = 0 ∧ (S (left_over (io s)) < fuel)%nat ∨
   js = false ∧ pos = zlen (read_buf s) ∧ (left_over (io s) < fuel)%nat) →
  wp (chunk_data_loop fuel pos n js expected sent v) (data_post expected sent v n s) s.
Proof.
  intros Hn. revert pos js sent s. induction fuel as [|fuel IH]; intros pos js sent s Hcase; [destruct Hcase; lia|].
  cbn [chunk_data_loop]. destruct (continued_refl expected v sent) as [Hc0 Hone0]. destruct (Z.leb_spec n pos) as [Hle|Hlt].
  { rewrite wp_ret. destruct Hcase as [(_ & -> & _)|(_ & -> & _)]; [lia|]. exists [], []. rewrite app_nil_r.
    by split_and!; [apply served_same|..]. }
  assert (js = false ∨ read_buf s = [] → zlen (read_buf s) < n) as Hmore.
  { destruct Hcase as [(-> & _)|(-> & -> & _)]; [|done]. intros [ | E]; [done|]. rewrite E. exact Hn. }
  rewrite wp_bind. eapply wp_mono; [apply more_chunk_spec|]. intros o s1 (c & d & Hs1 & Hb1 & Ho).
  destruct o as [[sent' m]|e| |]; cbn [andthen]; try done.
  - destruct Ho as (-> & Hone & Hm). eapply wp_mono; [apply (IH _ false)|intros o s'; by apply (data_post_later expected sent sent' v n c s s1)].
    right. split; [done|]. rewrite Hb1, zlen_app. destruct Hs1 as [_ _ _ _ _ _ _ _ Hleft].
    destruct m as [m|]; cbn [default from_option id].
    + destruct Hm as [(-> & _ & -> & ->)|(Hread & Hc & ->)].
      * destruct Hcase as [(_ & -> & Hf)|(? & _)]; [|done]. cbn in *. unfold zlen. cbn. split; lia.
      * assert (pos = zlen (read_buf s)) as -> by (destruct Hcase as [(-> & -> & _)|(_ & -> & _)]; [by destruct Hread as [ | ->]|done]).
        split; [done|]. destruct c as [|x c]; [done|]. cbn in Hleft. destruct Hcase as [(_ & _ & ?)|(_ & _ & ?)]; lia.
    + destruct Hm as (Hread & -> & Hl).
      assert (pos = zlen (read_buf s)) as -> by (destruct Hcase as [(-> & -> & _)|(_ & -> & _)]; [by destruct Hread as [ | ->]|done]).
      unfold zlen. cbn. split; [lia|]. destruct Hcase as [(_ & _ & ?)|(_ & _ & ?)]; lia.
  - destruct Ho as (Hp & -> & Hread & Hwhy). exists [], d. split_and!; try done. rewrite app_nil_r. by apply Hmore.
  - destruct Ho as (Hp & -> & Hread). exists [], d. split_and!; [done..|]. rewrite app_nil_r. by apply Hmore.
Qed.

(** *** A chunk *)

Definition chunk_post (tr expected sent : bool) (v : Version) (s : state) (o : outcome IoError (bool * bytes)) (s' : state) : Prop :=
  ∃ c d, served c [] d s s' ∧
  match o with
  | Done (sent', chunk) => d = continued v sent sent' ∧ only_once expected sent sent' ∧
      ∃ n, scan_chunk tr (read_buf s ++ c) = ChunkAt chunk n ∧ read_buf s' = drop (Z.to_nat n) (read_buf s ++ c)
  | Fail e => partly_continued expected v sent d ∧
      (scan_chunk tr (read_buf s ++ c) = BadChunk e ∨ scan_chunk tr (read_buf s ++ c) = MoreChunk ∧ stream_failed s' e)
  | Wait => partly_continued expected v sent d ∧ scan_chunk tr (read_buf s ++ c) = MoreChunk
  | Stuck => False
  end.

Lemma read_body_chunk_spec fuel tr expected sent v (s : state) : (S (left_over (io s)) < fuel)%nat →
  wp (read_body_chunk fuel tr expected sent v) (chunk_post tr expected sent v s) s.
Proof.
  intros Hf. unfold read_body_chunk. rewrite wp_bind. eapply wp_mono; [apply chunk_len_spec; by left|].
  intros o s1 (c & d & Hs1 & Ho). destruct o as [[sent' n]|e| |]; cbn [andthen]; try done.
  2:{ destruct Ho as (Hp & [Hs|[Hs Hwhy]]); exists c, d; (split_and!; [done..|]); unfold scan_chunk; rewrite Hs; [by left|by right]. }
  2:{ destruct Ho as (Hp & Hs). exists c, d. split_and!; [done..|]. unfold scan_chunk. by rewrite Hs. }
  destruct Ho as (-> & Hone & line & Hline & Hb1). pose proof (scan_size_bounds _ _ _ Hline) as (Hl & Hlz & Hn).
  assert (partly_continued expected v sent (continued v sent sent')) as Hpart.
  { rewrite <- (app_nil_r (continued _ _ _)). eapply partly_after; [done|by left]. }
  destruct ((n =? 0) && tr) eqn:Eend.
  { rewrite wp_ret. exists c, (continued v sent sent'). split_and!; [done..|]. exists line. unfold scan_chunk. by rewrite Hline, Eend. }
  rewrite wp_bind, wp_lift. unfold checked_add64. destruct (Z.leb_spec (n + 2) u64_max) as [Hmax|Hmax]; cbn [ok_or andthen].
  2:{ exists c, (continued v sent sent'). split_and!; [done..|]. left. unfold scan_chunk. by rewrite Hline, Eend, (proj2 (Z.ltb_lt _ _)). }
  rewrite wp_bind. eapply wp_mono; [apply chunk_data_spec; [lia|left; split_and!; [done..|]]|].
  { destruct Hs1 as [_ _ _ _ _ _ _ _ Hleft]. lia. }
  intros o s2 (c' & d & Hs2 & Hb2 & Ho). pose proof (served_then _ _ _ _ _ _ _ _ _ Hs1 Hs2) as Hs. cbn [app] in Hs.
  assert (read_buf s1 ++ c' = drop (Z.to_nat line) (read_buf s ++ c ++ c')) as Hrest.
  { rewrite app_assoc, Hb1. unfold zlen in Hlz. by rewrite (drop_app_le (read_buf s ++ c)) by lia. }
  assert (scan_size (read_buf s ++ c ++ c') = SizeAt line n) as Hline'.
  { rewrite app_assoc, <- Hline. apply scan_size_stable. by rewrite Hline. }
  assert (zlen (read_buf s1 ++ c') = zlen (read_buf s ++ c ++ c') - line) as Hzl.
  { rewrite Hrest. unfold zlen in Hlz |- *. rewrite length_drop, !length_app. rewrite length_app in Hlz. lia. }
  rewrite Hzl in Ho. destruct o as [sent2|e| |]; cbn [andthen]; try done.
  2-3: destruct Ho as (Hp & Ho); exists (c ++ c'), (continued v sent sent' ++ d); (split_and!; [done|by eapply partly_after|]);
    unfold scan_chunk; rewrite Hline', Eend, (proj2 (Z.ltb_ge _ _)), (proj2 (Z.leb_gt _ _)) by lia; try done; right; by destruct Ho.
  destruct Ho as (-> & Hone2 & Hle). rewrite wp_bind. apply wp_split_to; [rewrite Hb2; lia|]. cbn [andthen].
  rewrite wp_bind. apply wp_split_to; [cbn; rewrite Hb2; unfold zlen in *; rewrite length_drop; lia|]. cbn [andthen]. rewrite wp_ret.
  exists (c ++ c'), (continued v sent sent' ++ continued v sent' sent2). split; [by destruct Hs|].
  destruct (continued_trans _ v _ _ _ Hone Hone2) as [-> Hone3]. split_and!; [done..|]. exists (line + n + 2). split.
  - unfold scan_chunk. rewrite Hline', Eend, (proj2 (Z.ltb_ge _ _)), (proj2 (Z.leb_le _ _)) by lia. by rewrite Hb2, Hrest.
  - cbn. rewrite Hb2, Hrest, !drop_drop. f_equal. lia.
Qed.

(** *** All chunks *)

(** The reader of the body has no room for a frame. *)
Definition channel_full (f : BodyFrame) : Prop := ∃ t : T, (body_send f t).1 = Pending.

Definition chunks_post (tr expected sent : bool) (v : Version) (s : state) (o : outcome IoError bool) (s' : state) : Prop :=
  ∃ c ds d mid, served c (DataFrame <$> ds) d s s' ∧ chunk_run tr (read_buf s ++ c) ds mid ∧
  match o with
  | Done sent' => d = continued v sent sent' ∧ only_once expected sent sent' ∧
      ∃ n, scan_chunk tr mid = ChunkAt [] n ∧ read_buf s' = drop (Z.to_nat n) mid
  | Fail e => partly_continued expected v sent d ∧ (scan_chunk tr mid = BadChunk e ∨ scan_chunk tr mid = MoreChunk ∧ stream_failed s' e)
  | Wait => partly_continued expected v sent d ∧ (scan_chunk tr mid = MoreChunk
      ∨ ∃ x n, scan_chunk tr mid = ChunkAt x n ∧ x ≠ [] ∧ channel_full (DataFrame x))
  | Stuck => False
  end.

(** One chunk handed over, and what comes of the others. *)
Lemma chunks_post_later tr expected sent sent' v c x n (s s1 : state) o s' :
  served c [DataFrame x] (continued v sent sent') s s1 → only_once expected sent sent' →
  scan_chunk tr (read_buf s ++ c) = ChunkAt x n → x ≠ [] → read_buf s1 = drop (Z.to_nat n) (read_buf s ++ c) →
  chunks_post tr expected sent' v s1 o s' → chunks_post tr expected sent v s o s'.
Proof.
  intros Hs Hone Hscan Hx Hb (c' & ds & d & mid & Hs' & Hrun & Ho).
  exists (c ++ c'), (x :: ds), (continued v sent sent' ++ d), mid. split; [exact (served_then _ _ _ _ _ _ _ _ _ Hs Hs')|].
  pose proof (scan_chunk_bounds _ _ _ _ Hscan) as Hn. unfold zlen in Hn.
  rewrite Hb, <- (drop_app_le (read_buf s ++ c)), <- app_assoc in Hrun by lia. split.
  - eapply run_chunk; [|done|exact Hrun]. rewrite app_assoc, <- Hscan. apply scan_chunk_stable. by rewrite Hscan.
  - destruct o as [sent2|e| |]; try done.
    + destruct Ho as (-> & Hone' & Hl). destruct (continued_trans _ v _ _ _ Hone Hone') as [-> Hone2]. by split_and!.
    + destruct Ho as [Hp Ho]. split; [by eapply partly_after|done].
    + destruct Ho as [Hp Ho]. split; [by eapply partly_after|done].
Qed.

Lemma body_send_spec f (s : state) : wp (ready (call_io (body_send f)) : http1 ()) (λ o s', read_buf s' = read_buf s ∧
  match o with Done _ => served [] [f] [] s s' | Wait => served [] [] [] s s' ∧ channel_full f | Fail _ | Stuck => False end) s.
Proof.
  rewrite wp_call_io. pose proof (past_send f (io s)) as Hp. pose proof (left_send f (io s)) as Hl.
  destruct (body_send f (io s)) as [[[]|] t'] eqn:E; cbn [fst snd] in *.
  - split; [done|]. apply (served_past s t' [Gave f] Hp). change (got [Gave f]) with (@nil Z). cbn. lia.
  - rewrite app_nil_r in Hp. split; [done|]. split; [by apply served_still|]. exists (io s). by rewrite E.
Qed.

Lemma read_chunks_spec fuel tr expected sent v (s : state) : (S (length (read_buf s) + left_over (io s)) < fuel)%nat →
  wp (read_chunks fuel tr expected sent v) (chunks_post tr expected sent v s) s.
Proof.
  revert sent s. induction fuel as [|fuel IH]; intros sent s Hf; [lia|]. cbn [read_chunks].
  rewrite wp_bind. eapply wp_mono; [apply read_body_chunk_spec; lia|]. intros o s1 (c & d & Hs1 & Ho).
  destruct o as [[sent' x]|e| |]; cbn [andthen]; try done.
  2-3: destruct Ho as [Hp Ho]; exists c, [], d, (read_buf s ++ c); split_and!; [done|constructor|done|auto].
  destruct Ho as (-> & Hone & n & Hscan & Hb1). destruct (bool_decide_reflect (x = [])) as [->|Hx].
  { rewrite wp_ret. exists c, [], (continued v sent sent'), (read_buf s ++ c). split_and!; [done|constructor|done|done|by exists n]. }
  rewrite wp_bind. eapply wp_mono; [apply body_send_spec|]. intros o s2 [Hb2 Ho]. destruct o as [[]|e| |]; cbn [andthen]; try done.
  - pose proof (served_then _ _ _ _ _ _ _ _ _ Hs1 Ho) as Hs. cbn [app] in Hs. rewrite !app_nil_r in Hs.
    eapply wp_mono; [apply IH|intros o s'; apply (chunks_post_later tr expected sent sent' v c x n s s2); [done|done|done|done|congruence]].
    pose proof (scan_chunk_bounds _ _ _ _ Hscan) as Hn. unfold zlen in Hn. destruct Hs as [_ _ _ _ _ _ _ _ Hleft].
    rewrite Hb2, Hb1, length_drop, length_app in *. lia.
  - destruct Ho as [Ho Hfull]. pose proof (served_then _ _ _ _ _ _ _ _ _ Hs1 Ho) as Hs. cbn [app] in Hs. rewrite !app_nil_r in Hs.
    exists c, [], (continued v sent sent'), (read_buf s ++ c). split_and!; [done|constructor| |right; by eexists _, _].
    rewrite <- (app_nil_r (continued _ _ _)). eapply partly_after; [done|by left].
Qed.

(** *** The trailers *)

Definition trailers_end (why : IoError → Prop) (max max_count : Z) (stream : bytes) (o : outcome IoError (option HeaderMap)) (rest : bytes) : Prop :=
  match o with
  | Done None => scan_trailers max stream = NoTrailers ∧ rest = stream
  | Done (Some m) => ∃ n, scan_trailers max stream = TrailersAt n ∧ trailer_fields (take (Z.to_nat n) stream) max_count = Ok m
      ∧ rest = drop (Z.to_nat n) stream
  | Fail e => (∃ n, scan_trailers max stream = TrailersAt n ∧ trailer_fields (take (Z.to_nat n) stream) max_count = Err e)
      ∨ scan_trailers max stream = TrailersTooLarge ∧ e = request_too_large
      ∨ scan_trailers max stream = MoreTrailers ∧ why e
  | Wait => scan_trailers max stream = MoreTrailers
  | Stuck => False
  end.

Lemma trailers_end_why (why why' : IoError → Prop) max mc stream o rest : (∀ e, why e → why' e) →
  trailers_end why max mc stream o rest → trailers_end why' max mc stream o rest.
Proof. intros Hw. destruct o; try done. cbn. intros [|[|[? He]]]; auto. Qed.

Definition trailers_post (max max_count : Z) (s : state) (o : outcome IoError (option HeaderMap)) (s' : state) : Prop :=
  ∃ c, served c [] [] s s' ∧ trailers_end (cut_off s') max max_count (read_buf s ++ c) o (read_buf s').

Lemma trailers_post_later max mc c (s s1 : state) o s' :
  served c [] [] s s1 → read_buf s1 = read_buf s ++ c → trailers_post max mc s1 o s' → trailers_post max mc s o s'.
Proof.
  intros Hs Hb (c' & Hs' & Ho). exists (c ++ c'). split; [exact (served_then _ _ _ _ _ _ _ _ _ Hs Hs')|].
  rewrite Hb, <- app_assoc in Ho. done.
Qed.

(** What a turn does with the octets it has. *)
Lemma take_trailers max l k (s : state) (again : http1 (option HeaderMap)) : read_buf s = l ++ k → max_header_size (options s) = max →
  0 < max → find (take (Z.to_nat max) l) CRLF_CRLF = None → zlen l < max →
  (scan_trailers max (l ++ k) = (if max <=? zlen (l ++ k) then TrailersTooLarge else MoreTrailers) →
    find (take (Z.to_nat max) (l ++ k)) CRLF_CRLF = None →
    wp again (trailers_post max (max_header_count (options s)) s) s) →
  wp (s ← self;
      if (2 <=? Z.min (zlen (l ++ k)) max) && bool_decide (take 2 (read_buf s) = CRLF) then mret None
      else
        x ← buffered (Z.max 0 (zlen l - 3)) (Z.min (zlen (l ++ k)) max);
        match find x CRLF_CRLF with
        | Some separator_index =>
            block ← split_to (Z.max 0 (zlen l - 3) + separator_index + 4);
            m ← lift id (trailer_fields block (max_header_count (options s)));
            mret (Some m)
        | None => again
        end) (trailers_post max (max_header_count (options s)) s) s.
Proof.
  intros Hb Hm Hmax Hnone Hl HA. rewrite wp_self, Hb. set (begin := Z.max 0 (zlen l - 3)). pose proof (zlen_nonneg l).
  assert (zlen l ≤ zlen (l ++ k)) by zlia.
  destruct (_ && _) eqn:Eempty.
  { rewrite wp_ret. exists []. split; [apply served_same|]. rewrite app_nil_r, Hb. unfold trailers_end, scan_trailers. by rewrite Eempty. }
  rewrite wp_bind. apply wp_buffered; [unfold begin; lia|rewrite Hb; lia|]. rewrite Hb, take_min by lia. cbn [andthen].
  pose proof (find_resume CRLF_CRLF max l k ltac:(done) Hnone Hl) as Hres. cbn zeta in Hres.
  change (zlen l - (zlen CRLF_CRLF - 1)) with (zlen l - 3) in Hres. fold begin in Hres. rewrite Hres.
  destruct (find (take (Z.to_nat max) (l ++ k)) CRLF_CRLF) as [p|] eqn:Ef; cbn [fmap option_fmap option_map].
  2:{ apply HA; [|done]. unfold scan_trailers. by rewrite Eempty, Ef. }
  pose proof Ef as Hp. apply find_bound in Hp as [Hp Hp']; [|done]. change (zlen CRLF_CRLF) with 4 in Hp'.
  assert (zlen (take (Z.to_nat max) (l ++ k)) ≤ zlen (l ++ k)) by (unfold zlen; rewrite length_take; lia).
  assert (scan_trailers max (l ++ k) = TrailersAt (p + 4)) as Hscan by (unfold scan_trailers; by rewrite Eempty, Ef).
  replace (begin + (p - begin) + 4) with (p + 4) by lia. rewrite wp_bind. apply wp_split_to; [rewrite Hb; lia|]. rewrite Hb. cbn [andthen].
  rewrite wp_bind, wp_lift. destruct (trailer_fields _ _) as [m|e] eqn:Et; cbn [andthen]; exists []; rewrite app_nil_r;
    (split; [apply served_buf|]); rewrite Hb; [by exists (p + 4)|left; by exists (p + 4)].
Qed.

(** A plain read. *)
Lemma fill_spec (s : state) : wp fill_buf (λ o s', ∃ c, served c [] [] s s' ∧ read_buf s' = read_buf s ++ c ∧
  match o with
  | Done n => n = zlen c ∧ (c = [] → cut_off s' unexpected_eof)
  | Fail e => c = [] ∧ cut_off s' e
  | Wait => c = []
  | Stuck => False
  end) s.
Proof.
  pose proof (fill_or_wanted_spec false s) as H. unfold fill_buf_or_wanted in H. rewrite wp_bind in H.
  eapply wp_mono; [exact H|]. by intros [n|e| |] s'.
Qed.

Lemma more_trailers_spec js (s : state) : wp (more_trailers js) (λ o s', ∃ c, served c [] [] s s' ∧ read_buf s' = read_buf s ++ c ∧
  match o with
  | Done n => js = true ∧ read_buf s ≠ [] ∧ c = [] ∧ n = zlen (read_buf s)
      ∨ (js = false ∨ read_buf s = []) ∧ c ≠ [] ∧ n = zlen c
  | Fail e => c = [] ∧ (js = false ∨ read_buf s = []) ∧ cut_off s' e
  | Wait => c = [] ∧ (js = false ∨ read_buf s = [])
  | Stuck => False
  end) s.
Proof.
  unfold more_trailers. rewrite wp_self. destruct (negb js || bool_decide (read_buf s = [])) eqn:E.
  2:{ apply orb_false_iff in E as [Ej Eb]. apply bool_decide_eq_false in Eb. rewrite wp_ret. exists []. rewrite app_nil_r.
      split_and!; [apply served_same|done|]. left. by destruct js. }
  assert (js = false ∨ read_buf s = []) as Hread.
  { apply orb_true_iff in E as [E|E]; [left; by destruct js|right; by apply bool_decide_eq_true in E]. }
  rewrite wp_bind. eapply wp_mono; [apply fill_spec|]. intros o s1 (c & Hs & Hb & Ho).
  destruct o as [n|e| |]; cbn [andthen]; try done.
  - destruct Ho as [-> He]. destruct c as [|x c].
    + change (zlen (@nil Z) =? 0) with true. rewrite wp_fail. exists []. split_and!; try done. by apply He.
    + rewrite (proj2 (Z.eqb_neq _ _)) by zlia.
      rewrite wp_ret. exists (x :: c). split_and!; [done|done|]. right. by split_and!.
  - destruct Ho as [-> He]. exists []. by split_and!.
  - subst c. exists []. by split_and!.
Qed.

Lemma scan_trailers_none max l : find (take (Z.to_nat max) l) CRLF_CRLF = None →
  (2 <=? Z.min (zlen l) max) && bool_decide (take 2 l = CRLF) = false →
  scan_trailers max l = if max <=? zlen l then TrailersTooLarge else MoreTrailers.
Proof. intros Hn He. unfold scan_trailers. by rewrite He, Hn. Qed.

Lemma scan_trailers_nil max : 0 < max → scan_trailers max [] = MoreTrailers.
Proof.
  intros Hm. rewrite scan_trailers_none; [by rewrite (proj2 (Z.leb_gt _ _))|by rewrite take_nil|apply andb_false_r].
Qed.

(** The start of a turn: nothing yet, or octets that were searched. *)
Definition searching (max : Z) (fuel : nat) (pos : Z) (js : bool) (s : state) : Prop :=
  js = true ∧ pos = 0 ∧ (S (left_over (io s)) < fuel)%nat ∨
  js = false ∧ pos = Z.min (zlen (read_buf s)) max ∧ find (take (Z.to_nat max) (read_buf s)) CRLF_CRLF = None
    ∧ scan_trailers max (read_buf s) = (if max <=? zlen (read_buf s) then TrailersTooLarge else MoreTrailers)
    ∧ (left_over (io s) < fuel)%nat.

Lemma searching_from max fuel pos js s : 0 ≤ max → searching max fuel pos js s → let l := if js then [] else read_buf s in
  (max ≤ pos → scan_trailers max (read_buf s) = TrailersTooLarge) ∧
  (pos < max → zlen l < max ∧ pos = zlen l ∧ find (take (Z.to_nat max) l) CRLF_CRLF = None ∧ scan_trailers max l = MoreTrailers).
Proof.
  intros Hmax H l. unfold l. pose proof (zlen_nonneg (read_buf s)). destruct H as [(-> & -> & _)|(-> & -> & Hn & Hs & _)].
  - split; intros Hm.
    + assert (max = 0) as -> by lia. unfold scan_trailers. rewrite Z.min_r by lia. change (Z.to_nat 0) with 0%nat.
      rewrite take_0. cbn. by rewrite (proj2 (Z.leb_le 0 _)).
    + rewrite take_nil. split_and!; [done..|]. by apply scan_trailers_nil.
  - rewrite Hs. split; intros Hm; [by rewrite (proj2 (Z.leb_le _ _)) by lia|].
    rewrite (proj2 (Z.leb_gt _ _)) by lia. split_and!; [lia|lia|done|done].
Qed.

Lemma trailers_loop_spec fuel max mc pos js (s : state) :
  max_header_size (options s) = max → max_header_count (options s) = mc → 0 ≤ max → searching max fuel pos js s →
  wp (read_trailers_loop fuel pos js) (trailers_post max mc s) s.
Proof.
  intros Hm Hmc Hmax. revert pos js s Hm Hmc. induction fuel as [|fuel IH]; intros pos js s Hm Hmc Hcase; [destruct Hcase; lia|].
  cbn [read_trailers_loop]. rewrite wp_self, Hm. pose proof (searching_from _ _ _ _ _ Hmax Hcase) as [Hover Hgo].
  set (l := if js then [] else read_buf s) in *. destruct (Z.leb_spec max pos) as [Hle|Hlt].
  { rewrite wp_fail. exists []. split; [apply served_same|]. rewrite app_nil_r. right. left. split; [by apply Hover|done]. }
  destruct (Hgo Hlt) as (Hl & -> & Hnone & Hmore). clear Hover Hgo.
  rewrite wp_bind. eapply wp_mono; [apply more_trailers_spec|]. intros o s1 (c & Hs1 & Hb1 & Ho).
  assert (js = false ∨ read_buf s = [] → scan_trailers max (read_buf s) = MoreTrailers) as Hwait.
  { unfold l in Hmore. destruct js; [|done]. by intros [ | ->]. }
  destruct o as [n|e| |]; cbn [andthen]; try done.
  2:{ destruct Ho as (-> & Hread & Hcut). exists []. split; [done|]. rewrite app_nil_r. right. right. split; [by apply Hwait|done]. }
  2:{ destruct Ho as (-> & Hread). exists []. split; [done|]. rewrite app_nil_r. by apply Hwait. }
  assert (∃ k, read_buf s1 = l ++ k ∧ zlen l + n = zlen (l ++ k)) as (k & Hk & Hn).
  { unfold l. destruct js; destruct Ho as [(Hj & _ & -> & ->)|([ | Hj] & _ & ->)]; try done.
    - exists (read_buf s). by rewrite Hb1, app_nil_r.
    - exists c. by rewrite Hb1, Hj.
    - exists c. by rewrite zlen_app.
    - exists c. by rewrite zlen_app. }
  rewrite Hn, <- Hmc. pose proof (served_options _ _ _ _ _ Hs1) as Hopt.
  eapply wp_mono; [apply (take_trailers max l k s1); [done|congruence|pose proof (zlen_nonneg l); lia|done|done|]|].
  - intros Hscan Hnone'. rewrite Hopt, Hmc. apply IH; [congruence|congruence|]. right. rewrite Hk. split_and!; [done..|].
    pose proof (served_left _ _ _ _ _ Hs1) as Hleft. destruct Hcase as [(-> & _ & Hf)|(-> & _ & _ & _ & Hf)]; [lia|].
    destruct Ho as [(? & _)|(_ & Hc & _)]; [done|]. destruct c; [done|]. cbn in Hleft. lia.
  - intros o s'. rewrite Hopt. by apply (trailers_post_later max _ c s s1).
Qed.

Lemma read_trailers_spec fuel (s : state) : let max := max_header_size (options s) in 0 ≤ max →
  (S (left_over (io s)) < fuel)%nat → wp (read_trailers fuel) (trailers_post max (max_header_count (options s)) s) s.
Proof. intros max Hmax Hf. apply trailers_loop_spec; [done|done|done|by left]. Qed.

(** *** The whole chunked body *)

Lemma chunk_run_stable tr l ds mid k : chunk_run tr l ds mid → chunk_run tr (l ++ k) ds (mid ++ k).
Proof.
  induction 1 as [|l d n ds mid Hs Hd Hr IH]; [constructor|]. pose proof (scan_chunk_bounds _ _ _ _ Hs) as Hn. unfold zlen in Hn.
  eapply run_chunk; [|done|]; [rewrite <- Hs; apply scan_chunk_stable; by rewrite Hs|]. by rewrite drop_app_le by lia.
Qed.

(** How the reading of a chunked body ends: what follows the chunks that were
    handed over, the trailers handed over, what is left.  It fails for a chunk
    that is malformed, for bad trailers, or in the middle of either for a reason
    [why] to stop there; it waits in the middle of either, or for the reader of
    the body. *)
Definition body_end (why : IoError → Prop) (tr : bool) (max max_count : Z) (mid : bytes) (ts : list BodyFrame)
    (o : outcome IoError bool) (rest : bytes) : Prop :=
  match o with
  | Done _ => ∃ n, scan_chunk tr mid = ChunkAt [] n ∧
      if tr then ∃ t, trailers_end why max max_count (drop (Z.to_nat n) mid) (Done t) rest ∧ ts = TrailersFrame <$> option_list t
      else ts = [] ∧ rest = drop (Z.to_nat n) mid
  | Fail e => ts = [] ∧ (scan_chunk tr mid = BadChunk e ∨ scan_chunk tr mid = MoreChunk ∧ why e
      ∨ ∃ n r, scan_chunk tr mid = ChunkAt [] n ∧ tr = true ∧ trailers_end why max max_count (drop (Z.to_nat n) mid) (Fail e) r)
  | Wait => ts = [] ∧ (scan_chunk tr mid = MoreChunk
      ∨ (∃ x n, scan_chunk tr mid = ChunkAt x n ∧ x ≠ [] ∧ channel_full (DataFrame x))
      ∨ ∃ n, scan_chunk tr mid = ChunkAt [] n ∧ tr = true ∧ (trailers_end why max max_count (drop (Z.to_nat n) mid) Wait rest
          ∨ ∃ m r, trailers_end why max max_count (drop (Z.to_nat n) mid) (Done (Some m)) r ∧ channel_full (TrailersFrame m)))
  | Stuck => False
  end.

Definition body_post (tr expected sent : bool) (v : Version) (s : state) (o : outcome IoError bool) (s' : state) : Prop :=
  let max := max_header_size (options s) in let mc := max_header_count (options s) in
  ∃ c ds ts d mid, served c ((DataFrame <$> ds) ++ ts) d s s' ∧ chunk_run tr (read_buf s ++ c) ds mid
    ∧ body_end (stream_failed s') tr max mc mid ts o (read_buf s')
    ∧ match o with
      | Done sent' => d = continued v sent sent' ∧ only_once expected sent sent'
      | _ => partly_continued expected v sent d
      end.

Lemma chunked_body_spec fuel tr expected sent v (s : state) : 0 ≤ max_header_size (options s) →
  (S (length (read_buf s) + left_over (io s)) < fuel)%nat →
  wp (read_chunked_body_fn fuel tr expected sent v) (body_post tr expected sent v s) s.
Proof.
  intros Hmax Hf. unfold read_chunked_body_fn. rewrite wp_bind. eapply wp_mono; [by apply read_chunks_spec|].
  intros o s1 (c & ds & d & mid & Hs1 & Hrun & Ho). destruct o as [sent'|e| |]; cbn [andthen]; try done.
  2:{ destruct Ho as [Hp Ho]. exists c, ds, [], d, mid. rewrite app_nil_r. split_and!; [done|done|split; [done|]|done]. destruct Ho; auto. }
  2:{ destruct Ho as [Hp Ho]. exists c, ds, [], d, mid. rewrite app_nil_r. split_and!; [done|done|split; [done|]|done]. destruct Ho; auto. }
  destruct Ho as (-> & Hone & n & Hend & Hb1). destruct tr.
  2:{ rewrite wp_bind, wp_ret. cbn [andthen]. rewrite wp_ret. exists c, ds, [], (continued v sent sent'), mid. rewrite app_nil_r.
      split_and!; [done|done|by exists n|done|done]. }
  assert (partly_continued expected v sent (continued v sent sent')) as Hpart.
  { rewrite <- (app_nil_r (continued _ _ _)). eapply partly_after; [done|by left]. }
  pose proof (served_options _ _ _ _ _ Hs1) as Hopt. pose proof (served_left _ _ _ _ _ Hs1) as Hleft.
  rewrite wp_bind, wp_bind. eapply wp_mono; [apply read_trailers_spec; [by rewrite Hopt|lia]|]. rewrite Hopt.
  intros o s2 (c2 & Hs2 & Ho). pose proof (served_then _ _ _ _ _ _ _ _ _ Hs1 Hs2) as Hs.
  rewrite app_nil_r in Hs. pose proof (chunk_run_stable _ _ _ _ c2 Hrun) as Hrun2. rewrite <- app_assoc in Hrun2.
  pose proof (scan_chunk_bounds _ _ _ _ Hend) as Hn. unfold zlen in Hn.
  assert (scan_chunk true (mid ++ c2) = ChunkAt [] n) as Hend2 by (rewrite <- Hend; apply scan_chunk_stable; by rewrite Hend).
  rewrite Hb1, <- drop_app_le in Ho by lia. rewrite app_nil_r in Hs. apply (trailers_end_why _ (stream_failed s2)) in Ho; [|by left].
  destruct o as [[m|]|e| |]; cbn [andthen]; try done.
  - eapply wp_mono; [apply body_send_spec|]. intros o s3 [Hb3 Ho3]. destruct o as [[]|e| |]; cbn [andthen]; try done;
      [|destruct Ho3 as [Ho3 Hfull]]; pose proof (served_then _ _ _ _ _ _ _ _ _ Hs Ho3) as Hs'; rewrite !app_nil_r in Hs'.
    + rewrite wp_ret. exists (c ++ c2), ds, [TrailersFrame m], (continued v sent sent'), (mid ++ c2).
      split_and!; [done|done| |done|done]. exists n. split; [done|]. exists (Some m). by rewrite Hb3.
    + exists (c ++ c2), ds, [], (continued v sent sent'), (mid ++ c2). rewrite app_nil_r.
      split_and!; [done|done|split; [done|]; right; right|done]. exists n. split_and!; [done|done|]. right. by exists m, (read_buf s2).
  - rewrite wp_ret. cbn [andthen]. rewrite wp_ret. exists (c ++ c2), ds, [], (continued v sent sent'), (mid ++ c2). rewrite app_nil_r.
    split_and!; [done|done| |done|done]. exists n. split; [done|]. by exists None.
  - exists (c ++ c2), ds, [], (continued v sent sent'), (mid ++ c2). rewrite app_nil_r.
    split_and!; [done|done|split; [done|]|done]. right. right. by exists n, (read_buf s2).
  - exists (c ++ c2), ds, [], (continued v sent sent'), (mid ++ c2). rewrite app_nil_r.
    split_and!; [done|done|split; [done|]; right; right|done]. exists n. split_and!; [done|done|]. by left.
Qed.

(** *** A body of a known length *)

(** The octets handed over so far, of a body that still has [n]; [over] when
    the stream ended inside it. *)
Definition length_post (n : Z) (expected sent : bool) (v : Version) (s : state) (o : outcome IoError bool) (s' : state) : Prop :=
  ∃ c ds d, served c (DataFrame <$> ds) d s s' ∧
  match o with
  | Done sent' => d = continued v sent sent' ∧ only_once expected sent sent' ∧ read_buf s ++ c = mjoin ds ++ read_buf s' ∧
      (zlen (mjoin ds) = n ∨ zlen (mjoin ds) < n ∧ read_buf s' = [] ∧ cut_off s' unexpected_eof)
  | Fail _ | Wait => partly_continued expected v sent d ∧ mjoin ds `prefix_of` read_buf s ++ c ∧ zlen (mjoin ds) < n
  | Stuck => False
  end.

Lemma length_post_later n expected sent sent' v c ds (s s1 : state) o s' :
  served c (DataFrame <$> ds) (continued v sent sent') s s1 → only_once expected sent sent' →
  read_buf s ++ c = mjoin ds ++ read_buf s1 →
  length_post (n - zlen (mjoin ds)) expected sent' v s1 o s' → length_post n expected sent v s o s'.
Proof.
  intros Hs Hone Hb (c' & ds' & d & Hs' & Ho). exists (c ++ c'), (ds ++ ds'), (continued v sent sent' ++ d).
  rewrite fmap_app, join_app, zlen_app. split; [exact (served_then _ _ _ _ _ _ _ _ _ Hs Hs')|].
  destruct o as [sent2|e| |]; try done.
  - destruct Ho as (-> & Hone' & Hb' & Hn). destruct (continued_trans _ v _ _ _ Hone Hone') as [-> Hone2].
    split_and!; [done|done|by rewrite app_assoc, Hb, <- !app_assoc, Hb'|]. destruct Hn as [|(? & ? & ?)]; [left; lia|right].
    split_and!; [lia|done|done].
  - destruct Ho as (Hp & [r Hr] & Hn). split_and!; [by eapply partly_after| |lia]. exists r. by rewrite app_assoc, Hb, <- !app_assoc, Hr.
  - destruct Ho as (Hp & [r Hr] & Hn). split_and!; [by eapply partly_after| |lia]. exists r. by rewrite app_assoc, Hb, <- !app_assoc, Hr.
Qed.

Lemma body_read_spec js expected (s : state) :
  wp (s0 ← self; (if negb js || bool_decide (read_buf s0 = []) then fill_buf_or_wanted expected else mret (Some 1)) : http1 (option Z))
    (λ o s', ∃ c, served c [] [] s s' ∧ read_buf s' = read_buf s ++ c ∧
      match o with
      | Done (Some 0) => (js = false ∨ read_buf s = []) ∧ c = [] ∧ cut_off s' unexpected_eof
      | Done (Some _) => read_buf s' ≠ [] ∧ (js = false → c ≠ [])
      | Done None => (js = false ∨ read_buf s = []) ∧ c = [] ∧ (left_over (io s') < left_over (io s))%nat
      | Fail _ | Wait => c = []
      | Stuck => False
      end) s.
Proof.
  rewrite wp_self. destruct (negb js || bool_decide (read_buf s = [])) eqn:E.
  2:{ apply orb_false_iff in E as [Ej Eb]. apply bool_decide_eq_false in Eb. rewrite wp_ret. exists []. rewrite app_nil_r.
      split_and!; [apply served_same|done|done|]. intros ->. done. }
  assert (js = false ∨ read_buf s = []) as Hread.
  { apply orb_true_iff in E as [E|E]; [left; by destruct js|right; by apply bool_decide_eq_true in E]. }
  eapply wp_mono; [apply fill_or_wanted_spec|]. intros o s1 (c & Hs & Hb & Ho). exists c. split_and!; [done|done|].
  destruct o as [[n|]|e| |]; try done; [|by destruct Ho].
  destruct Ho as [-> He]. destruct c as [|x c].
  - cbn. by specialize (He eq_refl).
  - rewrite zlen_cons. pose proof (zlen_nonneg c). destruct (1 + zlen c) as [|p|p] eqn:Ez; [lia| |lia].
    split; [rewrite Hb; by destruct (read_buf s)|done].
Qed.

(** The chunk a turn cuts off and hands over. *)
Lemma hand_chunk_spec n (s : state) (k : bytes → http1 bool) Q : 0 < n ≤ u64_max → read_buf s ≠ [] →
  (∀ chunk o s', chunk ≠ [] → read_buf s = chunk ++ read_buf s' → (chunk `prefix_of` read_buf s) → zlen chunk ≤ n →
    (0 < n - zlen chunk → read_buf s' = []) →
    match o with Done _ => served [] [DataFrame chunk] [] s s' | Wait => served [] [] [] s s' | Fail _ | Stuck => False end →
    andthen (λ _ : (), k chunk) Q o s') →
  wp (s0 ← self; chunk ← split_to (Z.min (zlen (read_buf s0)) (Z.min n usize_max));
      _ ← ready (call_io (body_send (DataFrame chunk))); k chunk) Q s.
Proof.
  intros Hn Hne HQ. rewrite wp_self. set (m := Z.min _ _).
  assert (0 < zlen (read_buf s)) by by apply zlen_pos.
  assert (0 < m ≤ zlen (read_buf s)) as Hm by (unfold m, usize_max, u64_max in *; lia).
  rewrite wp_bind. apply wp_split_to; [lia|]. cbn [andthen]. set (chunk := take _ _).
  assert (zlen chunk = m) as Hlen by (unfold chunk, zlen in *; rewrite length_take; lia).
  rewrite wp_bind. eapply wp_mono; [apply body_send_spec|]. intros o s1 [Hb Ho]. cbn in Hb. apply HQ.
  - intros E. rewrite E in Hlen. change (zlen (@nil Z)) with 0 in Hlen. lia.
  - rewrite Hb. unfold chunk. by rewrite take_drop.
  - exists (drop (Z.to_nat m) (read_buf s)). unfold chunk. by rewrite take_drop.
  - unfold m in Hlen. lia.
  - intros Hmore. rewrite Hb. apply drop_ge. unfold m, usize_max, u64_max, zlen in *. lia.
  - destruct o; try done; [destruct Ho|destruct Ho as [[] _]]; by split.
Qed.

Lemma read_body_spec fuel n js expected sent v (s : state) : 0 ≤ n ≤ u64_max →
  (js = true ∧ (S (left_over (io s)) < fuel)%nat ∨ js = false ∧ (0 < n → read_buf s = []) ∧ (left_over (io s) < fuel)%nat) →
  wp (read_body_loop fuel n expected sent v js) (length_post n expected sent v s) s.
Proof.
  revert n js sent s. induction fuel as [|fuel IH]; intros n js sent s Hn Hcase; [destruct Hcase; lia|].
  cbn [read_body_loop]. destruct (continued_refl expected v sent) as [Hc0 Hone0]. destruct (Z.leb_spec n 0) as [Hle|Hlt].
  { rewrite wp_ret. exists [], [], []. rewrite app_nil_r. split_and!; [apply served_same|done|done|done|]. left. unfold zlen. cbn. lia. }
  rewrite wp_bind. apply (continue_spec s expected).
  2:{ intros o s1 d Hs1 Hb1 Hp Ho. destruct o; try done; exists [], [], d; (split_and!; [done|done|apply prefix_nil|done]). }
  intros sent' s1 Hs1 Hone Hb1. cbn [andthen]. pose proof (body_read_spec js expected s1) as Hread. rewrite wp_self in Hread.
  assert (partly_continued expected v sent (continued v sent sent')) as Hpart.
  { rewrite <- (app_nil_r (continued _ _ _)). eapply partly_after; [done|by left]. }
  rewrite wp_self, wp_bind. eapply wp_mono; [exact Hread|]. intros o s2 (c & Hs2 & Hb2 & Ho). rewrite Hb1 in Hb2, Ho.
  pose proof (served_then _ _ _ _ _ _ _ _ _ Hs1 Hs2) as Hs. cbn [app] in Hs. rewrite app_nil_r in Hs.
  pose proof (served_left _ _ _ _ _ Hs) as Hleft. pose proof (served_left _ _ _ _ _ Hs1) as Hleft1. cbn in Hleft1.
  assert (js = false ∨ read_buf s = [] → read_buf s = []) as Hempty.
  { destruct Hcase as [(-> & _)|(-> & Hb & _)]; [by intros [ | ->]|]. intros _. by apply Hb. }
  destruct o as [[m|]|e| |]; cbn [andthen]; try done.
  2:{ destruct Ho as (Hread' & -> & Hl). apply Hempty in Hread'. rewrite Hread' in Hb2. eapply wp_mono; [apply (IH n)|]; [done| |].
      - right. split_and!; [done|done|destruct Hcase as [(_ & ?)|(_ & _ & ?)]; lia].
      - intros o s' Hp. apply (length_post_later n expected sent sent' v [] [] s s2); [done|done|by rewrite Hb2, Hread'|].
        unfold zlen. cbn. by rewrite Z.sub_0_r. }
  2-3: subst c; exists [], [], (continued v sent sent'); (split_and!; [done|done|apply prefix_nil|done]).
  assert (m ≠ 0 → read_buf s2 ≠ [] ∧ (js = false → c ≠ [])) as Hm by by destruct m.
  destruct (decide (m = 0)) as [->|Hm0].
  { destruct Ho as (Hread' & -> & Hcut). apply Hempty in Hread'. rewrite wp_ret. exists [], [], (continued v sent sent').
    split_and!; [done|done|done|by rewrite Hb2|]. right. unfold zlen. cbn. split_and!; [lia|by rewrite Hb2, Hread'|done]. }
  destruct (Hm Hm0) as [Hne Hc]. assert (∀ (A : Type) (x y : A), match m with 0 => x | _ => y end = y) as Hmatch by by destruct m.
  rewrite Hmatch. apply hand_chunk_spec; [lia|done|]. intros chunk o s3 Hchunk Hb3 Hpre Hle Hrest Ho3.
  destruct o as [[]|e| |]; cbn [andthen]; try done; pose proof (served_then _ _ _ _ _ _ _ _ _ Hs Ho3) as Hs3; rewrite !app_nil_r in Hs3.
  - pose proof (zlen_nonneg chunk). eapply wp_mono; [apply (IH (n - zlen chunk)); [lia|right; split_and!; [done|done|]]|].
    + pose proof (served_left _ _ _ _ _ Hs3) as Hl3. destruct Hcase as [(_ & ?)|(-> & _ & ?)]; [lia|].
      specialize (Hc eq_refl). destruct c; [done|]. cbn in Hl3. lia.
    + intros o s' Hp. apply (length_post_later n expected sent sent' v c [chunk] s s3); [done|done| |].
      * change (mjoin [chunk]) with (chunk ++ []). rewrite app_nil_r. by rewrite <- Hb3.
      * change (mjoin [chunk]) with (chunk ++ []). by rewrite app_nil_r.
  - exists c, [], (continued v sent sent'). split_and!; [done|done|apply prefix_nil|done].
Qed.
End spec.

(** C7. Reading a chunked body does not depend on how its octets arrive.  With
    enough fuel for what there is to read, [read_chunked_body_fn] returns or
    waits; what it hands over are exactly the chunks the grammar finds at the
    start of the whole stream, with the trailers behind them where they were
    announced; what follows the body stays in the buffer.  It fails only for a
    malformed chunk or bad trailers, or when the last thing that happened is that
    the stream ended, a read failed or the [100 Continue] could not be written,
    in the middle of a chunk or of the trailers; it waits only in the middle of
    either or where the reader of the body has no room; and at most one
    [100 Continue] is written, only for a request that expects it. *)
Theorem chunked_body_refines_grammar `{HT : Http} `{HC : !H1Crates} {T : Type} `{HI : !Io T} `{HR : !RecordedIo T} `{HF : !FiniteIo T}
  fuel would_have_trailers expected sent v (s : Http1 T) (Hmax : 0 ≤ max_header_size (options s))
  (Hfuel : (S (length (read_buf s) + left_over (io s)) < fuel)%nat) :
  let '(o, s') := read_chunked_body_fn fuel would_have_trailers expected sent v s in
  body_post would_have_trailers expected sent v s o s'
  ∧ ∀ l ds mid more, chunk_run would_have_trailers l ds mid → chunk_run would_have_trailers (l ++ more) ds (mid ++ more).
Proof.
  pose proof (chunked_body_spec fuel would_have_trailers expected sent v s Hmax Hfuel) as H. unfold wp in H.
  destruct (read_chunked_body_fn fuel would_have_trailers expected sent v s) as [o s']. split; [exact H|].
  intros l ds mid more. apply chunk_run_stable.
Qed.

(** A body of a known length: the octets handed over are the first octets of
    the stream, as many as announced, and the next ones stay in the buffer.  A
    stream that ends earlier ends the body without an error. *)
Theorem known_length_body `{HT : Http} `{HC : !H1Crates} {T : Type} `{HI : !Io T} `{HR : !RecordedIo T} `{HF : !FiniteIo T}
  fuel n expected sent v (s : Http1 T) (Hn : 0 ≤ n ≤ u64_max) (Hfuel : (S (left_over (io s)) < fuel)%nat) :
  let '(o, s') := read_body_fn fuel n expected sent v s in length_post n expected sent v s o s'.
Proof.
  pose proof (read_body_spec fuel n true expected sent v s Hn (or_introl (conj eq_refl Hfuel))) as H. unfold wp in H.
  unfold read_body_fn. by destruct (read_body_loop fuel n expected sent v true s) as [o s'].
Qed.

(** The handler asks for the body while it arrives. *)
Definition wiki : Playback := playback
  ([Interest] ++ (([b "4" ++ [0x0d]; [0x0a] ++ b "Wi"; b "ki" ++ CRLF ++ b "5"; CRLF ++ b "pedia" ++ CRLF ++ b "0" ++ CRLF ++ CRLF ++ b "GET"]) ≫= piece)).

Lemma chunked_body_refines_grammar_witness :
  let '(o, s') := read_chunked_body_fn 100 false true false HTTP_11 (new_http1 wiki new_options) in
  o = Done true ∧ gave (past (io s')) = [DataFrame (b "Wiki"); DataFrame (b "pedia")]
  ∧ put (past (io s')) = b "HTTP/1.1 100 Continue" ++ CRLF_CRLF ∧ read_buf s' = b "GET"
  ∧ body_post false true false HTTP_11 (new_http1 wiki new_options) o s'.
Proof.
  pose proof (chunked_body_refines_grammar 100 false true false HTTP_11 (new_http1 wiki new_options)
    ltac:(vm_compute; discriminate) ltac:(vm_compute; lia)) as H.
  destruct (read_chunked_body_fn 100 false true false HTTP_11 (new_http1 wiki new_options)) as [o s'] eqn:E.
  vm_compute in E. injection E as <- <-. do 4 (split; [vm_compute; reflexivity|]). exact (proj1 H).
Defined.

Definition post_five : Playback := pieces [b "he"; b "l"; b "lo" ++ b "GET"].

Lemma known_length_body_witness :
  let '(o, s') := read_body_fn 100 5 false false HTTP_11 (new_http1 post_five new_options) in
  o = Done false ∧ gave (past (io s')) = [DataFrame (b "he"); DataFrame (b "l"); DataFrame (b "lo")]
  ∧ read_buf s' = b "GET" ∧ length_post 5 false false HTTP_11 (new_http1 post_five new_options) o s'.
Proof.
  pose proof (known_length_body 100 5 false false HTTP_11 (new_http1 post_five new_options)
    ltac:(vm_compute; intuition discriminate) ltac:(vm_compute; lia)) as H.
  destruct (read_body_fn 100 5 false false HTTP_11 (new_http1 post_five new_options)) as [o s'] eqn:E.
  vm_compute in E. injection E as <- <-. do 3 (split; [vm_compute; reflexivity|]). exact H.
Defined.
