(* ===== verification/H1Write.v ===== *)
(** * Writing responses (src/src/h1/write.rs, src/src/h1/mod.rs)

    [write_response]: the head, the framing of the body, chunks and trailers
    through the write buffer, and the file sent instead of a body; and the
    interim [103 Early Hints]. *)

From S2P Require Import Prelude Poll H2Request H1Io H1WriteBuf H1Wire H1State.

Definition WRITE_BUF_BATCH_THRESHOLD : Z := 16384.

Section write.
Context (with_capacity : Z → Z).
Context `{HT : Http} `{HC : !H1Crates} {T : Type} `{HI : !Io T} `{HS : !Service T}.

Abbreviation http1 := (op (Http1 T) IoError).

(** A call of the write buffer, which writes to the stream. *)
Definition buffering {A} (m : op (WriteBuf * T) IoError A) : http1 A :=
  zoom (λ s, (write_buf s, io s)) (λ p s, set_io p.2 (set_write_buf p.1 s)) m.
Definition enqueue (f : WriteBuf → WriteBuf) : http1 () := modify (λ s, set_write_buf (f (write_buf s)) s).

Definition flush_buf : http1 () := s ← self; buffering (flush (enable_vectored_write (options s))).
Definition write_some : http1 Z := s ← self; buffering (write (enable_vectored_write (options s))).

(** ** The head *)

(** The whole seconds of a time, which [duration_since(UNIX_EPOCH)] refuses
    before the epoch. *)
Definition as_secs (t : Z) : option Z := if t <? 0 then None else Some (t / 1000000000).

Definition get_date_header_value : http1 bytes :=
  s ← self;
  let now := clock (io s) in
  let fresh := match date_cached s with Some (_, at_) => bool_decide (as_secs at_ = as_secs now) | None => false end in
  _ ← (if fresh then mret () else modify (set_date (Some (fmt_http_date now, now))));
  s ← self;
  mret (match date_cached s with Some (value, _) => value | None => [] end).

Definition with_headers (r : Response) (m : HeaderMap) : Response := MkResponse (rs_status r) m (rs_size r) (rs_file r).

(** The Date and Content-Length fields. *)
Definition add_fields (response : Response) : http1 Response :=
  s ← self;
  headers ← (if send_date_header (options s) then
      date ← get_date_header_value;
      value ← lift id (ok_or (header_value_from_str date) (parse_error Other));
      mret (header_insert (rs_headers response) (b "date") value)
    else mret (rs_headers response) : http1 HeaderMap);
  mret (with_headers response (match rs_size response with
    | Some n => if header_get headers (b "content-length") is None
        then header_insert headers (b "content-length") (header_value_unchecked (to_decimal n)) else headers
    | None => headers
    end)).

(** [headers.get(CONTENT_LENGTH)...parse::<u64>().ok()]. *)
Definition content_length (m : HeaderMap) : option Z :=
  v ← header_get m (b "content-length"); s ← header_to_str v; from_str_radix 10 s.

(** Whether the body is to be chunked. *)
Definition is_chunked (m : HeaderMap) : bool :=
  match header_get m (b "transfer-encoding") with
  | Some v => match header_to_str v with Some s => has_token (b "chunked") s | None => false end
  | None => if content_length m is None then true else false
  end.

Definition frame_headers (m : HeaderMap) : HeaderMap :=
  if is_chunked m
  then header_remove (header_insert m (b "transfer-encoding") (header_value_unchecked (b "chunked"))) (b "content-length")
  else m.

Definition field_line (f : HeaderName * HeaderValue) : bytes := header_name_str f.1 ++ b ": " ++ header_as_bytes f.2 ++ CRLF.

Definition response_head (version : Version) (status : Z) (m : HeaderMap) : bytes :=
  version_line version ++ status_str status
  ++ (match canonical_reason status with Some reason => b " " ++ reason | None => [] end) ++ CRLF
  ++ mjoin (map field_line (header_iter m)) ++ CRLF.

(** ** The body *)

(** What the loop pushes for a frame. *)
Definition push_data (chunked : bool) (data : bytes) : http1 () :=
  if chunked then
    _ ← enqueue (push_copy with_capacity (write_chunk_size (zlen data)));
    _ ← enqueue (push_bytes data);
    enqueue (push CRLF)
  else enqueue (push_bytes data).

Fixpoint push_fields (l : list (HeaderName * HeaderValue)) : http1 () :=
  match l with
  | [] => mret ()
  | (name, value) :: l =>
      _ ← enqueue (push_copy with_capacity (header_name_str name));
      _ ← enqueue (push (b ": "));
      _ ← enqueue (push_copy with_capacity (header_as_bytes value));
      _ ← enqueue (push CRLF);
      push_fields l
  end.
Definition push_trailers (m : HeaderMap) : http1 () :=
  _ ← enqueue (push (b "0" ++ CRLF));
  _ ← push_fields (header_iter m);
  enqueue (push CRLF).

(** The loop that writes while there is a batch; a turn writes an octet. *)
Fixpoint drain_batches (fuel : nat) : http1 () :=
  s ← self;
  if buf_len (write_buf s) <? WRITE_BUF_BATCH_THRESHOLD then mret ()
  else match fuel with
  | O => stuck
  | S fuel =>
      bytes_written ← write_some;
      if bytes_written =? 0 then fail write_zero else drain_batches fuel
  end.

(** A computation whose result is dropped, also where it is suspended. *)
Definition attempt (m : http1 ()) : http1 () :=
  λ s, match m s with (Stuck, s) => (Stuck, s) | (_, s) => (Done (), s) end.

(** [let _ = m.await]: an error is dropped. *)
Definition ignore (m : http1 ()) : http1 () :=
  λ s, match m s with (Fail _, s) => (Done (), s) | r => r end.

(** The biased select: the next frame of the body; while there is none, what is
    buffered is flushed.  The flush is dropped where it stands when a frame
    comes. *)
Definition next_chunk (first_chunk : bool) : http1 (option (result () BodyFrame)) :=
  r ← call_io next_frame;
  match r with
  | Ready chunk => mret chunk
  | Pending =>
      _ ← (if first_chunk then mret () else attempt (_ ← ignore flush_buf; ignore (await io_flush)));
      ready (call_io next_frame)
  end.

(** The loop over the frames: whether trailers were written. *)
Fixpoint write_body (fuel : nat) (chunked write_trailers first_chunk : bool) : http1 bool :=
  match fuel with
  | O => stuck
  | S fuel =>
      chunk ← next_chunk first_chunk;
      match chunk with
      | None => mret false
      | Some (Err _) => fail (parse_error Other)
      | Some (Ok (DataFrame data)) =>
          if bool_decide (data = []) then write_body fuel chunked write_trailers false
          else
            _ ← push_data chunked data;
            s ← self;
            _ ← drain_batches (S (Z.to_nat (buf_len (write_buf s))));
            write_body fuel chunked write_trailers false
      | Some (Ok (TrailersFrame trailers)) =>
          if write_trailers then _ ← push_trailers trailers; mret true else mret false
      end
  end.

(** [write_response]. *)
Definition write_response (fuel : nat) (response : Response) (version : Version) (write_trailers is_head : bool) : http1 () :=
  response ← add_fields response;
  let chunked := is_chunked (rs_headers response) in
  let headers := frame_headers (rs_headers response) in
  let chunked := chunked && negb is_head in
  _ ← enqueue (push (response_head version (rs_status response) headers));
  s ← self;
  let file := if negb chunked && rs_file response && zerocopy_enabled (io s) then content_length headers else None in
  match file with
  | Some len =>
      _ ← flush_buf;
      _ ← await (send_file len);
      await io_flush
  | None =>
      _ ← (if is_head then mret ()
           else
             trailers_written ← write_body fuel chunked write_trailers true;
             if chunked && negb trailers_written then enqueue (push (b "0" ++ CRLF_CRLF)) else mret ());
      _ ← flush_buf;
      await io_flush
  end.

(** ** Early hints *)

(** The lines of [write_early_hints]; the names of repeated fields are given
    once by the iterator. *)
Fixpoint hint_lines (current : option HeaderName) (l : list (option HeaderName * HeaderValue)) : bytes :=
  match l with
  | [] => []
  | (name, value) :: l =>
      let current := match name with Some _ => name | None => current end in
      match current with
      | Some n =>
          (if bool_decide (header_as_bytes value = []) then header_name_str n ++ b ":" ++ CRLF
           else header_name_str n ++ b ": " ++ header_as_bytes value ++ CRLF) ++ hint_lines current l
      | None => hint_lines current l
      end
  end.

Definition write_early_hints (version : Version) (headers : list (option HeaderName * HeaderValue)) : http1 () :=
  await (io_write_all (version_line version ++ b "103 Early Hints" ++ CRLF ++ hint_lines None headers ++ CRLF)).
End write.
