(* ===== verification/H1WriteSpec.v ===== *)
(** * What a response puts on the stream

    The octets written and the octets still queued are one output; every step
    of [write_response] adds to its end what it means to send.  The framing a
    reader of chunked bodies finds in it is the framing that was meant. *)

From S2P Require Import Prelude Poll H2Request H1Io H1WriteBuf H1Wire H1State H1Plain H1Read H1ReadSpec H1Body H1Write.

(** ** The meaning of a body *)

Section meaning.
Context `{HT : Http} `{HC : !H1Crates}.

Definition data_octets (chunked : bool) (d : bytes) : bytes :=
  if bool_decide (d = []) then [] else if chunked then write_chunk_size (zlen d) ++ d ++ CRLF else d.
Definition trailer_octets (m : HeaderMap) : bytes := b "0" ++ CRLF ++ mjoin (map field_line (header_iter m)) ++ CRLF.

(** The octets of the frames, and whether they end with trailers. *)
Fixpoint frame_octets (chunked write_trailers : bool) (fs : list BodyFrame) : bytes * bool :=
  match fs with
  | [] => ([], false)
  | DataFrame d :: fs =>
      let '(l, t) := frame_octets chunked write_trailers fs in (data_octets chunked d ++ l, t)
  | TrailersFrame m :: _ => if write_trailers then (trailer_octets m, true) else ([], false)
  end.
Definition body_octets (chunked write_trailers : bool) (fs : list BodyFrame) : bytes :=
  let '(l, t) := frame_octets chunked write_trailers fs in
  l ++ if chunked && negb t then b "0" ++ CRLF_CRLF else [].
End meaning.

(** ** The output *)

Section spec.
Context (with_capacity : Z → Z) (Hcap : ∀ n, n ≤ with_capacity n).
Context `{HT : Http} `{HC : !H1Crates} {T : Type} `{HI : !Io T} `{HR : !RecordedIo T} `{HS : !Service T} `{HRS : !RecordedService T}.

Abbreviation http1 := (op (Http1 T) IoError).
Abbreviation state := (Http1 T).

(** What the write buffer holds. *)
Definition queued (w : WriteBuf) : bytes := mjoin (default [] (views w)).

Lemma holds_queued w l : holds w l → queued w = l.
Proof. intros [_ (vs & Hv & <-) _ _ _ _]. unfold queued. by rewrite Hv. Qed.

(** The output grew by [d] while the frames [fs] were taken. *)
Record output (d : bytes) (fs : list BodyFrame) (s s' : state) : Prop := {
  output_valid : holds (write_buf s') (queued (write_buf s'));
  output_put : put (past (io s')) ++ queued (write_buf s') = put (past (io s)) ++ queued (write_buf s) ++ d;
  output_took : took (past (io s')) = took (past (io s)) ++ fs;
  output_replied : replied (past (io s')) = replied (past (io s));
  output_got : got (past (io s')) = got (past (io s));
  output_gave : gave (past (io s')) = gave (past (io s));
  output_asked : asked (past (io s')) = asked (past (io s));
  output_mode : is_write_vectored (io s') = is_write_vectored (io s);
  output_options : options s' = options s;
  output_read_buf : read_buf s' = read_buf s;
  output_token : cancel_token s' = cancel_token s;
  output_idle : connection_idle s' = connection_idle s;
}.

Lemma output_trans d fs e gs (s s' s'' : state) : output d fs s s' → output e gs s' s'' → output (d ++ e) (fs ++ gs) s s''.
Proof.
  intros [] []. split; try congruence; [|rewrite app_assoc; congruence].
  rewrite !app_assoc. rewrite <- (app_assoc (put (past (io s)))), <- output_put0, <- app_assoc. congruence.
Qed.

Lemma output_more d fs e (s s' s'' : state) : output d fs s s' → output e [] s' s'' → output (d ++ e) fs s s''.
Proof. intros H1 H2. rewrite <- (app_nil_r fs). by eapply output_trans. Qed.

(** A valid state whose writes go out as they are queued. *)
Definition ready_to_write (s : state) : Prop :=
  holds (write_buf s) (queued (write_buf s)) ∧ is_write_vectored (io s) && enable_vectored_write (options s) = true.

Lemma output_ready d fs (s s' : state) : output d fs s s' → ready_to_write s → ready_to_write s'.
Proof. intros [] [_ Hm]. split; [done|]. congruence. Qed.

Lemma output_refl (s : state) : ready_to_write s → output [] [] s s.
Proof. intros [Hv _]. split; rewrite ?app_nil_r; done. Qed.


Lemma enqueue_spec f d (s : state) Q : ready_to_write s → (∀ w l, holds w l → holds (f w) (l ++ d)) →
  (∀ s', output d [] s s' → ready_to_write s' → Q (Done ()) s') → wp (enqueue f) Q s.
Proof.
  intros [Hv Hm] Hf HQ. unfold enqueue. pose proof (Hf _ _ Hv) as Hh. apply HQ; [|split; cbn; [by rewrite (holds_queued _ _ Hh)|done]].
  split; cbn; rewrite ?app_nil_r, ?(holds_queued _ _ Hh); done.
Qed.

Lemma push_spec d (s : state) Q : ready_to_write s → (∀ s', output d [] s s' → ready_to_write s' → Q (Done ()) s') →
  wp (enqueue (push d)) Q s.
Proof. intros Hs. apply enqueue_spec; [done|]. intros w l. apply push_holds. Qed.
Lemma push_bytes_spec d (s : state) Q : ready_to_write s → (∀ s', output d [] s s' → ready_to_write s' → Q (Done ()) s') →
  wp (enqueue (push_bytes d)) Q s.
Proof. intros Hs. apply enqueue_spec; [done|]. intros w l. apply push_bytes_holds. Qed.
Lemma push_copy_spec d (s : state) Q : ready_to_write s → (∀ s', output d [] s s' → ready_to_write s' → Q (Done ()) s') →
  wp (enqueue (push_copy with_capacity d)) Q s.
Proof. intros Hs. apply enqueue_spec; [done|]. intros w l. by apply push_copy_holds. Qed.

(** Octets of the queue went to the stream. *)
Lemma moved_output n (s : state) p : ready_to_write s → took_off n (queued (write_buf s)) (io s) p →
  output [] [] s (set_io p.2 (set_write_buf p.1 s)) ∧ queued p.1 = drop n (queued (write_buf s)).
Proof.
  intros [Hv Hm] [Hh []]. pose proof (holds_queued _ _ Hh) as Hq. split; [|done].
  split; cbn; rewrite ?app_nil_r, ?Hq; try done. by rewrite wrote_put, <- app_assoc, take_drop.
Qed.

Lemma write_some_spec (s : state) Q : ready_to_write s →
  (∀ o s', output [] [] s s' → ready_to_write s' →
    match o with
    | Done n => 0 ≤ n ∧ (n = 0 → queued (write_buf s) = []) ∧ zlen (queued (write_buf s')) = zlen (queued (write_buf s)) - Z.min n (zlen (queued (write_buf s)))
    | Stuck => False | Fail _ | Wait => True end → Q o s') →
  wp write_some Q s.
Proof.
  intros Hs HQ. unfold write_some. rewrite wp_self. unfold buffering. rewrite wp_zoom.
  eapply wp_mono; [apply write_spec, Hs|]. intros o p Ho.
  assert (∀ n, took_off n (queued (write_buf s)) (io s) p → output [] [] s (set_io p.2 (set_write_buf p.1 s))
    ∧ ready_to_write (set_io p.2 (set_write_buf p.1 s)) ∧ queued p.1 = drop n (queued (write_buf s))) as Hmove.
  { intros n Hn. destruct (moved_output n s p Hs Hn) as [Hout Hq]. split_and!; [done|by eapply output_ready|done]. }
  destruct o as [n|e| |]; try done.
  - destruct Ho as (Hn & Hoff & H0). destruct (Hmove _ Hoff) as (Hout & Hr & Hq). apply HQ; [done|done|].
    split_and!; [done|done|]. cbn. rewrite Hq. unfold zlen. rewrite length_drop. lia.
  - destruct (Hmove _ Ho) as (Hout & Hr & Hq). by apply HQ.
  - destruct (Hmove _ Ho) as (Hout & Hr & Hq). by apply HQ.
Qed.

Lemma flush_buf_spec (s : state) Q : ready_to_write s →
  (∀ o s', output [] [] s s' → ready_to_write s' →
    match o with Done _ => queued (write_buf s') = [] | Stuck => False | Fail _ | Wait => True end → Q o s') →
  wp flush_buf Q s.
Proof.
  intros Hs HQ. unfold flush_buf. rewrite wp_self. unfold buffering. rewrite wp_zoom.
  eapply wp_mono; [apply flush_spec, Hs|]. intros o p (n & m & Hnm & Hh & Hw & He & Ho).
  rewrite (proj2 Hs) in He. specialize (He eq_refl) as ->.
  destruct (moved_output n s p Hs (conj Hh Hw)) as [Hout Hq]. apply HQ; [done|by eapply output_ready|].
  cbn. rewrite Hq. by destruct o.
Qed.

(** A call that writes [d] past the queue, which is empty if [d] is not. *)
Lemma call_output {A} d (f : T → A * T) (s : state) : ready_to_write s → wrote_octets d (io s) (f (io s)).2 →
  (d ≠ [] → queued (write_buf s) = []) → output d [] s (set_io (f (io s)).2 s).
Proof.
  intros [Hv Hm] [Hp ? ? ? ? ? ?] Hd. split; cbn; rewrite ?app_nil_r; try done. rewrite Hp.
  destruct (decide (d = [])) as [->|Hne]; [by rewrite !app_nil_r|]. by rewrite (Hd Hne), app_nil_r.
Qed.

Lemma flushed_spec (s : state) Q : ready_to_write s →
  (∀ o s', output [] [] s s' → queued (write_buf s') = queued (write_buf s) → o ≠ Stuck → Q o s') → wp (await io_flush) Q s.
Proof.
  intros Hs HQ. rewrite wp_await.
  assert (output [] [] s (set_io (io_flush (io s)).2 s)) as Hout.
  { apply call_output; [done| |done]. eapply wrote_quiet; [apply past_flush|apply failed_quiet|apply vectored_flush]. }
  by destruct (io_flush (io s)).1 as [[u|e]|]; apply HQ.
Qed.

Lemma push_fields_spec l (s : state) Q : ready_to_write s →
  (∀ s', output (mjoin (map field_line l)) [] s s' → ready_to_write s' → Q (Done ()) s') →
  wp (push_fields with_capacity l) Q s.
Proof.
  revert s. induction l as [|[name value] l IH]; intros s Hs HQ; cbn [push_fields].
  { apply HQ; [by apply output_refl|done]. }
  rewrite wp_bind. apply push_copy_spec; [done|]. intros s1 H1 R1. cbn [andthen].
  rewrite wp_bind. apply push_spec; [done|]. intros s2 H2 R2. cbn [andthen].
  rewrite wp_bind. apply push_copy_spec; [done|]. intros s3 H3 R3. cbn [andthen].
  rewrite wp_bind. apply push_spec; [done|]. intros s4 H4 R4. cbn [andthen].
  apply IH; [done|]. intros s' H' R'. apply HQ; [|done].
  pose proof (output_more _ _ _ _ _ _ (output_more _ _ _ _ _ _ (output_more _ _ _ _ _ _ (output_more _ _ _ _ _ _ H1 H2) H3) H4) H') as H.
  change (mjoin (map field_line ((name, value) :: l))) with (field_line (name, value) ++ mjoin (map field_line l)).
  unfold field_line at 1. cbn [fst snd]. rewrite <- !app_assoc in *. exact H.
Qed.

Lemma push_trailers_spec m (s : state) Q : ready_to_write s →
  (∀ s', output (trailer_octets m) [] s s' → ready_to_write s' → Q (Done ()) s') → wp (push_trailers with_capacity m) Q s.
Proof.
  intros Hs HQ. unfold push_trailers. rewrite wp_bind. apply push_spec; [done|]. intros s1 H1 R1. cbn [andthen].
  rewrite wp_bind. apply push_fields_spec; [done|]. intros s2 H2 R2. cbn [andthen]. apply push_spec; [done|]. intros s3 H3 R3.
  apply HQ; [|done]. pose proof (output_more _ _ _ _ _ _ (output_more _ _ _ _ _ _ H1 H2) H3) as H.
  unfold trailer_octets. rewrite <- !app_assoc in *. exact H.
Qed.

Lemma push_data_spec chunked d (s : state) Q : ready_to_write s → d ≠ [] →
  (∀ s', output (data_octets chunked d) [] s s' → ready_to_write s' → Q (Done ()) s') → wp (push_data with_capacity chunked d) Q s.
Proof.
  intros Hs Hd. unfold push_data, data_octets. rewrite bool_decide_false by done. destruct chunked; intros HQ; [|by apply push_bytes_spec].
  rewrite wp_bind. apply push_copy_spec; [done|]. intros s1 H1 R1. cbn [andthen].
  rewrite wp_bind. apply push_bytes_spec; [done|]. intros s2 H2 R2. cbn [andthen]. apply push_spec; [done|]. intros s3 H3 R3.
  apply HQ; [|done]. pose proof (output_more _ _ _ _ _ _ (output_more _ _ _ _ _ _ H1 H2) H3) as H.
  rewrite <- !app_assoc in *. exact H.
Qed.

Lemma drain_batches_spec fuel (s : state) Q : ready_to_write s → (length (queued (write_buf s)) < fuel)%nat →
  (∀ o s', output [] [] s s' → ready_to_write s' → match o with
    | Done _ => zlen (queued (write_buf s')) < WRITE_BUF_BATCH_THRESHOLD | Stuck => False | Fail _ | Wait => True end → Q o s') →
  wp (drain_batches fuel) Q s.
Proof.
  revert s. induction fuel as [|fuel IH]; intros s Hs Hfuel HQ; [lia|]. cbn [drain_batches]. rewrite wp_self.
  unfold buf_len. rewrite (counted _ _ (proj1 Hs)). destruct (Z.ltb_spec (zlen (queued (write_buf s))) WRITE_BUF_BATCH_THRESHOLD) as [Hlt|Hge].
  { apply HQ; [by apply output_refl|done|done]. }
  rewrite wp_bind. apply write_some_spec; [done|]. intros o s1 H1 R1 Ho.
  destruct o as [n|e| |]; cbn [andthen]; [|by apply HQ..|done]. destruct Ho as (Hn & H0 & Hlen).
  destruct (Z.eqb_spec n 0) as [->|Hn0]; [by apply HQ|]. apply IH; [done|unfold zlen, WRITE_BUF_BATCH_THRESHOLD in *; lia|].
  intros o s' H' R' Ho. by apply HQ; [apply (output_more [] [] [] s s1 s')|..].
Qed.

(** ** The body *)

Lemma flush_ignored_spec (s : state) : ready_to_write s →
  wp (attempt (_ ← ignore flush_buf; ignore (await io_flush))) (λ o s', o = Done () ∧ output [] [] s s' ∧ ready_to_write s') s.
Proof.
  intros Hs. set (P := λ (o : outcome IoError ()) s', o ≠ Stuck ∧ output [] [] s s' ∧ ready_to_write s').
  enough (wp (_ ← ignore flush_buf; ignore (await io_flush)) P s) as H.
  { unfold wp, P, attempt in *. destruct ((_ ← ignore flush_buf; ignore (await io_flush)) s) as [[[]|e| |] s']; cbn in *; intuition done. }
  assert (∀ (m : http1 ()) R s0, wp m (λ o s', match o with Fail _ => R (Done ()) s' | o => R o s' end) s0 → wp (ignore m) R s0) as Hig.
  { intros m R s0. unfold wp, ignore. by destruct (m s0) as [[[]|e| |] s']. }
  assert (∀ s1 o, output [] [] s s1 → ready_to_write s1 → o ≠ Stuck → P o s1) as HP by by (intros; split_and!).
  rewrite wp_bind. apply Hig, flush_buf_spec; [done|]. intros o s1 H1 R1 Ho.
  assert (wp (ignore (await io_flush)) P s1) as Hf.
  { apply Hig, flushed_spec; [done|]. intros o' s2 H2 _ Ho'. pose proof (output_more [] [] [] _ _ _ H1 H2) as H.
    destruct o'; try done; apply HP; try done; by eapply output_ready. }
  destruct o as [[]|e| |]; cbn [andthen]; [exact Hf|exact Hf|by apply HP|done].
Qed.

(** The next frame: what was taken before it went out, if anything. *)
Lemma taken_output (s : state) : ready_to_write s →
  output [] (took (took_frame (next_frame (io s)).1)) s (set_io (next_frame (io s)).2 s).
Proof.
  intros [Hv Hm]. pose proof (past_frame (io s)) as Hp. pose proof (vectored_frame (io s)) as Hf.
  destruct (next_frame (io s)) as [r t']. cbn in *.
  assert (put (took_frame r) = [] ∧ got (took_frame r) = [] ∧ gave (took_frame r) = [] ∧ asked (took_frame r) = []
    ∧ replied (took_frame r) = []) as (E1 & E2 & E3 & E4 & E5).
  { by destruct r as [[[]|]|]. }
  split; cbn; rewrite ?Hp, ?put_app, ?got_app, ?gave_app, ?asked_app, ?took_app, ?replied_app, ?E1, ?E2, ?E3, ?E4, ?E5, ?app_nil_r; done.
Qed.

Lemma next_chunk_spec first_chunk (s : state) Q : ready_to_write s →
  (∀ o fs s', output [] fs s s' → ready_to_write s' →
    match o with Done (Some (Ok f)) => fs = [f] | Done _ | Wait => fs = [] | Fail _ | Stuck => False end → Q o s') →
  wp (next_chunk first_chunk) Q s.
Proof.
  intros Hs HQ. unfold next_chunk. rewrite wp_bind. unfold call_io at 1. unfold wp at 1. cbn [fst snd andthen].
  pose proof (taken_output s Hs) as H1. set (s1 := set_io (next_frame (io s)).2 s) in *. pose proof (output_ready _ _ _ _ H1 Hs) as R1.
  destruct (next_frame (io s)).1 as [c|] eqn:Er; [rewrite wp_ret; apply (HQ _ _ _ H1 R1); by destruct c as [[]|]|]. cbn in H1.
  assert (∀ s2, output [] [] s1 s2 → ready_to_write s2 → wp (ready (call_io next_frame)) Q s2) as Hlast.
  { intros s2 H2 R2. rewrite wp_ready. unfold call_io, wp. cbn. pose proof (taken_output s2 R2) as H3.
    pose proof (output_trans [] [] [] _ _ _ _ (output_more [] [] [] _ _ _ H1 H2) H3) as H. pose proof (output_ready _ _ _ _ H3 R2) as R.
    destruct (next_frame (io s2)).1 as [[[f|[]]|]|]; by apply (HQ _ _ _ H R). }
  destruct first_chunk; rewrite wp_bind; [rewrite wp_ret; apply Hlast; [by apply output_refl|done]|].
  eapply wp_mono; [by apply flush_ignored_spec|]. intros o s2 (-> & H2 & R2). by apply Hlast.
Qed.

Lemma frame_octets_cons chunked wt d fs :
  frame_octets chunked wt (DataFrame d :: fs) = (data_octets chunked d ++ (frame_octets chunked wt fs).1, (frame_octets chunked wt fs).2).
Proof. cbn. by destruct (frame_octets chunked wt fs). Qed.

Lemma write_body_spec fuel chunked wt first_chunk (s : state) : ready_to_write s →
  wp (write_body with_capacity fuel chunked wt first_chunk) (λ o s', ∃ fs d, output d fs s s' ∧ ready_to_write s' ∧
    match o with
    | Done t => frame_octets chunked wt fs = (d, t)
    | Stuck => (fuel ≤ length fs)%nat
    | Fail _ | Wait => d `prefix_of` (frame_octets chunked wt fs).1
    end) s.
Proof.
  revert first_chunk s. induction fuel as [|fuel IH]; intros first_chunk s Hs; cbn [write_body].
  { exists [], []. split_and!; [by apply output_refl|done|cbn; lia]. }
  rewrite wp_bind. apply next_chunk_spec; [done|]. intros o fs s1 H1 R1 Ho.
  destruct o as [[[[d|m]|[]]|]|e| |]; cbn [andthen]; try done; subst fs.
  2:{ destruct wt; [|by exists [TrailersFrame m], []]. rewrite wp_bind. apply push_trailers_spec; [done|]. intros s2 H2 R2.
      exists [TrailersFrame m], (trailer_octets m). split_and!; [by apply (output_more [] _ _ _ _ _ H1 H2)|done|done]. }
  2-4: exists [], []; split; [exact H1|split; [exact R1|]]; first [done|apply prefix_nil].
  assert (∀ fs e s', output e fs s1 s' → output e (DataFrame d :: fs) s s') as Hstep.
  { intros fs e s' H'. exact (output_trans [] [DataFrame d] e fs _ _ _ H1 H'). }
  destruct (bool_decide_reflect (d = [])) as [->|Hd].
  { eapply wp_mono; [by apply IH|]. intros o s' (fs & e & H' & R' & Ho). exists (DataFrame [] :: fs), e.
    split_and!; [by apply Hstep|done|]. rewrite frame_octets_cons. destruct o; try done; [by rewrite Ho|cbn; lia]. }
  rewrite wp_bind. apply push_data_spec; [done|done|]. intros s2 H2 R2. cbn [andthen]. rewrite wp_self, wp_bind.
  apply drain_batches_spec; [done|unfold buf_len; rewrite (counted _ _ (proj1 R2)); unfold zlen; lia|]. intros o s3 H3 R3 Ho.
  pose proof (output_more _ _ _ _ _ _ H2 H3) as H. rewrite app_nil_r in H.
  assert (data_octets chunked d `prefix_of` (frame_octets chunked wt [DataFrame d]).1) as Hpre.
  { rewrite frame_octets_cons. by apply prefix_app_r. }
  destruct o as [[]|e| |]; cbn [andthen]; try done; [|exists [DataFrame d], (data_octets chunked d); split_and!; [by apply Hstep|done|done]..].
  eapply wp_mono; [by apply IH|]. intros o s' (fs & e & H' & R' & Ho'). exists (DataFrame d :: fs), (data_octets chunked d ++ e).
  split_and!; [apply Hstep, (output_trans _ [] _ fs _ _ _ H H')|done|]. rewrite frame_octets_cons.
  destruct o; [by rewrite Ho'|by apply prefix_app..|cbn; lia].
Qed.

(** ** The response *)

(** Only the cached date changes. *)
Lemma add_fields_spec r (s : state) : wp (add_fields r) (λ o s', (∃ d, s' = set_date d s) ∧ o ≠ Wait ∧ o ≠ Stuck) s.
Proof.
  assert (s = set_date (date_cached s) s) as Hid by by destruct s.
  assert (wp get_date_header_value (λ o s', (∃ d, s' = set_date d s) ∧ o ≠ Wait ∧ o ≠ Stuck) s) as Hdate.
  { unfold get_date_header_value. rewrite wp_self, wp_bind. set (fresh := match _ with Some _ => _ | None => false end).
    destruct fresh; [rewrite wp_ret|unfold modify, wp; cbn]; split_and!; try done; by eexists. }
  unfold add_fields. rewrite wp_self, wp_bind. destruct (send_date_header (options s)).
  2:{ rewrite wp_ret. cbn [andthen]. rewrite wp_ret. split_and!; try done. by eexists. }
  rewrite wp_bind. eapply wp_mono; [exact Hdate|]. intros o s1 (Hd & Hw & Hs). destruct o as [x|e| |]; cbn [andthen]; [|by split_and!..].
  rewrite wp_bind, wp_lift. destruct (header_value_from_str x); cbn [ok_or andthen]; [|by split_and!].
  rewrite wp_ret. cbn [andthen]. rewrite wp_ret. by split_and!.
Qed.

(** The length of the file that is sent instead of the body. *)
Definition file_length (t : T) (chunked : bool) (r : Response) : option Z :=
  if negb chunked && rs_file r && zerocopy_enabled t then content_length (frame_headers (rs_headers r)) else None.

Definition head_octets (version : Version) (r : Response) : bytes :=
  response_head version (rs_status r) (frame_headers (rs_headers r)).

Lemma content_length_nonneg m n : content_length m = Some n → 0 ≤ n.
Proof.
  unfold content_length. destruct (header_get m _) as [v|]; cbn; [|done]. destruct (header_to_str v) as [x|]; cbn; [|done].
  intros H. apply from_str_radix_nonneg in H; lia.
Qed.

(** What [write_response] means to send after the head, [fs] being the frames of
    the body it took.  Of a file in answer to HEAD nothing is said. *)
Definition body_sent (t : T) (r : Response) (write_trailers is_head : bool) (fs : list BodyFrame) (d : bytes) : Prop :=
  let chunked := is_chunked (rs_headers r) && negb is_head in
  match file_length t chunked r with
  | Some len => fs = [] ∧ (is_head = false → zlen d = len)
  | None => if is_head then fs = [] ∧ d = [] else d = body_octets chunked write_trailers fs
  end.
Definition body_partly (t : T) (r : Response) (write_trailers is_head : bool) (fs : list BodyFrame) (d : bytes) : Prop :=
  let chunked := is_chunked (rs_headers r) && negb is_head in
  match file_length t chunked r with
  | Some len => fs = [] ∧ (is_head = false → zlen d ≤ len)
  | None => if is_head then fs = [] ∧ d = [] else d `prefix_of` body_octets chunked write_trailers fs
  end.

Definition responded (version : Version) (write_trailers is_head : bool) (fuel : nat) (r : Response) (s : state)
    (o : outcome IoError ()) (s' : state) : Prop :=
  ∃ fs d, output (head_octets version r ++ d) fs s s' ∧ ready_to_write s' ∧
    match o with
    | Done _ => queued (write_buf s') = [] ∧ body_sent (io s) r write_trailers is_head fs d
    | Stuck => (fuel ≤ length fs)%nat
    | Fail _ | Wait => body_partly (io s) r write_trailers is_head fs d
    end.

(** The end of every response: the queue and the stream are flushed. *)
Lemma flush_all_spec (s : state) : ready_to_write s →
  wp (_ ← flush_buf; await io_flush) (λ o s', output [] [] s s' ∧ ready_to_write s' ∧ o ≠ Stuck
    ∧ match o with Done _ => queued (write_buf s') = [] | _ => True end) s.
Proof.
  intros Hs. rewrite wp_bind. apply flush_buf_spec; [done|]. intros o s1 H1 R1 Ho. destruct o as [[]|e| |]; cbn [andthen]; try done.
  apply flushed_spec; [done|]. intros o s2 H2 Hq Hne. split_and!; [exact (output_more [] [] [] _ _ _ H1 H2)|by eapply output_ready|done|].
  destruct o; [congruence|done..].
Qed.

Lemma send_file_spec len (s : state) : ready_to_write s → 0 ≤ len →
  wp (_ ← flush_buf; _ ← await (send_file len); await io_flush) (λ o s', ∃ d, output d [] s s' ∧ ready_to_write s' ∧
    match o with Done _ => queued (write_buf s') = [] ∧ zlen d = len | Stuck => False | Fail _ | Wait => zlen d ≤ len end) s.
Proof.
  intros Hs Hlen. rewrite wp_bind. apply flush_buf_spec; [done|]. intros o s1 H1 R1 Ho.
  destruct o as [[]|e| |]; cbn [andthen]; try done; [|by exists []..]. rewrite wp_bind, wp_await.
  destruct (past_file len (io s1)) as (d & Hp & Hmost & Hall). rewrite Z.max_r in Hmost by done.
  assert (output d [] s1 (set_io (send_file len (io s1)).2 s1)) as H2.
  { apply call_output; [done| |done]. eapply wrote_some; [exact Hp|apply failed_quiet|apply vectored_file]. }
  pose proof (output_trans [] [] d [] _ _ _ H1 H2) as H. pose proof (output_ready _ _ _ _ H2 R1) as R2.
  destruct (send_file len (io s1)).1 as [[u|e]|] eqn:Er; cbn [andthen]; [|by exists d..].
  apply flushed_spec; [done|]. intros o s3 H3 Hq Hne. exists d.
  split_and!; [rewrite <- (app_nil_r d); exact (output_more _ _ _ _ _ _ H H3)|by eapply output_ready|]. cbn in Hq. rewrite Ho in Hq. destruct o; try done.
  split; [done|]. by apply (Hall u).
Qed.

(** The body behind a head that is queued. *)
Definition send_body (fuel : nat) (chunked write_trailers is_head : bool) : http1 () :=
  _ ← (if is_head then mret ()
       else
         trailers_written ← write_body with_capacity fuel chunked write_trailers true;
         if chunked && negb trailers_written then enqueue (push (b "0" ++ CRLF_CRLF)) else mret ());
  _ ← flush_buf;
  await io_flush.

Lemma send_body_spec fuel chunked wt is_head (s : state) : ready_to_write s →
  wp (send_body fuel chunked wt is_head) (λ o s', ∃ fs d, output d fs s s' ∧ ready_to_write s' ∧
    let means := if is_head then [] else body_octets chunked wt fs in
    match o with
    | Done _ => queued (write_buf s') = [] ∧ d = means
    | Stuck => (fuel ≤ length fs)%nat
    | Fail _ | Wait => d `prefix_of` means
    end ∧ (is_head = true → fs = [])) s.
Proof.
  intros Hs. unfold send_body. rewrite wp_bind.
  assert (∀ fs d s1, output d fs s s1 → ready_to_write s1 → d = (if is_head then [] else body_octets chunked wt fs) →
    (is_head = true → fs = []) →
    andthen (λ _ : (), _ ← flush_buf; await io_flush) (λ o s', ∃ fs d, output d fs s s' ∧ ready_to_write s' ∧
    let means := if is_head then [] else body_octets chunked wt fs in
    match o with Done _ => queued (write_buf s') = [] ∧ d = means | Stuck => (fuel ≤ length fs)%nat | Fail _ | Wait => d `prefix_of` means end
    ∧ (is_head = true → fs = [])) (Done ()) s1) as Hend.
  { intros fs d s1 H1 R1 Hd Hh. cbn [andthen]. eapply wp_mono; [by apply flush_all_spec|]. intros o s2 (H2 & R2 & Ho & Hq).
    exists fs, d. split; [rewrite <- (app_nil_r d); by eapply output_more|]. split; [done|]. split; [|done].
    destruct o; try done; cbn; by rewrite Hd. }
  destruct is_head. { rewrite wp_ret. apply (Hend [] []); [by apply output_refl|done..]. }
  rewrite wp_bind. eapply wp_mono; [by apply write_body_spec|]. intros o s1 (fs & d & H1 & R1 & Ho).
  assert ((frame_octets chunked wt fs).1 `prefix_of` body_octets chunked wt fs) as Hpre.
  { unfold body_octets. destruct (frame_octets chunked wt fs) as [l t]. by apply prefix_app_r. }
  destruct o as [t|e| |]; cbn [andthen]; [|exists fs, d; (split; [done|]); (split; [done|]); (split; [|done]); cbn; try done; by etransitivity..].
  assert (body_octets chunked wt fs = d ++ if chunked && negb t then b "0" ++ CRLF_CRLF else []) as Hbody.
  { unfold body_octets. by rewrite Ho. }
  destruct (chunked && negb t).
  - apply push_spec; [done|]. intros s2 H2 R2. apply (Hend fs (d ++ (b "0" ++ CRLF_CRLF))); [by eapply output_more|done|by rewrite Hbody|done].
  - rewrite wp_ret. apply (Hend fs d); [done|done|by rewrite Hbody, app_nil_r|done].
Qed.

Lemma write_response_spec fuel r0 version wt is_head (s : state) : ready_to_write s →
  wp (write_response with_capacity fuel r0 version wt is_head) (λ o s',
    match (add_fields r0 s).1 with
    | Done r => responded version wt is_head fuel r s o s'
    | e => o = match e with Fail x => Fail x | _ => Stuck end ∧ output [] [] s s'
    end) s.
Proof.
  intros Hs. unfold write_response. rewrite wp_bind. pose proof (add_fields_spec r0 s) as Hadd. unfold wp in Hadd.
  unfold wp at 1. destruct (add_fields r0 s) as [o s1]. cbn [fst snd] in *. destruct Hadd as ((date & ->) & Hw & Hst).
  assert (output [] [] s (set_date date s)) as H1 by (destruct Hs; by split; cbn; rewrite ?app_nil_r).
  destruct o as [r|e| |]; cbn [andthen]; try done. pose proof (output_ready _ _ _ _ H1 Hs) as R1.
  rewrite wp_bind. set (chunked := is_chunked (rs_headers r) && negb is_head).
  pose proof (λ Q, enqueue_spec (push (head_octets version r)) (head_octets version r) (set_date date s) Q R1) as Hpush.
  assert (wp (enqueue (push (head_octets version r))) (λ o s2, o = Done () ∧ output (head_octets version r) [] s s2 ∧ ready_to_write s2
    ∧ io s2 = io s) (set_date date s)) as Hhead.
  { pose proof (Hpush (λ o s2, o = Done () ∧ output (head_octets version r) [] s s2 ∧ ready_to_write s2)) as H.
    unfold enqueue, modify, wp in *. cbn in *. split; [done|]. split_and!; [..|done]; apply H; try (intros w l; apply push_holds);
      intros s' H2 R2; (split_and!; [done|exact (output_trans [] [] _ [] _ _ _ H1 H2)|done]). }
  eapply wp_mono; [exact Hhead|]. intros o s2 (-> & H2 & R2 & Hio). cbn [andthen]. rewrite wp_self.
  fold (file_length (io s2) chunked r). rewrite Hio. unfold responded, body_sent, body_partly. fold chunked.
  destruct (file_length (io s) chunked r) as [len|] eqn:Hfile.
  - assert (0 ≤ len) as Hlen.
    { unfold file_length in Hfile. destruct (_ && _ && _); [|done]. by eapply content_length_nonneg. }
    eapply wp_mono; [by apply send_file_spec|]. intros o s3 (d & H3 & R3 & Ho). exists [], d.
    split; [exact (output_trans _ [] _ [] _ _ _ H2 H3)|]. split; [done|]. destruct o; try done. by destruct Ho.
  - change (wp (send_body fuel chunked wt is_head) (λ o s', ∃ fs d, output (head_octets version r ++ d) fs s s' ∧ ready_to_write s' ∧
      match o with Done _ => queued (write_buf s') = [] ∧ (if is_head then fs = [] ∧ d = [] else d = body_octets chunked wt fs)
      | Stuck => (fuel ≤ length fs)%nat | Fail _ | Wait => if is_head then fs = [] ∧ d = [] else d `prefix_of` body_octets chunked wt fs end) s2).
    eapply wp_mono; [by apply send_body_spec|]. intros o s3 (fs & d & H3 & R3 & Ho & Hh). exists fs, d.
    split; [exact (output_trans _ [] _ fs _ _ _ H2 H3)|]. split; [done|]. destruct is_head; [|by destruct o].
    specialize (Hh eq_refl). destruct o; try done; [by destruct Ho|split; [done|by apply prefix_nil_inv]..].
Qed.
End spec.

(** C14. A response goes out whole, in order and once.  On a stream with vectored
    writes, whatever [write_response] returns, the stream and the write buffer
    together have got the octets of the head and then octets of the body: when
    it succeeds the buffer is empty and they are all of the body, its frames
    framed as they were taken, or as many octets of a zero-copy file as
    Content-Length announces, or nothing for HEAD; when it fails or waits they
    are a first part of the framed body, or no more of the file than announced.
    Where a file and HEAD meet nothing is said of what follows the head (the code
    sends the file there).  It can only go on for as long as the body has frames,
    and when the Date field cannot be made nothing was written. *)
Theorem response_on_wire (with_capacity : Z → Z) (Hcap : ∀ n, n ≤ with_capacity n)
  `{HT : Http} `{HC : !H1Crates} {T : Type} `{HI : !Io T} `{HR : !RecordedIo T} `{HS : !Service T} `{HRS : !RecordedService T}
  fuel response version write_trailers is_head (s : Http1 T) (Hs : ready_to_write s) :
  let '(o, s') := write_response with_capacity fuel response version write_trailers is_head s in
  match (add_fields response s).1 with
  | Done r => responded version write_trailers is_head fuel r s o s'
  | Fail e => o = Fail e ∧ output [] [] s s'
  | Wait | Stuck => False
  end.
Proof.
  pose proof (write_response_spec with_capacity Hcap fuel response version write_trailers is_head s Hs) as H.
  pose proof (add_fields_spec response s) as Ha. unfold wp in *.
  destruct (write_response with_capacity fuel response version write_trailers is_head s) as [o s'].
  destruct (add_fields response s) as [[r|e| |] s1]; cbn in *; try exact H; by destruct Ha as (_ & ? & ?).
Qed.

(** A body that is not ready at once, on a stream that takes eleven octets. *)
Definition hello_body : Playback (HT := plain_http) :=
  MkPlayback [] [Takes 11] true false [] [] [Ready (Some (Ok (DataFrame (b "hello")))); Pending; Ready (Some (Ok (DataFrame (b "you"))))] [] false false.
Definition no_date : Http1Options := MkOptions 16384 128 false None true false true.
Definition hello : Response := MkResponse 200 [] None false.

Lemma response_on_wire_witness :
  let '(o, s') := write_response (λ n, n) 9 hello HTTP_11 false false (new_http1 hello_body no_date) in
  o = Done () ∧ put (past (io s')) = b "HTTP/1.1 200 OK" ++ CRLF ++ b "transfer-encoding: chunked" ++ CRLF_CRLF
    ++ b "5" ++ CRLF ++ b "hello" ++ CRLF ++ b "3" ++ CRLF ++ b "you" ++ CRLF ++ b "0" ++ CRLF_CRLF
  ∧ responded HTTP_11 false false 9 hello (new_http1 hello_body no_date) o s'.
Proof.
  assert (ready_to_write (new_http1 hello_body no_date)) as Hs by (split; [apply new_write_buf_holds|reflexivity]).
  pose proof (response_on_wire (λ n, n) Z.le_refl 9 hello HTTP_11 false false (new_http1 hello_body no_date) Hs) as H.
  destruct (write_response (λ n, n) 9 hello HTTP_11 false false (new_http1 hello_body no_date)) as [o s'] eqn:E.
  vm_compute in E. injection E as <- <-. do 2 (split; [vm_compute; reflexivity|]). exact H.
Defined.
