(* ===== verification/H1Chunks.v ===== *)
(** * The chunks a response is sent in

    What [write_response] writes for a chunked body is what the grammar of
    chunked bodies reads: the same chunks, the end of the body where it was
    meant, and nothing of what follows. *)

From S2P Require Import Prelude Poll H2Request H1Io H1WriteBuf H1Wire H1State H1Plain H1Read H1ReadSpec H1Body H1Write H1WriteSpec.

Definition plain_digit (x : byte) : Prop := in_range 0x30 0x39 x || in_range 0x41 0x46 x = true.

Lemma find_line pre k : Forall plain_digit pre → find (pre ++ CRLF ++ k) CRLF = Some (zlen pre).
Proof.
  intros Hp. unfold find. rewrite <- (Z.add_0_l (zlen pre)). generalize 0. induction Hp as [|x pre Hx Hp IH]; intros i.
  { cbn. by rewrite Z.add_0_r. }
  change ((x :: pre) ++ CRLF ++ k) with (x :: (pre ++ CRLF ++ k)). cbn [find_loop]. rewrite bool_decide_false.
  - rewrite IH, zlen_cons. f_equal. lia.
  - unfold plain_digit, in_range in Hx. cbn. intros [= -> _]. lia.
Qed.

Lemma digits_utf8 l : Forall plain_digit l → from_utf8 l = true.
Proof.
  induction 1 as [|x l Hx Hl IH]; [done|]. cbn. unfold plain_digit in Hx.
  assert (in_range 0 0x7f x = true) as -> by (unfold in_range in *; lia). exact IH.
Qed.

(** A size line and what follows it. *)
Lemma scan_size_line digits n k : Forall plain_digit digits → (length digits ≤ 16)%nat → from_str_radix 16 digits = Some n →
  scan_size (digits ++ CRLF ++ k) = SizeAt (zlen digits + 2) n.
Proof.
  intros Hd Hlen Hn. unfold scan_size.
  assert (take 48 (digits ++ CRLF ++ k) = digits ++ CRLF ++ take (46 - length digits) k) as ->.
  { rewrite take_app_ge by lia. f_equal. rewrite take_app_ge by (change (length CRLF) with 2%nat; lia). do 2 f_equal. change (length CRLF) with 2%nat. lia. }
  rewrite (find_line _ _ Hd).
  assert (take (Z.to_nat (zlen digits)) (digits ++ CRLF ++ k) = digits) as -> by (unfold zlen; rewrite Nat2Z.id; apply take_app_length).
  by rewrite (digits_utf8 _ Hd), Hn.
Qed.

Lemma scan_data tr d k : d ≠ [] → zlen d + 2 ≤ u64_max →
  scan_chunk tr (write_chunk_size (zlen d) ++ d ++ CRLF ++ k) = ChunkAt d (zlen (write_chunk_size (zlen d)) + zlen d + 2).
Proof.
  intros Hd Hmax. assert (0 < zlen d) as Hpos by by apply zlen_pos.
  destruct (chunk_digits_spec (zlen d)) as (Hr & _ & Hp); [lia|].
  pose proof (hex_loop_length 16 (zlen d) []) as Hl. rewrite Nat.add_0_r in Hl. fold (chunk_digits (zlen d)) in Hl.
  unfold write_chunk_size. fold (chunk_digits (zlen d)). set (digits := chunk_digits (zlen d)) in *.
  rewrite <- (app_assoc digits). unfold scan_chunk. rewrite (scan_size_line _ _ _ Hp Hl Hr).
  replace (zlen d =? 0) with false by lia. replace (u64_max <? zlen d + 2) with false by lia. cbn [andb].
  rewrite zlen_app. change (zlen CRLF) with 2.
  rewrite !zlen_app. change (zlen CRLF) with 2. pose proof (zlen_nonneg k).
  replace (zlen digits + 2 + zlen d + 2 <=? zlen digits + (2 + (zlen d + (2 + zlen k)))) with true by lia. f_equal.
  rewrite (app_assoc digits). rewrite drop_app_length' by (rewrite length_app; change (length CRLF) with 2%nat; unfold zlen; lia).
  apply take_app_length'. unfold zlen. lia.
Qed.

Lemma drop_chunk (line d k : bytes) : drop (Z.to_nat (zlen line + zlen d + 2)) (line ++ d ++ CRLF ++ k) = k.
Proof.
  rewrite (app_assoc d), app_assoc. apply drop_app_length'. rewrite !length_app. change (length CRLF) with 2%nat. unfold zlen. lia.
Qed.

Lemma scan_last tr k : scan_chunk tr (b "0" ++ CRLF ++ (if tr then k else CRLF ++ k)) = ChunkAt [] (if tr then 3 else 5).
Proof.
  unfold scan_chunk. rewrite (scan_size_line (b "0") 0); [|change (b "0") with [0x30]; apply Forall_singleton; done|change (length (b "0")) with 1%nat; lia|done].
  destruct tr; [done|]. cbn [Z.eqb andb]. rewrite !zlen_app. pose proof (zlen_nonneg k).
  change (zlen (b "0")) with 1. change (zlen CRLF) with 2. replace (u64_max <? 0 + 2) with false by done.
  by replace (1 + 2 + 0 + 2 <=? 1 + (2 + (2 + zlen k))) with true by lia.
Qed.

Section chunks.
Context `{HT : Http} `{HC : !H1Crates}.

(** The data of a body, and the trailers that end it. *)
Fixpoint data_of (fs : list BodyFrame) : list bytes :=
  match fs with
  | DataFrame d :: fs => if bool_decide (d = []) then data_of fs else d :: data_of fs
  | _ => []
  end.
Fixpoint trailers_of (fs : list BodyFrame) : option HeaderMap :=
  match fs with
  | DataFrame _ :: fs => trailers_of fs
  | TrailersFrame m :: _ => Some m
  | [] => None
  end.

(** What stands behind the data. *)
Definition body_close (write_trailers : bool) (fs : list BodyFrame) : bytes :=
  match trailers_of fs with
  | Some m => if write_trailers then trailer_octets m else b "0" ++ CRLF_CRLF
  | None => b "0" ++ CRLF_CRLF
  end.

Definition small_frames (fs : list BodyFrame) : Prop := Forall (λ f, match f with DataFrame d => zlen d + 2 ≤ u64_max | _ => True end) fs.

Lemma data_run tr wt fs k : small_frames fs →
  chunk_run tr (body_octets true wt fs ++ k) (data_of fs) (body_close wt fs ++ k).
Proof.
  unfold body_octets. induction 1 as [|f fs Hf Hfs IH]; [apply run_none|]. destruct f as [d|m].
  2:{ cbn. unfold body_close. cbn. destruct wt; cbn [negb andb]; rewrite ?app_nil_r; apply run_none. }
  rewrite frame_octets_cons. destruct (frame_octets true wt fs) as [l t] eqn:E. cbn [fst snd].
  change (body_close wt (DataFrame d :: fs)) with (body_close wt fs). cbn [data_of]. unfold data_octets.
  destruct (bool_decide_reflect (d = [])) as [->|Hd]; [exact IH|].
  rewrite <- !app_assoc. eapply run_chunk; [by apply scan_data|done|].
  rewrite drop_chunk. rewrite <- app_assoc in IH. exact IH.
Qed.
End chunks.

(** C20. A chunked response can be read back.  At the start of what is written for
    the frames of a body, followed by anything, the grammar of chunked bodies
    finds exactly the data of the frames that are not empty, chunk by chunk; the
    chunk of size zero comes next, and behind it the octets that follow, or the
    fields of the trailers, an empty line and the octets that follow. *)
Theorem chunked_roundtrip `{HT : Http} `{HC : !H1Crates} write_trailers fs more (Hsmall : small_frames fs) :
  let mid := body_close write_trailers fs ++ more in
  chunk_run false (body_octets true write_trailers fs ++ more) (data_of fs) mid
  ∧ chunk_run true (body_octets true write_trailers fs ++ more) (data_of fs) mid
  ∧ match trailers_of fs, write_trailers with
    | Some m, true => scan_chunk true mid = ChunkAt [] 3 ∧ drop 3 mid = mjoin (map field_line (header_iter m)) ++ CRLF ++ more
    | _, _ => scan_chunk false mid = ChunkAt [] 5 ∧ drop 5 mid = more
    end.
Proof.
  split; [by apply data_run|]. split; [by apply data_run|]. unfold body_close.
  assert (∀ k, scan_chunk false ((b "0" ++ CRLF_CRLF) ++ k) = ChunkAt [] 5 ∧ drop 5 ((b "0" ++ CRLF_CRLF) ++ k) = k) as Hno.
  { intros k. split; [apply (scan_last false)|done]. }
  destruct (trailers_of fs) as [m|]; [|apply Hno]. destruct write_trailers; [|apply Hno]. unfold trailer_octets.
  rewrite <- !app_assoc. split; [apply (scan_last true)|done].
Qed.

Definition wiki_trailers : HeaderMap (Http := plain_http) := [(b "Vary", b "*")].
Definition wiki_body : list BodyFrame :=
  [DataFrame (b "Wiki"); DataFrame []; DataFrame (b "pedia in chunks."); TrailersFrame wiki_trailers].

Lemma chunked_roundtrip_witness :
  body_octets true true wiki_body = b "4" ++ CRLF ++ b "Wiki" ++ CRLF ++ b "10" ++ CRLF ++ b "pedia in chunks." ++ CRLF
    ++ b "0" ++ CRLF ++ b "vary: *" ++ CRLF_CRLF
  ∧ chunk_run true (body_octets true true wiki_body ++ b "GET") [b "Wiki"; b "pedia in chunks."] (body_close true wiki_body ++ b "GET").
Proof.
  split; [vm_compute; reflexivity|].
  apply (chunked_roundtrip true wiki_body (b "GET")). repeat constructor; vm_compute; discriminate.
Defined.
