(* ===== verification/H1Connection.v ===== *)
(** * The loop of an HTTP/1 connection (src/src/h1/mod.rs, src/src/upgrade.rs)

    [handle_with_error_fn_and_zerocopy]: one turn reads a request, runs the
    handler while the body is read, and writes the response.  Reading the body
    and the handler are polled together, and the response is written when both
    are done, so the one is run before the other is awaited; what the handler
    sees of the body meanwhile is in the answers of [Io] and [Service].

    [exchange] is the turn of a connection whose options do not enable early
    hints ([enable_early_hints], off in [new_options]): with them on, a third
    future writes a [103] whenever the handler asks for one while the body is
    read, and is dropped where it stands when the response is there. *)

From S2P Require Import Prelude Poll H2Request H1Io H1WriteBuf H1Wire H1State H1Read H1Write.

(** Why a turn has no request. *)
Inductive head_read `{HT : Http} : Type :=
| GotRequest (r : Request) (send_continue_body : bool)
| StreamEnd
| ReadError (e : IoError)
| ShutDown
| Elapsed.

(** How a connection ends without an error: [HandedOver] is an upgrade, with the
    octets that were read ahead. *)
Inductive ending : Type :=
| Ended
| HandedOver (read_ahead : option bytes).

(** [Err(io::Error)] of an elapsed header timeout. *)
Definition header_read_elapsed : IoError := MkIoError TimedOut "header read timeout".

Section headers.
Context `{HT : Http} `{HC : !H1Crates}.

(** [headers().get(name).and_then(|v| v.to_str().ok())]. *)
Definition header_str (m : HeaderMap) (name : bytes) : option bytes := v ← header_get m name; header_to_str v.
Definition header_has (m : HeaderMap) (name token : bytes) : bool :=
  match header_str m name with Some v => has_token token v | None => false end.

(** [keep_alive] for a request. *)
Definition keeps_alive (r : Request) : bool :=
  negb (header_has (rq_headers r) (b "connection") (b "close"))
  && (header_has (rq_headers r) (b "connection") (b "keep-alive") || bool_decide (rq_version r = HTTP_11)).

Definition request_length (r : Request) : Z := default 0 (content_length (rq_headers r)).
Definition request_chunked (r : Request) : bool := header_has (rq_headers r) (b "transfer-encoding") (b "chunked").
Definition has_trailers (r : Request) : bool :=
  match header_str (rq_headers r) (b "trailer") with Some v => bool_decide (v ≠ []) | None => false end.
Definition write_trailers (r : Request) : bool := header_has (rq_headers r) (b "te") (b "trailers").

(** The Connection field a response gets. *)
Definition connection_field (was_upgraded keep_alive : bool) (version : Version) (m : HeaderMap) : option bytes :=
  let present := bool_decide (header_get m (b "connection") ≠ None) in
  if was_upgraded then Some (b "upgrade")
  else if keep_alive then (if bool_decide (version = HTTP_10) || present then Some (b "keep-alive") else None)
  else if bool_decide (version = HTTP_11) || present then Some (b "close") else None.

Definition with_connection (value : option bytes) (r : Response) : Response :=
  match value with
  | Some v => with_headers r (header_insert (rs_headers r) (b "connection") (header_value_unchecked v))
  | None => r
  end.

(** [is_client_error] and [is_server_error]. *)
Definition is_error_status (status : Z) : bool := in_range 400 599 status.
End headers.

Section connection.
Context (with_capacity : Z → Z).
Context `{HT : Http} `{HC : !H1Crates} {T : Type} `{HI : !Io T} `{HS : !Service T}.

Abbreviation http1 := (op (Http1 T) IoError).

(** Whether the token is found cancelled before a read. *)
Definition shut_down (s : Http1 T) : bool :=
  match header_read_timeout (options s) with Some _ => cancel_token s && is_cancelled (io s) | None => false end.

(** The request, unless the wait for it is given up: with a header timeout, when
    it elapses or the token is cancelled.  [run_until_cancelled] looks at the
    token before it reads; without a header timeout nobody looks at it. *)
Definition next_request (fuel : nat) : http1 head_read := λ s,
  if shut_down s then (Done ShutDown, s)
  else match read_request fuel s with
  | (Done (Some (r, expect)), s) => (Done (GotRequest r expect), s)
  | (Done None, s) => (Done StreamEnd, s)
  | (Fail e, s) => (Done (ReadError e), s)
  | (Stuck, s) => (Stuck, s)
  | (Wait, s) =>
      if header_read_timeout (options s) is None then (Wait, s)
      else (i ← ready (call_io interruption);
        match i with
        | TimedOut_ => mret Elapsed
        | Cancelled_ => if cancel_token s then mret ShutDown else wait
        end) s
  end.

(** The errors of a peer that closes an idle connection. *)
Definition abrupt (e : IoError) : bool :=
  match error_kind e with BrokenPipe | ConnectionReset | ConnectionAborted | UnexpectedEof => true | _ => false end.

(** [error_fn] and its response, whose errors are dropped. *)
Definition write_error (fuel : nat) (timeout : bool) : http1 () :=
  response ← ready (call_io (error_response timeout));
  match response with
  | Ok response => ignore (write_response with_capacity fuel (with_connection (Some (b "close")) response) HTTP_11 false false)
  | Err _ => mret ()
  end.

(** The body of a request, while the handler runs. *)
Definition read_request_body (fuel : nat) (r : Request) (send_continue_body : bool) : http1 bool :=
  if request_chunked r then read_chunked_body_fn fuel (has_trailers r) send_continue_body false (rq_version r)
  else read_body_fn fuel (request_length r) send_continue_body false (rq_version r).

(** What a turn does with a request; the flag says whether it was an upgrade. *)
Definition exchange (fuel : nat) (r : Request) (send_continue_body : bool) : http1 bool :=
  _ ← modify (λ s, set_io (dispatch r (io s)) s);
  continue_sent ← read_request_body fuel r send_continue_body;
  response ← ready (call_io respond);
  response ← lift (λ _, parse_error Other) response;
  _ ← (if negb continue_sent && send_continue_body && negb (is_error_status (rs_status response))
       then write_100_continue (rq_version r) else mret ());
  s ← self;
  let upgraded := was_upgraded (io s) in
  let response := with_connection (connection_field upgraded (keeps_alive r) (rq_version r) (rs_headers response)) response in
  _ ← write_response with_capacity fuel response (rq_version r) (write_trailers r) (is_head_method (rq_method r));
  mret upgraded.

(** [while keep_alive]. *)
Fixpoint handle_loop (turns fuel : nat) (keep_alive : bool) : http1 ending :=
  if keep_alive then
    match turns with
    | O => stuck
    | S turns =>
        read ← next_request fuel;
        s ← self;
        match read with
        | StreamEnd | ShutDown => mret Ended
        | ReadError e =>
            if connection_idle s && abrupt e then mret Ended
            else _ ← write_error fuel false; fail e
        | Elapsed =>
            if connection_idle s then mret Ended
            else _ ← write_error fuel true; fail header_read_elapsed
        | GotRequest r send_continue_body =>
            upgraded ← exchange fuel r send_continue_body;
            s ← self;
            if (upgraded : bool) then mret (HandedOver (if bool_decide (read_buf s = []) then None else Some (read_buf s)))
            else if cancel_token s && is_cancelled (io s) then mret Ended
            else _ ← modify (set_idle true); handle_loop turns fuel (keeps_alive r)
        end
    end
  else mret Ended.
Definition handle (fuel : nat) : http1 ending := handle_loop fuel fuel true.
End connection.
