(* ===== verification/H1Effects.v ===== *)
(** * What the steps of a connection leave alone

    Preorders of states that hold of whole operations because they hold of
    every call they make: reading asks nothing of the application and takes no
    frame of a response, and what it uses up of the stream are the octets it
    gets; writing uses up nothing. *)

From S2P Require Import Prelude Poll H2Request H1Io H1WriteBuf H1Wire H1State H1Read H1Write H1ReadSpec.

Section effects.
Context `{HT : Http} `{HC : !H1Crates} {T : Type} `{HI : !Io T} `{HR : !RecordedIo T} `{HF : !FiniteIo T}.

Abbreviation http1 := (op (Http1 T) IoError).
Abbreviation state := (Http1 T).

(** ** Reading *)

Record reads (s s' : state) : Prop := {
  reads_asked : asked (past (io s')) = asked (past (io s));
  reads_took : took (past (io s')) = took (past (io s));
  reads_replied : replied (past (io s')) = replied (past (io s));
  reads_mode : is_write_vectored (io s') = is_write_vectored (io s);
  reads_left : ∃ c, got (past (io s')) = got (past (io s)) ++ c ∧ (left_over (io s') + length c ≤ left_over (io s))%nat;
}.

#[local] Instance reads_preorder : PreOrder reads.
Proof.
  split.
  - intros s. split; try done. exists []. rewrite app_nil_r. cbn. split; [done|lia].
  - intros s s' s'' [? ? ? ? (c & Hc & Hl)] [? ? ? ? (d & Hd & Hk)]. split; try congruence.
    exists (c ++ d). rewrite length_app, app_assoc. split; [congruence|lia].
Qed.

Lemma reads_silent (s s' : state) : io s' = io s → reads s s'.
Proof. intros E. split; rewrite ?E; try done. exists []. rewrite app_nil_r. cbn. split; [done|lia]. Qed.

Lemma reads_call {A} (f : T → A * T) (h : T → list happening) : (∀ t, past (f t).2 = past t ++ h t) →
  (∀ t, asked (h t) = [] ∧ took (h t) = [] ∧ replied (h t) = []) → (∀ t, is_write_vectored (f t).2 = is_write_vectored t) →
  (∀ t, (left_over (f t).2 + length (got (h t)) ≤ left_over t)%nat) → within reads (call_io f : http1 A).
Proof.
  intros Hp Hh Hm Hl s. unfold call_io. cbn. destruct (Hh (io s)) as (Ha & Ht & Hr).
  split; cbn; rewrite ?Hp, ?asked_app, ?took_app, ?replied_app, ?got_app, ?Ha, ?Ht, ?Hr, ?app_nil_r; try done. eexists. by split.
Qed.

Lemma reads_io_read : within reads (call_io io_read : http1 (poll (result IoError bytes))).
Proof.
  apply (reads_call _ (λ t, ready_read (io_read t).1)); [intros t; apply past_read|..]; intros t.
  - by destruct (io_read t).1 as [[[|x c]|e]|].
  - apply vectored_read.
  - pose proof (left_read t) as Hl. destruct (io_read t).1 as [[[|x c]|e]|]; unfold got; cbn in *; rewrite ?app_nil_r; cbn; lia.
Qed.

Lemma reads_select : within reads (call_io io_read_or_notified : http1 (poll (option (result IoError bytes)))).
Proof.
  apply (reads_call _ (λ t, ready_select (io_read_or_notified t).1)); [intros t; apply past_select|..]; intros t.
  - by destruct (io_read_or_notified t).1 as [[[[|x c]|e]|]|].
  - apply vectored_select.
  - pose proof (left_select t) as Hl.
    destruct (io_read_or_notified t).1 as [[[[|x c]|e]|]|]; unfold got; cbn in *; rewrite ?app_nil_r; cbn; lia.
Qed.

Lemma reads_write_all d : within reads (call_io (io_write_all d) : http1 (poll (result IoError ()))).
Proof.
  intros s. unfold call_io. cbn. destruct (past_write_all d (io s)) as (n & Hp & _).
  destruct (failed_quiet (io_write_all d (io s)).1) as (E1 & E2 & E3 & E4 & E5 & E6). rewrite (cons_middle _ (past (io s))), app_assoc in Hp.
  pose proof (left_write_all d (io s)). split; cbn; rewrite ?Hp, ?asked_app, ?took_app, ?replied_app, ?got_app, ?E4, ?E5, ?E6, ?app_nil_r; try done; try apply app_nil_r.
  - apply vectored_write_all.
  - exists []. rewrite E1. split; [done|cbn; lia].
Qed.

Lemma reads_flush : within reads (call_io io_flush : http1 (poll (result IoError ()))).
Proof.
  intros s. unfold call_io. cbn. pose proof (left_flush (io s)).
  destruct (failed_quiet (io_flush (io s)).1) as (E1 & E2 & E3 & E4 & E5 & E6).
  split; cbn; rewrite ?past_flush, ?asked_app, ?took_app, ?replied_app, ?got_app, ?E4, ?E5, ?E6, ?app_nil_r; try done.
  - apply vectored_flush.
  - exists []. rewrite E1. split; [done|cbn; lia].
Qed.

Lemma reads_send f : within reads (call_io (body_send f) : http1 (poll ())).
Proof.
  apply (reads_call _ (λ t, match (body_send f t).1 with Ready _ => [Gave f] | Pending => [] end)); [intros t; apply past_send|..]; intros t.
  - by destruct (body_send f t).1.
  - apply vectored_send.
  - pose proof (left_send f t). destruct (body_send f t).1; unfold got; cbn; lia.
Qed.

Lemma reads_modify (f : state → state) : (∀ s, io (f s) = io s) → within reads (modify f : http1 ()).
Proof. intros Hf s. apply reads_silent, Hf. Qed.

(** Takes an operation apart down to its calls. *)
Ltac reading := stays; first
  [apply reads_io_read|apply reads_select|apply reads_write_all|apply reads_flush|apply reads_send|by apply reads_modify].

Lemma reads_buffered a c : within reads (buffered a c : http1 bytes).
Proof. unfold buffered. stays. Qed.
Lemma reads_split n : within reads (split_to n : http1 bytes).
Proof. unfold split_to. stays; first [apply reads_buffered|by apply reads_modify]. Qed.
Lemma reads_fill : within reads (fill_buf : http1 Z).
Proof. unfold fill_buf, await. reading. Qed.
Lemma reads_fill_or_wanted x : within reads (fill_buf_or_wanted x : http1 (option Z)).
Proof. unfold fill_buf_or_wanted. stays; first [apply reads_fill|apply reads_select|by apply reads_modify]. Qed.
Lemma reads_100_continue v : within reads (write_100_continue v : http1 ()).
Proof. unfold write_100_continue, await. reading. Qed.
Lemma reads_if_wanted x y v : within reads (continue_if_wanted x y v : http1 bool).
Proof. unfold continue_if_wanted. stays. apply reads_100_continue. Qed.

Ltac reads_parts := stays; first
  [apply reads_buffered|apply reads_split|apply reads_fill|apply reads_fill_or_wanted|apply reads_if_wanted|apply reads_100_continue
  |apply reads_send|by apply reads_modify].

Lemma reads_head fuel n w line js : within reads (get_head_loop fuel n w line js : http1 (option bytes)).
Proof.
  revert n w line js. induction fuel as [|fuel IH]; intros n w line js; cbn [get_head_loop]; [stays|].
  unfold more_head, take_head. stays; first [apply IH|reads_parts].
Qed.

Lemma reads_request fuel : within reads (read_request fuel : http1 (option (Request * bool))).
Proof. unfold read_request, get_head. stays. apply reads_head. Qed.

Lemma reads_body_loop fuel n x y v js : within reads (read_body_loop fuel n x y v js : http1 bool).
Proof.
  revert n y js. induction fuel as [|fuel IH]; intros n y js; cbn [read_body_loop]; [stays|]. stays; first [apply IH|reads_parts].
Qed.

Lemma reads_more_chunk js x y v : within reads (more_chunk js x y v : http1 (bool * option Z)).
Proof. unfold more_chunk. stays; reads_parts. Qed.

Lemma reads_len_loop fuel n js x y v : within reads (chunk_len_loop fuel n js x y v : http1 (bool * Z)).
Proof.
  revert n js y. induction fuel as [|fuel IH]; intros n js y; cbn [chunk_len_loop]; [stays|].
  stays; first [apply IH|apply reads_more_chunk|reads_parts].
Qed.

Lemma reads_data_loop fuel n k js x y v : within reads (chunk_data_loop fuel n k js x y v : http1 bool).
Proof.
  revert n js y. induction fuel as [|fuel IH]; intros n js y; cbn [chunk_data_loop]; [stays|].
  stays; first [apply IH|apply reads_more_chunk|reads_parts].
Qed.

Lemma reads_chunks fuel tr x y v : within reads (read_chunks fuel tr x y v : http1 bool).
Proof.
  revert y. induction fuel as [|fuel IH]; intros y; cbn [read_chunks]; [stays|]. unfold read_body_chunk.
  stays; first [apply IH|apply reads_len_loop|apply reads_data_loop|reads_parts].
Qed.

Lemma reads_trailers fuel n js : within reads (read_trailers_loop fuel n js : http1 (option HeaderMap)).
Proof.
  revert n js. induction fuel as [|fuel IH]; intros n js; cbn [read_trailers_loop]; [stays|].
  unfold more_trailers. stays; first [apply IH|reads_parts].
Qed.

Lemma reads_chunked_body fuel tr x y v : within reads (read_chunked_body_fn fuel tr x y v : http1 bool).
Proof. unfold read_chunked_body_fn, read_trailers. stays; first [apply reads_chunks|apply reads_trailers|reads_parts]. Qed.
End effects.

(** ** Writing *)

Section writing.
Context (with_capacity : Z → Z).
Context `{HT : Http} `{HC : !H1Crates} {T : Type} `{HI : !Io T} `{HR : !RecordedIo T} `{HF : !FiniteIo T} `{HS : !Service T}
  `{HFS : !FiniteService T}.

Abbreviation http1 := (op (Http1 T) IoError).
Abbreviation writing := (op (WriteBuf * T) IoError).

Definition spares (s s' : Http1 T) : Prop := (left_over (io s') ≤ left_over (io s))%nat.
Definition spares_buf (p p' : WriteBuf * T) : Prop := (left_over p'.2 ≤ left_over p.2)%nat.

#[local] Instance spares_preorder : PreOrder spares.
Proof. unfold spares. split; intros ?; [done|lia]. Qed.
#[local] Instance spares_buf_preorder : PreOrder spares_buf.
Proof. unfold spares_buf. split; intros ?; [done|lia]. Qed.

Lemma spares_stream {A} (f : T → poll (result IoError A) * T) : (∀ t, (left_over (f t).2 ≤ left_over t)%nat) →
  within spares_buf (on_stream f : writing A).
Proof.
  intros Hf. unfold on_stream. stays. intros [w t]. specialize (Hf t). unfold spares_buf. cbn. by destruct (f t).
Qed.

Lemma spares_buf_modify (f : WriteBuf * T → WriteBuf * T) : (∀ p, (f p).2 = p.2) → within spares_buf (modify f : writing ()).
Proof. intros Hf p. unfold spares_buf. cbn. by rewrite Hf. Qed.

Lemma spares_gathered : within spares_buf (gathered : writing (list bytes)).
Proof. unfold gathered. stays. Qed.
Lemma spares_consume n : within spares_buf (consume n : writing ()).
Proof. unfold consume. stays. by apply spares_buf_modify. Qed.
Lemma spares_flatten : within spares_buf (flatten : writing bytes).
Proof. unfold flatten. stays; first [apply spares_gathered|by apply spares_buf_modify]. Qed.

Ltac spares_parts := stays; first
  [apply spares_gathered|apply spares_consume|apply spares_flatten
  |apply spares_stream; first [apply left_write|apply left_vectored|apply left_write_all]].

Lemma spares_write v : within spares_buf (write v : writing Z).
Proof. unfold write, write_vectored_inner, write_flattened_inner. spares_parts. Qed.

Lemma spares_flush v : within spares_buf (flush v : writing ()).
Proof.
  unfold flush. stays.
  - generalize (S (Z.to_nat (queued_bytes s.1))). clear s. intros n. induction n as [|n IH]; cbn [flush_vectored_inner]; [stays|].
    stays; first [apply IH|spares_parts].
  - generalize (S (Z.to_nat (queued_bytes s.1))). clear s. intros n. induction n as [|n IH]; cbn [flush_flattened_inner]; [stays|].
    stays; first [apply IH|spares_parts].
Qed.

Lemma spares_buffering {A} (m : writing A) : within spares_buf m → within spares (buffering m : http1 A).
Proof. intros Hm s. exact (Hm (write_buf s, io s)). Qed.

Lemma spares_call {A} (f : T → A * T) : (∀ t, (left_over (f t).2 ≤ left_over t)%nat) → within spares (call_io f : http1 A).
Proof. intros Hf s. apply Hf. Qed.

Lemma spares_modify (f : Http1 T → Http1 T) : (∀ s, io (f s) = io s) → within spares (modify f : http1 ()).
Proof. intros Hf s. unfold spares. cbn. by rewrite Hf. Qed.

Lemma spares_flush_buf : within spares (flush_buf : http1 ()).
Proof. unfold flush_buf. stays. apply spares_buffering, spares_flush. Qed.
Lemma spares_await {A} (f : T → poll (result IoError A) * T) : (∀ t, (left_over (f t).2 ≤ left_over t)%nat) →
  within spares (await f : http1 A).
Proof. intros Hf. unfold await. stays. by apply spares_call. Qed.
Lemma spares_enqueue f : within spares (enqueue f : http1 ()).
Proof. by apply spares_modify. Qed.

Lemma spares_ignore (m : http1 ()) : within spares m → within spares (ignore m).
Proof. intros Hm s. specialize (Hm s). unfold ignore. by destruct (m s) as [[]]. Qed.
Lemma spares_attempt (m : http1 ()) : within spares m → within spares (attempt m).
Proof. intros Hm s. specialize (Hm s). unfold attempt. by destruct (m s) as [[]]. Qed.

Lemma spares_next_chunk x : within spares (next_chunk x : http1 (option (result () BodyFrame))).
Proof.
  assert (within spares (call_io next_frame : http1 (poll (option (result () BodyFrame))))) as Hn by (apply spares_call, left_frame).
  unfold next_chunk. stays; try exact Hn. apply spares_attempt. stays; apply spares_ignore; [apply spares_flush_buf|apply spares_await, left_flush].
Qed.

Lemma spares_drain fuel : within spares (drain_batches fuel : http1 ()).
Proof.
  induction fuel as [|fuel IH]; cbn [drain_batches]; [stays|]. unfold write_some. stays; first [apply IH|apply spares_buffering, spares_write].
Qed.

Lemma spares_fields l : within spares (push_fields with_capacity l : http1 ()).
Proof. induction l as [|[n v] l IH]; cbn [push_fields]; stays; first [apply IH|apply spares_enqueue]. Qed.

Lemma spares_body fuel x y z : within spares (write_body with_capacity fuel x y z : http1 bool).
Proof.
  revert z. induction fuel as [|fuel IH]; intros z; cbn [write_body]; [stays|]. unfold push_data, push_trailers.
  stays; first [apply IH|apply spares_next_chunk|apply spares_drain|apply spares_fields|apply spares_enqueue].
Qed.

Lemma spares_response fuel r v x y : within spares (write_response with_capacity fuel r v x y : http1 ()).
Proof.
  unfold write_response, add_fields, get_date_header_value.
  stays; first [apply spares_enqueue|apply spares_flush_buf|apply spares_body|by apply spares_modify
    |apply spares_await; first [apply left_flush|apply left_file]].
Qed.
End writing.
