(* ===== verification/H1Session.v ===== *)
(** * The messages on a connection

    A connection as a sequence of exchanges: the head and the body of a request
    taken off the stream one after the other, and the answer to each on the
    stream before the next request is read. *)

From S2P Require Import Prelude Poll H2Request H1Io H1WriteBuf H1Wire H1State H1Plain H1Read H1ReadSpec H1Body H1Write H1WriteSpec H1Connection H1Effects.

(** ** Messages *)

Section messages.
Context `{HT : Http} `{HC : !H1Crates} (o : Http1Options).

(** The stream is [buffer], [c] is read, and the request [r] with its head is
    taken off; [expect] says whether a [100 Continue] is due.  The head is the
    first one that can be found, behind white space in the first piece that was
    looked at, which is the buffer or came in first. *)
Definition request_at (buffer c : bytes) (r : Request) (expect : bool) (rest : bytes) : Prop :=
  ∃ skipped head req piece, buffer ++ c = skipped ++ head ++ rest ∧ head ≠ []
    ∧ piece ≠ [] ∧ (if bool_decide (buffer = []) then piece `prefix_of` c else piece = buffer)
    ∧ (∀ w, starts (max_header_size o) piece w → scan_head (max_header_size o) w (buffer ++ c) = HeadAt (zlen head))
    ∧ parse_head (max_header_count o) head = Ok (Some req) ∧ build_request req = Ok r
    ∧ expect = send_continue_response o && expects_continue req.

(** The body of a request on a stream, what is handed over of it, and the rest. *)
Definition body_at (T : Type) `{!Io T} `{!RecordedIo T} (r : Request) (stream : bytes) (gs : list BodyFrame) (rest : bytes) : Prop :=
  if request_chunked r then
    ∃ ds ts mid, gs = (DataFrame <$> ds) ++ ts ∧ chunk_run (has_trailers r) stream ds mid
      ∧ body_end (T := T) (λ _, False) (has_trailers r) (max_header_size o) (max_header_count o) mid ts (Done true) rest
  else ∃ ds, gs = DataFrame <$> ds ∧ stream = mjoin ds ++ rest
    ∧ (zlen (mjoin ds) = request_length r ∨ zlen (mjoin ds) < request_length r ∧ rest = [] ∧ ∃ s : Http1 T, cut_off s unexpected_eof).

(** [resp] is the response [r0] of the handler with the fields the connection
    adds: Connection as the request and an upgrade have it, Date and
    Content-Length. *)
Definition response_for {T} `{!Io T} `{!Service T} (r : Request) (r0 : Response) (upgraded : bool) (resp : Response) : Prop :=
  ∃ s : Http1 T, options s = o ∧
    (add_fields (with_connection (connection_field upgraded (keeps_alive r) (rq_version r) (rs_headers r0)) r0) s).1 = Done resp.

(** The whole answer to a request: [r0] is what the handler replied, [fs] are the
    frames of the response body. *)
Definition answer (T : Type) `{!Io T} `{!Service T} (r : Request) (expect : bool) (r0 : Response) (upgraded : bool) (d : bytes) (fs : list BodyFrame) : Prop :=
  ∃ interim (resp : Response) (t : T) body, d = interim ++ head_octets (rq_version r) resp ++ body
    ∧ (interim = [] ∨ expect = true ∧ interim = continue_line (rq_version r))
    ∧ response_for (T := T) r r0 upgraded resp
    ∧ body_sent t resp (write_trailers r) (is_head_method (rq_method r)) fs body.

(** What may be out of an answer when the connection fails or waits, with what
    the handler replied, if it did. *)
Definition answer_part (T : Type) `{!Io T} `{!Service T} (r : Request) (expect : bool) (ps : list Response) (d : bytes)
    (fs : list BodyFrame) : Prop :=
  (fs = [] ∧ (length ps ≤ 1)%nat ∧ (d = [] ∨ expect = true ∧ d `prefix_of` continue_line (rq_version r)))
  ∨ ∃ r0 upgraded interim (resp : Response) (t : T) body, ps = [r0] ∧ d = interim ++ head_octets (rq_version r) resp ++ body
    ∧ (interim = [] ∨ expect = true ∧ interim = continue_line (rq_version r))
    ∧ response_for (T := T) r r0 upgraded resp
    ∧ body_partly t resp (write_trailers r) (is_head_method (rq_method r)) fs body.

(** An error response, or a part of it: what [error_fn] gave, with
    [Connection: close]. *)
Definition error_part (T : Type) `{!Io T} `{!Service T} (ps : list Response) (d : bytes) (fs : list BodyFrame) : Prop :=
  (d = [] ∧ fs = [] ∧ (length ps ≤ 1)%nat) ∨ ∃ (r0 resp : Response) (s : Http1 T) (t : T) body,
    ps = [r0] ∧ options s = o ∧ (add_fields (with_connection (Some (b "close")) r0) s).1 = Done resp
    ∧ d = head_octets HTTP_11 resp ++ body ∧ (body_sent t resp false false fs body ∨ body_partly t resp false false fs body).

(** Exchanges on a stream: from a buffer, with the octets that are read and the
    buffer they leave; the requests, the replies of the handler one for each,
    what was handed over of the bodies, the answers and the frames they were
    made of, and whether the last exchange was an upgrade.  Only the last
    request may close the connection, and only the last exchange is an upgrade. *)
Inductive session (T : Type) `{!Io T} `{!RecordedIo T} `{!Service T} :
  bytes → bytes → list Request → list Response → list BodyFrame → bytes → list BodyFrame → bool → bytes → Prop :=
| session_idle buffer : session T buffer [] [] [] [] [] [] false buffer
| session_exchange buffer c r expect mid c' gs rest r0 up d fs c'' rs ps gs' d' fs' up' buffer' :
    request_at buffer c r expect mid → body_at T r (mid ++ c') gs rest → answer T r expect r0 up d fs →
    (rs ≠ [] → keeps_alive r = true ∧ up = false) →
    session T rest c'' rs ps gs' d' fs' up' buffer' →
    session T buffer (c ++ c' ++ c'') (r :: rs) (r0 :: ps) (gs ++ gs') (d ++ d') (fs ++ fs') (up || up') buffer'.
End messages.

(** ** Reading a request *)

Section requests.
Context `{HT : Http} `{HC : !H1Crates} {T : Type} `{HI : !Io T} `{HR : !RecordedIo T} `{HF : !FiniteIo T}.

Abbreviation http1 := (op (Http1 T) IoError).
Abbreviation state := (Http1 T).

Lemma fill_cut (s : state) : wp fill_buf (λ _ s', cut s [] s') s.
Proof.
  apply wp_fill_buf.
  - intros c t' _ Hp _. exists c. cbn. split; [by apply got_read in Hp as (Hg & _)|done].
  - intros o t' h Hp Ho. exists []. cbn. assert (got h = []) as E by (destruct o; try done; by subst h).
    by rewrite Hp, got_app, E, !app_nil_r.
Qed.

Lemma more_head_cut js (s : state) : wp (more_head js) (λ _ s', cut s [] s') s.
Proof.
  unfold more_head. rewrite wp_self. destruct (_ || _); [|rewrite wp_ret; apply cut_refl]. rewrite wp_bind.
  eapply wp_mono; [apply fill_cut|]. intros [n|e| |] s1 H1; cbn [andthen]; try done. by destruct (n =? 0).
Qed.

Definition head_cut (s : state) (o : outcome IoError (option bytes)) (s' : state) : Prop :=
  match o with Done (Some head) => head ≠ [] ∧ ∃ sk, cut s (sk ++ head) s' | _ => True end.

Lemma get_head_cut fuel n trimmed line js (s0 s : state) : cut s0 [] s → (∀ w, trimmed = Some w → 0 ≤ w) →
  wp (get_head_loop fuel n trimmed line js) (head_cut s0) s.
Proof.
  revert n trimmed line js s. induction fuel as [|fuel IH]; intros n trimmed line js s Hc Hw; cbn [get_head_loop];
    rewrite wp_self; (destruct (_ <=? n); [done|]); [done|].
  rewrite wp_bind. eapply wp_mono; [apply more_head_cut|]. intros [[k|]|e| |] s1 H1; cbn [andthen]; try done; [|by destruct trimmed].
  pose proof (cut_trans _ _ _ _ _ Hc H1) as Hc1. cbn [app] in Hc1. rewrite wp_bind.
  eapply (wp_mono _ (λ o s', s' = s1 ∧ match o with Done (Some w) => 0 ≤ w | _ => True end)).
  { destruct trimmed as [w|]; [by rewrite wp_ret; auto|]. rewrite wp_bind. unfold buffered. rewrite wp_self.
    destruct (zslice _ _ _) as [l|]; [|done]. rewrite wp_ret. cbn [andthen]. rewrite wp_ret. destruct (position _ l); [split; [done|cbn; lia]|done]. }
  intros [[w|]|e| |] s2 [-> H2]; cbn [andthen]; try done; [|by apply IH].
  rewrite wp_bind. eapply wp_mono; [by apply take_head_cut|]. intros [[line' [head|]]|e| |] s3 H3; cbn [andthen]; try done.
  - rewrite wp_ret. destruct H3 as (Hne & sk & H3). split; [done|]. exists sk. exact (cut_trans _ _ _ _ _ Hc1 H3).
  - subst s3. apply IH; [done|]. by intros ? [= <-].
Qed.

(** What reading leaves alone, with what it got. *)
Record listened (c : bytes) (s s' : state) : Prop := {
  listened_got : got (past (io s')) = got (past (io s)) ++ c;
  listened_put : put (past (io s')) = put (past (io s));
  listened_gave : gave (past (io s')) = gave (past (io s));
  listened_asked : asked (past (io s')) = asked (past (io s));
  listened_took : took (past (io s')) = took (past (io s));
  listened_replied : replied (past (io s')) = replied (past (io s));
  listened_mode : is_write_vectored (io s') = is_write_vectored (io s);
  listened_left : (left_over (io s') + length c ≤ left_over (io s))%nat;
  listened_options : options s' = options s;
  listened_write_buf : write_buf s' = write_buf s;
}.

Lemma heard_reads c (s s' : state) : heard c s s' → reads s s' → listened c s s'.
Proof.
  intros [Hg Hp Hv Ho Ht Hd Hw] [Ha Hk Hrp Hm (d & Hd' & Hl)]. rewrite Hg in Hd'. apply app_inv_head in Hd' as <-. by split.
Qed.

(** The outcome of [read_request]. *)
Definition requested (s : state) (o : outcome IoError (option (Request * bool))) (s' : state) : Prop :=
  ∃ c, listened c s s' ∧ match o with
    | Done (Some (r, expect)) => request_at (options s) (read_buf s) c r expect (read_buf s')
    | Stuck => False
    | _ => True
    end.

Lemma read_request_spec fuel (s : state) : 0 ≤ max_header_size (options s) → (S (left_over (io s)) < fuel)%nat →
  wp (read_request fuel) (requested s) s.
Proof.
  intros Hmax Hfuel. unfold read_request.
  assert (wp (get_head fuel) (λ o s', ∃ c, listened c s s' ∧ o ≠ Stuck ∧ ∀ head, o = Done (Some head) →
    head ≠ [] ∧ (∃ sk, read_buf s ++ c = sk ++ head ++ read_buf s') ∧
    (first_piece s ≠ [] ∧ (read_buf s = [] → first_piece s `prefix_of` c)) ∧
    ∀ w, starts (max_header_size (options s)) (first_piece s) w →
      scan_head (max_header_size (options s)) w (read_buf s ++ c) = HeadAt (zlen head)) s) as Hhead.
  { pose proof (get_head_spec fuel _ s eq_refl Hmax Hfuel) as H1. pose proof (reads_head fuel 0 None false true s) as H2.
    pose proof (get_head_cut fuel 0 None false true s s (cut_refl s) ltac:(done)) as H3.
    pose proof (get_head_ends fuel s Hmax Hfuel) as Htotal.
    unfold wp, get_head in *.
    destruct (get_head_loop fuel 0 None false true s) as [o s']. cbn [fst snd] in *. destruct H1 as (c & Hh & Hpiece & Hv).
    exists c. split; [by apply heard_reads|]. split.
    { intros ->. by apply Htotal. }
    intros head ->. destruct H3 as (Hne & sk & c' & Hg & Hb). rewrite (heard_got _ _ _ Hh) in Hg. apply app_inv_head in Hg as <-.
    split; [done|]. split; [exists sk; by rewrite Hb, <- app_assoc|]. split; [by eapply Hpiece|]. intros w Hw. by apply (Hv w). }
  rewrite wp_bind. eapply wp_mono; [exact Hhead|]. intros o s1 (c & Hl & Hst & Hc).
  destruct o as [[head|]|e| |]; cbn [andthen]; [|by exists c..|done].
  destruct (Hc head eq_refl) as (Hne & (sk & Hb) & [Hp0 Hp1] & Hscan). rewrite wp_self, (listened_options _ _ _ Hl), wp_bind, wp_lift.
  destruct (parse_head _ head) as [[req|]|[]] eqn:Ep; cbn [andthen]; [|by exists c..].
  rewrite wp_bind, wp_lift. destruct (build_request req) as [r|e] eqn:Er; cbn [andthen]; [|by exists c].
  rewrite wp_ret. exists c. split; [done|]. exists sk, head, req, (first_piece s).
  split_and!; try done. destruct (bool_decide_reflect (read_buf s = [])) as [Hemp|Hne']; [by apply Hp1|].
  unfold first_piece. by destruct (read_buf s).
Qed.
End requests.
