(* ===== verification/H1ConnectionSpec.v ===== *)
(** * An HTTP/1 connection is a sequence of exchanges

    Every step of the loop of [H1Connection] in terms of the messages of
    [H1Session]: the octets it took off the stream, the request it asked the
    application, the octets it sent. *)

From S2P Require Import Prelude Poll H2Request H1Io H1WriteBuf H1Wire H1State H1Plain H1Read H1ReadSpec H1Body H1Write H1WriteSpec H1Connection H1Effects H1Session.

Section spec.
Context (with_capacity : Z → Z) (Hcap : ∀ n, n ≤ with_capacity n).
Context `{HT : Http} `{HC : !H1Crates} {T : Type} `{HI : !Io T} `{HR : !RecordedIo T} `{HF : !FiniteIo T} `{HS : !Service T}
  `{HRS : !RecordedService T} `{HFS : !FiniteService T}.

Abbreviation http1 := (op (Http1 T) IoError).
Abbreviation state := (Http1 T).

(** What came of the stream, was handed over, was sent, was taken of responses,
    was asked and was replied between two states that are ready to write. *)
Record went (c : bytes) (gs : list BodyFrame) (d : bytes) (fs : list BodyFrame) (rs : list Request) (ps : list Response) (s s' : state) : Prop := {
  went_got : got (past (io s')) = got (past (io s)) ++ c;
  went_gave : gave (past (io s')) = gave (past (io s)) ++ gs;
  went_put : put (past (io s')) ++ queued (write_buf s') = put (past (io s)) ++ queued (write_buf s) ++ d;
  went_took : took (past (io s')) = took (past (io s)) ++ fs;
  went_asked : asked (past (io s')) = asked (past (io s)) ++ rs;
  went_replied : replied (past (io s')) = replied (past (io s)) ++ ps;
  went_options : options s' = options s;
  went_left : (left_over (io s') + length c ≤ left_over (io s))%nat;
  went_ready : ready_to_write s';
}.

Lemma went_trans c gs d fs rs ps c' gs' d' fs' rs' ps' (s s' s'' : state) :
  went c gs d fs rs ps s s' → went c' gs' d' fs' rs' ps' s' s'' →
  went (c ++ c') (gs ++ gs') (d ++ d') (fs ++ fs') (rs ++ rs') (ps ++ ps') s s''.
Proof.
  intros [] []. split; rewrite ?length_app, ?app_assoc; try congruence; try lia.
  rewrite <- (app_assoc (put (past (io s)))), <- went_put0, <- app_assoc. congruence.
Qed.

Lemma went_nothing (s s' : state) : past (io s') = past (io s) → write_buf s' = write_buf s → options s' = options s →
  (left_over (io s') ≤ left_over (io s))%nat → ready_to_write s' → went [] [] [] [] [] [] s s'.
Proof. intros Hp Hw Ho Hl Hr. split; rewrite ?Hp, ?Hw, ?app_nil_r; try done. cbn. lia. Qed.

Lemma listened_went c (s s' : state) : listened c s s' → ready_to_write s → went c [] [] [] [] [] s s'.
Proof.
  intros [] [Hh Hm]. split; rewrite ?app_nil_r; try done; [congruence|]. split; [by rewrite listened_write_buf|congruence].
Qed.

Lemma served_went c gs d (s s' : state) : served c gs d s s' → reads s s' → ready_to_write s → queued (write_buf s) = [] →
  went c gs d [] [] [] s s'.
Proof.
  intros [] [] [Hh Hm] Hq. split; rewrite ?app_nil_r; try done.
  - by rewrite served_write_buf, Hq, app_nil_r.
  - split; [by rewrite served_write_buf|congruence].
Qed.

Lemma output_went d fs (s s' : state) : output d fs s s' → spares s s' → ready_to_write s → went [] [] d fs [] [] s s'.
Proof.
  intros H1 Hs Hr. pose proof (output_ready _ _ _ _ H1 Hr) as Hr'. destruct H1. unfold spares in Hs.
  split; rewrite ?app_nil_r; try done. cbn. lia.
Qed.

Lemma only_replies ps : let h : list happening := map Replied ps in
  got h = [] ∧ gave h = [] ∧ put h = [] ∧ took h = [] ∧ asked h = [] ∧ replied h = ps.
Proof.
  induction ps as [|p ps (? & ? & ? & ? & ? & IH)]; [done|]. split_and!; try done. cbn. unfold replied in *. cbn. by rewrite IH.
Qed.

(** A call of the application that does nothing to the stream. *)
Lemma call_went {A} (f : T → poll A * T) ps (Q : outcome IoError A → state → Prop) (s : state) : ready_to_write s →
  past (f (io s)).2 = past (io s) ++ map Replied ps → is_write_vectored (f (io s)).2 = is_write_vectored (io s) →
  (left_over (f (io s)).2 ≤ left_over (io s))%nat →
  (∀ s', went [] [] [] [] [] ps s s' → read_buf s' = read_buf s → write_buf s' = write_buf s → connection_idle s' = connection_idle s →
    Q (match (f (io s)).1 with Ready a => Done a | Pending => Wait end) s') →
  wp (ready (call_io f)) Q s.
Proof.
  intros [Hh Hm] Hp Hv Hl HQ. rewrite wp_call_io.
  assert (went [] [] [] [] [] ps s (set_io (f (io s)).2 s)) as Hw.
  { destruct (only_replies ps) as (E1 & E2 & E3 & E4 & E5 & E6).
    split; cbn; rewrite ?Hp, ?got_app, ?gave_app, ?put_app, ?took_app, ?asked_app, ?replied_app, ?E1, ?E2, ?E3, ?E4, ?E5, ?E6, ?app_nil_r; try done.
    - lia.
    - split; cbn; [done|]. by rewrite Hv. }
  destruct (f (io s)).1; by apply HQ.
Qed.

Lemma replied_list (r : poll (result () Response)) :
  replied_with r = map Replied (match r with Ready (Ok r) => [r] | _ => [] end).
Proof. by destruct r as [[]|]. Qed.

(** ** Waiting for a request *)

Definition next_post (s : state) (o : outcome IoError head_read) (s' : state) : Prop :=
  ∃ c, went c [] [] [] [] [] s s' ∧ write_buf s' = write_buf s ∧ match o with
    | Done (GotRequest r expect) => request_at (options s) (read_buf s) c r expect (read_buf s')
    | Fail _ | Stuck => False
    | _ => True
    end.

Lemma next_request_spec fuel (s : state) : ready_to_write s → 0 ≤ max_header_size (options s) → (S (left_over (io s)) < fuel)%nat →
  wp (next_request fuel) (next_post s) s.
Proof.
  intros Hs Hmax Hfuel. pose proof (read_request_spec fuel s Hmax Hfuel) as H. unfold next_request, wp in *.
  destruct (shut_down s); [exists []; split; [by apply went_nothing|done]|].
  destruct (read_request fuel s) as [o s1]. cbn [fst snd] in *. destruct H as (c & Hl & Ho).
  pose proof (listened_went _ _ _ Hl Hs) as Hw. pose proof (listened_write_buf _ _ _ Hl) as Hb.
  destruct o as [[[r x]|]|e| |]; [by exists c..| |done]. destruct (header_read_timeout (options s1)); [|by exists c].
  pose proof (went_ready _ _ _ _ _ _ _ _ Hw) as R1.
  change (wp (i ← ready (call_io interruption); match i with TimedOut_ => mret Elapsed
    | Cancelled_ => if cancel_token s1 then mret ShutDown else wait end) (next_post s) s1).
  rewrite wp_bind. apply (call_went _ []); [done|by rewrite past_interruption, app_nil_r|apply vectored_interruption|apply left_interruption|].
  intros s2 H2 _ Hb2 _. pose proof (went_trans _ _ _ _ _ _ _ _ _ _ _ _ _ _ _ Hw H2) as Hw2. rewrite !app_nil_r in Hw2.
  assert (write_buf s2 = write_buf s) as Hb' by congruence.
  destruct (interruption (io s1)).1 as [[|]|]; cbn [andthen]; [by exists c| |by exists c]. destruct (cancel_token s1); by exists c.
Qed.

(** ** An exchange *)

Lemma request_length_bound r : 0 ≤ request_length r ≤ u64_max.
Proof.
  unfold request_length, content_length. destruct (header_get _ _) as [v|]; cbn; [|done]. destruct (header_to_str v) as [l|]; cbn; [|done].
  destruct (from_str_radix 10 l) as [n|] eqn:E; cbn; [|done]. by apply from_str_radix_nonneg in E.
Qed.

Definition body_read_post (r : Request) (expect : bool) (s : state) (o : outcome IoError bool) (s' : state) : Prop :=
  ∃ c gs d, went c gs d [] [] [] s s' ∧ queued (write_buf s') = [] ∧ match o with
    | Done sent => body_at (options s) T r (read_buf s ++ c) gs (read_buf s')
        ∧ d = continued (rq_version r) false sent ∧ only_once expect false sent
    | Fail _ | Wait => partly_continued expect (rq_version r) false d
    | Stuck => False
    end.

Lemma request_body_spec fuel r expect (s : state) : ready_to_write s → queued (write_buf s) = [] → 0 ≤ max_header_size (options s) →
  (S (length (read_buf s) + left_over (io s)) < fuel)%nat →
  wp (read_request_body fuel r expect) (body_read_post r expect s) s.
Proof.
  intros Hs Hq Hmax Hfuel. unfold read_request_body, body_read_post, body_at. destruct (request_chunked r).
  - pose proof (chunked_body_spec fuel (has_trailers r) expect false (rq_version r) s Hmax Hfuel) as H.
    pose proof (reads_chunked_body fuel (has_trailers r) expect false (rq_version r) s) as Hr. unfold wp in *.
    destruct (read_chunked_body_fn _ _ _ _ _ s) as [o s1]. cbn [fst snd] in *. destruct H as (c & ds & ts & d & mid & Hsv & Hrun & Hend & Ho).
    pose proof (served_went _ _ _ _ _ Hsv Hr Hs Hq) as Hw. eexists _, _, _. split; [exact Hw|].
    split; [by rewrite (served_write_buf _ _ _ _ _ Hsv)|]. destruct o as [sent|e| |]; [|done..].
    split; [|done]. exists ds, ts, mid. split_and!; [done|done|]. exact Hend.
  - assert (S (left_over (io s)) < fuel)%nat as Hfuel' by lia.
    pose proof (read_body_spec fuel (request_length r) true expect false (rq_version r) s (request_length_bound r)
      (or_introl (conj eq_refl Hfuel'))) as H.
    pose proof (reads_body_loop fuel (request_length r) expect false (rq_version r) true s) as Hr. unfold wp, read_body_fn in *.
    destruct (read_body_loop _ _ _ _ _ _ s) as [o s1]. cbn [fst snd] in *. destruct H as (c & ds & d & Hsv & Ho).
    pose proof (served_went _ _ _ _ _ Hsv Hr Hs Hq) as Hw. eexists _, _, _. split; [exact Hw|].
    split; [by rewrite (served_write_buf _ _ _ _ _ Hsv)|]. destruct o as [sent|e| |]; [|by destruct Ho..|done].
    destruct Ho as (-> & Hone & Hb & Hlen). split; [|done]. exists ds. split_and!; [done|done|].
    destruct Hlen as [|(? & ? & ?)]; [by left|right]. split_and!; [done|done|by exists s1].
Qed.

(** The response of the handler, once the request is read. *)
Definition reply (fuel : nat) (r : Request) (expect sent : bool) : http1 bool :=
  response ← ready (call_io respond);
  response ← lift (λ _, parse_error Other) response;
  _ ← (if negb sent && expect && negb (is_error_status (rs_status response)) then write_100_continue (rq_version r) else mret ());
  s ← self;
  let upgraded := was_upgraded (io s) in
  let response := with_connection (connection_field upgraded (keeps_alive r) (rq_version r) (rs_headers response)) response in
  _ ← write_response with_capacity fuel response (rq_version r) (write_trailers r) (is_head_method (rq_method r));
  mret upgraded.

Definition reply_post (fuel : nat) (r : Request) (interim : bytes) (expect : bool) (s : state) (o : outcome IoError bool) (s' : state) : Prop :=
  ∃ d fs ps, went [] [] d fs [] ps s s' ∧ read_buf s' = read_buf s ∧ match o with
    | Done up => queued (write_buf s') = [] ∧ ∃ r0, ps = [r0] ∧ answer (options s) T r expect r0 up (interim ++ d) fs
    | Stuck => (fuel ≤ length fs)%nat
    | Fail _ | Wait => answer_part (options s) T r expect ps (interim ++ d) fs
    end.

(** What is written once the handler has replied [r0]. *)
Definition written_post (fuel : nat) (r : Request) (r0 : Response) (interim : bytes) (expect : bool) (s : state) (o : outcome IoError bool)
    (s' : state) : Prop :=
  ∃ d fs, went [] [] d fs [] [] s s' ∧ read_buf s' = read_buf s ∧ match o with
    | Done up => queued (write_buf s') = [] ∧ answer (options s) T r expect r0 up (interim ++ d) fs
    | Stuck => (fuel ≤ length fs)%nat
    | Fail _ | Wait => answer_part (options s) T r expect [r0] (interim ++ d) fs
    end.

(** The last part of it: the response with its Connection field. *)
Lemma write_reply_spec fuel r r0 expect interim (s : state) : ready_to_write s →
  (interim = [] ∨ expect = true ∧ interim = continue_line (rq_version r)) →
  let up := was_upgraded (io s) in
  wp (_ ← write_response with_capacity fuel (with_connection (connection_field up (keeps_alive r) (rq_version r) (rs_headers r0)) r0)
      (rq_version r) (write_trailers r) (is_head_method (rq_method r)); mret up) (written_post fuel r r0 interim expect s) s.
Proof.
  intros Hs Hi up. set (r1 := with_connection _ r0). rewrite wp_bind.
  pose proof (write_response_spec with_capacity Hcap fuel r1 (rq_version r) (write_trailers r) (is_head_method (rq_method r)) s Hs) as H.
  pose proof (spares_response with_capacity fuel r1 (rq_version r) (write_trailers r) (is_head_method (rq_method r)) s) as Hsp.
  pose proof (add_fields_spec r1 s) as Ha. unfold wp in *.
  destruct (write_response _ _ _ _ _ _ s) as [o s1]. cbn [fst snd] in *.
  destruct (add_fields r1 s) as [oa sa] eqn:Ea. cbn [fst snd] in *. destruct Ha as (_ & Hw & Hst). destruct oa as [resp|e| |]; try done.
  2:{ destruct H as [-> Hout]. exists [], []. split; [by apply output_went|]. split; [by apply output_read_buf in Hout|].
      left. split; [done|]. split; [cbn; lia|]. rewrite app_nil_r. destruct Hi as [->|[-> ->]]; [by left|by right]. }
  destruct H as (fs & d & Hout & R1 & Ho). pose proof (output_went _ _ _ _ Hout Hsp Hs) as Hwent. pose proof (output_read_buf _ _ _ _ Hout) as Hb.
  assert (response_for (options s) (T := T) r r0 up resp) as Hresp by (exists s; fold r1; by rewrite Ea).
  destruct o as [[]|e| |]; cbn [andthen].
  - unfold wp. cbn. eexists _, _. split; [exact Hwent|]. split; [done|]. destruct Ho as [Hq Hsent]. split; [done|].
    by exists interim, resp, (io s), d.
  - eexists _, _. split; [exact Hwent|]. split; [done|]. right. by exists r0, up, interim, resp, (io s), d.
  - eexists _, _. split; [exact Hwent|]. split; [done|]. right. by exists r0, up, interim, resp, (io s), d.
  - eexists _, _. split; [exact Hwent|]. by split.
Qed.

Lemma reply_later fuel r r0 interim d0 expect (s s1 : state) o s' : went [] [] d0 [] [] [r0] s s1 → read_buf s1 = read_buf s →
  written_post fuel r r0 (interim ++ d0) expect s1 o s' → reply_post fuel r interim expect s o s'.
Proof.
  intros H1 Hb (d & fs & H2 & Hb2 & Ho). exists (d0 ++ d), fs, [r0]. split; [exact (went_trans _ _ _ _ _ _ _ _ _ _ _ _ _ _ _ H1 H2)|].
  split; [congruence|]. rewrite (went_options _ _ _ _ _ _ _ _ H1), <- app_assoc in Ho.
  destruct o; try done. destruct Ho as [Hq Ha]. split; [done|]. by exists r0.
Qed.

Lemma reply_spec fuel r expect sent (s : state) : ready_to_write s → queued (write_buf s) = [] → only_once expect false sent →
  wp (reply fuel r expect sent) (reply_post fuel r (continued (rq_version r) false sent) expect s) s.
Proof.
  intros Hs Hq Hone. unfold reply. set (interim := continued (rq_version r) false sent).
  assert (interim = [] ∧ sent = false ∨ expect = true ∧ sent = true ∧ interim = continue_line (rq_version r)) as Hi.
  { unfold interim. destruct Hone as [->|(_ & -> & ->)]; [by left|by right]. }
  assert (∀ ps o s1, went [] [] [] [] [] ps s s1 → (length ps ≤ 1)%nat → read_buf s1 = read_buf s → match o with Fail _ | Wait => True | _ => False end →
    reply_post fuel r interim expect s o s1) as Hstop.
  { intros ps o s1 H1 Hl Hb Ho. exists [], [], ps. split; [done|]. split; [done|]. rewrite app_nil_r.
    destruct o; try done; left; (split; [done|]); (split; [done|]); destruct Hi as [[-> _]|(-> & _ & ->)]; [by left|by right|by left|by right]. }
  rewrite wp_bind.
  eapply call_went; [done|rewrite past_respond; f_equal; apply replied_list|apply vectored_respond|apply left_respond|].
  intros s1 H1 Hb1 Hwb1 _. destruct (respond (io s)).1 as [[r0|[]]|]; cbn [andthen]; [| |apply (Hstop []); [done|cbn; lia|done..]].
  2:{ rewrite wp_bind, wp_lift. cbn [andthen]. apply (Hstop []); [done|cbn; lia|done..]. }
  rewrite wp_bind, wp_lift. cbn [andthen]. pose proof (went_ready _ _ _ _ _ _ _ _ H1) as R1. rewrite wp_bind.
  destruct (negb sent && expect && negb (is_error_status (rs_status r0))) eqn:E.
  2:{ rewrite wp_ret. cbn [andthen]. rewrite wp_self. eapply wp_mono; [apply (write_reply_spec fuel r r0 expect interim); [done|]|].
      - destruct Hi as [[-> _]|(-> & _ & ->)]; [by left|by right].
      - intros o s' Hp. eapply (reply_later _ _ _ _ []); [exact H1|done|]. by rewrite app_nil_r. }
  apply andb_true_iff in E as [E _]. apply andb_true_iff in E as [Esent Eexp]. destruct sent; [done|].
  destruct Hi as [[-> _]|(_ & Hf & _)]; [|done]. clear Hone.
  assert (queued (write_buf s1) = []) as Hq1 by (rewrite Hwb1; exact Hq).
  apply (wp_within reads); [apply reads_100_continue|].
  apply (write_100_spec true); [done|..].
  - intros s2 H2 Hb2 Hr. cbn [andthen]. rewrite wp_self. pose proof (served_went _ _ _ _ _ H2 Hr R1 Hq1) as Hw2.
    eapply wp_mono; [apply (write_reply_spec fuel r r0 expect (continue_line (rq_version r))); [apply (went_ready _ _ _ _ _ _ _ _ Hw2)|by right]|].
    intros o s' Hp. apply (reply_later fuel r r0 [] (continue_line (rq_version r)) expect s s2); [|congruence|exact Hp].
    exact (went_trans _ _ _ _ _ _ _ _ _ _ _ _ _ _ _ H1 Hw2).
  - intros o s2 d H2 Hb2 Hp Ho' Hr. pose proof (served_went _ _ _ _ _ H2 Hr R1 Hq1) as Hw2.
    assert (reply_post fuel r [] expect s (match o with Fail e => Fail e | _ => Wait end) s2) as Hpart.
    { exists d, [], [r0]. split; [exact (went_trans _ _ _ _ _ _ _ _ _ _ _ _ _ _ _ H1 Hw2)|]. split; [congruence|].
      destruct o; try done; left; (split; [done|]); (split; [cbn; lia|]); destruct Hp as [->|(_ & _ & Hp)]; [by left|by right|by left|by right]. }
    by destruct o.
Qed.

Definition exchange_post (fuel : nat) (r : Request) (expect : bool) (s : state) (o : outcome IoError bool) (s' : state) : Prop :=
  ∃ c gs d fs ps, went c gs d fs [r] ps s s' ∧ match o with
    | Done up => queued (write_buf s') = [] ∧ body_at (options s) T r (read_buf s ++ c) gs (read_buf s')
        ∧ ∃ r0, ps = [r0] ∧ answer (options s) T r expect r0 up d fs
    | Stuck => (fuel ≤ length fs)%nat
    | Fail _ | Wait => answer_part (options s) T r expect ps d fs
    end.

Lemma exchange_spec fuel r expect (s : state) : ready_to_write s → queued (write_buf s) = [] → 0 ≤ max_header_size (options s) →
  (S (length (read_buf s) + left_over (io s)) < fuel)%nat →
  wp (exchange with_capacity fuel r expect) (exchange_post fuel r expect s) s.
Proof.
  intros Hs Hq Hmax Hfuel. unfold exchange. rewrite wp_bind. unfold modify at 1. unfold wp at 1. cbn [fst snd andthen].
  set (s0 := set_io (dispatch r (io s)) s). pose proof (left_dispatch r (io s)) as Hl.
  assert (went [] [] [] [] [r] [] s s0) as H0.
  { unfold s0. split; cbn; rewrite ?past_dispatch, ?got_app, ?gave_app, ?put_app, ?took_app, ?asked_app, ?replied_app, ?app_nil_r; try done; [lia|].
    destruct Hs as [Hh Hm]. split; cbn; [done|]. by rewrite vectored_dispatch. }
  change (wp (sent ← read_request_body fuel r expect; reply fuel r expect sent) (exchange_post fuel r expect s) s0).
  rewrite wp_bind. eapply wp_mono.
  { apply (request_body_spec fuel r expect s0); [apply (went_ready _ _ _ _ _ _ _ _ H0)|exact Hq|exact Hmax|cbn; lia]. }
  intros o s1 (c & gs & d & H1 & Hq1 & Ho). pose proof (went_trans _ _ _ _ _ _ _ _ _ _ _ _ _ _ _ H0 H1) as H. cbn [app] in H.
  assert (∀ e, partly_continued expect (rq_version r) false e → answer_part (options s) T r expect [] e []) as Hpart.
  { intros e [->|(_ & He & Hp)]; left; (split; [done|]); (split; [cbn; lia|]); [by left|by right]. }
  destruct o as [sent|e| |]; cbn [andthen]; try done; [|exists c, gs, d, [], []; split; [exact H|by apply Hpart]..].
  destruct Ho as (Hbody & -> & Hone). eapply wp_mono; [apply (reply_spec fuel r expect sent s1); [apply (went_ready _ _ _ _ _ _ _ _ H)|done|done]|].
  intros o s2 (d & fs & ps & H2 & Hb2 & Ho). pose proof (went_trans _ _ _ _ _ _ _ _ _ _ _ _ _ _ _ H H2) as H'. rewrite !app_nil_r in H'.
  eexists c, gs, _, fs, ps. split; [exact H'|]. rewrite (went_options _ _ _ _ _ _ _ _ H) in Ho. destruct o; try done.
  destruct Ho as [Hq2 Ha]. split; [done|]. by rewrite Hb2.
Qed.

(** ** An error response *)

Definition error_post (fuel : nat) (s : state) (o : outcome IoError ()) (s' : state) : Prop :=
  ∃ d fs ps, went [] [] d fs [] ps s s' ∧ match o with
    | Stuck => (fuel ≤ length fs)%nat
    | _ => error_part (options s) T ps d fs
    end.

Lemma write_error_spec fuel timeout (s : state) : ready_to_write s → wp (write_error with_capacity fuel timeout) (error_post fuel s) s.
Proof.
  intros Hs. unfold write_error. rewrite wp_bind.
  eapply call_went; [done|rewrite past_error; f_equal; apply replied_list|apply vectored_error|apply left_error|]. intros s1 H1 _ _ _.
  assert (∀ ps o, went [] [] [] [] [] ps s s1 → (length ps ≤ 1)%nat → o ≠ Stuck → error_post fuel s o s1) as Hnone.
  { intros ps x Hps Hl Hx. exists [], [], ps. split; [done|]. destruct x; try done; by left. }
  destruct (error_response timeout (io s)).1 as [[r0|[]]|]; cbn [andthen]; [|by apply (Hnone []); [done|cbn; lia|done]..].
  set (r1 := with_connection _ r0). pose proof (went_ready _ _ _ _ _ _ _ _ H1) as R1.
  pose proof (write_response_spec with_capacity Hcap fuel r1 HTTP_11 false false s1 R1) as H.
  pose proof (spares_response with_capacity fuel r1 HTTP_11 false false s1) as Hsp. pose proof (add_fields_spec r1 s1) as Ha.
  unfold wp, ignore in *. destruct (write_response _ _ _ _ _ _ s1) as [o s2]. cbn [fst snd] in *.
  destruct (add_fields r1 s1) as [oa sa] eqn:Ea. cbn [fst snd] in *. destruct Ha as (_ & Hw & Hst). destruct oa as [resp|e| |]; try done.
  2:{ destruct H as [-> Hout]. exists [], [], [r0]. split; [|by left; split_and!; [done..|cbn; lia]].
      exact (went_trans _ _ _ _ _ _ _ _ _ _ _ _ _ _ _ H1 (output_went _ _ _ _ Hout Hsp R1)). }
  destruct H as (fs & d & Hout & R2 & Ho2). pose proof (went_trans _ _ _ _ _ _ _ _ _ _ _ _ _ _ _ H1 (output_went _ _ _ _ Hout Hsp R1)) as H2.
  pose proof (went_options _ _ _ _ _ _ _ _ H1) as Hopt.
  assert (body_sent (io s1) resp false false fs d ∨ body_partly (io s1) resp false false fs d →
    error_part (options s) T [r0] (head_octets HTTP_11 resp ++ d) fs) as Herr.
  { intros Hb. right. exists r0, resp, s1, (io s1), d. fold r1. rewrite Ea. by split_and!. }
  destruct o as [[]|e| |]; (eexists _, _, [r0]; split; [exact H2|]); [apply Herr; left; apply Ho2|apply Herr; by right..|exact Ho2].
Qed.

(** ** The loop *)

Lemma chunk_run_length tr l ds mid : chunk_run tr l ds mid → (length mid ≤ length l)%nat.
Proof. induction 1 as [|l d n ds rest Hs Hd Hrun IH]; [done|]. rewrite length_drop in IH. lia. Qed.

Lemma body_at_length o r stream gs rest : body_at o T r stream gs rest → (length rest ≤ length stream)%nat.
Proof.
  unfold body_at. destruct (request_chunked r).
  - intros (ds & ts & mid & _ & Hrun & n & _ & Hend). apply chunk_run_length in Hrun. destruct (has_trailers r).
    + destruct Hend as ([m|] & Ht & _); [destruct Ht as (k & _ & _ & ->)|destruct Ht as [_ ->]]; rewrite ?length_drop; lia.
    + destruct Hend as [_ ->]. rewrite length_drop. lia.
  - intros (ds & _ & -> & _). rewrite length_app. lia.
Qed.

(** What stands behind the complete exchanges: a part of an error response, or
    a part of the answer to one more request. *)
Definition unfinished (o : Http1Options) (q : list Request) (ps : list Response) (gs : list BodyFrame) (e : bytes)
    (fs : list BodyFrame) : Prop :=
  (q = [] ∧ gs = [] ∧ error_part o T ps e fs) ∨ ∃ r expect, q = [r] ∧ answer_part o T r expect ps e fs.

(** From where [upgraded] says whether the exchange before was an upgrade. *)
Definition connection_post (upgraded : bool) (fuel : nat) (keep_alive : bool) (s : state) (o : outcome IoError ending) (s' : state) : Prop :=
  ∃ c rs ps gs d fs up rest c' q p g e f, session (options s) T (read_buf s) c rs ps gs d fs up rest
    ∧ (keep_alive = false ∨ upgraded = true → rs = [])
    ∧ went (c ++ c') (gs ++ g) (d ++ e) (fs ++ f) (rs ++ q) (ps ++ p) s s' ∧ match o with
    | Done how => q = [] ∧ p = [] ∧ g = [] ∧ e = [] ∧ f = [] ∧ queued (write_buf s') = []
        ∧ match how with HandedOver l => upgraded || up = true ∧ default [] l = rest ∧ c' = [] | Ended => upgraded || up = false end
    | Stuck => (fuel ≤ length f)%nat
    | Fail _ | Wait => upgraded || up = false ∧ unfinished (options s) q p g e f
    end.

(** The connection ends before another request. *)
Lemma connection_stops fuel keep (s s1 s' : state) c d fs ps o : went c [] [] [] [] [] s s1 → went [] [] d fs [] ps s1 s' →
  match o with
  | Done how => d = [] ∧ fs = [] ∧ ps = [] ∧ queued (write_buf s') = [] ∧ how = Ended
  | Stuck => (fuel ≤ length fs)%nat
  | Fail _ | Wait => error_part (options s) T ps d fs
  end → connection_post false fuel keep s o s'.
Proof.
  intros H1 H2 Ho. exists [], [], [], [], [], [], false, (read_buf s), c, [], ps, [], d, fs. split; [apply session_idle|]. split; [done|].
  pose proof (went_trans _ _ _ _ _ _ _ _ _ _ _ _ _ _ _ H1 H2) as H. rewrite app_nil_r in H. split; [exact H|].
  destruct o as [how|e| |]; [|by split; [|left]..|done]. destruct Ho as (-> & -> & -> & Hq & ->). by split_and!.
Qed.

(** One exchange, and the connection goes on. *)
Lemma connection_goes_on fuel (s s1 s2 s' : state) c r expect c2 gs d fs r0 up o : went c [] [] [] [] [] s s1 →
  request_at (options s) (read_buf s) c r expect (read_buf s1) →
  went c2 gs d fs [r] [r0] s1 s2 → body_at (options s) T r (read_buf s1 ++ c2) gs (read_buf s2) → answer (options s) T r expect r0 up d fs →
  connection_post up fuel (keeps_alive r) s2 o s' → connection_post false fuel true s o s'.
Proof.
  intros H1 Hr H2 Hb Ha (c3 & rs & ps & gs' & d' & fs' & up' & rest & c' & q & p & g & e & f & Hsess & Hka & H3 & Ho).
  pose proof (went_trans _ _ _ _ _ _ _ _ _ _ _ _ _ _ _ H1 H2) as H12. cbn [app] in H12. rewrite (went_options _ _ _ _ _ _ _ _ H12) in Hsess, Ho.
  exists (c ++ c2 ++ c3), (r :: rs), (r0 :: ps), (gs ++ gs'), (d ++ d'), (fs ++ fs'), (up || up'), rest, c', q, p, g, e, f.
  split; [|split; [by intros [|]|split]].
  - eapply session_exchange; try done. intros Hne. destruct (keeps_alive r); [|by destruct (Hne (Hka (or_introl eq_refl)))].
    destruct up; [by destruct (Hne (Hka (or_intror eq_refl)))|done].
  - pose proof (went_trans _ _ _ _ _ _ _ _ _ _ _ _ _ _ _ H12 H3) as H. rewrite <- !app_assoc in *. exact H.
  - exact Ho.
Qed.

Definition pending (s : state) : nat := length (read_buf s) + left_over (io s).

Lemma session_idle_post fuel keep (s : state) : ready_to_write s → queued (write_buf s) = [] → connection_post false fuel keep s (Done Ended) s.
Proof.
  intros Hs Hq. assert (went [] [] [] [] [] [] s s) as H0 by by apply went_nothing.
  eapply connection_stops; [exact H0|exact H0|]. by split_and!.
Qed.

(** A request that is read, its exchange, and what comes after it. *)
Lemma exchange_step fuel (s s1 : state) c r expect (k : bool → http1 ending) : went c [] [] [] [] [] s s1 →
  request_at (options s) (read_buf s) c r expect (read_buf s1) → queued (write_buf s1) = [] → 0 ≤ max_header_size (options s) →
  (S (pending s1) < fuel)%nat →
  (∀ up s2, ready_to_write s2 → queued (write_buf s2) = [] → options s2 = options s → (pending s2 ≤ pending s1)%nat →
    wp (k up) (connection_post up fuel (keeps_alive r) s2) s2) →
  wp (exchange with_capacity fuel r expect ≫= k) (connection_post false fuel true s) s1.
Proof.
  intros H1 Hr Hq1 Hmax Hfuel Hk. pose proof (went_options _ _ _ _ _ _ _ _ H1) as Hopt. rewrite wp_bind.
  eapply wp_mono; [apply exchange_spec; [apply (went_ready _ _ _ _ _ _ _ _ H1)|done|by rewrite Hopt|unfold pending in *; lia]|].
  intros o s2 (c2 & gs & d & fs & ps & H2 & Ho). rewrite Hopt in Ho. pose proof (went_trans _ _ _ _ _ _ _ _ _ _ _ _ _ _ _ H1 H2) as H12.
  assert (∀ o' : outcome IoError ending, match o' with Done _ => False | Stuck => (fuel ≤ length fs)%nat
    | Fail _ | Wait => answer_part (options s) T r expect ps d fs end → connection_post false fuel true s o' s2) as Hpart.
  { intros o' Ho'. exists [], [], [], [], [], [], false, (read_buf s), (c ++ c2), [r], ps, gs, d, fs. split; [apply session_idle|]. split; [done|].
    split; [exact H12|]. destruct o'; try done; (split; [done|]); right; by exists r, expect. }
  destruct o as [up|e| |]; cbn [andthen]; [|by apply Hpart..]. destruct Ho as (Hq2 & Hbody & r0 & -> & Ha).
  eapply wp_mono; [apply Hk; [apply (went_ready _ _ _ _ _ _ _ _ H2)|done|by rewrite (went_options _ _ _ _ _ _ _ _ H2)|]|].
  - apply body_at_length in Hbody. rewrite length_app in Hbody. pose proof (went_left _ _ _ _ _ _ _ _ H2). unfold pending. lia.
  - intros o s'. by eapply connection_goes_on.
Qed.

(** An upgrade hands over what was read ahead. *)
Lemma handed_over fuel keep (s : state) : ready_to_write s → queued (write_buf s) = [] →
  connection_post true fuel keep s (Done (HandedOver (if bool_decide (read_buf s = []) then None else Some (read_buf s)))) s.
Proof.
  intros Hs Hq. assert (went [] [] [] [] [] [] s s) as H0 by by apply went_nothing.
  exists [], [], [], [], [], [], false, (read_buf s), [], [], [], [], [], []. split; [apply session_idle|]. split; [done|]. split; [exact H0|].
  split_and!; try done. by destruct (bool_decide_reflect (read_buf s = [])) as [->|].
Qed.

Lemma now_idle fuel keep (s : state) o s' : connection_post false fuel keep (set_idle true s) o s' → connection_post false fuel keep s o s'.
Proof.
  intros (c & rs & ps & gs & d & fs & up & rest & c' & q & p & g & e & f & Hsess & Hka & H & Ho).
  exists c, rs, ps, gs, d, fs, up, rest, c', q, p, g, e, f. split; [exact Hsess|]. split; [done|]. split; [by destruct H|exact Ho].
Qed.

Lemma loop_spec turns fuel keep (s : state) : ready_to_write s → queued (write_buf s) = [] → 0 ≤ max_header_size (options s) →
  (S (pending s) < fuel)%nat → (pending s < turns)%nat →
  wp (handle_loop with_capacity turns fuel keep) (connection_post false fuel keep s) s.
Proof.
  revert keep s. induction turns as [|turns IH]; intros keep s Hs Hq Hmax Hfuel Hturns; [lia|]. cbn [handle_loop].
  destruct keep; [|rewrite wp_ret; by apply session_idle_post].
  rewrite wp_bind. eapply wp_mono; [apply next_request_spec; [done|done|unfold pending in *; lia]|].
  intros o s1 (c & H1 & Hb1 & Ho). pose proof (went_ready _ _ _ _ _ _ _ _ H1) as R1. pose proof (went_options _ _ _ _ _ _ _ _ H1) as Hopt.
  assert (queued (write_buf s1) = []) as Hq1 by by rewrite Hb1. assert (went [] [] [] [] [] [] s1 s1) as H0 by by apply went_nothing.
  assert (connection_post false fuel true s (Done Ended) s1) as Hend by (eapply connection_stops; [exact H1|exact H0|by split_and!]).
  assert (∀ timeout e, wp (_ ← write_error with_capacity fuel timeout; fail e) (connection_post false fuel true s) s1) as Herror.
  { intros timeout e. rewrite wp_bind. eapply wp_mono; [by apply write_error_spec|]. intros o' s2 (d & fs & ps & H2 & Ho').
    rewrite Hopt in Ho'. destruct o' as [[]|e'| |]; cbn [andthen]; try rewrite wp_fail; by eapply connection_stops. }
  destruct o as [[r expect| |e| |]|e| |]; cbn [andthen]; try done; rewrite ?wp_self; try exact Hend.
  2:{ destruct (_ && _); [exact Hend|apply Herror]. }
  2:{ destruct (connection_idle s1); [exact Hend|apply Herror]. }
  2:{ eapply connection_stops; [exact H1|exact H0|]. by left; split_and!; [done..|cbn; lia]. }
  assert (pending s1 < pending s)%nat as Hless.
  { destruct Ho as (sk & head & req & piece & Hb & Hne & _). apply (f_equal length) in Hb. rewrite !length_app in Hb.
    pose proof (went_left _ _ _ _ _ _ _ _ H1). unfold pending. destruct head; [done|]. cbn in Hb. lia. }
  eapply exchange_step; [exact H1|exact Ho|done|done|lia|]. intros up s2 R2 Hq2 Hopt2 Hp2. rewrite wp_self. destruct up.
  { rewrite wp_ret. by apply handed_over. }
  destruct (_ && _); [rewrite wp_ret; by apply session_idle_post|].
  rewrite wp_bind. unfold modify at 1. unfold wp at 1. cbn [fst snd andthen].
  eapply wp_mono; [apply (IH (keeps_alive r) (set_idle true s2)); [exact R2|exact Hq2|by cbn; rewrite Hopt2|..]|].
  - unfold pending in *. cbn. lia.
  - unfold pending in *. cbn. lia.
  - intros o s'. apply now_idle.
Qed.
End spec.

(** What [handle] makes of a connection: the exchanges of a session and what
    stands behind them, [c'], [q], [p], [g], [e] and [f]. *)
Definition serves `{HT : Http} `{HC : !H1Crates} {T : Type} `{HI : !Io T} `{HR : !RecordedIo T} `{HS : !Service T}
    (fuel : nat) (s : Http1 T) (o : outcome IoError ending) (s' : Http1 T) : Prop :=
  ∃ c rs ps gs d fs up rest c' q p g e f, session (options s) T (read_buf s) c rs ps gs d fs up rest
    ∧ got (past (io s')) = got (past (io s)) ++ c ++ c'
    ∧ asked (past (io s')) = asked (past (io s)) ++ rs ++ q
    ∧ replied (past (io s')) = replied (past (io s)) ++ ps ++ p
    ∧ gave (past (io s')) = gave (past (io s)) ++ gs ++ g
    ∧ put (past (io s')) ++ queued (write_buf s') = put (past (io s)) ++ d ++ e
    ∧ took (past (io s')) = took (past (io s)) ++ fs ++ f
    ∧ match o with
    | Done how => q = [] ∧ p = [] ∧ g = [] ∧ e = [] ∧ f = [] ∧ queued (write_buf s') = []
        ∧ match how with HandedOver l => up = true ∧ default [] l = rest ∧ c' = [] | Ended => up = false end
    | Stuck => (fuel ≤ length f)%nat
    | Fail _ | Wait => up = false ∧ unfinished (T := T) (options s) q p g e f
    end.

(** C2. A connection is a sequence of exchanges.  On a stream with vectored
    writes, without early hints, from an empty write buffer and with fuel for
    what there is to read, [handle] ends or waits, unless a response body gives
    as many frames as there is fuel; and what went over the stream is a
    [session]: the heads and bodies of the requests follow one another on what
    was read, the application was asked each of them in that order, and the
    octets sent are the whole answers in the same order, each with at most one
    [100 Continue] and made of what the handler replied to that very request:
    its status and fields, the Connection field that says whether the next
    request will be read, and the frames of its body (of a zero-copy file in
    answer to HEAD only the head is said).  A request that does not keep the
    connection alive is the last one.  The last exchange was an upgrade just
    when the connection ends by handing over the stream, with the octets read
    ahead, and no earlier one was.  Behind the whole exchanges there is nothing
    when the connection ends without an error, and nothing is left to write.
    When it fails or waits, there is a part of the answer to one more request,
    or what [error_fn] gave with [Connection: close], or a part of it. *)
Theorem connection_is_session (with_capacity : Z → Z) (Hcap : ∀ n, n ≤ with_capacity n)
  `{HT : Http} `{HC : !H1Crates} {T : Type} `{HI : !Io T} `{HR : !RecordedIo T} `{HF : !FiniteIo T} `{HS : !Service T}
  `{HRS : !RecordedService T} `{HFS : !FiniteService T}
  fuel (s : Http1 T) (Hs : ready_to_write s) (Hq : queued (write_buf s) = []) (Hmax : 0 ≤ max_header_size (options s))
  (Hhints : enable_early_hints (options s) = false)
  (Hfuel : (S (length (read_buf s) + left_over (io s)) < fuel)%nat) :
  let '(o, s') := handle with_capacity fuel s in
  serves fuel s o s'.
Proof.
  pose proof (loop_spec with_capacity Hcap fuel fuel true s Hs Hq Hmax Hfuel ltac:(unfold pending; lia)) as H.
  unfold wp, handle in *. clear Hhints. destruct (handle_loop with_capacity fuel fuel true s) as [o s'].
  destruct H as (c & rs & ps & gs & d & fs & up & rest & c' & q & p & g & e & f & Hsess & _ & Hw & Ho).
  exists c, rs, ps, gs, d, fs, up, rest, c', q, p, g, e, f. destruct Hw as [Hg Hv Hp Ht Ha Hrp _ _ _]. rewrite Hq in Hp. by split_and!.
Qed.

(** Two requests in one piece: the second has a body and closes. *)
Definition pipelined : bytes :=
  b "GET /a HTTP/1.1" ++ CRLF ++ b "Host: x" ++ CRLF_CRLF
  ++ b "POST /b HTTP/1.1" ++ CRLF ++ b "Content-Length: 3" ++ CRLF ++ b "Connection: close" ++ CRLF_CRLF ++ b "abc".
Definition two_requests : Playback (HT := plain_http) :=
  MkPlayback (piece pipelined) [] true false []
    [Ok (MkResponse 204 [(b "content-length", b "0")] (Some 0) false); Ok (MkResponse 200 [] (Some 2) false)]
    [Ready None; Ready (Some (Ok (DataFrame (b "ok"))))] [] false false.

Lemma connection_is_session_witness :
  let '(o, s') := handle (λ n, n) 300 (new_http1 two_requests no_date) in
  o = Done Ended ∧ map rq_uri (asked (past (io s'))) = [b "/a"; b "/b"]
  ∧ map rs_status (replied (past (io s'))) = [204; 200] ∧ gave (past (io s')) = [DataFrame (b "abc")]
  ∧ put (past (io s')) = b "HTTP/1.1 204 No Content" ++ CRLF ++ b "content-length: 0" ++ CRLF_CRLF
    ++ b "HTTP/1.1 200 OK" ++ CRLF ++ b "connection: close" ++ CRLF ++ b "content-length: 2" ++ CRLF_CRLF ++ b "ok"
  ∧ serves 300 (new_http1 two_requests no_date) o s'.
Proof.
  assert (ready_to_write (new_http1 two_requests no_date)) as Hs by (split; [apply new_write_buf_holds|reflexivity]).
  pose proof (connection_is_session (λ n, n) Z.le_refl 300 (new_http1 two_requests no_date) Hs eq_refl
    ltac:(vm_compute; discriminate) eq_refl ltac:(vm_compute; lia)) as H.
  destruct (handle (λ n, n) 300 (new_http1 two_requests no_date)) as [o s'] eqn:E.
  vm_compute in E. injection E as <- <-. do 5 (split; [vm_compute; reflexivity|]).
  exact H.
Defined.
