(* ===== verification/H1Deviations.v ===== *)
(** * Where HTTP/1 is read or written another way than it is specified

    Runs of the model on inputs where what the code does differs from RFC 9112
    or from what the code around it means to do. *)

From S2P Require Import Prelude Poll H2Request H1Io H1WriteBuf H1Wire H1State H1Plain H1Read H1ReadSpec H1Body H1Write H1WriteSpec H1Chunks H1Connection.

(** ** Bodies *)

(** A plus sign is read before a chunk size, and an extension is refused. *)
Lemma chunk_size_syntax :
  scan_size (b "+5" ++ CRLF) = SizeAt 4 5 ∧ scan_size (b "5;name=value" ++ CRLF) = BadSize invalid_chunk_length.
Proof. split; reflexivity. Qed.

(** Whatever two octets stand behind the data of a chunk are dropped. *)
Lemma chunk_end_unchecked d x y k : zlen d = 5 →
  scan_chunk false (b "5" ++ CRLF ++ d ++ [x; y] ++ k) = ChunkAt d 10.
Proof.
  intros Hd. unfold scan_chunk. assert (Forall plain_digit (b "5")) as Hp by (apply Forall_singleton; reflexivity).
  assert (length (b "5") ≤ 16)%nat as Hl by (change (length (b "5")) with 1%nat; lia).
  rewrite (scan_size_line (b "5") 5 (d ++ [x; y] ++ k) Hp Hl eq_refl). rewrite !zlen_app, Hd. pose proof (zlen_nonneg k).
  change (zlen (b "5")) with 1. change (zlen CRLF) with 2. change (zlen [x; y]) with 2. change ((5 =? 0) && false) with false.
  change (u64_max <? 5 + 2) with false. cbn iota. replace (1 + 2 + 5 + 2 <=? _) with true by lia. f_equal.
  apply take_app_length'. unfold zlen in Hd. change (Z.to_nat 5) with 5%nat. lia.
Qed.

(** Trailers without a Trailer field. *)
Definition smuggled : bytes :=
  b "POST /a HTTP/1.1" ++ CRLF ++ b "Transfer-Encoding: chunked" ++ CRLF_CRLF
  ++ b "0" ++ CRLF ++ b "X-GET /hidden HTTP/1.1" ++ CRLF ++ b "Host: x" ++ CRLF_CRLF.
Definition empty_reply : Response (HT := plain_http) := MkResponse 204 [(b "content-length", b "0")] (Some 0) false.
Definition answering (l : list arrival) (rs : list Response) : Playback (HT := plain_http) :=
  MkPlayback l [] true false [] (Ok <$> rs) [] [] false false.

(** Trailers that no Trailer field announces become a request.  The reader of
    the body drops the two octets behind the last chunk and stops; the rest of
    the trailer section is read as the head of the next request, and the
    application is asked for it. *)
Lemma trailers_become_a_request :
  let s' := (handle (λ n, n) 300 (new_http1 (answering (piece smuggled) [empty_reply; empty_reply]) no_date)).2 in
  map rq_method (asked (past (io s'))) = [b "POST"; b "GET"]
  ∧ map rq_uri (asked (past (io s'))) = [b "/a"; b "/hidden"].
Proof. vm_compute. split; reflexivity. Qed.

(** Content-Length: no number is a length of zero, a sign is read, the first of
    several counts; and only the token [chunked] of Transfer-Encoding counts. *)
Definition posting (fields : list (bytes * bytes)) : Request (HT := plain_http) :=
  MkRequest (HT := plain_http) (b "POST") (b "/") HTTP_11 fields.

Lemma body_length_lenient :
  request_length (posting [(b "content-length", b "ten")]) = 0
  ∧ request_length (posting [(b "content-length", b "+5")]) = 5
  ∧ request_length (posting [(b "content-length", b "5"); (b "content-length", b "6")]) = 5
  ∧ request_chunked (posting [(b "transfer-encoding", b "gzip")]) = false
  ∧ request_chunked (posting [(b "transfer-encoding", b "chunked, gzip")]) = true.
Proof. vm_compute. split_and!; reflexivity. Qed.

(** ** Heads *)

(** A CRLF before a request is skipped when it comes with it, and makes the
    first line bad when it comes before. *)
Definition get_a : bytes := b "GET /a HTTP/1.1" ++ CRLF_CRLF.

Lemma leading_crlf_by_pieces :
  (get_head 50 (new_http1 (pieces [CRLF ++ get_a]) new_options)).1 = Done (Some get_a)
  ∧ (get_head 50 (new_http1 (pieces [CRLF; get_a]) new_options)).1 = Fail bad_first_line.
Proof. vm_compute. split; reflexivity. Qed.

(** A line that ends with LF and an empty one that ends with CRLF do not end a head. *)
Lemma mixed_line_ends : search_header_body_separator (b "GET / HTTP/1.1" ++ [0x0a] ++ CRLF) = None.
Proof. reflexivity. Qed.

(** ** Responses *)

(** A stream without vectored writes that takes twenty octets and then waits. *)
Definition slow_frames : Playback (HT := plain_http) :=
  MkPlayback [] [Blocks 20] false false []
    [] [Ready (Some (Ok (DataFrame (b "hello")))); Pending; Ready (Some (Ok (DataFrame (b "you"))))] [] false false.

(** Octets of a response can be sent twice.  Without vectored writes, a flush
    that is dropped because the next frame of the body is there starts over: the
    twenty octets it had written are written again. *)
Lemma dropped_flush_repeats :
  let r := MkResponse 200 [(b "content-length", b "8")] (Some 8) false in
  let '(o, s') := write_response (λ n, n) 9 r HTTP_11 false false (new_http1 slow_frames no_date) in
  o = Done () ∧ put (past (io s')) = b "HTTP/1.1 200 OK" ++ CRLF ++ b "con"
    ++ b "HTTP/1.1 200 OK" ++ CRLF ++ b "content-length: 8" ++ CRLF_CRLF ++ b "helloyou".
Proof. vm_compute. split; reflexivity. Qed.

(** Trailers follow a body of a known length as if it were chunked. *)
Lemma trailers_without_chunks `{HT : Http} `{HC : !H1Crates} d m : d ≠ [] →
  body_octets false true [DataFrame d; TrailersFrame m] = d ++ trailer_octets m.
Proof.
  intros Hd. unfold body_octets. cbn. unfold data_octets. rewrite bool_decide_false by done. by rewrite !app_nil_r.
Qed.

(** The framing does not ask for the version or the status: an HTTP/1.0 client
    and a 204 get chunks. *)
Lemma always_chunked :
  let '(o, s') := write_response (λ n, n) 9 (MkResponse 204 [] None false) HTTP_10 false false
    (new_http1 (answering [] []) no_date) in
  o = Done () ∧ put (past (io s')) = b "HTTP/1.0 204 No Content" ++ CRLF ++ b "transfer-encoding: chunked" ++ CRLF_CRLF ++ b "0" ++ CRLF_CRLF.
Proof. vm_compute. split; reflexivity. Qed.

(** A service that sends files. *)
Definition file_service : Service (Playback (HT := plain_http)) := {|
  dispatch := dispatch; respond := respond; error_response := error_response; next_frame := next_frame;
  was_upgraded := was_upgraded; is_cancelled := is_cancelled; interruption := interruption; clock := clock;
  zerocopy_enabled _ := true; send_file := send_file |}.

(** A file is sent in answer to HEAD: the branch of the file does not ask for
    [is_head]. *)
Lemma head_sends_file :
  let r := MkResponse 200 [(b "content-length", b "5")] (Some 5) true in
  let '(o, s') := write_response (HS := file_service) (λ n, n) 9 r HTTP_11 false true (new_http1 (answering [] []) no_date) in
  o = Done () ∧ put (past (io s')) = b "HTTP/1.1 200 OK" ++ CRLF ++ b "content-length: 5" ++ CRLF_CRLF ++ replicate 5 0.
Proof. vm_compute. split; reflexivity. Qed.
