(* ===== verification/Upgrade.v ===== *)
(** * The stream of an upgraded connection (src/src/upgrade.rs)

    [Upgraded]: the octets the connection had read ahead come first, then the
    stream; once it has ended, a broken pipe is no error.  The two halves of the
    stream are third-party code, the operations of the section.  [Upgrade],
    [OnUpgrade] and [prepare_upgrade] are how a handler comes by it. *)

From S2P Require Import Prelude Poll H2Request H1Io H1WriteBuf H1Wire H1State H1Plain H1Connection.

Section upgraded.
Context {T : Type}.
Context (stream_read : Z → T → poll (result IoError bytes) * T).
Context (stream_write : bytes → T → poll (result IoError Z) * T).
Context (stream_write_vectored : list bytes → T → poll (result IoError Z) * T).
Context (stream_flush stream_shutdown : T → poll (result IoError ()) * T).

Record Upgraded : Type := MkUpgraded {
  stream : T;
  leftover : option bytes;
  has_ended : bool;
}.

Definition new_upgraded (t : T) (l : option bytes) : Upgraded := MkUpgraded t l false.

(** [poll_read] into a buffer with so much room. *)
Definition poll_read (room : Z) (u : Upgraded) : poll (result IoError bytes) * Upgraded :=
  match leftover u with
  | Some l =>
      let slice_len := Z.min (zlen l) room in
      let rest := drop (Z.to_nat slice_len) l in
      (Ready (Ok (take (Z.to_nat slice_len) l)),
        MkUpgraded (stream u) (if bool_decide (rest = []) then None else Some rest) (has_ended u))
  | None =>
      let '(r, t) := stream_read room (stream u) in
      match r with
      | Pending => (Pending, MkUpgraded t None (has_ended u))
      | Ready (Ok []) => (Ready (Ok []), MkUpgraded t None true)
      | Ready (Ok c) => (Ready (Ok c), MkUpgraded t None (has_ended u))
      | Ready (Err e) => (Ready (if bool_decide (error_kind e = UnexpectedEof) then Ok [] else Err e), MkUpgraded t None true)
      end
  end.

(** What the writing half makes of a result: [ended] stands for a broken pipe
    after the end. *)
Definition forgiving {A} (ended : A) (u : Upgraded) (r : poll (result IoError A)) : poll (result IoError A) :=
  match r with
  | Ready (Err e) => if has_ended u && bool_decide (error_kind e = BrokenPipe) then Ready (Ok ended) else r
  | _ => r
  end.

Definition with_stream (u : Upgraded) (t : T) : Upgraded := MkUpgraded t (leftover u) (has_ended u).
Definition poll_write (d : bytes) (u : Upgraded) : poll (result IoError Z) * Upgraded :=
  let '(r, t) := stream_write d (stream u) in (forgiving 0 u r, with_stream u t).
Definition poll_flush (u : Upgraded) : poll (result IoError ()) * Upgraded :=
  let '(r, t) := stream_flush (stream u) in (forgiving () u r, with_stream u t).
Definition poll_shutdown (u : Upgraded) : poll (result IoError ()) * Upgraded :=
  let '(r, t) := stream_shutdown (stream u) in (forgiving () u r, with_stream u t).

Definition poll_write_vectored (bufs : list bytes) (u : Upgraded) : poll (result IoError Z) * Upgraded :=
  let '(r, t) := stream_write_vectored bufs (stream u) in (r, with_stream u t).

(** Reads one after the other: the octets they gave. *)
Fixpoint read_all (rooms : list Z) (u : Upgraded) : bytes * Upgraded :=
  match rooms with
  | [] => ([], u)
  | room :: rooms =>
      let '(r, u) := poll_read room u in
      let '(l, u) := read_all rooms u in
      (match r with Ready (Ok c) => c | _ => [] end ++ l, u)
  end.

(** The octets the stream has given. *)
Context (given : T → bytes).
Context (given_read : ∀ room t, given (stream_read room t).2 = given t ++ match (stream_read room t).1 with Ready (Ok c) => c | _ => [] end).

Lemma poll_read_conserves room u :
  ∃ x, given (stream (poll_read room u).2) = given (stream u) ++ x
    ∧ default [] (leftover u) ++ x = match (poll_read room u).1 with Ready (Ok c) => c | _ => [] end ++ default [] (leftover (poll_read room u).2)
    ∧ (leftover u = None → leftover (poll_read room u).2 = None).
Proof.
  unfold poll_read. destruct (leftover u) as [l|].
  - exists []. cbn. rewrite !app_nil_r. split; [done|]. split; [|done].
    case_bool_decide as E; cbn; [|by rewrite take_drop]. rewrite app_nil_r. rewrite <- (take_drop (Z.to_nat (Z.min (zlen l) room)) l) at 1.
    by rewrite E, app_nil_r.
  - pose proof (given_read room (stream u)) as Hg. destruct (stream_read room (stream u)) as [[[[|x c]|e]|] t]; cbn in *;
      eexists; (split; [exact Hg|]); rewrite ?app_nil_r; try done. by case_bool_decide.
Qed.

Lemma read_all_conserves rooms u : ∃ x, given (stream (read_all rooms u).2) = given (stream u) ++ x
  ∧ default [] (leftover u) ++ x = (read_all rooms u).1 ++ default [] (leftover (read_all rooms u).2).
Proof.
  revert u. induction rooms as [|room rooms IH]; intros u; cbn [read_all].
  { exists []. by rewrite !app_nil_r. }
  destruct (poll_read_conserves room u) as (x & Hx & Hl & _). destruct (poll_read room u) as [r u1]. cbn [fst snd] in *.
  destruct (IH u1) as (y & Hy & Hk). destruct (read_all rooms u1) as [l u2]. cbn [fst snd] in *.
  exists (x ++ y). rewrite Hy, Hx, app_assoc. split; [done|]. by rewrite app_assoc, Hl, <- !app_assoc, Hk.
Qed.

(** An error on the writing half after the end is only a broken pipe if the
    stream says something else. *)
Lemma forgiving_spec {A} (ended : A) u r :
  match forgiving ended u r with
  | Ready (Err e) => r = Ready (Err e) ∧ (has_ended u = false ∨ error_kind e ≠ BrokenPipe)
  | Ready (Ok a) => r = Ready (Ok a) ∨ a = ended ∧ has_ended u = true ∧ ∃ e, r = Ready (Err e) ∧ error_kind e = BrokenPipe
  | Pending => r = Pending
  end.
Proof.
  unfold forgiving. destruct r as [[a|e]|]; [by left| |done]. destruct (has_ended u) eqn:E; cbn; [|by split; [|left]].
  case_bool_decide; [right; split_and!; [done|done|by exists e]|split; [done|by right]].
Qed.
End upgraded.

Arguments Upgraded T : clear implicits.

(** ** Coming by it *)

Section token.
Context {U K : Type}.

(** The receiving end of a [oneshot] channel, and whether [tokio]'s mutex around
    it is free. *)
Context (receive : K → poll (result () U) * K) (lock : K → bool * K).

(** [Upgrade], whose clones share both fields; [OnUpgrade] has nothing more. *)
Record Upgrade : Type := MkUpgrade { inner : K; upgraded : bool }.
Definition new_upgrade (k : K) : Upgrade := MkUpgrade k false.

(** [Future::poll] of [Upgrade] and of [OnUpgrade]. *)
Definition poll_upgrade (u : Upgrade) : poll (option U) * Upgrade :=
  let '(free, k) := lock (inner u) in
  if negb free then (Pending, MkUpgrade k (upgraded u))
  else
    let '(r, k) := receive k in
    (match r with Ready (Ok io) => Ready (Some io) | Ready (Err _) => Ready None | Pending => Pending end, MkUpgrade k (upgraded u)).

(** [prepare_upgrade]: whether the handler gets a future.  The extension is gone
    afterwards; the token lives on in the connection. *)
Definition prepare_upgrade (extension : bool) (u : Upgrade) : bool * (bool * Upgrade) :=
  if extension then (true, (false, MkUpgrade (inner u) true)) else (false, (false, u)).

(** A handler that prepares the upgrade any number of times and awaits it. *)
Fixpoint prepare (times : nat) (extension : bool) (u : Upgrade) : list bool * Upgrade :=
  match times with
  | O => ([], u)
  | S times =>
      let '(r, (extension, u)) := prepare_upgrade extension u in
      let '(l, u) := prepare times extension u in (r :: l, u)
  end.

(** The connection is handed over when the upgrade has been prepared, and there
    is one future for it. *)
Lemma prepared_once times k : let '(l, u) := prepare times true (new_upgrade k) in
  upgraded u = bool_decide (times ≠ 0%nat) ∧ l = (if times is S n then true :: replicate n false else []) ∧ inner u = k.
Proof.
  assert (∀ n u, prepare n false u = (replicate n false, u)) as Hn.
  { induction n as [|n IH]; intros u; [done|]. cbn. by rewrite IH. }
  destruct times as [|n]; [done|]. cbn. rewrite Hn. split_and!; done.
Qed.

Lemma poll_upgrade_keeps u : upgraded (poll_upgrade u).2 = upgraded u.
Proof. unfold poll_upgrade. destruct (lock (inner u)) as [[] k]; [|done]. cbn. by destruct (receive k) as [[[io|e]|] k']. Qed.
End token.

(** ** The octets *)

(** A broken pipe after the end is no error of [poll_write], but is one of
    [poll_write_vectored]. *)
Theorem vectored_write_unforgiven {T} stream_write stream_write_vectored (u : Upgraded T) d bufs e e' t t' :
  has_ended u = true → error_kind e = BrokenPipe → stream_write d (stream u) = (Ready (Err e), t) →
  stream_write_vectored bufs (stream u) = (Ready (Err e'), t') →
  (poll_write stream_write d u).1 = Ready (Ok 0) ∧ (poll_write_vectored stream_write_vectored bufs u).1 = Ready (Err e').
Proof.
  intros Hend Hk Hw Hv. unfold poll_write, poll_write_vectored, forgiving. rewrite Hw, Hv, Hend. cbn.
  by rewrite bool_decide_true.
Qed.

(** After an upgrade nothing is lost or reordered: whatever reads follow, the
    octets they give are the octets the connection had read ahead and then those
    the stream gives, in order, and what is not read yet of the first is kept;
    the stream is not touched before they are used up. *)
Theorem upgraded_reads_in_order {T} (stream_read : Z → T → poll (result IoError bytes) * T) (given : T → bytes)
  (Hgiven : ∀ room t, given (stream_read room t).2 = given t ++ match (stream_read room t).1 with Ready (Ok c) => c | _ => [] end)
  (t : T) (ahead : option bytes) rooms :
  let '(l, u) := read_all stream_read rooms (new_upgraded t ahead) in
  ∃ x, given (stream u) = given t ++ x ∧ l ++ default [] (leftover u) = default [] ahead ++ x.
Proof.
  destruct (read_all_conserves stream_read given Hgiven rooms (new_upgraded t ahead)) as (x & Hx & Hl).
  destruct (read_all stream_read rooms (new_upgraded t ahead)) as [l u]. by exists x.
Qed.

(** A stream that is a list of octets, read as far as there is room. *)
Definition list_read (room : Z) (t : bytes * bytes) : poll (result IoError bytes) * (bytes * bytes) :=
  let c := take (Z.to_nat room) t.2 in (Ready (Ok c), (t.1 ++ c, drop (Z.to_nat room) t.2)).

Lemma upgraded_reads_in_order_witness :
  (read_all list_read [2; 9; 3] (new_upgraded ([], b "ghijk") (Some (b "abcdef")))).1 = b "abcdefghi"
  ∧ let '(l, u) := read_all list_read [2; 9; 3] (new_upgraded ([], b "ghijk") (Some (b "abcdef"))) in
    ∃ x, (stream u).1 = [] ++ x ∧ l ++ default [] (leftover u) = b "abcdef" ++ x.
Proof.
  split; [vm_compute; reflexivity|].
  exact (upgraded_reads_in_order list_read fst (λ room t, eq_refl) ([], b "ghijk") (Some (b "abcdef")) [2; 9; 3]).
Defined.
