(* ===== verification/EarlyHints.v ===== *)
(** * Early hints (src/src/early_hints.rs, src/src/h1/write.rs)

    The queue between a handler that sends [103 Early Hints] and the connection
    that writes them, and the octets they are written as. *)

From S2P Require Import Prelude Poll H2Request H1Io H1WriteBuf H1Wire H1State H1Plain H1Read H1ReadSpec H1Body H1Write H1WriteSpec.

(** ** The queue *)

Section queue.
Context {M : Type}.

(** [receiver_waker] is whether a task waits to be woken. *)
Record LazyEarlyHintsState : Type := MkHints {
  closed : bool;
  queue : list M;
  receiver_waker : bool;
}.
Definition new_lazy : LazyEarlyHintsState := MkHints false [] false.

(** [send] up to the wait for the result: an error when the receiver is closed,
    and whether it wakes the receiver. *)
Definition send (m : M) (s : LazyEarlyHintsState) : result () bool * LazyEarlyHintsState :=
  if closed s then (Err (), s) else (Ok (receiver_waker s), MkHints false (queue s ++ [m]) false).

Definition poll_recv (s : LazyEarlyHintsState) : poll (option M) * LazyEarlyHintsState :=
  match queue s with
  | m :: queue => (Ready (Some m), MkHints (closed s) queue (receiver_waker s))
  | [] => if closed s then (Ready None, s) else (Pending, MkHints false [] true)
  end.

(** [close], also when the receiver is dropped: what is queued is dropped. *)
Definition close (s : LazyEarlyHintsState) : bool * LazyEarlyHintsState :=
  if closed s then (false, s) else (receiver_waker s, MkHints true [] false).

(** Calls of both sides, with what they have sent and received. *)
Inductive hint_call : Type := CallSend (m : M) | CallRecv | CallClose.
Fixpoint hint_calls (l : list hint_call) (s : LazyEarlyHintsState) : (list M * list M) * LazyEarlyHintsState :=
  match l with
  | [] => (([], []), s)
  | CallSend m :: l =>
      let '(r, s) := send m s in let '((sent, got), s) := hint_calls l s in
      ((match r with Ok _ => m :: sent | Err _ => sent end, got), s)
  | CallRecv :: l =>
      let '(r, s) := poll_recv s in let '((sent, got), s) := hint_calls l s in
      ((sent, match r with Ready (Some m) => m :: got | _ => got end), s)
  | CallClose :: l => hint_calls l (close s).2
  end.

(** A receiver that waits is woken by the next message or by the close. *)
Definition sound (s : LazyEarlyHintsState) : Prop := (receiver_waker s = true → queue s = []) ∧ (closed s = true → queue s = []).

Lemma hints_sound l s : sound s → sound (hint_calls l s).2.
Proof.
  revert s. induction l as [|[m| |] l IH]; intros s Hs; [done|..]; cbn [hint_calls].
  - unfold send. destruct (closed s) eqn:Ec.
    + specialize (IH s Hs). by destruct (hint_calls l s) as [[sent got] s'].
    + specialize (IH (MkHints false (queue s ++ [m]) false)). destruct (hint_calls l _) as [[sent got] s']. apply IH. by split.
  - unfold poll_recv. destruct (queue s) as [|m q] eqn:Eq; [destruct (closed s) eqn:Ec|].
    + specialize (IH s Hs). by destruct (hint_calls l s) as [[sent got] s'].
    + specialize (IH (MkHints false [] true)). destruct (hint_calls l _) as [[sent got] s']. apply IH. by split.
    + specialize (IH (MkHints (closed s) q (receiver_waker s))). destruct (hint_calls l _) as [[sent got] s']. apply IH.
      destruct Hs as [Hw Hc]. rewrite Eq in Hw, Hc. split; cbn; intros H; [discriminate (Hw H)|discriminate (Hc H)].
  - apply IH. unfold close. destruct (closed s) eqn:Ec; [done|]. by split.
Qed.

Lemma closed_refuses l s : closed s = true → (hint_calls l s).1.1 = [] ∧ closed (hint_calls l s).2 = true.
Proof.
  revert s. induction l as [|[m| |] l IH]; intros s Hc; [done|..]; cbn [hint_calls].
  - unfold send. rewrite Hc. specialize (IH s Hc). by destruct (hint_calls l s) as [[sent got] s'].
  - unfold poll_recv. rewrite Hc. destruct (queue s) as [|m q].
    + specialize (IH s Hc). by destruct (hint_calls l s) as [[sent got] s'].
    + specialize (IH (MkHints true q (receiver_waker s)) eq_refl). by destruct (hint_calls l _) as [[sent got] s'].
  - unfold close. rewrite Hc. by apply IH.
Qed.

(** What is received is what was sent, in order; what is missing is still queued
    or was dropped by the close. *)
Lemma hints_in_order l s : let '((sent, got), s') := hint_calls l s in
  ∃ lost, queue s ++ sent = got ++ queue s' ++ lost ∧ (closed s' = false → lost = []) ∧ (closed s = true → closed s' = true).
Proof.
  revert s. induction l as [|[m| |] l IH]; intros s; cbn [hint_calls].
  - exists []. by rewrite !app_nil_r.
  - unfold send. destruct (closed s) eqn:Ec.
    + specialize (IH s). destruct (hint_calls l s) as [[sent got] s']. by rewrite Ec in IH.
    + specialize (IH (MkHints false (queue s ++ [m]) false)). destruct (hint_calls l _) as [[sent got] s'].
      destruct IH as (lost & H & Hl & _). exists lost. cbn in H. by rewrite <- app_assoc in H.
  - unfold poll_recv. destruct (queue s) as [|m q] eqn:Eq; [destruct (closed s) eqn:Ec|].
    + specialize (IH s). destruct (hint_calls l s) as [[sent got] s']. by rewrite Eq, Ec in IH.
    + specialize (IH (MkHints false [] true)). by destruct (hint_calls l _) as [[sent got] s'].
    + specialize (IH (MkHints (closed s) q (receiver_waker s))). destruct (hint_calls l _) as [[sent got] s'].
      destruct IH as (lost & H & Hl). exists lost. cbn in *. by rewrite H.
  - unfold close. destruct (closed s) eqn:Ec; cbn [snd].
    + specialize (IH s). destruct (hint_calls l s) as [[sent got] s']. by rewrite Ec in IH.
    + specialize (IH (MkHints true [] false)). destruct (closed_refuses l (MkHints true [] false) eq_refl) as [Hnone Hclosed].
      destruct (hint_calls l _) as [[sent got] s']. cbn in *. subst sent. destruct IH as (lost & H & _).
      symmetry in H. apply app_nil in H as [-> H]. apply app_nil in H as [-> ->]. exists (queue s). rewrite app_nil_r.
      split; [done|]. by rewrite Hclosed.
Qed.
End queue.
Arguments LazyEarlyHintsState M : clear implicits.

(** ** The octets *)

Section lines.
Context `{HT : Http} `{HC : !H1Crates}.

(** A header map as it is iterated by value: a name, its first value, and its
    other values without the name. *)
Definition by_value (groups : list (HeaderName * HeaderValue * list HeaderValue)) : list (option HeaderName * HeaderValue) :=
  groups ≫= λ g, (Some g.1.1, g.1.2) :: map (λ v, (None, v)) g.2.
Definition by_reference (groups : list (HeaderName * HeaderValue * list HeaderValue)) : list (HeaderName * HeaderValue) :=
  groups ≫= λ g, (g.1.1, g.1.2) :: map (λ v, (g.1.1, v)) g.2.

(** A field; an empty value has no space before it. *)
Definition hint_line (f : HeaderName * HeaderValue) : bytes :=
  if bool_decide (header_as_bytes f.2 = []) then header_name_str f.1 ++ b ":" ++ CRLF
  else header_name_str f.1 ++ b ": " ++ header_as_bytes f.2 ++ CRLF.

Lemma hint_lines_named n v cur l : hint_lines cur ((Some n, v) :: l) = hint_line (n, v) ++ hint_lines (Some n) l.
Proof. done. Qed.

Lemma hint_lines_values n vs l :
  hint_lines (Some n) (map (λ v, (None, v)) vs ++ l) = mjoin (map hint_line (map (λ v, (n, v)) vs)) ++ hint_lines (Some n) l.
Proof.
  induction vs as [|v vs IH]; [done|]. cbn [map app hint_lines]. rewrite IH.
  change (mjoin (hint_line (n, v) :: ?k)) with (hint_line (n, v) ++ mjoin k). by rewrite <- app_assoc.
Qed.

Lemma hint_lines_groups groups cur : hint_lines cur (by_value groups) = mjoin (map hint_line (by_reference groups)).
Proof.
  revert cur. induction groups as [|[[n v] vs] groups IH]; intros cur; [done|].
  change (by_value ((n, v, vs) :: groups)) with ((Some n, v) :: map (λ v, (None, v)) vs ++ by_value groups).
  change (by_reference ((n, v, vs) :: groups)) with ((n, v) :: map (λ v, (n, v)) vs ++ by_reference groups).
  rewrite hint_lines_named, hint_lines_values, IH. cbn [map]. rewrite map_app.
  change (mjoin (hint_line (n, v) :: ?k)) with (hint_line (n, v) ++ mjoin k). by rewrite join_app.
Qed.
End lines.

(** Early hints arrive in order.  Whatever the handlers and the connection
    do, the messages received are the first messages sent, each once; the others
    are queued, or dropped when the receiver was closed, after which sending
    fails; a receiver that waits has nothing queued.  Written, they are a status
    line, one line for every field and value, and an empty line. *)
Theorem early_hints_in_order {M} `{HT : Http} `{HC : !H1Crates} (calls : list (@hint_call M)) groups :
  let '((sent, got), s) := hint_calls calls new_lazy in
  (∃ lost, sent = got ++ queue s ++ lost ∧ (closed s = false → lost = []))
  ∧ (receiver_waker s = true → queue s = []) ∧ (∀ m, closed s = true → (send m s).1 = Err ())
  ∧ hint_lines None (by_value groups) = mjoin (map hint_line (by_reference groups)).
Proof.
  pose proof (hints_in_order calls new_lazy) as H. pose proof (hints_sound calls new_lazy) as Hs.
  destruct (hint_calls calls new_lazy) as [[sent got] s]. destruct H as (lost & H & Hl & _).
  split; [by exists lost|]. split; [by apply Hs|]. split; [|apply hint_lines_groups].
  intros m Hc. unfold send. by rewrite Hc.
Qed.
