(* ===== verification/H3Error.v ===== *)
(** * HTTP/3 errors (src/src/h3/error.rs, [FrameError] of src/src/h3/frame.rs)

    The application errors of RFC 9114, Section 8.1, with their wire codes, the
    errors the frame decoder raises, and the errors of the QUIC transport. *)

From S2P Require Import Prelude.

Inductive TransportError : Type :=
| Closed (code : Z)
| Transport
| Timeout
| Reset (code : Z)
| Stopped (code : Z)
| Other.

Inductive H3Error : Type :=
| NoError
| GeneralProtocol
| Internal
| StreamCreation
| ClosedCriticalStream
| FrameUnexpected
| FrameError_
| ExcessiveLoad
| Id
| Settings_
| MissingSettings
| RequestRejected
| RequestCancelled
| RequestIncomplete
| Message
| Connect
| VersionFallback.

#[global] Instance H3Error_eq_dec : EqDecision H3Error.
Proof. solve_decision. Defined.

(** [H3Error::code]. *)
Definition code (e : H3Error) : Z :=
  match e with
  | NoError => 0x0100
  | GeneralProtocol => 0x0101
  | Internal => 0x0102
  | StreamCreation => 0x0103
  | ClosedCriticalStream => 0x0104
  | FrameUnexpected => 0x0105
  | FrameError_ => 0x0106
  | ExcessiveLoad => 0x0107
  | Id => 0x0108
  | Settings_ => 0x0109
  | MissingSettings => 0x010a
  | RequestRejected => 0x010b
  | RequestCancelled => 0x010c
  | RequestIncomplete => 0x010d
  | Message => 0x010e
  | Connect => 0x010f
  | VersionFallback => 0x0110
  end.

(** [H3Error::from_code]. *)
Definition from_code (code : Z) : option H3Error :=
  match code with
  | 0x0100 => Some NoError
  | 0x0101 => Some GeneralProtocol
  | 0x0102 => Some Internal
  | 0x0103 => Some StreamCreation
  | 0x0104 => Some ClosedCriticalStream
  | 0x0105 => Some FrameUnexpected
  | 0x0106 => Some FrameError_
  | 0x0107 => Some ExcessiveLoad
  | 0x0108 => Some Id
  | 0x0109 => Some Settings_
  | 0x010a => Some MissingSettings
  | 0x010b => Some RequestRejected
  | 0x010c => Some RequestCancelled
  | 0x010d => Some RequestIncomplete
  | 0x010e => Some Message
  | 0x010f => Some Connect
  | 0x0110 => Some VersionFallback
  | _ => None
  end.

(** The errors of the frame decoder (the enum [FrameError] of frame.rs). *)
Inductive FrameError : Type :=
| BadFrame
| Unexpected (ty : Z)
| BadSettings
| TooLong.

#[global] Instance FrameError_eq_dec : EqDecision FrameError.
Proof. solve_decision. Defined.

(** [FrameError::h3_code]. *)
Definition h3_code (e : FrameError) : Z :=
  match e with
  | BadFrame => code FrameError_
  | Unexpected _ => code FrameUnexpected
  | BadSettings => code Settings_
  | TooLong => code ExcessiveLoad
  end.

(** [from_code] inverts [code]. *)
Lemma from_code_code c e : from_code c = Some e ↔ code e = c.
Proof.
  split; [|intros <-; by destruct e].
  unfold from_code. repeat case_match; intros [= <-]; done.
Qed.

Lemma from_code_h3_code e : is_Some (from_code (h3_code e)).
Proof. destruct e; cbn; eauto. Qed.
