(* ===== verification/Incremental.v ===== *)
(** * Incremental parsing

    HTTP/3 reads every stream the same way: octets arrive in chunks, each is
    appended to a buffer, and whole items are taken off the front until the
    next one is incomplete.  The class says what the item parser has to satisfy
    for the way the octets were cut into chunks not to matter; the frame decoder
    and the QPACK stream parsers are instances. *)

From S2P Require Import Prelude.

Class IncrementalParser {A E : Type} (parse : bytes → result E (option (A * Z))) : Prop := {
  parse_bounds l x n : bytes_ok l → parse l = Ok (Some (x, n)) → 1 ≤ n ≤ zlen l;
  parse_more l k x n : bytes_ok l → bytes_ok k →
    parse l = Ok (Some (x, n)) → parse (l ++ k) = Ok (Some (x, n));
  parse_error l k e : bytes_ok l → bytes_ok k → parse l = Err e → parse (l ++ k) = Err e;
}.

Section incremental.
Context {A E : Type} (parse : bytes → result E (option (A * Z))).

(** Takes items off the buffer until one is incomplete or malformed; every item
    takes an octet, so the length of the buffer is enough fuel. *)
Fixpoint drain_loop (fuel : nat) (l : bytes) : list A * bytes * option E :=
  match fuel with
  | O => ([], l, None)
  | S fuel =>
      match parse l with
      | Err e => ([], l, Some e)
      | Ok None => ([], l, None)
      | Ok (Some (x, n)) =>
          let '(xs, rest, e) := drain_loop fuel (drop (Z.to_nat n) l) in (x :: xs, rest, e)
      end
  end.

Definition drain (l : bytes) : list A * bytes * option E := drain_loop (S (length l)) l.

(** Appends each chunk and drains; an error ends it. *)
Fixpoint feed (l : bytes) (chunks : list bytes) : list A * bytes * option E :=
  match chunks with
  | [] => ([], l, None)
  | c :: chunks =>
      match drain (l ++ c) with
      | (xs, rest, Some e) => (xs, rest, Some e)
      | (xs, rest, None) => let '(ys, rest, e) := feed rest chunks in (xs ++ ys, rest, e)
      end
  end.

Context `{!IncrementalParser parse}.

Lemma parse_drop l x n :
  bytes_ok l → parse l = Ok (Some (x, n)) → (length (drop (Z.to_nat n) l) < length l)%nat.
Proof. intros Hl H. apply parse_bounds in H; [|done]. unfold zlen in H. rewrite length_drop. lia. Qed.

Lemma parse_drain_fuel fuel l : bytes_ok l → (length l < fuel)%nat → drain_loop fuel l = drain l.
Proof.
  unfold drain. remember (S (length l)) as m eqn:Em. intros Hl Hf.
  assert (length l < m)%nat as Hm by lia. clear Em. revert m l Hl Hf Hm.
  induction fuel as [|fuel IH]; intros [|m] l Hl Hf Hm; try lia.
  cbn [drain_loop]. destruct (parse l) as [[[x n]|]|e] eqn:Ep; try done.
  pose proof (parse_drop l x n Hl Ep). rewrite (IH m); [done|by apply Forall_drop|lia|lia].
Qed.

(** The unfolding of [drain] without fuel. *)
Lemma drain_eq l : bytes_ok l → drain l =
  match parse l with
  | Err e => ([], l, Some e)
  | Ok None => ([], l, None)
  | Ok (Some (x, n)) =>
      let '(xs, rest, e) := drain (drop (Z.to_nat n) l) in (x :: xs, rest, e)
  end.
Proof.
  intros Hl. unfold drain at 1. cbn [drain_loop].
  destruct (parse l) as [[[x n]|]|e] eqn:Ep; [|done..].
  rewrite parse_drain_fuel; [done|by apply Forall_drop|by eapply parse_drop].
Qed.

Lemma drain_ind (P : bytes → Prop) :
  (∀ l, bytes_ok l → (∀ x n, parse l = Ok (Some (x, n)) → P (drop (Z.to_nat n) l)) → P l) →
  ∀ l, bytes_ok l → P l.
Proof.
  intros Hstep l. induction (well_founded_ltof _ length l) as [l _ IH]. intros Hl.
  apply Hstep; [done|]. intros x n H. apply IH; [|by apply Forall_drop].
  by eapply parse_drop.
Qed.

Lemma drain_rest_ok l xs rest e : bytes_ok l → drain l = (xs, rest, e) → bytes_ok rest.
Proof.
  intros Hl. revert xs rest e. pattern l. apply drain_ind; [|done]. clear l Hl.
  intros l Hl IH xs rest e H. rewrite drain_eq in H by done.
  destruct (parse l) as [[[x n]|]|e'] eqn:Ep; [|by injection H as <- <- <-..].
  destruct (drain (drop (Z.to_nat n) l)) as [[ys r] e'] eqn:Ed. injection H as <- <- <-. by eapply IH.
Qed.

Lemma drain_rest_length l xs rest e : bytes_ok l → drain l = (xs, rest, e) → (length rest ≤ length l)%nat.
Proof.
  intros Hl. revert xs rest e. pattern l. apply drain_ind; [|done]. clear l Hl.
  intros l Hl IH xs rest e Hd. rewrite drain_eq in Hd by done.
  destruct (parse l) as [[[x n]|]|e'] eqn:Ep; [|by injection Hd as <- <- <-..].
  destruct (drain (drop (Z.to_nat n) l)) as [[ys r] e'] eqn:Ed. injection Hd as <- <- <-.
  apply (IH x n eq_refl) in Ed. rewrite length_drop in Ed. lia.
Qed.

(** Draining early changes nothing. *)
Lemma drain_app k l : bytes_ok l → bytes_ok k →
  match drain l with
  | (xs, _, Some e) => ∃ rest, drain (l ++ k) = (xs, rest, Some e)
  | (xs, rest, None) =>
      drain (l ++ k) = let '(ys, rest', e) := drain (rest ++ k) in (xs ++ ys, rest', e)
  end.
Proof.
  intros Hl Hk. pattern l. apply drain_ind; [|done]. clear l Hl. intros l Hl IH.
  rewrite (drain_eq l) by done.
  destruct (parse l) as [[[x n]|]|e] eqn:Ep.
  - specialize (IH x n eq_refl). pose proof (parse_bounds l x n Hl Ep) as Hn.
    assert (drain (l ++ k) =
      let '(xs, rest, e) := drain (drop (Z.to_nat n) l ++ k) in (x :: xs, rest, e)) as Hd.
    { rewrite (drain_eq (l ++ k)) by (by apply Forall_app). rewrite (parse_more l k x n) by done.
      unfold zlen in Hn. by rewrite drop_app_le by lia. }
    destruct (drain (drop (Z.to_nat n) l)) as [[xs rest] [e|]].
    + destruct IH as [rest' IH]. exists rest'. by rewrite Hd, IH.
    + rewrite Hd, IH. by destruct (drain (rest ++ k)) as [[ys r] e].
  - by destruct (drain (l ++ k)) as [[xs r] e].
  - exists (l ++ k). rewrite drain_eq by (by apply Forall_app). by rewrite (parse_error l k e).
Qed.

Lemma parse_drain_stops l xs rest : bytes_ok l → drain l = (xs, rest, None) → parse rest = Ok None.
Proof.
  intros Hl. revert xs rest. pattern l. apply drain_ind; [|done]. clear l Hl.
  intros l Hl IH xs rest H. rewrite drain_eq in H by done.
  destruct (parse l) as [[[x n]|]|e'] eqn:Ep; [|by injection H as <- <-|done].
  destruct (drain (drop (Z.to_nat n) l)) as [[ys r] e'] eqn:Ed. injection H as <- <- ->. by eapply IH.
Qed.

(** However the octets are cut into chunks, the same items and the same error
    come out, and the same octets wait for more. *)
Lemma parse_feed_drain chunks l :
  bytes_ok l → Forall bytes_ok chunks → parse l = Ok None →
  let '(xs, rest, e) := feed l chunks in
  let '(ys, rest', e') := drain (l ++ mjoin chunks) in
  xs = ys ∧ e = e' ∧ (e = None → rest = rest').
Proof.
  revert l. induction chunks as [|c chunks IH]; intros l Hl Hc Hp; cbn [feed].
  { change (mjoin []) with (@nil Z). rewrite app_nil_r, drain_eq by done. by rewrite Hp. }
  apply Forall_cons in Hc as [Hc Hcs].
  assert (bytes_ok (l ++ c)) as Hlc by (by apply Forall_app).
  assert (bytes_ok (mjoin chunks)) as Hj by (by apply Forall_join).
  change (mjoin (c :: chunks)) with (c ++ mjoin chunks).
  pose proof (drain_app (mjoin chunks) (l ++ c) Hlc Hj) as Ha. rewrite <- app_assoc in Ha.
  destruct (drain (l ++ c)) as [[xs rest] [e|]] eqn:Ed.
  - destruct Ha as [r' ->]. done.
  - rewrite Ha. specialize (IH rest (drain_rest_ok _ _ _ _ Hlc Ed) Hcs (parse_drain_stops _ _ _ Hlc Ed)).
    destruct (feed rest chunks) as [[ys r] e]. destruct (drain (rest ++ mjoin chunks)) as [[zs r'] e'].
    naive_solver.
Qed.

(** The items of a concatenation of whole encodings; [item] is what the parser
    makes of an encoded value. *)
Lemma parse_drain_write {B : Type} {valid : B → Prop} {write : B → bytes} {item : B → A} ys rest :
  (∀ y k, valid y → bytes_ok k → parse (write y ++ k) = Ok (Some (item y, zlen (write y)))) →
  (∀ y, valid y → bytes_ok (write y)) →
  Forall valid ys → bytes_ok rest → parse rest = Ok None →
  drain (mjoin (write <$> ys) ++ rest) = (item <$> ys, rest, None).
Proof.
  intros Hw Hok Hys Hr Hp. induction Hys as [|y ys Hy Hys IH].
  { change (drain rest = ([], rest, None)). rewrite drain_eq by done. by rewrite Hp. }
  assert (bytes_ok (mjoin (write <$> ys) ++ rest)) as Hrest.
  { apply Forall_app. split; [|done]. apply Forall_join, Forall_fmap.
    eapply Forall_impl; [exact Hys|]. apply Hok. }
  change (mjoin (write <$> y :: ys)) with (write y ++ mjoin (write <$> ys)).
  rewrite <- app_assoc, drain_eq by (apply Forall_app; auto).
  rewrite Hw by done. unfold zlen. by rewrite Nat2Z.id, drop_app_length, IH.
Qed.
End incremental.
