(* ===== verification/Varint.v ===== *)
(** * QUIC variable-length integers (src/src/h3/frame.rs)

    The integers of RFC 9000, Section 16, that frame types, frame lengths,
    settings and stream identifiers are written as.  [parse_varint] accepts
    minimal encodings only, which makes it the exact inverse of [write_varint]:
    the class [PrefixCodec] states what that gives to the frame layer. *)

From S2P Require Import Prelude H3Error Incremental.

Definition MAX_VARINT : Z := 2 ^ 62 - 1.

(** [MIN_VARINT]: the least value each width may carry. *)
Definition MIN_VARINT : list Z := [0; 2 ^ 6; 2 ^ 14; 2 ^ 30].

(** [1usize << (first >> 6)]. *)
Definition varint_len (first : byte) : Z := Z.shiftl 1 (Z.shiftr first 6).

(** [value = (value << 8) | u64::from(byte)]. *)
Definition varint_step (value : Z) (byte : byte) : Z :=
  Z.lor (u64 (Z.shiftl value 8)) byte.

Definition parse_varint (buf : bytes) : result FrameError (option (Z * Z)) :=
  match buf with
  | [] => Ok None
  | first :: rest =>
      let len := varint_len first in
      if zlen buf <? len then Ok None
      else
        let value := foldl varint_step (Z.land first 0x3f) (take (Z.to_nat (len - 1)) rest) in
        _ ← fail_if ((1 <? len) && (value <? default 0 (zget MIN_VARINT (Z.shiftr first 6)))) BadFrame;
        Ok (Some (value, len))
  end.

Definition varint_size (value : Z) : Z :=
  if value <? 2 ^ 6 then 1
  else if value <? 2 ^ 14 then 2
  else if value <? 2 ^ 30 then 4
  else 8.

(** [write_varint(value, dst)]: the octets it appends. *)
Definition write_varint (value : Z) : bytes :=
  if value <? 2 ^ 6 then to_be 1 (u8 value)
  else if value <? 2 ^ 14 then to_be 2 (Z.lor (Z.shiftl 1 14) (u16 value))
  else if value <? 2 ^ 30 then to_be 4 (Z.lor (Z.shiftl 2 30) (u32 value))
  else to_be 8 (Z.lor (Z.shiftl 3 62) value).

(** [take_varint]: the integer that fills [buf] exactly. *)
Definition take_varint (buf : bytes) : result FrameError Z :=
  o ← parse_varint buf;
  match o with
  | None => Err BadFrame
  | Some (value, n) => _ ← fail_if (negb (n =? zlen buf)) BadFrame; Ok value
  end.

(** RFC 9000, appendix A.1. *)
Example parse_a1_8 :
  parse_varint [0xc2; 0x19; 0x7c; 0x5e; 0xff; 0x14; 0xe8; 0x8c] = Ok (Some (151288809941952652, 8)).
Proof. reflexivity. Qed.
Example parse_a1_4 : parse_varint [0x9d; 0x7f; 0x3e; 0x7d] = Ok (Some (494878333, 4)).
Proof. reflexivity. Qed.
Example parse_a1_2 : parse_varint [0x7b; 0xbd; 1] = Ok (Some (15293, 2)).
Proof. reflexivity. Qed.
Example parse_a1_1 : parse_varint [0x25] = Ok (Some (37, 1)).
Proof. reflexivity. Qed.
Example parse_redundant : parse_varint [0x40; 0x25] = Err BadFrame.
Proof. reflexivity. Qed.

(** ** What a self-delimiting code promises

    [parse] reads one value from the front of its input and says how many
    octets it took. *)

Class PrefixCodec {A E : Type} (valid : A → Prop) (write : A → bytes)
    (parse : bytes → result E (option (A * Z))) : Prop := {
  codec_parse x rest : valid x → parse (write x ++ rest) = Ok (Some (x, zlen (write x)));
  codec_nonempty x : valid x → write x ≠ [];
  codec_short x l k : valid x → write x = l ++ k → k ≠ [] → parse l = Ok None;
}.

(** A code is canonical when nothing but the encodings parses. *)
Class CanonicalCodec {A E : Type} (valid : A → Prop) (write : A → bytes)
    (parse : bytes → result E (option (A * Z))) : Prop := {
  codec_prefix :: PrefixCodec valid write parse;
  codec_inv l x n : bytes_ok l → parse l = Ok (Some (x, n)) →
    valid x ∧ l = write x ++ drop (Z.to_nat n) l ∧ n = zlen (write x);
}.

Section codec.
Context {A E : Type} {valid : A → Prop} {write : A → bytes}.
Context {parse : bytes → result E (option (A * Z))} `{!PrefixCodec valid write parse}.

(** The code is prefix free, so a concatenation splits in one way only. *)
Lemma codec_split x y l k :
  valid x → valid y → write x ++ l = write y ++ k → x = y ∧ l = k.
Proof.
  intros Hx Hy H. pose proof (codec_parse x l Hx) as H1. rewrite H, (codec_parse y k Hy) in H1.
  injection H1 as -> _. split; [done|]. by apply app_inv_head in H.
Qed.

Lemma codec_inj x y : valid x → valid y → write x = write y → x = y.
Proof. intros Hx Hy H. apply (codec_split x y [] []); [done..|by rewrite H]. Qed.

End codec.

(** ** Parsing *)

(** The four widths: [1 << k] octets with [k] in the two top bits. *)
Definition width (k : Z) : nat := Z.to_nat (2 ^ k).
Definition varint_ok (v : Z) : Prop := 0 ≤ v ≤ MAX_VARINT.

Lemma varint_len_eq first : is_byte first → varint_len first = 2 ^ (first / 64).
Proof.
  unfold is_byte, varint_len. intros. rewrite Z.shiftl_mul_pow2, Z.mul_1_l.
  - by rewrite Z.shiftr_div_pow2 by lia.
  - apply Z.shiftr_nonneg. lia.
Qed.

(** The accumulator never overflows its 64 bits. *)
Lemma varint_fold l : ∀ v, bytes_ok l → 0 ≤ v → (v + 1) * 256 ^ zlen l ≤ 2 ^ 64 →
  foldl varint_step v l = v * 256 ^ zlen l + be l.
Proof.
  induction l as [|x l IH] using rev_ind; intros v Hl Hv Hb.
  { unfold be, zlen. cbn. lia. }
  apply Forall_app in Hl as [Hl Hx]. rewrite Forall_singleton in Hx.
  rewrite foldl_app, be_snoc. cbn [foldl].
  assert (256 ^ zlen (l ++ [x]) = 256 * 256 ^ zlen l) as Hp.
  { unfold zlen. rewrite length_app, Nat.add_1_r. apply pow256_S. }
  rewrite Hp in *. pose proof (be_bound l Hl) as Hbe.
  assert (0 < 256 ^ zlen l) as HP by (apply Z.pow_pos_nonneg; [lia|apply zlen_nonneg]).
  rewrite IH by (done || nia). set (P := 256 ^ zlen l) in *.
  assert (0 ≤ v * P) by nia. unfold is_byte in Hx.
  unfold varint_step, u64. rewrite Z.shiftl_mul_pow2 by lia. change (2 ^ 8) with 256.
  rewrite Z.mod_small by lia. change 256 with (2 ^ 8) at 1.
  rewrite lor_disjoint by (change (2 ^ 8) with 256; lia). change (2 ^ 8) with 256. lia.
Qed.

Lemma to_be_cons n v : to_be (S n) v = (v / 256 ^ Z.of_nat n) mod 256 :: to_be n v.
Proof.
  revert v; induction n as [|n IH]; intros v.
  - unfold to_be. cbn. by rewrite Z.div_1_r.
  - transitivity (to_be (S n) (v / 256) ++ [v mod 256]); [done|]. rewrite IH.
    rewrite pow256_S, Z.div_div by (try apply Z.pow_pos_nonneg; lia). done.
Qed.

Lemma be_cons x l : be (x :: l) = x * 256 ^ zlen l + be l.
Proof.
  induction l as [|y l IH] using rev_ind; [unfold be; cbn [foldl]; change (zlen (@nil Z)) with 0; lia|].
  rewrite app_comm_cons, !be_snoc, IH. unfold zlen.
  rewrite length_app, Nat.add_1_r, pow256_S. lia.
Qed.

(** The value behind the two width bits. *)
Lemma parse_varint_value first rest :
  let n := 2 ^ (first / 64) in
  is_byte first → bytes_ok (take (Z.to_nat (n - 1)) rest) → n ≤ zlen (first :: rest) →
  let v := first mod 64 * 256 ^ (n - 1) + be (take (Z.to_nat (n - 1)) rest) in
  parse_varint (first :: rest)
  = if (1 <? n) && (v <? default 0 (zget MIN_VARINT (first / 64))) then Err BadFrame
    else Ok (Some (v, n)).
Proof.
  intros n Hf Hr Hn v. cbn [parse_varint]. rewrite varint_len_eq by done.
  fold n. rewrite (proj2 (Z.ltb_ge _ _)) by done.
  change 0x3f with (2 ^ 6 - 1). rewrite land_mask by lia. change (2 ^ 6) with 64 at 1.
  rewrite (Z.shiftr_div_pow2 first 6) by lia. change (2 ^ 6) with 64 at 1.
  assert (first / 64 = 0 ∨ first / 64 = 1 ∨ first / 64 = 2 ∨ first / 64 = 3) as Hk.
  { unfold is_byte in Hf. dlia. }
  assert (zlen (take (Z.to_nat (n - 1)) rest) = n - 1 ∧ 1 ≤ n ≤ 8) as [Hz Hn8].
  { rewrite zlen_cons in Hn. unfold zlen in *. rewrite length_take.
    destruct Hk as [E|[E|[E|E]]]; subst n; rewrite E in *; change (2 ^ 0) with 1 in *;
      change (2 ^ 1) with 2 in *; change (2 ^ 2) with 4 in *; change (2 ^ 3) with 8 in *; lia. }
  rewrite varint_fold.
  - rewrite Hz. fold v. destruct (_ && _); done.
  - done.
  - dlia.
  - rewrite Hz. unfold is_byte in Hf. apply Z.le_trans with (64 * 256 ^ 7).
    + apply Z.mul_le_mono_nonneg; [dlia|dlia|apply Z.pow_nonneg; lia|].
      apply Z.pow_le_mono_r; lia.
    + done.
Qed.

Lemma write_varint_eq v :
  varint_ok v →
  write_varint v = if v <? 2 ^ 6 then to_be 1 v
                   else if v <? 2 ^ 14 then to_be 2 (2 ^ 14 + v)
                   else if v <? 2 ^ 30 then to_be 4 (2 * 2 ^ 30 + v)
                   else to_be 8 (3 * 2 ^ 62 + v).
Proof.
  intros [Hv Hm]. unfold write_varint, MAX_VARINT in *. rewrite !Z.shiftl_mul_pow2 by lia.
  destruct (Z.ltb_spec v (2 ^ 6)); [unfold u8; by rewrite Z.mod_small by lia|].
  destruct (Z.ltb_spec v (2 ^ 14)).
  { unfold u16. by rewrite Z.mod_small, lor_disjoint by lia. }
  destruct (Z.ltb_spec v (2 ^ 30)).
  { unfold u32. by rewrite Z.mod_small, lor_disjoint by lia. }
  by rewrite lor_disjoint by lia.
Qed.

Lemma zlen_write_varint v : zlen (write_varint v) = varint_size v.
Proof.
  unfold write_varint, varint_size, zlen.
  destruct (v <? 2 ^ 6); [|destruct (v <? 2 ^ 14); [|destruct (v <? 2 ^ 30)]];
    by rewrite length_to_be.
Qed.

Lemma write_varint_ok v : bytes_ok (write_varint v).
Proof.
  unfold write_varint.
  destruct (v <? 2 ^ 6); [|destruct (v <? 2 ^ 14); [|destruct (v <? 2 ^ 30)]]; apply to_be_ok.
Qed.

Lemma varint_size_bound v : 1 ≤ varint_size v ≤ 8.
Proof. unfold varint_size. repeat case_match; lia. Qed.

Lemma be_to_be_mod n v : be (to_be n v) = v mod 256 ^ Z.of_nat n.
Proof.
  revert v; induction n as [|n IH]; intros v; [by rewrite Z.mod_1_r|].
  change (to_be (S n) v) with (to_be n (v / 256) ++ [v mod 256]).
  rewrite be_snoc, IH, pow256_S.
  assert (0 < 256 ^ Z.of_nat n) by (apply Z.pow_pos_nonneg; lia).
  rewrite Z.rem_mul_r by lia. lia.
Qed.

(** A width, its minimum and the octets after the first. *)
Definition wide (k : Z) (m : nat) (min : Z) : Prop :=
  2 ^ k = Z.of_nat (S m) ∧ 0 ≤ k < 4 ∧ zget MIN_VARINT k = Some min.

Lemma widths : wide 0 0 0 ∧ wide 1 1 (2 ^ 6) ∧ wide 2 3 (2 ^ 14) ∧ wide 3 7 (2 ^ 30).
Proof. by repeat split. Qed.

Lemma parse_varint_wide k m min v rest :
  wide k m min → min ≤ v < 64 * 256 ^ Z.of_nat m → 0 ≤ v →
  parse_varint (to_be (S m) (k * (64 * 256 ^ Z.of_nat m) + v) ++ rest)
  = Ok (Some (v, Z.of_nat (S m))).
Proof.
  intros (Hk & Hk4 & Hmin) Hv Hv0. set (P := 256 ^ Z.of_nat m) in *.
  assert (0 < P) as HP by (apply Z.pow_pos_nonneg; lia).
  rewrite to_be_cons. fold P. cbn [app]. set (w := k * (64 * P) + v).
  assert (w / P = k * 64 + v / P) as Hw.
  { unfold w. replace (k * (64 * P) + v) with (v + k * 64 * P) by lia.
    rewrite Z.div_add by lia. lia. }
  assert (0 ≤ v / P < 64) as HvP.
  { split; [apply Z.div_pos; lia|]. apply Z.div_lt_upper_bound; lia. }
  rewrite Hw, Z.mod_small by lia.
  assert ((k * 64 + v / P) / 64 = k) as Hq by dlia.
  assert ((k * 64 + v / P) mod 64 = v / P) as Hm by dlia.
  rewrite parse_varint_value; rewrite ?Hq, ?Hm, ?Hk.
  - replace (Z.of_nat (S m) - 1) with (Z.of_nat m) by lia. rewrite Nat2Z.id.
    rewrite take_app_le, take_ge by (rewrite length_to_be; lia). fold P.
    rewrite be_to_be_mod. fold P. unfold w.
    replace (k * (64 * P) + v) with (v + k * 64 * P) by lia. rewrite Z.mod_add by lia.
    replace (v / P * P + v mod P) with v by (rewrite (Z.div_mod v P) at 1; lia).
    rewrite Hmin. change (default 0 (Some min)) with min. by rewrite (proj2 (Z.ltb_ge v min)), andb_false_r by lia.
  - unfold is_byte. lia.
  - replace (Z.of_nat (S m) - 1) with (Z.of_nat m) by lia. rewrite Nat2Z.id.
    rewrite take_app_le, take_ge by (rewrite length_to_be; lia). apply to_be_ok.
  - rewrite zlen_cons, zlen_app. unfold zlen. rewrite length_to_be. lia.
Qed.

Lemma write_varint_wide v : varint_ok v → ∃ k m min, wide k m min ∧
  min ≤ v < 64 * 256 ^ Z.of_nat m ∧
  write_varint v = to_be (S m) (k * (64 * 256 ^ Z.of_nat m) + v).
Proof.
  intros Hv. rewrite write_varint_eq by done. unfold varint_ok, MAX_VARINT in Hv.
  destruct widths as (W0 & W1 & W2 & W3).
  destruct (Z.ltb_spec v (2 ^ 6)); [|destruct (Z.ltb_spec v (2 ^ 14)); [|destruct (Z.ltb_spec v (2 ^ 30))]].
  - exists 0, 0%nat, 0. repeat split; try apply W0; cbn; lia || done.
  - eexists 1, 1%nat, _. split; [exact W1|]. split; [lia|]. f_equal; lia.
  - eexists 2, 3%nat, _. split; [exact W2|]. split; [lia|]. f_equal; lia.
  - eexists 3, 7%nat, _. split; [exact W3|]. split; [lia|]. f_equal; lia.
Qed.

(** What a successful parse has read. *)
Lemma parse_varint_Ok l v n :
  bytes_ok l → parse_varint l = Ok (Some (v, n)) →
  ∃ k m min rest, wide k m min ∧ min ≤ v < 64 * 256 ^ Z.of_nat m ∧ 0 ≤ v ∧
    l = to_be (S m) (k * (64 * 256 ^ Z.of_nat m) + v) ++ rest ∧ n = Z.of_nat (S m).
Proof.
  intros Hl H. destruct l as [|first rest]; [done|].
  assert (2 ^ (first / 64) ≤ zlen (first :: rest)) as Hlen.
  { apply Forall_cons in Hl as [Hf _]. cbn [parse_varint] in H.
    rewrite varint_len_eq in H by done. destruct (Z.ltb_spec (zlen (first :: rest)) (2 ^ (first / 64))); [done|lia]. }
  apply Forall_cons in Hl as [Hf Hr].
  rewrite parse_varint_value in H by (done || by apply Forall_take).
  set (k := first / 64) in *. unfold is_byte in Hf.
  assert (∃ m min, wide k m min) as (m & min & W).
  { destruct widths as (W0 & W1 & W2 & W3).
    assert (k = 0 ∨ k = 1 ∨ k = 2 ∨ k = 3) as [->|[->|[->| ->]]] by (unfold k; dlia); eauto. }
  pose proof W as (Hk & Hk4 & Hmin). rewrite Hk, Hmin in *.
  change (default 0 (Some min)) with min in H.
  replace (Z.of_nat (S m) - 1) with (Z.of_nat m) in * by lia. rewrite Nat2Z.id in H.
  rewrite zlen_cons in Hlen. unfold zlen in Hlen.
  pose proof (be_bound (take m rest) (Forall_take _ _ _ Hr)) as Hb. unfold zlen in Hb.
  rewrite length_take_le in Hb by lia. set (P := 256 ^ Z.of_nat m) in *.
  assert (0 < P) as HP by lia. pose proof (Z.mod_pos_bound first 64 eq_refl) as Hfm.
  destruct (_ && _) eqn:Hg; [done|]. injection H as <- <-.
  exists k, m, min, (drop m rest). repeat split; try apply W; try nia.
  - destruct (Nat.eq_dec m 0) as [->|]; [|apply andb_false_iff in Hg as [Hg%Z.ltb_ge|Hg%Z.ltb_ge]; lia].
    assert (k = 0) as E by (destruct (Z.eq_dec k 0); [done|]; pose proof (Z.pow_gt_1 2 k); lia).
    rewrite E in Hmin. injection Hmin as <-. nia.
  - replace (k * (64 * P) + _) with (be (first :: take m rest)).
    + assert (length (first :: take m rest) = S m) as <- by (cbn; rewrite length_take_le; lia).
      rewrite to_be_be by (by constructor; [|apply Forall_take]).
      cbn [app]. by rewrite take_drop.
    + rewrite be_cons. unfold zlen. rewrite length_take_le by lia. fold P.
      pose proof (Z.div_mod first 64 ltac:(lia)) as E. fold k in E.
      set (r := first mod 64) in *. rewrite E at 1. lia.
Qed.

Lemma wide_write k m min v :
  wide k m min → min ≤ v < 64 * 256 ^ Z.of_nat m → 0 ≤ v →
  varint_ok v ∧ write_varint v = to_be (S m) (k * (64 * 256 ^ Z.of_nat m) + v).
Proof.
  intros (Hk & Hk4 & Hmin) Hv Hv0.
  assert (k = 0 ∨ k = 1 ∨ k = 2 ∨ k = 3) as [E|[E|[E|E]]] by lia; rewrite E in *; cbn in Hk;
    injection Hmin as <-;
    [assert (m = 0%nat) as -> by lia|assert (m = 1%nat) as -> by lia
    |assert (m = 3%nat) as -> by lia|assert (m = 7%nat) as -> by lia]; cbn in Hv;
    (assert (varint_ok v) by (unfold varint_ok, MAX_VARINT; lia)); (split; [done|]);
    rewrite write_varint_eq by done; repeat case_match; try lia; f_equal; lia.
Qed.

Lemma parse_write_varint v rest :
  varint_ok v → parse_varint (write_varint v ++ rest) = Ok (Some (v, zlen (write_varint v))).
Proof.
  intros Hv. destruct (write_varint_wide v Hv) as (k & m & min & W & Hm & ->).
  rewrite (parse_varint_wide k m min) by (done || apply Hv).
  unfold zlen. by rewrite length_to_be.
Qed.

(** The first octet tells the length. *)
Lemma write_varint_head v first t :
  varint_ok v → write_varint v = first :: t → varint_len first = zlen (first :: t).
Proof.
  intros Hv E. pose proof (parse_write_varint v [] Hv) as H. rewrite app_nil_r, E in H.
  cbn [parse_varint] in H. destruct (zlen (first :: t) <? varint_len first); [done|].
  destruct (_ && _); [done|]. by injection H.
Qed.

#[export] Instance varint_codec : CanonicalCodec varint_ok write_varint parse_varint.
Proof.
  split; [split|].
  - apply parse_write_varint.
  - intros v Hv E. pose proof (zlen_write_varint v) as Hz. rewrite E in Hz.
    pose proof (varint_size_bound v). change (zlen (@nil Z)) with 0 in Hz. lia.
  - intros v l k Hv E Hk. destruct l as [|first l]; [done|]. cbn [parse_varint].
    rewrite (proj2 (Z.ltb_lt _ _)); [done|].
    cbn [app] in E. rewrite (write_varint_head v first (l ++ k)) by done.
    destruct k; [done|]. zlia.
  - intros l v n Hl H.
    destruct (parse_varint_Ok l v n Hl H) as (k & m & min & rest & W & Hm & Hv & -> & ->).
    destruct (wide_write k m min v W Hm Hv) as [Hok ->]. split; [done|].
    unfold zlen. rewrite length_to_be, Nat2Z.id. split; [|done].
    rewrite drop_app_length' by (by rewrite length_to_be). done.
Qed.

#[export] Instance varint_incremental : IncrementalParser parse_varint.
Proof.
  assert (∀ l k, bytes_ok l → parse_varint l ≠ Ok None → parse_varint (l ++ k) = parse_varint l) as H.
  { intros [|first l] k Hl H; [done|]. apply Forall_cons in Hl as [Hf _].
    cbn [parse_varint app] in *. rewrite varint_len_eq in * by done.
    destruct (Z.ltb_spec (zlen (first :: l)) (2 ^ (first / 64))) as [|Hn]; [done|].
    rewrite zlen_cons in *. rewrite zlen_app. pose proof (zlen_nonneg k).
    rewrite (proj2 (Z.ltb_ge _ _)) by lia.
    rewrite take_app_le; [done|]. unfold zlen in Hn. lia. }
  split.
  - intros l v n Hl Hp. destruct (parse_varint_Ok l v n Hl Hp) as (k & m & min & rest & _ & _ & _ & -> & ->).
    rewrite zlen_app. unfold zlen. rewrite length_to_be. lia.
  - intros l k v n Hl _ Hp. by rewrite H, Hp by (done || by rewrite Hp).
  - intros l k e Hl _ Hp. by rewrite H, Hp by (done || by rewrite Hp).
Qed.

(** ** [take_varint] *)

Lemma take_varint_write v : varint_ok v → take_varint (write_varint v) = Ok v.
Proof.
  intros Hv. unfold take_varint. pose proof (parse_write_varint v [] Hv) as H.
  rewrite app_nil_r in H. rewrite H. cbn. by rewrite Z.eqb_refl.
Qed.

Lemma take_varint_Ok l v : bytes_ok l → take_varint l = Ok v → varint_ok v ∧ l = write_varint v.
Proof.
  intros Hl H. unfold take_varint in H.
  apply bind_Ok in H as ([[x n]|] & Hp & H); [|done]. apply bind_Ok in H as (u & Hn & [= ->]).
  apply fail_if_Ok in Hn. destruct (Z.eqb_spec n (zlen l)) as [->|]; [|done].
  destruct (codec_inv l v _ Hl Hp) as (Hv & E & _). split; [done|].
  rewrite drop_ge, app_nil_r in E by (unfold zlen; lia). done.
Qed.

(** [parse_varint] is the exact inverse of [write_varint]: it returns a
    value and a length exactly when the input starts with the encoding
    [write_varint] gives that value and that length is the encoding's; no other
    encoding of a value is accepted, and the accumulator never overflows. *)
Theorem varint_round_trip l v n :
  bytes_ok l →
  parse_varint l = Ok (Some (v, n)) ↔
  0 ≤ v ≤ MAX_VARINT ∧ n = varint_size v ∧ ∃ rest, l = write_varint v ++ rest.
Proof.
  intros Hl. split.
  - intros H. destruct (codec_inv l v n Hl H) as (Hv & E & ->). rewrite zlen_write_varint in *.
    split; [done|]. split; [done|]. by eexists.
  - intros (Hv & -> & rest & ->). rewrite <- zlen_write_varint. by apply codec_parse.
Qed.

Lemma varint_round_trip_witness :
  parse_varint [0x7b; 0xbd; 0xff] = Ok (Some (15293, 2)) ∧
  0 ≤ 15293 ≤ MAX_VARINT ∧ 2 = varint_size 15293 ∧ ∃ rest, [0x7b; 0xbd; 0xff] = write_varint 15293 ++ rest.
Proof.
  assert (parse_varint [0x7b; 0xbd; 0xff] = Ok (Some (15293, 2))) as H by reflexivity.
  split; [exact H|]. apply varint_round_trip; [solve_bytes|exact H].
Defined.
