(* ===== verification/H3Frame.v ===== *)
(** * HTTP/3 frames (src/src/h3/frame.rs)

    [Frame::encode] and the incremental [FrameDecoder], which keeps the received
    chunks in a queue.  The queue is refined by the flat buffer it stands for;
    over the flat buffer one frame is read by [read_frame], an instance of the
    incremental parsers. *)

From S2P Require Import Prelude H3Error Varint Incremental.

Definition MAX_SETTINGS_ENTRIES : Z := 32.
Definition MAX_SETTINGS_PAYLOAD : Z := 4096.
Definition MAX_FRAME_PAYLOAD : Z := 16777215.

Definition FRAME_DATA : Z := 0x0.
Definition FRAME_HEADERS : Z := 0x1.
Definition FRAME_CANCEL_PUSH : Z := 0x3.
Definition FRAME_SETTINGS : Z := 0x4.
Definition FRAME_PUSH_PROMISE : Z := 0x5.
Definition FRAME_GOAWAY : Z := 0x7.
Definition FRAME_MAX_PUSH_ID : Z := 0xd.

(** ** Settings *)

(** The parameters in wire order and the index of the first value of each
    identifier. *)
Record Settings : Type := MkSettings {
  entries : list (Z * Z);
  lookup : gmap Z Z;
}.

#[global] Instance Settings_eq_dec : EqDecision Settings.
Proof. solve_decision. Defined.

(** [Settings::new], [insert], [get] and [len]. *)
Definition no_settings : Settings := MkSettings [] ∅.
Definition insert (s : Settings) (id value : Z) : Settings :=
  MkSettings (entries s ++ [(id, value)])
    (match lookup s !! id with Some _ => lookup s | None => <[id := value]> (lookup s) end).
Definition get (s : Settings) (id : Z) : option Z := lookup s !! id.
Definition settings_len (s : Settings) : Z := zlen (entries s).

(** ** Frames *)

Inductive Frame : Type :=
| Data (payload : bytes)
| Headers (payload : bytes)
| SettingsFrame (settings : Settings)
| CancelPush (push_id : Z)
| PushPromise (push_id : Z) (field_section : bytes)
| Goaway (stream_id : Z)
| MaxPushId (push_id : Z).

#[global] Instance Frame_eq_dec : EqDecision Frame.
Proof. solve_decision. Defined.

(** The sizes of the entries' integers added up, and what the loop writes for
    them. *)
Definition entries_size (es : list (Z * Z)) : Z :=
  foldr (λ e n, varint_size e.1 + varint_size e.2 + n) 0 es.
Definition write_entries (es : list (Z * Z)) : bytes :=
  mjoin (map (λ e, write_varint e.1 ++ write_varint e.2) es).

(** [Frame::encode]: the octets it appends to [dst]. *)
Definition encode (f : Frame) : bytes :=
  match f with
  | Data payload => write_varint FRAME_DATA ++ write_varint (zlen payload) ++ payload
  | Headers payload => write_varint FRAME_HEADERS ++ write_varint (zlen payload) ++ payload
  | SettingsFrame settings =>
      write_varint FRAME_SETTINGS ++ write_varint (entries_size (entries settings))
      ++ write_entries (entries settings)
  | CancelPush push_id =>
      write_varint FRAME_CANCEL_PUSH ++ write_varint (varint_size push_id) ++ write_varint push_id
  | PushPromise push_id field_section =>
      write_varint FRAME_PUSH_PROMISE ++ write_varint (varint_size push_id + zlen field_section)
      ++ write_varint push_id ++ field_section
  | Goaway stream_id =>
      write_varint FRAME_GOAWAY ++ write_varint (varint_size stream_id) ++ write_varint stream_id
  | MaxPushId push_id =>
      write_varint FRAME_MAX_PUSH_ID ++ write_varint (varint_size push_id) ++ write_varint push_id
  end.

(** ** Payloads *)

Definition is_known_frame_type (ty : Z) : bool :=
  (ty =? FRAME_DATA) || (ty =? FRAME_HEADERS) || (ty =? FRAME_CANCEL_PUSH) || (ty =? FRAME_SETTINGS)
  || (ty =? FRAME_PUSH_PROMISE) || (ty =? FRAME_GOAWAY) || (ty =? FRAME_MAX_PUSH_ID).

Definition is_grease (v : Z) : bool := (0x21 <=? v) && ((v - 0x21) mod 0x1f =? 0).

Definition is_reserved_setting (id : Z) : bool := (0x02 <=? id) && (id <=? 0x05).

(** [let Some((v, n)) = parse_varint(rest)? else { return Err(Frame) }]: the
    value and the rest of the slice. *)
Definition need_varint (rest : bytes) : result FrameError (Z * bytes) :=
  o ← parse_varint rest;
  match o with
  | None => Err BadFrame
  | Some (v, n) => Ok (v, drop (Z.to_nat n) rest)
  end.

(** The [while !rest.is_empty()] loop of [parse_settings]; each turn takes two
    octets or more, so the length of the payload is enough fuel. *)
Fixpoint parse_settings_loop (fuel : nat) (rest : bytes) (count : Z) (settings : Settings)
    (grease : list Z) : result FrameError Settings :=
  match rest, fuel with
  | [], _ | _, O => Ok settings
  | _ :: _, S fuel =>
      '(id, rest) ← need_varint rest;
      '(value, rest) ← need_varint rest;
      let count := count + 1 in
      _ ← fail_if (MAX_SETTINGS_ENTRIES <? count) BadSettings;
      _ ← fail_if (is_reserved_setting id) BadSettings;
      _ ← fail_if (bool_decide (is_Some (get settings id)) || bool_decide (id ∈ grease)) BadSettings;
      if is_grease id then parse_settings_loop fuel rest count settings (grease ++ [id])
      else parse_settings_loop fuel rest count (insert settings id value) grease
  end.

Definition parse_settings (payload : bytes) : result FrameError Settings :=
  _ ← fail_if (MAX_SETTINGS_PAYLOAD <? zlen payload) BadSettings;
  parse_settings_loop (length payload) payload 0 no_settings [].

(** The [match ty] of [next_frame]; the types are the known ones. *)
Definition parse_payload (ty : Z) (payload : bytes) : result FrameError Frame :=
  if ty =? FRAME_DATA then Ok (Data payload)
  else if ty =? FRAME_HEADERS then Ok (Headers payload)
  else if ty =? FRAME_CANCEL_PUSH then v ← take_varint payload; Ok (CancelPush v)
  else if ty =? FRAME_SETTINGS then s ← parse_settings payload; Ok (SettingsFrame s)
  else if ty =? FRAME_PUSH_PROMISE then
    '(push_id, field_section) ← need_varint payload;
    Ok (PushPromise push_id field_section)
  else if ty =? FRAME_GOAWAY then v ← take_varint payload; Ok (Goaway v)
  else v ← take_varint payload; Ok (MaxPushId v).

(** ** The decoder *)

(** [bufs] is the [VecDeque<Bytes>] of received chunks, [len] their total. *)
Record FrameDecoder : Type := MkFrameDecoder {
  bufs : list bytes;
  len : Z;
  max_field_section : option Z;
}.

(** [FrameDecoder::with_max_field_section], [extend] and [buffered]. *)
Definition with_max_field_section (max : option Z) : FrameDecoder := MkFrameDecoder [] 0 max.
Definition extend (d : FrameDecoder) (data : bytes) : FrameDecoder :=
  match data with
  | [] => d
  | _ => MkFrameDecoder (bufs d ++ [data]) (len d + zlen data) (max_field_section d)
  end.
Definition buffered (d : FrameDecoder) : Z := len d.

(** [byte_at]: the loop over the chunks. *)
Fixpoint byte_at (bufs : list bytes) (remaining : Z) : option byte :=
  match bufs with
  | [] => None
  | buf :: bufs => if remaining <? zlen buf then zget buf remaining else byte_at bufs (remaining - zlen buf)
  end.

(** A result of code that may panic: [None] is an [expect] or an index that
    fails.  [next_frame_flat] shows that none does. *)
Abbreviation panicking A := (option A) (only parsing).

(** The [for i in 1..len] loop of [parse_varint_at]: [n] turns from [offset]. *)
Fixpoint varint_at_loop (bufs : list bytes) (offset : Z) (n : nat) (value : Z) : panicking Z :=
  match n with
  | O => Some value
  | S n =>
      b ← byte_at bufs offset;
      varint_at_loop bufs (offset + 1) n (varint_step value b)
  end.

Definition parse_varint_at (d : FrameDecoder) (offset : Z)
    : panicking (result FrameError (option (Z * Z))) :=
  if len d <=? offset then Some (Ok None)
  else
    first ← byte_at (bufs d) offset;
    let n := varint_len first in
    if len d <? offset + n then Some (Ok None)
    else
      value ← varint_at_loop (bufs d) (offset + 1) (Z.to_nat (n - 1)) (Z.land first 0x3f);
      if (1 <? n) && (value <? default 0 (zget MIN_VARINT (Z.shiftr first 6)))
      then Some (Err BadFrame) else Some (Ok (Some (value, n))).

(** The loop of [advance]. *)
Fixpoint advance_loop (bufs : list bytes) (remaining : Z) : panicking (list bytes) :=
  if remaining <=? 0 then Some bufs
  else match bufs with
  | [] => None
  | front :: bufs =>
      if zlen front <=? remaining then advance_loop bufs (remaining - zlen front)
      else Some (drop (Z.to_nat remaining) front :: bufs)
  end.

Definition advance (d : FrameDecoder) (n : Z) : panicking FrameDecoder :=
  bufs ← advance_loop (bufs d) n;
  Some (MkFrameDecoder bufs (len d - n) (max_field_section d)).

(** The loop of [take_bytes] that coalesces fragments into [out]. *)
Fixpoint coalesce (bufs : list bytes) (remaining : Z) (out : bytes) : panicking (bytes * list bytes) :=
  if remaining <=? 0 then Some (out, bufs)
  else match bufs with
  | [] => None
  | front :: bufs =>
      if zlen front <=? remaining then coalesce bufs (remaining - zlen front) (out ++ front)
      else Some (out ++ take (Z.to_nat remaining) front, drop (Z.to_nat remaining) front :: bufs)
  end.

(** [pop_front_if(|front| front.len() == n)], then [front.len() > n], then the
    loop. *)
Definition take_chunks (bufs : list bytes) (n : Z) : panicking (bytes * list bytes) :=
  match bufs with
  | front :: rest =>
      if zlen front =? n then Some (front, rest)
      else if n <? zlen front then
        let first := drop (Z.to_nat n) front in
        Some (take (Z.to_nat n) front, if bool_decide (first = []) then rest else first :: rest)
      else coalesce bufs n []
  | [] => coalesce bufs n []
  end.

Definition take_bytes (d : FrameDecoder) (n : Z) : panicking (bytes * FrameDecoder) :=
  if n =? 0 then Some ([], d)
  else
    '(payload, bufs) ← take_chunks (bufs d) n;
    Some (payload, MkFrameDecoder bufs (len d - n) (max_field_section d)).

(** The checks of [next_frame] on a frame header, in the order of the code. *)
Definition check_type (ty : Z) : result FrameError () :=
  fail_if ((ty =? 0x02) || (ty =? 0x06) || (ty =? 0x08) || (ty =? 0x09)) (Unexpected ty).

Definition check_length (max_field_section : option Z) (ty len : Z) : result FrameError () :=
  _ ← fail_if ((ty =? FRAME_SETTINGS) && (MAX_SETTINGS_PAYLOAD <? len)) BadSettings;
  _ ← fail_if (MAX_FRAME_PAYLOAD <? len) TooLong;
  _ ← fail_if (((ty =? FRAME_HEADERS) || (ty =? FRAME_PUSH_PROMISE))
               && match max_field_section with Some max => max <? len | None => false end) TooLong;
  fail_if (((ty =? FRAME_CANCEL_PUSH) || (ty =? FRAME_GOAWAY) || (ty =? FRAME_MAX_PUSH_ID))
           && (8 <? len)) BadFrame.

(** One turn of the loop of [next_frame]: [continue] or [return]. *)
Inductive turn : Type :=
| Continue (d : FrameDecoder)
| Return (d : FrameDecoder) (r : result FrameError (option Frame)).

Definition next_turn (d : FrameDecoder) : panicking turn :=
  o ← parse_varint_at d 0;
  match o with
  | Err e => Some (Return d (Err e))
  | Ok None => Some (Return d (Ok None))
  | Ok (Some (ty, type_len)) =>
      match check_type ty with
      | Err e => Some (Return d (Err e))
      | Ok _ =>
          o ← parse_varint_at d type_len;
          match o with
          | Err e => Some (Return d (Err e))
          | Ok None => Some (Return d (Ok None))
          | Ok (Some (n, len_len)) =>
              match check_length (max_field_section d) ty n with
              | Err e => Some (Return d (Err e))
              | Ok _ =>
                  let header_len := type_len + len_len in
                  match checked_add64 header_len n with
                  | None => Some (Return d (Err BadFrame))
                  | Some total =>
                      if len d <? total then Some (Return d (Ok None))
                      else if negb (is_known_frame_type ty) then
                        d ← advance d total; Some (Continue d)
                      else
                        d ← advance d header_len;
                        '(payload, d) ← take_bytes d n;
                        Some (Return d (f ← parse_payload ty payload; Ok (Some f)))
                  end
              end
          end
      end
  end.

(** The [loop] of [next_frame]; a skipped frame takes two octets or more. *)
Fixpoint next_loop (fuel : nat) (d : FrameDecoder)
    : panicking (FrameDecoder * result FrameError (option Frame)) :=
  match fuel with
  | O => None
  | S fuel =>
      t ← next_turn d;
      match t with
      | Continue d => next_loop fuel d
      | Return d r => Some (d, r)
      end
  end.

Definition next_frame (d : FrameDecoder) : panicking (FrameDecoder * result FrameError (option Frame)) :=
  next_loop (S (Z.to_nat (len d))) d.

Definition peek_frame_type (d : FrameDecoder) : panicking (option Z) :=
  o ← parse_varint_at d 0;
  Some (match o with Ok (Some (ty, _)) => Some ty | _ => None end).

(** A DATA frame cut in three chunks behind a skipped unknown frame. *)
Example next_frame_example :
  (d ← Some (foldl extend (with_max_field_section None) [[0x21; 1; 0xff; 0; 5; 1]; [2; 3]; [4; 5; 7]]);
   next_frame d)
  = Some (MkFrameDecoder [[7]] 1 None, Ok (Some (Data [1; 2; 3; 4; 5]))).
Proof. reflexivity. Qed.
Example next_frame_settings :
  next_frame (extend (with_max_field_section None) [4; 4; 6; 9; 0x21; 0])
  = Some (MkFrameDecoder [] 0 None, Ok (Some (SettingsFrame (insert no_settings 6 9)))).
Proof. vm_compute. reflexivity. Qed.

(** ** The flat buffer *)

(** One frame off the front of a buffer: [None] for one of an unknown type. *)
Definition read_frame (max_field_section : option Z) (l : bytes)
    : result FrameError (option (option Frame * Z)) :=
  o ← parse_varint l;
  match o with
  | None => Ok None
  | Some (ty, type_len) =>
      _ ← check_type ty;
      o ← parse_varint (drop (Z.to_nat type_len) l);
      match o with
      | None => Ok None
      | Some (n, len_len) =>
          _ ← check_length max_field_section ty n;
          let header_len := type_len + len_len in
          if zlen l <? header_len + n then Ok None
          else if negb (is_known_frame_type ty) then Ok (Some (None, header_len + n))
          else
            f ← parse_payload ty (take (Z.to_nat n) (drop (Z.to_nat header_len) l));
            Ok (Some (Some f, header_len + n))
      end
  end.

(** The octets a queue of chunks stands for, and a decoder whose count of them
    is right. *)
Definition flat (d : FrameDecoder) : bytes := mjoin (bufs d).
Definition wf (d : FrameDecoder) : Prop := len d = zlen (flat d).

Lemma zdrop_app {A} (l k : list A) n :
  zlen l ≤ n → drop (Z.to_nat n) (l ++ k) = drop (Z.to_nat (n - zlen l)) k.
Proof. unfold zlen. intros. rewrite drop_app_ge by lia. f_equal. lia. Qed.

Lemma byte_at_flat bs i : 0 ≤ i → byte_at bs i = zget (mjoin bs) i.
Proof.
  revert i; induction bs as [|c bs IH]; intros i Hi; cbn [byte_at].
  { unfold zget. change (zlen (mjoin [])) with 0.
    by rewrite (proj2 (Z.ltb_ge i 0)), andb_false_r by lia. }
  change (mjoin (c :: bs)) with (c ++ mjoin bs). destruct (Z.ltb_spec i (zlen c)) as [H|H].
  - unfold zget. rewrite zlen_app. pose proof (zlen_nonneg (mjoin bs)).
    rewrite !(proj2 (Z.ltb_lt _ _)), (proj2 (Z.leb_le _ _)) by lia. cbn.
    rewrite lookup_app_l by (unfold zlen in H; lia). done.
  - rewrite IH by lia. unfold zget. rewrite zlen_app.
    replace (0 <=? i - zlen c) with (0 <=? i) by (destruct (Z.leb_spec 0 i), (Z.leb_spec 0 (i - zlen c)); lia).
    replace (i - zlen c <? zlen (mjoin bs)) with (i <? zlen c + zlen (mjoin bs)) by
      (destruct (Z.ltb_spec i (zlen c + zlen (mjoin bs))), (Z.ltb_spec (i - zlen c) (zlen (mjoin bs))); lia).
    destruct (_ && _); [|done]. rewrite lookup_app_r by (unfold zlen in H; lia).
    f_equal. unfold zlen in *. lia.
Qed.

Lemma varint_at_flat bs : ∀ n off v, 0 ≤ off → off + Z.of_nat n ≤ zlen (mjoin bs) →
  varint_at_loop bs off n v
  = Some (foldl varint_step v (take n (drop (Z.to_nat off) (mjoin bs)))).
Proof.
  induction n as [|n IH]; intros off v Ho Hn; cbn [varint_at_loop]; [by destruct (drop _ _)|].
  rewrite byte_at_flat by done.
  destruct (drop (Z.to_nat off) (mjoin bs)) as [|x t] eqn:E.
  { apply (f_equal length) in E. rewrite length_drop in E. unfold zlen in Hn. cbn in E. lia. }
  assert (mjoin bs !! Z.to_nat off = Some x) as Hx.
  { rewrite <- (Nat.add_0_r (Z.to_nat off)), <- lookup_drop, E. done. }
  rewrite (proj2 (zget_Some _ _ _)) by done. cbn [mbind option_bind take foldl].
  rewrite IH by lia. replace (Z.to_nat (off + 1)) with (1 + Z.to_nat off)%nat by lia.
  by rewrite Nat.add_comm, <- drop_drop, E.
Qed.

Lemma parse_varint_at_flat d off :
  wf d → 0 ≤ off → parse_varint_at d off = Some (parse_varint (drop (Z.to_nat off) (flat d))).
Proof.
  intros Hd Ho. unfold parse_varint_at. rewrite Hd. unfold flat.
  destruct (Z.leb_spec (zlen (mjoin (bufs d))) off) as [H|H].
  { rewrite drop_ge by (unfold zlen in H; lia). done. }
  rewrite byte_at_flat by done. destruct (drop (Z.to_nat off) (mjoin (bufs d))) as [|x t] eqn:E.
  { apply (f_equal length) in E. rewrite length_drop in E. unfold zlen in H. cbn in E. lia. }
  assert (mjoin (bufs d) !! Z.to_nat off = Some x) as Hx.
  { rewrite <- (Nat.add_0_r (Z.to_nat off)), <- lookup_drop, E. done. }
  rewrite (proj2 (zget_Some _ _ _)) by done. cbn [mbind option_bind parse_varint].
  assert (zlen (x :: t) = zlen (mjoin (bufs d)) - off) as Hz.
  { rewrite <- E. unfold zlen. rewrite length_drop. unfold zlen in H. lia. }
  rewrite Hz.
  destruct (Z.ltb_spec (zlen (mjoin (bufs d))) (off + varint_len x)) as [H1|H1].
  { by rewrite (proj2 (Z.ltb_lt (zlen (mjoin (bufs d)) - off) (varint_len x))) by lia. }
  rewrite (proj2 (Z.ltb_ge (zlen (mjoin (bufs d)) - off) (varint_len x))) by lia.
  rewrite varint_at_flat by lia. replace (Z.to_nat (off + 1)) with (1 + Z.to_nat off)%nat by lia.
  rewrite Nat.add_comm, <- drop_drop, E. cbn [drop mbind option_bind].
  change (drop 0 t) with t. destruct (_ && _); done.
Qed.

Lemma advance_flat bs : ∀ n, 0 ≤ n ≤ zlen (mjoin bs) →
  ∃ bs', advance_loop bs n = Some bs' ∧ mjoin bs' = drop (Z.to_nat n) (mjoin bs).
Proof.
  induction bs as [|c bs IH]; intros n Hn; cbn [advance_loop].
  - change (zlen (mjoin [])) with 0 in Hn. exists [].
    rewrite (proj2 (Z.leb_le n 0)) by lia. by destruct (Z.to_nat n).
  - change (mjoin (c :: bs)) with (c ++ mjoin bs) in *. rewrite zlen_app in Hn.
    destruct (Z.leb_spec n 0) as [H0|H0].
    { exists (c :: bs). by replace (Z.to_nat n) with 0%nat by lia. }
    destruct (Z.leb_spec (zlen c) n) as [Hc|Hc].
    + destruct (IH (n - zlen c)) as (bs' & -> & E); [lia|]. exists bs'. by rewrite zdrop_app by done.
    + eexists. split; [done|]. rewrite drop_app_le by (unfold zlen in Hc; lia). done.
Qed.

Lemma coalesce_flat bs : ∀ n out, 0 ≤ n ≤ zlen (mjoin bs) →
  ∃ bs', coalesce bs n out = Some (out ++ take (Z.to_nat n) (mjoin bs), bs')
    ∧ mjoin bs' = drop (Z.to_nat n) (mjoin bs).
Proof.
  induction bs as [|c bs IH]; intros n out Hn; cbn [coalesce].
  - change (zlen (mjoin [])) with 0 in Hn. exists [].
    rewrite (proj2 (Z.leb_le n 0)) by lia.
    by destruct (Z.to_nat n); change (mjoin []) with (@nil Z); cbn; rewrite app_nil_r.
  - change (mjoin (c :: bs)) with (c ++ mjoin bs) in *. rewrite zlen_app in Hn.
    destruct (Z.leb_spec n 0) as [H0|H0].
    { exists (c :: bs). replace (Z.to_nat n) with 0%nat by lia. by rewrite app_nil_r. }
    destruct (Z.leb_spec (zlen c) n) as [Hc|Hc].
    + destruct (IH (n - zlen c) (out ++ c)) as (bs' & -> & E); [lia|]. exists bs'.
      rewrite zdrop_app by done. split; [|done]. do 2 f_equal.
      rewrite <- app_assoc, take_app_ge by (unfold zlen in Hc; lia). do 3 f_equal. unfold zlen; lia.
    + eexists. rewrite take_app_le, drop_app_le by (unfold zlen in Hc; lia). done.
Qed.

Lemma take_chunks_flat bs n : 0 < n ≤ zlen (mjoin bs) →
  ∃ bs', take_chunks bs n = Some (take (Z.to_nat n) (mjoin bs), bs')
    ∧ mjoin bs' = drop (Z.to_nat n) (mjoin bs).
Proof.
  intros Hn. unfold take_chunks. destruct bs as [|c bs]; [by destruct (coalesce_flat [] n []); [lia|eexists]|].
  destruct (Z.eqb_spec (zlen c) n) as [E|E]; [|destruct (Z.ltb_spec n (zlen c)) as [Hc|Hc]].
  - change (mjoin (c :: bs)) with (c ++ mjoin bs). exists bs. subst n. unfold zlen.
    by rewrite Nat2Z.id, take_app_length, drop_app_length.
  - change (mjoin (c :: bs)) with (c ++ mjoin bs). eexists.
    rewrite take_app_le, drop_app_le by (unfold zlen in Hc; lia). split; [done|].
    case_bool_decide as E'; [by rewrite E'|done].
  - destruct (coalesce_flat (c :: bs) n []) as (bs' & -> & E'); [lia|]. by exists bs'.
Qed.

Lemma zlen_drop_sub {A} (l : list A) n : 0 ≤ n ≤ zlen l → zlen (drop (Z.to_nat n) l) = zlen l - n.
Proof. unfold zlen. intros. rewrite length_drop. lia. Qed.

Lemma advance_spec d n : wf d → 0 ≤ n ≤ zlen (flat d) →
  ∃ d', advance d n = Some d' ∧ wf d' ∧ flat d' = drop (Z.to_nat n) (flat d)
    ∧ max_field_section d' = max_field_section d.
Proof.
  intros Hd Hn. unfold advance. destruct (advance_flat (bufs d) n Hn) as (bs & -> & E).
  eexists. split; [done|]. unfold wf, flat in *; cbn. rewrite E, zlen_drop_sub by done. rewrite Hd. done.
Qed.

Lemma take_bytes_spec d n : wf d → 0 ≤ n ≤ zlen (flat d) →
  ∃ d', take_bytes d n = Some (take (Z.to_nat n) (flat d), d') ∧ wf d'
    ∧ flat d' = drop (Z.to_nat n) (flat d) ∧ max_field_section d' = max_field_section d.
Proof.
  intros Hd Hn. unfold take_bytes. destruct (Z.eqb_spec n 0) as [->|]; [by exists d|].
  destruct (take_chunks_flat (bufs d) n) as (bs & E & Ef); [unfold flat in Hn; lia|].
  rewrite E. eexists. split; [done|]. unfold wf, flat in *; cbn. rewrite Ef, zlen_drop_sub by done.
  rewrite Hd. done.
Qed.

(** ** The decoder refines the flat parser *)

Lemma parse_varint_range l v n :
  bytes_ok l → parse_varint l = Ok (Some (v, n)) → 0 ≤ v ≤ MAX_VARINT ∧ 1 ≤ n ≤ 8 ∧ n ≤ zlen l.
Proof.
  intros Hl H. pose proof (parse_bounds l v n Hl H).
  destruct (codec_inv l v n Hl H) as (Hv & _ & ->). rewrite zlen_write_varint in *.
  pose proof (varint_size_bound v). split; [exact Hv|lia].
Qed.

(** Where a decoder stands after it took [n] octets. *)
Definition advanced (d d' : FrameDecoder) (n : Z) : Prop :=
  wf d' ∧ flat d' = drop (Z.to_nat n) (flat d) ∧ max_field_section d' = max_field_section d.

(** What a turn does, told by the flat parser. *)
Definition turn_agrees (d : FrameDecoder) (t : turn) : Prop :=
  match read_frame (max_field_section d) (flat d) with
  | Err e => ∃ d', t = Return d' (Err e)
  | Ok None => t = Return d (Ok None)
  | Ok (Some (None, n)) => ∃ d', t = Continue d' ∧ advanced d d' n
  | Ok (Some (Some f, n)) => ∃ d', t = Return d' (Ok (Some f)) ∧ advanced d d' n
  end.

Lemma check_length_bound max ty n u : check_length max ty n = Ok u → n ≤ MAX_FRAME_PAYLOAD.
Proof.
  unfold check_length. intros H. apply bind_Ok in H as (u1 & _ & H).
  apply bind_Ok in H as (u2 & H & _). apply fail_if_Ok in H. by apply Z.ltb_ge in H.
Qed.

Lemma drop_plus {A} (l : list A) a b : 0 ≤ a → 0 ≤ b →
  drop (Z.to_nat b) (drop (Z.to_nat a) l) = drop (Z.to_nat (a + b)) l.
Proof. intros. rewrite drop_drop. f_equal. lia. Qed.

(** The payload of a known frame. *)
Lemma payload_turn d ty n h : wf d → 0 ≤ h → 0 ≤ n → h + n ≤ zlen (flat d) →
  ∃ t d', (d ← advance d h; '(payload, d) ← take_bytes d n;
        Some (Return d (f ← parse_payload ty payload; Ok (Some f)))) = Some t
    ∧ t = Return d' (f ← parse_payload ty (take (Z.to_nat n) (drop (Z.to_nat h) (flat d))); Ok (Some f))
    ∧ advanced d d' (h + n).
Proof.
  intros Hd Hh Hn Hl. destruct (advance_spec d h) as (d1 & E1 & Hd1 & F1 & M1); [done|lia|].
  destruct (take_bytes_spec d1 n) as (d2 & E2 & Hd2 & F2 & M2); [done|rewrite F1, zlen_drop_sub; lia|].
  eexists _, d2. rewrite E1; cbn. rewrite E2; cbn. split; [done|]. rewrite F1. split; [done|].
  split; [done|]. rewrite F2, F1, drop_plus, M2, M1 by done. done.
Qed.

Lemma next_turn_flat d : wf d → bytes_ok (flat d) → ∃ t, next_turn d = Some t ∧ turn_agrees d t.
Proof.
  intros Hd Hb. unfold next_turn, turn_agrees, read_frame.
  rewrite parse_varint_at_flat by done. change (drop (Z.to_nat 0) (flat d)) with (flat d).
  destruct (parse_varint (flat d)) as [[[ty tl]|]|e] eqn:E1; cbn; [|eauto..].
  destruct (parse_varint_range _ _ _ Hb E1) as (Ht & Htl & Htn).
  destruct (check_type ty) as [[]|e]; cbn; [|eauto].
  rewrite parse_varint_at_flat by (done || lia).
  destruct (parse_varint (drop (Z.to_nat tl) (flat d))) as [[[n ll]|]|e] eqn:E2; cbn; [|eauto..].
  destruct (parse_varint_range _ _ _ (Forall_drop _ _ _ Hb) E2) as (Hn & Hll & _).
  destruct (check_length (max_field_section d) ty n) as [u|e] eqn:E3; cbn; [|eauto].
  apply check_length_bound in E3. unfold MAX_FRAME_PAYLOAD in E3.
  assert (checked_add64 (tl + ll) n = Some (tl + ll + n)) as ->.
  { unfold checked_add64, u64_max. by rewrite (proj2 (Z.leb_le _ _)) by lia. }
  rewrite Hd. destruct (Z.ltb_spec (zlen (flat d)) (tl + ll + n)); [eauto|].
  destruct (is_known_frame_type ty); cbn.
  - destruct (payload_turn d ty n (tl + ll) Hd) as (t & d' & -> & -> & Ha); [lia..|].
    eexists. split; [done|].
    destruct (parse_payload ty (take (Z.to_nat n) (drop (Z.to_nat (tl + ll)) (flat d)))); cbn; eauto.
  - destruct (advance_spec d (tl + ll + n) Hd) as (d' & -> & Ha); [lia|]. cbn. eauto.
Qed.

Lemma is_known_bytes (d d' : FrameDecoder) n : bytes_ok (flat d) → advanced d d' n → bytes_ok (flat d').
Proof. intros H (_ & -> & _). by apply Forall_drop. Qed.

(** [read_frame] on a longer buffer. *)
Lemma read_frame_app max l k r :
  bytes_ok l → bytes_ok k → read_frame max l = r → r ≠ Ok None → read_frame max (l ++ k) = r.
Proof.
  intros Hl Hk <- Hr. unfold read_frame in *.
  destruct (parse_varint l) as [[[ty tl]|]|e] eqn:E1; cbn in *; [|done|].
  2:{ by rewrite (parse_error l k e Hl Hk E1). }
  rewrite (parse_more l k ty tl Hl Hk E1); cbn.
  destruct (parse_varint_range _ _ _ Hl E1) as (Ht & Htl & Htn).
  destruct (check_type ty) as [[]|e]; cbn in *; [|done].
  rewrite drop_app_le by (unfold zlen in Htn; lia).
  assert (bytes_ok (drop (Z.to_nat tl) l)) as Hd by (by apply Forall_drop).
  destruct (parse_varint (drop (Z.to_nat tl) l)) as [[[n ll]|]|e] eqn:E2; cbn in *; [|done|].
  2:{ by rewrite (parse_error _ k e Hd Hk E2). }
  rewrite (parse_more _ k n ll Hd Hk E2); cbn.
  destruct (parse_varint_range _ _ _ Hd E2) as (Hn & Hll & Hlln). rewrite zlen_drop_sub in Hlln by lia.
  destruct (check_length max ty n) as [u|e] eqn:E3; cbn in *; [|done].
  rewrite zlen_app. pose proof (zlen_nonneg k).
  destruct (Z.ltb_spec (zlen l) (tl + ll + n)); [done|]. rewrite (proj2 (Z.ltb_ge _ _)) by lia.
  unfold zlen in *. by rewrite drop_app_le, take_app_le by (rewrite ?length_drop; lia).
Qed.

Lemma read_frame_bounds max l x n : bytes_ok l → read_frame max l = Ok (Some (x, n)) → 2 ≤ n ≤ zlen l.
Proof.
  intros Hl H. unfold read_frame in H. apply bind_Ok in H as ([[ty tl]|] & E1 & H); [|done].
  destruct (parse_varint_range _ _ _ Hl E1) as (Ht & Htl & Htn).
  apply bind_Ok in H as (u & _ & H). apply bind_Ok in H as ([[k ll]|] & E2 & H); [|done].
  destruct (parse_varint_range _ _ _ (Forall_drop _ _ _ Hl) E2) as (Hk & Hll & _).
  apply bind_Ok in H as (u' & _ & H). destruct (Z.ltb_spec (zlen l) (tl + ll + k)); [done|].
  destruct (negb _); [injection H as <- <-; lia|]. apply bind_Ok in H as (f & _ & H). injection H as <- <-. lia.
Qed.

#[export] Instance read_frame_incremental max : IncrementalParser (read_frame max).
Proof.
  split.
  - intros l x n Hl H. pose proof (read_frame_bounds max l x n Hl H). lia.
  - intros l k x n Hl Hk H. by eapply read_frame_app.
  - intros l k e Hl Hk H. by eapply read_frame_app.
Qed.

(** The frames of a buffer: unknown ones skipped. *)
Definition known (o : list (option Frame) * bytes * option FrameError) : list Frame * bytes * option FrameError :=
  let '(xs, rest, e) := o in (omap id xs, rest, e).
Definition frames (max : option Z) (l : bytes) : list Frame * bytes * option FrameError :=
  known (drain (read_frame max) l).

Lemma frames_eq max l : bytes_ok l → frames max l =
  match read_frame max l with
  | Err e => ([], l, Some e)
  | Ok None => ([], l, None)
  | Ok (Some (x, n)) =>
      let '(fs, rest, e) := frames max (drop (Z.to_nat n) l) in (option_list x ++ fs, rest, e)
  end.
Proof.
  intros Hl. unfold frames. rewrite (drain_eq (read_frame max) l Hl).
  destruct (read_frame max l) as [[[x n]|]|e]; [|reflexivity..].
  destruct (drain _ (drop (Z.to_nat n) l)) as [[xs rest] e]. by destruct x.
Qed.

(** What one call of [next_frame] returns. *)
Definition next_agrees (d d' : FrameDecoder) (r : result FrameError (option Frame)) : Prop :=
  let max := max_field_section d in
  match r with
  | Err e => ∃ rest, frames max (flat d) = ([], rest, Some e)
  | Ok o => wf d' ∧ bytes_ok (flat d') ∧ max_field_section d' = max
      ∧ match o with
        | None => frames max (flat d) = ([], flat d', None)
        | Some f => (length (flat d') < length (flat d))%nat
            ∧ frames max (flat d) = let '(fs, rest, e) := frames max (flat d') in (f :: fs, rest, e)
        end
  end.

Lemma next_loop_flat fuel d : wf d → bytes_ok (flat d) → (length (flat d) < fuel)%nat →
  ∃ d' r, next_loop fuel d = Some (d', r) ∧ next_agrees d d' r.
Proof.
  revert d; induction fuel as [|fuel IH]; intros d Hd Hb Hf; [lia|]. cbn [next_loop].
  destruct (next_turn_flat d Hd Hb) as (t & -> & Ht). cbn. unfold turn_agrees in Ht.
  pose proof (frames_eq (max_field_section d) (flat d) Hb) as Hfr.
  destruct (read_frame (max_field_section d) (flat d)) as [[[[f|] n]|]|e] eqn:E.
  - destruct Ht as (d' & -> & Ha). eexists d', _. split; [done|]. pose proof (is_known_bytes _ _ _ Hb Ha).
    destruct Ha as (Hd' & Ef & Em). apply read_frame_bounds in E; [|done]. unfold next_agrees.
    rewrite Ef. split; [done|]. split; [congruence|]. split; [done|]. split; [|exact Hfr].
    rewrite length_drop. unfold zlen in E. lia.
  - destruct Ht as (d' & -> & Ha). pose proof (is_known_bytes _ _ _ Hb Ha) as Hb'.
    destruct Ha as (Hd' & Ef & Em). apply read_frame_bounds in E; [|done].
    assert (length (flat d') < length (flat d))%nat as Hlt.
    { rewrite Ef, length_drop. unfold zlen in E. lia. }
    destruct (IH d' Hd' Hb') as (d2 & r & -> & Hr); [lia|]. exists d2, r. split; [done|].
    unfold next_agrees in *. rewrite Em, Ef in Hr. rewrite Hfr.
    destruct (frames (max_field_section d) (drop (Z.to_nat n) (flat d))) as [[fs rest] e]; cbn.
    rewrite length_drop in Hr. destruct r as [[f|]|e']; [|exact Hr..].
    destruct Hr as (? & ? & ? & ? & ?). repeat split; try done. lia.
  - subst t. eexists d, _. split; [done|]. unfold next_agrees. done.
  - destruct Ht as (d' & ->). eexists d', _. split; [done|]. unfold next_agrees. eauto.
Qed.

(** Waiting means that the frame at the front is not whole. *)
Lemma read_frame_waits max l : bytes_ok l → read_frame max l = Ok None → zlen l < 16 + MAX_FRAME_PAYLOAD.
Proof.
  intros Hl H. assert (∀ k, bytes_ok k → parse_varint k = Ok None → zlen k < 8) as Hv.
  { intros [|first k] Hk Hn; [done|]. apply Forall_cons in Hk as [Hf _]. unfold is_byte in Hf.
    cbn [parse_varint] in Hn. rewrite varint_len_eq in Hn by done.
    assert (2 ^ (first / 64) ≤ 8) by (change 8 with (2 ^ 3); apply Z.pow_le_mono_r; dlia).
    destruct (Z.ltb_spec (zlen (first :: k)) (2 ^ (first / 64))); [lia|]. by destruct (fail_if _ _). }
  unfold MAX_FRAME_PAYLOAD. unfold read_frame in H.
  apply bind_Ok in H as ([[ty tl]|] & E1 & H); [|specialize (Hv l Hl E1); lia].
  destruct (parse_varint_range _ _ _ Hl E1) as (Ht & Htl & Htn).
  apply bind_Ok in H as (u & _ & H). pose proof (Forall_drop _ (Z.to_nat tl) _ Hl) as Hd.
  apply bind_Ok in H as ([[n ll]|] & E2 & H).
  2:{ specialize (Hv _ Hd E2). rewrite zlen_drop_sub in Hv by lia. lia. }
  destruct (parse_varint_range _ _ _ Hd E2) as (Hn & Hll & _).
  apply bind_Ok in H as (u' & E3 & H). apply check_length_bound in E3. unfold MAX_FRAME_PAYLOAD in E3.
  destruct (Z.ltb_spec (zlen l) (tl + ll + n)); [lia|]. destruct (negb _); [done|].
  by apply bind_Ok in H as (f & _ & H).
Qed.

(** The driver's loop around the decoder: [extend], then [next_frame] until it
    has no more. *)
Fixpoint drain_frames (fuel : nat) (d : FrameDecoder)
    : panicking (list Frame * FrameDecoder * option FrameError) :=
  match fuel with
  | O => None
  | S fuel =>
      '(d, r) ← next_frame d;
      match r with
      | Err e => Some ([], d, Some e)
      | Ok None => Some ([], d, None)
      | Ok (Some f) =>
          '(fs, d, e) ← drain_frames fuel d;
          Some (f :: fs, d, e)
      end
  end.

Fixpoint receive (d : FrameDecoder) (chunks : list bytes)
    : panicking (list Frame * FrameDecoder * option FrameError) :=
  match chunks with
  | [] => Some ([], d, None)
  | c :: chunks =>
      let d := extend d c in
      '(fs, d, e) ← drain_frames (S (Z.to_nat (len d))) d;
      match e with
      | Some e => Some (fs, d, Some e)
      | None => '(gs, d, e) ← receive d chunks; Some (fs ++ gs, d, e)
      end
  end.

Definition decoder_ok (d : FrameDecoder) : Prop := wf d ∧ bytes_ok (flat d).

Lemma next_frame_flat d : decoder_ok d → ∃ d' r, next_frame d = Some (d', r) ∧ next_agrees d d' r.
Proof.
  intros [Hd Hb]. apply next_loop_flat; [done..|]. rewrite Hd. unfold zlen. lia.
Qed.

(** What a decoder keeps was there before. *)
Lemma next_frame_keeps d d' r o : decoder_ok d → next_frame d = Some (d', r) → r = Ok o →
  (length (flat d') ≤ length (flat d))%nat.
Proof.
  intros Hd E ->. destruct (next_frame_flat d Hd) as (d1 & r1 & E1 & Hn). rewrite E in E1. injection E1 as <- <-.
  destruct Hn as (_ & _ & _ & Hn). destruct o as [f|]; [lia|]. unfold frames, known in Hn.
  destruct (drain _ (flat d)) as [[xs rest] e] eqn:Edr. apply (drain_rest_length _ _ _ _ _ (proj2 Hd)) in Edr. by injection Hn as _ <- _.
Qed.

(** A decoder that stands where the flat parser stopped. *)
Definition drained (d d' : FrameDecoder) (o : list Frame * bytes * option FrameError)
    (fs : list Frame) (e : option FrameError) : Prop :=
  let '(gs, rest, e') := o in
  fs = gs ∧ e = e' ∧ (e = None → decoder_ok d' ∧ flat d' = rest
    ∧ max_field_section d' = max_field_section d).

Lemma drain_frames_flat fuel d : decoder_ok d → (length (flat d) < fuel)%nat →
  ∃ fs d' e, drain_frames fuel d = Some (fs, d', e)
    ∧ drained d d' (frames (max_field_section d) (flat d)) fs e.
Proof.
  revert d; induction fuel as [|fuel IH]; intros d Hd Hf; [lia|]. cbn [drain_frames].
  destruct (next_frame_flat d Hd) as (d1 & r & -> & Hr). cbn [mbind option_bind].
  destruct r as [[f|]|e]; cbn in Hr.
  - destruct Hr as (Hw & Hb & Em & Hlt & Hfr). destruct (IH d1) as (fs & d' & e & -> & Hdr); [done|lia|].
    rewrite Em in *. cbn. eexists _, d', e. split; [done|]. rewrite Hfr. unfold drained in *.
    destruct (frames (max_field_section d) (flat d1)) as [[gs rest] e']. rewrite Em in Hdr.
    destruct Hdr as (-> & -> & Hdr). done.
  - destruct Hr as (Hw & Hb & Em & Hfr). eexists _, d1, _. split; [done|]. rewrite Hfr. done.
  - destruct Hr as (rest & Hfr). eexists _, d1, _. split; [done|]. rewrite Hfr. done.
Qed.

Lemma extend_flat d c : flat (extend d c) = flat d ++ c.
Proof. destruct c; cbn; [by rewrite app_nil_r|]. unfold flat; cbn. rewrite join_app. cbn. by rewrite app_nil_r. Qed.

Lemma extend_max d c : max_field_section (extend d c) = max_field_section d.
Proof. by destruct c. Qed.

Lemma extend_ok d c : decoder_ok d → bytes_ok c → decoder_ok (extend d c).
Proof.
  intros [Hw Hb] Hc. split; [|rewrite extend_flat; by apply Forall_app].
  unfold wf in *. rewrite extend_flat, zlen_app, <- Hw. destruct c; cbn; [|done]. rewrite zlen_nil. lia.
Qed.

(** The chunked decoder refines the flat frame grammar: whatever the
    queue of chunks holds and however further octets are cut into chunks, the
    decoder never panics or runs forever, returns the known frames that
    [read_frame] reads off the concatenation of all the octets, stops at the
    same error, and keeps exactly the octets the grammar leaves over. *)
Lemma receive_flat d chunks :
  decoder_ok d → read_frame (max_field_section d) (flat d) = Ok None → Forall bytes_ok chunks →
  ∃ fs d' e, receive d chunks = Some (fs, d', e)
    ∧ drained d d' (frames (max_field_section d) (flat d ++ mjoin chunks)) fs e.
Proof.
  revert d; induction chunks as [|c chunks IH]; intros d Hd Hp Hc; cbn [receive].
  { eexists _, _, _. split; [done|]. change (mjoin []) with (@nil Z). rewrite app_nil_r.
    rewrite frames_eq by apply Hd. by rewrite Hp. }
  apply Forall_cons in Hc as [Hc Hcs]. pose proof (extend_ok d c Hd Hc) as Hd1.
  destruct (drain_frames_flat (S (Z.to_nat (len (extend d c)))) _ Hd1) as (fs & d1 & e & -> & Hdr).
  { destruct Hd1 as [-> _]. unfold zlen. lia. }
  cbn [mbind option_bind]. change (mjoin (c :: chunks)) with (c ++ mjoin chunks). rewrite app_assoc.
  rewrite extend_max, extend_flat in Hdr. unfold frames in *.
  assert (bytes_ok (flat d ++ c)) as Hb by (rewrite <- extend_flat; apply Hd1).
  pose proof (drain_app (read_frame (max_field_section d)) (mjoin chunks) _ Hb (Forall_join _ _ Hcs)) as Ha.
  pose proof (parse_drain_stops (read_frame (max_field_section d)) (flat d ++ c)) as Hst.
  destruct (drain (read_frame (max_field_section d)) (flat d ++ c)) as [[xs rest] e'].
  destruct Hdr as (-> & -> & Hdr). destruct e' as [e'|].
  - destruct Ha as (rest' & ->). by eexists _, _, _.
  - destruct (Hdr eq_refl) as (Hd' & Ef & Em). rewrite extend_max in Em. rewrite <- Em, <- Ef in Hst.
    destruct (IH d1 Hd') as (gs & d2 & e & -> & Hg); [by eapply Hst|done|].
    cbn [mbind option_bind]. eexists _, _, _. split; [done|]. rewrite Em, Ef in Hg.
    rewrite Ha. destruct (drain _ (rest ++ mjoin chunks)) as [[ys rest'] e'']. unfold drained, known in *.
    destruct Hg as (-> & -> & Hg). rewrite omap_app. split; [done|]. split; [done|]. by rewrite Em in Hg.
Qed.

(** ** SETTINGS payloads *)

Lemma need_varint_write v r : varint_ok v → need_varint (write_varint v ++ r) = Ok (v, r).
Proof.
  intros Hv. unfold need_varint. rewrite parse_write_varint by done. cbn [mbind result_bind].
  unfold zlen. by rewrite Nat2Z.id, drop_app_length.
Qed.

Lemma need_varint_Ok l v r : bytes_ok l → need_varint l = Ok (v, r) ↔ varint_ok v ∧ l = write_varint v ++ r.
Proof.
  intros Hl. unfold need_varint. split.
  - intros H. apply bind_Ok in H as ([[v' n]|] & Hp & H); [|done]. injection H as -> <-.
    destruct (codec_inv l v n Hl Hp) as (Hv & E & _). done.
  - intros [Hv ->]. by apply need_varint_write.
Qed.

Definition entry_ok (e : Z * Z) : Prop := varint_ok e.1 ∧ varint_ok e.2 ∧ is_reserved_setting e.1 = false.

(** An identifier that was seen: in the index or among the grease. *)
Definition seen (s : Settings) (grease : list Z) (id : Z) : Prop := is_Some (get s id) ∨ id ∈ grease.

(** The entries of a payload with the reserved identifiers dropped. *)
Definition keep (es : list (Z * Z)) : list (Z * Z) := filter (λ e, is_grease e.1 = false) es.
Definition insert_all (s : Settings) (es : list (Z * Z)) : Settings :=
  foldl (λ s e, insert s e.1 e.2) s es.

Lemma get_insert s id v i : is_Some (get (insert s id v) i) ↔ i = id ∨ is_Some (get s i).
Proof.
  unfold get, insert; cbn. destruct (lookup s !! id) eqn:E.
  - split; [by right|]. intros [->|H]; [by rewrite E|done].
  - destruct (decide (i = id)) as [->|].
    + rewrite lookup_insert_eq. split; [by left|]. intros _. by eexists.
    + rewrite lookup_insert_ne by done. naive_solver.
Qed.

Lemma write_entries_cons e es : write_entries (e :: es) = write_varint e.1 ++ write_varint e.2 ++ write_entries es.
Proof.
  change (write_entries (e :: es)) with ((write_varint e.1 ++ write_varint e.2) ++ write_entries es).
  by rewrite <- app_assoc.
Qed.

Lemma write_entries_ok es : bytes_ok (write_entries es).
Proof.
  induction es as [|e es IH]; [done|]. rewrite write_entries_cons.
  rewrite !Forall_app. split; [apply write_varint_ok|]. split; [apply write_varint_ok|done].
Qed.

Lemma write_entries_length es : (2 * length es ≤ length (write_entries es) ≤ 16 * length es)%nat.
Proof.
  induction es as [|e es IH]; [cbn; lia|]. rewrite write_entries_cons, !length_app. cbn [length].
  pose proof (zlen_write_varint e.1). pose proof (zlen_write_varint e.2). unfold zlen in *.
  pose proof (varint_size_bound e.1). pose proof (varint_size_bound e.2). lia.
Qed.

(** What the loop accepts and what it returns. *)
Definition settings_from (count : Z) (s : Settings) (grease : list Z) (es : list (Z * Z)) : Prop :=
  Forall entry_ok es ∧ count + zlen es ≤ MAX_SETTINGS_ENTRIES ∧ NoDup es.*1
  ∧ ∀ e, e ∈ es → ¬ seen s grease e.1.

Definition pick (s : Settings) (e : Z * Z) : Settings := if is_grease e.1 then s else insert s e.1 e.2.
Definition pick_grease (grease : list Z) (e : Z * Z) : list Z := if is_grease e.1 then grease ++ [e.1] else grease.

Lemma seen_pick s grease e i : seen (pick s e) (pick_grease grease e) i ↔ i = e.1 ∨ seen s grease i.
Proof.
  unfold seen, pick, pick_grease. destruct (is_grease e.1).
  - rewrite elem_of_app, list_elem_of_singleton. tauto.
  - rewrite get_insert. tauto.
Qed.

Lemma settings_from_cons count s grease e es :
  settings_from count s grease (e :: es) ↔
  entry_ok e ∧ count + 1 ≤ MAX_SETTINGS_ENTRIES ∧ ¬ seen s grease e.1
  ∧ settings_from (count + 1) (pick s e) (pick_grease grease e) es.
Proof.
  unfold settings_from. rewrite Forall_cons, fmap_cons, NoDup_cons, zlen_cons.
  pose proof (zlen_nonneg es). split.
  - intros ((He & Hes) & Hc & (Hni & Hnd) & Hs). split_and!; try done; try lia.
    + apply Hs. by left.
    + intros x Hx [E|Hx']%seen_pick; [|by apply (Hs x); [right|]].
      apply Hni. rewrite <- E. by apply list_elem_of_fmap_2.
  - intros (He & Hc & Hn & Hes & Hc' & Hnd & Hs). split_and!; try done; try lia.
    + intros (x & E & Hx)%list_elem_of_fmap. apply (Hs x Hx). apply seen_pick. by left.
    + intros x [->|Hx]%elem_of_cons; [done|]. intros Hseen. apply (Hs x Hx). apply seen_pick. by right.
Qed.

Lemma seen_bool s grease id :
  bool_decide (is_Some (get s id)) || bool_decide (id ∈ grease) = false ↔ ¬ seen s grease id.
Proof.
  unfold seen. rewrite orb_false_iff, !bool_decide_eq_false. tauto.
Qed.

(** One turn of the loop on an entry. *)
Lemma settings_turn fuel id v rest count s grease :
  varint_ok id → varint_ok v →
  parse_settings_loop (S fuel) (write_entries [(id, v)] ++ rest) count s grease
  = (_ ← fail_if (MAX_SETTINGS_ENTRIES <? count + 1) BadSettings;
     _ ← fail_if (is_reserved_setting id) BadSettings;
     _ ← fail_if (bool_decide (is_Some (get s id)) || bool_decide (id ∈ grease)) BadSettings;
     parse_settings_loop fuel rest (count + 1) (pick s (id, v)) (pick_grease grease (id, v))).
Proof.
  intros Hi Hv. rewrite write_entries_cons. cbn [fst snd].
  change (write_entries []) with (@nil Z). rewrite app_nil_r, <- app_assoc.
  destruct (write_varint id ++ write_varint v ++ rest) as [|x t] eqn:E.
  { apply app_eq_nil in E as [E _]. by destruct (codec_nonempty id Hi). }
  cbn [parse_settings_loop]. rewrite <- E. rewrite need_varint_write by done.
  cbn [mbind result_bind]. rewrite need_varint_write by done. cbn [mbind result_bind].
  destruct (fail_if (MAX_SETTINGS_ENTRIES <? count + 1) BadSettings); [|done]. cbn [mbind result_bind].
  destruct (fail_if (is_reserved_setting id) BadSettings); [|done]. cbn [mbind result_bind].
  destruct (fail_if _ BadSettings); [|done]. cbn [mbind result_bind].
  unfold pick, pick_grease; cbn [fst snd]. by destruct (is_grease id).
Qed.

Lemma insert_all_pick s e es :
  insert_all s (keep (e :: es)) = insert_all (pick s e) (keep es).
Proof.
  unfold keep. rewrite filter_cons. unfold pick. destruct (is_grease e.1); cbn.
  - rewrite decide_False by done. done.
  - rewrite decide_True by done. done.
Qed.

Lemma parse_settings_loop_complete es : ∀ fuel count s grease,
  settings_from count s grease es → (length (write_entries es) ≤ fuel)%nat →
  parse_settings_loop fuel (write_entries es) count s grease = Ok (insert_all s (keep es)).
Proof.
  induction es as [|e es IH]; intros fuel count s grease H Hf; [by destruct fuel|].
  apply settings_from_cons in H as ((Hid & Hv & Hr) & Hc & Hs & H).
  pose proof (write_entries_length (e :: es)) as Hl. cbn [length] in Hl. destruct fuel as [|fuel]; [lia|].
  assert (write_entries (e :: es) = write_entries [(e.1, e.2)] ++ write_entries es) as Ew.
  { rewrite !write_entries_cons. change (write_entries []) with (@nil Z). cbn [fst snd].
    by rewrite app_nil_r, <- app_assoc. }
  pose proof (write_entries_length [(e.1, e.2)]) as Hl1. cbn [length] in Hl1.
  rewrite Ew, length_app in Hf. rewrite Ew.
  rewrite settings_turn by done. rewrite (proj2 (Z.ltb_ge _ _)) by lia.
  rewrite Hr, (proj2 (seen_bool s grease e.1)) by done. cbn [fail_if mbind result_bind].
  rewrite IH by (done || lia). rewrite insert_all_pick. by destruct e.
Qed.

Lemma parse_settings_loop_sound fuel : ∀ l count s grease s',
  bytes_ok l → (length l ≤ fuel)%nat → parse_settings_loop fuel l count s grease = Ok s' →
  count ≤ MAX_SETTINGS_ENTRIES →
  ∃ es, l = write_entries es ∧ settings_from count s grease es ∧ s' = insert_all s (keep es).
Proof.
  induction fuel as [|fuel IH]; intros l count s grease s' Hl Hf H Hcnt.
  { destruct l; [|cbn in Hf; lia]. injection H as <-. exists [].
    split_and!; try done. unfold settings_from. rewrite zlen_nil. split_and!; try constructor; try lia.
    intros e He. by apply not_elem_of_nil in He. }
  destruct l as [|x t].
  { injection H as <-. exists []. split_and!; try done. unfold settings_from. rewrite zlen_nil.
    split_and!; try constructor; try lia. intros e He. by apply not_elem_of_nil in He. }
  cbn [parse_settings_loop] in H. apply bind_Ok in H as ([id r1] & H1 & H).
  apply bind_Ok in H as ([v r2] & H2 & H). apply need_varint_Ok in H1 as [Hid E1]; [|done].
  assert (bytes_ok r1) as Hr1 by (rewrite E1 in Hl; by apply Forall_app in Hl as [_ ?]).
  apply need_varint_Ok in H2 as [Hv ->]; [|done].
  assert (bytes_ok r2) as Hr2 by (by apply Forall_app in Hr1 as [_ ?]).
  apply bind_Ok in H as (? & Hc%fail_if_Ok & H). apply Z.ltb_ge in Hc.
  apply bind_Ok in H as (? & Hres%fail_if_Ok & H). apply bind_Ok in H as (? & Hs%fail_if_Ok & H).
  apply seen_bool in Hs.
  assert (length r2 ≤ fuel)%nat as Hf2.
  { rewrite E1, !length_app in Hf. pose proof (varint_size_bound id). pose proof (zlen_write_varint id).
    unfold zlen in *. lia. }
  destruct (IH r2 (count + 1) (pick s (id, v)) (pick_grease grease (id, v)) s' Hr2 Hf2) as (es & -> & Hes & ->).
  { unfold pick, pick_grease; cbn [fst snd]. by destruct (is_grease id). }
  { done. }
  exists ((id, v) :: es). rewrite E1, write_entries_cons, insert_all_pick. split; [done|]. split; [|done].
  by apply settings_from_cons.
Qed.

Lemma insert_all_entries s es : entries (insert_all s es) = entries s ++ es.
Proof.
  revert s; induction es as [|e es IH]; intros s; cbn; [by rewrite app_nil_r|].
  rewrite IH. cbn. rewrite <- app_assoc. by destruct e.
Qed.

Lemma insert_all_lookup s es :
  NoDup es.*1 → (∀ e, e ∈ es → lookup s !! e.1 = None) →
  lookup (insert_all s es) = list_to_map es ∪ lookup s.
Proof.
  revert s; induction es as [|[k v] es IH]; intros s Hnd Hs.
  { cbn. by rewrite (left_id_L ∅ (∪)). }
  rewrite fmap_cons, NoDup_cons in Hnd. destruct Hnd as [Hni Hnd].
  assert (lookup s !! k = None) as Hk by (apply (Hs (k, v)); by left).
  cbn [insert_all foldl fst snd]. rewrite IH; [|done|].
  - unfold insert at 1; cbn [lookup]. rewrite Hk. cbn [list_to_map foldr fst snd].
    rewrite <- insert_union_r by (by apply not_elem_of_list_to_map_1). by rewrite insert_union_l.
  - intros e He. unfold insert; cbn [lookup]. rewrite Hk.
    rewrite lookup_insert_ne; [apply Hs; by right|].
    intros E. apply Hni. apply list_elem_of_fmap. exists e. by rewrite E.
Qed.

Lemma keep_sublist es : keep es `sublist_of` es.
Proof. apply sublist_filter. Qed.

Lemma kept_settings es : NoDup es.*1 →
  insert_all no_settings (keep es) = MkSettings (keep es) (list_to_map (keep es)).
Proof.
  intros Hnd. assert (NoDup (keep es).*1) as Hk.
  { eapply sublist_NoDup; [exact Hnd|]. apply fmap_sublist, keep_sublist. }
  pose proof (insert_all_entries no_settings (keep es)) as He.
  pose proof (insert_all_lookup no_settings (keep es) Hk) as Hl.
  destruct (insert_all no_settings (keep es)); cbn in *. rewrite He, Hl; [|intros; apply lookup_empty].
  by rewrite (right_id_L ∅ (∪)).
Qed.

Lemma parse_settings_iff p s :
  bytes_ok p →
  parse_settings p = Ok s ↔
  ∃ es, p = write_entries es ∧ Forall entry_ok es ∧ zlen es ≤ MAX_SETTINGS_ENTRIES ∧ NoDup es.*1
    ∧ s = MkSettings (keep es) (list_to_map (keep es)).
Proof.
  intros Hp. unfold parse_settings. split.
  - intros H. apply bind_Ok in H as (u & _ & H).
    apply parse_settings_loop_sound in H as (es & -> & (Ho & Hc & Hnd & _) & ->); [|done..].
    exists es. by rewrite kept_settings.
  - intros (es & -> & Ho & Hc & Hnd & ->). pose proof (write_entries_length es).
    unfold MAX_SETTINGS_ENTRIES, zlen in Hc.
    rewrite (proj2 (Z.ltb_ge _ _)) by (unfold MAX_SETTINGS_PAYLOAD, zlen; lia). cbn [fail_if mbind result_bind].
    rewrite parse_settings_loop_complete; [by rewrite kept_settings| |done].
    split_and!; try done. intros e He [[x Hx]|Hx]; [|by apply not_elem_of_nil in Hx].
    unfold get in Hx. cbn in Hx. by rewrite lookup_empty in Hx.
Qed.

(** A SETTINGS payload is accepted exactly when it is a sequence of at
    most 32 minimally encoded parameters, none with a reserved HTTP/2
    identifier and no identifier twice, the grease ones included; the settings
    are then those parameters in wire order without the grease, and looking one
    up gives its value. *)
Theorem parse_settings_spec p s :
  bytes_ok p →
  parse_settings p = Ok s ↔
  ∃ es, p = write_entries es ∧ Forall entry_ok es ∧ zlen es ≤ MAX_SETTINGS_ENTRIES ∧ NoDup es.*1
    ∧ s = MkSettings (keep es) (list_to_map (keep es)).
Proof. apply parse_settings_iff. Qed.

Lemma parse_settings_spec_witness :
  ∃ es, [6; 9; 0x21; 0; 1; 0x40; 0x64] = write_entries es ∧ Forall entry_ok es
    ∧ zlen es ≤ MAX_SETTINGS_ENTRIES ∧ NoDup es.*1
    ∧ insert (insert no_settings 6 9) 1 100 = MkSettings (keep es) (list_to_map (keep es)).
Proof. apply parse_settings_spec; [solve_bytes|vm_compute; reflexivity]. Defined.

(** ** Whole frames *)

(** The type and the payload that [encode] writes. *)
Definition frame_type (f : Frame) : Z :=
  match f with
  | Data _ => FRAME_DATA
  | Headers _ => FRAME_HEADERS
  | SettingsFrame _ => FRAME_SETTINGS
  | CancelPush _ => FRAME_CANCEL_PUSH
  | PushPromise _ _ => FRAME_PUSH_PROMISE
  | Goaway _ => FRAME_GOAWAY
  | MaxPushId _ => FRAME_MAX_PUSH_ID
  end.

Definition payload (f : Frame) : bytes :=
  match f with
  | Data p | Headers p => p
  | SettingsFrame s => write_entries (entries s)
  | CancelPush v | Goaway v | MaxPushId v => write_varint v
  | PushPromise v p => write_varint v ++ p
  end.

(** The frames an endpoint may send to a decoder with this bound. *)
Definition frame_ok (max : option Z) (f : Frame) : Prop :=
  match f with
  | Data p => bytes_ok p ∧ zlen p ≤ MAX_FRAME_PAYLOAD
  | Headers p => bytes_ok p ∧ zlen p ≤ MAX_FRAME_PAYLOAD ∧ ∀ m, max = Some m → zlen p ≤ m
  | SettingsFrame s =>
      Forall entry_ok (entries s) ∧ zlen (entries s) ≤ MAX_SETTINGS_ENTRIES ∧ NoDup (entries s).*1
  | CancelPush v | Goaway v | MaxPushId v => varint_ok v
  | PushPromise v p =>
      varint_ok v ∧ bytes_ok p ∧ varint_size v + zlen p ≤ MAX_FRAME_PAYLOAD
      ∧ ∀ m, max = Some m → varint_size v + zlen p ≤ m
  end.

(** What the decoder makes of a frame: reserved ("grease") settings are dropped. *)
Definition ungreased (f : Frame) : Frame :=
  match f with
  | SettingsFrame s => SettingsFrame (MkSettings (keep (entries s)) (list_to_map (keep (entries s))))
  | _ => f
  end.

Lemma entries_size_eq es : entries_size es = zlen (write_entries es).
Proof.
  induction es as [|e es IH]; [done|]. rewrite write_entries_cons, !zlen_app, <- IH, !zlen_write_varint.
  change (entries_size (e :: es)) with (varint_size e.1 + varint_size e.2 + entries_size es). lia.
Qed.

Lemma encode_payload f :
  encode f = write_varint (frame_type f) ++ write_varint (zlen (payload f)) ++ payload f.
Proof.
  destruct f; cbn [encode frame_type payload]; try done;
    rewrite ?zlen_app, ?zlen_write_varint, ?entries_size_eq; done.
Qed.

Lemma payload_ok max f : frame_ok max f → bytes_ok (payload f).
Proof.
  destruct f; cbn; intros H; try apply write_varint_ok; try apply H.
  - apply write_entries_ok.
  - apply Forall_app. split; [apply write_varint_ok|apply H].
Qed.

Lemma payload_parses max f : frame_ok max f → parse_payload (frame_type f) (payload f) = Ok (ungreased f).
Proof.
  intros H. destruct f; cbn in *; try done; try by rewrite take_varint_write.
  - rewrite (proj2 (parse_settings_iff _ (MkSettings (keep (entries settings)) (list_to_map (keep (entries settings)))) (write_entries_ok _))); [done|].
    destruct H as (Ho & Hc & Hnd). by exists (entries settings).
  - rewrite need_varint_write by apply H. done.
Qed.

Lemma checks_pass max f : frame_ok max f →
  check_type (frame_type f) = Ok () ∧ check_length max (frame_type f) (zlen (payload f)) = Ok ()
  ∧ zlen (payload f) ≤ MAX_FRAME_PAYLOAD ∧ is_known_frame_type (frame_type f) = true.
Proof.
  intros H. assert (zlen (payload f) ≤ MAX_FRAME_PAYLOAD) as Hm.
  { unfold MAX_FRAME_PAYLOAD in *. destruct f; cbn [payload frame_ok] in *;
      rewrite ?zlen_app, ?zlen_write_varint; try exact (proj2 H);
      try exact (proj1 (proj2 H)); try exact (proj1 (proj2 (proj2 H)));
      try (pose proof (varint_size_bound push_id); lia);
      try (pose proof (varint_size_bound stream_id); lia).
    pose proof (write_entries_length (entries settings)) as Hw. destruct H as (_ & H & _).
    unfold MAX_SETTINGS_ENTRIES, zlen in *. lia. }
  split_and!; [by destruct f| |done|by destruct f].
  unfold check_length. rewrite (proj2 (Z.ltb_ge MAX_FRAME_PAYLOAD _)) by done.
  destruct f; cbn -[Z.ltb MAX_SETTINGS_PAYLOAD zlen payload] in *; try done.
  - destruct max; [|done]. by rewrite (proj2 (Z.ltb_ge _ _)) by naive_solver.
  - rewrite (proj2 (Z.ltb_ge _ _)); [done|]. pose proof (write_entries_length (entries settings)) as Hw.
    unfold MAX_SETTINGS_PAYLOAD, MAX_SETTINGS_ENTRIES, payload, zlen in *. lia.
  - unfold payload. rewrite (proj2 (Z.ltb_ge 8 _)); [done|]. rewrite zlen_write_varint. apply varint_size_bound.
  - destruct max; [|done]. rewrite (proj2 (Z.ltb_ge _ _)); [done|].
    unfold payload. rewrite zlen_app, zlen_write_varint. naive_solver.
  - unfold payload. rewrite (proj2 (Z.ltb_ge 8 _)); [done|]. rewrite zlen_write_varint. apply varint_size_bound.
  - unfold payload. rewrite (proj2 (Z.ltb_ge 8 _)); [done|]. rewrite zlen_write_varint. apply varint_size_bound.
Qed.

(** Reading what is laid out as a frame. *)
Lemma read_frame_wire max ty p rest :
  varint_ok ty → check_type ty = Ok () → check_length max ty (zlen p) = Ok () →
  let l := write_varint ty ++ write_varint (zlen p) ++ p in
  read_frame max (l ++ rest)
  = if is_known_frame_type ty then f ← parse_payload ty p; Ok (Some (Some f, zlen l))
    else Ok (Some (None, zlen l)).
Proof.
  intros Hty Hct Hcl l. pose proof (check_length_bound _ _ _ _ Hcl) as Hm.
  assert (varint_ok (zlen p)) as Hp.
  { pose proof (zlen_nonneg p). unfold varint_ok, MAX_VARINT, MAX_FRAME_PAYLOAD in *. lia. }
  unfold read_frame, l. rewrite <- !app_assoc, parse_write_varint by done. cbn [mbind result_bind].
  rewrite Hct. cbn [mbind result_bind]. rewrite zdrop_app, Z.sub_diag by lia.
  change (drop (Z.to_nat 0) ?x) with x. rewrite parse_write_varint by done. cbn [mbind result_bind].
  rewrite Hcl. cbn [mbind result_bind]. rewrite !zlen_app. pose proof (zlen_nonneg rest).
  rewrite (proj2 (Z.ltb_ge _ _)) by lia.
  assert (take (Z.to_nat (zlen p)) (drop (Z.to_nat (zlen (write_varint ty) + zlen (write_varint (zlen p))))
    (write_varint ty ++ write_varint (zlen p) ++ p ++ rest)) = p) as ->.
  { rewrite zdrop_app by (pose proof (zlen_nonneg (write_varint (zlen p))); lia).
    rewrite zdrop_app by lia. rewrite Z.add_simpl_l, Z.sub_diag. change (drop (Z.to_nat 0) ?x) with x.
    unfold zlen. by rewrite Nat2Z.id, take_app_length. }
  rewrite Z.add_assoc. by destruct (is_known_frame_type ty).
Qed.

(** What may stand on the wire: frames, and frames of types that are neither
    known nor HTTP/2's. *)
Inductive wire : Type :=
| Known (f : Frame)
| Foreign (ty : Z) (p : bytes).

Definition write_wire (w : wire) : bytes :=
  match w with
  | Known f => encode f
  | Foreign ty p => write_varint ty ++ write_varint (zlen p) ++ p
  end.

Definition wire_ok (max : option Z) (w : wire) : Prop :=
  match w with
  | Known f => frame_ok max f
  | Foreign ty p =>
      varint_ok ty ∧ check_type ty = Ok () ∧ is_known_frame_type ty = false
      ∧ bytes_ok p ∧ zlen p ≤ MAX_FRAME_PAYLOAD
  end.

Definition surfaced (w : wire) : option Frame := match w with Known f => Some (ungreased f) | Foreign _ _ => None end.

Lemma write_wire_ok max w : wire_ok max w → bytes_ok (write_wire w).
Proof.
  destruct w as [f|ty p]; cbn.
  - intros H. rewrite encode_payload, !Forall_app.
    split; [apply write_varint_ok|]. split; [apply write_varint_ok|by eapply payload_ok].
  - intros (_ & _ & _ & Hp & _). rewrite !Forall_app. auto using write_varint_ok.
Qed.

Lemma frame_type_ok f : varint_ok (frame_type f).
Proof. destruct f; by vm_compute. Qed.

Lemma read_wire max w rest :
  wire_ok max w → read_frame max (write_wire w ++ rest) = Ok (Some (surfaced w, zlen (write_wire w))).
Proof.
  destruct w as [f|ty p]; cbn [wire_ok write_wire surfaced]; intros H.
  - destruct (checks_pass max f H) as (Hct & Hcl & Hm & Hk).
    rewrite encode_payload, read_frame_wire by (done || apply frame_type_ok).
    rewrite Hk, (payload_parses max) by done. done.
  - destruct H as (Hty & Hct & Hk & Hp & Hm). rewrite read_frame_wire; [by rewrite Hk|done..|].
    unfold check_length. rewrite (proj2 (Z.ltb_ge MAX_FRAME_PAYLOAD _)) by done.
    unfold is_known_frame_type in Hk. rewrite !orb_false_iff in Hk. destruct_and!.
    repeat match goal with E : (_ =? _) = false |- _ => rewrite E; clear E end. done.
Qed.

Lemma join_Forall {A} (P : A → Prop) ls : Forall P (mjoin ls) → Forall (Forall P) ls.
Proof.
  induction ls as [|l ls IH]; [done|]. change (mjoin (l :: ls)) with (l ++ mjoin ls).
  intros [Hl Hls]%Forall_app. auto.
Qed.

Lemma omap_surfaced (ws : list wire) : omap id (surfaced <$> ws) = omap surfaced ws.
Proof. induction ws as [|w ws IH]; [done|]. destruct w; cbn; by rewrite <- IH. Qed.

Lemma wires_ok max ws : Forall (wire_ok max) ws → bytes_ok (mjoin (write_wire <$> ws)).
Proof.
  intros Hws. apply Forall_join, Forall_fmap. eapply Forall_impl; [exact Hws|].
  intros w. apply write_wire_ok.
Qed.

(** C6. The chunked decoder refines the flat frame grammar: whatever the
    queue of chunks holds and however further octets are cut into chunks, the
    decoder never panics or runs forever, returns the known frames that
    [read_frame] reads off the concatenation of all the octets, stops at the
    same error, and keeps exactly the octets the grammar leaves over. *)
Theorem receive_refines_flat d chunks :
  decoder_ok d → read_frame (max_field_section d) (flat d) = Ok None → Forall bytes_ok chunks →
  ∃ fs d' e, receive d chunks = Some (fs, d', e)
    ∧ drained d d' (frames (max_field_section d) (flat d ++ mjoin chunks)) fs e.
Proof. apply receive_flat. Qed.

(** C31. Frames round trip through the decoder: send frames within their limits,
    in any order and with frames of unknown types in between, cut the octets
    anywhere, and the decoder returns exactly those frames but for the reserved
    ("grease") settings, which it drops from a SETTINGS frame, skips the frames of
    unknown types, reports no error and keeps nothing back.  The limits ([wire_ok]):
    a payload of less than 16 MiB, of HEADERS and PUSH_PROMISE also up to the
    decoder's bound on field sections; identifiers that fit a varint; at most 32
    settings, no identifier twice and none reserved by HTTP/2; unknown types that
    are not reserved by HTTP/2. *)
Theorem h3_frames_round_trip max ws chunks :
  Forall (wire_ok max) ws → mjoin chunks = mjoin (write_wire <$> ws) →
  ∃ d, receive (with_max_field_section max) chunks = Some (omap surfaced ws, d, None) ∧ flat d = [].
Proof.
  intros Hws Hc. pose proof (wires_ok max ws Hws) as Hb. rewrite <- Hc in Hb.
  destruct (receive_flat (with_max_field_section max) chunks) as (fs & d & e & -> & H);
    [by split|done|by apply join_Forall|].
  change (flat (with_max_field_section max)) with (@nil Z) in H.
  change (max_field_section (with_max_field_section max)) with max in H. rewrite Hc in H.
  pose proof (parse_drain_write (read_frame max) (valid := wire_ok max) (write := write_wire) (item := surfaced) ws []
    (λ w k Hw _, read_wire max w k Hw) (write_wire_ok max) Hws (Forall_nil_2 _) eq_refl) as Hd.
  rewrite app_nil_r in Hd. unfold frames in H. cbn [app] in H. rewrite Hd in H. cbn [known drained] in H.
  destruct H as (-> & -> & H). exists d. rewrite omap_surfaced. split; [done|]. by apply H.
Qed.

(** A waiting decoder is bounded: however much arrives, when no error is
    reported fewer octets stay buffered than the largest frame header and
    payload take. *)
Theorem waiting_bounded d chunks fs d' :
  decoder_ok d → read_frame (max_field_section d) (flat d) = Ok None → Forall bytes_ok chunks →
  receive d chunks = Some (fs, d', None) → buffered d' < 16 + MAX_FRAME_PAYLOAD.
Proof.
  intros Hd Hp Hc H. destruct (receive_flat d chunks Hd Hp Hc) as (gs & d1 & e & E & Hdr).
  rewrite E in H. injection H as -> -> ->. unfold drained, frames in Hdr.
  pose proof (parse_drain_stops (read_frame (max_field_section d)) (flat d ++ mjoin chunks)) as Hst.
  destruct (drain _ _) as [[xs rest] e']. cbn in Hdr. destruct Hdr as (-> & <- & Hdr).
  destruct (Hdr eq_refl) as ((Hw & Hb) & <- & _).
  apply (read_frame_waits (max_field_section d)) in Hb; [unfold buffered; by rewrite Hw|].
  apply (Hst xs); [|done]. apply Forall_app. split; [apply Hd|by apply Forall_join].
Qed.

Lemma receive_refines_flat_witness :
  ∃ fs d' e, receive (extend (with_max_field_section None) [0]) [[2; 7]; [8; 0x40]] = Some (fs, d', e)
    ∧ drained (extend (with_max_field_section None) [0]) d'
        (frames None ([0] ++ mjoin [[2; 7]; [8; 0x40]])) fs e.
Proof.
  apply receive_refines_flat; [split; [reflexivity|solve_bytes]|reflexivity|].
  apply Forall_cons; split; [solve_bytes|]. apply Forall_cons; split; [solve_bytes|constructor].
Defined.

Lemma h3_frames_round_trip_witness :
  ∃ d, receive (with_max_field_section (Some 100)) [[4; 4; 6; 9; 0x21]; [7]; [1; 1; 9; 0x21; 0]; [0; 2; 5]; [6; 7; 1]; [4]]
    = Some ([SettingsFrame (insert no_settings 6 9); Headers [9]; Data [5; 6]; Goaway 4], d, None) ∧ flat d = [].
Proof.
  apply (h3_frames_round_trip (Some 100)
    [Known (SettingsFrame (insert (insert no_settings 6 9) 0x21 7)); Known (Headers [9]); Foreign 0x21 []; Known (Data [5; 6]); Known (Goaway 4)]);
    [|reflexivity].
  apply Forall_cons; split.
  { cbn. split; [repeat (constructor; [by vm_compute|]); constructor|]. split; [by vm_compute|]. apply (bool_decide_unpack _). by vm_compute. }
  repeat (apply Forall_cons; split; [cbn; split_and?; try done; try solve_bytes; try (by vm_compute)|]);
    [|constructor]. by intros m [= <-].
Defined.

Lemma waiting_bounded_witness :
  receive (with_max_field_section None) [[0; 9; 1]; [2]] = Some ([], MkFrameDecoder [[0; 9; 1]; [2]] 4 None, None)
  ∧ buffered (MkFrameDecoder [[0; 9; 1]; [2]] 4 None) < 16 + MAX_FRAME_PAYLOAD.
Proof.
  assert (receive (with_max_field_section None) [[0; 9; 1]; [2]]
    = Some ([], MkFrameDecoder [[0; 9; 1]; [2]] 4 None, None)) as H by reflexivity.
  split; [exact H|]. eapply waiting_bounded; [..|exact H]; [by split|done|].
  apply Forall_cons; split; [solve_bytes|]. apply Forall_cons; split; [solve_bytes|constructor].
Defined.
