(* ===== verification/H3Settings.v ===== *)
(** * HTTP/3 settings (src/src/h3/settings.rs)

    The settings this endpoint advertises, the frame it sends them in and what a
    peer that runs the same code makes of that frame. *)

From S2P Require Import Prelude H3Error Varint Incremental H3Frame.

Definition SETTINGS_QPACK_MAX_TABLE_CAPACITY : Z := 0x1.
Definition SETTINGS_MAX_FIELD_SECTION_SIZE : Z := 0x6.
Definition SETTINGS_QPACK_BLOCKED_STREAMS : Z := 0x7.
Definition SETTINGS_ENABLE_CONNECT_PROTOCOL : Z := 0x8.

Record PeerSettings : Type := MkPeerSettings {
  peer_qpack_max_table_capacity : Z;
  peer_max_field_section_size : option Z;
  peer_qpack_blocked_streams : Z;
  peer_enable_connect_protocol : bool;
}.

#[global] Instance PeerSettings_eq_dec : EqDecision PeerSettings.
Proof. solve_decision. Defined.

(** [PeerSettings::default]. *)
Definition default_peer : PeerSettings := MkPeerSettings 0 None 0 false.

(** One turn of the loop of [PeerSettings::apply]. *)
Definition apply_one (p : PeerSettings) (e : Z * Z) : PeerSettings :=
  let '(id, value) := e in
  let '(MkPeerSettings capacity section blocked connect) := p in
  if id =? SETTINGS_QPACK_MAX_TABLE_CAPACITY then MkPeerSettings value section blocked connect
  else if id =? SETTINGS_MAX_FIELD_SECTION_SIZE then MkPeerSettings capacity (Some value) blocked connect
  else if id =? SETTINGS_QPACK_BLOCKED_STREAMS then MkPeerSettings capacity section value connect
  else if id =? SETTINGS_ENABLE_CONNECT_PROTOCOL
  then MkPeerSettings capacity section blocked (negb (value =? 0))
  else p.

Definition apply (p : PeerSettings) (settings : Settings) : PeerSettings :=
  foldl apply_one p (entries settings).

Record LocalSettings : Type := MkLocalSettings {
  qpack_max_table_capacity : Z;
  qpack_blocked_streams : Z;
  max_field_section_size : option Z;
  enable_connect_protocol : bool;
}.

(** [LocalSettings::default]. *)
Definition default_local : LocalSettings := MkLocalSettings 0 0 (Some 65536) false.

(** [LocalSettings::to_frame]. *)
Definition to_frame (l : LocalSettings) : Settings :=
  let frame := no_settings in
  let frame := insert frame SETTINGS_QPACK_MAX_TABLE_CAPACITY (qpack_max_table_capacity l) in
  let frame := insert frame SETTINGS_QPACK_BLOCKED_STREAMS (qpack_blocked_streams l) in
  let frame := match max_field_section_size l with
               | Some size => insert frame SETTINGS_MAX_FIELD_SECTION_SIZE size
               | None => frame
               end in
  let frame := if enable_connect_protocol l then insert frame SETTINGS_ENABLE_CONNECT_PROTOCOL 1 else frame in
  insert frame 0x21 0.

(** The settings a varint can carry; [to_frame] asserts the first bound. *)
Definition local_ok (l : LocalSettings) : Prop :=
  0 ≤ qpack_max_table_capacity l < 2 ^ 30 ∧ varint_ok (qpack_blocked_streams l)
  ∧ match max_field_section_size l with Some size => varint_ok size | None => True end.

(** What the peer is meant to learn. *)
Definition advertised (l : LocalSettings) : PeerSettings :=
  MkPeerSettings (qpack_max_table_capacity l) (max_field_section_size l) (qpack_blocked_streams l)
    (enable_connect_protocol l).

Lemma to_frame_ok l : local_ok l →
  Forall entry_ok (entries (to_frame l)) ∧ zlen (entries (to_frame l)) ≤ MAX_SETTINGS_ENTRIES
  ∧ NoDup (entries (to_frame l)).*1.
Proof.
  intros (Hc & Hb & Hs). unfold to_frame, entry_ok, varint_ok, MAX_VARINT, MAX_SETTINGS_ENTRIES in *.
  destruct (max_field_section_size l), (enable_connect_protocol l);
    cbn -[Z.le Z.pow]; unfold zlen; cbn [length];
    (split; [repeat (constructor; [cbn [fst snd]; split_and!; done || lia|]); constructor|]);
    (split; [lia|]); apply (bool_decide_unpack _); by vm_compute.
Qed.

Lemma apply_advertised l : apply default_peer (MkSettings (keep (entries (to_frame l))) ∅) = advertised l.
Proof.
  unfold to_frame, advertised. destruct l as [c q [s|] [|]]; reflexivity.
Qed.

Lemma settings_sent max l rest : local_ok l →
  ∃ s, read_frame max (encode (SettingsFrame (to_frame l)) ++ rest)
      = Ok (Some (Some (SettingsFrame s), zlen (encode (SettingsFrame (to_frame l)))))
    ∧ apply default_peer s = advertised l.
Proof.
  intros Hl. destruct (to_frame_ok l Hl) as (He & Hn & Hd).
  set (es := entries (to_frame l)) in *.
  exists (MkSettings (keep es) (list_to_map (keep es))).
  split; [|by rewrite <- apply_advertised].
  rewrite encode_payload. cbn [frame_type payload]. fold es.
  assert (zlen (write_entries es) ≤ 512) as Hw.
  { pose proof (write_entries_length es). unfold MAX_SETTINGS_ENTRIES, zlen in *. lia. }
  rewrite read_frame_wire; [|by vm_compute|done|].
  - change (is_known_frame_type FRAME_SETTINGS) with true. cbn iota.
    change (parse_payload FRAME_SETTINGS ?p) with (s ← parse_settings p; Ok (SettingsFrame s)).
    rewrite (proj2 (parse_settings_iff _ (MkSettings (keep es) (list_to_map (keep es))) (write_entries_ok es)));
      [done|by exists es].
  - unfold check_length. rewrite (proj2 (Z.ltb_ge MAX_FRAME_PAYLOAD _)) by (unfold MAX_FRAME_PAYLOAD; lia).
    by rewrite (proj2 (Z.ltb_ge MAX_SETTINGS_PAYLOAD _)) by (unfold MAX_SETTINGS_PAYLOAD; lia).
Qed.

(** What one endpoint advertises the other learns: the SETTINGS frame
    built from any settings within their ranges is accepted by the frame
    decoder, with octets behind it or not, and applied to the defaults it
    gives exactly the advertised values; the grease parameter leaves no
    trace. *)
Theorem settings_negotiated max l rest : local_ok l →
  ∃ s, read_frame max (encode (SettingsFrame (to_frame l)) ++ rest)
      = Ok (Some (Some (SettingsFrame s), zlen (encode (SettingsFrame (to_frame l)))))
    ∧ apply default_peer s = advertised l.
Proof. apply settings_sent. Qed.

Lemma settings_negotiated_witness :
  ∃ s, read_frame None (encode (SettingsFrame (to_frame (MkLocalSettings 4096 16 (Some 65536) true))) ++ [7])
      = Ok (Some (Some (SettingsFrame s), zlen (encode (SettingsFrame (to_frame (MkLocalSettings 4096 16 (Some 65536) true))))))
    ∧ apply default_peer s = advertised (MkLocalSettings 4096 16 (Some 65536) true).
Proof. apply settings_negotiated. by vm_compute. Defined.
