(* ===== verification/QpackTable.v ===== *)
(** * QPACK tables (src/src/h3/qpack/static_table.rs and table.rs)

    The static table, and the dynamic table with its FIFO of entries, absolute
    indices, lookup maps and eviction.  The dynamic table is a window on the
    history of everything ever inserted: an absolute index is a position in
    that history, which makes references stable while entries come and go. *)

From S2P Require Import Prelude.

Abbreviation field := (bytes * bytes)%type (only parsing).

Definition STATIC_TABLE : list field := [
  (b ":authority", b "");
  (b ":path", b "/");
  (b "age", b "0");
  (b "content-disposition", b "");
  (b "content-length", b "0");
  (b "cookie", b "");
  (b "date", b "");
  (b "etag", b "");
  (b "if-modified-since", b "");
  (b "if-none-match", b "");
  (b "last-modified", b "");
  (b "link", b "");
  (b "location", b "");
  (b "referer", b "");
  (b "set-cookie", b "");
  (b ":method", b "CONNECT");
  (b ":method", b "DELETE");
  (b ":method", b "GET");
  (b ":method", b "HEAD");
  (b ":method", b "OPTIONS");
  (b ":method", b "POST");
  (b ":method", b "PUT");
  (b ":scheme", b "http");
  (b ":scheme", b "https");
  (b ":status", b "103");
  (b ":status", b "200");
  (b ":status", b "304");
  (b ":status", b "404");
  (b ":status", b "503");
  (b "accept", b "*/*");
  (b "accept", b "application/dns-message");
  (b "accept-encoding", b "gzip, deflate, br");
  (b "accept-ranges", b "bytes");
  (b "access-control-allow-headers", b "cache-control");
  (b "access-control-allow-headers", b "content-type");
  (b "access-control-allow-origin", b "*");
  (b "cache-control", b "max-age=0");
  (b "cache-control", b "max-age=2592000");
  (b "cache-control", b "max-age=604800");
  (b "cache-control", b "no-cache");
  (b "cache-control", b "no-store");
  (b "cache-control", b "public, max-age=31536000");
  (b "content-encoding", b "br");
  (b "content-encoding", b "gzip");
  (b "content-type", b "application/dns-message");
  (b "content-type", b "application/javascript");
  (b "content-type", b "application/json");
  (b "content-type", b "application/x-www-form-urlencoded");
  (b "content-type", b "image/gif");
  (b "content-type", b "image/jpeg");
  (b "content-type", b "image/png");
  (b "content-type", b "text/css");
  (b "content-type", b "text/html; charset=utf-8");
  (b "content-type", b "text/plain");
  (b "content-type", b "text/plain;charset=utf-8");
  (b "range", b "bytes=0-");
  (b "strict-transport-security", b "max-age=31536000");
  (b "strict-transport-security", b "max-age=31536000; includesubdomains");
  (b "strict-transport-security", b "max-age=31536000; includesubdomains; preload");
  (b "vary", b "accept-encoding");
  (b "vary", b "origin");
  (b "x-content-type-options", b "nosniff");
  (b "x-xss-protection", b "1; mode=block");
  (b ":status", b "100");
  (b ":status", b "204");
  (b ":status", b "206");
  (b ":status", b "302");
  (b ":status", b "400");
  (b ":status", b "403");
  (b ":status", b "421");
  (b ":status", b "425");
  (b ":status", b "500");
  (b "accept-language", b "");
  (b "access-control-allow-credentials", b "FALSE");
  (b "access-control-allow-credentials", b "TRUE");
  (b "access-control-allow-headers", b "*");
  (b "access-control-allow-methods", b "get");
  (b "access-control-allow-methods", b "get, post, options");
  (b "access-control-allow-methods", b "options");
  (b "access-control-expose-headers", b "content-length");
  (b "access-control-request-headers", b "content-type");
  (b "access-control-request-method", b "get");
  (b "access-control-request-method", b "post");
  (b "alt-svc", b "clear");
  (b "authorization", b "");
  (b "content-security-policy", b "script-src 'none'; object-src 'none'; base-uri 'none'");
  (b "early-data", b "1");
  (b "expect-ct", b "");
  (b "forwarded", b "");
  (b "if-range", b "");
  (b "origin", b "");
  (b "purpose", b "prefetch");
  (b "server", b "");
  (b "timing-allow-origin", b "*");
  (b "upgrade-insecure-requests", b "1");
  (b "user-agent", b "");
  (b "x-forwarded-for", b "");
  (b "x-frame-options", b "deny");
  (b "x-frame-options", b "sameorigin")].

(** [static_table::get]. *)
Definition static_get (index : Z) : option field := zget STATIC_TABLE index.

Definition is_field (n v : bytes) (e : field) : bool := bool_decide (e.1 = n) && bool_decide (e.2 = v).
Definition is_named (n : bytes) (e : field) : bool := bool_decide (e.1 = n).

(** The one-pass loops of [find_full_or_name] ([static_table::] and
    [DynamicTable::]): the first exact match and the first name match before
    it; [name_match.get_or_insert(i)] keeps the first. *)
Fixpoint find_loop (n v : bytes) (l : list field) (i : Z) (name_match : option Z) : option Z * option Z :=
  match l with
  | [] => (None, name_match)
  | e :: l =>
      if negb (is_named n e) then find_loop n v l (i + 1) name_match
      else
        let name_match := Some (default i name_match) in
        if bool_decide (e.2 = v) then (Some i, name_match) else find_loop n v l (i + 1) name_match
  end.

(** [static_table::find_full_or_name] and [static_table::find_name]. *)
Definition static_find_full_or_name (n v : bytes) : option Z * option Z := find_loop n v STATIC_TABLE 0 None.
Definition static_find_name (n : bytes) : option Z := scan (is_named n) STATIC_TABLE 0.

(** ** The dynamic table *)

Definition HYBRID_THRESHOLD : Z := 64.

(** [entries] is newest first. *)
Record DynamicTable : Type := MkDynamicTable {
  entries : list field;
  capacity : Z;
  size : Z;
  inserted : Z;
  exact : gmap (bytes * bytes) Z;
  name_map : gmap bytes Z;
  maintain_maps : bool;
}.

(** [DynamicTable::new] and [DynamicTable::without_maps]. *)
Definition new_table (capacity : Z) : DynamicTable := MkDynamicTable [] capacity 0 0 ∅ ∅ true.
Definition without_maps (capacity : Z) : DynamicTable := MkDynamicTable [] capacity 0 0 ∅ ∅ false.

(** [DynamicTable::len], [last_absolute] and [next_absolute]. *)
Definition len (t : DynamicTable) : Z := zlen (entries t).
Definition last_absolute (t : DynamicTable) : Z := Z.max 0 (inserted t - 1).
Definition next_absolute (t : DynamicTable) : Z := inserted t.

Definition entry_size (n v : bytes) : Z := zlen n + zlen v + 32.

(** The eviction of one entry from the maps, [abs] being its index. *)
Definition evict_maps (t : DynamicTable) (e : field) (abs : Z) : DynamicTable :=
  if negb (maintain_maps t) then t
  else
    let names := if bool_decide (name_map t !! e.1 = Some abs) then delete e.1 (name_map t) else name_map t in
    let exacts := if bool_decide (exact t !! e = Some abs) then delete e (exact t) else exact t in
    MkDynamicTable (entries t) (capacity t) (size t) (inserted t) exacts names (maintain_maps t).

(** The loop of [evict_to_fit]; each turn pops an entry or ends it. *)
Fixpoint evict_loop (fuel : nat) (max_size : Z) (t : DynamicTable) : DynamicTable :=
  match fuel with
  | O => t
  | S fuel =>
      if max_size <? size t
      then match pop_back (entries t) with
           | None => t
           | Some (e, rest) =>
               let t := MkDynamicTable rest (capacity t) (size t - entry_size e.1 e.2) (inserted t) (exact t)
                          (name_map t) (maintain_maps t) in
               evict_loop fuel max_size (evict_maps t e (inserted t - zlen rest - 1))
           end
      else t
  end.
Definition evict_to_fit (t : DynamicTable) (max_size : Z) : DynamicTable :=
  evict_loop (S (length (entries t))) max_size t.

Definition set_capacity (t : DynamicTable) (c : Z) : DynamicTable :=
  evict_to_fit (MkDynamicTable (entries t) c (size t) (inserted t) (exact t) (name_map t) (maintain_maps t)) c.

(** The loop of [would_evict] over the entries oldest first. *)
Fixpoint would_evict_loop (oldest : list field) (need_freed freed evicted : Z) : Z :=
  match oldest with
  | [] => evicted
  | e :: oldest =>
      let freed := freed + entry_size e.1 e.2 in
      let evicted := evicted + 1 in
      if need_freed <=? freed then evicted else would_evict_loop oldest need_freed freed evicted
  end.
Definition would_evict (t : DynamicTable) (sz : Z) : Z :=
  let need_freed := Z.max 0 (sz - (capacity t - size t)) in
  if need_freed =? 0 then 0 else would_evict_loop (rev (entries t)) need_freed 0 0.

(** The loop of [evict_for_capacity] over the entries newest first. *)
Fixpoint survivors_loop (l : list field) (target size survivors : Z) : Z :=
  match l with
  | [] => survivors
  | e :: l =>
      let entry_size := entry_size e.1 e.2 in
      if target <? size + entry_size then survivors
      else survivors_loop l target (size + entry_size) (survivors + 1)
  end.
Definition evict_for_capacity (t : DynamicTable) (target : Z) : Z :=
  len t - survivors_loop (entries t) target 0 0.

(** [self.inserted - 1 - i]. *)
Definition absolute (t : DynamicTable) (i : Z) : Z := inserted t - 1 - i.

Definition find_full_or_name (t : DynamicTable) (n v : bytes) : option Z * option Z :=
  if maintain_maps t && (HYBRID_THRESHOLD <? len t)
  then (exact t !! (n, v), name_map t !! n)
  else let '(full, name) := find_loop n v (entries t) 0 None in (absolute t <$> full, absolute t <$> name).

Definition find_name (t : DynamicTable) (n : bytes) : option Z :=
  if maintain_maps t && (HYBRID_THRESHOLD <? len t)
  then name_map t !! n
  else absolute t <$> scan (is_named n) (entries t) 0.

(** [DynamicTable::insert]; [None] is [InsertError::EntryTooLarge]. *)
Definition insert (t : DynamicTable) (n v : bytes) : option DynamicTable :=
  let entry_size := entry_size n v in
  if capacity t <? entry_size then None
  else
    let t := evict_to_fit t (capacity t - entry_size) in
    let abs := next_absolute t in
    Some (MkDynamicTable ((n, v) :: entries t) (capacity t) (size t + entry_size) (inserted t + 1)
            (if maintain_maps t then <[(n, v) := abs]> (exact t) else exact t)
            (if maintain_maps t then <[n := abs]> (name_map t) else name_map t)
            (maintain_maps t)).

(** [entry_bytes_at] and the index translations. *)
Definition entry_at (t : DynamicTable) (i : Z) : option field := zget (entries t) i.
Definition get_absolute (t : DynamicTable) (abs : Z) : option field :=
  let last := last_absolute t in
  if last <? abs then None else entry_at t (last - abs).
Definition get_relative (t : DynamicTable) (index : Z) : option field := entry_at t index.
Definition get_base_relative (t : DynamicTable) (base index : Z) : option field :=
  if base <=? index then None else get_absolute t (base - 1 - index).
Definition get_post_base (t : DynamicTable) (base index : Z) : option field :=
  abs ← checked_add64 base index; get_absolute t abs.

(** Two entries of 34 octets in a table of 70, then a third. *)
Example eviction_keeps_indices :
  (t ← insert (new_table 70) (b "a") (b "1");
   t ← insert t (b "b") (b "2");
   t ← insert t (b "a") (b "3");
   Some (get_absolute t 0, get_absolute t 1, find_full_or_name t (b "a") (b "1"), would_evict t 40))
  = Some (None, Some (b "b", b "2"), (None, Some 2), 2).
Proof. vm_compute. reflexivity. Qed.

#[global] Arguments evict_to_fit : simpl never.
#[global] Arguments would_evict : simpl never.
#[global] Arguments evict_for_capacity : simpl never.
#[global] Arguments find_full_or_name : simpl never.
#[global] Arguments find_name : simpl never.
#[global] Arguments set_capacity : simpl never.
#[global] Arguments insert : simpl never.

(** ** Lookups *)

Lemma is_field_iff n v e : is_field n v e = true ↔ e = (n, v).
Proof.
  unfold is_field. rewrite andb_true_iff, !bool_decide_eq_true. destruct e. cbn. naive_solver.
Qed.

Lemma is_named_iff n e : is_named n e = true ↔ e.1 = n.
Proof. unfold is_named. by rewrite bool_decide_eq_true. Qed.

Lemma find_loop_scan n v l i nm :
  find_loop n v l i nm
  = (scan (is_field n v) l i, match nm with Some x => Some x | None => scan (is_named n) l i end).
Proof.
  revert i nm. induction l as [|e l IH]; intros i nm; cbn [find_loop scan]; [by destruct nm|].
  unfold is_field at 1. fold (is_named n e). destruct (is_named n e); cbn [negb andb].
  - case_bool_decide; [by destruct nm|]. rewrite IH. by destruct nm.
  - by rewrite IH.
Qed.

(** What the lookups find is there. *)
Lemma static_find_get n v i : (static_find_full_or_name n v).1 = Some i →
  0 ≤ i < 99 ∧ static_get i = Some (n, v).
Proof.
  unfold static_find_full_or_name. rewrite find_loop_scan. cbn [fst]. intros H.
  pose proof (scan_ge _ _ _ _ H) as Hi. change (zlen STATIC_TABLE) with 99 in Hi.
  apply scan_get in H as (e & He & Hf). apply is_field_iff in Hf as ->. rewrite Z.sub_0_r in He.
  split; [lia|done].
Qed.

Lemma static_name_get n i : scan (is_named n) STATIC_TABLE 0 = Some i →
  0 ≤ i < 99 ∧ ∃ v, static_get i = Some (n, v).
Proof.
  intros H. pose proof (scan_ge _ _ _ _ H) as Hi. change (zlen STATIC_TABLE) with 99 in Hi.
  apply scan_get in H as ([n' v] & He & Hf). apply is_named_iff in Hf as <-. rewrite Z.sub_0_r in He.
  split; [lia|]. by exists v.
Qed.

Lemma static_find_name_get n v i : (static_find_full_or_name n v).2 = Some i →
  0 ≤ i < 99 ∧ ∃ v, static_get i = Some (n, v).
Proof.
  unfold static_find_full_or_name. rewrite find_loop_scan. apply static_name_get.
Qed.

(** ** The window on the history *)

Definition esize (e : field) : Z := entry_size e.1 e.2.

Fixpoint sizes (l : list field) : Z := match l with [] => 0 | e :: l => esize e + sizes l end.

(** The newest entries that fit the budget. *)
Fixpoint fit (budget : Z) (l : list field) : list field :=
  match l with
  | [] => []
  | e :: l => if esize e <=? budget then e :: fit (budget - esize e) l else []
  end.

(** Sizes, and maps that answer as the scan does. *)
Record table_pre (t : DynamicTable) : Prop := MkTablePre {
  pre_size : size t = sizes (entries t);
  pre_len : len t ≤ inserted t;
  pre_exact : maintain_maps t = true →
    ∀ n v, exact t !! (n, v) = absolute t <$> scan (is_field n v) (entries t) 0;
  pre_name : maintain_maps t = true →
    ∀ n, name_map t !! n = absolute t <$> scan (is_named n) (entries t) 0;
}.

Definition table_ok (t : DynamicTable) : Prop := table_pre t ∧ size t ≤ capacity t.

(** The entries are the newest part of the history [h], oldest first. *)
Definition window (t : DynamicTable) (h : list field) : Prop :=
  inserted t = zlen h ∧ entries t `prefix_of` rev h.

(** How many entries of the history are gone. *)
Definition dropped (t : DynamicTable) : Z := inserted t - len t.

Lemma esize_pos e : 32 ≤ esize e.
Proof. unfold esize, entry_size. pose proof (zlen_nonneg e.1). pose proof (zlen_nonneg e.2). lia. Qed.

Lemma esizes_nonneg l : 0 ≤ sizes l.
Proof. induction l as [|e l IH]; cbn; [lia|]. pose proof (esize_pos e). lia. Qed.

Lemma esizes_app l k : sizes (l ++ k) = sizes l + sizes k.
Proof. induction l as [|h l IH]; cbn; lia. Qed.

Lemma newest_all budget l : sizes l ≤ budget → fit budget l = l.
Proof.
  revert budget. induction l as [|h l IH]; intros budget Hb; [done|].
  cbn in *. pose proof (esizes_nonneg l). replace (esize h <=? budget) with true by lia.
  rewrite IH; [done|lia].
Qed.

Lemma newest_snoc budget l e : budget < sizes (l ++ [e]) → fit budget (l ++ [e]) = fit budget l.
Proof.
  revert budget. induction l as [|h l IH]; intros budget Hb; cbn in *.
  - replace (esize e <=? budget) with false by lia. done.
  - destruct (Z.leb_spec (esize h) budget); [|done]. rewrite IH; [done|lia].
Qed.

Lemma newest_sizes budget l : 0 ≤ budget → sizes (fit budget l) ≤ budget.
Proof.
  revert budget. induction l as [|h l IH]; intros budget Hb; cbn; [lia|].
  destruct (Z.leb_spec (esize h) budget); cbn; [|lia]. specialize (IH (budget - esize h)). lia.
Qed.

Lemma newest_prefix budget l : fit budget l `prefix_of` l.
Proof.
  revert budget. induction l as [|h l IH]; intros budget; cbn; [done|].
  case_match; [by apply prefix_cons|apply prefix_nil].
Qed.

Lemma fit_mono b1 b2 l : b1 ≤ b2 → zlen (fit b1 l) ≤ zlen (fit b2 l).
Proof.
  revert b1 b2. induction l as [|h l IH]; intros b1 b2 Hb; cbn; [done|].
  destruct (Z.leb_spec (esize h) b1), (Z.leb_spec (esize h) b2); rewrite ?zlen_cons, ?zlen_nil; try lia.
  - specialize (IH (b1 - esize h) (b2 - esize h)). lia.
  - pose proof (zlen_nonneg (fit (b2 - esize h) l)). lia.
Qed.

(** *** Eviction *)

Lemma evict_maps_fields t e abs :
  entries (evict_maps t e abs) = entries t ∧ size (evict_maps t e abs) = size t
  ∧ capacity (evict_maps t e abs) = capacity t ∧ inserted (evict_maps t e abs) = inserted t
  ∧ maintain_maps (evict_maps t e abs) = maintain_maps t.
Proof. unfold evict_maps. destruct (maintain_maps t) eqn:E; cbn; rewrite ?E; done. Qed.

(** The map entry that eviction removes is the one the scan loses. *)
Lemma scan_evict_abs {A} (q : bool) (p : A → bool) l e ins (cur : option Z) :
  cur = (λ i, ins - 1 - i) <$> scan p (l ++ [e]) 0 → (q = true ↔ p e = true) →
  (if q && bool_decide (cur = Some (ins - zlen l - 1)) then None else cur)
  = (λ i, ins - 1 - i) <$> scan p l 0.
Proof.
  intros -> Hq. rewrite scan_app. cbn [scan]. destruct (scan p l 0) as [j|] eqn:E.
  - apply scan_ge in E. cbn. rewrite bool_decide_eq_false_2, andb_false_r; [done|]. intros [= ?]. lia.
  - destruct (p e); [|by destruct q].
    destruct q; [|naive_solver]. cbn. rewrite bool_decide_eq_true_2; [done|]. f_equal. lia.
Qed.

Lemma evict_oldest_pre t l e :
  table_pre t → entries t = l ++ [e] →
  table_pre (evict_maps (MkDynamicTable l (capacity t) (size t - entry_size e.1 e.2) (inserted t) (exact t)
    (name_map t) (maintain_maps t)) e (inserted t - zlen l - 1)).
Proof.
  intros [Hs Hlen He Hn] Hl. unfold len, absolute in *. rewrite Hl in *.
  rewrite esizes_app in Hs. cbn in Hs. unfold esize in Hs. rewrite zlen_app in Hlen.
  change (zlen [e]) with 1 in Hlen. unfold evict_maps. cbn.
  destruct (maintain_maps t) eqn:Hm; cbn; split; unfold len, absolute; cbn; try done; try lia.
  - intros _ n v. rewrite <- (scan_evict_abs (bool_decide (e = (n, v))) _ l e _ _ (He eq_refl n v)).
    2:{ by rewrite bool_decide_eq_true, is_field_iff. }
    destruct (decide (e = (n, v))) as [->|Hne].
    + rewrite (bool_decide_eq_true_2 ((n, v) = (n, v))) by done. cbn [andb].
      case_bool_decide; [by rewrite lookup_delete_eq|done].
    + rewrite (bool_decide_eq_false_2 _ Hne). cbn [andb].
      case_bool_decide; [by rewrite lookup_delete_ne|done].
  - intros _ n. rewrite <- (scan_evict_abs (bool_decide (e.1 = n)) _ l e _ _ (Hn eq_refl n)).
    2:{ by rewrite bool_decide_eq_true, is_named_iff. }
    destruct (decide (e.1 = n)) as [<-|Hne].
    + rewrite (bool_decide_eq_true_2 (e.1 = e.1)) by done. cbn [andb].
      case_bool_decide; [by rewrite lookup_delete_eq|done].
    + rewrite (bool_decide_eq_false_2 _ Hne). cbn [andb].
      case_bool_decide; [by rewrite lookup_delete_ne|done].
Qed.

(** What eviction to [max_size] leaves. *)
Record evicted_to (t t' : DynamicTable) (max_size : Z) : Prop := MkEvictedTo {
  ev_pre : table_pre t';
  ev_entries : entries t' = fit max_size (entries t);
  ev_capacity : capacity t' = capacity t;
  ev_inserted : inserted t' = inserted t;
  ev_maps : maintain_maps t' = maintain_maps t;
}.

Lemma evict_turns_spec fuel : ∀ max t,
  table_pre t → (length (entries t) < fuel)%nat → evicted_to t (evict_loop fuel max t) max.
Proof.
  induction fuel as [|fuel IH]; intros max t Ht Hf; [lia|]. cbn [evict_loop].
  pose proof (pre_size t Ht) as Hs.
  destruct (Z.ltb_spec max (size t)) as [Hlt|Hge].
  - destruct (entries t) as [|e l _] eqn:El using rev_ind; [split; by rewrite ?El|].
    rewrite pop_back_snoc. cbv zeta.
    set (t1 := MkDynamicTable l (capacity t) (size t - entry_size e.1 e.2) (inserted t) (exact t) (name_map t) (maintain_maps t)).
    pose proof (evict_oldest_pre t l e Ht El) as Hpre. change (inserted t1) with (inserted t). fold t1 in Hpre.
    destruct (evict_maps_fields t1 e (inserted t - zlen l - 1)) as (E1 & E2 & E3 & E4 & E5).
    rewrite length_app in Hf. cbn in Hf.
    destruct (IH max _ Hpre ltac:(rewrite E1; cbn; lia)) as [H1 H2 H3 H4 H5].
    rewrite E1 in H2. rewrite E3 in H3. rewrite E4 in H4. rewrite E5 in H5. cbn in H2, H3, H4, H5.
    split; try done. rewrite El, H2. symmetry. apply newest_snoc. lia.
  - split; try done. symmetry. apply newest_all. lia.
Qed.

Lemma evict_to_fit_spec t max : table_pre t → evicted_to t (evict_to_fit t max) max.
Proof. intros Ht. apply evict_turns_spec; [done|lia]. Qed.

Lemma set_capacity_spec t c : table_pre t → 0 ≤ c →
  let t' := set_capacity t c in
  table_ok t' ∧ entries t' = fit c (entries t) ∧ capacity t' = c ∧ inserted t' = inserted t
  ∧ maintain_maps t' = maintain_maps t.
Proof.
  intros Ht Hc t'. unfold t', set_capacity.
  destruct (evict_to_fit_spec (MkDynamicTable (entries t) c (size t) (inserted t) (exact t) (name_map t) (maintain_maps t)) c)
    as [H1 H2 H3 H4 H5]; [by destruct Ht|]. cbn in H2, H3, H4, H5.
  split; [|done]. split; [done|]. rewrite (pre_size _ H1), H2, H3. by apply newest_sizes.
Qed.

Lemma insert_spec t n v : table_ok t → esize (n, v) ≤ capacity t →
  ∃ t', insert t n v = Some t' ∧ table_ok t' ∧ entries t' = fit (capacity t) ((n, v) :: entries t)
    ∧ capacity t' = capacity t ∧ inserted t' = inserted t + 1 ∧ maintain_maps t' = maintain_maps t.
Proof.
  intros [Ht Hb] Hf. unfold insert. change (entry_size n v) with (esize (n, v)).
  rewrite (proj2 (Z.ltb_ge _ _)) by done. eexists. split; [done|].
  destruct (evict_to_fit_spec t (capacity t - esize (n, v)) Ht) as [[Q1 Q2 Q3 Q4] H2 H3 H4 H5].
  set (t1 := evict_to_fit _ _) in *. clearbody t1. cbn [entries capacity inserted maintain_maps fit].
  rewrite (proj2 (Z.leb_le _ _)) by done. rewrite H2 in *.
  pose proof (newest_sizes (capacity t - esize (n, v)) (entries t) ltac:(lia)) as Hfit.
  split; [|split_and!; congruence]. unfold len, next_absolute in *. rewrite H2 in Q2. split.
  - split; cbn; unfold len; cbn; rewrite ?zlen_cons; [lia|lia| |].
    + intros Hm n' v'. rewrite Hm. cbn [scan]. destruct (is_field n' v' (n, v)) eqn:E.
      * apply is_field_iff in E as [= <- <-]. rewrite lookup_insert_eq. unfold absolute; cbn. f_equal. lia.
      * rewrite lookup_insert_ne by (intros [= <- <-]; by rewrite (proj2 (is_field_iff _ _ _)) in E).
        rewrite (Q3 Hm), (scan_shift _ _ 0 1). rewrite <- option_fmap_compose.
        unfold absolute; cbn. apply option_fmap_ext. intros i. cbn. lia.
    + intros Hm n'. rewrite Hm. cbn [scan]. destruct (is_named n' (n, v)) eqn:E.
      * apply is_named_iff in E as <-. rewrite lookup_insert_eq. unfold absolute; cbn. f_equal. lia.
      * rewrite lookup_insert_ne by (intros <-; by rewrite (proj2 (is_named_iff _ _)) in E).
        rewrite (Q4 Hm), (scan_shift _ _ 0 1). rewrite <- option_fmap_compose.
        unfold absolute; cbn. apply option_fmap_ext. intros i. cbn. lia.
  - cbn. rewrite Q1, H3. lia.
Qed.

(** *** Counting evictions *)

Lemma would_evict_loop_spec l : ∀ need freed ev, freed < need →
  would_evict_loop (rev l) need freed ev = ev + (zlen l - zlen (fit (sizes l - (need - freed)) l)).
Proof.
  induction l as [|e l IH] using rev_ind; intros need freed ev Hn.
  { cbn. change (zlen (@nil field)) with 0. lia. }
  rewrite rev_app_distr. cbn [rev app would_evict_loop]. change (entry_size e.1 e.2) with (esize e).
  rewrite esizes_app, zlen_app. cbn [sizes]. change (zlen [e]) with 1.
  rewrite newest_snoc by (rewrite esizes_app; cbn [sizes]; lia).
  destruct (Z.leb_spec need (freed + esize e)).
  - rewrite newest_all by lia. lia.
  - rewrite IH by lia. replace (sizes l - (need - (freed + esize e))) with (sizes l + (esize e + 0) - (need - freed)) by lia.
    lia.
Qed.

Lemma would_evict_spec t sz : table_ok t →
  would_evict t sz = len t - zlen (fit (capacity t - sz) (entries t)).
Proof.
  intros [Ht Hb]. unfold would_evict, len. pose proof (pre_size t Ht) as Hs.
  destruct (Z.eqb_spec (Z.max 0 (sz - (capacity t - size t))) 0).
  - rewrite newest_all by lia. lia.
  - rewrite would_evict_loop_spec by lia. rewrite Z.add_0_l. do 3 f_equal. lia.
Qed.

Lemma survivors_spec l : ∀ target sz n, survivors_loop l target sz n = n + zlen (fit (target - sz) l).
Proof.
  induction l as [|e l IH]; intros target sz n; cbn [survivors_loop fit]; [change (zlen (@nil field)) with 0; lia|].
  change (entry_size e.1 e.2) with (esize e).
  destruct (Z.ltb_spec target (sz + esize e)).
  - rewrite (proj2 (Z.leb_gt (esize e) (target - sz))) by lia. change (zlen (@nil field)) with 0. lia.
  - rewrite (proj2 (Z.leb_le (esize e) (target - sz))) by lia. rewrite IH, zlen_cons.
    replace (target - sz - esize e) with (target - (sz + esize e)) by lia. lia.
Qed.

Lemma evict_for_capacity_spec t c : evict_for_capacity t c = len t - zlen (fit c (entries t)).
Proof. unfold evict_for_capacity. rewrite survivors_spec, Z.sub_0_r. lia. Qed.

(** *** References *)

Lemma zlen_rev {A} (l : list A) : zlen (rev l) = zlen l.
Proof. unfold zlen. by rewrite length_rev. Qed.

Lemma rev_lookup {A} (l : list A) i : (i < length l)%nat → rev l !! i = l !! (length l - S i)%nat.
Proof. intros H. rewrite rev_alt. by apply reverse_lookup. Qed.

Lemma zlen_prefix {A} (l k : list A) : l `prefix_of` k → zlen l ≤ zlen k.
Proof. intros H%prefix_length. unfold zlen. lia. Qed.

Lemma window_len t h : window t h → 0 ≤ dropped t ∧ len t = inserted t - dropped t ∧ inserted t = zlen h.
Proof.
  intros [Hi Hp]. apply zlen_prefix in Hp. rewrite zlen_rev in Hp. unfold dropped, len. lia.
Qed.

(** An absolute index is a position in the history, as long as it is kept. *)
Lemma get_absolute_window t h abs : window t h → 0 ≤ abs →
  get_absolute t abs = if (dropped t <=? abs) && (abs <? inserted t) then zget h abs else None.
Proof.
  intros Hw Ha. pose proof (window_len t h Hw) as (Hd & Hl & Hi). destruct Hw as [_ [k Hk]].
  unfold get_absolute, last_absolute, entry_at.
  destruct (Z.ltb_spec (Z.max 0 (inserted t - 1)) abs) as [H1|H1].
  { by rewrite (proj2 (Z.ltb_ge abs (inserted t))), andb_false_r by lia. }
  destruct (Z.leb_spec (dropped t) abs) as [H2|H2]; cbn [andb].
  - destruct (Z.ltb_spec abs (inserted t)) as [H3|H3].
    + rewrite Z.max_r by lia.
      assert (zlen h = zlen (entries t) + zlen k) as Hz by (rewrite <- zlen_app, <- Hk; symmetry; apply zlen_rev).
      assert (h = rev k ++ rev (entries t)) as -> by (rewrite <- rev_app_distr, <- Hk; by rewrite rev_involutive).
      unfold zget. rewrite zlen_app, !zlen_rev. unfold len in Hl.
      replace (0 <=? inserted t - 1 - abs) with true by lia.
      replace (inserted t - 1 - abs <? zlen (entries t)) with true by lia.
      replace (0 <=? abs) with true by lia. replace (abs <? zlen k + zlen (entries t)) with true by lia.
      cbn [andb]. unfold zlen in *. rewrite lookup_app_r by (rewrite length_rev; lia). rewrite length_rev.
      rewrite rev_lookup by lia. f_equal. lia.
    + assert (abs = 0 ∧ inserted t = 0) as [-> H0] by zlia. unfold zget.
      replace (zlen (entries t)) with 0 by (unfold len in Hl; lia).
      by rewrite (proj2 (Z.ltb_ge _ 0)), andb_false_r by lia.
  - unfold zget. rewrite (proj2 (Z.ltb_ge _ (zlen (entries t)))), andb_false_r; [done|].
    unfold len in Hl. lia.
Qed.

(** *** The history grows, the window moves *)

Lemma prefix_fit c l k : l `prefix_of` k → fit c l `prefix_of` k.
Proof. intros H. etransitivity; [apply newest_prefix|done]. Qed.

Lemma window_set_capacity t c h : table_pre t → 0 ≤ c → window t h →
  window (set_capacity t c) h ∧ dropped (set_capacity t c) = dropped t + evict_for_capacity t c.
Proof.
  intros Ht Hc [Hi Hp]. destruct (set_capacity_spec t c Ht Hc) as (_ & He & _ & Hi' & _).
  unfold dropped, len, window. rewrite evict_for_capacity_spec, He, Hi'. unfold len.
  split; [split; [done|by apply prefix_fit]|lia].
Qed.

Lemma window_insert t n v h : table_ok t → window t h → esize (n, v) ≤ capacity t →
  ∃ t', insert t n v = Some t' ∧ table_ok t' ∧ window t' (h ++ [(n, v)])
    ∧ entries t' = (n, v) :: fit (capacity t - esize (n, v)) (entries t)
    ∧ dropped t' = dropped t + would_evict t (esize (n, v))
    ∧ capacity t' = capacity t ∧ inserted t' = inserted t + 1 ∧ maintain_maps t' = maintain_maps t.
Proof.
  intros Ht [Hi Hp] Hf. destruct (insert_spec t n v Ht Hf) as (t' & E & Hok & He & Hc & Hi' & Hm).
  exists t'. cbn [fit] in He. rewrite (proj2 (Z.leb_le _ _)) in He by done.
  split; [done|]. split; [done|]. rewrite would_evict_spec by done. unfold window, dropped, len in *.
  rewrite He, Hi', rev_app_distr, zlen_app, !zlen_cons. cbn [rev app]. change (zlen (@nil field)) with 0.
  split; [split; [lia|by apply prefix_cons, prefix_fit]|]. split; [done|]. split; [lia|done].
Qed.

Lemma window_empty c : 0 ≤ c → table_ok (new_table c) ∧ table_ok (without_maps c)
  ∧ window (new_table c) [] ∧ window (without_maps c) [].
Proof.
  intros Hc. assert (∀ b, table_ok (MkDynamicTable [] c 0 0 ∅ ∅ b)) as Ht.
  { intros b. split; [|done]. split; cbn; unfold len; cbn; try done. }
  split_and!; try apply Ht; by split.
Qed.

(** There is never more than [capacity / 32] entries. *)
Lemma len_bound t : table_ok t → 32 * len t ≤ capacity t.
Proof.
  intros [Ht Hb]. pose proof (pre_size t Ht) as Hs. unfold len. rewrite Hs in Hb.
  etransitivity; [|exact Hb]. clear. induction (entries t) as [|e l IH]; cbn; [done|].
  rewrite zlen_cons. pose proof (esize_pos e). lia.
Qed.

(** *** What the lookups find *)

(** The entry at [abs] is kept and satisfies [P]. *)
Definition refers (t : DynamicTable) (h : list field) (abs : Z) (P : field → Prop) : Prop :=
  dropped t ≤ abs < inserted t ∧ ∃ e, zget h abs = Some e ∧ P e.

Lemma scan_refers t h (p : field → bool) i : window t h → scan p (entries t) 0 = Some i →
  refers t h (absolute t i) (λ e, p e = true).
Proof.
  intros Hw H. pose proof (window_len t h Hw) as (Hd & Hl & Hi). pose proof (scan_ge _ _ _ _ H) as Hr.
  apply scan_get in H as (e & He & Hp). rewrite Z.sub_0_r in He. unfold len in Hl.
  assert (dropped t ≤ absolute t i < inserted t) as Hb by (unfold absolute; lia).
  split; [done|]. exists e. split; [|done].
  pose proof (get_absolute_window t h (absolute t i) Hw ltac:(lia)) as Hg.
  rewrite (proj2 (Z.leb_le _ _)), (proj2 (Z.ltb_lt _ _)) in Hg by lia. cbn [andb] in Hg. rewrite <- Hg.
  unfold get_absolute, last_absolute, entry_at. rewrite Z.max_r by lia.
  rewrite (proj2 (Z.ltb_ge _ _)) by (unfold absolute; lia).
  unfold absolute. replace (inserted t - 1 - (inserted t - 1 - i)) with i by lia. done.
Qed.

(** Whichever path is taken, the lookups are the linear scans. *)
Lemma find_full_or_name_scan t n v : table_ok t →
  find_full_or_name t n v
  = (absolute t <$> scan (is_field n v) (entries t) 0, absolute t <$> scan (is_named n) (entries t) 0).
Proof.
  intros [Ht _]. unfold find_full_or_name. rewrite find_loop_scan.
  destruct (maintain_maps t) eqn:Hm; cbn [andb]; [|done]. destruct (HYBRID_THRESHOLD <? len t); [|done].
  by rewrite (pre_exact t Ht Hm), (pre_name t Ht Hm).
Qed.

Lemma find_newest_name t n : table_ok t →
  find_name t n = absolute t <$> scan (is_named n) (entries t) 0.
Proof.
  intros [Ht _]. unfold find_name. destruct (maintain_maps t) eqn:Hm; cbn [andb]; [|done].
  destruct (HYBRID_THRESHOLD <? len t); [|done]. by rewrite (pre_name t Ht Hm).
Qed.

Lemma find_full_refers t h n v abs : table_ok t → window t h →
  (find_full_or_name t n v).1 = Some abs → refers t h abs (λ e, e = (n, v)).
Proof.
  intros Ht Hw. rewrite find_full_or_name_scan by done. cbn [fst].
  intros (i & H & ->)%fmap_Some. destruct (scan_refers t h _ i Hw H) as (Hb & e & He & Hp).
  split; [done|]. exists e. by apply is_field_iff in Hp.
Qed.

Lemma find_name_refers t h n v abs : table_ok t → window t h →
  (find_full_or_name t n v).2 = Some abs → refers t h abs (λ e, e.1 = n).
Proof.
  intros Ht Hw. rewrite find_full_or_name_scan by done. cbn [snd].
  intros (i & H & ->)%fmap_Some. destruct (scan_refers t h _ i Hw H) as (Hb & e & He & Hp).
  split; [done|]. exists e. by apply is_named_iff in Hp.
Qed.
