(* ===== verification/QpackString.v ===== *)
(** * QPACK string literals and errors (src/src/h3/qpack)

    RFC 9204, Section 4.1.2: a string literal whose first octet it shares with
    the pattern of an instruction or field line.  [push_string] is the
    encoder's, [read_string], [read_value_string] and [string_len] the
    decoder's. *)

From S2P Require Import Prelude Integer HuffmanTable Huffman.

Inductive QpackError : Type :=
| DecompressionFailed
| EncoderStream
| DecoderStream.

#[global] Instance QpackError_eq_dec : EqDecision QpackError.
Proof. solve_decision. Defined.

(** [QpackError::code]. *)
Definition qpack_code (e : QpackError) : Z :=
  match e with
  | DecompressionFailed => 0x0200
  | EncoderStream => 0x0201
  | DecoderStream => 0x0202
  end.

(** [Encoder::push_string(out, value, prefix, header)]; [use_huffman] is the
    encoder's switch. *)
Definition push_string (use_huffman : bool) (out value : bytes) (prefix : Z) (header : byte) : bytes :=
  let '(huffman, len) :=
    if use_huffman then
      let huffman_bits := Huffman.encoded_len value in
      if huffman_bits <? zlen value * 8 then (true, div_ceil huffman_bits 8) else (false, zlen value)
    else (false, zlen value) in
  let out := Integer.encode out len (prefix - 1)
               (Z.lor header (u8 (Z.shiftl (if huffman : bool then 1 else 0) (prefix - 1)))) in
  if huffman then Huffman.encode_with_len value out else out ++ value.

(** [Decoder::read_string(buf, &mut off, prefix_bits, header)]: the string and
    the offset after it. *)
Definition read_string (buf : bytes) (off prefix_bits : Z) (header : byte) : result HpackError (bytes * Z) :=
  let huffman := negb (Z.land header (Z.shiftl 1 (prefix_bits - 1)) =? 0) in
  '(len, off) ← Integer.decode buf off (prefix_bits - 1) header;
  end_ ← ok_or (checked_add64 off len) InvalidString;
  src ← ok_or (zslice buf off end_) InvalidString;
  if huffman then value ← Huffman.decode src; Ok (value, end_) else Ok (src, end_).

Definition read_value_string (buf : bytes) (off : Z) : result HpackError (bytes * Z) :=
  header ← ok_or (zget buf off) InvalidString;
  read_string buf (off + 1) 8 header.

(** [string_len(buf, prefix_bits)]. *)
Definition string_len (buf : bytes) (prefix_bits : Z) : option Z :=
  let int_prefix := prefix_bits - 1 in
  int_len ← Integer.encoded_len buf int_prefix;
  match Integer.decode buf 1 int_prefix (idx buf 0) with
  | Err _ => None
  | Ok (len, _) =>
      total ← checked_add64 int_len len;
      if zlen buf <? total then None else Some total
  end.

Example push_string_example :
  push_string true [] (b "www.example.com") 8 0
  = [0x8c; 0xf1; 0xe3; 0xc2; 0xe5; 0xf2; 0x3a; 0x6b; 0xa0; 0xab; 0x90; 0xf4; 0xff].
Proof. vm_compute. reflexivity. Qed.
Example read_string_example :
  read_value_string (push_string true [9] (b "www.example.com") 8 0) 1 = Ok (b "www.example.com", 14).
Proof. vm_compute. reflexivity. Qed.

(** ** Literals as pieces of a buffer *)

Definition body (value : bytes) (huffman : bool) : bytes :=
  if huffman then encode_with_len value [] else value.

(** A prefix width and pattern as the instructions use them: the pattern leaves
    the prefix and the Huffman flag clear. *)
Definition pattern_ok (p : Z) (header : byte) : Prop :=
  2 ≤ p ≤ 8 ∧ 0 ≤ header < 256 ∧ header mod 2 ^ p = 0.

Definition flagged (huffman : bool) (p : Z) (header : byte) : byte :=
  header + (if huffman then 2 ^ (p - 1) else 0).

Definition literal (value : bytes) (huffman : bool) (p : Z) (header : byte) : bytes :=
  int_octets (zlen (body value huffman)) (p - 1) (flagged huffman p header) ++ body value huffman.

(** The string of a field: what an encoder of this program may be given. *)
Definition text_ok (v : bytes) : Prop := bytes_ok v ∧ zlen v < 2 ^ 58.

Lemma text_body v huffman : text_ok v → bytes_ok (body v huffman) ∧ 0 ≤ zlen (body v huffman) < 2 ^ 61.
Proof.
  intros [Hv Hl]. destruct huffman; cbn.
  - split; [by apply encode_with_len_bits|]. rewrite length_encode_with_len by done.
    pose proof (encoded_len_bounds v Hv). unfold div_ceil. change (2 ^ 58) with 288230376151711744 in Hl.
    change (2 ^ 61) with 2305843009213693952. pose proof (zlen_nonneg v). dlia.
  - split; [done|]. pose proof (zlen_nonneg v). change (2 ^ 58) with 288230376151711744 in Hl.
    change (2 ^ 61) with 2305843009213693952. lia.
Qed.

Lemma flagged_byte huffman p header : pattern_ok p header → is_byte (flagged huffman p header).
Proof.
  intros (Hp & Hh & Hm). unfold is_byte, flagged. destruct huffman; [|lia].
  assert (2 ^ 8 = 2 ^ (8 - p) * 2 ^ p) as E8 by (rewrite <- Z.pow_add_r by lia; f_equal; lia).
  change (2 ^ 8) with 256 in E8.
  assert (2 ^ p = 2 * 2 ^ (p - 1)) as Ep by (rewrite <- Z.pow_succ_r by lia; f_equal; lia).
  assert (0 < 2 ^ (p - 1)) by (apply Z.pow_pos_nonneg; lia).
  pose proof (Z.div_mod header (2 ^ p) ltac:(lia)) as E. rewrite Hm in E.
  assert (header / 2 ^ p < 2 ^ (8 - p)) by (apply Z.div_lt_upper_bound; lia). nia.
Qed.

Lemma flagged_lor huffman p header : pattern_ok p header →
  Z.lor header (u8 (Z.shiftl (if huffman : bool then 1 else 0) (p - 1))) = flagged huffman p header.
Proof.
  intros (Hp & Hh & Hm). unfold flagged, u8. rewrite Z.shiftl_mul_pow2 by lia.
  assert (0 < 2 ^ (p - 1) ≤ 2 ^ 7) as Hb.
  { split; [apply Z.pow_pos_nonneg; lia|apply Z.pow_le_mono_r; lia]. }
  destruct huffman; [|by rewrite Z.mul_0_l, Z.lor_0_r, Z.add_0_r].
  rewrite Z.mul_1_l, Z.mod_small by lia.
  pose proof (Z.div_mod header (2 ^ p) ltac:(lia)) as E. rewrite Hm, Z.add_0_r, Z.mul_comm in E.
  rewrite E at 1 2. rewrite lor_disjoint; [done|lia|]. split; [lia|]. apply Z.pow_lt_mono_r; lia.
Qed.

(** The Huffman flag is read back. *)
Lemma flagged_test huffman p header n : pattern_ok p header → 0 ≤ n →
  negb (Z.land (prefix_octet n (p - 1) (flagged huffman p header)) (Z.shiftl 1 (p - 1)) =? 0) = huffman.
Proof.
  intros Hpat Hn. pose proof Hpat as (Hp & Hh & Hm). rewrite Z.shiftl_mul_pow2, Z.mul_1_l by lia.
  rewrite land_prefix_octet; [|lia|done|].
  - rewrite land_bit_zero, negb_involutive by lia. unfold flagged.
    pose proof (Z.div_mod header (2 ^ p) ltac:(lia)) as E. rewrite Hm, Z.add_0_r in E.
    assert (2 ^ p = 2 * 2 ^ (p - 1)) as Ep by (rewrite <- Z.pow_succ_r by lia; f_equal; lia).
    assert (0 < 2 ^ (p - 1)) as Hpos by (apply Z.pow_pos_nonneg; lia).
    set (q := header / 2 ^ p) in *. rewrite Ep in E. rewrite E.
    assert ((2 * 2 ^ (p - 1) * q + (if huffman then 2 ^ (p - 1) else 0)) / 2 ^ (p - 1)
      = 2 * q + (if huffman then 1 else 0)) as Hd.
    { replace (2 * 2 ^ (p - 1) * q + (if huffman then 2 ^ (p - 1) else 0))
        with ((2 * q + (if huffman then 1 else 0)) * 2 ^ (p - 1)) by (destruct huffman; lia).
      apply Z.div_mul. lia. }
    destruct huffman.
    + apply Z.testbit_true; [lia|]. rewrite Hd. rewrite Z.add_comm, Z.mul_comm, Z.mod_add by lia. done.
    + apply Z.testbit_false; [lia|]. rewrite Hd. rewrite Z.add_comm, Z.mul_comm, Z.mod_add by lia. done.
  - rewrite land_mask by lia. apply Z.mod_same. pose proof (Z.pow_pos_nonneg 2 (p - 1)). lia.
Qed.

(** What [push_string] appends; it codes the string when that is shorter. *)
Definition codes (use_huffman : bool) (v : bytes) : bool :=
  use_huffman && (Huffman.encoded_len v <? zlen v * 8).

Lemma codes_body use_huffman v : bytes_ok v → zlen (body v (codes use_huffman v)) ≤ zlen v.
Proof.
  intros Hv. unfold codes. destruct use_huffman; [|done]. cbn [andb].
  destruct (Z.ltb_spec (Huffman.encoded_len v) (zlen v * 8)); [|done].
  unfold body. rewrite length_encode_with_len by done. unfold div_ceil. dlia.
Qed.

Lemma push_string_literal use_huffman out v p header : bytes_ok v → pattern_ok p header →
  push_string use_huffman out v p header = out ++ literal v (codes use_huffman v) p header.
Proof.
  intros Hv Hp. pose proof (zlen_nonneg v). pose proof Hp as (Hp8 & _). unfold push_string.
  set (h := codes use_huffman v).
  assert ((if use_huffman
      then if encoded_len v <? zlen v * 8 then (true, div_ceil (encoded_len v) 8) else (false, zlen v)
      else (false, zlen v)) = (h, zlen (body v h))) as ->.
  { unfold h, codes. destruct use_huffman; [|done]. cbn [andb].
    destruct (Huffman.encoded_len v <? zlen v * 8); [|done]. unfold body. by rewrite length_encode_with_len. }
  rewrite flagged_lor by done. pose proof (zlen_nonneg (body v h)).
  pose proof (flagged_byte h p header Hp). unfold literal.
  rewrite encode_int by (done || lia). rewrite app_assoc. destruct h; [|done].
  by rewrite encode_with_len_app.
Qed.

Lemma literal_octets_ok v huffman p header : text_ok v → pattern_ok p header → bytes_ok (literal v huffman p header).
Proof.
  intros Hv Hp. destruct (text_body v huffman Hv) as [Hb Hl]. pose proof Hp as (Hp8 & _).
  assert (2 ^ 61 < 2 ^ 64) by done.
  apply Forall_app. split; [|done]. apply int_octets_ok; [lia|lia|by apply flagged_byte].
Qed.

(** The octet a literal starts with. *)
Definition first_octet (v : bytes) (huffman : bool) (p : Z) (header : byte) : byte :=
  prefix_octet (zlen (body v huffman)) (p - 1) (flagged huffman p header).

Lemma literal_cons v huffman p header : ∃ t, literal v huffman p header = first_octet v huffman p header :: t.
Proof. by eexists. Qed.

(** Reading back a literal whose first octet was consumed. *)
Lemma read_string_literal pre v huffman p header post :
  text_ok v → pattern_ok p header → zlen pre < 2 ^ 62 →
  read_string (pre ++ literal v huffman p header ++ post) (zlen pre + 1) p (first_octet v huffman p header)
  = Ok (v, zlen pre + zlen (literal v huffman p header)).
Proof.
  intros Hv Hp Hpre. destruct (text_body v huffman Hv) as [Hb Hl]. pose proof Hp as (Hp8 & _).
  assert (2 ^ 61 < 2 ^ 62) by done.
  unfold read_string, first_octet, literal. rewrite flagged_test by (done || lia).
  set (n := zlen (body v huffman)) in *.
  rewrite <- app_assoc, decode_int by (lia || by apply flagged_byte). cbn [mbind result_bind].
  set (io := int_octets n (p - 1) (flagged huffman p header)). pose proof (zlen_nonneg pre). pose proof (int_octets_len n (p - 1) (flagged huffman p header)) as Hio. fold io in Hio.
  unfold checked_add64. rewrite (proj2 (Z.leb_le _ u64_max)).
  2:{ change (2 ^ 61) with 2305843009213693952 in Hl. change (2 ^ 62) with 4611686018427387904 in Hpre.
      unfold u64_max. lia. }
  cbn [ok_or mbind result_bind]. rewrite <- zlen_app, app_assoc. unfold n. rewrite zslice_app.
  cbn [ok_or mbind result_bind]. rewrite !zlen_app. destruct huffman.
  - unfold body. rewrite decode_encode_aux by apply Hv. cbn [mbind result_bind]. do 2 f_equal. lia.
  - do 2 f_equal. lia.
Qed.

Lemma read_value_literal pre v huffman post :
  text_ok v → zlen pre < 2 ^ 62 →
  read_value_string (pre ++ literal v huffman 8 0 ++ post) (zlen pre)
  = Ok (v, zlen pre + zlen (literal v huffman 8 0)).
Proof.
  intros Hv Hpre. unfold read_value_string.
  assert (pattern_ok 8 0) as Hp by (by repeat split).
  pose proof (read_string_literal pre v huffman 8 0 post Hv Hp Hpre) as H.
  destruct (literal_cons v huffman 8 0) as [t E]. rewrite E in *. cbn [app] in *.
  rewrite zget_head. exact H.
Qed.

Lemma string_len_literal v huffman p header post :
  text_ok v → pattern_ok p header → bytes_ok post →
  string_len (literal v huffman p header ++ post) p = Some (zlen (literal v huffman p header)).
Proof.
  intros Hv Hp Hpost. destruct (text_body v huffman Hv) as [Hb Hl]. pose proof Hp as (Hp8 & _).
  assert (2 ^ 61 < 2 ^ 62) by done.
  unfold string_len, literal. set (n := zlen (body v huffman)) in *. pose proof (flagged_byte huffman p header Hp).
  rewrite <- app_assoc, encoded_len_int by (done || lia || by apply Forall_app). cbn [mbind option_bind].
  pose proof (decode_int [] (body v huffman ++ post) n (p - 1) (flagged huffman p header) ltac:(lia) ltac:(lia) ltac:(done)) as H1.
  change (zlen [] + 1) with 1 in H1. cbn [app] in H1.
  change (idx _ 0) with (prefix_octet n (p - 1) (flagged huffman p header)). rewrite H1.
  pose proof (int_octets_len n (p - 1) (flagged huffman p header)) as Hio.
  unfold checked_add64. rewrite (proj2 (Z.leb_le _ u64_max)).
  2:{ change (2 ^ 61) with 2305843009213693952 in Hl. unfold u64_max. lia. }
  cbn [mbind option_bind]. rewrite !zlen_app. fold n. pose proof (zlen_nonneg post).
  by rewrite (proj2 (Z.ltb_ge _ _)) by lia.
Qed.

Lemma literal_len v huffman p header : zlen (body v huffman) ≤ zlen v →
  zlen (literal v huffman p header) ≤ zlen v + 12.
Proof.
  intros H. unfold literal. rewrite zlen_app. pose proof (int_octets_len (zlen (body v huffman)) (p - 1) (flagged huffman p header)). lia.
Qed.

(** More octets do not change the length that was read. *)
Lemma string_len_app l k p n : string_len l p = Some n → string_len (l ++ k) p = Some n.
Proof.
  unfold string_len. destruct (Integer.encoded_len l (p - 1)) as [il|] eqn:El; [|done].
  rewrite (encoded_len_app l k _ _ El). pose proof (encoded_len_range _ _ _ El) as Hb. cbn [mbind option_bind].
  destruct l as [|x l]; [done|]. change (idx ((x :: l) ++ k) 0) with (idx (x :: l) 0).
  destruct (Integer.decode (x :: l) 1 (p - 1) (idx (x :: l) 0)) as [[len off]|] eqn:Ed; [|done].
  rewrite (decode_app (x :: l) k 1 _ _ _ ltac:(lia) Ed). destruct (checked_add64 il len) as [t|]; [|done]. cbn [mbind option_bind].
  rewrite zlen_app. pose proof (zlen_nonneg k).
  destruct (Z.ltb_spec (zlen (x :: l)) t); [done|]. by rewrite (proj2 (Z.ltb_ge _ t)) by lia.
Qed.

Lemma string_len_bounds l p n : string_len l p = Some n → n ≤ zlen l.
Proof.
  unfold string_len. destruct (Integer.encoded_len l (p - 1)); [|done]. cbn [mbind option_bind].
  destruct (Integer.decode _ _ _ _) as [[len off]|]; [|done].
  destruct (checked_add64 _ len) as [t|]; [|done]. cbn [mbind option_bind].
  destruct (Z.ltb_spec (zlen l) t); [done|]. by intros [= <-].
Qed.
