(* ===== verification/QpackDecoder.v ===== *)
(** * The QPACK decoder (src/src/h3/qpack/decoder/mod.rs)

    The decoder mirrors the peer's dynamic table from the encoder stream,
    decodes field sections against it, buffers the sections whose Required
    Insert Count has not been reached, and emits decoder stream instructions. *)

From S2P Require Import Prelude Integer HuffmanTable Huffman QpackTable QpackString.

Definition SECTION_ACK : Z := 0x80.
Definition STREAM_CANCELLATION : Z := 0x40.
Definition INSERT_COUNT_INCREMENT : Z := 0x00.
Definition FIELD_OVERHEAD : Z := 32.
Definition MAX_FIELDS_PER_SECTION : Z := 8192.
Definition MAX_DECODER_STREAM_INSTRUCTION : Z := 10.

Record UnblockedSection : Type := MkUnblocked {
  un_stream_id : Z;
  un_headers : list field;
}.

Record BlockedSection : Type := MkBlocked {
  bl_stream_id : Z;
  bl_buf : bytes;
  bl_ric : Z;
  bl_since : Z;
}.

Record Decoder : Type := MkDecoder {
  dynamic : DynamicTable;
  max_capacity : Z;
  known_received : Z;
  blocked : list BlockedSection;
  blocked_by_stream : gmap Z Z;
  section_size_by_stream : gmap Z Z;
  max_blocked_streams : Z;
  max_field_section_size : Z;
  decoder_stream : bytes;
  encoder_stream_pending : bytes;
  decoder_stream_pending : bytes;
}.

(** [Decoder::new] and [set_max_field_section_size]. *)
Definition new_decoder (max_capacity max_blocked_streams : Z) : Decoder :=
  MkDecoder (without_maps 0) max_capacity 0 [] ∅ ∅ max_blocked_streams usize_max [] [] [].
Definition set_max_field_section_size (d : Decoder) (size : Z) : Decoder :=
  MkDecoder (dynamic d) (max_capacity d) (known_received d) (blocked d) (blocked_by_stream d)
    (section_size_by_stream d) (max_blocked_streams d) size (decoder_stream d)
    (encoder_stream_pending d) (decoder_stream_pending d).

Definition enc_stream_err (_ : HpackError) : QpackError := EncoderStream.
Definition dec_failed (_ : HpackError) : QpackError := DecompressionFailed.
Definition dec_stream_err (_ : HpackError) : QpackError := DecoderStream.

(** ** The encoder stream *)

Definition encoder_instruction_len (buf : bytes) : option Z :=
  header ← head buf;
  match Z.land header 0xC0 with
  | 0x80 | 0xC0 =>
      index_len ← Integer.encoded_len buf 6;
      value_len ← string_len (drop (Z.to_nat index_len) buf) 8;
      Some (index_len + value_len)
  | 0x40 =>
      name_len ← string_len buf 6;
      value_len ← string_len (drop (Z.to_nat name_len) buf) 8;
      Some (name_len + value_len)
  | _ => Integer.encoded_len buf 5
  end.

(** [insert_entry]: on the table, with the decoder's Known Received Count. *)
Definition insert_entry (known : Z) (t : DynamicTable) (name value : bytes) : result QpackError DynamicTable :=
  let size := entry_size name value in
  let evicted := would_evict t size in
  _ ← fail_if (known <? evicted) EncoderStream;
  ok_or (QpackTable.insert t name value) EncoderStream.

(** [parse_encoder_instruction]: what it does to the dynamic table. *)
Definition table_instruction (max_capacity known : Z) (t : DynamicTable) (instr : bytes)
    : result QpackError DynamicTable :=
  let header := idx instr 0 in
  let off := 1 in
  match Z.land header 0xC0 with
  | 0x80 | 0xC0 =>
      '(index, off) ← map_err enc_stream_err (Integer.decode instr off 6 header);
      '(value, _) ← map_err enc_stream_err (read_value_string instr off);
      name ← (if negb (Z.land header 0x40 =? 0)
              then '(name, _) ← ok_or (static_get index) EncoderStream; Ok name
              else '(name, _) ← ok_or (get_relative t index) EncoderStream; Ok name);
      insert_entry known t name value
  | 0x40 =>
      '(name, off) ← map_err enc_stream_err (read_string instr off 6 header);
      '(value, _) ← map_err enc_stream_err (read_value_string instr off);
      insert_entry known t name value
  | _ =>
      if negb (Z.land header 0x20 =? 0) then
        '(capacity, _) ← map_err enc_stream_err (Integer.decode instr off 5 header);
        _ ← fail_if (max_capacity <? capacity) EncoderStream;
        _ ← fail_if (known <? evict_for_capacity t capacity) EncoderStream;
        Ok (set_capacity t capacity)
      else
        '(index, _) ← map_err enc_stream_err (Integer.decode instr off 5 header);
        '(name, value) ← ok_or (get_relative t index) EncoderStream;
        insert_entry known t name value
  end.

(** The instruction loop of [feed_encoder_stream]: the table and the octets
    that wait for more.  Every instruction takes an octet, so the length of the
    buffer is enough fuel. *)
Fixpoint instructions_loop (fuel : nat) (max_capacity known : Z) (t : DynamicTable) (pending : bytes)
    : result QpackError (DynamicTable * bytes) :=
  match fuel, pending with
  | O, _ | _, [] => Ok (t, pending)
  | S fuel, _ =>
      match encoder_instruction_len pending with
      | None => Ok (t, pending)
      | Some len =>
          if zlen pending <? len then Ok (t, pending)
          else
            t ← table_instruction max_capacity known t (take (Z.to_nat len) pending);
            instructions_loop fuel max_capacity known t (drop (Z.to_nat len) pending)
      end
  end.

(** ** Field sections *)

(** [read_prefix]: the Required Insert Count, the Base and the offset. *)
Definition required_insert_count (max_capacity inserted enc_ric : Z) : result QpackError Z :=
  let max_entries := max_capacity / 32 in
  if (enc_ric =? 0) || (max_entries =? 0) then Ok 0
  else
    let full_range := 2 * max_entries in
    if full_range <? enc_ric then Err DecompressionFailed
    else
      let max_value := inserted + max_entries in
      let max_wrapped := max_value / full_range * full_range in
      let ric := max_wrapped + enc_ric - 1 in
      ric ← (if max_value <? ric
             then if ric <=? full_range then Err DecompressionFailed else Ok (ric - full_range)
             else Ok ric);
      _ ← fail_if (ric =? 0) DecompressionFailed;
      Ok ric.

Definition read_prefix (max_capacity inserted : Z) (buf : bytes) : result QpackError (Z * Z * Z) :=
  header ← ok_or (head buf) DecompressionFailed;
  '(enc_ric, off) ← map_err dec_failed (Integer.decode buf 1 8 header);
  ric ← required_insert_count max_capacity inserted enc_ric;
  header ← ok_or (zget buf off) DecompressionFailed;
  '(delta, off) ← map_err dec_failed (Integer.decode buf (off + 1) 7 header);
  base ← (if negb (Z.land header 0x80 =? 0)
          then ok_or (if delta + 1 <=? ric then Some (ric - (delta + 1)) else None) DecompressionFailed
          else ok_or (checked_add64 ric delta) DecompressionFailed);
  Ok (ric, base, off).

(** One field line: the field, the insert count it needs and the offset after
    it. *)
Definition read_field (t : DynamicTable) (base : Z) (buf : bytes) (off : Z)
    : result QpackError (field * Z * Z) :=
  let header := idx buf (Z.to_nat off) in
  let off := off + 1 in
  if negb (Z.land header 0x80 =? 0) then
    '(index, off) ← map_err dec_failed (Integer.decode buf off 6 header);
    if negb (Z.land header 0x40 =? 0)
    then f ← ok_or (static_get index) DecompressionFailed; Ok (f, 0, off)
    else f ← ok_or (get_base_relative t base index) DecompressionFailed; Ok (f, base - index, off)
  else if negb (Z.land header 0x40 =? 0) then
    '(index, off) ← map_err dec_failed (Integer.decode buf off 4 header);
    '(value, off) ← map_err dec_failed (read_value_string buf off);
    if negb (Z.land header 0x10 =? 0)
    then '(name, _) ← ok_or (static_get index) DecompressionFailed; Ok (name, value, 0, off)
    else '(name, _) ← ok_or (get_base_relative t base index) DecompressionFailed;
         Ok (name, value, base - index, off)
  else if negb (Z.land header 0x20 =? 0) then
    '(name, off) ← map_err dec_failed (read_string buf off 4 header);
    '(value, off) ← map_err dec_failed (read_value_string buf off);
    Ok (name, value, 0, off)
  else if negb (Z.land header 0x10 =? 0) then
    '(index, off) ← map_err dec_failed (Integer.decode buf off 4 header);
    f ← ok_or (get_post_base t base index) DecompressionFailed;
    Ok (f, base + index + 1, off)
  else
    '(index, off) ← map_err dec_failed (Integer.decode buf off 3 header);
    '(name, _) ← ok_or (get_post_base t base index) DecompressionFailed;
    '(value, off) ← map_err dec_failed (read_value_string buf off);
    Ok (name, value, base + index + 1, off).

(** The [while off < buf.len()] loop of [decode_ready]; each turn takes an
    octet. *)
Fixpoint decode_fields (fuel : nat) (t : DynamicTable) (budget : option Z) (base : Z) (buf : bytes)
    (off : Z) (headers : list field) (needed size : Z) : result QpackError (list field * Z * Z) :=
  if zlen buf <=? off then Ok (headers, needed, size)
  else match fuel with
  | O => Err DecompressionFailed
  | S fuel =>
      '(f, need, off) ← read_field t base buf off;
      let size := saturating_add64 size (zlen f.1 + zlen f.2 + FIELD_OVERHEAD) in
      _ ← fail_if (match budget with Some limit => limit <? size | None => false end) DecompressionFailed;
      _ ← fail_if (MAX_FIELDS_PER_SECTION <=? zlen headers) DecompressionFailed;
      decode_fields fuel t budget base buf off (headers ++ [f]) (Z.max needed need) size
  end.

(** [decode_ready]. *)
Definition decode_ready (t : DynamicTable) (max_capacity : Z) (buf : bytes) (budget : option Z)
    : result QpackError (list field * Z) :=
  '(ric, base, off) ← read_prefix max_capacity (inserted t) buf;
  '(headers, needed, size) ← decode_fields (length buf) t budget base buf off [] 0 0;
  _ ← fail_if (negb (ric =? needed)) DecompressionFailed;
  Ok (headers, size).

(** ** The decoder's state *)

Definition set_dynamic (t : DynamicTable) (d : Decoder) : Decoder :=
  MkDecoder t (max_capacity d) (known_received d) (blocked d) (blocked_by_stream d)
    (section_size_by_stream d) (max_blocked_streams d) (max_field_section_size d) (decoder_stream d)
    (encoder_stream_pending d) (decoder_stream_pending d).
Definition set_pending (p : bytes) (d : Decoder) : Decoder :=
  MkDecoder (dynamic d) (max_capacity d) (known_received d) (blocked d) (blocked_by_stream d)
    (section_size_by_stream d) (max_blocked_streams d) (max_field_section_size d) (decoder_stream d)
    p (decoder_stream_pending d).
Definition set_blocked (bl : list BlockedSection) (by_stream : gmap Z Z) (d : Decoder) : Decoder :=
  MkDecoder (dynamic d) (max_capacity d) (known_received d) bl by_stream
    (section_size_by_stream d) (max_blocked_streams d) (max_field_section_size d) (decoder_stream d)
    (encoder_stream_pending d) (decoder_stream_pending d).
Definition set_sizes (m : gmap Z Z) (d : Decoder) : Decoder :=
  MkDecoder (dynamic d) (max_capacity d) (known_received d) (blocked d) (blocked_by_stream d)
    m (max_blocked_streams d) (max_field_section_size d) (decoder_stream d)
    (encoder_stream_pending d) (decoder_stream_pending d).

(** [known_received] raised and an instruction queued. *)
Definition announce (known : Z) (out : bytes) (d : Decoder) : Decoder :=
  MkDecoder (dynamic d) (max_capacity d) known (blocked d) (blocked_by_stream d)
    (section_size_by_stream d) (max_blocked_streams d) (max_field_section_size d) out
    (encoder_stream_pending d) (decoder_stream_pending d).

(** [take_decoder_stream]. *)
Definition take_decoder_stream (d : Decoder) : bytes * Decoder :=
  (decoder_stream d, announce (known_received d) [] d).

(** [stream_has_blocked], [add_blocked_section] and [remove_blocked_section]. *)
Definition stream_has_blocked (d : Decoder) (sid : Z) : bool := bool_decide (is_Some (blocked_by_stream d !! sid)).
Definition add_blocked_section (m : gmap Z Z) (sid : Z) : gmap Z Z := <[sid := default 0 (m !! sid) + 1]> m.
Definition remove_blocked_section (m : gmap Z Z) (sid : Z) : gmap Z Z :=
  match m !! sid with
  | None => m
  | Some count => if count =? 1 then delete sid m else <[sid := count - 1]> m
  end.

(** [remaining_budget]. *)
Definition remaining_budget (d : Decoder) (sid : Z) : option Z :=
  if max_field_section_size d =? usize_max then None
  else Some (Z.max 0 (max_field_section_size d - default 0 (section_size_by_stream d !! sid))).

(** What [decode_block] and [feed_encoder_stream] do alike with a section that
    can be decoded: decode within the budget, charge the stream
    ([account_section]), and acknowledge ([acknowledge], [emit_section_ack]). *)
Definition deliver (d : Decoder) (sid : Z) (buf : bytes) (ric : Z) : result QpackError (list field * Decoder) :=
  let budget := remaining_budget d sid in
  '(headers, size) ← decode_ready (dynamic d) (max_capacity d) buf budget;
  let total := saturating_add64 (default 0 (section_size_by_stream d !! sid)) size in
  let d := set_sizes (<[sid := total]> (section_size_by_stream d)) d in
  Ok (headers,
      if 0 <? ric
      then announce (Z.max (known_received d) ric) (Integer.encode (decoder_stream d) sid 7 SECTION_ACK) d
      else d).

(** [decode_block]: [None] when the section was buffered. *)
Definition decode_block (d : Decoder) (buf : bytes) (sid now : Z)
    : result QpackError (option (list field) * Decoder) :=
  '(ric, _, _) ← read_prefix (max_capacity d) (inserted (dynamic d)) buf;
  let stream_blocked := stream_has_blocked d sid in
  if (inserted (dynamic d) <? ric) || stream_blocked then
    _ ← fail_if (negb stream_blocked && (max_blocked_streams d <=? Z.of_nat (base.size (blocked_by_stream d))))
          DecompressionFailed;
    Ok (None, set_blocked (blocked d ++ [MkBlocked sid buf ric now]) (add_blocked_section (blocked_by_stream d) sid) d)
  else
    '(headers, d) ← deliver d sid buf ric;
    Ok (Some headers, d).

(** The [while let Some(front)] loop of [feed_encoder_stream] over the blocked
    sections. *)
Fixpoint unblock_loop (bl : list BlockedSection) (d : Decoder) : result QpackError (list UnblockedSection * Decoder) :=
  match bl with
  | [] => Ok ([], set_blocked [] (blocked_by_stream d) d)
  | front :: rest =>
      if inserted (dynamic d) <? bl_ric front then Ok ([], set_blocked bl (blocked_by_stream d) d)
      else
        let d := set_blocked rest (remove_blocked_section (blocked_by_stream d) (bl_stream_id front)) d in
        '(headers, d) ← deliver d (bl_stream_id front) (bl_buf front) (bl_ric front);
        '(sections, d) ← unblock_loop rest d;
        Ok (MkUnblocked (bl_stream_id front) headers :: sections, d)
  end.

(** The coalesced Insert Count Increment. *)
Definition increment (d : Decoder) : Decoder :=
  if known_received d <? inserted (dynamic d)
  then announce (inserted (dynamic d))
         (Integer.encode (decoder_stream d) (inserted (dynamic d) - known_received d) 6 INSERT_COUNT_INCREMENT) d
  else d.

Definition feed_encoder_stream (d : Decoder) (buf : bytes) : result QpackError (list UnblockedSection * Decoder) :=
  let pending := encoder_stream_pending d ++ buf in
  let cap := saturating_add64 (max_capacity d) 1024 in
  _ ← fail_if (cap <? zlen pending) EncoderStream;
  '(t, pending) ← instructions_loop (length pending) (max_capacity d) (known_received d) (dynamic d) pending;
  let d := set_pending pending (set_dynamic t d) in
  '(sections, d) ← unblock_loop (blocked d) d;
  Ok (sections, increment d).

(** *** The peer's decoder stream *)

Definition decoder_instruction_len (buf : bytes) : option Z :=
  header ← head buf;
  Integer.encoded_len buf (if negb (Z.land header 0x80 =? 0) then 7 else 6).

(** The validation of one instruction of [feed_decoder_stream]. *)
Definition check_decoder_instruction (instr : bytes) : result QpackError () :=
  let header := idx instr 0 in
  if negb (Z.land header 0x80 =? 0)
  then _ ← map_err dec_stream_err (Integer.decode instr 1 7 header); Ok ()
  else if negb (Z.land header 0x40 =? 0)
  then _ ← map_err dec_stream_err (Integer.decode instr 1 6 header); Ok ()
  else '(increment, _) ← map_err dec_stream_err (Integer.decode instr 1 6 header);
       fail_if (increment =? 0) DecoderStream.

Fixpoint decoder_instructions_loop (fuel : nat) (pending : bytes) : result QpackError bytes :=
  match fuel, pending with
  | O, _ | _, [] => Ok pending
  | S fuel, _ =>
      match decoder_instruction_len pending with
      | None => Ok pending
      | Some len =>
          if zlen pending <? len then Ok pending
          else
            _ ← check_decoder_instruction (take (Z.to_nat len) pending);
            decoder_instructions_loop fuel (drop (Z.to_nat len) pending)
      end
  end.

(** [Decoder::feed_decoder_stream]. *)
Definition validate_decoder_stream (d : Decoder) (buf : bytes) : result QpackError Decoder :=
  let pending := decoder_stream_pending d ++ buf in
  pending ← decoder_instructions_loop (length pending) pending;
  _ ← fail_if (MAX_DECODER_STREAM_INSTRUCTION <? zlen pending) DecoderStream;
  Ok (MkDecoder (dynamic d) (max_capacity d) (known_received d) (blocked d) (blocked_by_stream d)
        (section_size_by_stream d) (max_blocked_streams d) (max_field_section_size d) (decoder_stream d)
        (encoder_stream_pending d) pending).

(** *** Streams that end *)

Definition stream_finished (d : Decoder) (sid : Z) : Decoder :=
  set_sizes (delete sid (section_size_by_stream d)) d.

Definition not_of (sid : Z) (bs : BlockedSection) : bool := negb (bl_stream_id bs =? sid).

(** [stream_cancelled]: the instruction returned is also queued. *)
Definition stream_cancelled (d : Decoder) (sid : Z) : bytes * Decoder :=
  let out := Integer.encode [] sid 6 STREAM_CANCELLATION in
  let d := set_blocked (filter (λ bs, not_of sid bs = true) (blocked d)) (delete sid (blocked_by_stream d)) d in
  let d := set_sizes (delete sid (section_size_by_stream d)) d in
  (out, announce (known_received d) (decoder_stream d ++ out) d).

(** The loop of [expire_blocked]: the instructions and the streams cancelled. *)
Fixpoint expire_loop (bl : list BlockedSection) (now max_age : Z) (out : bytes) (cancelled : list Z)
    : bytes * list Z :=
  match bl with
  | [] => (out, cancelled)
  | bs :: bl =>
      if (max_age <? Z.max 0 (now - bl_since bs)) && negb (bool_decide (bl_stream_id bs ∈ cancelled))
      then expire_loop bl now max_age (Integer.encode out (bl_stream_id bs) 6 STREAM_CANCELLATION)
             (cancelled ++ [bl_stream_id bs])
      else expire_loop bl now max_age out cancelled
  end.

Definition expire_blocked (d : Decoder) (now max_age : Z) : bytes * Decoder :=
  let '(out, cancelled) := expire_loop (blocked d) now max_age [] [] in
  let d := if bool_decide (cancelled = []) then d
           else set_sizes (foldr delete (section_size_by_stream d) cancelled)
                  (set_blocked (filter (λ bs, bl_stream_id bs ∉ cancelled) (blocked d))
                     (foldr delete (blocked_by_stream d) cancelled) d) in
  (out, announce (known_received d) (decoder_stream d ++ out) d).
