(* ===== verification/QpackEncoder.v ===== *)
(** * The QPACK encoder (src/src/h3/qpack/encoder/mod.rs)

    The encoder owns the dynamic table: it encodes field sections, describes
    every change of the table on the encoder stream, and learns from the decoder
    stream what it may evict. *)

From S2P Require Import Prelude Integer HuffmanTable Huffman QpackTable QpackString.

Definition SET_CAPACITY : Z := 0x20.
Definition INSERT_WITH_NAME_REF : Z := 0x80.
Definition INSERT_WITH_LITERAL_NAME : Z := 0x40.
Definition DUPLICATE : Z := 0x00.
Definition INDEXED : Z := 0x80.
Definition INDEXED_POST_BASE : Z := 0x10.
Definition LITERAL_NAME_REF : Z := 0x40.
Definition LITERAL_POST_BASE_NAME_REF : Z := 0x00.
Definition LITERAL_LITERAL_NAME : Z := 0x20.
Definition MAX_DECODER_STREAM_INSTRUCTION : Z := 10.

Definition NEVER_INDEXED : list bytes := [b "authorization"; b "proxy-authorization"; b "cookie"].

Record EncodedSection : Type := MkEncodedSection { block : bytes; encoder_stream : bytes }.

Record Encoder : Type := MkEncoder {
  dynamic : DynamicTable;
  max_capacity : Z;
  use_huffman : bool;
  known_received : Z;
  pending_refs : list (Z * Z);
  cached_min_pending : Z;
  decoder_stream_pending : bytes;
}.

(** [Encoder::new]. *)
Definition new_encoder (max_capacity : Z) (huffman : bool) : Encoder :=
  MkEncoder (new_table 0) max_capacity huffman 0 [] u64_max [].

Definition set_dynamic (t : DynamicTable) (e : Encoder) : Encoder :=
  MkEncoder t (max_capacity e) (use_huffman e) (known_received e) (pending_refs e) (cached_min_pending e)
    (decoder_stream_pending e).
Definition set_refs (refs : list (Z * Z)) (min : Z) (e : Encoder) : Encoder :=
  MkEncoder (dynamic e) (max_capacity e) (use_huffman e) (known_received e) refs min (decoder_stream_pending e).
Definition set_known (known : Z) (e : Encoder) : Encoder :=
  MkEncoder (dynamic e) (max_capacity e) (use_huffman e) known (pending_refs e) (cached_min_pending e)
    (decoder_stream_pending e).

Definition evictable_floor (e : Encoder) : Z := Z.min (known_received e) (cached_min_pending e).

(** [pending_refs.iter().map(|(_, m)| m).min().unwrap_or(u64::MAX)]. *)
Definition min_pending (refs : list (Z * Z)) : Z := foldr (λ r m, Z.min r.2 m) u64_max refs.

(** ** Field lines *)

(** The block under construction with [ric] and [min_rel_ref]. *)
Record Section_ : Type := MkSection { out : bytes; ric : Z; min_rel_ref : option Z }.

(** The octets of a reference appended, [ric] and [min_rel_ref] kept up. *)
Definition reference (s : Section_) (abs : Z) (octets : bytes → bytes) : Section_ :=
  MkSection (octets (out s)) (Z.max (ric s) (abs + 1))
    (Some (match min_rel_ref s with None => abs | Some m => Z.min m abs end)).

Definition append (s : Section_) (octets : bytes → bytes) : Section_ :=
  MkSection (octets (out s)) (ric s) (min_rel_ref s).

Definition encode_indexed (abs base : Z) (s : Section_) : Section_ :=
  reference s abs (λ o, if base <=? abs
                        then Integer.encode o (abs - base) 4 INDEXED_POST_BASE
                        else Integer.encode o (base - abs - 1) 6 INDEXED).

Definition encode_literal_with_name_ref (huff : bool) (abs base : Z) (value : bytes) (s : Section_) : Section_ :=
  reference s abs (λ o, push_string huff (Integer.encode o (base - abs - 1) 4 LITERAL_NAME_REF) value 8 0).

Definition encode_literal_post_base_name_ref (huff : bool) (abs base : Z) (value : bytes) (s : Section_) : Section_ :=
  reference s abs (λ o, push_string huff (Integer.encode o (abs - base) 3 LITERAL_POST_BASE_NAME_REF) value 8 0).

Definition encode_literal_with_static_name_ref (huff : bool) (idx : Z) (value : bytes) (s : Section_) : Section_ :=
  append s (λ o, push_string huff (Integer.encode o idx 4 (Z.lor LITERAL_NAME_REF 0x10)) value 8 0).

(** [encode_literal]; [sensitive] asks for the N bit. *)
Definition encode_literal (huff : bool) (name value : bytes) (sensitive : bool) (s : Section_) : Section_ :=
  let n := Z.shiftl (if sensitive then 1 else 0) 4 in
  append s (λ o,
    let o := match static_find_name name with
             | Some idx => Integer.encode o idx 4 (Z.lor (Z.lor LITERAL_NAME_REF 0x10) n)
             | None => push_string huff o name 4 (Z.lor LITERAL_LITERAL_NAME n)
             end in
    push_string huff o value 8 0).

(** ** Field sections *)

(** The loop of [encode_section_with_base]: the table, the encoder stream and
    the section. *)
Record Progress : Type := MkProgress { table : DynamicTable; stream : bytes; section : Section_ }.

Definition on_section (f : Section_ → Section_) (p : Progress) : Progress :=
  MkProgress (table p) (stream p) (f (section p)).

(** The last part of a turn: a literal, inserted when that is safe. *)
Definition encode_new (e : Encoder) (base : Z) (name value : bytes) (p : Progress) : Progress :=
  let size := entry_size name value in
  let boundary := Z.min (default u64_max (min_rel_ref (section p))) (evictable_floor e) in
  let safe := inserted (table p) - len (table p) + would_evict (table p) size <=? boundary in
  if (32 <=? max_capacity e) && (size <=? max_capacity e) && safe then
    let p := if negb (capacity (table p) =? max_capacity e)
             then MkProgress (set_capacity (table p) (max_capacity e))
                    (Integer.encode (stream p) (max_capacity e) 5 SET_CAPACITY) (section p)
             else p in
    let abs := next_absolute (table p) in
    let out := push_string (use_huffman e) (stream p) name 6 INSERT_WITH_LITERAL_NAME in
    let out := push_string (use_huffman e) out value 8 0 in
    let t := default (table p) (QpackTable.insert (table p) name value) in
    on_section (encode_indexed abs base) (MkProgress t out (section p))
  else on_section (encode_literal (use_huffman e) name value false) p.

(** One turn of the loop over the headers. *)
Definition encode_field (e : Encoder) (base : Z) (p : Progress) (f : field) : Progress :=
  let '(name, value) := f in
  let huff := use_huffman e in
  if bool_decide (name ∈ NEVER_INDEXED) then on_section (encode_literal huff name value true) p
  else
    let usable := 32 <=? max_capacity e in
    let '(full, dname) := if usable then find_full_or_name (table p) name value else (None, None) in
    match full with
    | Some abs => on_section (encode_indexed abs base) p
    | None =>
        let '(sfull, sname) := static_find_full_or_name name value in
        match sfull with
        | Some idx => on_section (λ s, append s (λ o, Integer.encode o idx 6 (Z.lor INDEXED 0x40))) p
        | None =>
            match dname with
            | Some abs =>
                if base <=? abs then on_section (encode_literal_post_base_name_ref huff abs base value) p
                else on_section (encode_literal_with_name_ref huff abs base value) p
            | None =>
                match sname with
                | Some idx => on_section (encode_literal_with_static_name_ref huff idx value) p
                | None => encode_new e base name value p
                end
            end
        end
    end.

(** [encode_prefix]. *)
Definition encode_prefix (max_capacity ric base : Z) : bytes :=
  let max_entries := max_capacity / 32 in
  let enc_ric := if (ric =? 0) || (max_entries =? 0) then 0 else ric mod (2 * max_entries) + 1 in
  let out := Integer.encode [] enc_ric 8 0 in
  if ric <=? base then Integer.encode out (base - ric) 7 0
  else Integer.encode out (ric - base - 1) 7 0x80.

Definition encode_section_with_base (e : Encoder) (sid : Z) (headers : list field) (base : Z)
    : EncodedSection * Encoder :=
  let p := foldl (encode_field e base) (MkProgress (dynamic e) [] (MkSection [] 0 None)) headers in
  let s := section p in
  let e := set_dynamic (table p) e in
  let e := if 0 <? ric s then
             let min_ref := default 0 (min_rel_ref s) in
             set_refs (pending_refs e ++ [(sid, min_ref)]) (Z.min min_ref (cached_min_pending e)) e
           else e in
  (MkEncodedSection (encode_prefix (max_capacity e) (ric s) base ++ out s) (stream p), e).

(** [encode_section] and [encode_section_with_ack_base]. *)
Definition encode_section (e : Encoder) (sid : Z) (headers : list field) : EncodedSection * Encoder :=
  encode_section_with_base e sid headers (inserted (dynamic e)).
Definition encode_section_with_ack_base (e : Encoder) (sid : Z) (headers : list field) : EncodedSection * Encoder :=
  encode_section_with_base e sid headers (known_received e).

(** ** Instructions on their own *)

(** [insert_would_evict_needed]. *)
Definition insert_would_evict_needed (e : Encoder) (size : Z) : bool :=
  evictable_floor e <? inserted (dynamic e) - len (dynamic e) + would_evict (dynamic e) size.

(** The insertion that [insert_literal], [insert_with_name_ref] and [duplicate]
    end with: [None] when the entry does not fit or would evict too much. *)
Definition insert_checked (e : Encoder) (name value : bytes) (out : bytes) : option (bytes * Encoder) :=
  let size := entry_size name value in
  if (capacity (dynamic e) <? size) || insert_would_evict_needed e size then None
  else t ← QpackTable.insert (dynamic e) name value; Some (out, set_dynamic t e).

Definition insert_literal (e : Encoder) (name value : bytes) : option (bytes * Encoder) :=
  let out := push_string (use_huffman e) [] name 6 INSERT_WITH_LITERAL_NAME in
  insert_checked e name value (push_string (use_huffman e) out value 8 0).

Definition insert_with_name_ref (e : Encoder) (name value : bytes) : option (bytes * Encoder) :=
  out ← match find_name (dynamic e) name with
        | Some abs => Some (Integer.encode [] (inserted (dynamic e) - abs - 1) 6 INSERT_WITH_NAME_REF)
        | None => idx ← static_find_name name;
                  Some (Integer.encode [] idx 6 (Z.lor INSERT_WITH_NAME_REF 0x40))
        end;
  insert_checked e name value (push_string (use_huffman e) out value 8 0).

Definition duplicate (e : Encoder) (relative : Z) : option (bytes * Encoder) :=
  if len (dynamic e) <=? relative then None
  else '(name, value) ← entry_at (dynamic e) relative;
       insert_checked e name value (Integer.encode [] relative 5 DUPLICATE).

(** [Encoder::set_capacity]. *)
Definition change_capacity (e : Encoder) (c : Z) : option (bytes * Encoder) :=
  if (max_capacity e <? c) || (c =? capacity (dynamic e)) then None
  else if (c <? capacity (dynamic e))
          && (evictable_floor e <? inserted (dynamic e) - len (dynamic e) + evict_for_capacity (dynamic e) c)
  then None
  else Some (Integer.encode [] c 5 SET_CAPACITY, set_dynamic (set_capacity (dynamic e) c) e).

(** ** The decoder stream *)

(** [position(|(id, _)| id == stream_id)] and [remove(pos)]: the reference
    removed and the rest. *)
Fixpoint remove_first (sid : Z) (refs : list (Z * Z)) : option (Z * list (Z * Z)) :=
  match refs with
  | [] => None
  | r :: refs =>
      if r.1 =? sid then Some (r.2, refs)
      else '(m, rest) ← remove_first sid refs; Some (m, r :: rest)
  end.

(** One instruction of [feed_decoder_stream]. *)
Definition decoder_instruction (e : Encoder) (instr : bytes) : result QpackError Encoder :=
  let header := idx instr 0 in
  let err (_ : HpackError) := DecoderStream in
  if negb (Z.land header 0x80 =? 0) then
    '(sid, _) ← map_err err (Integer.decode instr 1 7 header);
    Ok (match remove_first sid (pending_refs e) with
        | None => e
        | Some (removed_min, refs) =>
            set_refs refs (if removed_min =? cached_min_pending e then min_pending refs
                           else cached_min_pending e) e
        end)
  else if negb (Z.land header 0x40 =? 0) then
    '(sid, _) ← map_err err (Integer.decode instr 1 6 header);
    let refs := filter (λ r : Z * Z, r.1 ≠ sid) (pending_refs e) in
    Ok (if negb (zlen refs =? zlen (pending_refs e)) then set_refs refs (min_pending refs) e
        else set_refs refs (cached_min_pending e) e)
  else
    '(increment, _) ← map_err err (Integer.decode instr 1 6 header);
    _ ← fail_if ((increment =? 0)
                 || (inserted (dynamic e) <? saturating_add64 (known_received e) increment)) DecoderStream;
    Ok (set_known (known_received e + increment) e).

Fixpoint feed_loop (fuel : nat) (e : Encoder) (pending : bytes) : result QpackError (Encoder * bytes) :=
  match fuel, pending with
  | O, _ | _, [] => Ok (e, pending)
  | S fuel, header :: _ =>
      let prefix_bits := if negb (Z.land header 0x80 =? 0) then 7 else 6 in
      match Integer.encoded_len pending prefix_bits with
      | None => Ok (e, pending)
      | Some len =>
          if zlen pending <? len then Ok (e, pending)
          else
            e ← decoder_instruction e (take (Z.to_nat len) pending);
            feed_loop fuel e (drop (Z.to_nat len) pending)
      end
  end.

Definition feed_decoder_stream (e : Encoder) (buf : bytes) : result QpackError Encoder :=
  let pending := decoder_stream_pending e ++ buf in
  '(e, pending) ← feed_loop (length pending) e pending;
  _ ← fail_if (MAX_DECODER_STREAM_INSTRUCTION <? zlen pending) DecoderStream;
  Ok (MkEncoder (dynamic e) (max_capacity e) (use_huffman e) (known_received e) (pending_refs e)
        (cached_min_pending e) pending).
