(* ===== verification/QpackLines.v ===== *)
(** * QPACK field lines and instructions, written and read

    What the encoder appends to a block or to the encoder stream, piece by
    piece, and what the decoder makes of it: the bridge between
    QpackEncoder and QpackDecoder. *)

From S2P Require Import Prelude Integer HuffmanTable Huffman QpackTable QpackString QpackDecoder.

(** ** Field lines *)

(** The field line [octets] read in any buffer: the field, and the insert count
    it needs. *)
Definition reads (t : DynamicTable) (base : Z) (octets : bytes) (f : field) (need : Z) : Prop :=
  ∀ pre post, zlen pre + zlen octets < 2 ^ 62 →
    read_field t base (pre ++ octets ++ post) (zlen pre) = Ok (f, need, zlen pre + zlen octets).

(** A line with the count it needs. *)
Definition line : Type := bytes * field * Z.
Definition l_octets (l : line) : bytes := l.1.1.
Definition l_field (l : line) : field := l.1.2.
Definition l_need (l : line) : Z := l.2.

(** [needs] tells the dynamic reference too: the entry before it. *)
Definition needed (ls : list line) : Z := foldr (λ l n, Z.max (l_need l) n) 0 ls.

Definition line_ok (base : Z) (h : list field) (l : line) : Prop :=
  l_octets l ≠ [] ∧ bytes_ok (l_octets l) ∧ 0 ≤ l_need l ≤ zlen h
  ∧ ∀ t, (0 < l_need l → get_absolute t (l_need l - 1) = zget h (l_need l - 1)) →
      reads t base (l_octets l) (l_field l) (l_need l).

Lemma idx_mid pre x post : idx (pre ++ x :: post) (Z.to_nat (zlen pre)) = x.
Proof. unfold idx, zlen. rewrite Nat2Z.id, app_nth2, Nat.sub_diag by lia. done. Qed.

(** The header tests on the first octet of an integer. *)
Lemma test_octet v p header m r : 1 ≤ p ≤ 8 → 0 ≤ v → Z.land m (2 ^ p - 1) = 0 →
  negb (Z.land header m =? 0) = r → negb (Z.land (prefix_octet v p header) m =? 0) = r.
Proof. intros Hp Hv Hm <-. by rewrite land_prefix_octet. Qed.

Ltac test_header :=
  repeat match goal with
  | |- context [negb (Z.land (prefix_octet ?v ?p ?h) ?m =? 0)] =>
      rewrite (test_octet v p h m _ ltac:(lia) ltac:(lia) eq_refl eq_refl)
  end.

Lemma idx_int pre v p header post :
  idx (pre ++ int_octets v p header ++ post) (Z.to_nat (zlen pre)) = prefix_octet v p header.
Proof. apply idx_mid. Qed.

Lemma idx_literal pre v huffman p header post :
  idx (pre ++ literal v huffman p header ++ post) (Z.to_nat (zlen pre)) = first_octet v huffman p header.
Proof. unfold literal. rewrite <- app_assoc. apply idx_mid. Qed.

(** A value string behind something. *)
Lemma read_value_at pre mid v huffman post :
  text_ok v → zlen pre + zlen mid < 2 ^ 62 →
  read_value_string (pre ++ mid ++ literal v huffman 8 0 ++ post) (zlen pre + zlen mid)
  = Ok (v, zlen pre + zlen mid + zlen (literal v huffman 8 0)).
Proof.
  intros Hv Hl. rewrite app_assoc, <- zlen_app. rewrite read_value_literal; [done|done|].
  by rewrite zlen_app.
Qed.

Lemma is_byte_lt x : (0 <=? x) && (x <? 256) = true → is_byte x.
Proof. unfold is_byte. rewrite andb_true_iff, Z.leb_le, Z.ltb_lt. done. Qed.

(** Reads the integer that starts a line. *)
Ltac read_int := rewrite decode_int by (lia || by apply is_byte_lt); cbn [map_err mbind result_bind].

(** Indexed Field Line, static. *)
Lemma reads_static t base i f : 0 ≤ i < 2 ^ 62 → static_get i = Some f →
  reads t base (int_octets i 6 0xC0) f 0.
Proof.
  intros Hi Hf pre post Hl. unfold read_field. rewrite idx_int. test_header. read_int. by rewrite Hf.
Qed.

Lemma get_base_relative_abs t base abs : 0 ≤ abs < base →
  get_base_relative t base (base - abs - 1) = get_absolute t abs.
Proof.
  intros H. unfold get_base_relative. rewrite (proj2 (Z.leb_gt _ _)) by lia. f_equal. lia.
Qed.

Lemma get_post_base_abs t base abs : 0 ≤ base ≤ abs → abs < 2 ^ 62 →
  get_post_base t base (abs - base) = get_absolute t abs.
Proof.
  intros H Ha. unfold get_post_base, checked_add64. replace (base + (abs - base)) with abs by lia.
  rewrite (proj2 (Z.leb_le _ _)); [done|]. assert (2 ^ 62 < u64_max) by done. lia.
Qed.

(** Indexed Field Line, dynamic, on either side of the Base. *)
Lemma reads_indexed t base abs f : 0 ≤ abs < base → base < 2 ^ 62 → get_absolute t abs = Some f →
  reads t base (int_octets (base - abs - 1) 6 0x80) f (abs + 1).
Proof.
  intros Ha Hb Hf pre post Hl. unfold read_field. rewrite idx_int. test_header. read_int.
  rewrite get_base_relative_abs, Hf by lia. cbn [ok_or mbind result_bind].
  by replace (base - (base - abs - 1)) with (abs + 1) by lia.
Qed.

Lemma reads_post_base t base abs f : 0 ≤ base ≤ abs → abs < 2 ^ 62 → get_absolute t abs = Some f →
  reads t base (int_octets (abs - base) 4 0x10) f (abs + 1).
Proof.
  intros Ha Hb Hf pre post Hl. unfold read_field. rewrite idx_int. test_header. read_int.
  rewrite get_post_base_abs, Hf by lia. cbn [ok_or mbind result_bind].
  by replace (base + (abs - base) + 1) with (abs + 1) by lia.
Qed.

(** Literal Field Line with a name reference: static, dynamic, post-Base. *)
Lemma reads_name_static t base i n v0 v huffman : 0 ≤ i < 2 ^ 62 → static_get i = Some (n, v0) → text_ok v →
  reads t base (int_octets i 4 0x50 ++ literal v huffman 8 0) (n, v) 0.
Proof.
  intros Hi Hf Hv pre post Hl. rewrite zlen_app in *. unfold read_field.
  rewrite <- app_assoc, idx_int. test_header. read_int.
  pose proof (zlen_nonneg (literal v huffman 8 0)).
  rewrite read_value_at by (done || lia). cbn [map_err mbind result_bind]. rewrite Hf.
  cbn [ok_or mbind result_bind]. by rewrite Z.add_assoc.
Qed.

Lemma reads_name_dynamic t base abs n v0 v huffman :
  0 ≤ abs < base → base < 2 ^ 62 → get_absolute t abs = Some (n, v0) → text_ok v →
  reads t base (int_octets (base - abs - 1) 4 0x40 ++ literal v huffman 8 0) (n, v) (abs + 1).
Proof.
  intros Ha Hb Hf Hv pre post Hl. rewrite zlen_app in *. unfold read_field.
  rewrite <- app_assoc, idx_int. test_header. read_int.
  pose proof (zlen_nonneg (literal v huffman 8 0)).
  rewrite read_value_at by (done || lia). cbn [map_err mbind result_bind].
  rewrite get_base_relative_abs, Hf by lia. cbn [ok_or mbind result_bind].
  replace (base - (base - abs - 1)) with (abs + 1) by lia. by rewrite Z.add_assoc.
Qed.

Lemma reads_name_post_base t base abs n v0 v huffman :
  0 ≤ base ≤ abs → abs < 2 ^ 62 → get_absolute t abs = Some (n, v0) → text_ok v →
  reads t base (int_octets (abs - base) 3 0x00 ++ literal v huffman 8 0) (n, v) (abs + 1).
Proof.
  intros Ha Hb Hf Hv pre post Hl. rewrite zlen_app in *. unfold read_field.
  rewrite <- app_assoc, idx_int. test_header. read_int.
  rewrite get_post_base_abs, Hf by lia. cbn [ok_or mbind result_bind].
  pose proof (zlen_nonneg (literal v huffman 8 0)).
  rewrite read_value_at by (done || lia). cbn [map_err mbind result_bind].
  replace (base + (abs - base) + 1) with (abs + 1) by lia. by rewrite Z.add_assoc.
Qed.

(** Literal Field Line with Literal Name, with the N bit or without. *)
Lemma reads_literal t base n v h1 h2 (sensitive : bool) : text_ok n → text_ok v →
  reads t base (literal n h1 4 (if sensitive then 0x30 else 0x20) ++ literal v h2 8 0) (n, v) 0.
Proof.
  intros Hn Hv pre post Hl. rewrite zlen_app in *. unfold read_field.
  set (hd := if sensitive then 0x30 else 0x20) in *.
  assert (pattern_ok 4 hd) as Hp by (unfold hd; destruct sensitive; by repeat split).
  rewrite <- app_assoc, idx_literal.
  assert (∀ m r, Z.land m 7 = 0 → (∀ h : bool, negb (Z.land (flagged h 4 hd) m =? 0) = r) →
    negb (Z.land (first_octet n h1 4 hd) m =? 0) = r) as Htest.
  { intros m r Hm Hr. unfold first_octet. apply test_octet; [lia|apply zlen_nonneg|done|apply Hr]. }
  rewrite (Htest 0x80 false), (Htest 0x40 false), (Htest 0x20 true);
    try done; try (intros [|]; unfold hd; by destruct sensitive).
  pose proof (zlen_nonneg (literal n h1 4 hd)). pose proof (zlen_nonneg (literal v h2 8 0)).
  rewrite read_string_literal by (done || lia). cbn [map_err mbind result_bind].
  rewrite read_value_at by (done || lia). cbn [map_err mbind result_bind]. by rewrite Z.add_assoc.
Qed.

(** ** Whole sections *)

Definition block_of (ls : list line) : bytes := mjoin (l_octets <$> ls).

Lemma needed_nonneg ls : 0 ≤ needed ls.
Proof.
  induction ls as [|l ls IH]; [done|]. change (needed (l :: ls)) with (Z.max (l_need l) (needed ls)). lia.
Qed.

Lemma block_of_cons l ls : block_of (l :: ls) = l_octets l ++ block_of ls.
Proof. done. Qed.

Lemma block_of_app ls ks : block_of (ls ++ ks) = block_of ls ++ block_of ks.
Proof. unfold block_of. by rewrite fmap_app, join_app. Qed.

Lemma needed_app ls ks : needed (ls ++ ks) = Z.max (needed ls) (needed ks).
Proof.
  induction ls as [|l ls IH]; cbn [app]; [pose proof (needed_nonneg ks); change (needed []) with 0; lia|].
  change (needed (l :: ?x)) with (Z.max (l_need l) (needed x)). lia.
Qed.

(** The table answers every dynamic reference of the section as the history
    does. *)
Definition serves (t : DynamicTable) (h : list field) (ls : list line) : Prop :=
  ∀ l, l ∈ ls → 0 < l_need l → get_absolute t (l_need l - 1) = zget h (l_need l - 1).

(** Nothing over the decoder's limits. *)
Definition within (budget : option Z) (count size : Z) (fs : list field) : Prop :=
  count + zlen fs ≤ MAX_FIELDS_PER_SECTION ∧ size + sizes fs ≤ usize_max
  ∧ match budget with Some limit => size + sizes fs ≤ limit | None => True end.

Lemma within_cons budget n size f fs : within budget n size (f :: fs) →
  n < MAX_FIELDS_PER_SECTION ∧ saturating_add64 size (esize f) = size + esize f
  ∧ match budget with Some limit => size + esize f ≤ limit | None => True end
  ∧ within budget (n + 1) (size + esize f) fs.
Proof.
  unfold within, saturating_add64. rewrite zlen_cons. cbn [sizes]. pose proof (zlen_nonneg fs).
  pose proof (esizes_nonneg fs). intros (H1 & H2 & H3). split_and!; try lia; destruct budget; lia || done.
Qed.

Lemma decode_lines t base h ls : ∀ fuel pre budget hs need size,
  Forall (line_ok base h) ls → serves t h ls → 0 ≤ need →
  (length (block_of ls) ≤ fuel)%nat → zlen pre + zlen (block_of ls) < 2 ^ 62 →
  within budget (zlen hs) size (l_field <$> ls) →
  decode_fields fuel t budget base (pre ++ block_of ls) (zlen pre) hs need size
  = Ok (hs ++ (l_field <$> ls), Z.max need (needed ls), size + sizes (l_field <$> ls)).
Proof.
  induction ls as [|l ls IH]; intros fuel pre budget hs need size Hls Hs Hn Hf Hl Hw.
  { change (block_of []) with (@nil Z). rewrite !app_nil_r. change (needed []) with 0.
    change (sizes (l_field <$> [])) with 0. rewrite Z.add_0_r, Z.max_l by done.
    destruct fuel; cbn [decode_fields]; by rewrite (proj2 (Z.leb_le (zlen pre) (zlen pre))) by lia. }
  apply Forall_cons in Hls as [(Hne & Hok & Hneed & Hr) Hls]. rewrite block_of_cons in *.
  rewrite length_app in Hf. rewrite zlen_app in Hl. rewrite fmap_cons in *. cbn [sizes].
  assert (length (l_octets l) ≠ 0)%nat as Hne' by (by destruct (l_octets l)).
  destruct fuel as [|fuel]; [lia|]. cbn [decode_fields].
  pose proof (zlen_nonneg (block_of ls)). pose proof (zlen_nonneg pre).
  rewrite (proj2 (Z.leb_gt _ (zlen pre))) by (rewrite !zlen_app; unfold zlen in *; lia).
  rewrite (Hr t) by (try (apply Hs; by left); lia). cbn [mbind result_bind].
  apply within_cons in Hw as (Hc & Hsat & Hlim & Hw).
  change (zlen (l_field l).1 + zlen (l_field l).2 + FIELD_OVERHEAD) with (esize (l_field l)). rewrite Hsat.
  assert (match budget with Some limit => limit <? size + esize (l_field l) | None => false end = false) as ->.
  { destruct budget; [|done]. by apply Z.ltb_ge. }
  rewrite (proj2 (Z.leb_gt MAX_FIELDS_PER_SECTION _)) by done. cbn [fail_if mbind result_bind].
  rewrite app_assoc, <- zlen_app, IH; try done; try lia.
  - change (needed (l :: ls)) with (Z.max (l_need l) (needed ls)).
    rewrite <- app_assoc, Z.max_assoc, Z.add_assoc. done.
  - intros k Hk. apply Hs. by right.
  - rewrite zlen_app. lia.
  - rewrite zlen_app. exact Hw.
Qed.

(** *** The prefix *)

(** The Required Insert Count survives the wrap-around: it is recovered by a
    decoder that is within [max_entries] insertions of it. *)
Lemma required_insert_count_wrap mc ins ric :
  let m := mc / 32 in
  0 < m → 0 < ric → ins - m < ric ≤ ins + m →
  required_insert_count mc ins (ric mod (2 * m) + 1) = Ok ric.
Proof.
  intros m Hm Hr Hi. unfold required_insert_count. fold m.
  pose proof (Z.mod_pos_bound ric (2 * m) ltac:(lia)) as Hmod.
  rewrite (proj2 (Z.eqb_neq (ric mod (2 * m) + 1) 0)), (proj2 (Z.eqb_neq m 0)) by lia. cbn [orb].
  rewrite (proj2 (Z.ltb_ge (2 * m) _)) by lia.
  pose proof (Z.div_mod ric (2 * m) ltac:(lia)) as Hd. pose proof (Z.div_mod (ins + m) (2 * m) ltac:(lia)) as Hd2.
  pose proof (Z.mod_pos_bound (ins + m) (2 * m) ltac:(lia)) as Hmod2.
  set (q := ric / (2 * m)) in *. set (q2 := (ins + m) / (2 * m)) in *.
  set (r := ric mod (2 * m)) in *. set (r2 := (ins + m) mod (2 * m)) in *.
  assert (q2 = q ∨ q2 = q + 1) as Hq by nia.
  assert ((if ins + m <? q2 * (2 * m) + (r + 1) - 1
           then if q2 * (2 * m) + (r + 1) - 1 <=? 2 * m then Err DecompressionFailed
                else Ok (q2 * (2 * m) + (r + 1) - 1 - 2 * m)
           else Ok (q2 * (2 * m) + (r + 1) - 1)) = (Ok ric : result QpackError Z)) as Hw.
  { destruct (Z.ltb_spec (ins + m) (q2 * (2 * m) + (r + 1) - 1)).
    - destruct Hq as [->| ->]; [nia|]. rewrite (proj2 (Z.leb_gt _ (2 * m))) by nia. f_equal. nia.
    - destruct Hq as [->| ->]; f_equal; nia. }
  replace (q2 * (2 * m) + (r + 1) - 1) with (q2 * (2 * m) + (r + 1) - 1) in Hw by lia.
  rewrite Hw. cbn [mbind result_bind]. by rewrite (proj2 (Z.eqb_neq ric 0)) by lia.
Qed.

Definition base_octets (ric base : Z) : bytes :=
  if ric <=? base then int_octets (base - ric) 7 0 else int_octets (ric - base - 1) 7 0x80.

Lemma read_prefix_octets mc ins enc ric base post :
  0 ≤ enc < 2 ^ 62 → 0 ≤ ric < 2 ^ 62 → 0 ≤ base < 2 ^ 62 → required_insert_count mc ins enc = Ok ric →
  read_prefix mc ins (int_octets enc 8 0 ++ base_octets ric base ++ post)
  = Ok (ric, base, zlen (int_octets enc 8 0 ++ base_octets ric base)).
Proof.
  intros He Hr Hb Hric. assert (2 ^ 62 + 2 ^ 62 < u64_max) as Hu by done. unfold read_prefix.
  change (head (int_octets enc 8 0 ++ base_octets ric base ++ post)) with (Some (prefix_octet enc 8 0)).
  cbn [ok_or mbind result_bind].
  pose proof (decode_int [] (base_octets ric base ++ post) enc 8 0 ltac:(lia) He ltac:(done)) as H1.
  change (zlen [] + 1) with 1 in H1. cbn [app] in H1. rewrite H1. clear H1.
  cbn [map_err mbind result_bind]. rewrite Hric. cbn [mbind result_bind].
  set (io := int_octets enc 8 0). change (zlen [] + zlen io) with (zlen io). unfold base_octets.
  destruct (Z.leb_spec ric base) as [Hle|Hgt].
  - change (zget (io ++ int_octets (base - ric) 7 0 ++ post) (zlen io))
      with (zget (io ++ prefix_octet (base - ric) 7 0 :: (continuation (base - ric) 7 ++ post)) (zlen io)).
    rewrite zget_head. cbn [ok_or mbind result_bind]. read_int. test_header.
    unfold checked_add64. rewrite (proj2 (Z.leb_le _ u64_max)) by lia. cbn [ok_or mbind result_bind].
    rewrite zlen_app. by replace (ric + (base - ric)) with base by lia.
  - change (zget (io ++ int_octets (ric - base - 1) 7 0x80 ++ post) (zlen io))
      with (zget (io ++ prefix_octet (ric - base - 1) 7 0x80 :: (continuation (ric - base - 1) 7 ++ post)) (zlen io)).
    rewrite zget_head. cbn [ok_or mbind result_bind]. read_int. test_header.
    rewrite (proj2 (Z.leb_le _ ric)) by lia. cbn [ok_or mbind result_bind].
    rewrite zlen_app. by replace (ric - (ric - base - 1 + 1)) with base by lia.
Qed.

(** The wrapped insert count that [encode_prefix] writes. *)
Definition wrapped (mc ric : Z) : Z :=
  if (ric =? 0) || (mc / 32 =? 0) then 0 else ric mod (2 * (mc / 32)) + 1.

Lemma required_wrapped mc ins ric : 0 ≤ mc → 0 ≤ ric →
  (0 < ric → ins - mc / 32 < ric ≤ ins + mc / 32) →
  required_insert_count mc ins (wrapped mc ric) = Ok ric.
Proof.
  intros Hmc Hr Hi. unfold wrapped. destruct (Z.eqb_spec ric 0) as [->|Hne]; [done|].
  destruct (Z.eqb_spec (mc / 32) 0) as [E|]; [specialize (Hi ltac:(lia)); lia|]. cbn [orb].
  pose proof (Z.div_pos mc 32 Hmc ltac:(lia)). apply required_insert_count_wrap; lia.
Qed.

(** A whole section: prefix and lines. *)
Definition section_octets (mc base : Z) (ls : list line) : bytes :=
  int_octets (wrapped mc (needed ls)) 8 0 ++ base_octets (needed ls) base ++ block_of ls.

(** The decoder is close enough to recover the count. *)
Definition in_range (mc ins ric : Z) : Prop := 0 < ric → ins - mc / 32 < ric ≤ ins + mc / 32.

Record section_ok (mc base : Z) (h : list field) (ls : list line) : Prop := MkSectionOk {
  so_capacity : 0 ≤ mc < 2 ^ 60;
  so_base : 0 ≤ base < 2 ^ 62;
  so_history : zlen h < 2 ^ 62;
  so_lines : Forall (line_ok base h) ls;
  so_length : zlen (section_octets mc base ls) < 2 ^ 62;
}.

Lemma needed_bound base h ls : Forall (line_ok base h) ls → 0 ≤ needed ls ≤ zlen h.
Proof.
  induction 1 as [|l ls (_ & _ & Hn & _) _ IH]; [pose proof (zlen_nonneg h); change (needed []) with 0; lia|].
  change (needed (l :: ls)) with (Z.max (l_need l) (needed ls)). lia.
Qed.

Lemma wrapped_bound mc ric : 0 ≤ mc < 2 ^ 60 → 0 ≤ wrapped mc ric < 2 ^ 62.
Proof.
  intros Hm. unfold wrapped. destruct ((ric =? 0) || (mc / 32 =? 0)) eqn:E; [done|].
  apply orb_false_iff in E as [_ E%Z.eqb_neq].
  assert (0 < mc / 32 < 2 ^ 60) as Hd by dlia.
  pose proof (Z.mod_pos_bound ric (2 * (mc / 32)) ltac:(lia)).
  change (2 ^ 60) with 1152921504606846976 in *. change (2 ^ 62) with 4611686018427387904. lia.
Qed.

Lemma read_prefix_section mc base h ls ins : section_ok mc base h ls → in_range mc ins (needed ls) →
  read_prefix mc ins (section_octets mc base ls)
  = Ok (needed ls, base, zlen (int_octets (wrapped mc (needed ls)) 8 0 ++ base_octets (needed ls) base)).
Proof.
  intros [Hm Hb Hh Hl Hlen] Hr. pose proof (needed_bound base h ls Hl).
  apply read_prefix_octets; [by apply wrapped_bound|lia|done|].
  apply required_wrapped; lia || done.
Qed.

Lemma decode_ready_section mc base h ls t budget :
  section_ok mc base h ls → in_range mc (inserted t) (needed ls) → serves t h ls →
  within budget 0 0 (l_field <$> ls) →
  decode_ready t mc (section_octets mc base ls) budget = Ok (l_field <$> ls, sizes (l_field <$> ls)).
Proof.
  intros Hok Hr Hs Hw. unfold decode_ready.
  rewrite (read_prefix_section mc base h ls) by done. cbn [mbind result_bind].
  destruct Hok as [Hm Hb Hh Hl Hlen]. pose proof (needed_bound base h ls Hl).
  unfold section_octets in *. rewrite app_assoc in *. rewrite zlen_app in Hlen.
  rewrite (decode_lines t base h ls); try done.
  - cbn [mbind result_bind app]. rewrite Z.max_r, Z.eqb_refl by lia. cbn [negb fail_if mbind result_bind].
    by rewrite Z.add_0_l.
  - rewrite length_app. lia.
Qed.
