(* ===== verification/QpackStream.v ===== *)
(** * The QPACK encoder stream, from one table to the other

    The instructions that the encoder writes while it encodes field sections,
    what they do to a dynamic table, and the decoder's reading of them in
    chunks of any size. *)

From S2P Require Import Prelude Integer HuffmanTable Huffman QpackTable QpackString QpackDecoder.

(** Set Dynamic Table Capacity and Insert with Literal Name. *)
Inductive instr : Type :=
| SetCap (c : Z)
| Insert (f : field).

Definition apply (t : DynamicTable) (i : instr) : DynamicTable :=
  match i with
  | SetCap c => set_capacity t c
  | Insert f => default t (insert t f.1 f.2)
  end.

Definition apply_all (t : DynamicTable) (js : list instr) : DynamicTable := foldl apply t js.

Definition inserts (js : list instr) : list field :=
  omap (λ i, match i with SetCap _ => None | Insert f => Some f end) js.

(** The octets of an instruction. *)
Inductive writes : bytes → instr → Prop :=
| writes_cap c : 0 ≤ c < 2 ^ 60 → writes (int_octets c 5 0x20) (SetCap c)
| writes_insert n v h1 h2 : text_ok n → text_ok v →
    zlen (body n h1) ≤ zlen n → zlen (body v h2) ≤ zlen v →
    writes (literal n h1 6 0x40 ++ literal v h2 8 0) (Insert (n, v)).

Definition weight (i : instr) : Z := match i with SetCap _ => 12 | Insert f => esize f end.

Lemma writes_facts o i : writes o i → bytes_ok o ∧ 0 < zlen o ≤ weight i.
Proof.
  assert (pattern_ok 6 0x40 ∧ pattern_ok 8 0) as [P6 P8] by (by repeat split).
  destruct 1 as [c Hc|n v h1 h2 Hn Hv Ln Lv].
  - assert (2 ^ 60 < 2 ^ 64) by done. split; [apply int_octets_ok; [lia|lia|done]|].
    pose proof (int_octets_len c 5 0x20). cbn [weight]. lia.
  - split; [apply Forall_app; split; by apply literal_octets_ok|]. rewrite zlen_app.
    pose proof (literal_len n h1 6 0x40 Ln). pose proof (literal_len v h2 8 0 Lv).
    destruct (literal_cons n h1 6 0x40) as [t E]. rewrite E in *. rewrite zlen_cons in *.
    pose proof (zlen_nonneg t). pose proof (zlen_nonneg (literal v h2 8 0)).
    unfold weight, esize, entry_size. cbn [fst snd]. lia.
Qed.

(** ** Complete instructions are recognised, and only those *)

Lemma encoder_instruction_len_octets o i post : writes o i → bytes_ok post →
  encoder_instruction_len (o ++ post) = Some (zlen o).
Proof.
  assert (pattern_ok 6 0x40 ∧ pattern_ok 8 0) as [P6 P8] by (by repeat split).
  intros Hw Hp. destruct Hw as [c Hc|n v h1 h2 Hn Hv Ln Lv].
  - assert (2 ^ 60 < 2 ^ 62) by done. unfold encoder_instruction_len.
    change (head (int_octets c 5 32 ++ post)) with (Some (prefix_octet c 5 32)). cbn [mbind option_bind].
    rewrite land_prefix_octet by (lia || done). change (Z.land 32 0xC0) with 0. cbv iota.
    apply encoded_len_int; [lia|lia|done|done].
  - unfold encoder_instruction_len. destruct (literal_cons n h1 6 64) as [t E].
    rewrite <- app_assoc. rewrite E at 1. cbn [app head mbind option_bind].
    assert (Z.land (first_octet n h1 6 64) 0xC0 = 0x40) as ->.
    { unfold first_octet. rewrite land_prefix_octet by (lia || done || apply zlen_nonneg). by destruct h1. }
    cbv iota. rewrite string_len_literal; try done.
    2:{ apply Forall_app. split; [by apply literal_octets_ok|done]. }
    cbn [mbind option_bind]. rewrite drop_app_length' by (unfold zlen; lia).
    rewrite string_len_literal by done. cbn [mbind option_bind]. by rewrite zlen_app.
Qed.

(** A value string behind the first part of an instruction. *)
Definition value_after (l : bytes) (n : Z) : option Z :=
  vl ← string_len (drop (Z.to_nat n) l) 8; Some (n + vl).

Lemma value_after_app l k i n : i ≤ zlen l → value_after l i = Some n →
  value_after (l ++ k) i = Some n ∧ n ≤ zlen l.
Proof.
  intros Hi. unfold value_after. unfold zlen in Hi. rewrite drop_app_le by lia.
  destruct (string_len (drop _ l) 8) as [vl|] eqn:E; [|done].
  rewrite (string_len_app _ k _ _ E). apply string_len_bounds in E. cbn. intros [= <-]. split; [done|].
  unfold zlen in *. rewrite length_drop in E. lia.
Qed.

Lemma encoder_instruction_len_app l k n :
  encoder_instruction_len l = Some n → encoder_instruction_len (l ++ k) = Some n ∧ n ≤ zlen l.
Proof.
  destruct l as [|x l]; [done|]. unfold encoder_instruction_len. cbn [app head mbind option_bind].
  set (m := x :: l). change (x :: l ++ k) with (m ++ k).
  assert (∀ o o' : option Z, (∀ i, o = Some i → o' = Some i ∧ i ≤ zlen m) →
    o ≫= value_after m = Some n → o' ≫= value_after (m ++ k) = Some n ∧ n ≤ zlen m) as Hv.
  { intros [i|] o' Ho; [|done]. destruct (Ho i eq_refl) as [-> Hi]. by apply value_after_app. }
  pose proof (Hv _ _ (λ i E, conj (encoded_len_app m k 6 i E) (proj2 (encoded_len_range m 6 i E)))) as Hi.
  pose proof (Hv _ _ (λ i E, conj (string_len_app m k 6 i E) (string_len_bounds m 6 i E))) as Hs.
  pose proof (λ E, conj (encoded_len_app m k 5 n E) (proj2 (encoded_len_range m 5 n E))) as H5.
  unfold value_after in *. cbn [mbind option_bind] in *.
  repeat (case_match; try done; auto).
Qed.

(** A proper part of an instruction is left for later. *)
Lemma part_incomplete o i p q : writes o i → o = p ++ q → q ≠ [] →
  encoder_instruction_len p = None.
Proof.
  intros Hw -> Hq. destruct (encoder_instruction_len p) as [n|] eqn:E; [|done].
  pose proof (encoder_instruction_len_octets _ _ [] Hw ltac:(done)) as E2. rewrite app_nil_r in E2.
  destruct (encoder_instruction_len_app p q n E) as [E3 Hle]. rewrite E2 in E3. injection E3 as <-.
  rewrite zlen_app in Hle. destruct q; [done|]. rewrite zlen_cons in Hle. zlia.
Qed.

(** ** What the encoder may write *)

(** A table on the way through the history [h]. *)
Record tracks (mc : Z) (t : DynamicTable) (h : list field) : Prop := MkTracks {
  tr_ok : table_ok t;
  tr_window : window t h;
  tr_capacity : 0 ≤ capacity t ≤ mc;
}.

(** Every instruction is acceptable to a decoder that has [known] insertions:
    the capacity is raised to the maximum, entries fit, and only entries below
    [known] are evicted. *)
Fixpoint feasible (mc known : Z) (t : DynamicTable) (js : list instr) : Prop :=
  match js with
  | [] => True
  | i :: js =>
      match i with
      | SetCap c => capacity t < c ∧ c = mc
      | Insert f => esize f ≤ capacity t ∧ dropped t + would_evict t (esize f) ≤ known
      end ∧ feasible mc known (apply t i) js
  end.

Lemma feasible_app mc known t js ks :
  feasible mc known t (js ++ ks) ↔ feasible mc known t js ∧ feasible mc known (apply_all t js) ks.
Proof.
  revert t. induction js as [|i js IH]; intros t; cbn [app feasible]; [unfold apply_all; cbn; tauto|].
  rewrite IH. unfold apply_all. cbn [foldl]. tauto.
Qed.

Lemma feasible_mono mc known known' t js : known ≤ known' → feasible mc known t js → feasible mc known' t js.
Proof.
  intros Hk. revert t. induction js as [|[c|f] js IH]; intros t; cbn [feasible]; [done| |]; intros [H1 H2];
    (split; [lia|by apply IH]).
Qed.

Lemma apply_all_app t js ks : apply_all t (js ++ ks) = apply_all (apply_all t js) ks.
Proof. apply foldl_app. Qed.

Lemma apply_all_cons t i js : apply_all t (i :: js) = apply_all (apply t i) js.
Proof. done. Qed.

Lemma raise_evicts_nothing t c : table_ok t → capacity t ≤ c → evict_for_capacity t c = 0.
Proof.
  intros [Hp Hs] Hc. rewrite evict_for_capacity_spec, newest_all; [unfold len; lia|].
  rewrite <- (pre_size t Hp). lia.
Qed.

Lemma would_evict_nonneg t sz : table_ok t → 0 ≤ would_evict t sz.
Proof.
  intros Ht. rewrite would_evict_spec by done. unfold len.
  pose proof (zlen_prefix _ _ (newest_prefix (capacity t - sz) (entries t))). lia.
Qed.

Lemma apply_step mc known t i js h : tracks mc t h → feasible mc known t (i :: js) →
  tracks mc (apply t i) (h ++ inserts [i]) ∧ dropped t ≤ dropped (apply t i)
  ∧ (dropped t ≤ known → dropped (apply t i) ≤ known) ∧ capacity t ≤ capacity (apply t i).
Proof.
  intros [Hok Hw Hc] [Hf _]. destruct i as [c|[n v]]; cbn [apply inserts omap list_omap fst snd] in *.
  - destruct Hf as [Hlt ->]. destruct (window_set_capacity t mc h (proj1 Hok) ltac:(lia) Hw) as [Hw' Hd].
    rewrite raise_evicts_nothing in Hd by (done || lia).
    destruct (set_capacity_spec t mc (proj1 Hok) ltac:(lia)) as (Hok' & _ & Hc' & _).
    rewrite app_nil_r. split; [split; [done|done|lia]|lia].
  - destruct Hf as [Hfit Hev]. destruct (window_insert t n v h Hok Hw Hfit) as (t' & E & Hok' & Hw' & _ & Hd & Hc' & _).
    rewrite E. change (default t (Some t')) with t'. pose proof (would_evict_nonneg t (esize (n, v)) Hok).
    split; [split; [done|done|lia]|lia].
Qed.

Lemma inserts_cons i js : inserts (i :: js) = inserts [i] ++ inserts js.
Proof. by destruct i. Qed.

Lemma inserts_app js ks : inserts (js ++ ks) = inserts js ++ inserts ks.
Proof. unfold inserts. apply omap_app. Qed.

Lemma apply_all_steps mc known js : ∀ t h, tracks mc t h → feasible mc known t js →
  tracks mc (apply_all t js) (h ++ inserts js) ∧ dropped t ≤ dropped (apply_all t js)
  ∧ (dropped t ≤ known → dropped (apply_all t js) ≤ known) ∧ capacity t ≤ capacity (apply_all t js).
Proof.
  induction js as [|i js IH]; intros t h Ht Hf; [cbn; rewrite app_nil_r; tauto || (split; [done|lia])|].
  destruct (apply_step mc known t i js h Ht Hf) as (Ht' & Hd & Hk & Hc).
  destruct (IH _ _ Ht' (proj2 Hf)) as (Ht2 & Hd2 & Hk2 & Hc2).
  rewrite inserts_cons, app_assoc, apply_all_cons. split; [done|]. split; [lia|]. split; [tauto|lia].
Qed.

(** *** Tables that differ in their maps only *)

Definition same (t u : DynamicTable) : Prop :=
  entries t = entries u ∧ capacity t = capacity u ∧ inserted t = inserted u.

#[global] Instance same_refl : Reflexive same.
Proof. intros t. done. Qed.
#[global] Instance same_trans : Transitive same.
Proof. intros t u v (H1 & H2 & H3) (H4 & H5 & H6). repeat split; congruence. Qed.

Lemma same_facts t u : same t u → table_ok t → table_ok u →
  dropped t = dropped u ∧ (∀ sz, would_evict t sz = would_evict u sz) ∧ (∀ a, get_absolute t a = get_absolute u a).
Proof.
  intros (H1 & H2 & H3) Ht Hu. unfold dropped, len. rewrite H1, H3. split; [done|]. split.
  - intros sz. rewrite !would_evict_spec by done. unfold len. by rewrite H1, H2.
  - intros a. unfold get_absolute, last_absolute, entry_at. by rewrite H1, H3.
Qed.

Lemma apply_same mc known t u h i js : same t u → tracks mc t h → tracks mc u h → feasible mc known t (i :: js) →
  same (apply t i) (apply u i).
Proof.
  intros (H1 & H2 & H3) [Ht _ Hc] [Hu _ Hc'] [Hf _]. destruct i as [c|[n v]]; cbn [apply fst snd].
  - destruct Hf as [Hlt ->].
    destruct (set_capacity_spec t mc (proj1 Ht) ltac:(lia)) as (_ & E1 & E2 & E3 & _).
    destruct (set_capacity_spec u mc (proj1 Hu) ltac:(lia)) as (_ & F1 & F2 & F3 & _). repeat split; congruence.
  - destruct (insert_spec t n v Ht (proj1 Hf)) as (t' & -> & _ & E1 & E2 & E3 & _).
    destruct (insert_spec u n v Hu ltac:(rewrite <- H2; apply Hf)) as (u' & -> & _ & F1 & F2 & F3 & _).
    cbn. repeat split; congruence.
Qed.

Lemma apply_all_same mc known js : ∀ t u h, same t u → tracks mc t h → tracks mc u h → feasible mc known t js →
  same (apply_all t js) (apply_all u js) ∧ feasible mc known u js.
Proof.
  induction js as [|i js IH]; intros t u h Hs Ht Hu Hf; [done|].
  pose proof (apply_same mc known t u h i js Hs Ht Hu Hf) as Hs'.
  destruct (same_facts t u Hs (tr_ok _ _ _ Ht) (tr_ok _ _ _ Hu)) as (Hd & He & _).
  assert (match i with
      | SetCap c => capacity u < c ∧ c = mc
      | Insert f => esize f ≤ capacity u ∧ dropped u + would_evict u (esize f) ≤ known
      end) as Hi.
  { rewrite <- Hd. destruct Hs as (_ & E & _). destruct i; rewrite <- E, <- ?He; apply Hf. }
  destruct (apply_step mc known t i js h Ht Hf) as (Ht' & _).
  destruct (apply_step mc known u i [] h Hu (conj Hi I)) as (Hu' & _).
  destruct (IH _ _ _ Hs' Ht' Hu' (proj2 Hf)) as [H1 H2]. split; [done|by split].
Qed.

(** ** The decoder reads them *)

Lemma read_first_literal n huffman p header post : text_ok n → pattern_ok p header →
  read_string (literal n huffman p header ++ post) 1 p (idx (literal n huffman p header ++ post) 0)
  = Ok (n, zlen (literal n huffman p header)).
Proof.
  intros Hn Hp. pose proof (read_string_literal [] n huffman p header post Hn Hp ltac:(done)) as H.
  destruct (literal_cons n huffman p header) as [t E]. rewrite E in *. exact H.
Qed.

Lemma table_instruction_writes mc known t h o i : writes o i → tracks mc t h → 0 ≤ known →
  feasible mc known t [i] → table_instruction mc known t o = Ok (apply t i).
Proof.
  assert (pattern_ok 6 0x40 ∧ pattern_ok 8 0) as [P6 P8] by (by repeat split).
  intros Hw [Hok Hwin Hc] Hk [Hf _]. destruct Hw as [c Hr|n v h1 h2 Hn Hv Ln Lv]; unfold table_instruction.
  - assert (2 ^ 60 < 2 ^ 62) by done. destruct Hf as [Hlt ->].
    change (idx (int_octets mc 5 32) 0) with (prefix_octet mc 5 32).
    rewrite land_prefix_octet by (lia || done). change (Z.land 32 0xC0) with 0. cbv iota.
    rewrite land_prefix_octet by (lia || done). change (negb (Z.land 32 32 =? 0)) with true. cbv iota.
    pose proof (decode_int [] [] mc 5 32 ltac:(lia) ltac:(lia) ltac:(done)) as Hd.
    rewrite app_nil_r in Hd. cbn [app] in Hd. change (zlen [] + 1) with 1 in Hd.
    rewrite Hd. cbn [map_err mbind result_bind]. rewrite Z.ltb_irrefl. cbn [fail_if mbind result_bind].
    rewrite raise_evicts_nothing by (done || lia). rewrite (proj2 (Z.ltb_ge known 0)) by lia. done.
  - destruct Hf as [Hfit Hev].
    assert (Z.land (idx (literal n h1 6 64 ++ literal v h2 8 0) 0) 0xC0 = 0x40) as ->.
    { change (idx _ 0) with (first_octet n h1 6 64). unfold first_octet.
      rewrite land_prefix_octet by (lia || done || apply zlen_nonneg). by destruct h1. }
    cbv iota. rewrite read_first_literal by done. cbn [map_err mbind result_bind].
    assert (zlen (literal n h1 6 64) < 2 ^ 62) as Hl.
    { pose proof (literal_len n h1 6 64 Ln). destruct Hn as [_ Hn].
      change (2 ^ 58) with 288230376151711744 in Hn. change (2 ^ 62) with 4611686018427387904. lia. }
    pose proof (read_value_literal (literal n h1 6 64) v h2 [] Hv Hl) as Hval. rewrite app_nil_r in Hval.
    rewrite Hval. cbn [map_err mbind result_bind]. unfold insert_entry. cbv zeta.
    change (entry_size n v) with (esize (n, v)).
    assert (0 ≤ dropped t) by (pose proof (window_len t h Hwin); lia).
    rewrite (proj2 (Z.ltb_ge known _)) by lia. cbn [fail_if mbind result_bind apply fst snd].
    by destruct (insert_spec t n v Hok Hfit) as (t' & -> & _).
Qed.

(** A list of octets against the list it is a part of. *)
Lemma app_split {A} (p q o r : list A) : p ++ q = o ++ r →
  (∃ x, x ≠ [] ∧ o = p ++ x ∧ q = x ++ r) ∨ (∃ p', p = o ++ p' ∧ p' ++ q = r).
Proof.
  revert o. induction p as [|a p IH]; intros o; cbn [app].
  - intros ->. destruct o as [|b o]; [right; by exists []|left; by exists (b :: o)].
  - destruct o as [|b o]; cbn [app]; [intros <-; right; by exists (a :: p)|].
    intros [= -> H]. destruct (IH o H) as [(x & Hx & -> & ->)|(p' & -> & Hr)]; [left; by exists x|right; by exists p'].
Qed.

(** The octets read are some whole instructions, which are carried out, and a
    proper part of the next one, which waits. *)
Lemma instructions_run mc known ws : ∀ fuel t h p q,
  Forall (λ w : bytes * instr, writes w.1 w.2) ws → tracks mc t h → 0 ≤ known → feasible mc known t (ws.*2) →
  p ++ q = mjoin (ws.*1) → (length p ≤ fuel)%nat →
  ∃ done_ rest p', ws = done_ ++ rest
    ∧ instructions_loop fuel mc known t p = Ok (apply_all t (done_.*2), p')
    ∧ p' ++ q = mjoin (rest.*1) ∧ (q = [] → rest = []).
Proof.
  induction ws as [|[o i] ws IH]; intros fuel t h p q Hws Ht Hk Hf Hpq Hfuel.
  { apply app_nil in Hpq as [-> ->]. exists [], [], []. by destruct fuel. }
  apply Forall_cons in Hws as [Hw Hws]. cbn [fst snd fmap list_fmap] in *.
  change (mjoin (o :: ws.*1)) with (o ++ mjoin (ws.*1)) in Hpq.
  destruct (writes_facts o i Hw) as (Hok & Hpos & _).
  apply app_split in Hpq as [(x & Hx & -> & Hq)|(p' & -> & Hpq)].
  - exists [], ((p ++ x, i) :: ws), p. split; [done|]. split; [|split].
    + pose proof (part_incomplete _ _ p x Hw eq_refl Hx) as E. destruct fuel, p; cbn [instructions_loop]; try done.
      by rewrite E.
    + rewrite Hq. change (mjoin (((p ++ x, i) :: ws).*1)) with ((p ++ x) ++ mjoin (ws.*1)). by rewrite app_assoc.
    + intros ->. by destruct x.
  - assert (length o ≠ 0)%nat as Ho by (unfold zlen in Hpos; lia). rewrite length_app in Hfuel.
    destruct fuel as [|fuel]; [lia|].
    assert (bytes_ok p') as Hp'.
    { assert (bytes_ok (p' ++ q)) as Hb; [|by apply Forall_app in Hb as [? _]].
      rewrite Hpq. apply Forall_join, Forall_fmap.
      eapply Forall_impl; [exact Hws|]. intros w Hww. by apply writes_facts in Hww as [? _]. }
    destruct (IH fuel (apply t i) (h ++ inserts [i]) p' q) as (dn & rest & p2 & -> & E & Hr & Hn);
      try done; [by apply (apply_step mc known t i (ws.*2))|by apply Hf|lia|].
    exists ((o, i) :: dn), rest, p2. split; [done|]. split; [|done].
    destruct (o ++ p') as [|y l] eqn:El; [destruct o; [cbn in Ho; lia|discriminate El]|]. rewrite <- El. clear El y l.
    assert (instructions_loop (S fuel) mc known t (o ++ p')
      = instructions_loop fuel mc known (apply t i) p') as ->; [|exact E].
    assert (o ++ p' ≠ []) as Hne by (destruct o; [cbn in Ho; lia|done]).
    cbn [instructions_loop]. rewrite (encoder_instruction_len_octets o i p' Hw Hp').
    rewrite zlen_app. pose proof (zlen_nonneg p'). rewrite (proj2 (Z.ltb_ge _ (zlen o))) by lia.
    rewrite take_app_length', drop_app_length' by (unfold zlen; lia).
    rewrite (table_instruction_writes mc known t h o i); [|done..|by split; [apply Hf|]].
    by destruct (o ++ p').
Qed.

(** ** Octets that wait fit the decoder's buffer *)

Definition weights (js : list instr) : Z := foldr (λ i n, weight i + n) 0 js.

Lemma octets_weights ws : Forall (λ w : bytes * instr, writes w.1 w.2) ws → zlen (mjoin (ws.*1)) ≤ weights (ws.*2).
Proof.
  induction 1 as [|[o i] ws Hw _ IH]; [done|]. cbn [fmap list_fmap fst snd] in *.
  change (mjoin (o :: ws.*1)) with (o ++ mjoin (ws.*1)). rewrite zlen_app.
  apply writes_facts in Hw as (_ & _ & Hle). unfold weights in *. cbn [foldr]. lia.
Qed.

(** The capacity is raised at most once. *)
Lemma weights_inserts mc known js : ∀ t h, tracks mc t h → feasible mc known t js →
  weights js ≤ (if capacity t <? mc then 12 else 0) + sizes (inserts js).
Proof.
  induction js as [|i js IH]; intros t h Ht Hf; [cbn; destruct (capacity t <? mc); lia|].
  destruct (apply_step mc known t i js h Ht Hf) as (Ht' & _ & _ & Hcap).
  pose proof (IH _ _ Ht' (proj2 Hf)) as IHt. unfold weights in *. cbn [foldr]. rewrite inserts_cons, esizes_app.
  destruct Hf as [Hi _], Ht as [Hok Hw Hc]. destruct i as [c|f]; cbn [inserts omap list_omap sizes weight].
  - destruct Hi as [Hlt ->]. rewrite (proj2 (Z.ltb_lt (capacity t) mc)) by done.
    assert (capacity (apply t (SetCap mc)) = mc) as E.
    { by destruct (set_capacity_spec t mc (proj1 Hok) ltac:(lia)) as (_ & _ & ? & _). }
    rewrite E, Z.ltb_irrefl in IHt. lia.
  - destruct (Z.ltb_spec (capacity t) mc), (Z.ltb_spec (capacity (apply t (Insert f))) mc); lia.
Qed.

Lemma sizes_prefix l k : l `prefix_of` k → sizes l ≤ sizes k.
Proof. intros [x ->]. rewrite esizes_app. pose proof (esizes_nonneg x). lia. Qed.

Lemma sizes_rev l : sizes (rev l) = sizes l.
Proof. induction l as [|e l IH]; [done|]. cbn [rev]. rewrite esizes_app. cbn [sizes]. lia. Qed.

(** Everything that was inserted and is not evicted fits the capacity. *)
Lemma window_sizes mc t h k : tracks mc t (h ++ k) → dropped t ≤ zlen h → sizes k ≤ mc.
Proof.
  intros [[Hp Hs] Hw Hc] Hd. pose proof (window_len t _ Hw) as (_ & Hlen & Hi). destruct Hw as [_ Hpre].
  rewrite zlen_app in Hi. rewrite rev_app_distr in Hpre. unfold len in Hlen.
  transitivity (sizes (entries t)); [|rewrite <- (pre_size t Hp); lia].
  rewrite <- sizes_rev. apply sizes_prefix.
  destruct (prefix_weak_total _ (rev k) _ Hpre ltac:(by apply prefix_app_r)) as [Hle|Hle]; [|done].
  rewrite (prefix_length_eq _ _ Hle); [done|]. rewrite length_rev. unfold zlen in *. lia.
Qed.

Lemma stream_fits mc known ws t h : Forall (λ w : bytes * instr, writes w.1 w.2) ws → tracks mc t h →
  feasible mc known t (ws.*2) → dropped (apply_all t (ws.*2)) ≤ zlen h →
  zlen (mjoin (ws.*1)) ≤ mc + 12.
Proof.
  intros Hws Ht Hf Hd. pose proof (octets_weights ws Hws).
  pose proof (weights_inserts mc known _ t h Ht Hf).
  destruct (apply_all_steps mc known _ t h Ht Hf) as (Ht' & _).
  pose proof (window_sizes mc _ h _ Ht' Hd). destruct (capacity t <? mc); lia.
Qed.
