(* ===== verification/QpackSections.v ===== *)
(** * What the QPACK encoder makes of a field section

    [encode_section_with_base] as a whole: the block is a list of field lines
    that every up-to-date decoder reads back, the encoder stream is a list of
    instructions that lead the decoder's table after the encoder's, and nothing
    that an unacknowledged section refers to is evicted. *)

From S2P Require Import Prelude Integer HuffmanTable Huffman QpackTable QpackString QpackEncoder QpackLines QpackStream.

(** A header the model of the strings covers: octets, less than 2^58 of them. *)
Definition header_ok (f : field) : Prop := text_ok f.1 ∧ text_ok f.2.

(** The encoder has the newest part of the history [h], and has dropped
    neither what the decoder may not have nor what sections refer to. *)
Record enc_ok (e : Encoder) (h : list field) : Prop := MkEncOk {
  eo_tracks : tracks (max_capacity e) (dynamic e) h;
  eo_capacity : 0 ≤ max_capacity e < 2 ^ 60;
  eo_known : 0 ≤ known_received e ≤ zlen h;
  eo_min : cached_min_pending e = min_pending (pending_refs e);
  eo_floor : dropped (dynamic e) ≤ evictable_floor e;
}.

Lemma min_pending_max refs : min_pending refs ≤ u64_max.
Proof. unfold min_pending. induction refs as [|r refs IH]; cbn; lia. Qed.

(** ** Lines *)

Definition short (l : line) : Prop := zlen (l_octets l) ≤ esize (l_field l).

Lemma line_ok_grow base h x l : line_ok base h l → line_ok base (h ++ x) l.
Proof.
  intros (H1 & H2 & H3 & H4). pose proof (zlen_nonneg x). unfold line_ok. rewrite zlen_app.
  split; [done|]. split; [done|]. split; [lia|]. intros t Ht. apply H4. intros Hpos.
  rewrite (Ht Hpos). apply zget_app_lt. lia.
Qed.

(** A line that refers to no entry, and one that refers to the entry at [abs]. *)
Lemma line_static base h octets f : (∀ t, reads t base octets f 0) → octets ≠ [] → bytes_ok octets →
  line_ok base h (octets, f, 0).
Proof. intros Hr Hn Ho. pose proof (zlen_nonneg h). by repeat split. Qed.

Lemma line_dynamic base h octets f abs e : 0 ≤ abs < zlen h → zget h abs = Some e →
  (∀ t, get_absolute t abs = Some e → reads t base octets f (abs + 1)) → octets ≠ [] → bytes_ok octets →
  line_ok base h (octets, f, abs + 1).
Proof.
  intros Ha He Hr Hn Ho. unfold line_ok, l_octets, l_need, l_field. cbn [fst snd].
  split; [done|]. split; [done|]. split; [lia|]. intros t Ht. apply Hr.
  specialize (Ht ltac:(lia)). replace (abs + 1 - 1) with abs in Ht by lia. by rewrite Ht.
Qed.

(** The octets of references. *)
Lemma int_piece v p header : 1 ≤ p ≤ 8 → 0 ≤ v < 2 ^ 62 → is_byte header →
  int_octets v p header ≠ [] ∧ bytes_ok (int_octets v p header) ∧ zlen (int_octets v p header) ≤ 12
  ∧ ∀ o, Integer.encode o v p header = o ++ int_octets v p header.
Proof.
  intros Hp Hv Hh. assert (2 ^ 62 < 2 ^ 64) by done. split; [done|].
  split; [apply int_octets_ok; lia || done|]. split; [apply int_octets_len|].
  intros o. apply encode_int; lia || done.
Qed.

Lemma value_piece huff v : text_ok v →
  (∀ o, push_string huff o v 8 0 = o ++ literal v (codes huff v) 8 0)
  ∧ bytes_ok (literal v (codes huff v) 8 0) ∧ zlen (literal v (codes huff v) 8 0) ≤ zlen v + 12.
Proof.
  intros Hv. assert (pattern_ok 8 0) as Hp by (by repeat split).
  split; [intros o; by apply push_string_literal; [apply Hv|]|].
  split; [by apply literal_octets_ok|]. apply literal_len, codes_body, Hv.
Qed.

(** ** The loop over the headers *)

Section Encoding.

Context (e : Encoder) (base : Z) (h0 : list field).
Hypothesis enc : enc_ok e h0.
Hypothesis base_range : 0 ≤ base ≤ zlen h0.

(** What a number of turns has done: [h] is the history now, [ws] the
    instructions written and [ls] the lines. *)
Record encoding (p : Progress) (h : list field) (ws : list (bytes * instr)) (ls : list line) : Prop := MkEncoding {
  en_table : table p = apply_all (dynamic e) (ws.*2);
  en_history : h = h0 ++ inserts (ws.*2);
  en_feasible : feasible (max_capacity e) (known_received e) (dynamic e) (ws.*2);
  en_writes : Forall (λ w : bytes * instr, writes w.1 w.2) ws;
  en_stream : stream p = mjoin (ws.*1);
  en_out : out (section p) = block_of ls;
  en_ric : ric (section p) = needed ls;
  en_lines : Forall (line_ok base h) ls;
  en_short : Forall short ls;
  en_refs : ∀ l, l ∈ ls → 0 < l_need l → ∃ m, min_rel_ref (section p) = Some m ∧ m ≤ l_need l - 1;
  en_floor : dropped (table p) ≤ Z.min (default u64_max (min_rel_ref (section p))) (evictable_floor e);
}.

Lemma encoding_tracks p h ws ls : encoding p h ws ls → tracks (max_capacity e) (table p) h.
Proof.
  intros [-> -> Hf _ _ _ _ _ _ _ _]. by apply (apply_all_steps _ (known_received e)); [apply enc|].
Qed.

Lemma encoding_start : encoding (MkProgress (dynamic e) [] (MkSection [] 0 None)) h0 [] [].
Proof.
  split; cbn; try done; [by rewrite app_nil_r| |].
  - intros l Hl. by apply not_elem_of_nil in Hl.
  - pose proof (eo_floor e h0 enc) as Hf. pose proof (eo_known e h0 enc) as Hk.
    unfold evictable_floor in *. pose proof (tr_window _ _ _ (eo_tracks e h0 enc)) as Hw.
    pose proof (min_pending_max (pending_refs e)). rewrite (eo_min e h0 enc) in *. lia.
Qed.

(** A line without reference. *)
Lemma encoding_append p h ws ls octets o f : encoding p h ws ls →
  (∀ x, octets x = x ++ o) → line_ok base h (o, f, 0) → short (o, f, 0) →
  encoding (on_section (λ s, append s octets) p) h ws (ls ++ [(o, f, 0)]).
Proof.
  intros [H1 H2 H3 H4 H5 H6 H7 H8 H9 H10 H11] Ho Hl Hs. split; cbn; try done.
  - rewrite block_of_app, Ho, H6. cbn. by rewrite app_nil_r.
  - rewrite needed_app, H7. pose proof (needed_nonneg ls). cbn. lia.
  - apply Forall_app. split; [done|by constructor].
  - apply Forall_app. split; [done|by constructor].
  - intros l [Hin|Hin]%elem_of_app Hpos; [by apply H10|]. apply list_elem_of_singleton in Hin as ->. by cbn in Hpos.
Qed.

(** A line that refers to the entry at [abs]. *)
Lemma encoding_reference p h ws ls octets o f abs : encoding p h ws ls →
  dropped (table p) ≤ abs → 0 ≤ abs →
  (∀ x, octets x = x ++ o) → line_ok base h (o, f, abs + 1) → short (o, f, abs + 1) →
  encoding (on_section (λ s, reference s abs octets) p) h ws (ls ++ [(o, f, abs + 1)]).
Proof.
  intros [H1 H2 H3 H4 H5 H6 H7 H8 H9 H10 H11] Hd Ha Ho Hl Hs. split; cbn; try done.
  - rewrite block_of_app, Ho, H6. cbn. by rewrite app_nil_r.
  - rewrite needed_app, H7. pose proof (needed_nonneg ls). cbn. lia.
  - apply Forall_app. split; [done|by constructor].
  - apply Forall_app. split; [done|by constructor].
  - intros l [Hin|Hin]%elem_of_app Hpos.
    + destruct (H10 l Hin Hpos) as (m & -> & Hm). eexists. split; [done|]. lia.
    + apply list_elem_of_singleton in Hin as ->. cbn. eexists. split; [done|]. destruct (min_rel_ref (section p)); lia.
  - destruct (min_rel_ref (section p)); cbn in *; lia.
Qed.

(** One turn adds one line for its field, and at most one entry. *)
Definition line_spec (h : list field) (ws : list (bytes * instr)) (ls : list line) (f : field)
    (p' : Progress) : Prop :=
  ∃ l, encoding p' h ws (ls ++ [l]) ∧ l_field l = f.

Definition turn_spec (h : list field) (ws : list (bytes * instr)) (ls : list line) (f : field)
    (p' : Progress) : Prop :=
  ∃ ws', line_spec (h ++ inserts (ws'.*2)) (ws ++ ws') ls f p' ∧ zlen (inserts (ws'.*2)) ≤ 1.

Lemma line_turn h ws ls f p' : line_spec h ws ls f p' → turn_spec h ws ls f p'.
Proof. intros H. exists []. cbn. by rewrite !app_nil_r. Qed.

Lemma line_of_append p h ws ls octets o f : encoding p h ws ls →
  (∀ x, octets x = x ++ o) → (∀ t, reads t base o f 0) → o ≠ [] → bytes_ok o → zlen o ≤ esize f →
  line_spec h ws ls f (on_section (λ s, append s octets) p).
Proof.
  intros He Ho Hr Hn Hb Hs. exists (o, f, 0). split; [|done].
  apply encoding_append; try done. by apply line_static.
Qed.

Lemma line_of_reference p h ws ls octets o f abs x : encoding p h ws ls →
  dropped (table p) ≤ abs < inserted (table p) → zget h abs = Some x → 0 ≤ abs →
  (∀ x, octets x = x ++ o) → (∀ t, get_absolute t abs = Some x → reads t base o f (abs + 1)) →
  o ≠ [] → bytes_ok o → zlen o ≤ esize f →
  line_spec h ws ls f (on_section (λ s, reference s abs octets) p).
Proof.
  intros He Hd Hg Ha Ho Hr Hn Hb Hs. exists (o, f, abs + 1). split; [|done].
  pose proof (encoding_tracks _ _ _ _ He) as Ht. destruct (tr_window _ _ _ Ht) as [Hi _].
  apply encoding_reference; try done; [lia|]. apply (line_dynamic base h o f abs x); try done. lia.
Qed.

(** *** The kinds of lines *)

Lemma line_of_indexed p h ws ls abs f : encoding p h ws ls → zlen h < 2 ^ 62 →
  refers (table p) h abs (λ x, x = f) →
  line_spec h ws ls f (on_section (encode_indexed abs base) p).
Proof.
  intros He Hh (Hd & x & Hx & ->). pose proof (encoding_tracks _ _ _ _ He) as Ht.
  pose proof (window_len _ _ (tr_window _ _ _ Ht)) as (Hdp & _ & Hi).
  pose proof (esize_pos f). unfold encode_indexed. destruct (Z.leb_spec base abs) as [Hle|Hgt].
  - destruct (int_piece (abs - base) 4 0x10) as (Hn & Hb & Hl & Ho); [lia..|done|].
    apply (line_of_reference p h ws ls _ (int_octets (abs - base) 4 0x10) f abs f); try done; try lia.
    intros t Hg. apply reads_post_base; lia || done.
  - assert (base < 2 ^ 62).
    { destruct He as [_ -> _ _ _ _ _ _ _ _ _]. rewrite zlen_app in *. pose proof (zlen_nonneg (inserts (ws.*2))). lia. }
    destruct (int_piece (base - abs - 1) 6 0x80) as (Hn & Hb & Hl & Ho); [lia..|done|].
    apply (line_of_reference p h ws ls _ (int_octets (base - abs - 1) 6 0x80) f abs f); try done; try lia.
    intros t Hg. apply reads_indexed; lia || done.
Qed.

Lemma app_ne {A} (l k : list A) : l ≠ [] → l ++ k ≠ [].
Proof. by destruct l. Qed.

(** A literal behind an index, for the kinds that have one. *)
Lemma literal_behind huff i p header n v : 1 ≤ p ≤ 8 → 0 ≤ i < 2 ^ 62 → is_byte header → header_ok (n, v) →
  let o := int_octets i p header ++ literal v (codes huff v) 8 0 in
  (∀ x, push_string huff (Integer.encode x i p header) v 8 0 = x ++ o) ∧ o ≠ [] ∧ bytes_ok o
  ∧ zlen o ≤ esize (n, v).
Proof.
  intros Hp Hi Hb [_ Hv] o. cbn [snd] in Hv. destruct (int_piece i p header Hp Hi Hb) as (Hn & Hok & Hl & Ho).
  destruct (value_piece huff v Hv) as (Hpush & Hvok & Hvl). split_and!.
  - intros x. rewrite Hpush, Ho. unfold o. by rewrite app_assoc.
  - by apply app_ne.
  - by apply Forall_app.
  - unfold o, esize, entry_size. rewrite zlen_app. pose proof (zlen_nonneg n). cbn [fst snd]. lia.
Qed.

Lemma line_of_name_dynamic p h ws ls abs n v : encoding p h ws ls → zlen h < 2 ^ 62 → header_ok (n, v) →
  refers (table p) h abs (λ x, x.1 = n) →
  line_spec h ws ls (n, v)
    (if base <=? abs then on_section (encode_literal_post_base_name_ref (use_huffman e) abs base v) p
     else on_section (encode_literal_with_name_ref (use_huffman e) abs base v) p).
Proof.
  intros He Hh Hok (Hd & [n' v0] & Hx & Hn). cbn [fst] in Hn. subst n'.
  pose proof (encoding_tracks _ _ _ _ He) as Ht.
  pose proof (window_len _ _ (tr_window _ _ _ Ht)) as (Hdp & _ & Hi). pose proof Hok as [_ Hv].
  destruct (Z.leb_spec base abs) as [Hle|Hgt].
  - destruct (literal_behind (use_huffman e) (abs - base) 3 0 n v) as (Ho & Hne & Hb & Hl); [lia..|done|done|].
    eapply line_of_reference; try done; [lia|]. intros t Hg. eapply reads_name_post_base; lia || done.
  - assert (base < 2 ^ 62).
    { destruct He as [_ -> _ _ _ _ _ _ _ _ _]. rewrite zlen_app in *. pose proof (zlen_nonneg (inserts (ws.*2))). lia. }
    destruct (literal_behind (use_huffman e) (base - abs - 1) 4 0x40 n v) as (Ho & Hne & Hb & Hl); [lia..|done|done|].
    eapply line_of_reference; try done; [lia|]. intros t Hg. eapply reads_name_dynamic; lia || done.
Qed.

Lemma line_of_name_static p h ws ls i n v v0 : encoding p h ws ls → header_ok (n, v) →
  0 ≤ i < 99 → static_get i = Some (n, v0) →
  line_spec h ws ls (n, v)
    (on_section (λ s, append s (λ o, push_string (use_huffman e) (Integer.encode o i 4 0x50) v 8 0)) p).
Proof.
  intros He Hok Hi Hg. assert (99 < 2 ^ 62) by done. pose proof Hok as [_ Hv].
  destruct (literal_behind (use_huffman e) i 4 0x50 n v) as (Ho & Hne & Hb & Hl); [lia..|done|done|].
  eapply line_of_append; try done. intros t. eapply reads_name_static; lia || done.
Qed.

Lemma line_of_literal p h ws ls n v sensitive : encoding p h ws ls → header_ok (n, v) →
  line_spec h ws ls (n, v) (on_section (encode_literal (use_huffman e) n v sensitive) p).
Proof.
  intros He Hok. unfold encode_literal. destruct (static_find_name n) as [i|] eqn:E.
  - apply static_name_get in E as (Hi & v0 & Hg).
    replace (Z.lor (Z.lor LITERAL_NAME_REF 16) (Z.shiftl (if sensitive then 1 else 0) 4)) with 0x50
      by (by destruct sensitive).
    by eapply line_of_name_static.
  - clear E. pose proof Hok as [Hn Hv]. cbn [fst snd] in *.
    set (hd := if sensitive then 0x30 else 0x20).
    replace (Z.lor LITERAL_LITERAL_NAME (Z.shiftl (if sensitive then 1 else 0) 4)) with hd
      by (unfold hd; by destruct sensitive).
    assert (pattern_ok 4 hd) as Hp by (unfold hd; destruct sensitive; by repeat split).
    destruct (value_piece (use_huffman e) v Hv) as (Hpush & Hvok & Hvl).
    pose proof (literal_len n _ 4 hd (codes_body (use_huffman e) n (proj1 Hn))) as Hnl.
    eapply (line_of_append p h ws ls _ (literal n (codes (use_huffman e) n) 4 hd ++ literal v (codes (use_huffman e) v) 8 0));
      try done.
    + intros x. rewrite Hpush, push_string_literal by (done || apply Hn). by rewrite app_assoc.
    + intros t. by apply reads_literal.
    + apply Forall_app. split; [by apply literal_octets_ok|done].
    + unfold esize, entry_size. rewrite zlen_app. cbn [fst snd]. lia.
Qed.

(** *** Insertions *)

(** The instructions of an insertion. *)
Definition insertion (t : DynamicTable) (n v : bytes) : list (bytes * instr) :=
  let huff := use_huffman e in
  (if negb (capacity t =? max_capacity e)
   then [(int_octets (max_capacity e) 5 SET_CAPACITY, SetCap (max_capacity e))] else [])
  ++ [(literal n (codes huff n) 6 INSERT_WITH_LITERAL_NAME ++ literal v (codes huff v) 8 0, Insert (n, v))].

Lemma raised_would_evict mc t h sz : tracks mc t h → would_evict (set_capacity t mc) sz ≤ would_evict t sz.
Proof.
  intros [Hok Hw Hc]. destruct (set_capacity_spec t mc (proj1 Hok) ltac:(lia)) as (Hok' & He & Hc' & _).
  rewrite !would_evict_spec by done. unfold len. rewrite Hc', He.
  assert (fit mc (entries t) = entries t) as ->.
  { apply newest_all. rewrite <- (pre_size t (proj1 Hok)). destruct Hok. lia. }
  pose proof (fit_mono (capacity t - sz) (mc - sz) (entries t)). lia.
Qed.

Lemma raised_dropped mc t h : tracks mc t h → dropped (set_capacity t mc) = dropped t.
Proof.
  intros [Hok Hw Hc]. destruct (window_set_capacity t mc h (proj1 Hok) ltac:(lia) Hw) as [_ ->].
  rewrite raise_evicts_nothing by (done || lia). lia.
Qed.

Lemma insertion_feasible t h n v :
  tracks (max_capacity e) t h → esize (n, v) ≤ max_capacity e →
  dropped t + would_evict t (esize (n, v)) ≤ known_received e →
  feasible (max_capacity e) (known_received e) t ((insertion t n v).*2)
  ∧ dropped (apply_all t ((insertion t n v).*2)) ≤ dropped t + would_evict t (esize (n, v))
  ∧ inserts ((insertion t n v).*2) = [(n, v)].
Proof.
  intros Ht Hs Hd. pose proof Ht as [Hok Hw Hc]. unfold insertion.
  destruct (Z.eqb_spec (capacity t) (max_capacity e)) as [E|E]; cbn [negb app fmap list_fmap snd feasible].
  - split; [split; [split; [by rewrite E|done]|done]|]. split; [|done].
    destruct (window_insert t n v h Hok Hw ltac:(by rewrite E)) as (t' & Ei & _ & _ & _ & Hd' & _).
    unfold apply_all. cbn [foldl apply fst snd]. rewrite Ei. cbn. lia.
  - destruct (window_set_capacity t (max_capacity e) h (proj1 Hok) ltac:(lia) Hw) as [Hw' _].
    destruct (set_capacity_spec t (max_capacity e) (proj1 Hok) ltac:(lia)) as (Hok' & _ & Hc' & _).
    pose proof (raised_would_evict _ _ _ (esize (n, v)) Ht). pose proof (raised_dropped _ _ _ Ht).
    cbn [apply]. split; [|split; [|done]].
    + split; [lia|]. split; [|done]. rewrite Hc'. lia.
    + destruct (window_insert _ n v h Hok' Hw' ltac:(by rewrite Hc')) as (t' & Ei & _ & _ & _ & Hd' & _).
      unfold apply_all. cbn [foldl apply fst snd]. rewrite Ei. cbn. lia.
Qed.

Lemma insertion_writes t n v : header_ok (n, v) → Forall (λ w : bytes * instr, writes w.1 w.2) (insertion t n v).
Proof.
  intros [Hn Hv]. pose proof (eo_capacity e h0 enc). apply Forall_app. split.
  - destruct (negb _); [|done]. constructor; [by apply writes_cap|done].
  - constructor; [|done]. apply writes_insert; try done; apply codes_body; [apply Hn|apply Hv].
Qed.

(** The octets and the table of an insertion are those of the source. *)
Lemma insertion_source t o n v : header_ok (n, v) →
  let t1 := if negb (capacity t =? max_capacity e) then set_capacity t (max_capacity e) else t in
  let o1 := if negb (capacity t =? max_capacity e)
            then Integer.encode o (max_capacity e) 5 SET_CAPACITY else o in
  apply_all t ((insertion t n v).*2) = default t1 (QpackTable.insert t1 n v)
  ∧ push_string (use_huffman e) (push_string (use_huffman e) o1 n 6 INSERT_WITH_LITERAL_NAME) v 8 0
    = o ++ mjoin ((insertion t n v).*1).
Proof.
  intros [Hn Hv] t1 o1. cbn [fst snd] in *. pose proof (eo_capacity e h0 enc) as Hc.
  assert (2 ^ 60 < 2 ^ 62) by done. split.
  - unfold apply_all, insertion, t1. by destruct (negb _).
  - rewrite !push_string_literal by (apply Hn || apply Hv || by repeat split).
    unfold insertion, o1. destruct (negb _); cbn [app fmap list_fmap fst mjoin list_join].
    + destruct (int_piece (max_capacity e) 5 SET_CAPACITY) as (_ & _ & _ & ->); [lia..|done|].
      by rewrite app_nil_r, !app_assoc.
    + by rewrite app_nil_r, !app_assoc.
Qed.

(** The state after an insertion, before its line is added. *)
Lemma encoding_insertion p h ws ls n v : encoding p h ws ls → header_ok (n, v) →
  esize (n, v) ≤ max_capacity e →
  dropped (table p) + would_evict (table p) (esize (n, v))
    ≤ Z.min (default u64_max (min_rel_ref (section p))) (evictable_floor e) →
  encoding (MkProgress (apply_all (table p) ((insertion (table p) n v).*2))
              (stream p ++ mjoin ((insertion (table p) n v).*1)) (section p))
    (h ++ [(n, v)]) (ws ++ insertion (table p) n v) ls.
Proof.
  intros He Hok Hs Hd. pose proof (encoding_tracks _ _ _ _ He) as Ht.
  destruct (insertion_feasible (table p) h n v Ht Hs) as (Hf & Hdd & Hins).
  { unfold evictable_floor in Hd. lia. }
  destruct He as [H1 H2 H3 H4 H5 H6 H7 H8 H9 H10 H11]. split; cbn; try done.
  - by rewrite fmap_app, apply_all_app, <- H1.
  - by rewrite fmap_app, inserts_app, Hins, H2, app_assoc.
  - rewrite fmap_app, feasible_app, <- H1. done.
  - apply Forall_app. split; [done|]. by apply insertion_writes.
  - by rewrite fmap_app, join_app, H5.
  - eapply Forall_impl; [exact H8|]. intros l. apply line_ok_grow.
  - lia.
Qed.

(** *** One turn *)

Lemma turn_new p h ws ls n v : encoding p h ws ls → zlen h + 1 < 2 ^ 62 → header_ok (n, v) →
  turn_spec h ws ls (n, v) (encode_new e base n v p).
Proof.
  intros He Hh Hok. pose proof (encoding_tracks _ _ _ _ He) as Ht. unfold encode_new. cbv zeta.
  destruct ((32 <=? max_capacity e) && (entry_size n v <=? max_capacity e) && _) eqn:E.
  2:{ apply line_turn. by apply line_of_literal. }
  apply andb_true_iff in E as [[_ Hs%Z.leb_le]%andb_true_iff Hd%Z.leb_le].
  pose proof (encoding_insertion p h ws ls n v He Hok Hs Hd) as He2.
  destruct (insertion_source (table p) (stream p) n v Hok) as [E1 E2]. rewrite E1, <- E2 in He2.
  exists (insertion (table p) n v).
  assert (inserts ((insertion (table p) n v).*2) = [(n, v)]) as Hins.
  { apply (insertion_feasible (table p) h n v Ht Hs). unfold evictable_floor, dropped in *.
    change (esize (n, v)) with (entry_size n v). lia. }
  rewrite Hins. split; [|done].
  assert (next_absolute (if negb (capacity (table p) =? max_capacity e)
    then set_capacity (table p) (max_capacity e) else table p) = zlen h) as Habs.
  { destruct (tr_window _ _ _ Ht) as [Hi _]. destruct (negb _); [|done].
    destruct (set_capacity_spec (table p) (max_capacity e) (proj1 (tr_ok _ _ _ Ht))) as (_ & _ & _ & Hi2 & _).
    - pose proof (tr_capacity _ _ _ Ht). lia.
    - unfold next_absolute. by rewrite Hi2. }
  assert (dropped (default (if negb (capacity (table p) =? max_capacity e)
       then set_capacity (table p) (max_capacity e) else table p)
      (QpackTable.insert (if negb (capacity (table p) =? max_capacity e)
       then set_capacity (table p) (max_capacity e) else table p) n v)) ≤ zlen h) as Hdrop.
  { pose proof (en_floor _ _ _ _ He2) as Hfl. cbn in Hfl. unfold evictable_floor in Hfl.
    pose proof (eo_known e h0 enc). destruct He as [_ -> _ _ _ _ _ _ _ _ _]. rewrite zlen_app.
    pose proof (zlen_nonneg (inserts (ws.*2))). lia. }
  pose proof (line_of_indexed _ (h ++ [(n, v)]) _ ls (zlen h) (n, v) He2) as Hl.
  destruct (negb (capacity (table p) =? max_capacity e)); cbn [table stream section] in *; rewrite Habs;
    (apply Hl; [rewrite zlen_app; change (zlen [(n, v)]) with 1; lia|]; clear Hl;
     split; [|exists (n, v); split; [apply zget_head|done]];
     destruct (tr_window _ _ _ (encoding_tracks _ _ _ _ He2)) as [Hi _]; cbn [table] in Hi;
     rewrite zlen_app in Hi; change (zlen [(n, v)]) with 1 in Hi; lia).
Qed.

Lemma turn_field p h ws ls f : encoding p h ws ls → zlen h + 1 < 2 ^ 62 → header_ok f →
  turn_spec h ws ls f (encode_field e base p f).
Proof.
  intros He Hh Hok. destruct f as [n v]. pose proof (encoding_tracks _ _ _ _ He) as Ht.
  unfold encode_field. case_bool_decide; [apply line_turn; by apply line_of_literal|].
  destruct (if 32 <=? max_capacity e then _ else _) as [full dname] eqn:Ed.
  assert (∀ abs, full = Some abs → refers (table p) h abs (λ x, x = (n, v))) as Hfull.
  { intros abs ->. destruct (32 <=? max_capacity e); [|done].
    eapply find_full_refers; [apply Ht..|]. by rewrite Ed. }
  assert (∀ abs, dname = Some abs → refers (table p) h abs (λ x, x.1 = n)) as Hname.
  { intros abs ->. destruct (32 <=? max_capacity e); [|done].
    eapply find_name_refers; [apply Ht..|]. by rewrite Ed. }
  destruct full as [abs|]; [apply line_turn, line_of_indexed; auto; lia|].
  destruct (static_find_full_or_name n v) as [sfull sname] eqn:Es.
  destruct sfull as [i|].
  { pose proof (static_find_get n v i ltac:(by rewrite Es)) as [Hi Hg]. assert (99 < 2 ^ 62) by done.
    destruct (int_piece i 6 0xC0) as (Hn & Hb & Hl & Ho); [lia..|done|]. pose proof (esize_pos (n, v)).
    apply line_turn. apply (line_of_append p h ws ls _ (int_octets i 6 0xC0)); try done; [|lia].
    intros t. apply reads_static; [lia|done]. }
  destruct dname as [abs|].
  { apply line_turn. apply (line_of_name_dynamic p); auto; lia. }
  destruct sname as [i|]; [|by apply turn_new].
  destruct (static_find_name_get n v i ltac:(by rewrite Es)) as (Hi & v0 & Hg).
  apply line_turn. by eapply line_of_name_static.
Qed.

(** ** All the headers *)

Lemma turns headers : ∀ p h ws ls, encoding p h ws ls → Forall header_ok headers →
  zlen h + zlen headers < 2 ^ 62 →
  ∃ h' ws' ls', encoding (foldl (encode_field e base) p headers) h' (ws ++ ws') (ls ++ ls')
    ∧ l_field <$> ls' = headers ∧ zlen h ≤ zlen h' ≤ zlen h + zlen headers.
Proof.
  induction headers as [|f headers IH]; intros p h ws ls He Hok Hh.
  { exists h, [], []. rewrite !app_nil_r. change (zlen (@nil field)) with 0. split; [done|]. split; [done|lia]. }
  apply Forall_cons in Hok as [Hf Hok]. rewrite zlen_cons in *. pose proof (zlen_nonneg headers).
  destruct (turn_field p h ws ls f He ltac:(lia) Hf) as (ws1 & (l & He1 & Hlf) & Hlen).
  pose proof (zlen_nonneg (inserts (ws1.*2))).
  destruct (IH _ _ _ _ He1 Hok ltac:(rewrite zlen_app; lia)) as (h' & ws2 & ls2 & He2 & Hfs & Hh').
  rewrite zlen_app in Hh'. exists h', (ws1 ++ ws2), (l :: ls2). rewrite <- !app_assoc in He2.
  split; [exact He2|]. split; [by rewrite fmap_cons, Hlf, Hfs|lia].
Qed.

End Encoding.

(** ** The section *)

(** What [encode_section_with_base] leaves: instructions [ws], lines [ls], and
    a reference at [m] kept for the stream when the section needs any entry. *)
Record section_encoded (e e' : Encoder) (h : list field) (sid base : Z) (headers : list field)
    (sec : EncodedSection) (ws : list (bytes * instr)) (ls : list line) (m : Z) : Prop := MkSectionEncoded {
  se_enc : enc_ok e' (h ++ inserts (ws.*2));
  se_table : dynamic e' = apply_all (dynamic e) (ws.*2);
  se_static : max_capacity e' = max_capacity e ∧ known_received e' = known_received e
    ∧ decoder_stream_pending e' = decoder_stream_pending e;
  se_writes : Forall (λ w : bytes * instr, writes w.1 w.2) ws;
  se_feasible : feasible (max_capacity e) (known_received e) (dynamic e) (ws.*2);
  se_stream : encoder_stream sec = mjoin (ws.*1);
  se_block : block sec = section_octets (max_capacity e) base ls;
  se_lines : section_ok (max_capacity e) base (h ++ inserts (ws.*2)) ls;
  se_headers : l_field <$> ls = headers;
  se_refs : pending_refs e' = pending_refs e ++ (if 0 <? needed ls then [(sid, m)] else []);
  se_min : ∀ l, l ∈ ls → 0 < l_need l → m ≤ l_need l - 1;
  se_length : zlen (inserts (ws.*2)) ≤ zlen headers;
}.

Lemma needed_reached ls : 0 < needed ls → ∃ l, l ∈ ls ∧ l_need l = needed ls.
Proof.
  induction ls as [|l ls IH]; [done|]. change (needed (l :: ls)) with (Z.max (l_need l) (needed ls)). intros H.
  destruct (Z.le_gt_cases (needed ls) (l_need l)).
  - exists l. split; [by left|lia].
  - destruct IH as (k & Hk & E); [lia|]. exists k. split; [by right|lia].
Qed.

Lemma block_short ls : Forall short ls → zlen (block_of ls) ≤ sizes (l_field <$> ls).
Proof.
  induction 1 as [|l ls Hl _ IH]; [done|]. rewrite block_of_cons, zlen_app, fmap_cons. cbn [sizes].
  unfold short in Hl. lia.
Qed.

Lemma encode_prefix_octets mc ric base : 0 ≤ mc < 2 ^ 60 → 0 ≤ ric < 2 ^ 62 → 0 ≤ base < 2 ^ 62 →
  encode_prefix mc ric base = int_octets (wrapped mc ric) 8 0 ++ base_octets ric base.
Proof.
  intros Hm Hr Hb. unfold encode_prefix. cbv zeta. fold (wrapped mc ric).
  pose proof (wrapped_bound mc ric Hm) as Hw.
  destruct (int_piece (wrapped mc ric) 8 0) as (_ & _ & _ & E); [lia..|done|]. rewrite E. cbn [app].
  unfold base_octets. destruct (Z.leb_spec ric base).
  - by destruct (int_piece (base - ric) 7 0) as (_ & _ & _ & ->); [lia..|done|].
  - by destruct (int_piece (ric - base - 1) 7 0x80) as (_ & _ & _ & ->); [lia..|done|].
Qed.

Lemma min_pending_app refs r : min_pending (refs ++ [r]) = Z.min r.2 (min_pending refs).
Proof.
  induction refs as [|x refs IH]; [done|]. cbn [app]. change (min_pending (x :: ?l)) with (Z.min x.2 (min_pending l)).
  rewrite IH. lia.
Qed.

Lemma encode_section_spec e h sid headers base : enc_ok e h → 0 ≤ base ≤ zlen h → Forall header_ok headers →
  zlen h + zlen headers < 2 ^ 62 → sizes headers < 2 ^ 61 →
  ∃ sec e' ws ls m, encode_section_with_base e sid headers base = (sec, e')
    ∧ section_encoded e e' h sid base headers sec ws ls m.
Proof.
  intros He Hb Hok Hh Hs. pose proof He as [Ht Hmc Hk Hmin Hfl].
  destruct (turns e base h He Hb headers _ _ _ _ (encoding_start e base h He) Hok Hh)
    as (h' & ws & ls & Hen & Hfs & Hlen). cbn [app] in Hen.
  pose proof (encoding_tracks _ _ _ He _ _ _ _ Hen) as Ht'.
  destruct Hen as [H1 H2 H3 H4 H5 H6 H7 H8 H9 H10 H11]. set (p := foldl _ _ headers) in *. subst h'.
  pose proof (needed_bound _ _ _ H8) as Hn. rewrite zlen_app in *.
  set (m := default 0 (min_rel_ref (section p))).
  assert (∀ l, l ∈ ls → 0 < l_need l → m ≤ l_need l - 1) as Hm.
  { intros l Hl Hpos. destruct (H10 l Hl Hpos) as (x & E & Hx). unfold m. by rewrite E. }
  assert (0 < needed ls → dropped (table p) ≤ m) as Hdm.
  { intros Hpos. destruct (needed_reached ls Hpos) as (l & Hl & El). destruct (H10 l Hl ltac:(lia)) as (x & E & _).
    unfold m. rewrite E in *. cbn in *. lia. }
  unfold encode_section_with_base. fold p. cbv zeta. rewrite H7. fold m.
  eexists _, _, ws, ls, m. split; [reflexivity|].
  assert (max_capacity (set_dynamic (table p) e) = max_capacity e) as Emc by done.
  split; try done; try (by destruct (0 <? needed ls)); try lia.
  - destruct (Z.ltb_spec 0 (needed ls)); split; cbn; rewrite ?zlen_app; try done; try lia.
    + rewrite min_pending_app, Hmin. done.
    + unfold evictable_floor in *. cbn in *. specialize (Hdm ltac:(lia)). lia.
    + unfold evictable_floor in *. cbn in *. lia.
  - cbn [block]. replace (max_capacity (if 0 <? needed ls then _ else _)) with (max_capacity e)
      by (by destruct (0 <? needed ls)).
    rewrite encode_prefix_octets by lia. rewrite H6. unfold section_octets. by rewrite app_assoc.
  - split; try done; rewrite ?zlen_app; try lia.
    pose proof (block_short ls H9) as Hbs. rewrite Hfs in Hbs. unfold section_octets. rewrite !zlen_app.
    pose proof (int_octets_len (wrapped (max_capacity e) (needed ls)) 8 0).
    assert (zlen (base_octets (needed ls) base) ≤ 12).
    { unfold base_octets. destruct (needed ls <=? base); apply int_octets_len. }
    change (2 ^ 61) with 2305843009213693952 in *. change (2 ^ 62) with 4611686018427387904 in *. lia.
  - destruct (0 <? needed ls); cbn; [done|by rewrite app_nil_r].
Qed.
