(* ===== verification/QpackAcks.v ===== *)
(** * The QPACK decoder stream, read by the encoder

    Section Acknowledgments and Insert Count Increments, as the decoder writes
    them, what they do to the encoder, and the encoder's reading of them in
    chunks of any size. *)

From S2P Require Import Prelude Integer HuffmanTable Huffman QpackTable QpackString QpackEncoder QpackStream QpackSections.

Lemma remove_first_take sid refs : remove_first sid refs = take_first sid refs.
Proof. induction refs as [|r refs IH]; [done|]. cbn. by rewrite IH. Qed.

(** ** Acknowledgments *)

Inductive ack : Type :=
| AckSection (sid : Z)
| AckCount (n : Z).

Definition ack_octets (a : ack) : bytes :=
  match a with AckSection sid => int_octets sid 7 0x80 | AckCount n => int_octets n 6 0x00 end.

Definition ack_ok (a : ack) : Prop :=
  match a with AckSection sid => 0 ≤ sid < 2 ^ 62 | AckCount n => 0 < n < 2 ^ 62 end.

(** How many sections of a stream are acknowledged, and how many insertions. *)
Fixpoint acks_of (sid : Z) (l : list ack) : nat :=
  match l with
  | [] => 0
  | AckSection i :: l => if i =? sid then S (acks_of sid l) else acks_of sid l
  | AckCount _ :: l => acks_of sid l
  end.
Definition counts (l : list ack) : Z := foldr (λ a n, match a with AckSection _ => n | AckCount k => k + n end) 0 l.

Definition acknowledge (e : Encoder) (a : ack) : Encoder :=
  match a with
  | AckSection sid =>
      match take_first sid (pending_refs e) with
      | None => e
      | Some (removed_min, refs) =>
          set_refs refs (if removed_min =? cached_min_pending e then min_pending refs
                         else cached_min_pending e) e
      end
  | AckCount n => set_known (known_received e + n) e
  end.

Lemma ack_facts a : ack_ok a → bytes_ok (ack_octets a) ∧ 1 ≤ zlen (ack_octets a) ≤ 10.
Proof.
  assert (2 ^ 62 < 2 ^ 64) by done. intros Ha.
  destruct a; cbn in *; (split; [apply int_octets_ok; lia || done|]);
    (split; [apply int_octets_len|apply int_octets_short; lia || done]).
Qed.

Definition ack_bits (a : ack) : Z := match a with AckSection _ => 7 | AckCount _ => 6 end.

(** The octets of an acknowledgment tell which one it is, and how long. *)
Lemma ack_prefix a post : ack_ok a → bytes_ok post →
  ∃ x t, ack_octets a = x :: t ∧ negb (Z.land x 0x80 =? 0) = (if a is AckSection _ then true else false)
    ∧ (if a is AckCount _ then Z.land x 0x40 = 0 else True)
    ∧ Integer.encoded_len (ack_octets a ++ post) (ack_bits a) = Some (zlen (ack_octets a)).
Proof.
  intros Ha Hp. destruct a as [sid|n]; cbn [ack_octets ack_bits ack_ok] in *.
  - exists (prefix_octet sid 7 0x80), (continuation sid 7). split; [done|].
    rewrite !land_prefix_octet by (lia || done). split; [done|]. split; [done|].
    apply encoded_len_int; lia || done.
  - exists (prefix_octet n 6 0), (continuation n 6). split; [done|].
    rewrite !land_prefix_octet by (lia || done). split; [done|]. split; [done|].
    apply encoded_len_int; lia || done.
Qed.

(** One instruction does what it says. *)
Lemma decoder_instruction_ack e a : ack_ok a →
  (if a is AckCount n then known_received e + n ≤ inserted (dynamic e) ≤ usize_max else True) →
  decoder_instruction e (ack_octets a) = Ok (acknowledge e a).
Proof.
  intros Ha Hk. destruct (ack_prefix a [] Ha ltac:(done)) as (x & t & Ex & H80 & H40 & _).
  unfold decoder_instruction. rewrite Ex. change (idx (x :: t) 0) with x. rewrite H80, <- Ex.
  assert (∀ p h v, 1 ≤ p ≤ 8 → 0 ≤ v < 2 ^ 62 → is_byte h → int_octets v p h = x :: t →
    Integer.decode (int_octets v p h) 1 p x = Ok (v, zlen (int_octets v p h))) as Hd.
  { intros p h v Hp Hv Hh E. pose proof (decode_int [] [] v p h Hp Hv Hh) as H. rewrite app_nil_r in H.
    cbn [app] in H. change (zlen [] + 1) with 1 in H. assert (prefix_octet v p h = x) as Eh by (by injection E).
    by rewrite Eh in H. }
  destruct a as [sid|n]; cbn [ack_octets ack_ok acknowledge] in *.
  - rewrite Hd by (lia || done). cbn [map_err mbind result_bind]. by rewrite remove_first_take.
  - rewrite H40. cbn [negb Z.eqb]. rewrite Hd by (lia || done). cbn [map_err mbind result_bind].
    rewrite (proj2 (Z.eqb_neq n 0)) by lia. unfold saturating_add64. rewrite Z.min_l by lia.
    by rewrite (proj2 (Z.ltb_ge _ _)) by lia.
Qed.

Lemma acknowledge_table e a : dynamic (acknowledge e a) = dynamic e ∧ max_capacity (acknowledge e a) = max_capacity e.
Proof. destruct a as [sid|n]; cbn; [|done]. by destruct (take_first sid _) as [[m refs]|]. Qed.

Lemma acknowledge_known e a : known_received (acknowledge e a)
  = known_received e + (if a is AckCount n then n else 0).
Proof. destruct a as [sid|n]; cbn; [|done]. destruct (take_first sid _) as [[m refs]|]; cbn; lia. Qed.

Lemma counts_cons a l : counts (a :: l) = (if a is AckCount n then n else 0) + counts l.
Proof. unfold counts. destruct a; cbn; lia. Qed.

Lemma counts_nonneg l : Forall ack_ok l → 0 ≤ counts l.
Proof. induction 1 as [|a l Ha _ IH]; [done|]. rewrite counts_cons. destruct a; cbn in Ha; lia. Qed.

(** A proper part of an acknowledgment waits. *)
Lemma feed_loop_part fuel e a p x : ack_ok a → ack_octets a = p ++ x → x ≠ [] → feed_loop fuel e p = Ok (e, p).
Proof.
  intros Ha E Hx. destruct fuel as [|fuel]; [by destruct p|]. destruct p as [|y p]; [done|].
  destruct (ack_prefix a [] Ha ltac:(done)) as (y' & t & Ey & Hbits & _ & Hel). rewrite app_nil_r in Hel.
  assert (y' = y) as -> by (rewrite Ey in E; by injection E).
  cbn [feed_loop]. rewrite Hbits.
  replace (if (if a is AckSection _ then true else false) then 7 else 6) with (ack_bits a) by (by destruct a).
  destruct (Integer.encoded_len (y :: p) (ack_bits a)) as [n|] eqn:En; [|done]. exfalso.
  pose proof (encoded_len_range _ _ _ En) as Hr. apply (encoded_len_app _ x) in En.
  rewrite <- E, Hel in En. injection En as <-. rewrite E, zlen_app in Hr. destruct x; [done|].
  rewrite !zlen_cons in Hr. zlia.
Qed.

(** A whole one takes effect. *)
Lemma feed_loop_whole fuel e a p : ack_ok a → bytes_ok p →
  known_received e + (if a is AckCount n then n else 0) ≤ inserted (dynamic e) ≤ usize_max →
  feed_loop (S fuel) e (ack_octets a ++ p) = feed_loop fuel (acknowledge e a) p.
Proof.
  intros Ha Hp Hk. destruct (ack_prefix a p Ha Hp) as (y & t & Ey & Hbits & _ & Hel).
  assert (feed_loop (S fuel) e (ack_octets a ++ p)
    = match Integer.encoded_len (ack_octets a ++ p) (ack_bits a) with
      | None => Ok (e, ack_octets a ++ p)
      | Some len => if zlen (ack_octets a ++ p) <? len then Ok (e, ack_octets a ++ p)
          else e ← decoder_instruction e (take (Z.to_nat len) (ack_octets a ++ p));
               feed_loop fuel e (drop (Z.to_nat len) (ack_octets a ++ p))
      end) as ->.
  { rewrite Ey. cbn [app feed_loop]. rewrite Hbits. by destruct a. }
  rewrite Hel, zlen_app. pose proof (zlen_nonneg p). rewrite (proj2 (Z.ltb_ge _ _)) by lia.
  rewrite take_app_length', drop_app_length' by (unfold zlen; lia).
  rewrite decoder_instruction_ack; [done|done|]. destruct a; [done|lia].
Qed.

(** The octets read are some whole acknowledgments, which take effect, and a
    proper part of the next one, which waits. *)
Lemma acks_run l : ∀ fuel e p q, Forall ack_ok l →
  known_received e + counts l ≤ inserted (dynamic e) ≤ usize_max →
  p ++ q = mjoin (ack_octets <$> l) → (length p ≤ fuel)%nat →
  ∃ dn rest p', l = dn ++ rest ∧ feed_loop fuel e p = Ok (foldl acknowledge e dn, p')
    ∧ p' ++ q = mjoin (ack_octets <$> rest) ∧ zlen p' ≤ 10.
Proof.
  induction l as [|a l IH]; intros fuel e p q Hl Hc Hpq Hfuel.
  { apply app_nil in Hpq as [-> ->]. exists [], [], []. by destruct fuel. }
  apply Forall_cons in Hl as [Ha Hl]. rewrite fmap_cons in Hpq.
  change (mjoin (ack_octets a :: ?x)) with (ack_octets a ++ mjoin x) in Hpq. rewrite counts_cons in Hc.
  pose proof (counts_nonneg l Hl) as Hcl. destruct (ack_facts a Ha) as (Hok & Hlen).
  apply app_split in Hpq as [(x & Hx & E & Hq)|(p' & -> & Hpq)].
  - exists [], (a :: l), p. split; [done|]. split; [by eapply feed_loop_part|]. split.
    + rewrite Hq, fmap_cons, E. change (mjoin ((p ++ x) :: ?y)) with ((p ++ x) ++ mjoin y). by rewrite app_assoc.
    + rewrite E, zlen_app in Hlen. zlia.
  - assert (bytes_ok p') as Hp'.
    { assert (bytes_ok (p' ++ q)) as Hb; [|by apply Forall_app in Hb as [? _]].
      rewrite Hpq. apply Forall_join, Forall_fmap.
      eapply Forall_impl; [exact Hl|]. intros c Hac. by apply ack_facts in Hac as [? _]. }
    rewrite length_app in Hfuel. assert (length (ack_octets a) ≠ 0)%nat as Hne by (unfold zlen in Hlen; lia).
    destruct fuel as [|fuel]; [lia|]. destruct (acknowledge_table e a) as [Ed _].
    destruct (IH fuel (acknowledge e a) p' q Hl) as (dn & rest & p2 & -> & Er & Hr & Hs); try done; [|lia|].
    { rewrite Ed, acknowledge_known. destruct a; lia. }
    exists (a :: dn), rest, p2. split; [done|]. split; [|done]. change (foldl acknowledge e (a :: dn)) with (foldl acknowledge (acknowledge e a) dn). rewrite <- Er.
    apply feed_loop_whole; [done..|]. destruct a; lia.
Qed.

(** ** Their effect on the encoder *)

Lemma min_pending_remove l1 x l2 :
  min_pending (l1 ++ x :: l2) = Z.min x.2 (min_pending (l1 ++ l2)).
Proof.
  induction l1 as [|y l1 IH]; [done|]. cbn [app]. change (min_pending (y :: ?l)) with (Z.min y.2 (min_pending l)).
  rewrite IH. lia.
Qed.

Lemma acknowledge_enc_ok e a h : enc_ok e h → ack_ok a →
  known_received e + (if a is AckCount n then n else 0) ≤ zlen h → enc_ok (acknowledge e a) h.
Proof.
  intros [Ht Hc Hk Hm Hf] Ha Hn. destruct a as [sid|n]; cbn [acknowledge ack_ok] in *.
  - pose proof (take_first_spec sid (pending_refs e)) as Hs.
    destruct (take_first sid (pending_refs e)) as [[m refs]|]; [|by split].
    destruct Hs as (l1 & l2 & E & -> & _). rewrite E, min_pending_remove in Hm. cbn [snd] in Hm.
    split; try done; cbn [set_refs dynamic known_received cached_min_pending pending_refs].
    + destruct (Z.eqb_spec m (cached_min_pending e)); [done|]. lia.
    + unfold evictable_floor in *. cbn [set_refs dynamic known_received cached_min_pending pending_refs]. destruct (Z.eqb_spec m (cached_min_pending e)); lia.
  - split; try done; cbn; [lia|]. unfold evictable_floor in *. cbn. lia.
Qed.

(** The references kept for a stream, from the first one not acknowledged on. *)
Definition due (sid : Z) (e : Encoder) (l : list ack) : list Z :=
  drop (acks_of sid l) (on sid (pending_refs e)).

Lemma acknowledge_due e a l sid : (acks_of sid (a :: l) ≤ length (on sid (pending_refs e)))%nat →
  due sid (acknowledge e a) l = due sid e (a :: l)
  ∧ (acks_of sid l ≤ length (on sid (pending_refs (acknowledge e a))))%nat.
Proof.
  unfold due. destruct a as [i|n]; cbn [acks_of acknowledge]; [|done].
  pose proof (take_first_spec i (pending_refs e)) as Hs. destruct (Z.eqb_spec i sid) as [->|Hne].
  - destruct (take_first sid (pending_refs e)) as [[m refs]|].
    + destruct Hs as (l1 & l2 & -> & -> & H1). cbn. rewrite !on_app, on_cons, H1. cbn [fst snd app length].
      rewrite Z.eqb_refl. cbn [length drop]. intros Hl. split; [done|lia].
    + rewrite Hs. cbn. lia.
  - destruct (take_first i (pending_refs e)) as [[m refs]|]; [|done].
    destruct Hs as (l1 & l2 & -> & -> & H1). cbn. rewrite !on_app, on_cons. cbn [fst].
    by rewrite (proj2 (Z.eqb_neq i sid)).
Qed.

Lemma acknowledges l : ∀ rest e h, enc_ok e h → Forall ack_ok l → known_received e + counts l ≤ zlen h →
  (∀ sid, (acks_of sid (l ++ rest) ≤ length (on sid (pending_refs e)))%nat) →
  let e' := foldl acknowledge e l in
  enc_ok e' h ∧ dynamic e' = dynamic e ∧ max_capacity e' = max_capacity e
  ∧ known_received e' = known_received e + counts l
  ∧ (∀ sid, due sid e' rest = due sid e (l ++ rest) ∧ (acks_of sid rest ≤ length (on sid (pending_refs e')))%nat).
Proof.
  induction l as [|a l IH]; intros rest e h He Hl Hk Hd; cbn [foldl].
  { split; [done|]. split; [done|]. split; [done|]. split; [cbn; lia|]. intros sid. by split; [|apply Hd]. }
  apply Forall_cons in Hl as [Ha Hl]. rewrite counts_cons in *. pose proof (counts_nonneg l Hl).
  destruct (IH rest (acknowledge e a) h) as (H1 & H2 & H3 & H4 & H5); [|done| | |].
  - apply acknowledge_enc_ok; [done|done|]. destruct a; lia.
  - rewrite acknowledge_known. lia.
  - intros sid. by apply (acknowledge_due e a (l ++ rest) sid), Hd.
  - destruct (acknowledge_table e a) as [E1 E2]. rewrite acknowledge_known in H4.
    split; [done|]. split; [congruence|]. split; [congruence|]. split; [lia|]. intros sid. destruct (H5 sid) as [-> H6].
    split; [|done]. apply (acknowledge_due e a (l ++ rest) sid), Hd.
Qed.
