(* ===== verification/QpackSession.v ===== *)
(** * A QPACK connection

    One encoder, one decoder, and what is on its way between them: octets of
    the encoder stream, field sections on their request streams, octets of the
    decoder stream.  The three travel independently, so the operations of a
    [session] may be interleaved in any order and the two octet streams cut
    anywhere; sections of one request stream stay in order. *)

From S2P Require Import Prelude Integer HuffmanTable Huffman QpackTable QpackString QpackDecoder QpackEncoder QpackLines QpackStream QpackSections QpackAcks.

Record session : Type := MkSession {
  s_enc : Encoder;
  s_dec : Decoder;
  s_wire : bytes;
  s_blocks : list (Z * bytes);
  s_acks : bytes;
}.

(** [Send]: a section is encoded, with either Base; [Feed]: the next octets of
    the encoder stream arrive; [Arrive]: the next section of a stream arrives;
    [Return]: the next octets of the decoder stream arrive. *)
Inductive op : Type :=
| Send (ack_base : bool) (sid : Z) (headers : list field)
| Feed (n : nat)
| Arrive (sid now : Z)
| Return (n : nat).

(** The sections handed to the application by a step. *)
Definition deliveries : Type := list (Z * list field).

Definition unblocked (l : list UnblockedSection) : deliveries := (λ u, (un_stream_id u, un_headers u)) <$> l.

(** The decoder's instructions are picked up after every call. *)
Definition after (s : session) (wire : bytes) (blocks : list (Z * bytes)) (d : Decoder) : session :=
  let '(out, d) := take_decoder_stream d in
  MkSession (s_enc s) d wire blocks (s_acks s ++ out).

Definition send (s : session) (ack_base : bool) (sid : Z) (headers : list field) : session :=
  let '(sec, e) := if ack_base then encode_section_with_ack_base (s_enc s) sid headers
                   else encode_section (s_enc s) sid headers in
  MkSession e (s_dec s) (s_wire s ++ encoder_stream sec) (s_blocks s ++ [(sid, block sec)]) (s_acks s).

Definition feed (s : session) (n : nat) : result QpackError (session * deliveries) :=
  '(sections, d) ← feed_encoder_stream (s_dec s) (take n (s_wire s));
  Ok (after s (drop n (s_wire s)) (s_blocks s) d, unblocked sections).

Definition arrive (s : session) (sid now : Z) : result QpackError (session * deliveries) :=
  match take_first sid (s_blocks s) with
  | None => Ok (s, [])
  | Some (blk, rest) =>
      '(r, d) ← decode_block (s_dec s) blk sid now;
      Ok (after s (s_wire s) rest d, match r with Some headers => [(sid, headers)] | None => [] end)
  end.

Definition return_acks (s : session) (n : nat) : result QpackError session :=
  e ← feed_decoder_stream (s_enc s) (take n (s_acks s));
  Ok (MkSession e (s_dec s) (s_wire s) (s_blocks s) (drop n (s_acks s))).

Definition step (s : session) (o : op) : result QpackError (session * deliveries) :=
  match o with
  | Send ack_base sid headers => Ok (send s ack_base sid headers, [])
  | Feed n => feed s n
  | Arrive sid now => arrive s sid now
  | Return n => s ← return_acks s n; Ok (s, [])
  end.

Fixpoint run (s : session) (ops : list op) : result QpackError (session * deliveries) :=
  match ops with
  | [] => Ok (s, [])
  | o :: ops =>
      '(s, out) ← step s o;
      '(s, outs) ← run s ops;
      Ok (s, out ++ outs)
  end.

(** Both ends agree on the maximum capacity, as SETTINGS make them. *)
Definition start (max_capacity max_blocked_streams : Z) (huffman : bool) : session :=
  MkSession (new_encoder max_capacity huffman) (new_decoder max_capacity max_blocked_streams) [] [] [].

(** The sections sent. *)
Definition sent (ops : list op) : deliveries :=
  omap (λ o, match o with Send _ sid headers => Some (sid, headers) | _ => None end) ops.

(** A section within the limits of the decoder, on a QUIC stream. *)
Definition op_ok (o : op) : Prop :=
  match o with
  | Send _ sid headers =>
      0 ≤ sid < 2 ^ 62 ∧ Forall header_ok headers ∧ zlen headers ≤ MAX_FIELDS_PER_SECTION ∧ sizes headers < 2 ^ 61
  | _ => True
  end.

(** Two sections; the second refers to the entry the first inserted, and both
    arrive before the encoder stream does, which comes in two pieces. *)
Example out_of_order :
  ('(_, out) ← run (start 4096 16 true)
     [Send false 0 [(b ":path", b "/a"); (b "x-session", b "1234")]; Send true 4 [(b "x-session", b "1234")];
      Arrive 4 0; Arrive 0 0; Feed 7; Feed 100; Return 2; Return 9; Send false 8 [(b "x-session", b "1234")];
      Arrive 8 0]; Ok out)
  = Ok [(4, [(b "x-session", b "1234")]); (0, [(b ":path", b "/a"); (b "x-session", b "1234")]);
        (8, [(b "x-session", b "1234")])].
Proof. vm_compute. reflexivity. Qed.

(** ** Sections on their way *)

(** What is known of a section that was sent and not decoded yet. *)
Record flight : Type := MkFlight { g_sid : Z; g_base : Z; g_lines : list line; g_min : Z }.

Definition g_ric (g : flight) : Z := needed (g_lines g).
Definition g_headers (g : flight) : list field := l_field <$> g_lines g.
Definition g_block (mc : Z) (g : flight) : bytes := section_octets mc (g_base g) (g_lines g).

(** Sent by an encoder with history [h], to a decoder that has [ins] entries. *)
Record flight_ok (mc : Z) (h : list field) (ins : Z) (g : flight) : Prop := MkFlightOk {
  go_section : section_ok mc (g_base g) h (g_lines g);
  go_min : ∀ l, l ∈ g_lines g → 0 < l_need l → g_min g ≤ l_need l - 1;
  go_near : g_ric g ≤ ins + mc / 32;
  go_sid : 0 ≤ g_sid g < 2 ^ 62;
  go_count : zlen (g_headers g) ≤ MAX_FIELDS_PER_SECTION;
  go_size : sizes (g_headers g) < 2 ^ 61;
}.

Lemma flight_ok_grow mc h x ins ins' g : flight_ok mc h ins g → zlen (h ++ x) < 2 ^ 62 → ins ≤ ins' →
  flight_ok mc (h ++ x) ins' g.
Proof.
  intros [[H1 H2 H3 H4 H5] H6 H7 H8 H9 H10] Hh Hi. split; try done; [|lia]. split; try done.
  eapply Forall_impl; [exact H4|]. intros l. apply line_ok_grow.
Qed.

(** A flight that the decoder can decode now. *)
Record ready (mc : Z) (t : DynamicTable) (hd : list field) (g : flight) : Prop := MkReady {
  rd_reached : g_ric g ≤ zlen hd;
  rd_kept : 0 < g_ric g → dropped t ≤ g_min g;
  rd_range : 0 < g_ric g → zlen hd - mc / 32 < g_ric g;
}.

Lemma need_le l ls : l ∈ ls → l_need l ≤ needed ls.
Proof.
  intros H. induction H as [l ls|l k ls _ IH]; change (needed (?k :: ls)) with (Z.max (l_need k) (needed ls)); lia.
Qed.

Lemma decode_flight mc t hd x g : tracks mc t hd → flight_ok mc (hd ++ x) (zlen hd) g → ready mc t hd g →
  decode_ready t mc (g_block mc g) None = Ok (g_headers g, sizes (g_headers g)).
Proof.
  intros [Hok Hw Hc] [Hs Hm Hn Hsid Hcount Hsize] [Hr Hk Hrg]. unfold g_block, g_headers, g_ric in *.
  assert (inserted t = zlen hd) as Hi by apply Hw.
  apply (decode_ready_section mc (g_base g) (hd ++ x)); [done| | |].
  - intros Hpos. rewrite Hi. split; [by apply Hrg|done].
  - intros l Hl Hpos. pose proof (need_le l _ Hl). specialize (Hm l Hl Hpos). specialize (Hk ltac:(lia)).
    rewrite (get_absolute_window t hd _ Hw) by lia.
    rewrite (proj2 (Z.leb_le _ _)), (proj2 (Z.ltb_lt _ _)) by lia. cbn [andb]. symmetry. apply zget_app_lt. lia.
  - split; [rewrite Z.add_0_l; done|]. split; [|done]. unfold usize_max.
    change (2 ^ 61) with 2305843009213693952 in Hsize. change (2 ^ 64) with 18446744073709551616. lia.
Qed.

(** *** Streams of flights *)

Definition flights (sid : Z) (gs : list flight) : list flight := on sid ((λ g, (g_sid g, g)) <$> gs).

Lemma flights_app sid gs ks : flights sid (gs ++ ks) = flights sid gs ++ flights sid ks.
Proof. unfold flights. by rewrite fmap_app, on_app. Qed.

Lemma flights_cons sid g gs : flights sid (g :: gs) = if g_sid g =? sid then g :: flights sid gs else flights sid gs.
Proof. unfold flights. by rewrite fmap_cons, on_cons. Qed.

#[global] Arguments flights : simpl never.

(** [blocked_by_stream] counts the blocked sections of each stream. *)
Definition counted (m : gmap Z Z) (gs : list flight) : Prop :=
  ∀ sid, m !! sid = if bool_decide (flights sid gs = []) then None else Some (zlen (flights sid gs)).

Lemma counted_add m gs g : counted m gs → counted (add_blocked_section m (g_sid g)) (gs ++ [g]).
Proof.
  intros H sid. unfold add_blocked_section. rewrite flights_app, flights_cons. change (flights sid []) with (@nil flight).
  destruct (Z.eqb_spec (g_sid g) sid) as [<-|Hne].
  - rewrite lookup_insert_eq, bool_decide_eq_false_2 by (by destruct (flights (g_sid g) gs)).
    rewrite (H (g_sid g)), zlen_app. case_bool_decide as E; [by rewrite E|done].
  - by rewrite lookup_insert_ne, app_nil_r by done.
Qed.

Lemma counted_remove m gs g : counted m (g :: gs) → counted (remove_blocked_section m (g_sid g)) gs.
Proof.
  intros H sid. unfold remove_blocked_section. rewrite (H (g_sid g)), flights_cons, Z.eqb_refl.
  rewrite bool_decide_eq_false_2 by done. rewrite zlen_cons. specialize (H sid). rewrite flights_cons in H.
  destruct (Z.eqb_spec (g_sid g) sid) as [Es|Hne].
  - subst sid. destruct (flights (g_sid g) gs) as [|k ks] eqn:E.
    + change (1 + zlen (@nil flight) =? 1) with true. cbv iota. by rewrite lookup_delete_eq.
    + rewrite zlen_cons. pose proof (zlen_nonneg ks). rewrite (proj2 (Z.eqb_neq _ 1)) by lia.
      rewrite lookup_insert_eq, bool_decide_eq_false_2 by done. f_equal. lia.
  - destruct (1 + zlen _ =? 1); [by rewrite lookup_delete_ne|by rewrite lookup_insert_ne].
Qed.

Lemma flights_notin sid gs : flights sid gs ≠ [] → sid ∈ g_sid <$> gs.
Proof.
  induction gs as [|g gs IH]; [done|]. rewrite flights_cons, fmap_cons.
  destruct (Z.eqb_spec (g_sid g) sid) as [->|]; [by left|]. intros H. right. by apply IH.
Qed.

Lemma size_list_to_set_le (l : list Z) : (base.size (list_to_set l : gset Z) ≤ length l)%nat.
Proof.
  induction l as [|x l IH]; [done|]. cbn [list_to_set length].
  pose proof (size_union_alt ({[x]} : gset Z) (list_to_set l)) as E. rewrite E, size_singleton.
  pose proof (subseteq_size (list_to_set l ∖ {[x]} : gset Z) (list_to_set l) ltac:(set_solver)). lia.
Qed.

Lemma counted_size m gs : counted m gs → (base.size m ≤ length gs)%nat.
Proof.
  intros H. rewrite <- size_dom. etransitivity; [|rewrite <- (length_fmap g_sid); apply size_list_to_set_le].
  apply subseteq_size. intros sid [n Hn]%elem_of_dom. apply elem_of_list_to_set, flights_notin.
  intros E. rewrite (H sid), bool_decide_eq_true_2 in Hn; done.
Qed.

(** ** The decoder's part *)

(** The buffered sections are [gs]. *)
Definition holds (mc : Z) (bl : list BlockedSection) (gs : list flight) : Prop :=
  Forall2 (λ b g, bl_stream_id b = g_sid g ∧ bl_buf b = g_block mc g ∧ bl_ric b = g_ric g) bl gs.

(** The acknowledgments of decoded sections. *)
Definition section_acks (gs : list flight) : list ack :=
  omap (λ g, if 0 <? g_ric g then Some (AckSection (g_sid g)) else None) gs.

Lemma section_acks_cons g gs : section_acks (g :: gs)
  = (if 0 <? g_ric g then [AckSection (g_sid g)] else []) ++ section_acks gs.
Proof. unfold section_acks. cbn. by destruct (0 <? g_ric g). Qed.

Definition arrived (gs : list flight) : deliveries := (λ g, (g_sid g, g_headers g)) <$> gs.

(** [d'] decoded the sections [gs] after [d], over the same table. *)
Record decoded (d d' : Decoder) (known : Z) (gs : list flight) : Prop := MkDecoded {
  dc_dynamic : QpackDecoder.dynamic d' = QpackDecoder.dynamic d;
  dc_capacity : QpackDecoder.max_capacity d' = QpackDecoder.max_capacity d;
  dc_limits : max_blocked_streams d' = max_blocked_streams d
    ∧ max_field_section_size d' = max_field_section_size d;
  dc_pending : encoder_stream_pending d' = encoder_stream_pending d;
  dc_known : QpackDecoder.known_received d ≤ QpackDecoder.known_received d' ≤ known;
  dc_stream : decoder_stream d' = decoder_stream d ++ mjoin (ack_octets <$> section_acks gs);
}.

Lemma decoded_trans d1 d2 d3 known gs ks : decoded d1 d2 known gs → decoded d2 d3 known ks →
  decoded d1 d3 known (gs ++ ks).
Proof.
  intros [A1 A2 [A3 A4] A5 A6 A7] [B1 B2 [B3 B4] B5 B6 B7]. split; try congruence; [split; congruence|lia|].
  unfold section_acks. by rewrite B7, A7, omap_app, fmap_app, join_app, app_assoc.
Qed.

Lemma decoded_none d bl m known : QpackDecoder.known_received d ≤ known → decoded d (set_blocked bl m d) known [].
Proof. intros Hk. split; try done. cbn. by rewrite app_nil_r. Qed.

(** What a call may do with a flight. *)
Definition decodable (mc : Z) (d : Decoder) (hd h : list field) (gs : list flight) : Prop :=
  tracks mc (QpackDecoder.dynamic d) hd ∧ QpackDecoder.max_capacity d = mc
  ∧ QpackDecoder.known_received d ≤ zlen hd ∧ max_field_section_size d = usize_max
  ∧ hd `prefix_of` h ∧ Forall (flight_ok mc h (zlen hd)) gs
  ∧ Forall (λ g, g_ric g ≤ zlen hd → ready mc (QpackDecoder.dynamic d) hd g) gs.

Lemma deliver_flight mc d hd h g : decodable mc d hd h [g] → g_ric g ≤ zlen hd →
  ∃ d', deliver d (g_sid g) (g_block mc g) (g_ric g) = Ok (g_headers g, d')
    ∧ decoded d d' (zlen hd) [g] ∧ blocked d' = blocked d ∧ blocked_by_stream d' = blocked_by_stream d.
Proof.
  intros (Ht & Hmc & Hk & Hb & [x ->] & Hok & Hr) Hric.
  apply Forall_cons in Hok as [Hok _]. apply Forall_cons in Hr as [Hr _]. specialize (Hr Hric).
  unfold deliver, remaining_budget. rewrite Hb, Z.eqb_refl, Hmc.
  rewrite (decode_flight mc _ hd x g Ht Hok Hr). cbn [mbind result_bind].
  eexists. split; [reflexivity|].
  assert (mjoin (ack_octets <$> section_acks [g]) = if 0 <? g_ric g then int_octets (g_sid g) 7 0x80 else []) as Ha.
  { rewrite section_acks_cons. change (section_acks []) with (@nil ack).
    destruct (0 <? g_ric g); cbn; by rewrite ?app_nil_r. }
  pose proof (go_sid _ _ _ _ Hok).
  destruct (Z.ltb_spec 0 (g_ric g)); (split; [|done]); split; try done; rewrite ?Ha; cbn; try lia.
  - apply encode_int; [lia|lia|done].
  - by rewrite app_nil_r.
Qed.

Lemma decodable_cons mc d hd h g gs : decodable mc d hd h (g :: gs) →
  decodable mc d hd h [g] ∧ decodable mc d hd h gs.
Proof.
  intros (H1 & H2 & H3 & H4 & H5 & [H6 H7]%Forall_cons & [H8 H9]%Forall_cons). split; (do 5 (split; [done|])); split; try done; by constructor.
Qed.

Lemma decodable_decoded mc d d' hd h gs ks : decodable mc d hd h gs → decoded d d' (zlen hd) ks →
  decodable mc d' hd h gs.
Proof.
  intros (H1 & H2 & H3 & H4 & H5 & H6 & H7) [A1 A2 [A3 A4] A5 A6 A7]. unfold decodable.
  rewrite A1, A2, A4. do 2 (split; [done|]). split; [lia|done].
Qed.

(** The blocked sections whose count is reached, up to the first that waits. *)
Lemma unblock_flights mc hd h gs : ∀ bl d, decodable mc d hd h gs → holds mc bl gs →
  counted (blocked_by_stream d) gs →
  ∃ dn rest bl' d', gs = dn ++ rest ∧ unblock_loop bl d
      = Ok ((λ g, MkUnblocked (g_sid g) (g_headers g)) <$> dn, d')
    ∧ decoded d d' (zlen hd) dn ∧ blocked d' = bl' ∧ holds mc bl' rest ∧ counted (blocked_by_stream d') rest
    ∧ match rest with [] => True | g :: _ => zlen hd < g_ric g end.
Proof.
  induction gs as [|g gs IH]; intros bl d Hd Hbl Hc.
  { apply Forall2_nil_inv_r in Hbl as ->. exists [], [], [], (set_blocked [] (blocked_by_stream d) d).
    split; [done|]. split; [done|]. split; [|split; [done|]; split; [by constructor|by split]].
    apply decoded_none, Hd. }
  apply Forall2_cons_inv_r in Hbl as (b & bl' & (E1 & E2 & E3) & Hbl & ->). cbn [unblock_loop].
  pose proof Hd as (Ht & _ & Hk & _). assert (inserted (QpackDecoder.dynamic d) = zlen hd) as -> by apply Ht. rewrite E3.
  destruct (Z.ltb_spec (zlen hd) (g_ric g)) as [Hlt|Hge].
  { exists [], (g :: gs), (b :: bl'), (set_blocked (b :: bl') (blocked_by_stream d) d).
    split; [done|]. split; [done|]. split; [by apply decoded_none|].
    split; [done|]. split; [by constructor|by split]. }
  rewrite E1, E2. set (d1 := set_blocked bl' (remove_blocked_section (blocked_by_stream d) (g_sid g)) d).
  assert (decoded d d1 (zlen hd) []) as H1 by (by apply decoded_none).
  destruct (decodable_cons _ _ _ _ _ _ (decodable_decoded _ _ _ _ _ _ _ Hd H1)) as [Hg Hgs].
  destruct (deliver_flight mc d1 hd h g Hg Hge) as (d2 & Ed & H2 & Hb2 & Hc2). rewrite Ed. cbn [mbind result_bind].
  destruct (IH bl' d2) as (dn & rest & bl2 & d3 & -> & Eu & H3 & Hb3 & Hh3 & Hc3 & Hf); [|done| |].
  { by eapply decodable_decoded. }
  { rewrite Hc2. by apply counted_remove. }
  rewrite Eu. cbn [mbind result_bind]. exists (g :: dn), rest, bl2, d3. split; [done|]. split; [done|].
  split; [|done]. change (g :: dn) with ([] ++ [g] ++ dn). by do 2 (eapply decoded_trans; [done|]).
Qed.

(** ** The invariant of a session *)

Record ghost : Type := MkGhost {
  gh_read : list field;                  (* the history the decoder has read *)
  gh_todo : list (bytes * instr);        (* instructions it has not *)
  gh_blocked : list flight;
  gh_flying : list flight;
  gh_acks : list ack;                    (* acknowledgments the encoder has not read *)
}.

Definition history (g : ghost) : list field := gh_read g ++ inserts ((gh_todo g).*2).

(** The references that the flights need kept, by stream. *)
Definition refs (gs : list flight) : list (Z * Z) :=
  omap (λ g, if 0 <? g_ric g then Some (g_sid g, g_min g) else None) gs.

Record inv (s : session) (g : ghost) : Prop := MkInv {
  iv_enc : enc_ok (s_enc s) (history g);
  iv_history : zlen (history g) < 2 ^ 61;
  iv_dec : tracks (max_capacity (s_enc s)) (QpackDecoder.dynamic (s_dec s)) (gh_read g);
  iv_capacity : QpackDecoder.max_capacity (s_dec s) = max_capacity (s_enc s);
  iv_known : QpackDecoder.known_received (s_dec s) = zlen (gh_read g);
  iv_budget : max_field_section_size (s_dec s) = usize_max;
  iv_same : same (apply_all (QpackDecoder.dynamic (s_dec s)) ((gh_todo g).*2)) (dynamic (s_enc s));
  iv_feasible : feasible (max_capacity (s_enc s)) (zlen (gh_read g)) (QpackDecoder.dynamic (s_dec s)) ((gh_todo g).*2);
  iv_writes : Forall (λ w : bytes * instr, writes w.1 w.2) (gh_todo g);
  iv_wire : encoder_stream_pending (s_dec s) ++ s_wire s = mjoin ((gh_todo g).*1);
  iv_drained : s_wire s = [] → gh_todo g = [];
  iv_blocked : holds (max_capacity (s_enc s)) (blocked (s_dec s)) (gh_blocked g);
  iv_counted : counted (blocked_by_stream (s_dec s)) (gh_blocked g);
  iv_front : match gh_blocked g with [] => True | f :: _ => zlen (gh_read g) < g_ric f end;
  iv_flying : s_blocks s = (λ f, (g_sid f, g_block (max_capacity (s_enc s)) f)) <$> gh_flying g;
  iv_flights : Forall (flight_ok (max_capacity (s_enc s)) (history g) (zlen (gh_read g))) (gh_blocked g ++ gh_flying g);
  iv_due : ∀ sid, due sid (s_enc s) (gh_acks g) = on sid (refs (gh_blocked g ++ gh_flying g))
    ∧ (acks_of sid (gh_acks g) ≤ length (on sid (pending_refs (s_enc s))))%nat;
  iv_ack_ok : Forall ack_ok (gh_acks g);
  iv_ack_octets : decoder_stream_pending (s_enc s) ++ s_acks s = mjoin (ack_octets <$> gh_acks g);
  iv_stream : decoder_stream (s_dec s) = [];
  iv_counts : known_received (s_enc s) + counts (gh_acks g) ≤ zlen (gh_read g);
}.

(** *** Flights by stream *)

Lemma refs_app gs ks : refs (gs ++ ks) = refs gs ++ refs ks.
Proof. apply omap_app. Qed.

Lemma on_refs sid gs :
  on sid (refs gs) = omap (λ f, if 0 <? g_ric f then Some (g_min f) else None) (flights sid gs).
Proof.
  induction gs as [|f gs IH]; [done|]. rewrite flights_cons. unfold refs in *. cbn [omap list_omap].
  destruct (0 <? g_ric f) eqn:E; rewrite ?on_cons; cbn [fst snd].
  - destruct (g_sid f =? sid); cbn [omap list_omap]; rewrite ?E; [by rewrite IH|done].
  - destruct (g_sid f =? sid); cbn [omap list_omap]; by rewrite ?E.
Qed.

Lemma on_arrived sid gs : on sid (arrived gs) = g_headers <$> flights sid gs.
Proof.
  induction gs as [|f gs IH]; [done|]. unfold arrived in *. rewrite fmap_cons, on_cons, flights_cons. cbn [fst snd].
  destruct (g_sid f =? sid); [by rewrite fmap_cons, IH|done].
Qed.

Lemma acks_of_app sid l k : acks_of sid (l ++ k) = (acks_of sid l + acks_of sid k)%nat.
Proof. induction l as [|[i|n] l IH]; cbn; [done| |done]. destruct (i =? sid); cbn; by rewrite IH. Qed.

Lemma acks_of_sections sid gs : acks_of sid (section_acks gs) = length (on sid (refs gs)).
Proof.
  induction gs as [|f gs IH]; [done|]. rewrite section_acks_cons, acks_of_app, IH. unfold refs. cbn [omap list_omap].
  destruct (0 <? g_ric f); [|done]. rewrite on_cons. cbn. by destruct (g_sid f =? sid).
Qed.

(** Decoding the sections [dn] makes the same references due as
    acknowledging them. *)
Lemma due_decoded sid e l dn gs gs' extra :
  due sid e l = on sid (refs gs) ∧ (acks_of sid l ≤ length (on sid (pending_refs e)))%nat →
  flights sid gs = flights sid dn ++ flights sid gs' → acks_of sid extra = 0%nat →
  due sid e (l ++ section_acks dn ++ extra) = on sid (refs gs')
  ∧ (acks_of sid (l ++ section_acks dn ++ extra) ≤ length (on sid (pending_refs e)))%nat.
Proof.
  unfold due. intros [Hd Hl] Hf Hx. rewrite !acks_of_app, Hx, acks_of_sections, Nat.add_0_r.
  rewrite (on_refs sid gs), Hf, omap_app, <- !on_refs in Hd. rewrite <- drop_drop, Hd, drop_app_length.
  split; [done|]. apply (f_equal length) in Hd. rewrite length_drop, length_app in Hd. lia.
Qed.

Lemma flights_move sid b k1 f k2 : flights (g_sid f) k1 = [] →
  flights sid (b ++ k1 ++ f :: k2) = flights sid ((b ++ [f]) ++ k1 ++ k2).
Proof.
  intros H. rewrite !flights_app, !flights_cons. change (flights sid []) with (@nil flight).
  destruct (Z.eqb_spec (g_sid f) sid) as [<-|]; [by rewrite H, <- app_assoc|by rewrite app_nil_r].
Qed.

Lemma flights_first sid b k1 f k2 : flights (g_sid f) (b ++ k1) = [] →
  flights sid (b ++ k1 ++ f :: k2) = flights sid [f] ++ flights sid (b ++ k1 ++ k2).
Proof.
  rewrite flights_app. intros [H1 H2]%app_nil. rewrite !flights_app, !flights_cons.
  change (flights sid []) with (@nil flight).
  destruct (Z.eqb_spec (g_sid f) sid) as [<-|]; [by rewrite H1, H2|done].
Qed.

Lemma take_first_flights sid (h : flight → bytes) gs :
  match take_first sid ((λ f, (g_sid f, h f)) <$> gs) with
  | Some (a, rest) => ∃ k1 f k2, gs = k1 ++ f :: k2 ∧ g_sid f = sid ∧ a = h f
      ∧ rest = (λ f, (g_sid f, h f)) <$> (k1 ++ k2) ∧ flights sid k1 = []
  | None => True
  end.
Proof.
  induction gs as [|f gs IH]; [done|]. rewrite fmap_cons. cbn [take_first fst snd].
  destruct (Z.eqb_spec (g_sid f) sid) as [E|Hne]; [by exists [], f, gs|].
  destruct (take_first sid _) as [[a rest]|]; cbn [mbind option_bind]; [|done].
  destruct IH as (k1 & f' & k2 & -> & E & -> & -> & Hk). exists (f :: k1), f', k2.
  repeat split; try done. rewrite flights_cons. by rewrite (proj2 (Z.eqb_neq _ _)).
Qed.

(** *** What it says of the flights *)

Lemma min_pending_le l r : r ∈ l → min_pending l ≤ r.2.
Proof.
  induction 1 as [r l|r k l _ IH]; change (min_pending (?x :: l)) with (Z.min x.2 (min_pending l)); lia.
Qed.

Lemma on_elem {A} sid (a : A) l : a ∈ on sid l → (sid, a) ∈ l.
Proof.
  unfold on. intros ([i x] & Hx & E)%list_elem_of_omap. cbn in E.
  destruct (Z.eqb_spec i sid) as [->|]; [|done]. by injection E as ->.
Qed.

Lemma refs_elem f gs : f ∈ gs → 0 < g_ric f → g_min f ∈ on (g_sid f) (refs gs).
Proof.
  intros Hf Hr. unfold on, refs. apply list_elem_of_omap. exists (g_sid f, g_min f).
  split; [|cbn; by rewrite Z.eqb_refl]. apply list_elem_of_omap. exists f. split; [done|].
  by rewrite (proj2 (Z.ltb_lt 0 _)).
Qed.

Lemma tracks_apply mc known t h js : tracks mc t h → feasible mc known t js →
  tracks mc (apply_all t js) (h ++ inserts js) ∧ dropped t ≤ dropped (apply_all t js).
Proof. intros Ht Hf. destruct (apply_all_steps mc known js t h Ht Hf) as (H1 & H2 & _). done. Qed.

Lemma entry_count_bound mc t h : tracks mc t h → zlen h - dropped t ≤ mc / 32.
Proof.
  intros [Hok Hw Hc]. pose proof (len_bound t Hok). pose proof (window_len t h Hw) as (_ & Hl & Hi).
  apply Z.div_le_lower_bound; lia.
Qed.

Section Inv.

Context (s : session) (g : ghost).
Hypothesis H : inv s g.

Lemma inv_dropped : dropped (QpackDecoder.dynamic (s_dec s)) ≤ dropped (dynamic (s_enc s)).
Proof.
  destruct (tracks_apply _ _ _ _ _ (iv_dec s g H) (iv_feasible s g H)) as [Ht Hd].
  destruct (same_facts _ _ (iv_same s g H) (tr_ok _ _ _ Ht)) as (<- & _); [|done].
  apply (eo_tracks _ _ (iv_enc s g H)).
Qed.

Lemma inv_known : dropped (dynamic (s_enc s)) ≤ known_received (s_enc s) ≤ zlen (gh_read g).
Proof.
  pose proof (eo_floor _ _ (iv_enc s g H)) as Hf. unfold evictable_floor in Hf.
  pose proof (iv_counts s g H). pose proof (counts_nonneg _ (iv_ack_ok s g H)). lia.
Qed.

(** A flight's references are kept. *)
Lemma inv_kept f : f ∈ gh_blocked g ++ gh_flying g → 0 < g_ric f → dropped (dynamic (s_enc s)) ≤ g_min f.
Proof.
  intros Hf Hr. pose proof (refs_elem f _ Hf Hr) as He.
  destruct (iv_due s g H (g_sid f)) as [Hd _]. rewrite <- Hd in He. unfold due in He.
  assert (g_min f ∈ on (g_sid f) (pending_refs (s_enc s))) as Hp.
  { rewrite <- (take_drop (acks_of (g_sid f) (gh_acks g)) (on (g_sid f) (pending_refs (s_enc s)))).
    apply elem_of_app. by right. }
  apply on_elem, min_pending_le in Hp. cbn [snd] in Hp.
  pose proof (eo_floor _ _ (iv_enc s g H)) as Hfl. unfold evictable_floor in Hfl.
  rewrite (eo_min _ _ (iv_enc s g H)) in Hfl. lia.
Qed.

Lemma inv_min f : f ∈ gh_blocked g ++ gh_flying g → 0 < g_ric f → g_min f ≤ g_ric f - 1.
Proof.
  intros Hf Hr. pose proof (proj1 (Forall_forall _ _) (iv_flights s g H) f Hf) as Hok.
  destruct (needed_reached (g_lines f) Hr) as (l & Hl & E). pose proof (go_min _ _ _ _ Hok l Hl).
  unfold g_ric in *. lia.
Qed.

(** Its insert count can be recovered from the prefix. *)
Lemma inv_range f : f ∈ gh_blocked g ++ gh_flying g →
  in_range (max_capacity (s_enc s)) (zlen (gh_read g)) (g_ric f).
Proof.
  intros Hf Hr. pose proof (inv_kept f Hf Hr). pose proof (inv_min f Hf Hr).
  pose proof (proj1 (Forall_forall _ _) (iv_flights s g H) f Hf) as Hok. split; [|apply (go_near _ _ _ _ Hok)].
  pose proof (entry_count_bound _ _ _ (eo_tracks _ _ (iv_enc s g H))) as Hb. unfold history in Hb.
  rewrite zlen_app in Hb. pose proof (zlen_nonneg (inserts ((gh_todo g).*2))). lia.
Qed.

Lemma inv_decodable : decodable (max_capacity (s_enc s)) (s_dec s) (gh_read g) (history g) (gh_blocked g ++ gh_flying g).
Proof.
  split; [apply H|]. split; [apply H|]. split; [rewrite (iv_known s g H); lia|]. split; [apply H|].
  split; [by apply prefix_app_r|]. split; [apply H|]. apply Forall_forall. intros f Hf Hr.
  pose proof inv_dropped. split; [done| |].
  - intros Hpos. pose proof (inv_kept f Hf Hpos). lia.
  - intros Hpos. apply (inv_range f Hf Hpos).
Qed.

End Inv.

(** ** Every step keeps it *)

(** The flights [new] are sent, the flights [dn] are decoded. *)
Definition moved (g g' : ghost) (new dn : list flight) : Prop :=
  (∀ sid, flights sid (gh_blocked g ++ gh_flying g) ++ flights sid new
          = flights sid dn ++ flights sid (gh_blocked g' ++ gh_flying g'))
  ∧ zlen (gh_blocked g' ++ gh_flying g') ≤ zlen (gh_blocked g ++ gh_flying g) + zlen new.

Lemma inv_return s g n : inv s g →
  ∃ s' g', return_acks s n = Ok s' ∧ inv s' g' ∧ history g' = history g ∧ s_dec s' = s_dec s ∧ moved g g' [] [].
Proof.
  intros H. pose proof H as []. unfold return_acks, feed_decoder_stream. cbv zeta.
  pose proof (iv_enc s g H) as He. destruct (eo_tracks _ _ He) as [_ [Hi _] _].
  pose proof (zlen_nonneg (inserts ((gh_todo g).*2))) as Hz.
  assert (zlen (gh_read g) ≤ zlen (history g)) as Hle by (unfold history; rewrite zlen_app; lia).
  assert (2 ^ 61 < usize_max) by done.
  destruct (acks_run (gh_acks g) (length (decoder_stream_pending (s_enc s) ++ take n (s_acks s))) (s_enc s)
    (decoder_stream_pending (s_enc s) ++ take n (s_acks s)) (drop n (s_acks s)))
    as (dn & rest & p & Ea & Er & Ep & Hs); [done|lia|by rewrite <- app_assoc, take_drop|done|].
  rewrite Er. cbn [mbind result_bind]. rewrite (proj2 (Z.ltb_ge _ (zlen p))) by (unfold MAX_DECODER_STREAM_INSTRUCTION; lia).
  cbn [fail_if mbind result_bind]. rewrite Ea in *. apply Forall_app in iv_ack_ok0 as [Ho1 Ho2].
  assert (counts (dn ++ rest) = counts dn + counts rest) as Ec.
  { clear. induction dn as [|a dn IH]; [done|]. cbn [app]. rewrite !counts_cons, IH. lia. }
  pose proof (counts_nonneg rest Ho2).
  destruct (acknowledges dn rest (s_enc s) (history g) He Ho1) as ([E1 E2 E3 E4 E5] & Ed & Em & Ek & Hd);
    [lia|intros sid; apply iv_due0|].
  set (e' := foldl acknowledge (s_enc s) dn) in *.
  set (e2 := MkEncoder (dynamic e') (max_capacity e') (use_huffman e') (known_received e') (pending_refs e')
    (cached_min_pending e') p).
  assert (enc_ok e2 (history g)) as He2 by (by split).
  eexists _, (MkGhost (gh_read g) (gh_todo g) (gh_blocked g) (gh_flying g) rest). split; [reflexivity|].
  split; [|split; [done|split; [done|split; [intros sid; by rewrite app_nil_r|rewrite zlen_nil; cbn [gh_blocked gh_flying]; lia]]]].
  assert (max_capacity e2 = max_capacity (s_enc s)) as Em2 by done.
  assert (dynamic e2 = dynamic (s_enc s)) as Ed2 by done.
  split; cbn [s_enc s_dec s_wire s_blocks s_acks gh_read gh_todo gh_blocked gh_flying gh_acks];
    rewrite ?Em2, ?Ed2; try done.
  - intros sid. destruct (Hd sid) as [Hd1 Hd2]. split; [|done].
    change (due sid e' rest = on sid (refs (gh_blocked g ++ gh_flying g))). rewrite Hd1. apply iv_due0.
  - change (known_received e2) with (known_received e'). lia.
Qed.

#[global] Instance same_sym : Symmetric same.
Proof. intros t u (H1 & H2 & H3). done. Qed.

(** New instructions behind the ones on their way. *)
Lemma todo_app s g ws known : inv s g → known ≤ zlen (gh_read g) →
  feasible (max_capacity (s_enc s)) known (dynamic (s_enc s)) (ws.*2) →
  feasible (max_capacity (s_enc s)) (zlen (gh_read g)) (QpackDecoder.dynamic (s_dec s)) ((gh_todo g ++ ws).*2)
  ∧ same (apply_all (QpackDecoder.dynamic (s_dec s)) ((gh_todo g ++ ws).*2)) (apply_all (dynamic (s_enc s)) (ws.*2)).
Proof.
  intros H Hk Hf. apply (feasible_mono _ _ _ _ _ Hk) in Hf.
  destruct (tracks_apply _ _ _ _ _ (iv_dec s g H) (iv_feasible s g H)) as [Ht _].
  destruct (apply_all_same _ _ _ _ _ _ (symmetry (iv_same s g H)) (eo_tracks _ _ (iv_enc s g H)) Ht Hf) as [Hs Hf2].
  rewrite fmap_app, feasible_app, apply_all_app. split; [split; [apply H|done]|by symmetry].
Qed.

Lemma inv_send s g ack_base sid headers : inv s g → op_ok (Send ack_base sid headers) →
  zlen (history g) + zlen headers < 2 ^ 61 →
  ∃ g' f, inv (send s ack_base sid headers) g' ∧ zlen (history g') ≤ zlen (history g) + zlen headers
    ∧ s_dec (send s ack_base sid headers) = s_dec s
    ∧ g_sid f = sid ∧ g_headers f = headers ∧ moved g g' [f] [].
Proof.
  intros H (Hsid & Hok & Hcount & Hsize) Hh. pose proof H as []. pose proof (inv_known s g H) as Hkn.
  pose proof (eo_tracks _ _ iv_enc0) as Ht. assert (2 ^ 61 < 2 ^ 62) by done.
  assert (zlen (gh_read g) ≤ zlen (history g)) as Hle.
  { unfold history. rewrite zlen_app. pose proof (zlen_nonneg (inserts ((gh_todo g).*2))). lia. }
  set (base := if ack_base then known_received (s_enc s) else inserted (dynamic (s_enc s))).
  assert (0 ≤ base ≤ zlen (history g)) as Hbase.
  { pose proof (eo_known _ _ iv_enc0). destruct (tr_window _ _ _ Ht) as [Hi _]. pose proof (zlen_nonneg (history g)).
    unfold base. destruct ack_base; lia. }
  destruct (encode_section_spec (s_enc s) (history g) sid headers base) as (sec & e' & ws & ls & m & E & Hse);
    [done..|lia|done|].
  assert (send s ack_base sid headers = MkSession e' (s_dec s) (s_wire s ++ encoder_stream sec)
    (s_blocks s ++ [(sid, block sec)]) (s_acks s)) as ->.
  { unfold send, encode_section, encode_section_with_ack_base. unfold base in E. destruct ack_base; by rewrite E. }
  destruct Hse as [S1 S2 (S3 & S4 & S5) S6 S7 S8 S9 S10 S11 S12 S13 S14].
  set (f := MkFlight sid base ls m).
  set (g' := MkGhost (gh_read g) (gh_todo g ++ ws) (gh_blocked g) (gh_flying g ++ [f]) (gh_acks g)). exists g', f.
  assert (history g' = history g ++ inserts (ws.*2)) as Ehist.
  { unfold history. cbn [g' gh_read gh_todo]. by rewrite fmap_app, inserts_app, app_assoc. }
  destruct (todo_app s g ws (known_received (s_enc s)) H ltac:(lia) S7) as [Hf Hs].
  pose proof (entry_count_bound _ _ _ (eo_tracks _ _ S1)) as Hb. rewrite zlen_app in Hb.
  pose proof (eo_floor _ _ S1) as Hfl. unfold evictable_floor in Hfl. rewrite S4 in Hfl.
  pose proof (needed_bound _ _ _ (so_lines _ _ _ _ S10)) as Hn. rewrite zlen_app in Hn.
  pose proof (zlen_nonneg (inserts (ws.*2))) as Hz.
  split; [|rewrite Ehist, zlen_app; split; [lia|]; split; [done|]; split; [done|];
    split; [done|split; [intros i|]; cbn [g' gh_blocked gh_flying app];
      rewrite app_assoc; [by rewrite !flights_app|rewrite !zlen_app; lia]]].
  split; rewrite ?Ehist; cbn [s_enc s_dec s_wire s_blocks s_acks g' gh_read gh_todo gh_blocked gh_flying gh_acks];
    rewrite ?S3; try done.
  - rewrite zlen_app. lia.
  - by rewrite S2.
  - apply Forall_app. by split.
  - by rewrite app_assoc, iv_wire0, S8, fmap_app, join_app.
  - intros [H1 H2]%app_nil. rewrite (iv_drained0 H1). rewrite S8 in H2. destruct ws as [|[o i] ws]; [done|].
    apply Forall_cons in S6 as [Hw _]. apply writes_facts in Hw as (_ & Hpos & _).
    cbn in H2. by apply app_nil in H2 as [-> _].
  - rewrite iv_flying0, fmap_app, S9. done.
  - rewrite app_assoc. apply Forall_app. split.
    + eapply Forall_impl; [exact iv_flights0|]. intros k Hk. apply (flight_ok_grow _ _ _ (zlen (gh_read g))); [done| |lia].
      rewrite zlen_app. lia.
    + constructor; [|done]. rewrite S3 in Hb. split; try done; unfold g_headers, g_ric; cbn [f g_lines]; rewrite ?S11; try done.
      lia.
  - intros i. rewrite app_assoc. destruct (iv_due0 i) as [Hd Hl]. unfold due in *. rewrite S12, on_app, length_app.
    split; [|lia]. rewrite drop_app_le by lia. rewrite Hd, (refs_app (gh_blocked g ++ gh_flying g) [f]), on_app. f_equal.
    unfold refs. cbn [omap list_omap]. unfold g_ric. cbn [f g_lines g_sid g_min]. by destruct (0 <? needed ls).
  - by rewrite S5.
  - rewrite S4. done.
Qed.

Lemma decodable_one mc d hd h gs f : decodable mc d hd h gs → f ∈ gs → decodable mc d hd h [f].
Proof.
  intros (H1 & H2 & H3 & H4 & H5 & H6 & H7) Hf. do 5 (split; [done|]).
  rewrite Forall_forall in H6. rewrite Forall_forall in H7. split; (constructor; [by auto|done]).
Qed.

Lemma stream_blocked d gs sid : counted (blocked_by_stream d) gs →
  stream_has_blocked d sid = negb (bool_decide (flights sid gs = [])).
Proof.
  intros Hc. unfold stream_has_blocked. rewrite (Hc sid).
  destruct (bool_decide (flights sid gs = [])); cbn [negb]; [by rewrite bool_decide_eq_false_2 by (by intros [? ?])|].
  by rewrite bool_decide_eq_true_2 by eauto.
Qed.

(** A section is decoded at once, or buffered: when it needs entries to come or
    its stream has one buffered already. *)
Lemma decode_block_flight mc d hd h f gs now : decodable mc d hd h [f] → in_range mc (zlen hd) (g_ric f) →
  counted (blocked_by_stream d) gs → zlen gs < max_blocked_streams d →
  if (zlen hd <? g_ric f) || negb (bool_decide (flights (g_sid f) gs = []))
  then decode_block d (g_block mc f) (g_sid f) now
    = Ok (None, set_blocked (blocked d ++ [MkBlocked (g_sid f) (g_block mc f) (g_ric f) now])
                  (add_blocked_section (blocked_by_stream d) (g_sid f)) d)
  else ∃ d', decode_block d (g_block mc f) (g_sid f) now = Ok (Some (g_headers f), d')
    ∧ decoded d d' (zlen hd) [f] ∧ blocked d' = blocked d ∧ blocked_by_stream d' = blocked_by_stream d.
Proof.
  intros Hd Hr Hc Hm. pose proof Hd as (Ht & Hmc & _ & _ & _ & Hok & _). apply Forall_cons in Hok as [Hok _].
  assert (inserted (QpackDecoder.dynamic d) = zlen hd) as Hi by apply Ht.
  pose proof (read_prefix_section mc (g_base f) h (g_lines f) (zlen hd) (go_section _ _ _ _ Hok) Hr) as Hp.
  fold (g_block mc f) (g_ric f) in Hp. unfold decode_block.
  destruct ((zlen hd <? g_ric f) || _) eqn:E.
  - rewrite Hmc, Hi, Hp, (stream_blocked d gs _ Hc). cbn [mbind result_bind]. rewrite E.
    pose proof (counted_size _ _ Hc). rewrite (proj2 (Z.leb_gt _ _)) by (unfold zlen in Hm; lia).
    by rewrite andb_false_r.
  - apply orb_false_iff in E as [E%Z.ltb_ge E2].
    destruct (deliver_flight mc d hd h f Hd E) as (d' & Ed & H1 & H2 & H3). exists d'. split; [|done].
    rewrite Hmc, Hi, Hp, (stream_blocked d gs _ Hc). cbn [mbind result_bind].
    rewrite (proj2 (Z.ltb_ge _ _)), E2 by lia. cbn [orb]. by rewrite Ed.
Qed.

Lemma section_acks_ok mc h ins gs : Forall (flight_ok mc h ins) gs → Forall ack_ok (section_acks gs).
Proof.
  induction 1 as [|f gs Hf _ IH]; [done|]. rewrite section_acks_cons. apply Forall_app. split; [|done].
  destruct (0 <? g_ric f); [|done]. constructor; [|done]. apply (go_sid _ _ _ _ Hf).
Qed.

Lemma counts_app l k : counts (l ++ k) = counts l + counts k.
Proof. induction l as [|a l IH]; [done|]. cbn [app]. rewrite !counts_cons, IH. lia. Qed.

Lemma counts_sections gs : counts (section_acks gs) = 0.
Proof. induction gs as [|f gs IH]; [done|]. rewrite section_acks_cons, counts_app, IH. by destruct (0 <? g_ric f). Qed.

(** What the decoder's calls have in common: they decode the flights [dn],
    acknowledge them and, with [extra], entries. *)
Record progress (s : session) (g g' : ghost) (d' : Decoder) (wire : bytes) (dn : list flight) (extra : list ack) : Prop := MkProgress {
  pg_history : history g' = history g;
  pg_read : zlen (gh_read g) + counts extra ≤ zlen (gh_read g');
  pg_tracks : tracks (max_capacity (s_enc s)) (QpackDecoder.dynamic d') (gh_read g');
  pg_static : QpackDecoder.max_capacity d' = max_capacity (s_enc s) ∧ max_field_section_size d' = usize_max
    ∧ QpackDecoder.known_received d' = zlen (gh_read g');
  pg_same : same (apply_all (QpackDecoder.dynamic d') ((gh_todo g').*2)) (dynamic (s_enc s));
  pg_feasible : feasible (max_capacity (s_enc s)) (zlen (gh_read g')) (QpackDecoder.dynamic d') ((gh_todo g').*2);
  pg_writes : Forall (λ w : bytes * instr, writes w.1 w.2) (gh_todo g');
  pg_wire : encoder_stream_pending d' ++ wire = mjoin ((gh_todo g').*1);
  pg_drained : wire = [] → gh_todo g' = [];
  pg_blocked : holds (max_capacity (s_enc s)) (blocked d') (gh_blocked g');
  pg_counted : counted (blocked_by_stream d') (gh_blocked g');
  pg_front : match gh_blocked g' with [] => True | f :: _ => zlen (gh_read g') < g_ric f end;
  pg_acks : gh_acks g' = gh_acks g ++ section_acks dn ++ extra;
  pg_stream : decoder_stream d' = mjoin (ack_octets <$> section_acks dn ++ extra);
  pg_extra : Forall ack_ok extra ∧ ∀ sid, acks_of sid extra = 0%nat;
  pg_flights : ∀ sid, flights sid (gh_blocked g ++ gh_flying g)
                      = flights sid dn ++ flights sid (gh_blocked g' ++ gh_flying g');
  pg_subset : dn ++ gh_blocked g' ++ gh_flying g' ⊆ gh_blocked g ++ gh_flying g;
}.

Lemma inv_progress s g g' d' wire dn extra : inv s g → progress s g g' d' wire dn extra →
  inv (after s wire ((λ f, (g_sid f, g_block (max_capacity (s_enc s)) f)) <$> gh_flying g') d') g'.
Proof.
  intros [] [P1 P2 P3 (P4 & P5 & P6) P7 P8 P9 P10 P11 P12 P13 P14 P15 P16 [P17 P18] P19 P20].
  assert (0 ≤ counts extra) by (by apply counts_nonneg).
  assert (∀ gs, gs ⊆ gh_blocked g ++ gh_flying g →
    Forall (flight_ok (max_capacity (s_enc s)) (history g) (zlen (gh_read g'))) gs) as Hok.
  { intros gs Hgs. apply Forall_forall. intros f Hf. apply Hgs in Hf.
    rewrite <- (app_nil_r (history g)). apply (flight_ok_grow _ _ _ (zlen (gh_read g))); [|rewrite app_nil_r|lia].
    - by apply (proj1 (Forall_forall _ _) iv_flights0).
    - assert (2 ^ 61 < 2 ^ 62) by done. lia. }
  unfold after. destruct (take_decoder_stream d') as [out d2] eqn:E.
  unfold take_decoder_stream in E. injection E as <- <-.
  split; cbn [s_enc s_dec s_wire s_blocks s_acks announce QpackDecoder.dynamic QpackDecoder.max_capacity
    QpackDecoder.known_received max_field_section_size encoder_stream_pending blocked blocked_by_stream decoder_stream];
    rewrite ?P1; try done.
  - apply Hok. intros f Hf. apply P20, elem_of_app. by right.
  - intros sid. rewrite P15. apply (due_decoded sid _ _ _ (gh_blocked g ++ gh_flying g)); auto.
  - rewrite P15. apply Forall_app. split; [done|]. apply Forall_app. split; [|done].
    apply (section_acks_ok (max_capacity (s_enc s)) (history g) (zlen (gh_read g'))), Hok.
    intros f Hf. apply P20, elem_of_app. by left.
  - rewrite app_assoc, iv_ack_octets0, P16, P15, (fmap_app _ (gh_acks g)), join_app. done.
  - rewrite P15, !counts_app, counts_sections. lia.
Qed.

Lemma moved_flights g g' dn : (∀ sid, flights sid (gh_blocked g ++ gh_flying g)
  = flights sid dn ++ flights sid (gh_blocked g' ++ gh_flying g')) →
  zlen (gh_blocked g' ++ gh_flying g') ≤ zlen (gh_blocked g ++ gh_flying g) → moved g g' [] dn.
Proof. intros H Hl. split; [intros sid; by rewrite app_nil_r|rewrite zlen_nil; lia]. Qed.

Lemma inv_arrive s g sid now : inv s g → zlen (gh_blocked g ++ gh_flying g) ≤ max_blocked_streams (s_dec s) →
  ∃ s' g' dn, arrive s sid now = Ok (s', arrived dn) ∧ inv s' g' ∧ history g' = history g
    ∧ max_blocked_streams (s_dec s') = max_blocked_streams (s_dec s) ∧ moved g g' [] dn.
Proof.
  intros H Hm. pose proof H as []. unfold arrive. rewrite iv_flying0.
  pose proof (take_first_flights sid (g_block (max_capacity (s_enc s))) (gh_flying g)) as Htf.
  destruct (take_first sid _) as [[blk rest]|].
  2:{ exists s, g, []. split; [done|]. split; [done|]. split; [done|]. split; [done|]. apply moved_flights; [done|lia]. }
  destruct Htf as (k1 & f & k2 & Ef & <- & -> & -> & Hk1). rewrite Ef in *.
  pose proof (decodable_one _ _ _ _ _ f (inv_decodable s g H) ltac:(rewrite Ef; set_solver)) as Hd.
  pose proof (inv_range s g H f ltac:(rewrite Ef; set_solver)) as Hr.
  assert (zlen (gh_blocked g) < max_blocked_streams (s_dec s)) as Hlt.
  { rewrite !zlen_app, zlen_cons in Hm. pose proof (zlen_nonneg k1). zlia. }
  pose proof (decode_block_flight _ _ _ _ f _ now Hd Hr iv_counted0 Hlt) as Hdec.
  destruct ((zlen (gh_read g) <? g_ric f) || negb (bool_decide (flights (g_sid f) (gh_blocked g) = []))) eqn:E.
  - rewrite Hdec. cbn [mbind result_bind].
    set (g' := MkGhost (gh_read g) (gh_todo g) (gh_blocked g ++ [f]) (k1 ++ k2) (gh_acks g)).
    set (d' := set_blocked _ _ _). eexists _, g', []. split; [reflexivity|].
    assert (∀ i, flights i (gh_blocked g ++ gh_flying g)
      = flights i [] ++ flights i (gh_blocked g' ++ gh_flying g')) as Hfl.
    { intros i. rewrite Ef. cbn [app flights]. by apply flights_move. }
    split; [|split; [done|split; [done|apply moved_flights; [done|]]]].
    2:{ rewrite Ef. cbn [g' gh_blocked gh_flying]. rewrite !zlen_app, !zlen_cons, ?zlen_nil. lia. }
    apply (inv_progress s g g' d' (s_wire s) [] []); [done|].
    split; cbn [g' gh_read gh_todo gh_blocked gh_flying gh_acks]; try done; try (by rewrite ?app_nil_r); try lia.
    + cbn. lia.
    + unfold holds. apply Forall2_app; [done|]. by repeat constructor.
    + by apply counted_add.
    + destruct (gh_blocked g) as [|f0 gs]; [|done]. cbn [app]. apply orb_true_iff in E as [E%Z.ltb_lt|E]; [done|].
      by rewrite bool_decide_eq_true_2 in E.
    + rewrite Ef. set_solver.
  - destruct Hdec as (d' & Ed & Hdd & Hb & Hc). rewrite Ed. cbn [mbind result_bind].
    set (g' := MkGhost (gh_read g) (gh_todo g) (gh_blocked g) (k1 ++ k2) (gh_acks g ++ section_acks [f] ++ [])).
    eexists _, g', [f]. split; [reflexivity|]. apply orb_false_iff in E as [_ E%negb_false_iff%bool_decide_eq_true].
    destruct Hdd as [D1 D2 [D3 D4] D5 D6 D7].
    assert (∀ i, flights i (gh_blocked g ++ gh_flying g)
      = flights i [f] ++ flights i (gh_blocked g' ++ gh_flying g')) as Hfl.
    { intros i. rewrite Ef. cbn [g' gh_blocked gh_flying]. apply flights_first. by rewrite flights_app, E, Hk1. }
    split; [|split; [done|split; [done|apply moved_flights; [done|]]]].
    2:{ rewrite Ef. cbn [g' gh_blocked gh_flying]. rewrite !zlen_app, !zlen_cons, ?zlen_nil. lia. }
    apply (inv_progress s g g' d' (s_wire s) [f] []); [done|].
    split; cbn [g' gh_read gh_todo gh_blocked gh_flying gh_acks]; rewrite ?D1, ?D2, ?D4, ?D5, ?Hb, ?Hc; try done.
    + cbn. lia.
    + split; [done|]. split; [done|]. lia.
    + by rewrite D7, iv_stream0, app_nil_r.
    + rewrite Ef. set_solver.
Qed.

(** The instruction loop of [feed_encoder_stream]: the table moves on. *)
Lemma feed_table s g n : inv s g →
  let t := QpackDecoder.dynamic (s_dec s) in
  ∃ dn rest p, gh_todo g = dn ++ rest
    ∧ feed_encoder_stream (s_dec s) (take n (s_wire s))
      = ('(sections, d) ← unblock_loop (blocked (s_dec s))
           (set_pending p (QpackDecoder.set_dynamic (apply_all t (dn.*2)) (s_dec s)));
         Ok (sections, increment d))
    ∧ p ++ drop n (s_wire s) = mjoin (rest.*1) ∧ (drop n (s_wire s) = [] → rest = [])
    ∧ tracks (max_capacity (s_enc s)) (apply_all t (dn.*2)) (gh_read g ++ inserts (dn.*2))
    ∧ feasible (max_capacity (s_enc s)) (zlen (gh_read g)) (apply_all t (dn.*2)) (rest.*2)
    ∧ same (apply_all (apply_all t (dn.*2)) (rest.*2)) (dynamic (s_enc s))
    ∧ dropped (apply_all t (dn.*2)) ≤ dropped (dynamic (s_enc s)).
Proof.
  intros H t. pose proof H as []. set (p := encoder_stream_pending (s_dec s) ++ take n (s_wire s)).
  assert (p ++ drop n (s_wire s) = mjoin ((gh_todo g).*1)) as Hp by (unfold p; by rewrite <- app_assoc, take_drop).
  pose proof (eo_capacity _ _ iv_enc0) as Hmc. pose proof (inv_known s g H) as Hkn.
  destruct (tracks_apply _ _ _ _ _ iv_dec0 iv_feasible0) as [Ht _]. fold t in Ht.
  destruct (same_facts _ _ iv_same0 (tr_ok _ _ _ Ht) (tr_ok _ _ _ (eo_tracks _ _ iv_enc0))) as (Hdr & _).
  assert (zlen p ≤ max_capacity (s_enc s) + 12) as Hfit.
  { transitivity (zlen (mjoin ((gh_todo g).*1))).
    - rewrite <- Hp, zlen_app. pose proof (zlen_nonneg (drop n (s_wire s))). lia.
    - apply (stream_fits (max_capacity (s_enc s)) (zlen (gh_read g)) (gh_todo g) t (gh_read g)); [done..|]. fold t in Hdr. lia. }
  destruct (instructions_run (max_capacity (s_enc s)) (zlen (gh_read g)) (gh_todo g) (length p) t (gh_read g) p (drop n (s_wire s)))
    as (dn & rest & p' & Etodo & Erun & Hrest & Hdrain); [done|done|apply zlen_nonneg|done|done|done|].
  exists dn, rest, p'. split; [done|].
  rewrite Etodo, fmap_app, feasible_app in iv_feasible0. destruct iv_feasible0 as [Hf1 Hf2].
  rewrite Etodo, fmap_app, apply_all_app in iv_same0.
  destruct (tracks_apply _ _ _ _ _ iv_dec0 Hf1) as [Ht1 _]. fold t in Ht1, Hf2, iv_same0.
  destruct (tracks_apply _ _ _ _ _ Ht1 Hf2) as [_ Hd2].
  split; [|do 5 (split; [done|]); fold t in Hdr; rewrite Etodo, fmap_app, apply_all_app in Hdr; lia].
  unfold feed_encoder_stream. cbv zeta. fold p t. rewrite iv_capacity0, iv_known0.
  assert (2 ^ 60 + 1024 < usize_max) by done. unfold saturating_add64. rewrite Z.min_l by lia.
  rewrite (proj2 (Z.ltb_ge _ (zlen p))) by lia. cbn [fail_if mbind result_bind]. by rewrite Erun.
Qed.

Lemma increment_spec d : QpackDecoder.known_received d ≤ inserted (QpackDecoder.dynamic d) < 2 ^ 62 →
  0 ≤ QpackDecoder.known_received d →
  ∃ extra, Forall ack_ok extra ∧ (∀ sid, acks_of sid extra = 0%nat)
    ∧ counts extra = inserted (QpackDecoder.dynamic d) - QpackDecoder.known_received d
    ∧ increment d = announce (inserted (QpackDecoder.dynamic d)) (decoder_stream d ++ mjoin (ack_octets <$> extra)) d.
Proof.
  intros Hk Hk0. unfold increment. destruct (Z.ltb_spec (QpackDecoder.known_received d) (inserted (QpackDecoder.dynamic d))).
  - exists [AckCount (inserted (QpackDecoder.dynamic d) - QpackDecoder.known_received d)].
    split; [constructor; [cbn; lia|done]|]. split; [done|]. split; [cbn; lia|].
    rewrite encode_int by (lia || done). cbn. by rewrite app_nil_r.
  - exists []. split; [done|]. split; [done|]. split; [cbn; lia|]. cbn. rewrite app_nil_r.
    assert (inserted (QpackDecoder.dynamic d) = QpackDecoder.known_received d) as -> by lia. by destruct d.
Qed.

Lemma unblocked_arrived dn : unblocked ((λ g, MkUnblocked (g_sid g) (g_headers g)) <$> dn) = arrived dn.
Proof. unfold unblocked, arrived. by rewrite <- list_fmap_compose. Qed.

Lemma inv_feed s g n : inv s g →
  ∃ s' g' dn, feed s n = Ok (s', arrived dn) ∧ inv s' g' ∧ history g' = history g
    ∧ max_blocked_streams (s_dec s') = max_blocked_streams (s_dec s) ∧ moved g g' [] dn.
Proof.
  intros H. pose proof H as [].
  destruct (feed_table s g n H) as (ins & rest & p & Etodo & Efeed & Hrest & Hdrain & Ht & Hf & Hs & Hd).
  set (t := apply_all _ (ins.*2)) in *. set (read := gh_read g ++ inserts (ins.*2)) in *.
  set (d1 := set_pending p (QpackDecoder.set_dynamic t (s_dec s))) in *.
  assert (read ++ inserts (rest.*2) = history g) as Eh.
  { unfold read, history. by rewrite Etodo, fmap_app, inserts_app, app_assoc. }
  assert (zlen (gh_read g) ≤ zlen read ≤ zlen (history g)) as Hle.
  { rewrite <- Eh. unfold read. rewrite !zlen_app. pose proof (zlen_nonneg (inserts (ins.*2))).
    pose proof (zlen_nonneg (inserts (rest.*2))). lia. }
  assert (decodable (max_capacity (s_enc s)) d1 read (history g) (gh_blocked g)) as Hdec.
  { split; [done|]. split; [done|]. split; [cbn; lia|]. split; [done|]. split; [rewrite <- Eh; by apply prefix_app_r|].
    apply Forall_app in iv_flights0 as [Hfl _]. split; apply Forall_forall; intros f Hin.
    - rewrite <- (app_nil_r (history g)). apply (flight_ok_grow _ _ _ (zlen (gh_read g))); [|rewrite app_nil_r|lia].
      + by apply (proj1 (Forall_forall _ _) Hfl).
      + assert (2 ^ 61 < 2 ^ 62) by done. lia.
    - intros Hr. split; [done| |]; intros Hpos;
        pose proof (inv_kept s g H f ltac:(set_solver) Hpos); pose proof (inv_min s g H f ltac:(set_solver) Hpos);
        [change (dropped t ≤ g_min f); lia|].
      pose proof (entry_count_bound _ _ _ (eo_tracks _ _ iv_enc0)). lia. }
  destruct (unblock_flights _ _ _ _ (blocked (s_dec s)) d1 Hdec iv_blocked0 iv_counted0)
    as (dn & left & bl & d2 & Ebl & Eun & [D1 D2 [D3 D4] D5 D6 D7] & Hb & Hh & Hc & Hfr).
  assert (inserted (QpackDecoder.dynamic d2) = zlen read) as Hi by (rewrite D1; apply Ht).
  assert (2 ^ 61 < 2 ^ 62) by done. change (QpackDecoder.known_received d1) with (QpackDecoder.known_received (s_dec s)) in D6.
  pose proof (zlen_nonneg (gh_read g)).
  destruct (increment_spec d2) as (extra & Hx1 & Hx2 & Hx3 & Einc); [lia..|].
  set (g' := MkGhost read rest left (gh_flying g) (gh_acks g ++ section_acks dn ++ extra)).
  unfold feed. rewrite Efeed, Eun. cbn [mbind result_bind]. rewrite Einc, unblocked_arrived.
  assert (∀ i, flights i (gh_blocked g ++ gh_flying g)
    = flights i dn ++ flights i (gh_blocked g' ++ gh_flying g')) as Hfl.
  { intros i. rewrite Ebl. cbn [g' gh_blocked gh_flying]. by rewrite !flights_app, app_assoc. }
  eexists _, g', dn. split; [reflexivity|].
  split; [|split; [done|split; [by cbn; rewrite D3|apply moved_flights; [done|]]]].
  2:{ rewrite Ebl. cbn [g' gh_blocked gh_flying]. zlia. }
  rewrite iv_flying0. apply (inv_progress s g g' _ (drop n (s_wire s)) dn extra H).
  split; cbn [g' gh_read gh_todo gh_blocked gh_flying gh_acks announce QpackDecoder.dynamic QpackDecoder.max_capacity
    QpackDecoder.known_received max_field_section_size encoder_stream_pending blocked blocked_by_stream decoder_stream];
    rewrite ?D1, ?D5, ?Hb; try done.
  - lia.
  - rewrite D2, D4. split; [done|]. split; [done|]. by rewrite <- D1.
  - apply (feasible_mono _ (zlen (gh_read g))); [lia|done].
  - rewrite Etodo in iv_writes0. by apply Forall_app in iv_writes0 as [_ ?].
  - rewrite D7, fmap_app, join_app. change (decoder_stream d1) with (decoder_stream (s_dec s)). by rewrite iv_stream0.
  - rewrite Ebl. set_solver.
Qed.

(** ** Whole sessions *)

Lemma inv_start mc mb huff : 0 ≤ mc < 2 ^ 60 → inv (start mc mb huff) (MkGhost [] [] [] [] []).
Proof.
  intros Hmc. destruct (window_empty 0 ltac:(lia)) as (H1 & H2 & H3 & H4).
  split; try done.
  - split; try done. split; try done. cbn. lia.
  - split; try done. cbn. lia.
  - constructor.
Qed.

Lemma op_ok_headers o : op_ok o → zlen (sent [o]) = 1 → ∃ ab sid headers, o = Send ab sid headers
  ∧ zlen headers ≤ MAX_FIELDS_PER_SECTION.
Proof. destruct o as [ab sid headers| | |]; [|done..]. intros (_ & _ & H & _) _. eauto. Qed.

Lemma sent_cons o ops : sent (o :: ops) = sent [o] ++ sent ops.
Proof. unfold sent. cbn. by destruct o. Qed.

(** One operation. *)
Lemma step_inv s g o : inv s g → op_ok o →
  zlen (gh_blocked g ++ gh_flying g) + zlen (sent [o]) ≤ max_blocked_streams (s_dec s) →
  zlen (history g) + MAX_FIELDS_PER_SECTION * zlen (sent [o]) < 2 ^ 61 →
  ∃ s' g' new dn, step s o = Ok (s', arrived dn) ∧ inv s' g'
    ∧ zlen (history g') ≤ zlen (history g) + MAX_FIELDS_PER_SECTION * zlen (sent [o])
    ∧ max_blocked_streams (s_dec s') = max_blocked_streams (s_dec s)
    ∧ sent [o] = arrived new ∧ moved g g' new dn.
Proof.
  intros H Ho Hm Hh. assert (MAX_FIELDS_PER_SECTION = 8192) as Emax by done. destruct o as [ab sid headers|n|sid now|n]; cbn [step].
  - pose proof Ho as (_ & _ & Hc & _). change (zlen (sent [Send ab sid headers])) with 1 in *.
    destruct (inv_send s g ab sid headers H Ho ltac:(lia)) as (g' & f & H' & Hh' & Hd & Es & Ef & Hmv).
    exists (send s ab sid headers), g', [f], []. split; [done|]. split; [done|]. split; [lia|]. split; [by rewrite Hd|].
    split; [|done]. unfold arrived. cbn [fmap list_fmap sent omap list_omap]. by rewrite Es, Ef.
  - destruct (inv_feed s g n H) as (s' & g' & dn & E & H' & Eh & Em & Hmv). exists s', g', [], dn.
    rewrite Eh. cbn [sent omap list_omap]. split; [done|]. split; [done|]. split; [|done].
    change (zlen _) with 0 at 3. lia.
  - change (zlen (sent [Arrive sid now])) with 0 in Hm.
    destruct (inv_arrive s g sid now H ltac:(lia)) as (s' & g' & dn & E & H' & Eh & Em & Hmv). exists s', g', [], dn.
    rewrite Eh. cbn [sent omap list_omap]. split; [done|]. split; [done|]. split; [|done].
    change (zlen _) with 0 at 3. lia.
  - destruct (inv_return s g n H) as (s' & g' & E & H' & Eh & Ed & Hmv). exists s', g', [], [].
    rewrite E, Eh, Ed. cbn [sent omap list_omap mbind result_bind]. split; [done|]. split; [done|]. split; [|done].
    change (zlen _) with 0 at 3. lia.
Qed.

Lemma run_inv ops : ∀ s g, inv s g → Forall op_ok ops →
  zlen (gh_blocked g ++ gh_flying g) + zlen (sent ops) ≤ max_blocked_streams (s_dec s) →
  zlen (history g) + MAX_FIELDS_PER_SECTION * zlen (sent ops) < 2 ^ 61 →
  ∃ s' g' out, run s ops = Ok (s', out) ∧ inv s' g'
    ∧ ∀ sid, (g_headers <$> flights sid (gh_blocked g ++ gh_flying g)) ++ on sid (sent ops)
             = on sid out ++ (g_headers <$> flights sid (gh_blocked g' ++ gh_flying g')).
Proof.
  induction ops as [|o ops IH]; intros s g H Hops Hm Hh.
  { exists s, g, []. split; [done|]. split; [done|]. intros sid. by rewrite app_nil_r. }
  apply Forall_cons in Hops as [Ho Hops]. rewrite sent_cons, zlen_app in *.
  pose proof (zlen_nonneg (sent ops)). pose proof (zlen_nonneg (sent [o])).
  assert (MAX_FIELDS_PER_SECTION = 8192) as Emax by done.
  destruct (step_inv s g o H Ho ltac:(lia) ltac:(lia)) as (s1 & g1 & new & dn & E1 & I1 & Hh1 & Em1 & En & Hmv & Hlen).
  assert (zlen new = zlen (sent [o])) as Hnew by (rewrite En; unfold arrived, zlen; by rewrite length_fmap).
  destruct (IH s1 g1 I1 Hops ltac:(lia) ltac:(lia)) as (s2 & g2 & out & E2 & I2 & Hout).
  exists s2, g2, (arrived dn ++ out). cbn [run]. rewrite E1. cbn [mbind result_bind]. rewrite E2. split; [done|].
  split; [done|]. intros sid. rewrite !on_app, En, !on_arrived, <- app_assoc, <- Hout, !app_assoc, <- !fmap_app.
  by rewrite Hmv.
Qed.

(** With everything arrived, nothing is left undecoded. *)
Lemma inv_quiet s g : inv s g → s_wire s = [] → s_blocks s = [] → gh_blocked g ++ gh_flying g = [].
Proof.
  intros [] Hw Hb. rewrite iv_flying0 in Hb. apply fmap_nil_inv in Hb. rewrite Hb, app_nil_r in *.
  destruct (gh_blocked g) as [|f gs]; [done|]. exfalso.
  apply Forall_cons in iv_flights0 as [Hf _].
  pose proof (needed_bound _ _ _ (so_lines _ _ _ _ (go_section _ _ _ _ Hf))) as Hn.
  assert (history g = gh_read g) as Eh by (unfold history; rewrite (iv_drained0 Hw); apply app_nil_r).
  rewrite Eh in Hn. unfold g_ric in iv_front0. lia.
Qed.

Lemma after_shape s wire blocks d : s_wire (after s wire blocks d) = wire ∧ s_blocks (after s wire blocks d) = blocks.
Proof. unfold after. by destruct (take_decoder_stream d). Qed.

(** Everything on its way to the decoder arrives. *)
Definition flush (s : session) : list op := Feed (length (s_wire s)) :: ((λ x : Z * bytes, Arrive x.1 0) <$> s_blocks s).

Lemma run_arrives l : ∀ s s' out, s_blocks s = l → run s ((λ x : Z * bytes, Arrive x.1 0) <$> l) = Ok (s', out) →
  s_wire s' = s_wire s ∧ s_blocks s' = [].
Proof.
  induction l as [|x l IH]; intros s s' out Hs; [by intros [= <- _]|].
  rewrite fmap_cons. cbn [run step]. unfold arrive. rewrite Hs. cbn [take_first]. rewrite Z.eqb_refl.
  destruct (decode_block (s_dec s) x.2 x.1 0) as [[r d]|]; [|done]. cbn [mbind result_bind].
  destruct (after_shape s (s_wire s) l d) as [Hw Hb].
  destruct (run (after s (s_wire s) l d) _) as [[s2 out2]|] eqn:E; [|done]. cbn. intros [= <- _].
  rewrite <- Hw. by apply (IH _ _ _ Hb E).
Qed.

Lemma run_flush s s' out : run s (flush s) = Ok (s', out) → s_wire s' = [] ∧ s_blocks s' = [].
Proof.
  unfold flush. cbn [run step]. unfold feed.
  destruct (feed_encoder_stream (s_dec s) _) as [[sections d]|]; [|done]. cbn [mbind result_bind].
  destruct (after_shape s (drop (length (s_wire s)) (s_wire s)) (s_blocks s) d) as [Hw Hb].
  destruct (run (after _ _ _ _) _) as [[s2 out2]|] eqn:E; [|done]. cbn. intros [= <- _].
  apply run_arrives in E as [-> ->]; [|done]. rewrite Hw. split; [|done]. apply drop_all.
Qed.

Lemma sent_flush s : sent (flush s) = [].
Proof. unfold flush. rewrite sent_cons. cbn [sent omap list_omap app]. by induction (s_blocks s) as [|x l IH]. Qed.

Lemma flush_ops_ok s : Forall op_ok (flush s).
Proof. constructor; [done|]. apply Forall_fmap, Forall_true. by intros x. Qed.

Lemma run_start mc mb huff ops : 0 ≤ mc < 2 ^ 60 → Forall op_ok ops → zlen (sent ops) ≤ mb →
  zlen (sent ops) < 2 ^ 48 →
  ∃ s g out, run (start mc mb huff) ops = Ok (s, out) ∧ inv s g
    ∧ ∀ sid, on sid (sent ops) = on sid out ++ (g_headers <$> flights sid (gh_blocked g ++ gh_flying g)).
Proof.
  intros Hmc Hops Hm Hn. change (2 ^ 48) with 281474976710656 in Hn.
  destruct (run_inv ops _ _ (inv_start mc mb huff Hmc) Hops) as (s & g & out & E & H & Hout).
  - done.
  - change (zlen (history _)) with 0. change MAX_FIELDS_PER_SECTION with 8192.
    change (2 ^ 61) with 2305843009213693952. lia.
  - exists s, g, out. split; [done|]. split; [done|]. intros sid. by rewrite <- Hout.
Qed.

(** C3. A QPACK connection is correct however it is interleaved: for any
    sections sent within the limits (at most 8192 fields of each, and no more
    sections than the decoder may block), with the insertions of one section
    used by the next before or after they are acknowledged, and with the
    encoder stream, the decoder stream and the sections of different streams
    arriving in any order and in chunks of any size, no call of either end
    fails; on every stream the headers delivered are those sent, in order; and
    all of them are delivered once the encoder stream and the sections have
    arrived. *)
Theorem qpack_session mc mb huff ops : 0 ≤ mc < 2 ^ 60 → Forall op_ok ops → zlen (sent ops) ≤ mb →
  zlen (sent ops) < 2 ^ 48 →
  ∃ s out, run (start mc mb huff) ops = Ok (s, out)
    ∧ ∀ sid, on sid out `prefix_of` on sid (sent ops)
      ∧ (s_wire s = [] → s_blocks s = [] → on sid out = on sid (sent ops)).
Proof.
  intros Hmc Hops Hm Hn. destruct (run_start mc mb huff ops Hmc Hops Hm Hn) as (s & g & out & E & H & Hout).
  exists s, out. split; [done|]. intros sid. rewrite (Hout sid). split; [by apply prefix_app_r|].
  intros Hw Hb. by rewrite (inv_quiet s g H Hw Hb), app_nil_r.
Qed.

Lemma qpack_session_witness :
  let ops := [Send false 0 [(b "x-session", b "1234")]; Send true 4 [(b "x-session", b "1234")];
              Arrive 4 0; Feed 7; Arrive 0 0; Feed 100; Return 2] in
  ∃ s out, run (start 4096 16 true) ops = Ok (s, out)
    ∧ ∀ sid, on sid out `prefix_of` on sid (sent ops)
      ∧ (s_wire s = [] → s_blocks s = [] → on sid out = on sid (sent ops)).
Proof.
  intros ops. apply (qpack_session 4096 16 true ops); [done| |vm_compute; discriminate|vm_compute; reflexivity].
  repeat constructor; try lia; try solve_bytes; try (vm_compute; discriminate); vm_compute; reflexivity.
Defined.

(** No section is lost or stuck: from wherever a session is, the arrival of
    what is on its way completes the delivery of every section sent. *)
Theorem qpack_delivers mc mb huff ops : 0 ≤ mc < 2 ^ 60 → Forall op_ok ops → zlen (sent ops) ≤ mb →
  zlen (sent ops) < 2 ^ 48 →
  ∃ s out s' out', run (start mc mb huff) ops = Ok (s, out) ∧ run s (flush s) = Ok (s', out')
    ∧ ∀ sid, on sid (out ++ out') = on sid (sent ops).
Proof.
  intros Hmc Hops Hm Hn.
  assert (∀ s k, sent (k ++ flush s) = sent k) as Hs.
  { intros s k. unfold sent. rewrite omap_app. fold (sent k) (sent (flush s)). by rewrite sent_flush, app_nil_r. }
  destruct (run_start mc mb huff ops Hmc Hops Hm Hn) as (s & g & out & E & H & Hout).
  destruct (run_start mc mb huff (ops ++ flush s)) as (s2 & g2 & out2 & E2 & I2 & Hout2);
    [done|apply Forall_app; split; [done|apply flush_ops_ok]|by rewrite Hs|by rewrite Hs|].
  assert (∀ k l t, run t (k ++ l) = '(t, o1) ← run t k; '(t, o2) ← run t l; Ok (t, o1 ++ o2)) as Happ.
  { clear. induction k as [|o k IH]; intros l t; cbn [app run mbind result_bind].
    - destruct (run t l) as [[t' o]|]; done.
    - destruct (step t o) as [[t1 o1]|]; cbn [mbind result_bind]; [|done]. rewrite IH.
      destruct (run t1 k) as [[t2 o2]|]; cbn [mbind result_bind]; [|done].
      destruct (run t2 l) as [[t3 o3]|]; cbn; [|done]. by rewrite app_assoc. }
  rewrite Happ, E in E2. cbn [mbind result_bind] in E2.
  destruct (run s (flush s)) as [[s3 out3]|] eqn:E3; [|done]. cbn in E2. injection E2 as <- <-.
  destruct (run_flush _ _ _ E3) as [Hw Hb]. exists s, out, s3, out3. split; [done|]. split; [done|]. intros sid.
  specialize (Hout2 sid). rewrite Hs, (inv_quiet s3 g2 I2 Hw Hb), app_nil_r in Hout2. by symmetry.
Qed.

Lemma qpack_delivers_witness :
  let ops := [Send false 0 [(b "x-session", b "1234")]; Send true 4 [(b "x-session", b "1234")]; Arrive 4 0; Feed 7] in
  ∃ s out s' out', run (start 4096 16 true) ops = Ok (s, out) ∧ run s (flush s) = Ok (s', out')
    ∧ ∀ sid, on sid (out ++ out') = on sid (sent ops).
Proof.
  intros ops. apply (qpack_delivers 4096 16 true ops); [done| |vm_compute; discriminate|vm_compute; reflexivity].
  repeat constructor; try lia; try solve_bytes; try (vm_compute; discriminate); vm_compute; reflexivity.
Defined.
