(* ===== verification/QpackDeviations.v ===== *)
(** * QPACK: where the code departs from its documentation

    What the encoder and the decoder do that their comments, or RFC 9204,
    which the comments cite, rule out.  Everything here is a theorem about the
    definitions of the other files or a run of them. *)

From S2P Require Import Prelude Integer HuffmanTable Huffman QpackTable QpackString QpackDecoder QpackEncoder QpackLines QpackStream QpackSections QpackAcks QpackSession.

(** ** Fields that must never be indexed *)

(** The names of [NEVER_INDEXED] that the static table has. *)
Definition sensitive_names : list (bytes * Z) := [(b "authorization", 84); (b "cookie", 5)].

(** The N bit of a literal field line with name reference. *)
Definition n_bit : Z := 0x20.

Lemma sensitive_line e base name i value p : (name, i) ∈ sensitive_names →
  ∃ x, encode_field e base p (name, value)
    = on_section (λ s, append s (λ o, push_string (use_huffman e) (o ++ int_octets i 4 x) value 8 0)) p
    ∧ Z.land (prefix_octet i 4 x) n_bit = 0.
Proof.
  intros H. assert (static_find_name name = Some i ∧ name ∈ NEVER_INDEXED ∧ (i = 84 ∨ i = 5)) as (Hs & Hn & Hi).
  { apply list_elem_of_In in H. destruct H as [[= <- <-]|[[= <- <-]|[]]];
      (split; [by vm_compute|]; split; [apply (bool_decide_unpack _); by vm_compute|lia]). }
  exists 0x50. split; [|by destruct Hi as [-> | ->]].
  unfold encode_field. rewrite bool_decide_eq_true_2 by done. unfold encode_literal. rewrite Hs.
  unfold on_section, append. change (Z.lor _ _) with 0x50.
  rewrite encode_int; [done|lia|destruct Hi; lia|done].
Qed.

(** The N bit of a sensitive field is lost: for [authorization] and
    [cookie], which must always be sent as never-indexed literals, the
    encoder's field section, whatever its state and the value, is the section
    prefix, a reference to the static name whose N bit is clear, and the
    value; an intermediary may index it. *)
Theorem sensitive_not_protected e sid base name i value : (name, i) ∈ sensitive_names →
  ∃ prefix x, block (encode_section_with_base e sid [(name, value)] base).1
    = prefix ++ push_string (use_huffman e) (int_octets i 4 x) value 8 0
    ∧ Z.land (prefix_octet i 4 x) n_bit = 0.
Proof.
  intros H. destruct (sensitive_line e base name i value (QpackEncoder.MkProgress (dynamic e) [] (MkSection [] 0 None)) H) as (x & E & Hx).
  eexists _, x. split; [|done]. unfold encode_section_with_base. cbn [foldl]. rewrite E. reflexivity.
Qed.

Lemma sensitive_not_protected_witness :
  ∃ prefix x, block (encode_section_with_base (new_encoder 4096 true) 0 [(b "cookie", b "secret")] 0).1
    = prefix ++ push_string true (int_octets 5 4 x) (b "secret") 8 0
    ∧ Z.land (prefix_octet 5 4 x) n_bit = 0.
Proof. apply (sensitive_not_protected (new_encoder 4096 true) 0 0). right. left. Defined.

(** ** Evictions the decoder should refuse *)

(** Two entries are inserted and counted as received; then, in one delivery of
    the encoder stream, three more, the last of which evicts the entry with
    absolute index 2, which is not below the Known Received Count 2 and was
    never acknowledged. *)
Definition insertions (names : list string) : bytes :=
  mjoin ((λ n, push_string false (push_string false [] (b n) 6 0x40) (b "x") 8 0) <$> names).

Definition late_stream : list bytes := [Integer.encode [] 68 5 0x20 ++ insertions ["p"; "q"]; insertions ["r"; "s"; "t"]].

(** Several deliveries; the Known Received Count before the last one. *)
Fixpoint deliver_all (d : Decoder) (chunks : list bytes) (known : Z) : result QpackError (Decoder * Z) :=
  match chunks with
  | [] => Ok (d, known)
  | c :: chunks =>
      '(_, d') ← feed_encoder_stream d c;
      deliver_all d' chunks (QpackDecoder.known_received d)
  end.

Lemma late_eviction :
  ('(d, known) ← deliver_all (new_decoder 4096 16) late_stream 0;
   Ok (known, dropped (QpackDecoder.dynamic d))) = Ok (2, 3).
Proof. vm_compute. reflexivity. Qed.

(** ** Section Acknowledgments do not count insertions *)

Lemma section_acks_counts sids : counts (AckSection <$> sids) = 0.
Proof. induction sids as [|sid sids IH]; [done|]. by rewrite fmap_cons, counts_cons. Qed.

(** The Known Received Count of the encoder ignores Section
    Acknowledgments (RFC 9204, Section 2.1.4 has them raise it, and the
    module's documentation says so too): whatever sections are acknowledged,
    in one delivery or a part of it, the count stays, so entries the decoder
    acknowledged this way are never evictable. *)
Theorem section_acks_ignored e sids p q : Forall (λ sid, 0 ≤ sid < 2 ^ 62) sids →
  0 ≤ known_received e ≤ inserted (dynamic e) → inserted (dynamic e) ≤ usize_max →
  decoder_stream_pending e = [] → p ++ q = mjoin (ack_octets <$> (AckSection <$> sids)) →
  ∃ e', feed_decoder_stream e p = Ok e' ∧ known_received e' = known_received e
    ∧ evictable_floor e' ≤ known_received e.
Proof.
  intros Hs Hk Hi Hp Hpq. unfold feed_decoder_stream. rewrite Hp. cbn [app].
  destruct (acks_run (AckSection <$> sids) (length p) e p q) as (dn & rest & p' & E & -> & _ & Hlen);
    [by apply Forall_fmap|rewrite section_acks_counts; lia|done|done|].
  cbn [mbind result_bind]. unfold MAX_DECODER_STREAM_INSTRUCTION. rewrite (proj2 (Z.ltb_ge _ _)) by done.
  eexists. split; [reflexivity|].
  assert (known_received (foldl acknowledge e dn) = known_received e) as Hd.
  { assert (∃ s1, dn = AckSection <$> s1) as [s1 ->] by (apply fmap_app_inv in E as (s1 & _ & -> & _); by exists s1).
    clear. revert e. induction s1 as [|sid s1 IH]; intros e; [done|]. rewrite fmap_cons. cbn [foldl].
    rewrite IH, acknowledge_known. lia. }
  unfold evictable_floor. cbn. lia.
Qed.

Lemma section_acks_ignored_witness :
  let e := (encode_section (new_encoder 4096 true) 4 [(b "x-session", b "1234")]).2 in
  ∃ e', feed_decoder_stream e (ack_octets (AckSection 4)) = Ok e' ∧ known_received e' = known_received e
    ∧ evictable_floor e' ≤ known_received e.
Proof.
  intros e. apply (section_acks_ignored e [4] _ []); [by repeat constructor|by vm_compute|by vm_compute|done|].
  by rewrite app_nil_r.
Defined.

(** The decoder in turn leaves out the Insert Count Increment for what it
    acknowledged with a section, so nothing ever tells this encoder: the
    section arrives after the insertion it needs was received with it. *)
Example known_received_lags :
  ('(s, _) ← run (start 4096 16 true)
     [Send false 0 [(b "x-session", b "1234")]; Arrive 0 0; Feed 100; Return 100];
   Ok (s_acks s, QpackDecoder.known_received (s_dec s), QpackEncoder.known_received (s_enc s)))
  = Ok ([], 1, 0).
Proof. vm_compute. reflexivity. Qed.

(** The encoder does not look at the peer's limit on blocked streams: with
    none allowed, its first section is refused when it arrives before the
    encoder stream. *)
Example blocked_streams_ignored :
  run (start 4096 0 true) [Send false 0 [(b "x-session", b "1234")]; Arrive 0 0] = Err DecompressionFailed.
Proof. vm_compute. reflexivity. Qed.
