(* ===== verification/H3Transport.v ===== *)
(** * The QUIC transport as HTTP/3 sees it (src/src/h3/transport.rs)

    The transport traits are a class: a state, and one poll function per
    method.  A poll function of HTTP/3 is a computation over a state that holds
    the transport.  What a transport did is its history; the laws of [Recorded]
    tie the two together, and [Script] is an instance that plays back prepared
    answers. *)

From S2P Require Import Prelude Poll H3Error.

(** ** The traits *)

(** [OpenStreams], [Accept], [RecvStream] and [SendStream]; a stream is the
    number the transport knows it by. *)
Class Transport (T : Type) := {
  poll_open_uni : T → poll (result TransportError Z) * T;
  poll_accept_uni : T → poll (result TransportError (option Z)) * T;
  poll_recv : Z → T → poll (result TransportError (option bytes)) * T;
  poll_send : Z → bytes → T → poll (result TransportError ()) * T;
  poll_finish : Z → T → poll (result TransportError ()) * T;
}.

(** What happened on a transport. *)
Inductive event : Type :=
| Opened (id : Z)
| Accepted (id : Z)
| Received (id : Z) (chunk : bytes)
| Ended (id : Z)
| Wrote (id : Z) (data : bytes)
| Finished (id : Z)
| Broke (id : Z) (e : TransportError)
| Lost (e : TransportError).

(** A call of a stream failed with [Broke], one of the connection with [Lost],
    which is of no stream. *)
Definition event_stream (e : event) : Z :=
  match e with Opened i | Accepted i | Received i _ | Ended i | Wrote i _ | Finished i | Broke i _ => i | Lost _ => -1 end.

Definition opened_event (r : poll (result TransportError Z)) : list event :=
  match r with Ready (Ok id) => [Opened id] | Ready (Err e) => [Lost e] | Pending => [] end.
Definition accepted_event (r : poll (result TransportError (option Z))) : list event :=
  match r with Ready (Ok (Some id)) => [Accepted id] | Ready (Err e) => [Lost e] | _ => [] end.
Definition recv_event (id : Z) (r : poll (result TransportError (option bytes))) : list event :=
  match r with Ready (Ok (Some c)) => [Received id c] | Ready (Ok None) => [Ended id] | Ready (Err e) => [Broke id e] | Pending => [] end.
Definition done_event (e : event) (r : poll (result TransportError ())) : list event :=
  match r with Ready (Ok _) => [e] | Ready (Err err) => [Broke (event_stream e) err] | Pending => [] end.

(** A transport that remembers: what it returned is its history, a stream it
    opens or accepts is new, and what it receives is octets. *)
Class Recorded (T : Type) `{Transport T} := {
  history : T → list event;
  history_open t : history (poll_open_uni t).2 = history t ++ opened_event (poll_open_uni t).1;
  history_accept t : history (poll_accept_uni t).2 = history t ++ accepted_event (poll_accept_uni t).1;
  history_recv id t : history (poll_recv id t).2 = history t ++ recv_event id (poll_recv id t).1;
  history_send id data t : history (poll_send id data t).2 = history t ++ done_event (Wrote id data) (poll_send id data t).1;
  history_finish id t : history (poll_finish id t).2 = history t ++ done_event (Finished id) (poll_finish id t).1;
  opened_fresh t id : (poll_open_uni t).1 = Ready (Ok id) → Forall (λ e, event_stream e ≠ id) (history t);
  accepted_fresh t id : (poll_accept_uni t).1 = Ready (Ok (Some id)) → Forall (λ e, event_stream e ≠ id) (history t);
  received_bytes id t c : (poll_recv id t).1 = Ready (Ok (Some c)) → bytes_ok c;
}.

(** Whether a stream was accepted, a chunk or an end received. *)
Definition accepts_one (r : poll (result TransportError (option Z))) : nat :=
  match r with Ready (Ok (Some _)) => 1 | _ => 0 end.
Definition delivers_one (r : poll (result TransportError (option bytes))) : nat :=
  match r with Ready (Ok _) => 1 | _ => 0 end.

(** A transport with finitely much to deliver: every stream accepted and every
    chunk or end received leaves less. *)
Class Finite (T : Type) `{Transport T} := {
  backlog : T → nat;
  backlog_accept t : (backlog (poll_accept_uni t).2 + accepts_one (poll_accept_uni t).1 ≤ backlog t)%nat;
  backlog_recv id t : (backlog (poll_recv id t).2 + delivers_one (poll_recv id t).1 ≤ backlog t)%nat;
}.

(** ** Reading a history *)

(** The octets received on a stream, and written to it. *)
Definition received (id : Z) (h : list event) : bytes :=
  mjoin (omap (λ e, match e with Received i c => if i =? id then Some c else None | _ => None end) h).
Definition written (id : Z) (h : list event) : bytes :=
  mjoin (omap (λ e, match e with Wrote i c => if i =? id then Some c else None | _ => None end) h).

#[global] Arguments received : simpl never.
#[global] Arguments written : simpl never.

Lemma received_app id h k : received id (h ++ k) = received id h ++ received id k.
Proof. unfold received. by rewrite omap_app, join_app. Qed.

Lemma written_app id h k : written id (h ++ k) = written id h ++ written id k.
Proof. unfold written. by rewrite omap_app, join_app. Qed.

Lemma received_other id h : Forall (λ e, event_stream e ≠ id) h → received id h = [].
Proof.
  induction 1 as [|e h He _ IH]; [done|]. change (e :: h) with ([e] ++ h). rewrite received_app, IH, app_nil_r.
  destruct e; try done. unfold received. cbn in *. by rewrite (proj2 (Z.eqb_neq _ _)).
Qed.

Lemma written_other id h : Forall (λ e, event_stream e ≠ id) h → written id h = [].
Proof.
  induction 1 as [|e h He _ IH]; [done|]. change (e :: h) with ([e] ++ h). rewrite written_app, IH, app_nil_r.
  destruct e; try done. unfold written. cbn in *. by rewrite (proj2 (Z.eqb_neq _ _)).
Qed.

Lemma received_one id h i r : received id (h ++ recv_event i r)
  = received id h ++ match r with Ready (Ok (Some c)) => if i =? id then c else [] | _ => [] end.
Proof.
  rewrite received_app. f_equal. destruct r as [[[c|]|]|]; try done. unfold received. cbn.
  destruct (i =? id); [apply app_nil_r|done].
Qed.

Lemma written_one id h i c r : written id (h ++ done_event (Wrote i c) r)
  = written id h ++ match r with Ready (Ok _) => if i =? id then c else [] | _ => [] end.
Proof.
  rewrite written_app. f_equal. destruct r as [[|]|]; try done. unfold written. cbn.
  destruct (i =? id); [apply app_nil_r|done].
Qed.

(** ** A transport that plays back prepared answers *)

Abbreviation answer := (poll (result TransportError (option bytes))) (only parsing).

(** [accepts]: whether a stream is there to accept, and what it will deliver;
    [inbox]: what each stream delivers next; [replies]: the answers to writes,
    [Ok] when they are used up; [past]: the history. *)
Record Script : Type := MkScript {
  accepts : list (option (list answer));
  inbox : list (Z * answer);
  replies : list (poll (result TransportError ()));
  past : list event;
}.

(** A number no event mentions. *)
Definition fresh_stream (h : list event) : Z := foldr (λ e n, Z.max (event_stream e + 1) n) 1 h.

Definition octet_answer (a : answer) : answer :=
  match a with Ready (Ok (Some c)) => Ready (Ok (Some ((λ x, x mod 256) <$> c))) | _ => a end.

Definition reply (e : event) (s : Script) : poll (result TransportError ()) * Script :=
  let r := default (Ready (Ok ())) (head (replies s)) in
  (r, MkScript (accepts s) (inbox s) (tail (replies s)) (past s ++ done_event e r)).

#[export] Instance script_transport : Transport Script := {
  poll_open_uni s :=
    let id := fresh_stream (past s) in
    (Ready (Ok id), MkScript (accepts s) (inbox s) (replies s) (past s ++ [Opened id]));
  poll_accept_uni s :=
    match accepts s with
    | Some answers :: rest =>
        let id := fresh_stream (past s) in
        (Ready (Ok (Some id)), MkScript rest (inbox s ++ ((λ a, (id, a)) <$> answers)) (replies s) (past s ++ [Accepted id]))
    | _ => (Pending, MkScript (tail (accepts s)) (inbox s) (replies s) (past s))
    end;
  poll_recv id s :=
    match take_first id (inbox s) with
    | None => (Pending, s)
    | Some (a, rest) =>
        let r := octet_answer a in (r, MkScript (accepts s) rest (replies s) (past s ++ recv_event id r))
    end;
  poll_send id data s := reply (Wrote id data) s;
  poll_finish id s := reply (Finished id) s;
}.

Lemma fresh_stream_spec h : Forall (λ e, event_stream e ≠ fresh_stream h) h.
Proof.
  assert (∀ n, fresh_stream h ≤ n → Forall (λ e, event_stream e ≠ n) h) as H; [|by apply H].
  induction h as [|e h IH]; intros n Hn; [constructor|]. change (fresh_stream (e :: h)) with (Z.max (event_stream e + 1) (fresh_stream h)) in Hn.
  constructor; [lia|]. apply IH. lia.
Qed.

#[export] Program Instance script_recorded : Recorded Script := {| history := past |}.
Next Obligation. done. Qed.
Next Obligation. intros s. cbn. by destruct (accepts s) as [|[a|] rest]; cbn; rewrite ?app_nil_r. Qed.
Next Obligation. intros id s. cbn. by destruct (take_first id (inbox s)) as [[a rest]|]; cbn; rewrite ?app_nil_r. Qed.
Next Obligation. done. Qed.
Next Obligation. done. Qed.
Next Obligation. intros s id [= <-]. apply fresh_stream_spec. Qed.
Next Obligation.
  intros s id. cbn. destruct (accepts s) as [|[a|] rest]; cbn; try done. intros [= <-]. apply fresh_stream_spec.
Qed.
Next Obligation.
  intros id s c. cbn. destruct (take_first id (inbox s)) as [[a rest]|]; cbn; [|done].
  destruct a as [[[d|]|]|]; cbn; try done. intros [= <-]. apply Forall_fmap, Forall_forall. intros x _. cbn. unfold is_byte. dlia.
Qed.

Definition to_come (l : list (option (list answer))) : nat :=
  foldr (λ o n, match o with Some answers => S (length answers) | None => 0%nat end + n)%nat 0%nat l.

Lemma take_first_length {A} id (l : list (Z * A)) a rest : take_first id l = Some (a, rest) → length l = S (length rest).
Proof.
  intros H. pose proof (take_first_spec id l) as Hs. rewrite H in Hs. destruct Hs as (l1 & l2 & -> & -> & _).
  rewrite !length_app. cbn. lia.
Qed.

Lemma to_come_cons o l : to_come (o :: l) = (match o with Some answers => S (length answers) | None => 0 end + to_come l)%nat.
Proof. done. Qed.

#[export] Program Instance script_finite : Finite Script := {| backlog s := (to_come (accepts s) + length (inbox s))%nat |}.
Next Obligation.
  intros s. cbn -[to_come]. destruct (accepts s) as [|[a|] rest]; cbn -[to_come]; rewrite ?to_come_cons, ?length_app, ?length_fmap; cbn [length]; lia.
Qed.
Next Obligation.
  intros id s. cbn -[to_come]. destruct (take_first id (inbox s)) as [[a rest]|] eqn:E; cbn -[to_come]; [|lia].
  apply take_first_length in E. destruct (octet_answer a) as [[[c|]|]|]; cbn -[to_come]; lia.
Qed.
