(* ===== verification/H3Quinn.v ===== *)
(** * The adapter of quinn (src/src/h3/quinn.rs)

    The transport traits on quinn.  quinn is third-party code, the class
    [Quinn]; what the adapter adds is the buffer of a send half, the read that is
    in flight on a receive half, the halves a unidirectional stream lacks, and
    the errors. *)

From S2P Require Import Prelude Poll H3Error.

(** ** quinn *)

(** The errors of quinn. *)
Inductive ConnectionError : Type :=
| VersionMismatch | TransportFailed | ConnectionClosed | ApplicationClosed (error_code : Z) | ConnectionReset
| TimedOut | LocallyClosed | CidsExhausted.
Inductive ReadError : Type :=
| ReadReset (error_code : Z) | ReadLost (e : ConnectionError) | ReadClosedStream | IllegalOrderedRead | ReadZeroRttRejected.
Inductive WriteError : Type :=
| WriteStopped (error_code : Z) | WriteLost (e : ConnectionError) | WriteClosedStream | WriteZeroRttRejected.

(** A connection, its send halves and its receive halves. [q_finish], [q_reset]
    and [q_stop] say whether they were done; [q_var_int] is
    [VarInt::from_u64], [q_read] a poll of [read_chunk(usize::MAX, true)],
    [q_stopped] one of [stopped()]. *)
Class Quinn (C Q R : Type) : Type := {
  q_var_int : Z → option Z;
  q_write : bytes → Q → poll (result WriteError Z) * Q;
  q_finish : Q → bool * Q;
  q_reset : Z → Q → bool * Q;
  q_stopped : Q → poll (result () ()) * Q;
  q_send_id : Q → Z;
  q_read : R → poll (result ReadError (option bytes)) * R;
  q_stop : Z → R → bool * R;
  q_recv_id : R → Z;
  q_open_uni : C → poll (result ConnectionError Q) * C;
  q_accept_uni : C → poll (result ConnectionError R) * C;
  q_accept_bi : C → poll (result ConnectionError (Q * R)) * C;
  q_close : Z → C → C;
  q_handshake_data : C → bool;
}.

(** ** The errors *)

Definition map_connection_error (e : ConnectionError) : TransportError :=
  match e with
  | ApplicationClosed code => Closed code
  | TimedOut => Timeout
  | _ => Transport
  end.

Definition map_read_error (e : ReadError) : TransportError :=
  match e with
  | ReadReset code => Reset code
  | ReadLost e => map_connection_error e
  | ReadClosedStream => Closed 0
  | IllegalOrderedRead | ReadZeroRttRejected => Transport
  end.

Definition map_write_error (e : WriteError) : TransportError :=
  match e with
  | WriteStopped code => Stopped code
  | WriteLost e => map_connection_error e
  | WriteClosedStream => Closed 0
  | WriteZeroRttRejected => Transport
  end.

(** ** The state *)

(** A slice, which is told by its address and its length. *)
Record Slice : Type := MkSlice { as_ptr : Z; octets : bytes }.
Definition identity (sl : Slice) : Z * Z := (as_ptr sl, zlen (octets sl)).

Record Send (Q : Type) : Type := MkSend {
  stream : Q;
  buf : bytes;
  in_flight : option (Z * Z);
}.
Arguments MkSend {Q}.
Arguments stream {Q}.
Arguments buf {Q}.
Arguments in_flight {Q}.
Definition new_send {Q} (q : Q) : Send Q := MkSend q [] None.

(** [reading]: a read is in flight and has the stream. *)
Record Recv (R : Type) : Type := MkRecv { recv_stream : R; reading : bool }.
Arguments MkRecv {R}.
Arguments recv_stream {R}.
Arguments reading {R}.
Definition new_recv {R} (r : R) : Recv R := MkRecv r false.

Record BidiStream (Q R : Type) : Type := MkBidi { send : Send Q; recv : Recv R }.
Arguments MkBidi {Q R}.
Arguments send {Q R}.
Arguments recv {Q R}.

Inductive UniStream (Q R : Type) : Type :=
| UniSend (s : Send Q)
| UniRecv (r : Recv R).
Arguments UniSend {Q R}.
Arguments UniRecv {Q R}.

Section adapter.
Context {C Q R : Type} `{HQ : Quinn C Q R}.

(** ** The send half *)

Definition send_id (s : Send Q) : Z := q_send_id (stream s).

Definition on_stream {A} (f : Q → A * Q) : op (Send Q) TransportError A := λ s,
  (Done (f (stream s)).1, MkSend (f (stream s)).2 (buf s) (in_flight s)).

(** The loop of [poll_send]. *)
Fixpoint write_out (fuel : nat) : op (Send Q) TransportError () :=
  match fuel with
  | O => stuck
  | S fuel =>
      s ← self;
      if bool_decide (buf s = []) then modify (λ s, MkSend (stream s) (buf s) None)
      else
        r ← on_stream (q_write (buf s));
        match r with
        | Pending => wait
        | Ready (Err e) => fail (map_write_error e)
        | Ready (Ok written) =>
            _ ← modify (λ s, MkSend (stream s) (drop (Z.to_nat written) (buf s)) (in_flight s));
            write_out fuel
        end
  end.

Definition poll_send (fuel : nat) (data : Slice) : op (Send Q) TransportError () :=
  _ ← modify (λ s,
    if negb (bool_decide (octets data = [])) && negb (bool_decide (in_flight s = Some (identity data)))
    then MkSend (stream s) (buf s ++ octets data) (Some (identity data)) else s);
  write_out fuel.

Definition poll_stopped : op (Send Q) TransportError () :=
  r ← ready (on_stream q_stopped);
  match r with Ok _ => mret () | Err _ => fail Other end.

Definition poll_finish : op (Send Q) TransportError () := _ ← on_stream q_finish; mret ().

Definition poll_reset (error_code : Z) : op (Send Q) TransportError () :=
  match (q_var_int error_code) with
  | None => fail Other
  | Some error_code => done ← on_stream (q_reset error_code); if done : bool then mret () else fail Other
  end.

(** ** The receive half *)

Definition recv_id (r : Recv R) : Z := if reading r then 0 else q_recv_id (recv_stream r).

Definition poll_recv : op (Recv R) TransportError (option bytes) := λ r,
  match q_read (recv_stream r) with
  | (Pending, q) => (Wait, MkRecv q true)
  | (Ready (Ok chunk), q) => (Done chunk, MkRecv q false)
  | (Ready (Err e), q) => (Fail (map_read_error e), MkRecv q false)
  end.

Definition stop_sending (error_code : Z) : op (Recv R) TransportError () := λ r,
  match q_var_int error_code with
  | None => (Fail Other, r)
  | Some error_code =>
      if reading r then (Fail Other, r)
      else let '(done, q) := q_stop error_code (recv_stream r) in
        (if done : bool then Done () else Fail Other, MkRecv q false)
  end.

(** ** Streams *)

Definition on_send {A} (m : op (Send Q) TransportError A) : op (BidiStream Q R) TransportError A :=
  zoom send (λ s b, MkBidi s (recv b)) m.
Definition on_recv {A} (m : op (Recv R) TransportError A) : op (BidiStream Q R) TransportError A :=
  zoom recv (λ r b, MkBidi (send b) r) m.

Definition bidi_id (b : BidiStream Q R) : Z := send_id (send b).
Definition bidi_poll_recv : op (BidiStream Q R) TransportError (option bytes) := on_recv poll_recv.
Definition bidi_poll_send (fuel : nat) (data : Slice) : op (BidiStream Q R) TransportError () := on_send (poll_send fuel data).
Definition bidi_poll_finish : op (BidiStream Q R) TransportError () := on_send poll_finish.
Definition bidi_poll_stopped : op (BidiStream Q R) TransportError () := on_send poll_stopped.
Definition bidi_poll_reset (error_code : Z) : op (BidiStream Q R) TransportError () := on_send (poll_reset error_code).
Definition bidi_poll_stop_sending (error_code : Z) : op (BidiStream Q R) TransportError () := on_recv (stop_sending error_code).

(** The half a unidirectional stream lacks fails. *)
Definition uni_send {A} (m : op (Send Q) TransportError A) : op (UniStream Q R) TransportError A := λ u,
  match u with UniSend s => ((m s).1, UniSend (m s).2) | UniRecv _ => (Fail Transport, u) end.
Definition uni_recv {A} (m : op (Recv R) TransportError A) : op (UniStream Q R) TransportError A := λ u,
  match u with UniRecv r => ((m r).1, UniRecv (m r).2) | UniSend _ => (Fail Transport, u) end.

Definition uni_id (u : UniStream Q R) : Z := match u with UniSend s => send_id s | UniRecv r => recv_id r end.
Definition uni_poll_recv : op (UniStream Q R) TransportError (option bytes) := uni_recv poll_recv.
Definition uni_poll_send (fuel : nat) (data : Slice) : op (UniStream Q R) TransportError () := uni_send (poll_send fuel data).
Definition uni_poll_stopped : op (UniStream Q R) TransportError () := uni_send poll_stopped.
Definition uni_poll_finish : op (UniStream Q R) TransportError () := uni_send poll_finish.
Definition uni_poll_reset (error_code : Z) : op (UniStream Q R) TransportError () := uni_send (poll_reset error_code).
Definition uni_poll_stop_sending (error_code : Z) : op (UniStream Q R) TransportError () := uni_recv (stop_sending error_code).

(** ** The connection *)

Definition ask_conn {A} (f : C → A * C) : op C TransportError A := λ c, (Done (f c).1, (f c).2).

Definition poll_open_uni : op C TransportError (UniStream Q R) :=
  r ← ready (ask_conn q_open_uni);
  match r with Ok q => mret (UniSend (new_send q)) | Err e => fail (map_connection_error e) end.

(** [None] once the connection is closed. *)
Definition poll_accept : op C TransportError (option (BidiStream Q R)) :=
  r ← ready (ask_conn q_accept_bi);
  mret (match r with Ok (q, r) => Some (MkBidi (new_send q) (new_recv r)) | Err _ => None end).

Definition poll_accept_uni : op C TransportError (option (UniStream Q R)) :=
  r ← ready (ask_conn q_accept_uni);
  mret (match r with Ok r => Some (UniRecv (new_recv r)) | Err _ => None end).

Definition is_handshake_complete (c : C) : bool := q_handshake_data c.

Definition poll_shutdown (error_code : Z) : op C TransportError () :=
  match q_var_int error_code with
  | None => fail Other
  | Some error_code => modify (q_close error_code)
  end.
End adapter.

(** ** What a send half writes *)

(** quinn takes a part of what it is given, not nothing, and remembers it;
    otherwise it takes nothing. *)
Class RecordedQuinn (C Q R : Type) `{HQ : Quinn C Q R} : Type := {
  sent : Q → bytes;
  sent_write l q : l ≠ [] → match (q_write l q).1 with
    | Ready (Ok n) => 0 < n ≤ zlen l ∧ sent (q_write l q).2 = sent q ++ take (Z.to_nat n) l
    | _ => sent (q_write l q).2 = sent q
    end;
}.

Section spec.
Context {C Q R : Type} `{HQ : Quinn C Q R} `{HR : !RecordedQuinn C Q R}.

(** All of [l] has been taken or is in the buffer. *)
Definition owes (l : bytes) (s : Send Q) : Prop := sent (stream s) ++ buf s = l.

Lemma write_out_spec fuel l : ∀ s, owes l s →
  wp (write_out fuel) (λ o s', owes l s' ∧ sent (stream s) `prefix_of` sent (stream s') ∧ match o with
    | Done _ => buf s' = [] ∧ in_flight s' = None
    | Wait => buf s ≠ [] ∧ buf s' ≠ [] ∧ in_flight s' = in_flight s
    | Fail e => ∃ we, e = map_write_error we
    | Stuck => (fuel ≤ length (buf s))%nat
    end) s.
Proof.
  induction fuel as [|fuel IH]; intros s Hs; [split_and!; [exact Hs|done|cbn; apply Nat.le_0_l]|]. cbn [write_out]. apply wp_self. case_bool_decide as Eb.
  { apply wp_modify. by split_and!. }
  apply wp_bind. unfold wp at 1, on_stream. cbn [fst snd andthen]. pose proof (sent_write (buf s) (stream s) Eb) as Hw.
  destruct (q_write (buf s) (stream s)) as [[[n|e]|] q]; cbn [fst snd] in *.
  - destruct Hw as [Hn Hw]. apply wp_bind, wp_modify. cbn [andthen stream buf in_flight]. eapply wp_mono; [apply IH|].
    + unfold owes in *. cbn [stream buf]. by rewrite Hw, <- app_assoc, take_drop.
    + cbn [stream buf in_flight]. intros o s' (Ho & Hp & Hr). split; [exact Ho|]. rewrite Hw in Hp.
      split; [by eapply prefix_app_l|]. destruct o; try done; [by destruct Hr as (_ & ? & ?)|].
      rewrite length_drop in Hr. unfold zlen in Hn. lia.
  - split; [unfold owes in *; cbn; by rewrite Hw|]. cbn. rewrite Hw. split; [done|]. by exists e.
  - split; [unfold owes in *; cbn; by rewrite Hw|]. cbn. rewrite Hw. by split_and!.
Qed.

(** The calls of a caller who passes a slice again until it is taken: those that
    are done, and the one that waits. *)
Inductive pushes : list bytes → option Slice → Send Q → Prop :=
| PushStart q : sent q = [] → pushes [] None (new_send q)
| PushCall acc out s fuel sl o s' : pushes acc out s → (out = None ∨ out = Some sl) → poll_send fuel sl s = (o, s') →
    match o with Done _ | Wait => True | _ => False end →
    pushes (acc ++ match o with Done _ => [octets sl] | _ => [] end) (match o with Wait => Some sl | _ => None end) s'.

(** What is in the buffer is the rest of the slice that waits. *)
Definition settled (acc : list bytes) (out : option Slice) (s : Send Q) : Prop :=
  owes (mjoin acc ++ from_option octets [] out) s ∧ mjoin acc `prefix_of` sent (stream s)
  ∧ match out with Some sl => in_flight s = Some (identity sl) ∧ buf s ≠ [] | None => in_flight s = None ∧ buf s = [] end.

Lemma slice_spec acc out s fuel sl : settled acc out s → (out = None ∨ out = Some sl) →
  wp (poll_send fuel sl) (λ o s', owes (mjoin acc ++ octets sl) s' ∧ mjoin acc `prefix_of` sent (stream s') ∧ match o with
    | Done _ => settled (acc ++ [octets sl]) None s'
    | Wait => settled acc (Some sl) s'
    | Fail e => ∃ we, e = map_write_error we
    | Stuck => (fuel ≤ length (buf s) + length (octets sl))%nat
    end) s.
Proof.
  intros (Ho & Hp & Hb) Hout. unfold poll_send. apply wp_bind, wp_modify. cbn [andthen].
  set (s1 := if _ && _ then _ else s). assert (owes (mjoin acc ++ octets sl) s1 ∧ (buf s1 ≠ [] → in_flight s1 = Some (identity sl))
    ∧ (length (buf s1) ≤ length (buf s) + length (octets sl))%nat ∧ stream s1 = stream s) as (H1 & H2 & H3 & H4).
  { unfold s1, owes in *. destruct Hout as [->| ->]; cbn [from_option] in Ho; destruct Hb as [Ei Hb]; rewrite Ei.
    - rewrite (bool_decide_false (None = _)) by done. rewrite Hb in Ho |- *. rewrite !app_nil_r in Ho.
      case_bool_decide as E; cbn [negb andb stream buf in_flight app length] in *.
      + rewrite Hb, E, Ho. split; [done|]. split; [by intros []|]. split; [cbn; lia|done].
      + rewrite Ho. split; [done|]. split; [done|]. split; [lia|done].
    - rewrite (bool_decide_true (Some _ = _)) by done. rewrite andb_false_r. split; [done|]. split; [done|]. split; [lia|done]. }
  eapply wp_mono; [by apply (write_out_spec fuel _ s1 H1)|]. intros o s' (Hs & Hpre & Hr). rewrite H4 in Hpre.
  split; [exact Hs|]. assert (mjoin acc `prefix_of` sent (stream s')) as Hp' by by etransitivity. split; [exact Hp'|].
  destruct o as [u|e| |]; try done.
  - destruct Hr as [Eb Ei]. unfold settled, owes in *. rewrite Eb, app_nil_r in *. rewrite join_app. cbn. rewrite !app_nil_r, Hs. by split_and!.
  - destruct Hr as (E1 & E2 & Ei). split_and!; try done. rewrite Ei. by apply H2.
  - lia.
Qed.

Lemma pushes_settled acc out s : pushes acc out s → settled acc out s.
Proof.
  induction 1 as [q Hq|acc out s fuel sl o s' _ IH Hout E Ho]; [split_and!; [by unfold owes; cbn; rewrite Hq|cbn; apply prefix_nil|done|done]|].
  pose proof (slice_spec acc out s fuel sl IH Hout) as Hs. unfold wp in Hs. rewrite E in Hs. cbn [fst snd] in Hs.
  destruct Hs as (_ & _ & Hs). destruct o; try done. by rewrite app_nil_r.
Qed.
End spec.

(** C39. A send half writes what it is given, once and in order.  However little
    quinn takes at a time and however often a caller has to pass a slice again
    because it waits: a call that is done has handed over all of its slice,
    after those before it and nothing else, as the trait [SendStream] asks; one
    that waits or fails has handed over a first part of it; and a call returns,
    since quinn never takes nothing. *)
Theorem quinn_sends_once {C Q R} `{HQ : Quinn C Q R} `{HR : !RecordedQuinn C Q R} acc out (s : Send Q) fuel sl o s' :
  pushes acc out s → (out = None ∨ out = Some sl) → (length (buf s) + length (octets sl) < fuel)%nat →
  poll_send fuel sl s = (o, s') →
  match o with
  | Done _ => sent (stream s') = mjoin acc ++ octets sl ∧ buf s' = [] ∧ in_flight s' = None
  | Wait => ∃ l, l `prefix_of` octets sl ∧ sent (stream s') = mjoin acc ++ l ∧ octets sl = l ++ buf s'
  | Fail e => ∃ l we, l `prefix_of` octets sl ∧ sent (stream s') = mjoin acc ++ l ∧ e = map_write_error we
  | Stuck => False
  end.
Proof.
  intros Hp Hout Hf E. apply pushes_settled in Hp. pose proof (slice_spec acc out s fuel sl Hp Hout) as Hs. unfold wp in Hs. rewrite E in Hs.
  cbn [fst snd] in Hs. destruct Hs as (Ho & [l Hl] & Hr). unfold owes in Ho. rewrite Hl, <- app_assoc in Ho. apply app_inv_head in Ho.
  assert (l `prefix_of` octets sl) as Hpre by (exists (buf s'); congruence). destruct o as [u|e| |].
  - destruct Hr as (_ & _ & Ei & Eb). rewrite Eb, app_nil_r in Ho. subst l. by split_and!.
  - destruct Hr as [we ->]. by exists l, we.
  - by exists l.
  - lia.
Qed.

(** ** A stream with a narrow window *)

(** [windows]: how much quinn takes next, nothing for a moment when it is not
    positive, all when they are used up. *)
Record Wire : Type := MkWire { carried : bytes; windows : list Z }.

#[local] Instance wire_quinn : Quinn () Wire () := {
  q_var_int n := if n <? 2 ^ 62 then Some n else None;
  q_write l w :=
    match windows w with
    | [] => (Ready (Ok (zlen l)), MkWire (carried w ++ l) [])
    | n :: ns =>
        if n <=? 0 then (Pending, MkWire (carried w) ns)
        else (Ready (Ok (Z.min n (zlen l))), MkWire (carried w ++ take (Z.to_nat (Z.min n (zlen l))) l) ns)
    end;
  q_finish w := (true, w);
  q_reset _ w := (true, w);
  q_stopped w := (Ready (Ok ()), w);
  q_send_id _ := 0;
  q_read r := (Ready (Ok None), r);
  q_stop _ r := (true, r);
  q_recv_id _ := 0;
  q_open_uni c := (Pending, c);
  q_accept_uni c := (Pending, c);
  q_accept_bi c := (Pending, c);
  q_close _ c := c;
  q_handshake_data _ := true;
}.

#[local] Program Instance wire_recorded : RecordedQuinn () Wire () := {| sent := carried |}.
Next Obligation.
  intros l [c [|n ns]] Hl; cbn.
  - assert (0 < zlen l) as Hpos by by apply zlen_pos.
    split; [lia|]. rewrite take_ge; [done|unfold zlen; lia].
  - destruct (n <=? 0) eqn:E; cbn; [done|]. apply Z.leb_gt in E. split; [|done].
    assert (0 < zlen l) as Hpos by by apply zlen_pos. lia.
Qed.

Definition hello : Slice := MkSlice 1000 (b "hello").
Definition world : Slice := MkSlice 2000 (b "world").
Definition narrow : Wire := MkWire [] [2; 0; 1; 9; 4; 0].
Definition first_push : Send Wire := (poll_send 10 hello (new_send narrow)).2.
Definition second_push : Send Wire := (poll_send 10 hello first_push).2.
Definition third_push : Send Wire := (poll_send 10 world second_push).2.

Lemma pushes_world : pushes [b "hello"] (Some world) third_push.
Proof.
  assert (pushes [] (Some hello) first_push) as H1.
  { eapply (PushCall [] None (new_send narrow) 10 hello Wait first_push); [by apply PushStart|by left|vm_compute; reflexivity|done]. }
  assert (pushes [b "hello"] None second_push) as H2.
  { eapply (PushCall [] (Some hello) first_push 10 hello (Done ()) second_push); [exact H1|by right|vm_compute; reflexivity|done]. }
  eapply (PushCall [b "hello"] None second_push 10 world Wait third_push); [exact H2|by left|vm_compute; reflexivity|done].
Qed.

Lemma quinn_sends_once_witness :
  sent (stream third_push) = b "helloworl"
  ∧ let s := (poll_send 20 world third_push).2 in sent (stream s) = b "helloworld" ∧ buf s = [] ∧ in_flight s = None.
Proof.
  assert ((poll_send 20 world third_push).1 = Done ()) as E by (vm_compute; reflexivity).
  assert (length (buf third_push) + length (octets world) < 20)%nat as Hf by (vm_compute; lia).
  split; [vm_compute; reflexivity|]. pose proof (quinn_sends_once _ _ _ 20 world _ _ pushes_world (or_intror eq_refl) Hf (surjective_pairing _)) as H.
  rewrite E in H. exact H.
Defined.
