(* ===== verification/H3Endpoint.v ===== *)
(** * A QUIC connection as the HTTP/3 driver sees it (src/src/h3/transport.rs)

    The rest of the transport traits: request streams are accepted, reset and
    stopped, and the connection is closed.  What of it happened is a history
    beside that of H3Transport; the laws say that neither sees the calls of the
    other.  [Peer] is an instance that plays back prepared answers. *)

From S2P Require Import Prelude Poll H3Error H3Transport.

(** [Accept::poll_accept], [Connection::poll_shutdown], and of a request stream
    [poll_reset], [poll_stop_sending] and [poll_stopped]. *)
Class Endpoint (T : Type) `{Transport T} : Type := {
  poll_accept : T → poll (result TransportError (option Z)) * T;
  poll_shutdown : Z → T → poll (result TransportError ()) * T;
  poll_reset : Z → Z → T → poll (result TransportError ()) * T;
  poll_stop_sending : Z → Z → T → poll (result TransportError ()) * T;
  poll_stopped : Z → T → poll (result TransportError ()) * T;
}.

(** A request stream arrived; a reset, a stop, a close was asked for. *)
Inductive request_event : Type :=
| Arrived (id : Z)
| ResetAsked (id code : Z)
| StopAsked (id code : Z)
| CloseAsked (code : Z).

#[global] Instance request_event_eq_dec : EqDecision request_event.
Proof. solve_decision. Defined.

Definition arrival_event (r : poll (result TransportError (option Z))) : list request_event :=
  match r with Ready (Ok (Some id)) => [Arrived id] | _ => [] end.

Class RecordedEndpoint (T : Type) `{Endpoint T} `{!Recorded T} : Type := {
  requests : T → list request_event;
  requests_accept t : requests (poll_accept t).2 = requests t ++ arrival_event (poll_accept t).1;
  requests_shutdown code t : requests (poll_shutdown code t).2 = requests t ++ [CloseAsked code];
  requests_reset id code t : requests (poll_reset id code t).2 = requests t ++ [ResetAsked id code];
  requests_stop id code t : requests (poll_stop_sending id code t).2 = requests t ++ [StopAsked id code];
  requests_stopped id t : requests (poll_stopped id t).2 = requests t;
  requests_open t : requests (poll_open_uni t).2 = requests t;
  requests_accept_uni t : requests (poll_accept_uni t).2 = requests t;
  requests_recv id t : requests (poll_recv id t).2 = requests t;
  requests_send id data t : requests (poll_send id data t).2 = requests t;
  requests_finish id t : requests (poll_finish id t).2 = requests t;
  history_arrival t : history (poll_accept t).2 = history t;
  history_shutdown code t : history (poll_shutdown code t).2 = history t;
  history_reset id code t : history (poll_reset id code t).2 = history t;
  history_stop id code t : history (poll_stop_sending id code t).2 = history t;
  history_stopped id t : history (poll_stopped id t).2 = history t;
  arrived_new t id : (poll_accept t).1 = Ready (Ok (Some id)) → Arrived id ∉ requests t;
}.

(** Finitely many streams are to come, and rejecting one brings none. *)
Class FiniteEndpoint (T : Type) `{Endpoint T} `{!Finite T} : Type := {
  backlog_arrival t : (backlog (poll_accept t).2 + length (arrival_event (poll_accept t).1) ≤ backlog t)%nat;
  backlog_reset id code t : (backlog (poll_reset id code t).2 ≤ backlog t)%nat;
}.

(** ** A peer that plays back prepared answers *)

(** [arriving]: whether a request stream is there to accept, or the connection
    has ended; [closing]: the answers to [poll_shutdown], [Ok] when they are
    used up. *)
Record Peer : Type := MkPeer {
  wire : Script;
  arriving : list (poll (result TransportError bool));
  closing : list (poll (result TransportError ()));
  asked : list request_event;
}.

Definition on_wire {A} (f : Script → A * Script) (p : Peer) : A * Peer :=
  ((f (wire p)).1, MkPeer (f (wire p)).2 (arriving p) (closing p) (asked p)).

#[export] Instance peer_transport : Transport Peer := {
  poll_open_uni := on_wire poll_open_uni;
  poll_accept_uni := on_wire poll_accept_uni;
  poll_recv id := on_wire (poll_recv id);
  poll_send id data := on_wire (poll_send id data);
  poll_finish id := on_wire (poll_finish id);
}.

(** The stream identifiers of a client's requests: 0, 4, 8, and so on. *)
Definition next_request (l : list request_event) : Z :=
  foldr (λ ev n, match ev with Arrived id => Z.max n (id + 4) | _ => n end) 0 l.

#[export] Instance peer_endpoint : Endpoint Peer := {
  poll_accept p :=
    let r := match head (arriving p) with
      | None | Some Pending => Pending
      | Some (Ready (Ok true)) => Ready (Ok (Some (next_request (asked p))))
      | Some (Ready (Ok false)) => Ready (Ok None)
      | Some (Ready (Err e)) => Ready (Err e)
      end in
    (r, MkPeer (wire p) (tail (arriving p)) (closing p) (asked p ++ arrival_event r));
  poll_shutdown code p :=
    (default (Ready (Ok ())) (head (closing p)),
     MkPeer (wire p) (arriving p) (tail (closing p)) (asked p ++ [CloseAsked code]));
  poll_reset id code p := (Ready (Ok ()), MkPeer (wire p) (arriving p) (closing p) (asked p ++ [ResetAsked id code]));
  poll_stop_sending id code p := (Ready (Ok ()), MkPeer (wire p) (arriving p) (closing p) (asked p ++ [StopAsked id code]));
  poll_stopped _ p := (Ready (Ok ()), p);
}.

Lemma next_request_new l id : next_request l ≤ id → Arrived id ∉ l.
Proof.
  induction l as [|ev l IH]; [by intros _ ?%elem_of_nil|]. cbn [next_request foldr]. fold (next_request l). intros Hle.
  rewrite elem_of_cons. intros [<-|Hin]; [lia|]. apply IH; [|done]. destruct ev; lia.
Qed.

#[export] Program Instance peer_recorded : Recorded Peer := {| history p := history (wire p) |}.
Next Obligation. intros p. apply (history_open (wire p)). Qed.
Next Obligation. intros p. apply (history_accept (wire p)). Qed.
Next Obligation. intros id p. apply (history_recv id (wire p)). Qed.
Next Obligation. intros id data p. apply (history_send id data (wire p)). Qed.
Next Obligation. intros id p. apply (history_finish id (wire p)). Qed.
Next Obligation. intros p id. apply (opened_fresh (wire p)). Qed.
Next Obligation. intros p id. apply (accepted_fresh (wire p)). Qed.
Next Obligation. intros id p c. apply (received_bytes id (wire p)). Qed.

#[export] Program Instance peer_recorded_endpoint : RecordedEndpoint Peer := {| requests := asked |}.
Solve Obligations with try done.
Next Obligation.
  intros p id. cbn. destruct (arriving p) as [|[[[]|]|] l]; cbn; try done. intros [= <-]. by apply next_request_new.
Qed.

#[export] Program Instance peer_finite : Finite Peer := {| backlog p := (backlog (wire p) + length (arriving p))%nat |}.
Next Obligation. intros p. pose proof (backlog_accept (wire p)). unfold poll_accept_uni at 1 2, peer_transport, on_wire. cbn [fst snd wire arriving]. lia. Qed.
Next Obligation. intros id p. pose proof (backlog_recv id (wire p)). unfold poll_recv at 1 2, peer_transport, on_wire. cbn [fst snd wire arriving]. lia. Qed.

#[export] Program Instance peer_finite_endpoint : FiniteEndpoint Peer.
Next Obligation. intros p. cbn. destruct (arriving p) as [|[[[]|]|] l]; cbn; lia. Qed.
Next Obligation. done. Qed.
