(* ===== verification/H3Shared.v ===== *)
(** * The codecs of an HTTP/3 connection (src/src/h3/stream/mod.rs)

    [SharedCodecs]: one per connection, used by the control plane and by every
    request stream.  The locks protect single operations of one task at a time,
    so a plain record passed along models them; the wakers of parked tasks
    decide when a task runs again, not what it computes, and are left out. *)

From S2P Require Import Prelude H3Error H3Settings QpackTable QpackString QpackDecoder QpackEncoder.

Record SharedCodecs : Type := MkShared {
  decoder : Decoder;
  encoder : option Encoder;
  encoder_stream : list bytes;
  unblocked : gmap Z (list UnblockedSection);
  peer_max_field_section_size : option Z;
  local_max_field_section_size : option Z;
}.

(** [SharedCodecs::new]. *)
Definition new_shared (local : LocalSettings) : SharedCodecs :=
  let d := new_decoder (qpack_max_table_capacity local) (qpack_blocked_streams local) in
  let d := set_max_field_section_size d (default usize_max (H3Settings.max_field_section_size local)) in
  MkShared d None [] ∅ None (H3Settings.max_field_section_size local).

Definition set_decoder (d : Decoder) (s : SharedCodecs) : SharedCodecs :=
  MkShared d (encoder s) (encoder_stream s) (unblocked s) (peer_max_field_section_size s)
    (local_max_field_section_size s).
Definition set_encoder (e : option Encoder) (s : SharedCodecs) : SharedCodecs :=
  MkShared (decoder s) e (encoder_stream s) (unblocked s) (peer_max_field_section_size s)
    (local_max_field_section_size s).
Definition set_encoder_stream (q : list bytes) (s : SharedCodecs) : SharedCodecs :=
  MkShared (decoder s) (encoder s) q (unblocked s) (peer_max_field_section_size s)
    (local_max_field_section_size s).
Definition set_unblocked (m : gmap Z (list UnblockedSection)) (s : SharedCodecs) : SharedCodecs :=
  MkShared (decoder s) (encoder s) (encoder_stream s) m (peer_max_field_section_size s)
    (local_max_field_section_size s).
Definition set_peer_max (o : option Z) (s : SharedCodecs) : SharedCodecs :=
  MkShared (decoder s) (encoder s) (encoder_stream s) (unblocked s) o (local_max_field_section_size s).

(** [map.entry(sec.stream_id).or_default().push_back(sec)] for each section. *)
Definition queue_unblocked (l : list UnblockedSection) (m : gmap Z (list UnblockedSection))
    : gmap Z (list UnblockedSection) :=
  foldl (λ m sec, <[un_stream_id sec := default [] (m !! un_stream_id sec) ++ [sec]]> m) m l.

(** [take_unblocked_for]. *)
Definition take_unblocked_for (sid : Z) (s : SharedCodecs) : option (UnblockedSection * SharedCodecs) :=
  match unblocked s !! sid with
  | Some (sec :: queue) =>
      Some (sec, set_unblocked (if bool_decide (queue = []) then delete sid (unblocked s)
                                else <[sid := queue]> (unblocked s)) s)
  | _ => None
  end.

(** What a queue of sections holds for a stream. *)
Lemma queue_unblocked_lookup l : ∀ m sid,
  default [] (queue_unblocked l m !! sid)
  = default [] (m !! sid) ++ filter (λ sec, un_stream_id sec = sid) l.
Proof.
  induction l as [|sec l IH]; intros m sid; [by rewrite app_nil_r|]. cbn [queue_unblocked foldl].
  fold (queue_unblocked l (<[un_stream_id sec := default [] (m !! un_stream_id sec) ++ [sec]]> m)).
  rewrite IH, filter_cons. destruct (decide (un_stream_id sec = sid)) as [<-|Hne].
  - rewrite lookup_insert_eq. cbn. by rewrite <- app_assoc.
  - by rewrite lookup_insert_ne.
Qed.
