(* ===== verification/H3Reading.v ===== *)
(** * What has been read off a stream

    The frames a decoder has returned so far, as a prefix of the frames of the
    octets received ([frames] of H3Frame), and how a chunk or a call of the
    decoder moves it; what a poll delivers to a stream.  Shared by the control
    stream and the request streams. *)

From S2P Require Import Prelude H3Error Incremental Varint H3Frame Poll H3Transport.

(** Reading [fs] off [l] leaves [rest]: the same frames and the same error come
    after, and the same octets wait. *)
Definition took (max : option Z) (l : bytes) (fs : list Frame) (rest : bytes) : Prop :=
  let '(gs, r, e) := frames max rest in
  let '(hs, r', e') := frames max l in
  hs = fs ++ gs ∧ e' = e ∧ (e = None → r' = r).

Lemma took_nil max l : took max l [] l.
Proof. unfold took. by destruct (frames max l) as [[gs r] e]. Qed.

Lemma frames_app max l k : bytes_ok l → bytes_ok k →
  match frames max l with
  | (fs, _, Some e) => ∃ rest, frames max (l ++ k) = (fs, rest, Some e)
  | (fs, rest, None) =>
      bytes_ok rest ∧ frames max (l ++ k) = let '(gs, r, e) := frames max (rest ++ k) in (fs ++ gs, r, e)
  end.
Proof.
  intros Hl Hk. pose proof (drain_app (read_frame max) k l Hl Hk) as Ha. unfold frames.
  destruct (drain (read_frame max) l) as [[xs rest] [e|]] eqn:E.
  - destruct Ha as [r Ha]. exists r. by rewrite Ha.
  - change (known (xs, rest, None)) with (omap id xs, rest, @None FrameError). cbv beta iota.
    split; [exact (drain_rest_ok (read_frame max) _ _ _ _ Hl E)|]. rewrite Ha. destruct (drain _ (rest ++ k)) as [[ys r] e].
    unfold known. by rewrite omap_app.
Qed.

Lemma took_extend max l fs rest c : bytes_ok l → bytes_ok rest → bytes_ok c → took max l fs rest →
  took max (l ++ c) fs (rest ++ c).
Proof.
  intros Hl Hr Hc Ht. pose proof (frames_app max l c Hl Hc) as H1. pose proof (frames_app max rest c Hr Hc) as H2.
  unfold took in *. destruct (frames max rest) as [[gs r] e], (frames max l) as [[hs r'] e'].
  destruct Ht as (-> & -> & Ht). destruct e as [e|].
  - destruct H1 as [r1 ->], H2 as [r2 ->]. done.
  - rewrite (Ht eq_refl) in H1. destruct H1 as [_ ->], H2 as [_ ->].
    destruct (frames max (r ++ c)) as [[ks r2] e2]. by rewrite app_assoc.
Qed.

(** What waits holds no whole frame. *)
Lemma frames_wait max l fs rest : bytes_ok l → frames max l = (fs, rest, None) → frames max rest = ([], rest, None).
Proof.
  intros Hl E. unfold frames in E. destruct (drain (read_frame max) l) as [[xs r] e] eqn:Ed. injection E as _ -> ->.
  rewrite frames_eq by exact (drain_rest_ok (read_frame max) _ _ _ _ Hl Ed).
  by rewrite (parse_drain_stops (read_frame max) _ _ _ Hl Ed).
Qed.

(** What a call of the decoder adds. *)
Lemma took_next max l fs d d' r : decoder_ok d → took max l fs (flat d) → max_field_section d = max → next_agrees d d' r →
  match r with
  | Ok (Some f) => took max l (fs ++ [f]) (flat d')
  | Ok None => took max l fs (flat d')
  | Err e => ∃ rest, frames max l = (fs, rest, Some e)
  end.
Proof.
  intros [_ Hb] Ht Hm Hn. unfold took in *. destruct r as [[f|]|e]; cbn in Hn; rewrite Hm in Hn.
  - destruct Hn as (_ & _ & _ & _ & E). rewrite E in Ht. destruct (frames max (flat d')) as [[gs r] e].
    destruct (frames max l) as [[hs r'] e']. by rewrite <- app_assoc.
  - pose proof Hn as (_ & _ & _ & E). rewrite E in Ht.
    by rewrite (frames_wait _ _ _ _ Hb E).
  - destruct Hn as (rest & E). rewrite E in Ht. destruct (frames max l) as [[hs r'] e'].
    destruct Ht as (-> & -> & _). rewrite app_nil_r. by eexists.
Qed.

(** What a poll of stream [i] delivers to stream [id]. *)
Definition chunk_for (id i : Z) (r : poll (result TransportError (option bytes))) : bytes :=
  match r with Ready (Ok (Some c)) => if i =? id then c else [] | _ => [] end.
Definition octets_only (r : poll (result TransportError (option bytes))) : Prop :=
  ∀ c, r = Ready (Ok (Some c)) → bytes_ok c.

Lemma chunk_for_ok id i r : octets_only r → bytes_ok (chunk_for id i r).
Proof. intros Hr. unfold chunk_for. destruct r as [[[c|]|]|]; try constructor. specialize (Hr c eq_refl). by destruct (i =? id). Qed.

Lemma chunk_for_other id i r : i ≠ id → chunk_for id i r = [].
Proof. intros Hne. unfold chunk_for. rewrite (proj2 (Z.eqb_neq i id)) by done. by destruct r as [[[c|]|]|]. Qed.

Lemma octets_only_chunk c : bytes_ok c → octets_only (Ready (Ok (Some c))).
Proof. intros Hb d [= <-]. done. Qed.
