(* ===== verification/H3Control.v ===== *)
(** * The HTTP/3 control plane (src/src/h3/control/mod.rs)

    The unidirectional streams of a connection: the three this endpoint opens,
    what it queues on them and how it writes them; the peer's, how their type is
    read and what is done with their octets.  A function that polls is a
    computation over the control plane, the shared codecs and the transport. *)

From S2P Require Import Prelude H3Error Varint Incremental H3Frame H3Settings QpackTable QpackString QpackDecoder QpackEncoder Poll H3Transport H3Shared.

Definition STREAM_TYPE_CONTROL : Z := 0x0.
Definition STREAM_TYPE_PUSH : Z := 0x1.
Definition STREAM_TYPE_QPACK_ENCODER : Z := 0x2.
Definition STREAM_TYPE_QPACK_DECODER : Z := 0x3.

(** ** Errors and events *)

Inductive ControlError : Type :=
| TransportFailed (e : TransportError)
| ClosedCriticalStream
| MissingSettings
| StreamCreation
| FrameUnexpected
| FrameInvalid
| SettingsInvalid
| ExcessiveLoad
| Id
| Qpack (e : QpackError).

(** [ControlError::h3_code]. *)
Definition control_code (e : ControlError) : Z :=
  match e with
  | TransportFailed _ => code GeneralProtocol
  | ClosedCriticalStream => code H3Error.ClosedCriticalStream
  | MissingSettings => code H3Error.MissingSettings
  | StreamCreation => code H3Error.StreamCreation
  | FrameUnexpected => code H3Error.FrameUnexpected
  | FrameInvalid => code FrameError_
  | SettingsInvalid => code Settings_
  | ExcessiveLoad => code H3Error.ExcessiveLoad
  | Id => code H3Error.Id
  | Qpack e => qpack_code e
  end.

Definition map_frame_error (e : FrameError) : ControlError :=
  match e with
  | BadFrame => FrameInvalid
  | Unexpected _ => FrameUnexpected
  | BadSettings => SettingsInvalid
  | TooLong => ExcessiveLoad
  end.

Inductive ControlEvent : Type :=
| EvSettings (peer : PeerSettings)
| EvGoaway (id : Z)
| EvMaxPushId (id : Z)
| EvCancelPush (push_id : Z).

(** ** The state *)

(** The outbound streams and their pending octets. *)
Record Outbound : Type := MkOutbound {
  out_control : option Z;
  control_buf : bytes;
  out_encoder : option Z;
  out_decoder : option Z;
  encoder_pending : list bytes;
  decoder_pending : list bytes;
}.

Record PeerControl : Type := MkPeerControl { pc_stream : Z; pc_decoder : FrameDecoder }.
Record PendingUni : Type := MkPendingUni { pu_stream : Z; pu_buf : bytes }.

(** The inbound streams. *)
Record Inbound : Type := MkInbound {
  in_control : option PeerControl;
  in_encoder : option Z;
  in_decoder : option Z;
  pending_uni : option PendingUni;
  in_discard : option Z;
}.

(** What the peer's control stream has told. *)
Record Told : Type := MkTold {
  peer : PeerSettings;
  settings_received : bool;
  max_push_id : option Z;
  events : list ControlEvent;
}.

Record ControlStreams : Type := MkControl {
  local : LocalSettings;
  outbound : Outbound;
  inbound : Inbound;
  told : Told;
  goaway_sent : option Z;
}.

(** [ControlStreams::new]; the shared codecs are [new_shared]. *)
Definition nothing_told : Told := MkTold default_peer false None [].
Definition new_control (local : LocalSettings) : ControlStreams :=
  MkControl local (MkOutbound None [] None None [] []) (MkInbound None None None None None) nothing_told None.

(** The connection as the control plane works on it. *)
Record Conn (T : Type) : Type := MkConn {
  controls : ControlStreams;
  shared : SharedCodecs;
  net : T;
}.
Arguments MkConn {T}.
Arguments controls {T}.
Arguments shared {T}.
Arguments net {T}.

(** *** Updates *)

Definition set_control_out (o : option Z) (buf : bytes) (b : Outbound) : Outbound :=
  MkOutbound o buf (out_encoder b) (out_decoder b) (encoder_pending b) (decoder_pending b).
Definition set_encoder_out (o : option Z) (q : list bytes) (b : Outbound) : Outbound :=
  MkOutbound (out_control b) (control_buf b) o (out_decoder b) q (decoder_pending b).
Definition set_decoder_out (o : option Z) (q : list bytes) (b : Outbound) : Outbound :=
  MkOutbound (out_control b) (control_buf b) (out_encoder b) o (encoder_pending b) q.

Definition set_in_control (o : option PeerControl) (i : Inbound) : Inbound :=
  MkInbound o (in_encoder i) (in_decoder i) (pending_uni i) (in_discard i).
Definition set_in_encoder (o : option Z) (i : Inbound) : Inbound :=
  MkInbound (in_control i) o (in_decoder i) (pending_uni i) (in_discard i).
Definition set_in_decoder (o : option Z) (i : Inbound) : Inbound :=
  MkInbound (in_control i) (in_encoder i) o (pending_uni i) (in_discard i).
Definition set_pending_uni (o : option PendingUni) (i : Inbound) : Inbound :=
  MkInbound (in_control i) (in_encoder i) (in_decoder i) o (in_discard i).
Definition set_in_discard (o : option Z) (i : Inbound) : Inbound :=
  MkInbound (in_control i) (in_encoder i) (in_decoder i) (pending_uni i) o.

Definition set_events (l : list ControlEvent) (v : Told) : Told :=
  MkTold (peer v) (settings_received v) (max_push_id v) l.

Definition on_outbound (f : Outbound → Outbound) (c : ControlStreams) : ControlStreams :=
  MkControl (local c) (f (outbound c)) (inbound c) (told c) (goaway_sent c).
Definition on_inbound (f : Inbound → Inbound) (c : ControlStreams) : ControlStreams :=
  MkControl (local c) (outbound c) (f (inbound c)) (told c) (goaway_sent c).
Definition set_told (v : Told) (c : ControlStreams) : ControlStreams :=
  MkControl (local c) (outbound c) (inbound c) v (goaway_sent c).

Section ops.
Context {T : Type} `{Transport T}.

Abbreviation control A := (op (Conn T) ControlError A).

Definition on_controls (f : ControlStreams → ControlStreams) : control () :=
  modify (λ s, MkConn (f (controls s)) (shared s) (net s)).
Definition on_shared (f : SharedCodecs → SharedCodecs) : control () :=
  modify (λ s, MkConn (controls s) (f (shared s)) (net s)).

(** A call of the transport, [map_err(ControlError::from)?]. *)
Definition call {A} (f : T → poll (result TransportError A) * T) : control (poll A) := λ s,
  let '(r, t) := f (net s) in
  let s := MkConn (controls s) (shared s) t in
  match r with
  | Ready (Ok a) => (Done (Ready a), s)
  | Ready (Err e) => (Fail (TransportFailed e), s)
  | Pending => (Done Pending, s)
  end.

(** ** Opening and writing *)

Definition poll_init : control () :=
  s ← self;
  _ ← (if bool_decide (out_control (outbound (controls s)) = None) then
         id ← ready (call poll_open_uni);
         let settings := write_varint STREAM_TYPE_CONTROL ++ H3Frame.encode (SettingsFrame (to_frame (local (controls s)))) in
         on_controls (on_outbound (λ b, set_control_out (Some id) (control_buf b ++ settings) b))
       else mret ());
  s ← self;
  _ ← (if bool_decide (out_encoder (outbound (controls s)) = None) then
         id ← ready (call poll_open_uni);
         on_controls (on_outbound (λ b, set_encoder_out (Some id) (encoder_pending b ++ [[STREAM_TYPE_QPACK_ENCODER]]) b))
       else mret ());
  s ← self;
  if bool_decide (out_decoder (outbound (controls s)) = None) then
    id ← ready (call poll_open_uni);
    on_controls (on_outbound (λ b, set_decoder_out (Some id) (decoder_pending b ++ [[STREAM_TYPE_QPACK_DECODER]]) b))
  else mret ().

(** [while let Some(bytes) = pending.front()]: write it, then pop it. *)
Fixpoint flush_queue (id : Z) (pop : Outbound → Outbound) (queue : list bytes) : control () :=
  match queue with
  | [] => mret ()
  | bytes :: queue =>
      _ ← ready (call (poll_send id bytes));
      _ ← on_controls (on_outbound pop);
      flush_queue id pop queue
  end.

Definition pop_encoder (b : Outbound) : Outbound := set_encoder_out (out_encoder b) (tail (encoder_pending b)) b.
Definition pop_decoder (b : Outbound) : Outbound := set_decoder_out (out_decoder b) (tail (decoder_pending b)) b.

Definition poll_flush : control () :=
  s ← self;
  let b := outbound (controls s) in
  _ ← match out_control b with
      | Some id =>
          if bool_decide (control_buf b = []) then mret ()
          else _ ← ready (call (poll_send id (control_buf b)));
               on_controls (on_outbound (λ b, set_control_out (out_control b) [] b))
      | None => mret ()
      end;
  _ ← match out_encoder b with Some id => flush_queue id pop_encoder (encoder_pending b) | None => mret () end;
  match out_decoder b with Some id => flush_queue id pop_decoder (decoder_pending b) | None => mret () end.

(** ** Queueing *)

Definition queue_frame (f : Frame) (c : ControlStreams) : ControlStreams :=
  on_outbound (λ b, set_control_out (out_control b) (control_buf b ++ H3Frame.encode f) b) c.

Definition send_goaway (id : Z) (c : ControlStreams) : ControlStreams :=
  match goaway_sent c with
  | Some _ => c
  | None =>
      let c := queue_frame (Goaway id) c in
      MkControl (local c) (outbound c) (inbound c) (told c) (Some id)
  end.
Definition send_max_push_id (id : Z) : ControlStreams → ControlStreams := queue_frame (MaxPushId id).
Definition send_cancel_push (push_id : Z) : ControlStreams → ControlStreams := queue_frame (CancelPush push_id).

(** [queue_encoder_streams_from_shared]. *)
Definition queue_encoder_streams_from_shared : control () :=
  s ← self;
  let pending := encoder_stream (shared s) in
  _ ← on_controls (on_outbound (λ b, set_encoder_out (out_encoder b) (encoder_pending b ++ pending) b));
  on_shared (set_encoder_stream []).

(** ** Reading the control stream *)

(** [handle_control_frame]. *)
Definition handle_control_frame (f : Frame) : control () :=
  s ← self;
  let v := told (controls s) in
  let push ev v := set_events (events v ++ [ev]) v in
  if negb (settings_received v) && (if f is SettingsFrame _ then false else true) then fail MissingSettings
  else match f with
  | SettingsFrame settings =>
      if settings_received v then fail FrameUnexpected
      else
        let p := apply (peer v) settings in
        _ ← on_shared (λ sh, set_peer_max (H3Settings.peer_max_field_section_size p)
               (set_encoder (Some (new_encoder (peer_qpack_max_table_capacity p) true)) sh));
        on_controls (set_told (push (EvSettings p) (MkTold p true (max_push_id v) (events v))))
  | Goaway id => on_controls (set_told (push (EvGoaway id) v))
  | MaxPushId id =>
      match max_push_id v with
      | Some prev => if id <? prev then fail Id
          else on_controls (set_told (push (EvMaxPushId id) (MkTold (peer v) (settings_received v) (Some id) (events v))))
      | None => on_controls (set_told (push (EvMaxPushId id) (MkTold (peer v) (settings_received v) (Some id) (events v))))
      end
  | CancelPush _ => fail Id
  | Data _ | Headers _ | PushPromise _ _ => fail FrameUnexpected
  end.

(** The inner [loop] of [poll_read]: the frames the decoder has.  A frame takes
    two octets, so what is buffered is enough fuel. *)
Fixpoint drain_control (fuel : nat) (progressed : bool) : control bool :=
  s ← self;
  match fuel, in_control (inbound (controls s)) with
  | _, None => mret progressed
  | O, _ => stuck
  | S fuel, Some pc =>
      match next_frame (pc_decoder pc) with
      | None => stuck
      | Some (d, r) =>
          _ ← on_controls (on_inbound (set_in_control (Some (MkPeerControl (pc_stream pc) d))));
          match r with
          | Err e => fail (map_frame_error e)
          | Ok None => mret progressed
          | Ok (Some f) => _ ← handle_control_frame f; drain_control fuel true
          end
      end
  end.

(** ** The QPACK streams *)

(** Octets of the peer's encoder stream: the decoder, the sections it unblocks
    and what it has to say. *)
Definition feed_encoder (chunk : bytes) : control () :=
  s ← self;
  '(sections, d) ← lift Qpack (feed_encoder_stream (decoder (shared s)) chunk);
  let '(acks, d) := take_decoder_stream d in
  _ ← on_shared (λ sh, set_unblocked (queue_unblocked sections (unblocked sh)) (set_decoder d sh));
  if bool_decide (acks = []) then mret ()
  else on_controls (on_outbound (λ b, set_decoder_out (out_decoder b) (decoder_pending b ++ [acks]) b)).

(** Octets of the peer's decoder stream, to the encoder and to the decoder. *)
Definition tell_encoder (chunk : bytes) : control () :=
  s ← self;
  match encoder (shared s) with
  | None => mret ()
  | Some e => e ← lift Qpack (QpackEncoder.feed_decoder_stream e chunk); on_shared (set_encoder (Some e))
  end.
Definition validate (chunk : bytes) : control () :=
  s ← self;
  d ← lift Qpack (validate_decoder_stream (decoder (shared s)) chunk);
  on_shared (set_decoder d).

(** ** Classifying streams *)

(** The [match ty] of [classify_uni]. *)
Definition wire_uni (id ty : Z) (leftover : bytes) : control () :=
  s ← self;
  let i := inbound (controls s) in
  if ty =? STREAM_TYPE_CONTROL then
    if bool_decide (is_Some (in_control i)) then fail StreamCreation
    else on_controls (on_inbound (set_in_control (Some (MkPeerControl id (extend (with_max_field_section None) leftover)))))
  else if ty =? STREAM_TYPE_PUSH then fail StreamCreation
  else if ty =? STREAM_TYPE_QPACK_ENCODER then
    if bool_decide (is_Some (in_encoder i)) then fail StreamCreation
    else _ ← (if bool_decide (leftover = []) then mret () else feed_encoder leftover);
         on_controls (on_inbound (set_in_encoder (Some id)))
  else if ty =? STREAM_TYPE_QPACK_DECODER then
    if bool_decide (is_Some (in_decoder i)) then fail StreamCreation
    else _ ← (if bool_decide (leftover = []) then mret () else validate leftover);
         on_controls (on_inbound (set_in_decoder (Some id)))
  else on_controls (on_inbound (set_in_discard (Some id))).

(** [classify_uni]; the fuel bounds the chunks read. *)
Fixpoint classify_uni (fuel : nat) : control () :=
  s ← self;
  match fuel, pending_uni (inbound (controls s)) with
  | O, _ | _, None => stuck
  | S fuel, Some p =>
      r ← ready (call (poll_recv (pu_stream p)));
      match r with
      | None => _ ← on_controls (on_inbound (set_pending_uni None)); fail StreamCreation
      | Some chunk =>
          let buf := pu_buf p ++ chunk in
          _ ← on_controls (on_inbound (set_pending_uni (Some (MkPendingUni (pu_stream p) buf))));
          o ← lift map_frame_error (parse_varint buf);
          match o with
          | None => classify_uni fuel
          | Some (ty, used) =>
              _ ← on_controls (on_inbound (set_pending_uni None));
              wire_uni (pu_stream p) ty (drop (Z.to_nat used) buf)
          end
      end
  end.

(** ** [poll_read] *)

(** [if let Poll::Ready(()) = m? { progressed = true }]. *)
Definition attempt (m : control ()) : control bool := λ s,
  match m s with
  | (Done _, s) => (Done true, s)
  | (Wait, s) => (Done false, s)
  | (Fail e, s) => (Fail e, s)
  | (Stuck, s) => (Stuck, s)
  end.

(** A new stream, when the previous one has its type. *)
Definition accept_uni : control bool :=
  s ← self;
  if bool_decide (is_Some (pending_uni (inbound (controls s)))) then mret false
  else
    r ← call poll_accept_uni;
    match r with
    | Ready (Some id) => _ ← on_controls (on_inbound (set_pending_uni (Some (MkPendingUni id [])))); mret true
    | _ => mret false
    end.

Definition classify (fuel : nat) : control bool :=
  s ← self;
  if bool_decide (is_Some (pending_uni (inbound (controls s)))) then attempt (classify_uni fuel) else mret false.

(** A chunk of a critical stream. *)
Definition recv_critical (id : Z) (f : bytes → control ()) : control bool :=
  r ← call (poll_recv id);
  match r with
  | Ready (Some chunk) => _ ← f chunk; mret true
  | Ready None => fail ClosedCriticalStream
  | Pending => mret false
  end.

Definition read_control : control bool :=
  s ← self;
  match in_control (inbound (controls s)) with
  | None => mret false
  | Some pc => recv_critical (pc_stream pc) (λ chunk,
      on_controls (on_inbound (set_in_control (Some (MkPeerControl (pc_stream pc) (extend (pc_decoder pc) chunk))))))
  end.

Definition handle_frames : control bool :=
  s ← self;
  match in_control (inbound (controls s)) with
  | None => mret false
  | Some pc => drain_control (S (Z.to_nat (buffered (pc_decoder pc)))) false
  end.

Definition read_encoder : control bool :=
  s ← self;
  match in_encoder (inbound (controls s)) with
  | None => mret false
  | Some id => recv_critical id feed_encoder
  end.

Definition read_decoder : control bool :=
  s ← self;
  match in_decoder (inbound (controls s)) with
  | None => mret false
  | Some id => recv_critical id (λ chunk, _ ← tell_encoder chunk; validate chunk)
  end.

Definition discard : control bool :=
  s ← self;
  match in_discard (inbound (controls s)) with
  | None => mret false
  | Some id =>
      r ← call (poll_recv id);
      match r with
      | Ready (Some _) => mret true
      | Ready None => _ ← on_controls (on_inbound (set_in_discard None)); mret true
      | Pending => mret false
      end
  end.

(** One turn of the loop after the event queue was found empty; its value is
    [progressed]. *)
Definition read_turn (fuel : nat) : control bool :=
  p1 ← accept_uni;
  p2 ← classify fuel;
  p3 ← read_control;
  p4 ← handle_frames;
  p5 ← read_encoder;
  p6 ← read_decoder;
  p7 ← discard;
  mret (p1 || p2 || p3 || p4 || p5 || p6 || p7).

(** [self.events.pop_front()]. *)
Definition pop_event : control (option ControlEvent) :=
  s ← self;
  match events (told (controls s)) with
  | [] => mret None
  | ev :: rest => _ ← on_controls (λ c, set_told (set_events rest (told c)) c); mret (Some ev)
  end.

(** [poll_read]; the fuel bounds the turns, and the chunks read for a type. *)
Fixpoint read_loop (fuel chunks : nat) : control ControlEvent :=
  match fuel with
  | O => stuck
  | S fuel =>
      o ← pop_event;
      match o with
      | Some ev => mret ev
      | None =>
          progressed ← read_turn chunks;
          if (progressed : bool) then read_loop fuel chunks else wait
      end
  end.

Definition poll_read (fuel : nat) : control ControlEvent := read_loop fuel fuel.

(** *** Rules *)

Lemma wp_controls f Q s : wp (on_controls f) Q s ↔ Q (Done ()) (MkConn (f (controls s)) (shared s) (net s)).
Proof. done. Qed.

Lemma wp_shared f Q s : wp (on_shared f) Q s ↔ Q (Done ()) (MkConn (controls s) (f (shared s)) (net s)).
Proof. done. Qed.

End ops.

(** The projections of an updated connection. *)
Ltac conn := cbn [net controls shared on_inbound on_outbound set_told inbound outbound told goaway_sent local].

(** Steps that need no case analysis. *)
Ltac steps := repeat (lazymatch goal with
  | |- wp (self ≫= _) _ _ => apply wp_self
  | |- wp (_ ≫= _) _ _ => apply wp_bind
  | |- wp (on_controls _) _ _ => apply wp_controls
  | |- wp (on_shared _) _ _ => apply wp_shared
  | |- wp (mret _) _ _ => apply wp_ret
  | |- wp (fail _) _ _ => apply wp_fail
  end; cbn [andthen]).
