(* ===== verification/H3ControlSpec.v ===== *)
(** * What the control plane does with the peer's streams

    The frames of the peer's control stream, read off the octets received on
    it, and the events they amount to; for every way the transport delivers the
    octets, the control plane tells the driver exactly those events, and ends
    the connection only for a violation. *)

From stdpp Require Import sorting.
From S2P Require Import Prelude H3Error Varint Incremental H3Frame H3Settings QpackTable QpackString QpackDecoder QpackEncoder Poll H3Transport H3Shared H3Reading H3Control.

(** ** Control streams *)

Definition announce (f : Frame) : option ControlEvent :=
  match f with Goaway id => Some (EvGoaway id) | MaxPushId id => Some (EvMaxPushId id) | _ => None end.

Definition pushes (fs : list Frame) : list Z := omap (λ f, if f is MaxPushId id then Some id else None) fs.

(** The sequences of frames allowed on a control stream, and their events. *)
Definition frames_ok (fs : list Frame) : Prop :=
  match fs with
  | [] => True
  | SettingsFrame _ :: gs => Forall (λ f, is_Some (announce f)) gs ∧ StronglySorted Z.le (pushes gs)
  | _ => False
  end.
Definition announced (fs : list Frame) : list ControlEvent :=
  match fs with
  | SettingsFrame st :: gs => EvSettings (apply default_peer st) :: omap announce gs
  | _ => []
  end.

(** A frame that must not come after [fs], and the error for it. *)
Definition offends (fs : list Frame) (f : Frame) (e : ControlError) : Prop :=
  match e with
  | MissingSettings => fs = [] ∧ (if f is SettingsFrame _ then False else True)
  | FrameUnexpected => fs ≠ [] ∧ (match f with SettingsFrame _ | Data _ | Headers _ | PushPromise _ _ => True | _ => False end)
  | Id => fs ≠ [] ∧ (match f with CancelPush _ => True | MaxPushId id => ∃ prev, prev ∈ pushes fs ∧ id < prev | _ => False end)
  | _ => False
  end.

(** What is known after the frames [fs], of whose events [evs] were told. *)
Record told_by (fs : list Frame) (evs : list ControlEvent) (v : Told) : Prop := MkToldBy {
  tb_ok : frames_ok fs;
  tb_events : evs ++ events v = announced fs;
  tb_received : settings_received v = negb (bool_decide (fs = []));
  tb_peer : peer v = match fs with SettingsFrame st :: _ => apply default_peer st | _ => default_peer end;
  tb_push : max_push_id v = last (pushes fs);
}.

Lemma told_nothing : told_by [] [] nothing_told.
Proof. by split. Qed.

Lemma frames_ok_first fs f : fs ≠ [] → frames_ok (fs ++ [f]) ↔ frames_ok fs ∧ is_Some (announce f)
  ∧ (∀ id, f = MaxPushId id → Forall (λ p, p ≤ id) (pushes fs)).
Proof.
  intros Hne. destruct fs as [|g gs]; [done|]. cbn [app frames_ok]. destruct g; try tauto.
  unfold pushes. rewrite omap_app. cbn [omap list_omap]. fold (pushes gs). rewrite Forall_app, Forall_singleton.
  assert (StronglySorted Z.le (pushes gs ++ match f with MaxPushId id => [id] | _ => [] end)
    ↔ StronglySorted Z.le (pushes gs) ∧ (∀ id, f = MaxPushId id → Forall (λ p, p ≤ id) (pushes gs))) as H.
  { destruct f; rewrite ?app_nil_r; try naive_solver. rewrite StronglySorted_app. split.
    - intros (H1 & H2 & _). split; [done|]. intros id [= <-]. apply Forall_forall. intros p Hp. by apply H1; [|left].
    - intros [H1 H2]. specialize (H2 _ eq_refl). rewrite Forall_forall in H2. split; [|split; [done|repeat constructor]].
      intros x y Hx Hy%list_elem_of_singleton. subst y. by apply H2. }
  destruct f; cbn in H |- *; rewrite ?app_nil_r in *; naive_solver.
Qed.

Lemma sorted_below l id : StronglySorted Z.le l → match last l with Some prev => prev ≤ id | None => True end →
  Forall (λ p, p ≤ id) l.
Proof.
  destruct l as [|x l _] using rev_ind; [constructor|]. rewrite last_snoc. intros (H & _ & _)%StronglySorted_app Hx.
  apply Forall_app. split; [|by constructor]. apply Forall_forall. intros p Hp. specialize (H p x Hp ltac:(by left)). lia.
Qed.

Lemma pushes_sorted fs : frames_ok fs → StronglySorted Z.le (pushes fs).
Proof. destruct fs as [|[]]; try done; [constructor|]. by intros [_ H]. Qed.

Lemma announced_snoc fs f : frames_ok fs → fs ≠ [] → announced (fs ++ [f]) = announced fs ++ option_list (announce f).
Proof.
  destruct fs as [|g gs]; [done|]. destruct g; try done. intros _ _. cbn. rewrite omap_app. by destruct f.
Qed.

Lemma pushes_snoc fs f : pushes (fs ++ [f]) = pushes fs ++ (if f is MaxPushId id then [id] else []).
Proof. unfold pushes. rewrite omap_app. by destruct f. Qed.

(** A frame after the first, that only queues an event. *)
Lemma told_by_later fs evs v f ev v' : told_by fs evs v → fs ≠ [] → announce f = Some ev →
  (∀ id, f = MaxPushId id → Forall (λ p, p ≤ id) (pushes fs)) →
  peer v' = peer v → settings_received v' = settings_received v → events v' = events v ++ [ev] →
  max_push_id v' = (if f is MaxPushId id then Some id else max_push_id v) → told_by (fs ++ [f]) evs v'.
Proof.
  intros [H1 H2 H3 H4 H5] Hne Ha Hp E1 E2 E3 E4. split.
  - apply frames_ok_first; [done|]. split; [done|]. split; [by rewrite Ha|done].
  - by rewrite announced_snoc, Ha, E3, app_assoc, H2.
  - rewrite E2, H3, !bool_decide_eq_false_2; [done| |done]. by destruct fs.
  - rewrite E1, H4. by destruct fs.
  - rewrite E4, pushes_snoc, H5. destruct f; rewrite ?app_nil_r; try done. by rewrite last_snoc.
Qed.

Section spec.
Context {T : Type} `{Transport T}.

(** A step that leaves the streams and the transport alone. *)
Definition unmoved (s s' : Conn T) : Prop :=
  local (controls s') = local (controls s) ∧ outbound (controls s') = outbound (controls s)
  ∧ inbound (controls s') = inbound (controls s) ∧ goaway_sent (controls s') = goaway_sent (controls s)
  ∧ net s' = net s.

(** The codecs after a control frame: SETTINGS make the encoder. *)
Definition settled (sh sh' : SharedCodecs) : Prop :=
  sh' = sh ∨ ∃ cap limit, sh' = set_peer_max limit (set_encoder (Some (new_encoder cap true)) sh).

Lemma handle_spec evs fs f s : told_by fs evs (told (controls s)) →
  wp (handle_control_frame f) (λ o s', match o with
    | Done _ => told_by (fs ++ [f]) evs (told (controls s')) ∧ events (told (controls s')) ≠ []
        ∧ unmoved s s' ∧ settled (shared s) (shared s')
    | Fail e => offends fs f e ∧ s' = s
    | _ => False end) s.
Proof.
  intros Ht. pose proof Ht as [H1 H2 H3 H4 H5]. unfold wp, handle_control_frame, on_controls, on_shared. run_op.
  destruct (settings_received (told (controls s))) eqn:Es; cbn [negb andb].
  - assert (fs ≠ []) as Hne by (intros ->; done).
    destruct f; cbn; try done.
    + split; [|split; [by destruct (events _)|by split; [|left]]].
      by eapply told_by_later.
    + rewrite H5. pose proof (sorted_below (pushes fs) push_id (pushes_sorted fs H1)) as Hs.
      assert (∀ ev v', announce (MaxPushId push_id) = Some ev → Forall (λ p, p ≤ push_id) (pushes fs) →
        peer v' = peer (told (controls s)) → settings_received v' = true →
        events v' = events (told (controls s)) ++ [ev] → max_push_id v' = Some push_id →
        told_by (fs ++ [MaxPushId push_id]) evs v') as Hgo.
      { intros ev v' Ha Hp E1 E2 E3 E4. eapply told_by_later; try done; [by intros id [= <-]|by rewrite Es]. }
      destruct (last (pushes fs)) as [prev|] eqn:El.
      * destruct (Z.ltb_spec push_id prev) as [Hlt|Hge]; cbn.
        -- split; [|done]. split; [done|]. exists prev. split; [by apply last_Some_elem_of|done].
        -- split; [|split; [by destruct (events _)|by split; [|left]]]. by eapply Hgo; [| |..]; [|apply Hs|..].
      * cbn. split; [|split; [by destruct (events _)|by split; [|left]]]. by eapply Hgo; [|apply Hs|..].
  - assert (fs = []) as -> by (destruct fs; [done|rewrite bool_decide_eq_false_2 in H3 by done; done]).
    cbn in H2. apply app_nil in H2 as [-> H2].
    destruct f; cbn; try done.
    split; [|split; [by destruct (events _)|split; [done|right; by eexists _, _]]].
    split; cbn; rewrite ?H2, ?H4; try done. split; constructor.
Qed.
End spec.

(** ** Streams and their type *)

(** The octets received on stream [id] are its type [ty] and then [octets]. *)
Definition stream_of (h : list event) (id ty : Z) (octets : bytes) : Prop :=
  bytes_ok (received id h) ∧ ∃ used, parse_varint (received id h) = Ok (Some (ty, used))
    ∧ octets = drop (Z.to_nat used) (received id h).

Lemma stream_of_recv h id ty octets i r : stream_of h id ty octets → octets_only r →
  stream_of (h ++ recv_event i r) id ty (octets ++ chunk_for id i r).
Proof.
  intros (Hb & used & E & ->) Hr. unfold stream_of. rewrite received_one. fold (chunk_for id i r).
  pose proof (chunk_for_ok id i r Hr) as Hc. split; [by apply Forall_app|]. exists used.
  split; [by apply parse_more|]. destruct (parse_varint_range _ _ _ Hb E) as (_ & _ & Hn).
  rewrite drop_app_le; [done|]. unfold zlen in Hn. lia.
Qed.

Lemma stream_of_silent h id ty octets k : stream_of h id ty octets → received id k = [] → stream_of (h ++ k) id ty octets.
Proof. unfold stream_of. intros Hs Hk. by rewrite received_app, Hk, app_nil_r. Qed.

(** ** The invariant *)

Definition roles (i : Inbound) : list Z :=
  option_list (pu_stream <$> pending_uni i) ++ option_list (pc_stream <$> in_control i)
  ++ option_list (in_encoder i) ++ option_list (in_decoder i) ++ option_list (in_discard i).

(** Every stream has one role; the type of a pending one is not whole yet. *)
Record streams_at (h : list event) (i : Inbound) : Prop := MkStreamsAt {
  sa_nodup : NoDup (roles i);
  sa_known : ∀ id, id ∈ roles i → id ∈ event_stream <$> h;
  sa_pending : ∀ p, pending_uni i = Some p →
    received (pu_stream p) h = pu_buf p ∧ bytes_ok (pu_buf p) ∧ parse_varint (pu_buf p) = Ok None;
  sa_encoder : ∀ id, in_encoder i = Some id → ∃ octets, stream_of h id STREAM_TYPE_QPACK_ENCODER octets;
  sa_decoder : ∀ id, in_decoder i = Some id → ∃ octets, stream_of h id STREAM_TYPE_QPACK_DECODER octets;
}.

(** The peer's control stream: the frames read off it, told or not. *)
Definition control_at (evs : list ControlEvent) (h : list event) (o : option PeerControl) (v : Told) : Prop :=
  match o with
  | None => evs = [] ∧ v = nothing_told
  | Some pc => ∃ octets fs, stream_of h (pc_stream pc) STREAM_TYPE_CONTROL octets ∧ decoder_ok (pc_decoder pc)
      ∧ max_field_section (pc_decoder pc) = None ∧ took None octets fs (flat (pc_decoder pc)) ∧ told_by fs evs v
  end.

(** What an error of the control plane goes back to. *)
Definition critical (ty : Z) : Prop :=
  ty = STREAM_TYPE_CONTROL ∨ ty = STREAM_TYPE_QPACK_ENCODER ∨ ty = STREAM_TYPE_QPACK_DECODER.

(** The codecs refuse a piece of a QPACK stream. *)
Inductive refuses (sh : SharedCodecs) (piece : bytes) : Z → QpackError → Prop :=
| RFeed e : feed_encoder_stream (decoder sh) piece = Err e → refuses sh piece STREAM_TYPE_QPACK_ENCODER e
| RTell enc e : encoder sh = Some enc → QpackEncoder.feed_decoder_stream enc piece = Err e →
    refuses sh piece STREAM_TYPE_QPACK_DECODER e
| RValidate e : validate_decoder_stream (decoder sh) piece = Err e → refuses sh piece STREAM_TYPE_QPACK_DECODER e.

(** An error is justified by the codecs [sh] and the history [h] at the moment it
    is raised: what it goes back to has just happened.  The piece of a QPACK
    stream that is refused is the chunk just received, or all that came behind
    the type. *)
Inductive justified (sh : SharedCodecs) (h : list event) : ControlError → Prop :=
| JTransport ev e : last h = Some ev → ev = Lost e ∨ (∃ id, ev = Broke id e) → justified sh h (TransportFailed e)
| JQpack id ty octets piece e : stream_of h id ty octets → octets = piece ∨ last h = Some (Received id piece) →
    refuses sh piece ty e → justified sh h (Qpack e)
| JClosed id ty octets : last h = Some (Ended id) → stream_of h id ty octets → critical ty → justified sh h ClosedCriticalStream
| JUntyped id : last h = Some (Ended id) → parse_varint (received id h) = Ok None → justified sh h StreamCreation
| JPush id octets : stream_of h id STREAM_TYPE_PUSH octets → justified sh h StreamCreation
| JSecond id1 id2 ty o1 o2 : id1 ≠ id2 → stream_of h id1 ty o1 → stream_of h id2 ty o2 → critical ty →
    justified sh h StreamCreation
| JType id e : parse_varint (received id h) = Err e → justified sh h (map_frame_error e)
| JMalformed id octets fs rest e : stream_of h id STREAM_TYPE_CONTROL octets →
    frames None octets = (fs, rest, Some e) → frames_ok fs → justified sh h (map_frame_error e)
| JFrame id octets fs f gs rest err e : stream_of h id STREAM_TYPE_CONTROL octets →
    frames None octets = (fs ++ f :: gs, rest, err) → frames_ok fs → offends fs f e → justified sh h e.

Lemma streams_recv h i id r : streams_at h i → octets_only r →
  (∀ p, pending_uni i = Some p → pu_stream p ≠ id) → streams_at (h ++ recv_event id r) i.
Proof.
  intros [H1 H2 H3 H4 H5] Hr Hp. split; try done.
  - intros j Hj. rewrite fmap_app. apply elem_of_app. left. by apply H2.
  - intros p E. specialize (Hp p E). destruct (H3 p E) as (<- & Hb & Hn). rewrite received_one.
    fold (chunk_for (pu_stream p) id r). by rewrite chunk_for_other, app_nil_r.
  - intros j E. destruct (H4 j E) as [o Ho]. eexists. by apply stream_of_recv.
  - intros j E. destruct (H5 j E) as [o Ho]. eexists. by apply stream_of_recv.
Qed.

Lemma control_recv evs h o v id r : control_at evs h o v → octets_only r →
  (∀ pc, o = Some pc → pc_stream pc ≠ id) → control_at evs (h ++ recv_event id r) o v.
Proof.
  intros Hc Hr Hp. destruct o as [pc|]; [|done]. destruct Hc as (octets & fs & Hs & Hd & Hm & Ht & Hv).
  exists octets, fs. split; [|done]. specialize (Hp pc eq_refl).
  pose proof (stream_of_recv h _ _ _ id r Hs Hr) as H. by rewrite chunk_for_other, app_nil_r in H.
Qed.

(** *** Roles taken and given up *)

Lemma roles_pending i p : roles (set_pending_uni (Some p) i) ≡ₚ pu_stream p :: roles (set_pending_uni None i).
Proof. destruct i as [c e d q x]. unfold roles. cbn. destruct c, e, d, x; cbn; solve_Permutation. Qed.

Lemma roles_control i pc : in_control i = None → roles (set_in_control (Some pc) i) ≡ₚ pc_stream pc :: roles i.
Proof. destruct i as [c e d q x]. cbn. intros ->. unfold roles. cbn. destruct q, e, d, x; cbn; solve_Permutation. Qed.

Lemma roles_encoder i id : in_encoder i = None → roles (set_in_encoder (Some id) i) ≡ₚ id :: roles i.
Proof. destruct i as [c e d q x]. cbn. intros ->. unfold roles. cbn. destruct q, c, d, x; cbn; solve_Permutation. Qed.

Lemma roles_decoder i id : in_decoder i = None → roles (set_in_decoder (Some id) i) ≡ₚ id :: roles i.
Proof. destruct i as [c e d q x]. cbn. intros ->. unfold roles. cbn. destruct q, c, e, x; cbn; solve_Permutation. Qed.

Lemma roles_discard i id : roles (set_in_discard (Some id) i) ≡ₚ id :: roles (set_in_discard None i).
Proof. destruct i as [c e d q x]. unfold roles. cbn. destruct q, c, e, d; cbn; solve_Permutation. Qed.

Lemma roles_fewer i : roles (set_in_discard None i) `sublist_of` roles i ∧ roles (set_pending_uni None i) `sublist_of` roles i.
Proof.
  unfold roles. destruct i as [c e d q x]. cbn. rewrite app_nil_r. split.
  - do 3 (apply sublist_app; [done|]). by apply sublist_inserts_r.
  - by apply sublist_inserts_l.
Qed.

(** A stream takes a role. *)
Definition free (h : list event) (i : Inbound) (id : Z) : Prop := id ∉ roles i ∧ id ∈ event_stream <$> h.

Lemma streams_fewer h i i' : roles i' `sublist_of` roles i → pending_uni i' = None ∨ pending_uni i' = pending_uni i →
  in_encoder i' = in_encoder i → in_decoder i' = in_decoder i → streams_at h i → streams_at h i'.
Proof.
  intros Hs Hp He Hd [H1 H2 H3 H4 H5]. split; rewrite ?He, ?Hd; try done.
  - by eapply sublist_NoDup.
  - intros id Hid. apply H2. by eapply sublist_subseteq.
  - intros p E. destruct Hp as [Hp|Hp]; [by rewrite Hp in E|]. apply H3. by rewrite <- Hp.
Qed.

Lemma streams_role h i i' id : roles i' ≡ₚ id :: roles i → free h i id → streams_at h i →
  (∀ p, pending_uni i' = Some p →
    received (pu_stream p) h = pu_buf p ∧ bytes_ok (pu_buf p) ∧ parse_varint (pu_buf p) = Ok None) →
  (∀ e, in_encoder i' = Some e → ∃ octets, stream_of h e STREAM_TYPE_QPACK_ENCODER octets) →
  (∀ e, in_decoder i' = Some e → ∃ octets, stream_of h e STREAM_TYPE_QPACK_DECODER octets) →
  streams_at h i'.
Proof.
  intros Hp [Hn Hk] [H1 H2 H3 H4 H5] A B C. split; try done.
  - rewrite Hp. by constructor.
  - intros j Hj. rewrite Hp in Hj. apply elem_of_cons in Hj as [->|Hj]; [done|by apply H2].
Qed.

(** Taking a pending stream out of its role. *)
Lemma streams_take h i p : streams_at h i → pending_uni i = Some p →
  streams_at h (set_pending_uni None i) ∧ free h (set_pending_uni None i) (pu_stream p)
  ∧ (∀ pc, in_control i = Some pc → pc_stream pc ≠ pu_stream p)
  ∧ received (pu_stream p) h = pu_buf p ∧ bytes_ok (pu_buf p) ∧ parse_varint (pu_buf p) = Ok None.
Proof.
  intros Hs E. assert (i = set_pending_uni (Some p) i) as Ei by (destruct i; cbn in *; by rewrite E).
  pose proof (sa_nodup h i Hs) as Hn. rewrite Ei, roles_pending in Hn. apply NoDup_cons in Hn as [Hn _].
  split; [|split; [|split]].
  - apply (streams_fewer h i); [apply roles_fewer|by left|done|done|done].
  - split; [done|]. apply (sa_known h i Hs). rewrite Ei, roles_pending. left.
  - intros pc Epc Eq. apply Hn. rewrite <- Eq. unfold roles. cbn. rewrite Epc. left.
  - by apply (sa_pending h i Hs).
Qed.

(** The pending stream and the control stream are not any other one. *)
Definition another (i : Inbound) (id : Z) : Prop :=
  in_encoder i = Some id ∨ in_decoder i = Some id ∨ in_discard i = Some id.

Lemma streams_control_pending h i pc p : streams_at h i → in_control i = Some pc → pending_uni i = Some p →
  pu_stream p ≠ pc_stream pc.
Proof. intros Hs Ec Ep Eq. destruct (streams_take _ _ _ Hs Ep) as (_ & _ & Hpc & _). by apply (Hpc pc Ec). Qed.

Lemma streams_pending_other h i p id : streams_at h i → pending_uni i = Some p → another i id → pu_stream p ≠ id.
Proof.
  intros Hs E Ha <-. destruct (streams_take h i p Hs E) as (_ & [Hn _] & _). apply Hn. unfold roles. cbn.
  destruct Ha as [-> |[-> | ->]]; cbn; rewrite ?elem_of_app, ?elem_of_cons; naive_solver.
Qed.

Lemma streams_control_other h i pc id : streams_at h i → in_control i = Some pc → another i id → pc_stream pc ≠ id.
Proof.
  intros [Hn _ _ _ _] E Ha Heq. unfold roles in Hn. rewrite E in Hn. cbn in Hn.
  apply NoDup_app in Hn as (_ & _ & Hn). apply NoDup_cons in Hn as [Hc _]. apply Hc. rewrite Heq.
  destruct Ha as [-> |[-> | ->]]; cbn; rewrite ?elem_of_app, ?elem_of_cons; naive_solver.
Qed.

(** ** Every part of [poll_read] keeps the invariant *)

Section reading.
Context {T : Type} `{Recorded T}.

Definition inv (evs : list ControlEvent) (s : Conn T) : Prop :=
  streams_at (history (net s)) (inbound (controls s))
  ∧ control_at evs (history (net s)) (in_control (inbound (controls s))) (told (controls s)).

Definition post {A} (evs : list ControlEvent) (o : outcome ControlError A) (s : Conn T) : Prop :=
  match o with
  | Done _ | Wait => inv evs s
  | Fail e => justified (shared s) (history (net s)) e
  | Stuck => True
  end.

Definition keeps {A} (m : op (Conn T) ControlError A) : Prop := ∀ evs s, inv evs s → wp m (post evs) s.

Lemma keeps_bind {A B} (m : op (Conn T) ControlError A) (f : A → op (Conn T) ControlError B) :
  keeps m → (∀ a, keeps (f a)) → keeps (m ≫= f).
Proof.
  intros Hm Hf evs s Hi. apply wp_bind. eapply wp_mono; [by apply Hm|]. intros [a|e| |] s'; cbn; try done. apply Hf.
Qed.

Lemma keeps_ret {A} (a : A) : keeps (mret a).
Proof. by intros evs s Hi. Qed.

(** A poll of a stream. *)
Lemma wp_recv id Q (s : Conn T) :
  (∀ r t, history t = history (net s) ++ recv_event id r → octets_only r →
    match r with
    | Ready (Ok o) => Q (Done (Ready o)) (MkConn (controls s) (shared s) t)
    | Ready (Err e) => Q (Fail (TransportFailed e)) (MkConn (controls s) (shared s) t)
    | Pending => Q (Done Pending) (MkConn (controls s) (shared s) t)
    end) → wp (call (poll_recv id)) Q s.
Proof.
  intros HQ. unfold wp, call. pose proof (history_recv id (net s)) as Hh.
  pose proof (received_bytes id (net s)) as Hb. destruct (poll_recv id (net s)) as [r t]. cbn in Hh, Hb.
  specialize (HQ r t Hh Hb). by destruct r as [[o|e]|].
Qed.

(** A poll for a new stream. *)
Lemma wp_accept Q (s : Conn T) :
  (∀ o t, history t = history (net s) ++ accepted_event (Ready (Ok o)) →
     (∀ id, o = Some id → Forall (λ e, event_stream e ≠ id) (history (net s))) →
     Q (Done (Ready o)) (MkConn (controls s) (shared s) t)) →
  (∀ t, history t = history (net s) → Q (Done Pending) (MkConn (controls s) (shared s) t)) →
  (∀ e t, last (history t) = Some (Lost e) → Q (Fail (TransportFailed e)) (MkConn (controls s) (shared s) t)) →
  wp (call poll_accept_uni) Q s.
Proof.
  intros Hr Hp He. unfold wp, call. pose proof (history_accept (net s)) as Hh.
  pose proof (accepted_fresh (net s)) as Hf.
  destruct (poll_accept_uni (net s)) as [[[o|e]|] t]; cbn [fst snd] in *; [|apply He; rewrite Hh; apply last_snoc|].
  - apply Hr; [done|]. intros id ->. by apply Hf.
  - apply Hp. by rewrite app_nil_r in Hh.
Qed.

Lemma streams_accept h i id : streams_at h i → pending_uni i = None → Forall (λ e, event_stream e ≠ id) h →
  streams_at (h ++ [Accepted id]) (set_pending_uni (Some (MkPendingUni id [])) i).
Proof.
  intros Hs Ep Hf. assert (set_pending_uni None i = i) as Ei by (destruct i; cbn in *; by rewrite Ep).
  assert (∀ j ty, (∃ o, stream_of h j ty o) → ∃ o, stream_of (h ++ [Accepted id]) j ty o) as Hg.
  { intros j ty [o Ho]. exists o. by apply stream_of_silent. }
  assert (∀ j, j ∈ event_stream <$> h → j ∈ event_stream <$> h ++ [Accepted id]) as Hk.
  { intros j Hj. rewrite fmap_app. apply elem_of_app. by left. }
  apply (streams_role _ i _ id).
  - by rewrite roles_pending, Ei.
  - split; [|rewrite fmap_app; apply elem_of_app; right; left]. intros Hin.
    apply (sa_known _ _ Hs) in Hin as (e & -> & He)%list_elem_of_fmap. rewrite Forall_forall in Hf. by apply (Hf e).
  - destruct Hs as [H1 H2 H3 H4 H5]. split; auto. intros p E. by rewrite Ep in E.
  - intros p [= <-]. cbn. split; [|by split; [constructor|]]. rewrite received_app, (received_other _ _ Hf). done.
  - intros j E. apply Hg. by apply (sa_encoder _ _ Hs).
  - intros j E. apply Hg. by apply (sa_decoder _ _ Hs).
Qed.

Lemma control_silent evs h o v k : control_at evs h o v → (∀ id, received id k = []) → control_at evs (h ++ k) o v.
Proof.
  intros Hc Hk. destruct o as [pc|]; [|done]. destruct Hc as (l & fs & Ho & Hr). exists l, fs.
  split; [|done]. by apply stream_of_silent.
Qed.

Lemma keeps_accept : keeps accept_uni.
Proof.
  intros evs s [Hs Hc]. unfold accept_uni. steps. case_bool_decide as Hp; [by split|].
  assert (pending_uni (inbound (controls s)) = None) as Ep by (destruct (pending_uni _); [exfalso; eauto|done]).
  steps. apply wp_accept.
  - intros [id|] t Hh Hf; cbn [andthen accepted_event] in *; [|split; cbn; by rewrite Hh, app_nil_r].
    steps. split; conn; rewrite Hh; [by apply streams_accept; [| |apply Hf]|].
    by apply control_silent.
  - intros t Hh. split; cbn; by rewrite Hh.
  - intros e t Hl. by eapply JTransport; [exact Hl|left].
Qed.

(** *** The QPACK streams *)

(** What leaves the streams and what they told alone, and fails only when the
    codecs refuse a piece of a stream. *)
Definition aside (ty : Z) (piece : bytes) (m : op (Conn T) ControlError ()) : Prop := ∀ s,
  wp m (λ o s', match o with
    | Done _ => inbound (controls s') = inbound (controls s) ∧ told (controls s') = told (controls s) ∧ net s' = net s
    | Fail e => ∃ q, e = Qpack q ∧ refuses (shared s') piece ty q ∧ net s' = net s
    | _ => False end) s.

Lemma aside_feed chunk : aside STREAM_TYPE_QPACK_ENCODER chunk (feed_encoder chunk).
Proof.
  intros s. unfold feed_encoder. steps. apply wp_lift.
  destruct (feed_encoder_stream _ _) as [[us d]|e] eqn:E; [|exists e; split; [done|]; split; [by apply RFeed|done]]. cbn [andthen].
  destruct (take_decoder_stream d) as [acks d']. steps. case_bool_decide; by steps.
Qed.

Lemma aside_validate chunk : aside STREAM_TYPE_QPACK_DECODER chunk (validate chunk).
Proof.
  intros s. unfold validate. steps. apply wp_lift.
  destruct (validate_decoder_stream _ _) as [d|e] eqn:E; [|exists e; split; [done|]; split; [by apply RValidate|done]].
  cbn [andthen]. by steps.
Qed.

Lemma aside_tell chunk : aside STREAM_TYPE_QPACK_DECODER chunk (_ ← tell_encoder chunk; validate chunk).
Proof.
  intros s. steps. unfold tell_encoder. steps.
  destruct (encoder (shared s)) as [e|] eqn:Ee; [|steps; apply aside_validate].
  steps. apply wp_lift. destruct (QpackEncoder.feed_decoder_stream e chunk) as [e'|err] eqn:E; cbn [andthen].
  - steps. exact (aside_validate chunk (MkConn (controls s) (set_encoder (Some e') (shared s)) (net s))).
  - exists err. split; [done|]. split; [by eapply RTell|done].
Qed.

Lemma aside_ret ty piece : aside ty piece (mret ()).
Proof. by intros s. Qed.

Lemma wp_aside ty piece m Q s : aside ty piece m →
  (∀ s', inbound (controls s') = inbound (controls s) → told (controls s') = told (controls s) → net s' = net s →
    Q (Done ()) s') → (∀ e s', refuses (shared s') piece ty e → net s' = net s → Q (Fail (Qpack e)) s') → wp m Q s.
Proof.
  intros Hm HQ He. eapply wp_mono; [apply Hm|]. intros [[]|e| |] s'; cbn; try done.
  - intros (E1 & E2 & E3). by apply HQ.
  - intros (q & -> & Hr & Hn). by apply He.
Qed.

(** *** Types *)

Lemma second_stream sh h i id ty leftover j o : free h i id → j ∈ roles i → stream_of h j ty o →
  stream_of h id ty leftover → critical ty → justified sh h StreamCreation.
Proof. intros [Hn _] Hj H1 H2 Hc. apply (JSecond _ _ j id ty o leftover); try done. by intros ->. Qed.

Lemma has_role i : (∀ pc, in_control i = Some pc → pc_stream pc ∈ roles i)
  ∧ (∀ j, in_encoder i = Some j → j ∈ roles i) ∧ (∀ j, in_decoder i = Some j → j ∈ roles i).
Proof. unfold roles. split_and!; intros x ->; cbn; rewrite ?elem_of_app, ?elem_of_cons; naive_solver. Qed.

Lemma wire_spec evs s id ty leftover : inv evs s → free (history (net s)) (inbound (controls s)) id →
  stream_of (history (net s)) id ty leftover → bytes_ok leftover → wp (wire_uni id ty leftover) (post evs) s.
Proof.
  intros [Hs Hc] Hfree Ho Hb. unfold wire_uni. steps.
  assert (∀ p, pending_uni (inbound (controls s)) = Some p → received (pu_stream p) (history (net s)) = pu_buf p
    ∧ bytes_ok (pu_buf p) ∧ parse_varint (pu_buf p) = Ok None) as Hp by apply Hs.
  destruct (has_role (inbound (controls s))) as (Hrc & Hre & Hrd).
  destruct (Z.eqb_spec ty STREAM_TYPE_CONTROL) as [->|]; [|destruct (Z.eqb_spec ty STREAM_TYPE_PUSH) as [->|];
    [|destruct (Z.eqb_spec ty STREAM_TYPE_QPACK_ENCODER) as [->|]; [|destruct (Z.eqb_spec ty STREAM_TYPE_QPACK_DECODER) as [->|]]]].
  - destruct (in_control (inbound (controls s))) as [pc|] eqn:Ec; cbn [is_Some]; case_bool_decide as Hd.
    + destruct Hc as (o & fs & Hpc & _). by eapply second_stream; [done|by apply Hrc|done|done|left].
    + by destruct Hd.
    + by destruct Hd.
    + steps. split; conn.
      * eapply streams_role; [by apply roles_control|done|done|exact Hp|apply Hs..].
      * destruct Hc as [-> ->]. exists leftover, []. cbn [set_in_control in_control pc_stream pc_decoder].
        split; [done|]. split; [by apply extend_ok|]. rewrite extend_flat, extend_max. split; [done|]. split; [apply took_nil|apply told_nothing].
  - by eapply JPush.
  - destruct (in_encoder (inbound (controls s))) as [j|] eqn:Ec; case_bool_decide as Hd.
    + destruct (sa_encoder _ _ Hs j Ec) as [o Hj]. by eapply second_stream; [done|by apply Hre|done|done|right; left].
    + by destruct Hd.
    + by destruct Hd.
    + apply wp_bind. apply (wp_aside STREAM_TYPE_QPACK_ENCODER leftover); [case_bool_decide; [apply aside_ret|apply aside_feed]|
        |intros e s' Hr Hn; cbn; rewrite Hn; by eapply JQpack; [|left|]].
      intros s' E1 E2 E3. cbn [andthen]. steps. split; conn; rewrite E1, E3; [|by rewrite E2].
      eapply streams_role; [by apply roles_encoder|done|done|exact Hp| |apply Hs].
      intros j [= <-]. by exists leftover.
  - destruct (in_decoder (inbound (controls s))) as [j|] eqn:Ec; case_bool_decide as Hd.
    + destruct (sa_decoder _ _ Hs j Ec) as [o Hj]. by eapply second_stream; [done|by apply Hrd|done|done|right; right].
    + by destruct Hd.
    + by destruct Hd.
    + apply wp_bind. apply (wp_aside STREAM_TYPE_QPACK_DECODER leftover); [case_bool_decide; [apply aside_ret|apply aside_validate]|
        |intros e s' Hr Hn; cbn; rewrite Hn; by eapply JQpack; [|left|]].
      intros s' E1 E2 E3. cbn [andthen]. steps. split; conn; rewrite E1, E3; [|by rewrite E2].
      eapply streams_role; [by apply roles_decoder|done|done|exact Hp|apply Hs|].
      intros j [= <-]. by exists leftover.
  - steps. split; conn; [|done].
    assert (streams_at (history (net s)) (set_in_discard None (inbound (controls s)))) as Hs'.
    { apply (streams_fewer _ (inbound (controls s))); [apply roles_fewer|by right|done..]. }
    eapply streams_role; [apply roles_discard| |exact Hs'|exact Hp|apply Hs..].
    split; [|apply Hfree]. intros Hin. apply Hfree. eapply sublist_subseteq; [|exact Hin]. apply roles_fewer.
Qed.

(** A chunk for the pending stream. *)
Lemma pending_chunk evs s p c t : inv evs s → pending_uni (inbound (controls s)) = Some p → bytes_ok c →
  history t = history (net s) ++ recv_event (pu_stream p) (Ready (Ok (Some c))) →
  let i := set_pending_uni None (inbound (controls s)) in
  inv evs (MkConn (on_inbound (set_pending_uni None) (controls s)) (shared s) t)
  ∧ free (history t) i (pu_stream p) ∧ received (pu_stream p) (history t) = pu_buf p ++ c ∧ bytes_ok (pu_buf p ++ c).
Proof.
  intros [Hs Hc] Ep Hb Hh i. destruct (streams_take _ _ _ Hs Ep) as (Hs' & [Hn Hk] & Hpc & Hr & Hpb & _).
  assert (octets_only (Ready (Ok (Some c)))) as Ho by (intros c' [= <-]; done).
  split; [split; conn; rewrite Hh|split; [|split]].
  - by apply streams_recv.
  - by apply control_recv.
  - split; [done|]. rewrite Hh, fmap_app. apply elem_of_app. by left.
  - rewrite Hh, received_one, Z.eqb_refl, Hr. done.
  - by apply Forall_app.
Qed.

Lemma set_pending_twice i o1 o2 : set_pending_uni o2 (set_pending_uni o1 i) = set_pending_uni o2 i.
Proof. by destruct i. Qed.

Lemma classify_spec fuel : keeps (classify_uni fuel).
Proof.
  induction fuel as [|fuel IH]; intros evs s Hi; [by steps|]. cbn [classify_uni]. steps.
  destruct (pending_uni (inbound (controls s))) as [p|] eqn:Ep; [|done]. steps. apply wp_ready, wp_recv.
  intros r t Hh Hr. destruct r as [[[c|]|e]|]; cbn [andthen].
  - specialize (Hr c eq_refl). destruct (pending_chunk evs s p c t Hi Ep Hr Hh) as ([Hs Hc] & Hf & Hrec & Hb). conn.
    steps. apply wp_lift. destruct (parse_varint (pu_buf p ++ c)) as [[[ty used]|]|e] eqn:E; cbn [andthen].
    + steps. unfold on_inbound at 1. conn. rewrite set_pending_twice. apply wire_spec; [by split|done| |by apply Forall_drop].
      split; conn; rewrite Hrec; [done|]. by exists used.
    + apply IH. split; conn; [|done].
      eapply streams_role; [apply roles_pending|exact Hf|exact Hs| |apply Hs..].
      intros q [= <-]. cbn. by rewrite Hrec.
    + apply (JType _ _ (pu_stream p)). conn. by rewrite Hrec.
  - steps. destruct Hi as [Hs Hc]. destruct (streams_take _ _ _ Hs Ep) as (_ & _ & _ & Hrec & _ & Hn).
    apply (JUntyped _ _ (pu_stream p)); conn; rewrite Hh; [apply last_snoc|].
    by rewrite received_one, app_nil_r, Hrec.
  - eapply JTransport; [conn; rewrite Hh; apply last_snoc|right; by eexists].
  - destruct Hi as [Hs Hc]. split; conn; by rewrite Hh, app_nil_r.
Qed.

Lemma keeps_classify fuel : keeps (classify fuel).
Proof.
  intros evs s Hi. unfold classify. steps. case_bool_decide; [|done]. unfold wp, attempt.
  pose proof (classify_spec fuel evs s Hi) as Hc. unfold wp in Hc. by destruct (classify_uni fuel s) as [[[]|e| |] s'].
Qed.

(** *** Critical streams *)

Lemma wp_critical id ty octets f Q (s : Conn T) : stream_of (history (net s)) id ty octets → critical ty →
  (∀ t, history t = history (net s) → Q (Done false) (MkConn (controls s) (shared s) t)) →
  (∀ c t, bytes_ok c → history t = history (net s) ++ recv_event id (Ready (Ok (Some c))) →
     wp (f c) (andthen (λ _, mret true) Q) (MkConn (controls s) (shared s) t)) →
  (∀ e s', justified (shared s') (history (net s')) e → Q (Fail e) s') →
  wp (recv_critical id f) Q s.
Proof.
  intros Ho Hcr Hp Hc He. unfold recv_critical. steps. apply wp_recv.
  intros r t Hh Hr. destruct r as [[[c|]|e]|]; cbn [andthen].
  - steps. apply Hc; [by apply Hr|done].
  - steps. apply He. conn. apply (JClosed _ _ id ty octets); [| |done]; rewrite Hh; [apply last_snoc|].
    by apply stream_of_silent.
  - apply He. eapply JTransport; [conn; rewrite Hh; apply last_snoc|right; by eexists].
  - steps. apply Hp. by rewrite app_nil_r in Hh.
Qed.

Lemma keeps_read_control : keeps read_control.
Proof.
  intros evs s [Hs Hc]. unfold read_control. steps.
  destruct (in_control (inbound (controls s))) as [pc|] eqn:Ec; [|steps; split; [done|by rewrite Ec]].
  destruct Hc as (o & fs & Ho & Hd & Hm & Ht & Hv).
  apply (wp_critical _ STREAM_TYPE_CONTROL o); [done|by left|..|done].
  - intros t Hh. split; conn; rewrite Hh; [done|]. rewrite Ec. by exists o, fs.
  - intros c t Hb Hh. steps. pose proof (octets_only_chunk c Hb) as Hr. split; conn; rewrite Hh.
    + destruct (streams_recv _ _ (pc_stream pc) _ Hs Hr (λ p Ep, streams_control_pending _ _ _ p Hs Ec Ep)) as [H1 H2 H3 H4 H5].
      assert (roles (set_in_control (Some (MkPeerControl (pc_stream pc) (extend (pc_decoder pc) c))) (inbound (controls s)))
        = roles (inbound (controls s))) as Er by (unfold roles; cbn; by rewrite Ec).
      by split; rewrite ?Er.
    + exists (o ++ c), fs. cbn [set_in_control in_control pc_stream pc_decoder].
      pose proof (stream_of_recv _ _ _ _ (pc_stream pc) _ Ho Hr) as Hg. cbn [chunk_for] in Hg. rewrite Z.eqb_refl in Hg.
      split; [done|]. split; [by apply extend_ok|]. rewrite extend_flat, extend_max. split; [done|]. split; [|done].
      destruct Ho as (Hob & used & _ & ->). apply took_extend; [by apply Forall_drop|apply Hd|done|done].
Qed.

(** One frame off the control stream. *)
Lemma drain_step evs s pc : inv evs s → in_control (inbound (controls s)) = Some pc →
  ∃ d r, next_frame (pc_decoder pc) = Some (d, r) ∧
    let s1 := MkConn (on_inbound (set_in_control (Some (MkPeerControl (pc_stream pc) d))) (controls s)) (shared s) (net s) in
    match r with
    | Ok (Some f) => (length (flat d) < length (flat (pc_decoder pc)))%nat
        ∧ wp (handle_control_frame f) (λ o s', match o with
            | Done _ => inv evs s' ∧ in_control (inbound (controls s')) = Some (MkPeerControl (pc_stream pc) d)
                ∧ events (told (controls s')) ≠ [] ∧ net s' = net s
            | Fail e => justified (shared s') (history (net s')) e | _ => False end) s1
    | Ok None => inv evs s1 ∧ frames None (flat d) = ([], flat d, None)
    | Err e => justified (shared s) (history (net s)) (map_frame_error e)
    end.
Proof.
  intros [Hs Hc] Ec. rewrite Ec in Hc. destruct Hc as (o & fs & Ho & Hd & Hm & Ht & Hv).
  destruct (next_frame_flat (pc_decoder pc) Hd) as (d & r & E & Hn). exists d, r. split; [done|]. intros s1.
  pose proof (took_next None o fs _ d r Hd Ht Hm Hn) as Htook.
  assert (∀ gs v, wf d ∧ bytes_ok (flat d) ∧ max_field_section d = max_field_section (pc_decoder pc) → took None o gs (flat d) →
    told_by gs evs v → control_at evs (history (net s)) (Some (MkPeerControl (pc_stream pc) d)) v) as Hnew.
  { intros gs v (Hw & Hb & Em) Ht' Hv'. exists o, gs. split; [done|]. split; [by split|]. cbn. by rewrite Em. }
  assert (streams_at (history (net s)) (inbound (controls s1))) as Hs'.
  { assert (roles (inbound (controls s1)) = roles (inbound (controls s))) as Er
      by (unfold roles; cbn; by rewrite Ec). destruct Hs. by split; rewrite ?Er. }
  destruct r as [[f|]|e]; cbn in Hn.
  - destruct Hn as (Hw & Hb & Em & Hlt & _). split; [done|]. eapply wp_mono; [by apply (handle_spec evs fs)|].
    intros [[]|e| |] s'; try done.
    + intros (Hv' & Hq & (_ & _ & Ei & _ & En) & _). split; [|by rewrite Ei]. split; rewrite Ei, En; [done|]. by eapply Hnew.
    + intros [Hoff ->]. conn. unfold took in Htook. destruct (frames None o) as [[hs r'] e'] eqn:Ef.
      destruct (frames None (flat d)) as [[gs r] e2]. destruct Htook as (-> & _). rewrite <- app_assoc in Ef.
      by eapply JFrame; [done|exact Ef|apply Hv|].
  - destruct Hn as (Hw & Hb & Em & Hfr). rewrite Hm in Hfr. split; [|eapply frames_wait; [apply Hd|done]].
    split; [done|]. by eapply Hnew.
  - destruct Htook as [rest Ef]. by eapply JMalformed; [done|exact Ef|apply Hv].
Qed.

Lemma drain_spec fuel : ∀ b, keeps (drain_control fuel b).
Proof.
  induction fuel as [|fuel IH]; intros b evs s Hi; cbn [drain_control]; steps;
    (destruct (in_control (inbound (controls s))) as [pc|] eqn:Ec; [|by steps]); [done|].
  destruct (drain_step evs s pc Hi Ec) as (d & [[f|]|e] & -> & Hr); steps; [|apply Hr|done].
  eapply wp_mono; [apply Hr|]. intros [[]|e| |] s'; try done. intros (Hi' & _). by apply IH.
Qed.

Lemma keeps_frames : keeps handle_frames.
Proof.
  intros evs s Hi. unfold handle_frames. steps. destruct (in_control _) as [pc|]; [by apply drain_spec|by steps].
Qed.

Lemma keeps_chunk evs s id r t : inv evs s → octets_only r → another (inbound (controls s)) id →
  history t = history (net s) ++ recv_event id r → inv evs (MkConn (controls s) (shared s) t).
Proof.
  intros [Hs Hc] Hr Ha Hh. split; conn; rewrite Hh.
  - apply streams_recv; [done..|]. intros p Ep. by eapply streams_pending_other.
  - apply control_recv; [done..|]. intros pc Epc. by eapply streams_control_other.
Qed.

(** Reading a QPACK stream. *)
Lemma keeps_qpack_stream evs s id ty o f : inv evs s → another (inbound (controls s)) id →
  stream_of (history (net s)) id ty o → critical ty → (∀ c, aside ty c (f c)) → wp (recv_critical id f) (post evs) s.
Proof.
  intros Hi Ha Ho Hcr Hf. apply (wp_critical _ ty o); [done..| | |done].
  - intros t Hh. destruct Hi. split; conn; by rewrite Hh.
  - intros c t Hb Hh. apply (wp_aside ty c); [apply Hf| |intros e s' Hr Hn; cbn [andthen]]; cycle 1.
    { cbn. rewrite Hn. cbn [net]. rewrite Hh. eapply (JQpack _ _ id ty (o ++ chunk_for id id (Ready (Ok (Some c))))); [|right; apply last_snoc|exact Hr].
      apply stream_of_recv; [done|by apply octets_only_chunk]. }
    intros s' E1 E2 E3. cbn [andthen]. steps.
    destruct (keeps_chunk evs s id _ t Hi (octets_only_chunk c Hb) Ha Hh) as [H1 H2].
    split; rewrite E1, E3; [done|by rewrite E2].
Qed.

Lemma keeps_read_encoder : keeps read_encoder.
Proof.
  intros evs s Hi. unfold read_encoder. steps. destruct (in_encoder (inbound (controls s))) as [id|] eqn:Ee; [|by steps].
  destruct (sa_encoder _ _ (proj1 Hi) id Ee) as [o Ho].
  eapply keeps_qpack_stream; [done|by left|done|by right; left|apply aside_feed].
Qed.

Lemma keeps_read_decoder : keeps read_decoder.
Proof.
  intros evs s Hi. unfold read_decoder. steps. destruct (in_decoder (inbound (controls s))) as [id|] eqn:Ee; [|by steps].
  destruct (sa_decoder _ _ (proj1 Hi) id Ee) as [o Ho].
  eapply keeps_qpack_stream; [done|by right; left|done|by right; right|apply aside_tell].
Qed.

Lemma keeps_discard : keeps discard.
Proof.
  intros evs s Hi. unfold discard. steps.
  destruct (in_discard (inbound (controls s))) as [id|] eqn:Ee; [|by steps]. steps. apply wp_recv. intros r t Hh Hr.
  pose proof (keeps_chunk evs s id r t Hi Hr (or_intror (or_intror Ee)) Hh) as Hi'.
  destruct r as [[[c|]|e]|]; cbn [andthen]; steps; [done| |eapply JTransport; [conn; rewrite Hh; apply last_snoc|right; by eexists]|done].
  destruct Hi' as [Hs' Hc']. split; conn; [|done].
  apply (streams_fewer _ (inbound (controls s))); [apply roles_fewer|by right|done..].
Qed.

Lemma keeps_turn fuel : keeps (read_turn fuel).
Proof.
  unfold read_turn. apply keeps_bind; [apply keeps_accept|intros p1]. apply keeps_bind; [apply keeps_classify|intros p2].
  apply keeps_bind; [apply keeps_read_control|intros p3]. apply keeps_bind; [apply keeps_frames|intros p4].
  apply keeps_bind; [apply keeps_read_encoder|intros p5]. apply keeps_bind; [apply keeps_read_decoder|intros p6].
  apply keeps_bind; [apply keeps_discard|intros p7]. apply keeps_ret.
Qed.

(** An event goes from the queue to the driver. *)
Lemma told_by_pop fs evs v ev rest : told_by fs evs v → events v = ev :: rest → told_by fs (evs ++ [ev]) (set_events rest v).
Proof. intros [H1 H2 H3 H4 H5] E. split; try done. rewrite <- H2, E, <- app_assoc. done. Qed.

Definition read_post (evs : list ControlEvent) (o : outcome ControlError ControlEvent) (s : Conn T) : Prop :=
  match o with
  | Done ev => inv (evs ++ [ev]) s
  | Wait => inv evs s
  | Fail e => justified (shared s) (history (net s)) e
  | Stuck => True
  end.

Lemma read_spec fuel chunks evs s : inv evs s → wp (read_loop fuel chunks) (read_post evs) s.
Proof.
  revert s. induction fuel as [|fuel IH]; intros s Hi; [done|]. cbn [read_loop]. steps. unfold pop_event. steps.
  destruct (events (told (controls s))) as [|ev rest] eqn:Ev; steps.
  - eapply wp_mono; [by apply keeps_turn|]. intros [[]|e| |] s'; cbn [andthen]; try done. apply IH.
  - destruct Hi as [Hs Hc]. split; conn; [done|]. unfold control_at in *.
    destruct (in_control (inbound (controls s))) as [pc|]; [|destruct Hc as [_ Hc]; by rewrite Hc in Ev].
    destruct Hc as (o & fs & Ho & Hd & Hm & Ht & Hv). exists o, fs. do 4 (split; [done|]). by apply told_by_pop.
Qed.
End reading.

