(* ===== verification/H3ControlLoop.v ===== *)
(** * [poll_read] comes to an end, and what a whole run of it tells

    For a transport with finitely much to deliver, a call of [poll_read] needs
    no more turns than that; and along any run of the driver's calls the events
    told are those of the octets received. *)

From S2P Require Import Prelude H3Error Varint Incremental H3Frame H3Settings QpackTable QpackString QpackDecoder QpackEncoder Poll H3Transport H3Shared H3Reading H3Control H3ControlSpec.

Section termination.
Context {T : Type} `{Recorded T} `{!Finite T}.

Abbreviation control A := (op (Conn T) ControlError A).
Definition left_over (s : Conn T) : nat := backlog (net s).
Definition queued (s : Conn T) : list ControlEvent := events (told (controls s)).

(** What a part of a turn does to the measure: it never gets stuck, and when it
    reports progress it took something from the transport or queued an event. *)
Definition advance_post (s : Conn T) (p : bool) (s' : Conn T) : Prop :=
  (left_over s' ≤ left_over s)%nat ∧ (queued s ≠ [] → queued s' ≠ [])
  ∧ (p = true → (left_over s' < left_over s)%nat ∨ queued s' ≠ []).

Definition advances (n : nat) (m : control bool) : Prop := ∀ evs s, inv evs s → (left_over s < n)%nat →
  wp m (λ o s', match o with Done p => advance_post s p s' | Stuck => False | _ => True end) s.

Lemma advance_still s : advance_post s false s.
Proof. unfold advance_post. split_and!; [lia|done|done]. Qed.

Lemma advance_trans s1 s2 s3 p q : advance_post s1 p s2 → advance_post s2 q s3 → advance_post s1 (p || q) s3.
Proof.
  intros (A1 & A2 & A3) (B1 & B2 & B3). split; [lia|]. split; [auto|].
  intros [->| ->]%orb_prop; [destruct (A3 eq_refl); [left; lia|auto]|destruct (B3 eq_refl); auto; left; lia].
Qed.

(** The rest of a turn, when [acc] was reported so far. *)
Definition advances_from (n : nat) (acc : bool) (m : control bool) : Prop := ∀ evs s, inv evs s → (left_over s < n)%nat →
  wp m (λ o s', match o with Done q => ∃ p, q = acc || p ∧ advance_post s p s' | Stuck => False | _ => True end) s.

Lemma advances_bind n acc (m : control bool) (f : bool → control bool) : keeps m → advances n m →
  (∀ p, advances_from n (acc || p) (f p)) → advances_from n acc (m ≫= f).
Proof.
  intros Hk Hm Hf evs s Hi Hn. apply wp_bind. pose proof (Hk evs s Hi) as H1. pose proof (Hm evs s Hi Hn) as H2.
  unfold wp in *. destruct (m s) as [[p|e| |] s']; cbn in *; try done.
  assert (left_over s' < n)%nat as Hn' by (destruct H2; lia). specialize (Hf p evs s' H1 Hn'). unfold wp in Hf |- *.
  destruct (f p s') as [[q|e| |] s2]; cbn in *; try done. destruct Hf as (r & -> & Hr).
  exists (p || r). split; [by rewrite orb_assoc|]. by eapply advance_trans.
Qed.

Lemma advances_ret n acc : advances_from n acc (mret acc).
Proof. intros evs s _ _. exists false. split; [by rewrite orb_false_r|apply advance_still]. Qed.

Lemma wp_recv_backlog id Q (s : Conn T) :
  (∀ r t, (backlog t + delivers_one r ≤ left_over s)%nat →
    match r with
    | Ready (Ok o) => Q (Done (Ready o)) (MkConn (controls s) (shared s) t)
    | Ready (Err e) => Q (Fail (TransportFailed e)) (MkConn (controls s) (shared s) t)
    | Pending => Q (Done Pending) (MkConn (controls s) (shared s) t)
    end) → wp (call (poll_recv id)) Q s.
Proof.
  intros HQ. unfold wp, call. pose proof (backlog_recv id (net s)) as Hb.
  destruct (poll_recv id (net s)) as [r t]. specialize (HQ r t Hb). by destruct r as [[o|e]|].
Qed.

Lemma aside_advances ty piece (m : control ()) (s : Conn T) (Q : outcome ControlError () → Conn T → Prop) : aside ty piece m →
  (∀ s', told (controls s') = told (controls s) → net s' = net s → Q (Done ()) s') → (∀ e s', Q (Fail (Qpack e)) s') →
  wp m Q s.
Proof. intros Hm HQ He. apply (wp_aside ty piece); [done| |auto]. auto. Qed.

Lemma critical_advances n id ty f : (∀ c, aside ty c (f c)) → advances n (recv_critical id f).
Proof.
  intros Hf evs s _ _. unfold recv_critical. steps. apply wp_recv_backlog. intros r t Hb.
  destruct r as [[[c|]|e]|]; cbn [andthen delivers_one] in *; steps; try done.
  - eapply aside_advances; [apply Hf| |done]. intros s' E1 E2. cbn [andthen]. steps.
    unfold advance_post, left_over, queued in *. rewrite E1, E2. conn. split; [lia|]. split; [done|]. left. lia.
  - unfold advance_post, left_over, queued in *. conn. split; [lia|]. done.
Qed.

Lemma accept_advances n : advances n accept_uni.
Proof.
  intros evs s _ _. unfold accept_uni. steps. case_bool_decide; steps; [apply advance_still|].
  unfold wp, call. pose proof (backlog_accept (net s)) as Hb.
  destruct (poll_accept_uni (net s)) as [[[[id|]|e]|] t]; cbn in Hb |- *; try done; steps;
    unfold advance_post, left_over, queued; conn; (split; [lia|]); (split; [done|]); [left; lia|done..].
Qed.

(** A computation that leaves the transport and the event queue alone. *)
Definition calm (m : control ()) : Prop := ∀ s,
  wp m (λ o s', match o with Done _ => queued s' = queued s ∧ net s' = net s | Fail _ => True | _ => False end) s.

Lemma wire_calm id ty leftover : calm (wire_uni id ty leftover).
Proof.
  intros s. unfold wire_uni, calm. steps.
  assert (∀ ty piece (m : control ()) f, aside ty piece m → calm (_ ← m; on_controls (on_inbound f))) as Ha.
  { clear. intros ty piece m f Hm s. steps. apply (aside_advances ty piece); [done| |done]. intros s' E1 E2. cbn [andthen]. steps. unfold queued. conn. by rewrite E1, E2. }
  destruct (ty =? STREAM_TYPE_CONTROL); [case_bool_decide; by steps|]. destruct (ty =? STREAM_TYPE_PUSH); [by steps|].
  destruct (ty =? STREAM_TYPE_QPACK_ENCODER); [|destruct (ty =? STREAM_TYPE_QPACK_DECODER)]; [| |by steps];
    (case_bool_decide; [by steps|]; eapply Ha; case_bool_decide; [apply aside_ret|]); [apply aside_feed|apply aside_validate].
Qed.

Lemma classify_ends fuel : ∀ s p, pending_uni (inbound (controls s)) = Some p → (left_over s < fuel)%nat →
  wp (classify_uni fuel) (λ o s', match o with
    | Done _ => (left_over s' < left_over s)%nat ∧ queued s' = queued s
    | Wait => (left_over s' ≤ left_over s)%nat ∧ queued s' = queued s
    | Fail _ => True | Stuck => False end) s.
Proof.
  induction fuel as [|fuel IH]; intros s p Ep Hf; [lia|]. cbn [classify_uni]. steps. rewrite Ep. steps.
  apply wp_ready, wp_recv_backlog. intros r t Hb.
  destruct r as [[[c|]|e]|]; cbn [andthen delivers_one] in *; [| |done|unfold left_over, queued in *; conn; split; [lia|done]].
  - steps. apply wp_lift. destruct (parse_varint _) as [[[ty used]|]|e]; cbn [andthen]; [| |done].
    + steps. eapply wp_mono; [apply wire_calm|]. intros [[]|e| |] s'; try done. intros [E1 E2].
      unfold left_over, queued in *. rewrite E1, E2. conn. split; [lia|done].
    + eapply wp_mono; [eapply IH; [done|unfold left_over in *; conn; lia]|].
      intros [[]|e| |] s'; try done; intros [E1 ->]; unfold left_over in *; cbn [net] in *; (split; [lia|done]).
  - by steps.
Qed.

Lemma classify_advances n : advances n (classify n).
Proof.
  intros evs s _ Hn. unfold classify. steps. case_bool_decide as Hp; [|steps; apply advance_still].
  destruct Hp as [p Ep]. pose proof (classify_ends n s p Ep Hn) as Hc. unfold wp, attempt in *.
  destruct (classify_uni n s) as [[[]|e| |] s']; cbn in *; try done; destruct Hc as [Hl Hq];
    unfold advance_post; rewrite Hq; (split; [lia|]); (split; [done|]); [by left|done].
Qed.

Lemma frames_advance fuel : ∀ b evs s, inv evs s →
  match in_control (inbound (controls s)) with Some pc => (length (flat (pc_decoder pc)) < fuel)%nat | None => True end →
  wp (drain_control fuel b) (λ o s', match o with
    | Done p => ∃ q, p = b || q ∧ advance_post s q s' | Stuck => False | _ => True end) s.
Proof.
  induction fuel as [|fuel IH]; intros b evs s Hi Hf; cbn [drain_control]; steps;
    (destruct (in_control (inbound (controls s))) as [pc|] eqn:Ec;
      [|steps; exists false; split; [by rewrite orb_false_r|apply advance_still]]); [lia|].
  destruct (drain_step evs s pc Hi Ec) as (d & [[f|]|e] & -> & Hr); steps;
    [|exists false; split; [by rewrite orb_false_r|exact (advance_still s)]|done].
  destruct Hr as [Hlt Hr]. eapply wp_mono; [apply Hr|]. intros [[]|e| |] s'; cbn [andthen]; try done.
  intros (Hi' & Ec' & Hq & En). eapply wp_mono; [apply (IH true evs); [done|rewrite Ec'; cbn; lia]|].
  intros [p|e| |] s2; try done. intros (q & -> & A1 & A2 & A3). exists true. split; [by rewrite orb_true_r|].
  unfold advance_post, left_over in *. rewrite En in A1. split; [done|]. split; [auto|]. right. auto.
Qed.

Lemma handle_advances n : advances n handle_frames.
Proof.
  intros evs s Hi _. unfold handle_frames. steps. destruct (in_control _) as [pc|] eqn:Ec; [|steps; apply advance_still].
  eapply wp_mono; [apply (frames_advance _ false evs s Hi)|].
  - rewrite Ec. destruct Hi as [_ Hc]. rewrite Ec in Hc. destruct Hc as (_ & _ & _ & [Hw _] & _).
    unfold buffered. rewrite Hw. unfold zlen. lia.
  - intros [p|e| |] s'; try done. intros (q & -> & Hq). exact Hq.
Qed.

Lemma read_control_advances n : advances n read_control.
Proof.
  intros evs s _ _. unfold read_control. steps. destruct (in_control _) as [pc|]; [|steps; apply advance_still].
  unfold recv_critical. steps. apply wp_recv_backlog. intros r t Hb.
  destruct r as [[[c|]|e]|]; cbn [andthen delivers_one] in *; steps; try done;
    unfold advance_post, left_over, queued in *; conn; (split; [lia|]); (split; [done|]); [left; lia|done].
Qed.

Lemma discard_advances n : advances n discard.
Proof.
  intros evs s _ _. unfold discard. steps. destruct (in_discard _) as [id|]; steps; [|apply advance_still].
  apply wp_recv_backlog. intros r t Hb.
  destruct r as [[[c|]|e]|]; cbn [andthen delivers_one] in *; steps; try done;
    unfold advance_post, left_over, queued in *; conn; (split; [lia|]); (split; [done|]); try (left; lia); done.
Qed.

Lemma turn_advances n : advances_from n false (read_turn n).
Proof.
  unfold read_turn. apply advances_bind; [apply keeps_accept|apply accept_advances|intros p1].
  apply advances_bind; [apply keeps_classify|apply classify_advances|intros p2].
  apply advances_bind; [apply keeps_read_control|apply read_control_advances|intros p3].
  apply advances_bind; [apply keeps_frames|apply handle_advances|intros p4].
  apply advances_bind; [apply keeps_read_encoder| |intros p5].
  { intros evs s Hi Hn. unfold read_encoder. steps. destruct (in_encoder _); [|steps; apply advance_still].
    by apply (critical_advances n _ _ _ aside_feed evs). }
  apply advances_bind; [apply keeps_read_decoder| |intros p6].
  { intros evs s Hi Hn. unfold read_decoder. steps. destruct (in_decoder _); [|steps; apply advance_still].
    by apply (critical_advances n _ _ _ aside_tell evs). }
  apply advances_bind; [apply keeps_discard|apply discard_advances|intros p7]. apply advances_ret.
Qed.

Lemma read_ends n fuel : ∀ evs s, inv evs s → (left_over s < n)%nat →
  (left_over s + (if bool_decide (queued s = []) then 1 else 0) < fuel)%nat →
  wp (read_loop fuel n) (λ o _, if o is Stuck then False else True) s.
Proof.
  induction fuel as [|fuel IH]; intros evs s Hi Hn Hf; [lia|]. cbn [read_loop]. steps. unfold pop_event. steps.
  destruct (events (told (controls s))) as [|ev rest] eqn:Ev; steps; [|done].
  unfold queued in Hf. rewrite Ev in Hf. cbn in Hf.
  pose proof (turn_advances n evs s Hi Hn) as Ht. pose proof (keeps_turn n evs s Hi) as Hk. unfold wp in Ht, Hk |- *.
  destruct (read_turn n s) as [[p|e| |] s']; cbn in *; try done. destruct Ht as (q & -> & A1 & _ & A3).
  destruct q; cbn; [|done]. apply (IH evs); [done|lia|]. destruct (A3 eq_refl) as [A|A]; [case_bool_decide; lia|].
  rewrite bool_decide_eq_false_2 by done. lia.
Qed.
End termination.

(** ** The driver *)

Section driver.
Context {T : Type} `{Recorded T}.

(** What goes out and what request streams do: nothing is received on the
    streams of the control plane. *)
Definition calls_quietly (s s' : Conn T) : Prop :=
  inbound (controls s') = inbound (controls s) ∧ told (controls s') = told (controls s)
  ∧ ∃ k, history (net s') = history (net s) ++ k ∧ ∀ id, received id k = [].

Create HintDb quiet.

#[export] Instance calls_quietly_preorder : PreOrder calls_quietly.
Proof.
  split.
  - intros s. split; [done|]. split; [done|]. exists []. by rewrite app_nil_r.
  - intros s1 s2 s3 (A1 & A2 & k1 & A3 & A4) (B1 & B2 & k2 & B3 & B4). split; [congruence|]. split; [congruence|].
    exists (k1 ++ k2). split; [by rewrite B3, A3, app_assoc|]. intros id. by rewrite received_app, A4, B4.
Qed.

Abbreviation quiet := (within calls_quietly).

Lemma quiet_controls f : (∀ c, inbound (f c) = inbound c ∧ told (f c) = told c) → quiet (on_controls f).
Proof.
  intros Hf. apply within_modify. intros s. split; [apply Hf|]. split; [apply Hf|]. exists []. by rewrite app_nil_r.
Qed.

Lemma quiet_shared f : quiet (on_shared f).
Proof. intros s. split; [done|]. split; [done|]. exists []. by rewrite app_nil_r. Qed.

Lemma quiet_open : quiet (call poll_open_uni).
Proof.
  intros s. unfold call. pose proof (history_open (net s)) as Hh.
  destruct (poll_open_uni (net s)) as [[[id|e]|] t]; cbn in Hh |- *;
    (split; [done|]; split; [done|]); eexists; (split; [exact Hh|done]).
Qed.

Lemma quiet_send id data : quiet (call (poll_send id data)).
Proof.
  intros s. unfold call. pose proof (history_send id data (net s)) as Hh.
  destruct (poll_send id data (net s)) as [[[[]|e]|] t]; cbn in Hh |- *;
    (split; [done|]; split; [done|]); eexists; (split; [exact Hh|done]).
Qed.

#[local] Hint Resolve quiet_open quiet_send quiet_shared : quiet.
#[local] Hint Extern 1 (quiet (on_controls _)) => apply quiet_controls; done : quiet.

Lemma quiet_queue id pop q : quiet (flush_queue id pop q).
Proof. induction q as [|x q IH]; cbn [flush_queue]; stays; auto with quiet. Qed.

Lemma quiet_init : quiet poll_init.
Proof. unfold poll_init. stays; auto with quiet. Qed.

Lemma quiet_flush : quiet poll_flush.
Proof. unfold poll_flush. stays; auto using quiet_queue with quiet. Qed.

Lemma quiet_hand : quiet queue_encoder_streams_from_shared.
Proof. unfold queue_encoder_streams_from_shared. stays; auto with quiet. Qed.

(** One call of the driver, with the events it is told.  Between the calls the
    request streams use the codecs and the transport as they like, except that
    they do not read the streams of the control plane. *)
Inductive step : Conn T → list ControlEvent → Conn T → Prop :=
| SInit s : step s [] (poll_init s).2
| SFlush s : step s [] (poll_flush s).2
| SHand s : step s [] (queue_encoder_streams_from_shared s).2
| SGoaway s id : step s [] (MkConn (send_goaway id (controls s)) (shared s) (net s))
| SFrame s f : step s [] (MkConn (queue_frame f (controls s)) (shared s) (net s))
| SRequest s sh t k : history t = history (net s) ++ k → (∀ id, id ∈ roles (inbound (controls s)) → received id k = []) →
    step s [] (MkConn (controls s) sh t)
| SRead s fuel ev s' : poll_read fuel s = (Done ev, s') → step s [ev] s'
| SIdle s fuel s' : poll_read fuel s = (Wait, s') → step s [] s'.

Inductive steps_to : Conn T → list ControlEvent → Conn T → Prop :=
| RNil s : steps_to s [] s
| RSnoc s evs s1 ev s2 : steps_to s evs s1 → step s1 ev s2 → steps_to s (evs ++ ev) s2.

Lemma inv_silent evs s c sh t k : inv evs s → inbound c = inbound (controls s) → told c = told (controls s) →
  history t = history (net s) ++ k → (∀ id, id ∈ roles (inbound (controls s)) → received id k = []) →
  inv evs (MkConn c sh t).
Proof.
  intros [[H1 H2 H3 H4 H5] Hc] Ei Et Hh Hk. destruct (has_role (inbound (controls s))) as (Hrc & Hre & Hrd). split; conn; rewrite Ei, ?Et, Hh.
  - split; try done.
    + intros id Hid. rewrite fmap_app. apply elem_of_app. left. by apply H2.
    + intros p E. destruct (H3 p E) as (<- & Hb & Hn). rewrite received_app, Hk, app_nil_r; [done|].
      unfold roles. rewrite E. left.
    + intros id E. destruct (H4 id E) as [o Ho]. exists o. apply stream_of_silent; [done|]. by apply Hk, Hre.
    + intros id E. destruct (H5 id E) as [o Ho]. exists o. apply stream_of_silent; [done|]. by apply Hk, Hrd.
  - destruct (in_control (inbound (controls s))) as [pc|] eqn:Ec; [|done].
    destruct Hc as (o & fs & Ho & Hr). exists o, fs. split; [|done]. apply stream_of_silent; [done|]. by apply Hk, Hrc.
Qed.

Lemma control_inv_quiet evs s s' : inv evs s → calls_quietly s s' → inv evs s'.
Proof.
  intros Hi (E1 & E2 & k & E3 & E4). destruct s' as [c sh t]. cbn in *. by apply (inv_silent evs s c sh t k).
Qed.

Lemma control_step_inv evs s ev s' : inv evs s → step s ev s' → inv (evs ++ ev) s'.
Proof.
  intros Hi Hstep. destruct Hstep as [s|s|s|s id|s f|s sh t k Hh Hk|s fuel ev s' E|s fuel s' E]; rewrite ?app_nil_r.
  - eapply control_inv_quiet; [done|apply quiet_init].
  - eapply control_inv_quiet; [done|apply quiet_flush].
  - eapply control_inv_quiet; [done|apply quiet_hand].
  - eapply control_inv_quiet; [done|]. split; [|split; [|exists []; by rewrite app_nil_r]]; conn; unfold send_goaway; by destruct (goaway_sent _).
  - eapply control_inv_quiet; [done|]. by apply (quiet_controls (queue_frame f)).
  - by eapply inv_silent.
  - pose proof (read_spec fuel fuel evs s Hi) as Hr. unfold wp in Hr. unfold poll_read in E. by rewrite E in Hr.
  - pose proof (read_spec fuel fuel evs s Hi) as Hr. unfold wp in Hr. unfold poll_read in E. by rewrite E in Hr.
Qed.

(** *** A call that has to wait has told everything *)

Definition same_told {A} (m : op (Conn T) ControlError A) : Prop := ∀ s,
  wp m (λ o s', match o with Done _ => told (controls s') = told (controls s) | Wait => False | _ => True end) s.

Definition same_control {A} (m : op (Conn T) ControlError A) : Prop := ∀ s,
  wp m (λ o s', match o with
    | Done _ => told (controls s') = told (controls s) ∧ in_control (inbound (controls s')) = in_control (inbound (controls s))
    | Wait => False
    | _ => True end) s.

Lemma wp_call {A} (f : T → poll (result TransportError A) * T) Q (s : Conn T) :
  (∀ r t, match r with
    | Ready (Ok a) => Q (Done (Ready a)) (MkConn (controls s) (shared s) t)
    | Ready (Err e) => Q (Fail (TransportFailed e)) (MkConn (controls s) (shared s) t)
    | Pending => Q (Done Pending) (MkConn (controls s) (shared s) t)
    end) → wp (call f) Q s.
Proof. intros HQ. unfold wp, call. destruct (f (net s)) as [r t]. specialize (HQ r t). by destruct r as [[a|e]|]. Qed.

Lemma accept_told : same_told accept_uni.
Proof.
  intros s. unfold accept_uni. steps. case_bool_decide; steps; [done|]. apply wp_call.
  intros r t. destruct r as [[[id|]|e]|]; cbn [andthen]; by steps.
Qed.

Lemma wire_told id ty leftover : same_told (wire_uni id ty leftover).
Proof.
  intros s. unfold wire_uni. steps.
  assert (∀ ty piece (m : op (Conn T) ControlError ()) f, aside ty piece m → same_told (_ ← m; on_controls (on_inbound f))) as Ha.
  { clear. intros ty piece m f Hm s. steps. apply (wp_aside ty piece); [done| |done]. intros s' _ E _. cbn [andthen]. by steps. }
  destruct (ty =? STREAM_TYPE_CONTROL); [case_bool_decide; by steps|]. destruct (ty =? STREAM_TYPE_PUSH); [by steps|].
  destruct (ty =? STREAM_TYPE_QPACK_ENCODER); [|destruct (ty =? STREAM_TYPE_QPACK_DECODER)]; [| |by steps];
    (case_bool_decide; [by steps|]; eapply Ha; case_bool_decide; [apply aside_ret|]); [apply aside_feed|apply aside_validate].
Qed.

Lemma classify_told fuel : ∀ s,
  wp (classify_uni fuel) (λ o s', match o with Done _ | Wait => told (controls s') = told (controls s) | _ => True end) s.
Proof.
  induction fuel as [|fuel IH]; intros s; cbn [classify_uni]; steps; [done|].
  destruct (pending_uni _) as [p|]; [|done]. steps. apply wp_ready, wp_call.
  intros r t. destruct r as [[[c|]|e]|]; cbn [andthen]; steps; try done.
  apply wp_lift. destruct (parse_varint _) as [[[ty used]|]|e]; cbn [andthen]; steps; [|
    |done].
  { eapply wp_mono; [apply wire_told|]. by intros [[]|e| |] s'. }
  eapply wp_mono; [apply IH|]. by intros [[]|e| |] s'.
Qed.

Lemma attempt_told fuel : same_told (classify fuel).
Proof.
  intros s. unfold classify. steps. case_bool_decide; steps; [|done]. pose proof (classify_told fuel s) as Hc. unfold wp, attempt in *.
  by destruct (classify_uni fuel s) as [[[]|e| |] s'].
Qed.

Lemma critical_control id ty f : (∀ c, aside ty c (f c)) → same_control (recv_critical id f).
Proof.
  intros Hf s. unfold recv_critical. steps. apply wp_call. intros r t.
  destruct r as [[[c|]|e]|]; cbn [andthen]; steps; try done.
  apply (wp_aside ty c); [apply Hf| |done]. intros s' E1 E2 _. cbn [andthen]. steps. by rewrite E1, E2.
Qed.

Lemma read_control_told : same_told read_control.
Proof.
  intros s. unfold read_control. steps. destruct (in_control _) as [pc|]; [|by steps]. unfold recv_critical. steps. apply wp_call.
  intros r t. destruct r as [[[c|]|e]|]; cbn [andthen]; by steps.
Qed.

Lemma rest_control : same_control read_encoder ∧ same_control read_decoder ∧ same_control discard.
Proof.
  split_and!; intros s.
  - unfold read_encoder. steps. destruct (in_encoder _); [by apply (critical_control _ _ _ aside_feed)|by steps].
  - unfold read_decoder. steps. destruct (in_decoder _); [by apply (critical_control _ _ _ aside_tell)|by steps].
  - unfold discard. steps. destruct (in_discard _); [|by steps]. steps. apply wp_call.
    intros r t. destruct r as [[[c|]|e]|]; cbn [andthen]; by steps.
Qed.

(** The control stream has no whole frame waiting. *)
Definition drained_control (s : Conn T) : Prop :=
  match in_control (inbound (controls s)) with
  | Some pc => frames None (flat (pc_decoder pc)) = ([], flat (pc_decoder pc), None)
  | None => True
  end.

Lemma drain_drains fuel : ∀ b evs s, inv evs s →
  wp (drain_control fuel b) (λ o s', match o with
    | Done p => drained_control s' ∧ (p = false → b = false ∧ told (controls s') = told (controls s))
    | Wait => False | _ => True end) s.
Proof.
  induction fuel as [|fuel IH]; intros b evs s Hi; cbn [drain_control]; steps;
    (destruct (in_control (inbound (controls s))) as [pc|] eqn:Ec;
      [|steps; split; [unfold drained_control; by rewrite Ec|done]]); [done|].
  destruct (drain_step evs s pc Hi Ec) as (d & [[f|]|e] & -> & Hr); steps; [|split; [apply Hr|done]|done].
  eapply wp_mono; [apply Hr|]. intros [[]|e| |] s'; cbn [andthen]; try done. intros (Hi' & _).
  eapply wp_mono; [by apply (IH true evs)|]. intros [p|e| |] s2; try done. intros [Hdr Hp]. split; [done|]. by intros [[=] _]%Hp.
Qed.

(** What a turn comes to. *)
Definition settles (s : Conn T) (o : outcome ControlError bool) (s' : Conn T) : Prop :=
  match o with
  | Done p => drained_control s' ∧ (p = false → told (controls s') = told (controls s))
  | Wait => False
  | _ => True
  end.

Lemma settles_told m f evs s : keeps m → same_told m → inv evs s →
  (∀ (p : bool) s', inv evs s' → wp (f p) (settles s') s') → wp (m ≫= f) (settles s) s.
Proof.
  intros Hk Ht Hi Hf. apply wp_bind. specialize (Hk evs s Hi). specialize (Ht s). unfold wp in *.
  destruct (m s) as [[p|e| |] s1]; try done. cbn in Hk, Ht |- *. specialize (Hf p s1 Hk). unfold wp in Hf |- *.
  unfold settles in *. by rewrite Ht in Hf.
Qed.

Lemma settles_control (m : op (Conn T) ControlError bool) f s0 s : same_control m →
  drained_control s → (∀ p s', drained_control s' → told (controls s') = told (controls s) → wp (f p) (settles s0) s') →
  wp (m ≫= f) (settles s0) s.
Proof.
  intros Hm Hd Hf. apply wp_bind. specialize (Hm s). unfold wp in *. destruct (m s) as [[p|e| |] s1]; try done.
  cbn in Hm |- *. destruct Hm as [E1 E2]. apply Hf; [|done]. unfold drained_control in *. by rewrite E2.
Qed.

Lemma turn_settles n evs s : inv evs s → wp (read_turn n) (settles s) s.
Proof.
  intros Hi. unfold read_turn. destruct rest_control as (He & Hd & Hx).
  eapply settles_told; [apply keeps_accept|apply accept_told|done|clear s Hi; intros p1 s Hi].
  eapply settles_told; [apply keeps_classify|apply attempt_told|done|clear s Hi; intros p2 s Hi].
  eapply settles_told; [apply keeps_read_control|apply read_control_told|done|clear s Hi; intros p3 s Hi].
  apply wp_bind. eapply (wp_mono _ (λ o s', match o with
    | Done p => drained_control s' ∧ (p = false → told (controls s') = told (controls s)) | Wait => False | _ => True end)).
  { unfold handle_frames. steps. destruct (in_control _) as [pc|] eqn:Ec.
    - eapply wp_mono; [by eapply drain_drains|]. intros [p|e| |] s'; try done. intros [A B]. split; [done|]. by intros [_ ?]%B.
    - steps. split; [|done]. unfold drained_control. by rewrite Ec. }
  intros [p4|e| |] s4; cbn [andthen]; try done. intros [Hdr Ht4].
  apply settles_control; [done|done|intros p5 s5 D5 T5]. apply settles_control; [done|done|intros p6 s6 D6 T6].
  apply settles_control; [done|done|intros p7 s7 D7 T7]. steps. split; [done|].
  intros Hp. rewrite T7, T6, T5. apply Ht4. by destruct p1, p2, p3, p4.
Qed.

(** A call that has to wait: no event is queued, no frame is left unread. *)
Lemma read_settles fuel chunks : ∀ evs s, inv evs s →
  wp (read_loop fuel chunks) (λ o s', if o is Wait then events (told (controls s')) = [] ∧ drained_control s' else True) s.
Proof.
  induction fuel as [|fuel IH]; intros evs s Hi; [done|]. cbn [read_loop]. steps. unfold pop_event. steps.
  destruct (events (told (controls s))) as [|ev rest] eqn:Ev; steps; [|done].
  pose proof (keeps_turn chunks evs s Hi) as Hk. pose proof (turn_settles chunks evs s Hi) as Ht. unfold wp in Hk, Ht |- *.
  destruct (read_turn chunks s) as [[[]|e| |] s']; cbn in Hk, Ht |- *; try done; [by apply (IH evs)|].
  destruct Ht as [Hd Ht]. by rewrite (Ht eq_refl).
Qed.

(** *** The run *)

Lemma start_inv l sh t : history t = [] → inv [] (MkConn (new_control l) sh t).
Proof.
  intros Hh. split; conn; [|done]. rewrite Hh. split; cbn; try done. constructor.
Qed.

Lemma control_run_inv s evs s' : steps_to s evs s' → inv [] s → inv evs s'.
Proof. induction 1 as [|s evs s1 ev s2 _ IH Hstep]; [done|]. intros Hi. eapply control_step_inv; [by apply IH|done]. Qed.
End driver.

(** ** More fuel *)

Section fuel.
Context {T : Type} `{Recorded T}.

Lemma classify_steady n : ∀ k, (n ≤ k)%nat → steady (classify_uni n) (classify_uni k).
Proof.
  induction n as [|n IH]; intros k Hk; cbn [classify_uni].
  - intros s []. unfold mbind, op_bind, self. done.
  - destruct k as [|k]; [lia|]. cbn [classify_uni]. steadies. apply IH. lia.
Qed.

Lemma turn_steady n k : (n ≤ k)%nat → steady (read_turn n) (read_turn k).
Proof.
  intros Hk. unfold read_turn, classify. steadies. intros s. pose proof (classify_steady n k Hk s) as Hc. unfold attempt.
  destruct (classify_uni n s) as [[u|e| |] s1]; cbn in *; intros Hs; try done; by rewrite Hc.
Qed.

Lemma read_steady n k : (n ≤ k)%nat → steady (poll_read n) (poll_read k).
Proof.
  intros Hk. unfold poll_read. assert (∀ f g, (f ≤ g)%nat → steady (read_loop f n) (read_loop g k)) as Hl; [|by apply Hl].
  induction f as [|f IH]; intros g Hg; [by intros s []|]. destruct g as [|g]; [lia|]. cbn [read_loop]. steadies.
  - by apply turn_steady.
  - apply IH. lia.
Qed.
End fuel.

(** ** Every event told leaves less to tell *)

Section sinking.
Context {T : Type} `{Recorded T} `{!Finite T}.

(** What is buffered and may become events. *)
Definition buffered_octets (s : Conn T) : nat :=
  match in_control (inbound (controls s)) with Some pc => length (flat (pc_decoder pc)) | None => 0 end.
Definition in_store (s : Conn T) : nat := (length (queued s) + buffered_octets s)%nat.

(** Less is to come from the transport, or no more is in store. *)
Definition sinks (s s' : Conn T) : Prop :=
  (left_over s' < left_over s)%nat ∨ (left_over s' = left_over s ∧ (in_store s' ≤ in_store s)%nat).

Lemma sinks_refl s : sinks s s.
Proof. right. split; [done|lia]. Qed.

Lemma sinks_trans s1 s2 s3 : sinks s1 s2 → sinks s2 s3 → sinks s1 s3.
Proof. unfold sinks. lia. Qed.

Lemma sinks_less s s' : (left_over s' ≤ left_over s)%nat → queued s' = queued s → buffered_octets s' = buffered_octets s → sinks s s'.
Proof. unfold sinks, in_store. intros Hl -> ->. lia. Qed.

Definition sinking (n : nat) {A} (m : op (Conn T) ControlError A) : Prop := ∀ evs s, inv evs s → (left_over s < n)%nat →
  wp m (λ o s', if o is Done _ then sinks s s' else True) s.

Lemma sinking_bind n {A B} (m : op (Conn T) ControlError A) (f : A → op (Conn T) ControlError B) :
  keeps m → sinking n m → (∀ a, sinking n (f a)) → sinking n (m ≫= f).
Proof.
  intros Hk Hm Hf evs s Hi Hn. apply wp_bind. pose proof (Hk evs s Hi) as H1. pose proof (Hm evs s Hi Hn) as H2.
  unfold wp in *. destruct (m s) as [[a|e| |] s1]; cbn in *; try done.
  assert (left_over s1 < n)%nat as Hn1 by (unfold sinks in H2; lia). specialize (Hf a evs s1 H1 Hn1). unfold wp in Hf |- *.
  destruct (f a s1) as [[c|e| |] s2]; cbn in *; try done. by eapply sinks_trans.
Qed.

Lemma sinking_ret n {A} (a : A) : sinking n (mret a).
Proof. intros evs s _ _. apply sinks_refl. Qed.

Lemma accept_sinks n : sinking n accept_uni.
Proof.
  intros evs s _ _. unfold accept_uni. steps. case_bool_decide; steps; [apply sinks_refl|].
  unfold wp, call. pose proof (backlog_accept (net s)) as Hb.
  destruct (poll_accept_uni (net s)) as [[[[id|]|e]|] t]; cbn in Hb |- *; try done; steps;
    (apply sinks_less; [unfold left_over; cbn; lia|done..]).
Qed.

Lemma classify_waits fuel : ∀ s,
  wp (classify_uni fuel) (λ o s', if o is Wait then in_control (inbound (controls s')) = in_control (inbound (controls s)) else True) s.
Proof.
  induction fuel as [|fuel IH]; intros s; cbn [classify_uni]; steps; [done|].
  destruct (pending_uni _) as [p|]; [|done]. steps. apply wp_ready, wp_call.
  intros r t. destruct r as [[[c|]|e]|]; cbn [andthen]; steps; try done.
  apply wp_lift. destruct (parse_varint _) as [[[ty used]|]|e]; cbn [andthen]; steps; [| |done].
  { eapply wp_mono; [apply wire_told|]. by intros [[]|e| |] s'. }
  eapply wp_mono; [apply IH|]. by intros [[]|e| |] s'.
Qed.

Lemma classify_sinks n : sinking n (classify n).
Proof.
  intros evs s _ Hn. unfold classify. steps. case_bool_decide as Hp; [|steps; apply sinks_refl].
  destruct Hp as [p Ep]. pose proof (classify_ends n s p Ep Hn) as Hc. pose proof (classify_waits n s) as Hw. unfold wp, attempt in *.
  destruct (classify_uni n s) as [[[]|e| |] s']; cbn in *; try done; destruct Hc as [Hl Hq]; [by left|].
  apply sinks_less; [lia|exact Hq|]. unfold buffered_octets. by rewrite Hw.
Qed.

Lemma critical_sinks n id ty f : (∀ c, aside ty c (f c)) → sinking n (recv_critical id f).
Proof.
  intros Hf evs s _ _. unfold recv_critical. steps. apply wp_recv_backlog. intros r t Hb.
  destruct r as [[[c|]|e]|]; cbn [andthen delivers_one] in *; steps; try done.
  - eapply aside_advances; [apply Hf| |done]. intros s' E1 E2. cbn [andthen]. steps.
    left. unfold left_over in *. rewrite E2. conn. lia.
  - apply sinks_less; [unfold left_over in *; conn; lia|done..].
Qed.

Lemma read_control_sinks n : sinking n read_control.
Proof.
  intros evs s _ _. unfold read_control. steps. destruct (in_control _) as [pc|] eqn:Ec; [|steps; apply sinks_refl].
  unfold recv_critical. steps. apply wp_recv_backlog. intros r t Hb.
  destruct r as [[[c|]|e]|]; cbn [andthen delivers_one] in *; steps; try done.
  - left. unfold left_over in *. conn. lia.
  - apply sinks_less; [unfold left_over in *; conn; lia|done..].
Qed.

Lemma discard_sinks n : sinking n discard.
Proof.
  intros evs s _ _. unfold discard. steps. destruct (in_discard _) as [id|]; steps; [|apply sinks_refl].
  apply wp_recv_backlog. intros r t Hb.
  destruct r as [[[c|]|e]|]; cbn [andthen delivers_one] in *; steps; try done.
  - left. unfold left_over in *. conn. lia.
  - left. unfold left_over in *. conn. lia.
  - apply sinks_less; [unfold left_over in *; conn; lia|done..].
Qed.

(** A frame tells one event at most. *)
Lemma frame_tells f (s : Conn T) :
  wp (handle_control_frame f) (λ o s', if o is Done _ then (length (queued s') ≤ S (length (queued s)))%nat else True) s.
Proof.
  unfold handle_control_frame. steps. destruct (negb _ && _); [done|].
  destruct f; try done; unfold queued; [destruct (settings_received _); [done|]| |destruct (max_push_id _); [destruct (_ <? _); [done|]|]];
    steps; conn; cbn [events set_events]; rewrite length_app; cbn; lia.
Qed.

Lemma drain_sinks fuel : ∀ b evs s, inv evs s →
  wp (drain_control fuel b) (λ o s', if o is Done _ then sinks s s' else True) s.
Proof.
  induction fuel as [|fuel IH]; intros b evs s Hi; cbn [drain_control]; steps;
    (destruct (in_control (inbound (controls s))) as [pc|] eqn:Ec; [|steps; apply sinks_refl]); [done|].
  destruct (drain_step evs s pc Hi Ec) as (d & [[f|]|e] & En & Hr); rewrite En; steps; [| |done].
  - destruct Hr as [Hlt Hr]. set (s1 := MkConn _ _ _) in *. pose proof (frame_tells f s1) as Hq.
    unfold wp in Hr, Hq |- *. destruct (handle_control_frame f s1) as [[u|e| |] s2]; cbn [fst snd andthen] in *; try done.
    destruct Hr as (Hi2 & Ec2 & _ & En2). eapply wp_mono; [by apply (IH true evs)|]. intros [p|e| |] s3; try done.
    apply sinks_trans. right. unfold left_over, in_store, buffered_octets. rewrite En2, Ec2, Ec. cbn [pc_decoder]. split; [done|].
    change (queued s1) with (queued s) in Hq. lia.
  - right. split; [done|]. unfold in_store, buffered_octets, queued. rewrite Ec. conn. cbn.
    destruct Hi as [_ Hc]. rewrite Ec in Hc. destruct Hc as (o & fs & _ & Hd & _).
    pose proof (next_frame_keeps _ _ _ None Hd En eq_refl). lia.
Qed.


Lemma turn_sinks n : sinking n (read_turn n).
Proof.
  unfold read_turn. apply sinking_bind; [apply keeps_accept|apply accept_sinks|intros p1].
  apply sinking_bind; [apply keeps_classify|apply classify_sinks|intros p2].
  apply sinking_bind; [apply keeps_read_control|apply read_control_sinks|intros p3].
  apply sinking_bind; [apply keeps_frames| |intros p4].
  { intros evs s Hi _. unfold handle_frames. steps. destruct (in_control _); [by apply (drain_sinks _ _ evs)|steps; apply sinks_refl]. }
  apply sinking_bind; [apply keeps_read_encoder| |intros p5].
  { intros evs s Hi Hn. unfold read_encoder. steps. destruct (in_encoder _); [|steps; apply sinks_refl].
    by apply (critical_sinks n _ _ _ aside_feed evs). }
  apply sinking_bind; [apply keeps_read_decoder| |intros p6].
  { intros evs s Hi Hn. unfold read_decoder. steps. destruct (in_decoder _); [|steps; apply sinks_refl].
    by apply (critical_sinks n _ _ _ aside_tell evs). }
  apply sinking_bind; [apply keeps_discard|apply discard_sinks|intros p7]. apply sinking_ret.
Qed.

(** The measure of a sequence of calls. *)
Definition to_tell (s : Conn T) : nat * nat := (left_over s, in_store s).
Definition fewer : relation (nat * nat) := λ m m', (m.1 < m'.1)%nat ∨ (m.1 = m'.1 ∧ (m.2 < m'.2)%nat).

Lemma fewer_wf : well_founded fewer.
Proof.
  intros [a b]. revert b. induction (lt_wf a) as [a _ IHa]. intros b. induction (lt_wf b) as [b _ IHb].
  constructor. intros [a' b'] [Hlt|[E Hlt]]; cbn in *; [by apply IHa|]. subst. by apply IHb.
Qed.

(** A call that tells an event leaves less to tell. *)
Lemma read_fewer fuel n : ∀ evs s, inv evs s → (left_over s < n)%nat →
  wp (read_loop fuel n) (λ o s', if o is Done _ then fewer (to_tell s') (to_tell s) else True) s.
Proof.
  induction fuel as [|fuel IH]; intros evs s Hi Hn; [done|]. cbn [read_loop]. steps. unfold pop_event. steps.
  destruct (events (told (controls s))) as [|ev rest] eqn:Ev; steps.
  - pose proof (turn_sinks n evs s Hi Hn) as Ht. pose proof (keeps_turn n evs s Hi) as Hk. unfold wp in Ht, Hk |- *.
    destruct (read_turn n s) as [[[]|e| |] s']; cbn [andthen fst snd] in *; try done.
    eapply wp_mono; [apply (IH evs); [done|unfold sinks in Ht; lia]|].
    intros [ev|e| |] s2; try done. unfold fewer, sinks, to_tell in *. cbn. lia.
  - right. unfold to_tell, in_store, queued. rewrite Ev. cbn. split; [done|].
    unfold buffered_octets. conn. lia.
Qed.
End sinking.

(** ** Properties *)

(** C12. The control stream is told faithfully: let the driver make any calls,
    the transport answer them in any way and deliver the peer's octets in any
    pieces; when a call of [poll_read] has to wait, the events told so far are
    exactly those of the frames received on the control stream, which begin
    with one SETTINGS frame and go on with GOAWAY and MAX_PUSH_ID frames whose
    push IDs never decrease; the settings and the push ID kept are theirs. *)
Theorem control_stream_told {T} `{Recorded T} l sh (t : T) evs s fuel s' :
  history t = [] → steps_to (MkConn (new_control l) sh t) evs s → poll_read fuel s = (Wait, s') →
  match in_control (inbound (controls s')) with
  | None => evs = []
  | Some pc => ∃ octets fs rest,
      stream_of (history (net s')) (pc_stream pc) STREAM_TYPE_CONTROL octets
      ∧ frames None octets = (fs, rest, None) ∧ frames_ok fs ∧ evs = announced fs
      ∧ max_push_id (told (controls s')) = last (pushes fs)
      ∧ peer (told (controls s')) = match fs with SettingsFrame st :: _ => apply default_peer st | _ => default_peer end
  end.
Proof.
  intros Hh Hrun E. pose proof (control_run_inv _ _ _ Hrun (start_inv l sh t Hh)) as Hi.
  pose proof (read_spec fuel fuel evs s Hi) as H1. pose proof (read_settles fuel fuel evs s Hi) as H2.
  unfold wp, poll_read in *. rewrite E in H1, H2. cbn in H1, H2. destruct H1 as [_ Hc], H2 as [Hq Hd].
  unfold drained_control in Hd. destruct (in_control (inbound (controls s'))) as [pc|]; [|by destruct Hc].
  destruct Hc as (octets & fs & Ho & _ & _ & Ht & [V1 V2 V3 V4 V5]). unfold took in Ht. rewrite Hd in Ht.
  destruct (frames None octets) as [[hs r] e] eqn:Ef. destruct Ht as (-> & -> & _). rewrite app_nil_r in Ef.
  rewrite Hq, app_nil_r in V2. exists octets, fs, r. by rewrite Ef.
Qed.


(** [poll_read] returns: in any run, over a transport that has finitely
    many streams and chunks to deliver, a call needs at most two turns more than
    those, and it neither panics nor loops. *)
Theorem poll_read_returns {T} `{Recorded T} `{!Finite T} l sh (t : T) evs s fuel :
  history t = [] → steps_to (MkConn (new_control l) sh t) evs s → (backlog (net s) + 1 < fuel)%nat →
  (poll_read fuel s).1 ≠ Stuck.
Proof.
  intros Hh Hrun Hf. pose proof (control_run_inv _ _ _ Hrun (start_inv l sh t Hh)) as Hi.
  pose proof (read_ends fuel fuel evs s Hi) as Hr. unfold left_over, wp in Hr. unfold poll_read.
  specialize (Hr ltac:(lia)). destruct (read_loop fuel fuel s) as [[ev|e| |] s']; try done.
  exfalso. apply Hr. case_bool_decide; lia.
Qed.

(** A peer: an unknown stream, then its control stream in three pieces. *)
Definition peer_script : Script :=
  MkScript [Some [Ready (Ok (Some [0x21; 9])); Pending; Ready (Ok None)];
            Some [Ready (Ok (Some [0; 4; 2])); Ready (Ok (Some [6; 9; 13; 1])); Ready (Ok (Some [5; 7; 1; 4]))]]
    [] [] [].
Definition peer_start : Conn Script := MkConn (new_control default_local) (new_shared default_local) peer_script.

Fixpoint read_all (n : nat) (s : Conn Script) : list ControlEvent * outcome ControlError () * Conn Script :=
  match n with
  | O => ([], Stuck, s)
  | S n => match poll_read 20 s with
           | (Done ev, s) => let '(evs, o, s) := read_all n s in (ev :: evs, o, s)
           | (Wait, s) => ([], Wait, s)
           | (Fail e, s) => ([], Fail e, s)
           | (Stuck, s) => ([], Stuck, s)
           end
  end.

Example peer_told :
  (read_all 5 peer_start).1 = ([EvSettings (MkPeerSettings 0 (Some 9) 0 false); EvMaxPushId 5; EvGoaway 4], Wait).
Proof. vm_compute. reflexivity. Qed.

Lemma read_all_runs n : ∀ s0 evs0 s, steps_to s0 evs0 s →
  steps_to s0 (evs0 ++ (read_all n s).1.1) (read_all n s).2 ∨ (read_all n s).1.2 ≠ Wait.
Proof.
  induction n as [|n IH]; intros s0 evs0 s Hs; cbn [read_all]; [by right|].
  destruct (poll_read 20 s) as [[ev|e| |] s1] eqn:E; cbn; [|by right| |by right].
  - specialize (IH s0 (evs0 ++ [ev]) s1 (RSnoc _ _ _ _ _ Hs (SRead _ _ _ _ E))).
    destruct (read_all n s1) as [[evs o] s2]. cbn in *. by rewrite <- app_assoc in IH.
  - left. eapply RSnoc; [done|by eapply SIdle].
Qed.

Lemma control_stream_told_witness :
  let s := (read_all 5 peer_start).2 in
  ∃ s' pc octets fs rest, poll_read 20 s = (Wait, s') ∧ in_control (inbound (controls s')) = Some pc
    ∧ stream_of (history (net s')) (pc_stream pc) STREAM_TYPE_CONTROL octets
    ∧ frames None octets = (fs, rest, None) ∧ frames_ok fs
    ∧ [EvSettings (MkPeerSettings 0 (Some 9) 0 false); EvMaxPushId 5; EvGoaway 4] = announced fs.
Proof.
  intros s. exists (poll_read 20 s).2.
  assert (steps_to peer_start (read_all 5 peer_start).1.1 s) as Hs.
  { pose proof (read_all_runs 5 peer_start [] peer_start (RNil _)) as H. rewrite app_nil_l in H.
    destruct H as [H|H]; [exact H|]. exfalso. apply H. vm_compute. reflexivity. }
  pose proof (control_stream_told default_local (new_shared default_local) peer_script _ s 20 (poll_read 20 s).2 eq_refl Hs) as H.
  assert (poll_read 20 s = (Wait, (poll_read 20 s).2)) as E.
  { apply ends_with. vm_compute. reflexivity. }
  specialize (H E). destruct (in_control _) as [pc|] eqn:Ec; [|exfalso; revert Ec; vm_compute; discriminate].
  destruct H as (octets & fs & rest & Ho & Hf & Hok & Hev & _). exists pc, octets, fs, rest.
  do 5 (split; [done|]). rewrite <- Hev. vm_compute. reflexivity.
Defined.



(** A control stream that ends before SETTINGS, and a stream that ends before its
    type. *)
Definition ends_early (octets : bytes) : Conn Script :=
  MkConn (new_control default_local) (new_shared default_local)
    (MkScript [Some [Ready (Ok (Some octets)); Ready (Ok None)]] [] [] []).

Lemma early_ends :
  (poll_read 20 (ends_early [0])).1 = Fail ClosedCriticalStream ∧ (poll_read 20 (ends_early [])).1 = Fail StreamCreation.
Proof. split; vm_compute; reflexivity. Qed.

Lemma poll_read_returns_witness : (poll_read 20 peer_start).1 ≠ Stuck.
Proof.
  assert (history peer_script = []) as Hh by done. assert (backlog (net peer_start) + 1 < 20)%nat as Hb by (vm_compute; lia).
  exact (poll_read_returns default_local (new_shared default_local) peer_script [] peer_start 20 Hh (RNil _) Hb).
Defined.
