(* ===== verification/H3Resets.v ===== *)
(** * The reset budgets of an HTTP/3 connection (src/src/h3/mod.rs)

    [ConnResetState]: how many streams the peer may make this endpoint reset, a
    count, and how many it may abandon before they are accepted, a bucket that
    drains with time.  The bucket is an [f64]: the arithmetic is that of
    SpecFloat, IEEE 754 with 53 bits. *)

From Stdlib Require Import SpecFloat.
From S2P Require Import Prelude H3Error.

(** ** [f64] *)

Abbreviation f64 := spec_float (only parsing).
Definition f64_of (z : Z) : f64 := binary_normalize 53 1024 z 0 false.
Definition f64_add : f64 → f64 → f64 := SFadd 53 1024.
Definition f64_sub : f64 → f64 → f64 := SFsub 53 1024.
Definition f64_mul : f64 → f64 → f64 := SFmul 53 1024.
Definition f64_div : f64 → f64 → f64 := SFdiv 53 1024.

(** [x.max(y)] of numbers. *)
Definition f64_max (x y : f64) : f64 := if SFltb x y then y else x.

(** [Duration::as_secs_f64] of a duration in nanoseconds. *)
Definition as_secs_f64 (nanos : Z) : f64 :=
  f64_add (f64_of (nanos / 10 ^ 9)) (f64_div (f64_of (nanos mod 10 ^ 9)) (f64_of (10 ^ 9))).

(** ** The budgets *)

Definition PENDING_ACCEPT_RESETS_PER_SECOND : f64 := f64_of 50.

Record ResetLimits : Type := MkResetLimits {
  max_local_error_resets : option Z;
  max_pending_accept_resets : option Z;
}.

(** An instant is a number of nanoseconds. *)
Record ConnResetState : Type := MkResetState {
  limits : ResetLimits;
  local_error_resets : Z;
  pending_accept_resets : f64;
  pending_accept_since : Z;
  close_code : option Z;
}.

(** As [handle] creates it. *)
Definition new_reset_state (l : ResetLimits) (now : Z) : ConnResetState := MkResetState l 0 (f64_of 0) now None.

Definition note_local_error_reset (s : ConnResetState) : option Z * ConnResetState :=
  let count := MkResetState (limits s) (local_error_resets s + 1) (pending_accept_resets s)
                 (pending_accept_since s) (close_code s) in
  match max_local_error_resets (limits s) with
  | Some max => if max <=? local_error_resets s then (Some (code ExcessiveLoad), s) else (None, count)
  | None => (None, count)
  end.

Definition note_pending_accept_reset (now : Z) (s : ConnResetState) : option Z * ConnResetState :=
  match max_pending_accept_resets (limits s) with
  | None => (None, s)
  | Some max =>
      let elapsed := Z.max 0 (now - pending_accept_since s) in
      let drained := f64_mul (as_secs_f64 elapsed) PENDING_ACCEPT_RESETS_PER_SECOND in
      let pending := f64_add (f64_max (f64_sub (pending_accept_resets s) drained) (f64_of 0)) (f64_of 1) in
      (if SFltb (f64_of max) pending then Some (code ExcessiveLoad) else None,
       MkResetState (limits s) (local_error_resets s) pending now (close_code s))
  end.

(** [state.close_code = Some(code)], when there is one to set. *)
Definition set_close_code (o : option Z) (s : ConnResetState) : ConnResetState :=
  match o with
  | Some _ => MkResetState (limits s) (local_error_resets s) (pending_accept_resets s) (pending_accept_since s) o
  | None => s
  end.

(** [close_code.take()]. *)
Definition take_close_code (s : ConnResetState) : option Z * ConnResetState :=
  (close_code s, MkResetState (limits s) (local_error_resets s) (pending_accept_resets s) (pending_accept_since s) None).

(** ** What the budgets allow *)

(** The verdicts on resets at the given instants. *)
Fixpoint pending_resets (times : list Z) (s : ConnResetState) : list (option Z) * ConnResetState :=
  match times with
  | [] => ([], s)
  | now :: times =>
      let '(o, s) := note_pending_accept_reset now s in
      let '(l, s) := pending_resets times s in (o :: l, s)
  end.

Fixpoint local_resets (n : nat) (s : ConnResetState) : list (option Z) * ConnResetState :=
  match n with
  | O => ([], s)
  | S n =>
      let '(o, s) := note_local_error_reset s in
      let '(l, s) := local_resets n s in (o :: l, s)
  end.

(** Exactly the budget of local resets goes unpunished. *)
Lemma local_resets_spec l now max n :
  max_local_error_resets l = Some (Z.of_nat max) →
  (local_resets n (new_reset_state l now)).1
  = replicate (n `min` max) None ++ replicate (n - max) (Some (code ExcessiveLoad)).
Proof.
  intros Hl. assert (∀ n k s, limits s = l → local_error_resets s = Z.of_nat k → (k ≤ max)%nat →
    (local_resets n s).1 = replicate (n `min` (max - k)) None ++ replicate (n - (max - k)) (Some (code ExcessiveLoad))) as H.
  { clear n. induction n as [|n IH]; intros k s Hs Hk Hle; [by rewrite Nat.min_0_l|]. cbn [local_resets].
    unfold note_local_error_reset. rewrite Hs, Hl, Hk. destruct (Z.leb_spec (Z.of_nat max) (Z.of_nat k)) as [H1|H1].
    - assert (k = max) as -> by lia. specialize (IH max s Hs Hk ltac:(lia)). destruct (local_resets n s) as [r s'].
      cbn [fst] in *. rewrite IH, Nat.sub_diag, !Nat.min_0_r, !Nat.sub_0_r. done.
    - set (s1 := MkResetState _ _ _ _ _). specialize (IH (S k) s1 eq_refl ltac:(cbn; lia) ltac:(lia)).
      destruct (local_resets n s1) as [r s']. cbn [fst] in *. rewrite IH.
      replace (max - k)%nat with (S (max - S k)) by lia. done. }
  rewrite (H n 0%nat); [|done|done|lia]. by rewrite Nat.sub_0_r.
Qed.

(** *** The bucket *)

(** Budgets small enough to compute with; the default is 20. *)
Definition MAX_BUDGET : nat := 128.

#[local] Instance spec_float_eq_dec : EqDecision spec_float.
Proof. solve_decision. Defined.

(** What a reset adds to the bucket after [elapsed] nanoseconds. *)
Definition refilled (elapsed : Z) (x : f64) : f64 :=
  f64_add (f64_max (f64_sub x (f64_mul (as_secs_f64 elapsed) PENDING_ACCEPT_RESETS_PER_SECOND)) (f64_of 0)) (f64_of 1).

Lemma counts_up (k : nat) : (k ≤ MAX_BUDGET)%nat → refilled 0 (f64_of (Z.of_nat k)) = f64_of (Z.of_nat k + 1).
Proof.
  intros Hk. assert (Forall (λ k, refilled 0 (f64_of (Z.of_nat k)) = f64_of (Z.of_nat k + 1)) (seq 0 (S MAX_BUDGET))) as H.
  { apply (bool_decide_unpack _). vm_compute. exact I. }
  rewrite Forall_forall in H. apply H, elem_of_seq. lia.
Qed.

Lemma compares (k max : nat) : (k ≤ S MAX_BUDGET)%nat → (max ≤ MAX_BUDGET)%nat →
  SFltb (f64_of (Z.of_nat max)) (f64_of (Z.of_nat k)) = (max <? k)%nat.
Proof.
  intros Hk Hm. assert (Forall (λ k, Forall (λ max, SFltb (f64_of (Z.of_nat max)) (f64_of (Z.of_nat k)) = (max <? k)%nat)
    (seq 0 (S MAX_BUDGET))) (seq 0 (S (S MAX_BUDGET)))) as H.
  { apply (bool_decide_unpack _). vm_compute. exact I. }
  rewrite Forall_forall in H. specialize (H k ltac:(apply elem_of_seq; lia)). rewrite Forall_forall in H.
  apply H, elem_of_seq. lia.
Qed.

(** 20 ms drain what one reset adds. *)
Lemma drains_one x : x = f64_of 0 ∨ x = f64_of 1 → refilled (20 * 10 ^ 6) x = f64_of 1.
Proof. intros [->| ->]; by vm_compute. Qed.

Lemma note_pending now s max : max_pending_accept_resets (limits s) = Some max →
  note_pending_accept_reset now s
  = (if SFltb (f64_of max) (refilled (Z.max 0 (now - pending_accept_since s)) (pending_accept_resets s))
     then Some (code ExcessiveLoad) else None,
     MkResetState (limits s) (local_error_resets s) (refilled (Z.max 0 (now - pending_accept_since s)) (pending_accept_resets s))
       now (close_code s)).
Proof. intros H. unfold note_pending_accept_reset. by rewrite H. Qed.

(** The time since the last reset has emptied the bucket at [now]: what drains in
    it, as the code computes it, leaves nothing. *)
Definition drained (s : ConnResetState) (now : Z) : Prop :=
  SFleb (f64_sub (pending_accept_resets s)
    (f64_mul (as_secs_f64 (Z.max 0 (now - pending_accept_since s))) PENDING_ACCEPT_RESETS_PER_SECOND)) (f64_of 0) = true.

(** However much more has drained, a reset leaves one in the bucket. *)
Lemma refilled_drained s now : drained s now →
  refilled (Z.max 0 (now - pending_accept_since s)) (pending_accept_resets s) = f64_of 1.
Proof.
  unfold drained, refilled. generalize (f64_sub (pending_accept_resets s) (f64_mul (as_secs_f64 (Z.max 0 (now - pending_accept_since s))) PENDING_ACCEPT_RESETS_PER_SECOND)).
  intros [[]|[]| |[]]; try done; by vm_compute.
Qed.

(** [k] resets at once make [k] in an empty bucket. *)
Definition holds (l : ResetLimits) (now : Z) (k : nat) (s : ConnResetState) : Prop :=
  limits s = l ∧ pending_accept_since s = now ∧ pending_accept_resets s = f64_of (Z.of_nat k).

Lemma first_reset l max now s : limits s = l → max_pending_accept_resets l = Some (Z.of_nat max) → (1 ≤ max ≤ MAX_BUDGET)%nat →
  drained s now → ∃ s', note_pending_accept_reset now s = (None, s') ∧ holds l now 1 s'.
Proof.
  intros Hl Hm Hmax Hd. rewrite (note_pending _ _ (Z.of_nat max)) by by rewrite Hl. rewrite (refilled_drained s now Hd).
  change (f64_of 1) with (f64_of (Z.of_nat 1)). rewrite (compares 1 max) by lia.
  replace (max <? 1)%nat with false by (symmetry; apply Nat.ltb_ge; lia). by eexists.
Qed.

Lemma next_reset l max now k s : max_pending_accept_resets l = Some (Z.of_nat max) → (max ≤ MAX_BUDGET)%nat → (k ≤ max)%nat →
  holds l now k s → ∃ s', note_pending_accept_reset now s = (if (k <? max)%nat then None else Some (code ExcessiveLoad), s') ∧ holds l now (S k) s'.
Proof.
  intros Hm Hmax Hk (Hl & Hn & Hp). rewrite (note_pending _ _ (Z.of_nat max)) by by rewrite Hl. rewrite Hn, Hp, Z.sub_diag.
  change (Z.max 0 0) with 0. rewrite counts_up by lia. replace (Z.of_nat k + 1) with (Z.of_nat (S k)) by lia.
  rewrite compares by lia. eexists. split; [apply (f_equal (λ o, (o, _)))|by split_and!].
  destruct (Nat.ltb_spec max (S k)), (Nat.ltb_spec k max); try done; lia.
Qed.

(** Resets at once, as far as the budget goes. *)
Lemma burst l max now n : max_pending_accept_resets l = Some (Z.of_nat max) → (max ≤ MAX_BUDGET)%nat → ∀ k s,
  holds l now k s → (n + k ≤ max)%nat → (pending_resets (replicate n now) s).1 = replicate n None
    ∧ holds l now (n + k) (pending_resets (replicate n now) s).2.
Proof.
  intros Hm Hmax. induction n as [|n IH]; intros k s Hs Hle; [done|]. cbn [replicate pending_resets].
  destruct (next_reset l max now k s) as (s1 & E & Hs1); try done; [lia|]. rewrite E.
  replace (k <? max)%nat with true by (symmetry; apply Nat.ltb_lt; lia). specialize (IH (S k) s1 Hs1 ltac:(lia)).
  destruct (pending_resets (replicate n now) s1) as [r s2]. cbn [fst snd] in *. destruct IH as [-> IH].
  split; [done|]. rewrite Nat.add_succ_comm. exact IH.
Qed.

Lemma pending_resets_app t1 t2 s : pending_resets (t1 ++ t2) s
  = let '(r1, s1) := pending_resets t1 s in let '(r2, s2) := pending_resets t2 s1 in (r1 ++ r2, s2).
Proof.
  revert s. induction t1 as [|t t1 IH]; intros s; [cbn; by destruct (pending_resets t2 s)|]. cbn [app pending_resets].
  destruct (note_pending_accept_reset t s) as [o s1]. rewrite IH. destruct (pending_resets t1 s1) as [r1 s2].
  by destruct (pending_resets t2 s2).
Qed.

(** 20 ms for each reset, and one more for the rounding, empty the bucket. *)
Lemma empties l now k s : (k ≤ MAX_BUDGET)%nat → holds l now k s → drained s (now + (Z.of_nat k * 20 + 1) * 10 ^ 6).
Proof.
  intros Hk (_ & Hn & Hp). unfold drained. rewrite Hn, Hp. replace (Z.max 0 _) with ((Z.of_nat k * 20 + 1) * 10 ^ 6) by lia.
  assert (Forall (λ k, SFleb (f64_sub (f64_of (Z.of_nat k)) (f64_mul (as_secs_f64 ((Z.of_nat k * 20 + 1) * 10 ^ 6))
    PENDING_ACCEPT_RESETS_PER_SECOND)) (f64_of 0) = true) (seq 0 (S MAX_BUDGET))) as H.
  { apply (bool_decide_unpack _). vm_compute. exact I. }
  rewrite Forall_forall in H. apply H, elem_of_seq. lia.
Qed.

(** C36. The bucket of abandoned streams, in the [f64] arithmetic of the code and
    for any budget from 1 to 128.  Take any bucket that the time since its last
    reset has emptied, a new one or one that was used, however long it has been
    idle.  A peer that then abandons one stream every 20 ms is never cut off, for
    as long as it does.  Of streams abandoned all at once, exactly the budget is
    tolerated and the next one closes the connection with H3_EXCESSIVE_LOAD: a
    peer that was idle for longer has no more to spend.  And after so many
    abandoned at once as the budget has, or fewer, 20 ms for each and one more
    empty the bucket again. *)
Theorem reset_bucket s max now n :
  max_pending_accept_resets (limits s) = Some (Z.of_nat max) → (1 ≤ max ≤ MAX_BUDGET)%nat → drained s now →
  (pending_resets ((λ i, now + Z.of_nat i * (20 * 10 ^ 6)) <$> seq 0 n) s).1 = replicate n None
  ∧ (pending_resets (replicate (S max) now) s).1 = replicate max None ++ [Some (code ExcessiveLoad)]
  ∧ ∀ k, (1 ≤ k ≤ max)%nat →
      drained (pending_resets (replicate k now) s).2 (now + (Z.of_nat k * 20 + 1) * 10 ^ 6).
Proof.
  intros Hm Hmax Hd. destruct (first_reset (limits s) max now s eq_refl Hm Hmax Hd) as (s1 & E & Hs1). split_and!.
  - destruct n as [|n]; [done|]. cbn [seq fmap list_fmap pending_resets]. rewrite Z.mul_0_l, Z.add_0_r, E.
    assert (∀ i s1, holds (limits s) (now + Z.of_nat i * (20 * 10 ^ 6)) 1 s1 →
      (pending_resets ((λ i, now + Z.of_nat i * (20 * 10 ^ 6)) <$> seq (S i) n) s1).1 = replicate n None) as H.
    { clear s1 E Hs1. induction n as [|n IH]; intros i s1 (Hl & Hn & Hp); [done|]. cbn [seq fmap list_fmap pending_resets].
      rewrite (note_pending _ _ (Z.of_nat max)), Hn, Hp by (by rewrite Hl). replace (Z.max 0 _) with (20 * 10 ^ 6) by lia.
      rewrite drains_one by by right. change (f64_of 1) with (f64_of (Z.of_nat 1)). rewrite (compares 1 max) by lia.
      replace (max <? 1)%nat with false by (symmetry; apply Nat.ltb_ge; lia).
      match goal with |- context [pending_resets _ ?s2] => specialize (IH (S i) s2) end.
      destruct (pending_resets _ _) as [r s']. cbn [fst] in *. rewrite IH; [done|by split_and!]. }
    specialize (H 0%nat s1). rewrite Z.mul_0_l, Z.add_0_r in H. specialize (H Hs1). destruct (pending_resets _ s1) as [r s2]. cbn in *. by rewrite H.
  - destruct max as [|m]; [lia|]. cbn [replicate]. change (now :: now :: replicate m now) with ([now] ++ replicate (S m) now).
    rewrite (replicate_S_end m now), pending_resets_app. cbn [pending_resets]. rewrite E, pending_resets_app. cbn [pending_resets].
    destruct (burst (limits s) (S m) now m Hm ltac:(lia) 1%nat s1 Hs1 ltac:(lia)) as [Hr Hs2].
    destruct (pending_resets (replicate m now) s1) as [r s2]. cbn [fst snd] in Hr, Hs2. subst r. cbv beta iota.
    destruct (next_reset (limits s) (S m) now (m + 1) s2 Hm ltac:(lia) ltac:(lia) Hs2) as (s3 & E3 & _). rewrite E3.
    replace (m + 1 <? S m)%nat with false by (symmetry; apply Nat.ltb_ge; lia). done.
  - intros k Hk. destruct k as [|k]; [lia|]. cbn [replicate pending_resets]. rewrite E.
    destruct (burst (limits s) max now k Hm ltac:(lia) 1%nat s1 Hs1 ltac:(lia)) as [_ Hs2].
    destruct (pending_resets (replicate k now) s1) as [r s2]. cbn [snd] in *.
    replace (k + 1)%nat with (S k) in Hs2 by lia. by apply (empties (limits s)); [lia|].
Qed.

(** A bucket that was used up, and then left alone for an hour. *)
Lemma reset_bucket_witness :
  let used := (pending_resets (replicate 20 5) (new_reset_state (MkResetLimits (Some 10) (Some 20)) 5)).2 in
  let later := 5 + 3600 * 10 ^ 9 in
  (pending_resets ((λ i, later + Z.of_nat i * (20 * 10 ^ 6)) <$> seq 0 100) used).1 = replicate 100 None
  ∧ (pending_resets (replicate 21 later) used).1 = replicate 20 None ++ [Some (code ExcessiveLoad)]
  ∧ ∀ k, (1 ≤ k ≤ 20)%nat → drained (pending_resets (replicate k later) used).2 (later + (Z.of_nat k * 20 + 1) * 10 ^ 6).
Proof.
  intros used later.
  apply (reset_bucket used 20 later 100); [vm_compute; reflexivity|unfold MAX_BUDGET; lia|vm_compute; reflexivity].
Defined.
