(* ===== verification/H3Driver.v ===== *)
(** * The driver of an HTTP/3 connection (src/src/h3/mod.rs)

    The task behind [Http3::handle]: it brings up the control plane, then, poll
    by poll, takes what request tasks report, watches its timers and the shutdown
    token, writes and reads the control plane, closes the connection when there
    is a reason to, accepts request streams and collects the tasks that ended.

    Timers, the token and the request tasks are the environment's: a timer is
    armed here and has run out when the environment says so; a task is known by
    its stream.  The wait for the QUIC handshake and the backstop timer of a
    shutdown only delay the task and wake it, and are left out. *)

From S2P Require Import Prelude H3Error H3Settings QpackDecoder QpackEncoder Poll H3Transport H3Endpoint H3Shared H3Control H3Resets.

Definition H3_NO_ERROR : Z := 0x0100.
Definition H3_REQUEST_REJECTED : Z := 0x010b.

(** What [handle] fails with. *)
Inductive DriverError : Type :=
| SetupFailed (e : ControlError)
| TransportLost (e : TransportError)
| AcceptTimeout
| ConnectionError (code : Z).

(** [Http3Options], as far as the driver reads them. *)
Record Http3Options : Type := MkOptions {
  local_settings : LocalSettings;
  accept_timeout : bool;
  reset_limits : ResetLimits;
}.

(** ** The state *)

(** The locals of [handle].  [ongoing] are the tasks that have not been
    collected, with whether they have ended; [accept_sleep] and [drain_grace] the
    timers, with whether they have run out.  Two fields record what the code does
    and does not keep: [spawned], the tasks spawned so far, and [failure], the
    error of the control plane that the connection is closed for, with the codecs
    as they were then. *)
Record Driver (T : Type) : Type := MkDriver {
  conn : Conn T;
  resets : ConnResetState;
  started : bool;
  ongoing : list (Z * bool);
  accept_sleep : option bool;
  drain_grace : option bool;
  cancelled : bool;
  shutdown : bool;
  control_dead : bool;
  closing_with : option Z;
  outcome_ : option (result DriverError ());
  last_request_id : Z;
  spawned : list Z;
  failure : option (ControlError * SharedCodecs);
}.
Arguments MkDriver {T}.
Arguments conn {T}.
Arguments resets {T}.
Arguments started {T}.
Arguments ongoing {T}.
Arguments accept_sleep {T}.
Arguments drain_grace {T}.
Arguments cancelled {T}.
Arguments shutdown {T}.
Arguments control_dead {T}.
Arguments closing_with {T}.
Arguments outcome_ {T}.
Arguments last_request_id {T}.
Arguments spawned {T}.
Arguments failure {T}.

Definition new_driver {T} (opts : Http3Options) (now : Z) (t : T) : Driver T :=
  MkDriver (MkConn (new_control (local_settings opts)) (new_shared (local_settings opts)) t)
    (new_reset_state (reset_limits opts) now) false [] None None false false false None None 0 [] None.

Section driver.
Context {T : Type}.

(** *** Updates *)

Definition set_conn (x : Conn T) (s : Driver T) : Driver T :=
  MkDriver x (resets s) (started s) (ongoing s) (accept_sleep s) (drain_grace s) (cancelled s) (shutdown s)
    (control_dead s) (closing_with s) (outcome_ s) (last_request_id s) (spawned s) (failure s).
Definition set_resets (x : ConnResetState) (s : Driver T) : Driver T :=
  MkDriver (conn s) x (started s) (ongoing s) (accept_sleep s) (drain_grace s) (cancelled s) (shutdown s)
    (control_dead s) (closing_with s) (outcome_ s) (last_request_id s) (spawned s) (failure s).
Definition set_started (s : Driver T) : Driver T :=
  MkDriver (conn s) (resets s) true (ongoing s) (accept_sleep s) (drain_grace s) (cancelled s) (shutdown s)
    (control_dead s) (closing_with s) (outcome_ s) (last_request_id s) (spawned s) (failure s).
Definition set_ongoing (x : list (Z * bool)) (s : Driver T) : Driver T :=
  MkDriver (conn s) (resets s) (started s) x (accept_sleep s) (drain_grace s) (cancelled s) (shutdown s)
    (control_dead s) (closing_with s) (outcome_ s) (last_request_id s) (spawned s) (failure s).
Definition set_accept_sleep (x : option bool) (s : Driver T) : Driver T :=
  MkDriver (conn s) (resets s) (started s) (ongoing s) x (drain_grace s) (cancelled s) (shutdown s) (control_dead s)
    (closing_with s) (outcome_ s) (last_request_id s) (spawned s) (failure s).
Definition set_drain_grace (x : option bool) (s : Driver T) : Driver T :=
  MkDriver (conn s) (resets s) (started s) (ongoing s) (accept_sleep s) x (cancelled s) (shutdown s) (control_dead s)
    (closing_with s) (outcome_ s) (last_request_id s) (spawned s) (failure s).
Definition set_cancelled (s : Driver T) : Driver T :=
  MkDriver (conn s) (resets s) (started s) (ongoing s) (accept_sleep s) (drain_grace s) true (shutdown s)
    (control_dead s) (closing_with s) (outcome_ s) (last_request_id s) (spawned s) (failure s).
Definition set_control_dead (s : Driver T) : Driver T :=
  MkDriver (conn s) (resets s) (started s) (ongoing s) (accept_sleep s) (drain_grace s) (cancelled s) (shutdown s)
    true (closing_with s) (outcome_ s) (last_request_id s) (spawned s) (failure s).
Definition set_outcome (x : option (result DriverError ())) (s : Driver T) : Driver T :=
  MkDriver (conn s) (resets s) (started s) (ongoing s) (accept_sleep s) (drain_grace s) (cancelled s) (shutdown s)
    (control_dead s) (closing_with s) x (last_request_id s) (spawned s) (failure s).
Definition saw_request (id : Z) (s : Driver T) : Driver T :=
  MkDriver (conn s) (resets s) (started s) (ongoing s) (accept_sleep s) (drain_grace s) (cancelled s) (shutdown s)
    (control_dead s) (closing_with s) (outcome_ s) (Z.max (last_request_id s) id) (spawned s) (failure s).
(** [zincio::spawn], with the receiver of its end in [ongoing]. *)
Definition spawn (id : Z) (s : Driver T) : Driver T :=
  MkDriver (conn s) (resets s) (started s) (ongoing s ++ [(id, false)]) (accept_sleep s) (drain_grace s) (cancelled s) (shutdown s)
    (control_dead s) (closing_with s) (outcome_ s) (last_request_id s) (spawned s ++ [id]) (failure s).
Definition set_failure (x : option (ControlError * SharedCodecs)) (s : Driver T) : Driver T :=
  MkDriver (conn s) (resets s) (started s) (ongoing s) (accept_sleep s) (drain_grace s) (cancelled s) (shutdown s)
    (control_dead s) (closing_with s) (outcome_ s) (last_request_id s) (spawned s) x.

(** [shutdown = true; outcome = Some(r)]. *)
Definition begin_shutdown (r : result DriverError ()) (s : Driver T) : Driver T :=
  MkDriver (conn s) (resets s) (started s) (ongoing s) (accept_sleep s) (drain_grace s) (cancelled s) true
    (control_dead s) (closing_with s) (Some r) (last_request_id s) (spawned s) (failure s).

(** [closing_with = Some(code); shutdown = true; control_dead = true]. *)
Definition close_with (code : Z) (s : Driver T) : Driver T :=
  MkDriver (conn s) (resets s) (started s) (ongoing s) (accept_sleep s) (drain_grace s) (cancelled s) true true
    (Some code) (outcome_ s) (last_request_id s) (spawned s) (failure s).

Context `{Endpoint T} (opts : Http3Options).

Abbreviation driver A := (op (Driver T) DriverError A).

(** A call of the control plane, and what it came back with. *)
Definition on_conn {A} (m : op (Conn T) ControlError A) : driver (outcome ControlError A) := λ s,
  (Done (m (conn s)).1, set_conn (m (conn s)).2 s).

(** A call of the QUIC connection, [map_err(h3_transport_error_to_io)?]. *)
Definition ask {A} (f : T → poll (result TransportError A) * T) : driver (poll A) := λ s,
  let '(r, t) := f (net (conn s)) in
  let s := set_conn (MkConn (controls (conn s)) (shared (conn s)) t) s in
  match r with
  | Ready (Ok a) => (Done (Ready a), s)
  | Ready (Err e) => (Fail (TransportLost e), s)
  | Pending => (Done Pending, s)
  end.

(** A call whose answer is ignored. *)
Definition call_and_forget {A} (f : T → poll (result TransportError A) * T) : driver () :=
  modify (λ s, set_conn (MkConn (controls (conn s)) (shared (conn s)) (f (net (conn s))).2) s).

(** ** The parts of a turn *)

(** A code a request task recorded. *)
Definition take_reported : driver () :=
  s ← self;
  let '(o, r) := take_close_code (resets s) in
  _ ← modify (set_resets r);
  match o, closing_with s with
  | Some code, None => modify (close_with code)
  | _, _ => mret ()
  end.

(** The accept timeout; [None] when its timer was armed just now and the turn
    starts over, else whether it fired. *)
Definition watch_accept : driver (option bool) :=
  s ← self;
  if negb (bool_decide (ongoing s = [])) then _ ← modify (set_accept_sleep None); mret (Some false)
  else match accept_sleep s with
  | Some true => _ ← modify (set_accept_sleep None); mret (Some true)
  | Some false => mret (Some false)
  | None =>
      if accept_timeout opts then _ ← modify (set_accept_sleep (Some false)); mret None
      else mret (Some false)
  end.

(** The graceful shutdown trigger. *)
Definition watch_shutdown (timeout_fired : bool) : driver () :=
  s ← self;
  if shutdown s then mret ()
  else if cancelled s then modify (begin_shutdown (Ok ()))
  else if timeout_fired then modify (begin_shutdown (Err AcceptTimeout))
  else mret ().

(** An error of the control plane: the connection closes with its code, unless
    it is shutting down. *)
Definition control_failed (e : ControlError) : driver () :=
  s ← self;
  if shutdown s then modify set_control_dead
  else _ ← modify (set_failure (Some (e, shared (conn s)))); modify (close_with (control_code e)).

Definition flush_control : driver () :=
  s ← self;
  if control_dead s then mret ()
  else
    r ← on_conn poll_flush;
    match r with
    | Fail e => control_failed e
    | Stuck => stuck
    | Done _ | Wait => mret ()
    end.

(** The loop over [poll_read]; [fuel] is that of each call, [n] the events. *)
Fixpoint read_events (fuel n : nat) : driver () :=
  match n with
  | O => stuck
  | S n =>
      r ← on_conn (poll_read fuel);
      match r with
      | Done (EvGoaway _) =>
          s ← self;
          _ ← (if shutdown s then mret () else modify (begin_shutdown (Ok ())));
          read_events fuel n
      | Done _ => read_events fuel n
      | Fail e => control_failed e
      | Wait => mret ()
      | Stuck => stuck
      end
  end.

Definition poll_control (fuel : nat) : driver () :=
  s ← self;
  if control_dead s then mret () else read_events fuel fuel.

(** [return Poll::Ready(r)]. *)
Definition finish (r : result DriverError ()) : driver bool :=
  match r with Ok _ => mret true | Err e => fail e end.

(** The shutdown: true when the connection is closed and [handle] returns. *)
Definition shut_down : driver bool :=
  s ← self;
  match closing_with s with
  | Some code =>
      _ ← ready (ask (poll_shutdown code));
      s ← self;
      _ ← modify (set_outcome None);
      finish (default (Err (ConnectionError code)) (outcome_ s))
  | None =>
      _ ← (if bool_decide (goaway_sent (controls (conn s)) = None)
           then modify (λ s, set_conn (MkConn (send_goaway (last_request_id s) (controls (conn s)))
                                        (shared (conn s)) (net (conn s))) s)
           else mret ());
      if bool_decide (ongoing s = []) then
        let grace := default false (drain_grace s) in
        _ ← modify (set_drain_grace (Some grace));
        if grace then
          _ ← ready (ask (poll_shutdown H3_NO_ERROR));
          s ← self;
          _ ← modify (set_outcome None);
          finish (default (Ok ()) (outcome_ s))
        else mret false
      else mret false
  end.

(** A stream that was accepted: it is rejected behind our GOAWAY, or a task is
    spawned for it. *)
Definition take_stream (id : Z) : driver () :=
  _ ← modify (saw_request id);
  s ← self;
  _ ← modify (set_accept_sleep (if accept_timeout opts then (λ _, false) <$> accept_sleep s else None));
  let refuse := shutdown s && match goaway_sent (controls (conn s)) with None => true | Some last => last <? id end in
  if refuse then call_and_forget (poll_reset id H3_REQUEST_REJECTED) else modify (spawn id).

(** The accept loop: true when the connection has ended. *)
Fixpoint accept_streams (fuel : nat) : driver bool :=
  match fuel with
  | O => stuck
  | S fuel =>
      r ← ask poll_accept;
      match r with
      | Ready (Some id) => _ ← take_stream id; accept_streams fuel
      | Ready None => mret true
      | Pending => mret false
      end
  end.

(** [ongoing.poll_next_unpin]: the first task that has ended is dropped. *)
Fixpoint drop_ended (l : list (Z * bool)) : option (list (Z * bool)) :=
  match l with
  | [] => None
  | (id, ended) :: l => if ended then Some l else cons (id, ended) <$> drop_ended l
  end.

(** Whether the turn goes round once more. *)
Definition collect : driver bool :=
  s ← self;
  match drop_ended (ongoing s) with
  | Some rest => _ ← modify (set_ongoing rest); mret true
  | None => mret (bool_decide (ongoing s = []) && shutdown s && bool_decide (drain_grace s = None))
  end.

(** ** The loop *)

Inductive Turn : Type := Again | Park | Return.

Definition turn (fuel : nat) : driver Turn :=
  _ ← take_reported;
  fired ← watch_accept;
  match fired with
  | None => mret Again
  | Some fired =>
      _ ← watch_shutdown fired;
      _ ← on_conn queue_encoder_streams_from_shared;
      _ ← flush_control;
      _ ← poll_control fuel;
      s ← self;
      closed ← (if shutdown s then shut_down else mret false);
      if closed : bool then mret Return
      else
        ended ← accept_streams fuel;
        if ended : bool then mret Return
        else again ← collect; mret (if again : bool then Again else Park)
  end.

Fixpoint run_turns (fuel turns : nat) : driver () :=
  match turns with
  | O => stuck
  | S turns =>
      r ← turn fuel;
      match r with
      | Again => run_turns fuel turns
      | Park => wait
      | Return => mret ()
      end
  end.

(** The control plane is brought up before the first turn. *)
Definition set_up : driver () :=
  s ← self;
  if started s then mret ()
  else
    r ← on_conn (_ ← poll_init; poll_flush);
    match r with
    | Done _ => modify set_started
    | Fail e => fail (SetupFailed e)
    | Wait => wait
    | Stuck => stuck
    end.

(** A poll of [handle]; [fuel] bounds the turns and the loops of each. *)
Definition poll_driver (fuel : nat) : driver () := _ ← set_up; run_turns fuel fuel.
End driver.
