(* ===== verification/H3DriverSpec.v ===== *)
(** * What the driver of an HTTP/3 connection does

    In every state a run of the driver reaches, whatever the peer, the transport
    and the request tasks do in between: each stream accepted was served or
    rejected as GOAWAY says, and the connection is closed with a code that has a
    reason. *)

From S2P Require Import Prelude H3Error Varint Incremental H3Frame H3Settings QpackTable QpackString QpackDecoder QpackEncoder Poll H3Transport H3Endpoint H3Shared H3Reading H3Control H3ControlSpec H3ControlLoop H3Resets H3Driver.

(** ** The control plane leaves the requests alone *)

Section apart.
Context {T : Type} `{RecordedEndpoint T}.

(** No request stream is accepted, reset or closed, and no GOAWAY is sent. *)
Definition apart (s s' : Conn T) : Prop :=
  goaway_sent (controls s') = goaway_sent (controls s) ∧ requests (net s') = requests (net s)
  ∧ history (net s) `prefix_of` history (net s').

#[export] Instance apart_preorder : PreOrder apart.
Proof.
  split; [by split|]. intros s1 s2 s3 (A1 & A2 & A3) (B1 & B2 & B3). split; [congruence|]. split; [congruence|].
  by etransitivity.
Qed.

Create HintDb apart.

Lemma apart_controls f : (∀ c, goaway_sent (f c) = goaway_sent c) → within apart (on_controls f).
Proof. intros Hf. apply within_modify. intros s. split; [apply Hf|by split]. Qed.

Lemma apart_shared f : within apart (on_shared f).
Proof. intros s. by split. Qed.

Lemma apart_call {A} (f : T → poll (result TransportError A) * T) :
  (∀ t, requests (f t).2 = requests t) → (∀ t, history t `prefix_of` history (f t).2) → within apart (call f).
Proof.
  intros Hr Hh s. unfold call. specialize (Hr (net s)). specialize (Hh (net s)).
  destruct (f (net s)) as [[[a|e]|] t]; by split.
Qed.

Lemma history_grows t : history t `prefix_of` history (poll_open_uni t).2
  ∧ history t `prefix_of` history (poll_accept_uni t).2
  ∧ (∀ id, history t `prefix_of` history (poll_recv id t).2)
  ∧ ∀ id data, history t `prefix_of` history (poll_send id data t).2.
Proof.
  rewrite history_open, history_accept. do 2 (split; [apply prefix_app_r, reflexivity|]).
  split; intros; rewrite ?history_recv, ?history_send; apply prefix_app_r, reflexivity.
Qed.

Lemma apart_attempt m : within apart m → within apart (attempt m).
Proof. intros Hm s. specialize (Hm s). unfold attempt. by destruct (m s) as [[a|e| |] s']. Qed.

#[local] Hint Resolve apart_shared : apart.
#[local] Hint Extern 1 (within apart (on_controls _)) => apply apart_controls; done : apart.
#[local] Hint Extern 1 (within apart (call _)) =>
  apply apart_call; [auto using requests_open, requests_accept_uni, requests_recv, requests_send
    |intros ?; apply history_grows] : apart.

Lemma apart_queue id pop q : within apart (flush_queue id pop q).
Proof. induction q as [|x q IH]; cbn [flush_queue]; stays; auto with apart. Qed.

Lemma apart_flush : within apart poll_flush.
Proof. unfold poll_flush. stays; auto using apart_queue with apart. Qed.

Lemma apart_init : within apart poll_init.
Proof. unfold poll_init. stays; auto with apart. Qed.

Lemma apart_hand : within apart queue_encoder_streams_from_shared.
Proof. unfold queue_encoder_streams_from_shared. stays; auto with apart. Qed.

Lemma apart_frame f : within apart (handle_control_frame f).
Proof. unfold handle_control_frame. stays; auto with apart. Qed.

Lemma apart_drain fuel : ∀ progressed, within apart (drain_control fuel progressed).
Proof.
  induction fuel as [|fuel IH]; intros progressed; cbn [drain_control]; stays; auto using apart_frame with apart.
Qed.

Lemma apart_feed chunk : within apart (feed_encoder chunk).
Proof. unfold feed_encoder. stays; auto with apart. Qed.

Lemma apart_tell chunk : within apart (tell_encoder chunk).
Proof. unfold tell_encoder. stays; auto with apart. Qed.

Lemma apart_validate chunk : within apart (validate chunk).
Proof. unfold validate. stays; auto with apart. Qed.

Lemma apart_wire id ty leftover : within apart (wire_uni id ty leftover).
Proof. unfold wire_uni. stays; auto using apart_feed, apart_validate with apart. Qed.

Lemma apart_classify fuel : within apart (classify_uni fuel).
Proof. induction fuel as [|fuel IH]; cbn [classify_uni]; stays; auto using apart_wire with apart. Qed.

Lemma apart_critical id f : (∀ chunk, within apart (f chunk)) → within apart (recv_critical id f).
Proof. intros Hf. unfold recv_critical. stays; auto with apart. Qed.

Lemma apart_turn fuel : within apart (read_turn fuel).
Proof.
  unfold read_turn, accept_uni, classify, read_control, handle_frames, read_encoder, read_decoder, discard.
  stays; auto using apart_attempt, apart_classify, apart_drain with apart.
  - apply apart_critical. intros chunk. stays; auto with apart.
  - apply apart_critical, apart_feed.
  - apply apart_critical. intros chunk. stays; auto using apart_tell, apart_validate.
Qed.

Lemma apart_read fuel : within apart (poll_read fuel).
Proof.
  unfold poll_read. generalize fuel at 2. intros chunks. induction fuel as [|fuel IH]; cbn [read_loop]; unfold pop_event;
    stays; auto using apart_turn with apart.
Qed.

(** Writing fails only when the transport does. *)
Definition fails_plainly {A} (m : op (Conn T) ControlError A) : Prop := ∀ s,
  wp m (λ o s', match o with Fail e => justified (shared s') (history (net s')) e | _ => True end) s.

Lemma plain_bind {A B} (m : op (Conn T) ControlError A) (f : A → op (Conn T) ControlError B) :
  fails_plainly m → (∀ a, fails_plainly (f a)) → fails_plainly (m ≫= f).
Proof.
  intros Hm Hf s. apply wp_bind. eapply wp_mono; [apply Hm|]. intros [a|e| |] s'; try done. intros _. apply Hf.
Qed.

Lemma plain_send id data : fails_plainly (ready (call (poll_send id data))).
Proof.
  intros s. apply wp_ready. unfold wp, call. pose proof (history_send id data (net s)) as Hh.
  destruct (poll_send id data (net s)) as [[[u|e]|] t]; [done| |done].
  eapply JTransport; [cbn in *; rewrite Hh; apply last_snoc|right; by eexists].
Qed.

Lemma plain_queue id pop q : fails_plainly (flush_queue id pop q).
Proof.
  induction q as [|x q IH]; [by intros s|]. cbn [flush_queue]. apply plain_bind; [apply plain_send|]. intros _.
  apply plain_bind; [by intros s|]. by intros _.
Qed.

Lemma plain_flush : fails_plainly poll_flush.
Proof.
  intros s. unfold poll_flush. apply wp_self. apply plain_bind.
  - destruct (out_control _); [|by intros ?]. destruct (bool_decide _); [by intros ?|].
    apply plain_bind; [apply plain_send|by intros ? ?].
  - intros _. apply plain_bind; [destruct (out_encoder _); [apply plain_queue|by intros ?]|].
    intros _. destruct (out_decoder _); [apply plain_queue|by intros ?].
Qed.
End apart.

(** ** The invariant *)

(** The request streams that arrived. *)
Definition arrivals (l : list request_event) : list Z :=
  omap (λ ev, match ev with Arrived id => Some id | _ => None end) l.

Lemma arrivals_app l k : arrivals (l ++ k) = arrivals l ++ arrivals k.
Proof. unfold arrivals. by rewrite omap_app. Qed.

Lemma arrivals_snoc l ev : arrivals (l ++ [ev]) = arrivals l ++ match ev with Arrived id => [id] | _ => [] end.
Proof. unfold arrivals. rewrite omap_app. by destruct ev. Qed.

Lemma elem_of_arrivals id l : id ∈ arrivals l ↔ Arrived id ∈ l.
Proof.
  unfold arrivals. rewrite list_elem_of_omap. split.
  - intros ([]  & Hin & [= ->]). exact Hin.
  - intros Hin. by exists (Arrived id).
Qed.

(** A stream is served up to the identifier in our GOAWAY, and before GOAWAY
    every stream is. *)
Definition served (goaway : option Z) (id : Z) : bool :=
  match goaway with None => true | Some last => id <=? last end.
Definition served_streams (goaway : option Z) (ids : list Z) : list Z := filter (λ id, served goaway id = true) ids.

Lemma served_none ids : served_streams None ids = ids.
Proof. induction ids as [|id ids IH]; [done|]. unfold served_streams in *. rewrite filter_cons_True by done. by rewrite IH. Qed.

Lemma served_all last ids : Forall (λ id, id ≤ last) ids → served_streams (Some last) ids = ids.
Proof.
  induction 1 as [|id ids Hid _ IH]; [done|]. unfold served_streams in *. rewrite filter_cons_True; [by rewrite IH|].
  cbn. by apply Z.leb_le.
Qed.

Lemma served_snoc goaway ids id :
  served_streams goaway (ids ++ [id]) = served_streams goaway ids ++ (if served goaway id then [id] else []).
Proof.
  unfold served_streams. rewrite filter_app. f_equal. destruct (served goaway id) eqn:E;
    [by rewrite filter_cons_True|by rewrite filter_cons_False by (by rewrite E)].
Qed.

(** What happens between the polls of a driver: a request task reports a code,
    ends, or asks something of a stream; the accept timer or the grace timer runs
    out, the accept timer while the tasks of [l] are ongoing. *)
Inductive happening : Type :=
| Reported (c : Z)
| TaskEnded (id : Z)
| TaskAsked (ev : request_event)
| TimerRan (l : list (Z * bool))
| GraceRan.

(** What has happened, and whether the accept timer may have run out unseen. *)
Definition ledger : Type := list happening * bool.

Section invariant.
Context {T : Type} `{RecordedEndpoint T} (opts : Http3Options).

Abbreviation driver A := (op (Driver T) DriverError A).

(** Why the connection may be closed with [code]: a request task reported it, or
    the control plane failed with it, [f], for a reason that lies in what had
    happened on the transport then and in the codecs as they were then. *)
Definition grounds (log : list happening) (f : option (ControlError * SharedCodecs)) (h : list event) (code : Z) : Prop :=
  Reported code ∈ log ∨ ∃ e sh k, f = Some (e, sh) ∧ control_code e = code ∧ k `prefix_of` h ∧ justified sh k e.

(** The peer has sent GOAWAY. *)
Definition goaway_received (h : list event) : Prop := ∃ k id octets last,
  k `prefix_of` h ∧ stream_of k id STREAM_TYPE_CONTROL octets ∧ Goaway last ∈ (frames None octets).1.1.

(** The accept timeout is on, and its timer ran out while no request was in
    flight. *)
Definition idle_too_long (log : list happening) : Prop := accept_timeout opts = true ∧ TimerRan [] ∈ log.

(** Why the driver may be shutting down. *)
Definition wind_down (log : list happening) (s : Driver T) : Prop :=
  is_Some (closing_with s) ∨ cancelled s = true ∨ goaway_received (history (net (conn s))) ∨ idle_too_long log.

Abbreviation arrived s := (arrivals (requests (net (conn s)))).
Abbreviation last_sent s := (goaway_sent (controls (conn s))).

Record driver_ok (l : ledger) (s : Driver T) : Prop := {
  do_once : NoDup (arrived s);
  do_spawned : spawned s = served_streams (last_sent s) (arrived s);
  do_last : Forall (λ id, id ≤ last_request_id s) (arrived s);
  do_rejected : ∀ id, id ∈ arrived s → served (last_sent s) id = false →
    ResetAsked id H3_REQUEST_REJECTED ∈ requests (net (conn s));
  do_resets : ∀ id c, ResetAsked id c ∈ requests (net (conn s)) →
    TaskAsked (ResetAsked id c) ∈ l.1 ∨ c = H3_REQUEST_REJECTED ∧ id ∈ arrived s ∧ served (last_sent s) id = false;
  do_goaway_shut : is_Some (last_sent s) → shutdown s = true;
  do_ongoing : (ongoing s).*1 `sublist_of` spawned s;
  do_running : ∀ id, id ∈ spawned s → (id, false) ∈ ongoing s ∨ TaskEnded id ∈ l.1;
  do_close : ∀ c, CloseAsked c ∈ requests (net (conn s)) → closing_with s = Some c
    ∨ c = H3_NO_ERROR ∧ ongoing s = [] ∧ shutdown s = true ∧ drain_grace s = Some true;
  do_grace : drain_grace s = Some true → GraceRan ∈ l.1;
  do_closing : ∀ c, closing_with s = Some c → shutdown s = true ∧ control_dead s = true
    ∧ grounds l.1 (failure s) (history (net (conn s))) c;
  do_reported : ∀ c, close_code (resets s) = Some c → Reported c ∈ l.1;
  do_timer : is_Some (accept_sleep s) → accept_timeout opts = true;
  do_sleep : accept_sleep s = Some true → l.2 = true ∧ (ongoing s = [] → TimerRan [] ∈ l.1);
  do_control : control_dead s = false → ∃ evs, inv evs (conn s);
  do_why : shutdown s = true → wind_down l.1 s;
}.

(** A call keeps the invariant, unless its fuel is not enough. *)
Definition kept (l : ledger) {A} (o : outcome DriverError A) (s : Driver T) : Prop :=
  match o with Stuck => True | _ => driver_ok l s end.

Definition safe (l : ledger) {A} (m : driver A) : Prop := ∀ s,
  driver_ok l s → wp m (kept l) s.

Lemma safe_bind l {A B} (m : driver A) (f : A → driver B) :
  safe l m → (∀ a, safe l (f a)) → safe l (m ≫= f).
Proof.
  intros Hm Hf s Hs. apply wp_bind. eapply wp_mono; [by apply Hm|]. intros [a|e| |] s' Hs'; try done. by apply Hf.
Qed.

Lemma grounds_grow log f h h' c : grounds log f h c → h `prefix_of` h' → grounds log f h' c.
Proof. intros [?|(e & sh & k & Hf & He & Hk & Hj)] Hp; [by left|]. right. exists e, sh, k. split_and!; try done. by etransitivity. Qed.

Lemma goaway_grow h h' : goaway_received h → h `prefix_of` h' → goaway_received h'.
Proof. intros (k & id & octets & last & Hk & Ho) Hp. exists k, id, octets, last. split; [by etransitivity|done]. Qed.

Lemma wind_down_grow log s s' : wind_down log s → closing_with s' = closing_with s → cancelled s' = cancelled s →
  history (net (conn s)) `prefix_of` history (net (conn s')) → wind_down log s'.
Proof.
  intros Hw Ec En Hp. unfold wind_down. rewrite Ec, En. destruct Hw as [?|[?|[?|?]]]; auto.
  right. right. left. by eapply goaway_grow.
Qed.

(** An event told goes back to a frame received. *)
Lemma inv_goaway evs id x : inv evs x → EvGoaway id ∈ evs → goaway_received (history (net x)).
Proof.
  intros [_ Hc] Hin. destruct (in_control _) as [pc|]; [|destruct Hc as [-> _]; by apply elem_of_nil in Hin].
  destruct Hc as (octets & fs & Ho & _ & _ & Ht & [_ Hev _ _ _]). exists (history (net x)), (pc_stream pc), octets, id.
  split; [done|]. split; [done|]. unfold took in Ht. destruct (frames None (flat _)) as [[gs r] e].
  destruct (frames None octets) as [[hs r'] e']. destruct Ht as (-> & _ & _). cbn. apply elem_of_app. left.
  assert (EvGoaway id ∈ announced fs) as Ha by (rewrite <- Hev; apply elem_of_app; by left).
  unfold announced in Ha. destruct fs as [|[] fs]; try by apply elem_of_nil in Ha.
  apply elem_of_cons in Ha as [|(f & Hf & Hann)%list_elem_of_omap]; [done|]. right. destruct f; try done. by injection Hann as ->.
Qed.

(** The control plane has moved on. *)
Lemma ok_conn l s x :
  driver_ok l s → apart (conn s) x →
  (∀ evs, inv evs (conn s) → ∃ more, inv (evs ++ more) x) → driver_ok l (set_conn x s).
Proof.
  intros [S1 S2 S3 S4 S5 D4 D5 Dr D6 Dg D7 D8 Dt Ds D9 Dw] (Hg & Hr & Hh) Hi.
  split; cbn [conn set_conn spawned failure accept_sleep closing_with ongoing shutdown drain_grace control_dead resets last_request_id];
    rewrite ?Hg, ?Hr; try done.
  - intros c Hcl. destruct (D7 c Hcl) as (? & ? & Hgr). split; [done|]. split; [done|]. by eapply grounds_grow.
  - intros Hd. destruct (D9 Hd) as [evs He]. destruct (Hi evs He) as [more Hm]. eauto.
  - intros Hsh. by eapply wind_down_grow; [apply Dw| | |].
Qed.

(** A call on the transport that moves the history of requests only. *)
Lemma ok_net l s t evs :
  driver_ok l s → requests t = requests (net (conn s)) ++ evs → history t = history (net (conn s)) →
  arrivals evs = [] → (∀ id c, ResetAsked id c ∉ evs) →
  (∀ c, CloseAsked c ∈ evs → closing_with s = Some c
     ∨ c = H3_NO_ERROR ∧ ongoing s = [] ∧ shutdown s = true ∧ drain_grace s = Some true) →
  driver_ok l (set_conn (MkConn (controls (conn s)) (shared (conn s)) t) s).
Proof.
  intros [S1 S2 S3 S4 S5 D4 D5 Dr D6 Dg D7 D8 Dt Ds D9 Dw] Hr Hh Ha Hn Hc.
  split; cbn [conn set_conn spawned failure accept_sleep closing_with ongoing shutdown drain_grace control_dead resets last_request_id controls net];
    rewrite ?Hr, ?Hh, ?arrivals_app, ?Ha, ?app_nil_r; try done.
  - intros id Hid Hs. apply elem_of_app. left. by apply S4.
  - intros id c [Hin|Hin]%elem_of_app; [by apply S5|by destruct (Hn id c)].
  - intros c [Hin|Hin]%elem_of_app; auto.
  - intros Hd. destruct (D9 Hd) as [told Ht]. exists told. unfold inv in *. cbn [net controls]. by rewrite Hh.
  - intros Hsh. eapply wind_down_grow; [by apply Dw|done|done|]. cbn. by rewrite Hh.
Qed.

Lemma safe_conn l {A} (m : op (Conn T) ControlError A) s :
  driver_ok l s → within apart m →
  (∀ evs, inv evs (conn s) → ∃ more, inv (evs ++ more) (m (conn s)).2) →
  wp (on_conn m) (λ o s', o = Done (m (conn s)).1 ∧ driver_ok l s') s.
Proof. intros Hs Ha Hi. split; [done|]. apply ok_conn; [done|apply Ha|done]. Qed.

(** *** The parts of a turn *)

(** The control plane is given up: while the driver shuts down, or with a code. *)
Lemma ok_dead l s x :
  driver_ok l s → apart (conn s) x → driver_ok l (set_control_dead (set_conn x s)).
Proof.
  intros [S1 S2 S3 S4 S5 D4 D5 Dr D6 Dg D7 D8 Dt Ds D9 Dw] (Hg & Hr & Hh).
  split; cbn; rewrite ?Hg, ?Hr; try done.
  - intros c Hc. destruct (D7 c Hc) as (? & ? & Hgr). split; [done|]. split; [done|]. by eapply grounds_grow.
  - intros Hsh. by eapply wind_down_grow; [apply Dw| | |].
Qed.

Lemma ok_closed l s x f c :
  driver_ok l s → closing_with s = None → apart (conn s) x → grounds l.1 f (history (net x)) c →
  driver_ok l (close_with c (set_failure f (set_conn x s))).
Proof.
  intros [S1 S2 S3 S4 S5 D4 D5 Dr D6 Dg D7 D8 Dt Ds D9 Dw] Hs (Hg & Hr & Hh) Hgr.
  split; cbn; rewrite ?Hg, ?Hr; try done.
  - intros c' Hc'. right. destruct (D6 c' Hc') as [Hcl|(? & ? & _ & ?)]; [congruence|by repeat split].
  - by intros c' [= <-].
  - intros _. left. by exists c.
Qed.

Lemma set_conn_same (s : Driver T) : set_conn (conn s) s = s.
Proof. by destruct s. Qed.

Lemma apart_refl (x : Conn T) : apart x x.
Proof. by split. Qed.

Lemma safe_reported l : safe l take_reported.
Proof.
  intros s Hs. unfold take_reported. apply wp_self. destruct (take_close_code (resets s)) as [o r] eqn:E.
  assert (driver_ok l (set_resets r s)) as Hs1.
  { destruct Hs as [S1 S2 S3 S4 S5 D4 D5 Dr D6 Dg D7 D8 Dt Ds D9 Dw]. split; try done. injection E as <- <-. cbn. done. }
  apply wp_bind. cbn -[close_with]. destruct o as [c|]; [|done]. destruct (closing_with s) as [c'|] eqn:Ec; [done|].
  assert (Reported c ∈ l.1) as Hin by (injection E as Ec' _; by apply (do_reported l s Hs)).
  replace (set_resets r s) with (set_failure (failure s) (set_conn (conn s) (set_resets r s))) by by destruct s.
  apply ok_closed; [exact Hs1|done|apply apart_refl|by left].
Qed.

(** The timer may have run out again. *)
Lemma ok_unseen l s : driver_ok (l.1, false) s → driver_ok l s.
Proof. intros [S1 S2 S3 S4 S5 D4 D5 Dr D6 Dg D7 D8 Dt Ds D9 Dw]. split; try done. intros Hs. by destruct (Ds Hs) as [[=] _]. Qed.

(** A timeout fires only when the timer has run out with no request in flight;
    and then it is not armed any more. *)
Lemma wp_watch_accept l s :
  driver_ok l s →
  wp (watch_accept opts) (λ o s', driver_ok (l.1, false) s' ∧ (o = Done (Some true) → idle_too_long l.1)) s.
Proof.
  intros Hs. unfold watch_accept. apply wp_self.
  assert (∀ x, (is_Some x → accept_timeout opts = true) → x ≠ Some true → driver_ok (l.1, false) (set_accept_sleep x s)) as Hset.
  { intros x Hx Hn. destruct Hs as [S1 S2 S3 S4 S5 D4 D5 Dr D6 Dg D7 D8 Dt Ds D9 Dw]. split; try done. }
  assert (accept_sleep s ≠ Some true → driver_ok (l.1, false) s) as Hsame.
  { intros Hn. replace s with (set_accept_sleep (accept_sleep s) s) by by destruct s. apply Hset; [by apply Hs|done]. }
  pose proof (do_timer l s Hs) as Ht. destruct (negb _) eqn:Eo; [split; [by apply Hset; [intros [? ?]|]|done]|].
  apply negb_false_iff, bool_decide_eq_true_1 in Eo. destruct (accept_sleep s) as [[]|] eqn:Ea.
  - split; [by apply Hset; [intros [? ?]|]|]. intros _. split; [eauto|]. by apply (do_sleep l s Hs).
  - split; [by apply Hsame|done].
  - destruct (accept_timeout opts) eqn:E; [split; [by apply Hset|done]|]. split; [by apply Hsame|done].
Qed.

Lemma ok_begin l s r : driver_ok l s → wind_down l.1 s → driver_ok l (begin_shutdown r s).
Proof.
  intros [S1 S2 S3 S4 S5 D4 D5 Dr D6 Dg D7 D8 Dt Ds D9 Dw] Hw. split; try done.
  - intros c Hc. destruct (D6 c Hc) as [?|(? & ? & _ & ?)]; [by left|by right].
  - intros c Hc. destruct (D7 c Hc) as (_ & ? & ?). by split.
Qed.

Lemma safe_shutdown l fired :
  (fired = true → idle_too_long l.1) → safe l (watch_shutdown fired).
Proof.
  intros Hf s Hs. unfold watch_shutdown. apply wp_self. destruct (shutdown s); [done|].
  destruct (cancelled s) eqn:Ec; [|destruct fired; [|done]].
  - apply (ok_begin l s (Ok ())); [done|]. right. by left.
  - apply (ok_begin l s (Err AcceptTimeout)); [done|]. right. right. right. auto.
Qed.

Lemma safe_hand l : safe l (on_conn queue_encoder_streams_from_shared).
Proof.
  intros s Hs. eapply wp_mono; [apply (safe_conn l); [exact Hs|apply apart_hand|]|by intros o s' [-> ?]].
  intros evs Hi. exists []. rewrite app_nil_r. eapply control_inv_quiet; [exact Hi|apply quiet_hand].
Qed.

Lemma safe_failed l e s x :
  driver_ok l s → apart (conn s) x → justified (shared x) (history (net x)) e →
  wp (control_failed e) (kept l) (set_conn x s).
Proof.
  intros Hs Hx Hj. unfold control_failed. apply wp_self. cbn [shutdown set_conn]. destruct (shutdown s) eqn:E.
  - by apply ok_dead.
  - apply wp_bind, wp_modify. cbn [andthen]. apply ok_closed; [done| |done|].
    + destruct (closing_with s) as [c|] eqn:Ec; [|done]. destruct (do_closing l s Hs c Ec). congruence.
    + right. by exists e, (shared x), (history (net x)).
Qed.

Lemma safe_flush l : safe l flush_control.
Proof.
  intros s Hs. unfold flush_control. apply wp_self. destruct (control_dead s) eqn:Ed; [done|]. apply wp_bind.
  pose proof (apart_flush (conn s)) as Ha.
  assert (∀ e, (poll_flush (conn s)).1 = Fail e →
    justified (shared (poll_flush (conn s)).2) (history (net (poll_flush (conn s)).2)) e) as Hj.
  { intros e E. pose proof (plain_flush (conn s)) as Hp. unfold wp in Hp. rewrite E in Hp. exact Hp. }
  assert (driver_ok l (set_conn (poll_flush (conn s)).2 s)) as Hok.
  { apply ok_conn; [done|done|]. intros evs Hi. exists []. rewrite app_nil_r. eapply control_inv_quiet; [exact Hi|apply quiet_flush]. }
  unfold wp, on_conn. cbn [fst snd andthen]. destruct (poll_flush (conn s)) as [[u|e| |] x] eqn:E; cbn [fst snd] in *; try done.
  apply safe_failed; auto.
Qed.

(** A call of [poll_read] that tells an event. *)
Lemma inv_read evs x fuel ev x' : inv evs x → poll_read fuel x = (Done ev, x') → inv (evs ++ [ev]) x'.
Proof. intros Hi E. pose proof (read_spec fuel fuel evs x Hi) as Hr. unfold wp, poll_read in *. by rewrite E in Hr. Qed.

Lemma ok_event l s fuel ev x :
  driver_ok l s → poll_read fuel (conn s) = (Done ev, x) → driver_ok l (set_conn x s).
Proof.
  intros Hs E. pose proof (apart_read fuel (conn s)) as Ha. rewrite E in Ha. apply ok_conn; [done|done|].
  intros evs Hi. exists [ev]. by eapply inv_read.
Qed.

Lemma ok_goaway l s fuel id x :
  driver_ok l s → control_dead s = false → poll_read fuel (conn s) = (Done (EvGoaway id), x) →
  driver_ok l (begin_shutdown (Ok ()) (set_conn x s)).
Proof.
  intros Hs Hd E. destruct (do_control l s Hs Hd) as [evs Hi].
  apply ok_begin; [by eapply ok_event|]. right. right. left.
  eapply (inv_goaway (evs ++ [EvGoaway id])); [by eapply inv_read|]. apply elem_of_app. right. by left.
Qed.

Lemma safe_events l fuel n : ∀ s, driver_ok l s → control_dead s = false →
  wp (read_events fuel n) (kept l) s.
Proof.
  induction n as [|n IH]; intros s Hs Hd; [done|]. cbn [read_events]. apply wp_bind. unfold wp at 1, on_conn.
  cbn [fst snd andthen]. pose proof (apart_read fuel (conn s)) as Ha.
  destruct (poll_read fuel (conn s)) as [[ev|e| |] x] eqn:E; cbn [fst snd] in *.
  - assert (driver_ok l (set_conn x s)) as Hx by by eapply ok_event.
    destruct ev; [by apply IH| |by apply IH..]. apply wp_self, wp_bind.
    destruct (shutdown (set_conn x s)).
    + change (wp (read_events fuel n) (kept l) (set_conn x s)). by apply IH.
    + change (wp (read_events fuel n) (kept l) (begin_shutdown (Ok ()) (set_conn x s))).
      apply IH; [|done]. by eapply ok_goaway.
  - apply safe_failed; [done|done|]. destruct (do_control l s Hs Hd) as [evs Hi].
    pose proof (read_spec fuel fuel evs (conn s) Hi) as Hr. unfold wp, poll_read in *. by rewrite E in Hr.
  - apply ok_conn; [done|done|]. intros evs Hi. exists []. rewrite app_nil_r.
    pose proof (read_spec fuel fuel evs (conn s) Hi) as Hr. unfold wp, poll_read in *. by rewrite E in Hr.
  - done.
Qed.

(** *** Closing *)

(** Nothing has been asked of the transport that ends the connection. *)
Definition open (s : Driver T) : Prop :=
  (∀ c, CloseAsked c ∉ requests (net (conn s)))
  ∧ (shutdown s = true → is_Some (goaway_sent (controls (conn s)))).

Lemma wp_ask_net {A} (f : T → poll (result TransportError A) * T) Q s :
  (∀ r, (f (net (conn s))).1 = r →
     let s' := set_conn (MkConn (controls (conn s)) (shared (conn s)) (f (net (conn s))).2) s in
     match r with
     | Ready (Ok a) => Q (Done (Ready a)) s'
     | Ready (Err e) => Q (Fail (TransportLost e)) s'
     | Pending => Q (Done Pending) s'
     end) → wp (ask f) Q s.
Proof.
  intros HQ. specialize (HQ _ eq_refl). unfold wp, ask. destruct (f (net (conn s))) as [[[a|e]|] t]; exact HQ.
Qed.

Lemma ok_outcome l x s : driver_ok l s → driver_ok l (set_outcome x s).
Proof. by intros [S1 S2 S3 S4 S5 D4 D5 Dr D6 Dg D7 D8 Dt Ds D9 Dw]. Qed.

(** The answer of [poll_shutdown], and what [handle] returns then. *)
Lemma wp_close l code dflt s :
  driver_ok l s →
  closing_with s = Some code ∨ code = H3_NO_ERROR ∧ ongoing s = [] ∧ shutdown s = true ∧ drain_grace s = Some true →
  wp (_ ← ready (ask (poll_shutdown code));
      s ← self;
      _ ← modify (set_outcome None);
      finish (default dflt (outcome_ s))) (λ o s', kept l o s' ∧ (o = Done true → CloseAsked code ∈ requests (net (conn s'))) ∧ o ≠ Done false) s.
Proof.
  intros Hs Hc. apply wp_bind, wp_ready, wp_ask_net. intros r E. pose proof (requests_shutdown code (net (conn s))) as Hr.
  cbn zeta. set (s1 := set_conn _ s). assert (driver_ok l s1) as Hs1.
  { apply (ok_net l s _ [CloseAsked code]); [done|done|apply history_shutdown|done| |].
    { intros id c ?%list_elem_of_singleton. done. }
    intros c [[= ->]|?%elem_of_nil]%elem_of_cons; [|done]. destruct Hc as [?|(-> & Hc)]; [by left|right; by split]. }
  destruct r as [[u|e]|]; cbn [andthen]; [|split; [done|by split]|split; [done|by split]].
  apply wp_self, wp_bind. change (wp (finish (default dflt (outcome_ s1))) (λ o s', kept l o s' ∧ (o = Done true → CloseAsked code ∈ requests (net (conn s'))) ∧ o ≠ Done false) (set_outcome None s1)).
  destruct (default dflt (outcome_ s1)) as [u'|e]; (split; [by apply ok_outcome|]; split; [|done]); [|done].
  intros _. unfold wp. cbn [snd]. change (CloseAsked code ∈ requests (net (conn s1))). unfold s1. cbn. rewrite Hr. apply elem_of_app. right. by left.
Qed.

Lemma ok_send_goaway l s :
  driver_ok l s → shutdown s = true → goaway_sent (controls (conn s)) = None →
  driver_ok l (set_conn (MkConn (send_goaway (last_request_id s) (controls (conn s))) (shared (conn s)) (net (conn s))) s).
Proof.
  intros [S1 S2 S3 S4 S5 D4 D5 Dr D6 Dg D7 D8 Dt Ds D9 Dw] Hs Hg. unfold send_goaway. rewrite Hg in *.
  rewrite served_none in S2.
  assert (∀ id, id ∈ arrived s → served (Some (last_request_id s)) id = true) as Hall.
  { intros id Hid. apply Z.leb_le. rewrite Forall_forall in S3. by apply S3. }
  split; cbn; try done.
  - by rewrite S2, served_all.
  - intros id Hid Hn. specialize (Hall id Hid). cbn in Hall. congruence.
  - intros id c Hin. destruct (S5 id c Hin) as [?|(_ & _ & [=])]. by left.
Qed.

Lemma ok_grace l x s : driver_ok l s → (drain_grace s = Some true → x = Some true) → (x = Some true → GraceRan ∈ l.1) →
  driver_ok l (set_drain_grace x s).
Proof.
  intros [S1 S2 S3 S4 S5 D4 D5 Dr D6 Dg D7 D8 Dt Ds D9 Dw] Hx Hg. split; try done.
  intros c Hc. destruct (D6 c Hc) as [?|(? & ? & ? & Hgr)]; [by left|right]. repeat split; auto.
Qed.

(** The connection is closed, or goes on with nothing asked and, in a shutdown,
    GOAWAY sent. *)
Lemma safe_shut_down l s :
  driver_ok l s → shutdown s = true →
  wp shut_down (λ o s', kept l o s' ∧ (o = Done false → open s')
    ∧ (o = Done true → ∃ c, CloseAsked c ∈ requests (net (conn s')))) s.
Proof.
  intros Hs Hsh. unfold shut_down. apply wp_self. destruct (closing_with s) as [code|] eqn:Ec.
  { eapply wp_mono; [apply (wp_close l code (Err (ConnectionError code)) s Hs); by left|].
    intros o s' (? & ? & ?). split; [done|]. split; [done|]. eauto. }
  apply wp_bind. set (s1 := if bool_decide (goaway_sent (controls (conn s)) = None)
    then set_conn (MkConn (send_goaway (last_request_id s) (controls (conn s))) (shared (conn s)) (net (conn s))) s else s).
  assert (driver_ok l s1 ∧ is_Some (goaway_sent (controls (conn s1))) ∧ closing_with s1 = None ∧ shutdown s1 = true
    ∧ ongoing s1 = ongoing s ∧ drain_grace s1 = drain_grace s) as (Hs1 & Hg & Hc1 & Hsh1 & Ho & Hgr).
  { unfold s1. case_bool_decide as Hg.
    - split; [by apply ok_send_goaway|]. cbn. unfold send_goaway. rewrite Hg. cbn. eauto.
    - split; [done|]. split; [|done]. by destruct (goaway_sent _). }
  assert (∀ k, wp k (λ o s', kept l o s' ∧ (o = Done false → open s')
      ∧ (o = Done true → ∃ c, CloseAsked c ∈ requests (net (conn s')))) s1 →
    wp (if bool_decide (goaway_sent (controls (conn s)) = None)
        then modify (λ s, set_conn (MkConn (send_goaway (last_request_id s) (controls (conn s))) (shared (conn s)) (net (conn s))) s)
        else mret ()) (andthen (λ _, k) (λ o s', kept l o s' ∧ (o = Done false → open s')
      ∧ (o = Done true → ∃ c, CloseAsked c ∈ requests (net (conn s'))))) s) as Hk.
  { intros k Hk. unfold s1 in Hk. by case_bool_decide. }
  apply Hk. clear Hk. rewrite <- Ho, <- Hgr. case_bool_decide as Hon.
  - apply wp_bind, wp_modify. cbn [andthen]. set (s2 := set_drain_grace (Some (default false (drain_grace s1))) s1).
    assert (driver_ok l s2) as Hs2.
    { apply ok_grace; [done|by intros ->|]. intros E. apply (do_grace l s1 Hs1). by destruct (drain_grace s1) as [[]|]. }
    assert (default false (drain_grace s1) = false → ∀ c, CloseAsked c ∉ requests (net (conn s1))) as Hnone.
    { intros Hd c Hin. destruct (do_close l s1 Hs1 c Hin) as [?|(_ & _ & _ & Hgr1)]; [congruence|]. by rewrite Hgr1 in Hd. }
    destruct (default false (drain_grace s1)) eqn:Ed.
    + eapply wp_mono; [apply (wp_close l H3_NO_ERROR (Ok ()) s2 Hs2); right; by repeat split|].
      intros o s' (? & ? & ?). split; [done|]. split; [done|]. eauto.
    + split; [done|]. split; [|done]. intros _. split; [by apply Hnone|done].
  - split; [done|]. split; [|done]. intros _. split; [|done]. intros c Hin.
    destruct (do_close l s1 Hs1 c Hin) as [?|(_ & ? & _)]; congruence.
Qed.

(** *** Accepting *)

Lemma arrivals_new t id l : arrivals (requests t) = l → (poll_accept t).1 = Ready (Ok (Some id)) → id ∉ l.
Proof. intros <- E. rewrite elem_of_arrivals. by apply arrived_new. Qed.

(** Whether a stream that has just arrived is refused. *)
Definition refused (s : Driver T) (id : Z) : bool :=
  shutdown s && match last_sent s with None => true | Some last => last <? id end.

Lemma refused_served l s id : driver_ok l s → open s → refused s id = negb (served (last_sent s) id).
Proof.
  intros Hs [_ Hgo]. pose proof (do_goaway_shut l s Hs) as Hsh. unfold refused, served. destruct (last_sent s) as [g|] eqn:Eg.
  - rewrite (Hsh ltac:(eauto)). cbn. by rewrite Z.leb_antisym, negb_involutive.
  - destruct (shutdown s); [by destruct (Hgo eq_refl)|done].
Qed.

(** The state in which a stream has arrived, before it goes on. *)
Definition arriving_at (s : Driver T) (t : T) (id : Z) : Driver T :=
  set_accept_sleep (if accept_timeout opts then (λ _, false) <$> accept_sleep s else None)
    (saw_request id (set_conn (MkConn (controls (conn s)) (shared (conn s)) t) s)).

Lemma arrived_fresh l s t id : driver_ok l s → poll_accept (net (conn s)) = (Ready (Ok (Some id)), t) →
  arrivals (requests t) = arrived s ++ [id] ∧ NoDup (arrived s ++ [id]) ∧ history t = history (net (conn s))
  ∧ Forall (λ i, i ≤ Z.max (last_request_id s) id) (arrived s ++ [id]).
Proof.
  intros Hs E. pose proof (requests_accept (net (conn s))) as Hr. pose proof (history_arrival (net (conn s))) as Hh.
  pose proof (arrivals_new (net (conn s)) id _ eq_refl ltac:(by rewrite E)) as Hnew. rewrite E in Hr, Hh. cbn in Hr, Hh.
  split; [by rewrite Hr, arrivals_snoc|]. split; [|split; [done|]].
  - apply NoDup_app. split; [apply (do_once l s Hs)|]. split; [|apply NoDup_singleton]. by intros x Hx ->%list_elem_of_singleton.
  - apply Forall_app. split; [|apply Forall_singleton; lia]. eapply Forall_impl; [apply (do_last l s Hs)|]. cbn. lia.
Qed.

(** A task is spawned, or the stream is reset. *)
Lemma ok_spawned l s t id :
  driver_ok l s → open s → poll_accept (net (conn s)) = (Ready (Ok (Some id)), t) → served (last_sent s) id = true →
  driver_ok l (spawn id (arriving_at s t id)) ∧ open (spawn id (arriving_at s t id)).
Proof.
  intros Hs [Hno Hgo] E Hsv. destruct (arrived_fresh l s t id Hs E) as (Ha & Hnd & Hh & Hlast).
  pose proof (requests_accept (net (conn s))) as Hr. rewrite E in Hr. cbn [fst snd arrival_event] in Hr.
  assert (∀ ev, ev ∈ requests t → ev ∈ requests (net (conn s)) ∨ ev = Arrived id) as Hin.
  { intros ev. rewrite Hr, elem_of_app. by intros [?|?%list_elem_of_singleton]; [left|right]. }
  assert (∀ c, CloseAsked c ∉ requests t) as Hno' by (intros c [?|[=]]%Hin; by apply (Hno c)).
  split; [|by split]. destruct Hs as [S1 S2 S3 S4 S5 D4 D5 Dr D6 Dg D7 D8 Dt Ds D9 Dw].
  unfold arriving_at. split; cbn; rewrite ?Ha, ?Hh; try done.
  - by rewrite served_snoc, Hsv, S2.
  - intros i [Hi| ->%list_elem_of_singleton]%elem_of_app Hf; [|congruence]. rewrite Hr. apply elem_of_app. left. by apply S4.
  - intros i c [Hi|[=]]%Hin. destruct (S5 i c Hi) as [?|(? & ? & ?)]; [by left|right]. split_and!; try done. apply elem_of_app. by left.
  - rewrite fmap_app. by apply sublist_app.
  - intros i [Hi| ->%list_elem_of_singleton]%elem_of_app.
    + destruct (Dr i Hi) as [?|?]; [left|by right]. apply elem_of_app. by left.
    + left. apply elem_of_app. right. by left.
  - intros c Hc. by destruct (Hno' c).
  - destruct (accept_timeout opts); [done|by intros [? ?]].
  - destruct (accept_timeout opts); [by destruct (accept_sleep s)|done].
  - intros Hd. destruct (D9 Hd) as [told Ht]. exists told. unfold inv in *. cbn [net controls]. by rewrite Hh.
  - intros Hsh. eapply wind_down_grow; [by apply Dw|done|done|]. cbn. by rewrite Hh.
Qed.

Lemma ok_rejected l s t id :
  driver_ok l s → open s → poll_accept (net (conn s)) = (Ready (Ok (Some id)), t) → served (last_sent s) id = false →
  let s' := arriving_at s (poll_reset id H3_REQUEST_REJECTED t).2 id in driver_ok l s' ∧ open s'.
Proof.
  intros Hs [Hno Hgo] E Hsv s'. destruct (arrived_fresh l s t id Hs E) as (Ha & Hnd & Hh & Hlast).
  pose proof (requests_accept (net (conn s))) as Hr. rewrite E in Hr. cbn [fst snd arrival_event] in Hr.
  set (t' := (poll_reset id H3_REQUEST_REJECTED t).2) in *.
  assert (requests t' = requests (net (conn s)) ++ [Arrived id; ResetAsked id H3_REQUEST_REJECTED]) as Hr'.
  { unfold t'. by rewrite requests_reset, Hr, <- app_assoc. }
  assert (history t' = history (net (conn s))) as Hh' by (unfold t'; by rewrite history_reset).
  assert (arrivals (requests t') = arrived s ++ [id]) as Ha' by (by rewrite Hr', arrivals_app).
  assert (∀ c, CloseAsked c ∉ requests t') as Hno'.
  { intros c. rewrite Hr', elem_of_app, !elem_of_cons, elem_of_nil. intros [?|[[=]|[[=]|[]]]]. by apply (Hno c). }
  split; [|by split]. destruct Hs as [S1 S2 S3 S4 S5 D4 D5 Dr D6 Dg D7 D8 Dt Ds D9 Dw].
  unfold s', arriving_at. split; cbn; rewrite ?Ha', ?Hh'; try done.
  - by rewrite served_snoc, Hsv, app_nil_r.
  - intros i Hi Hf. rewrite Hr'. apply elem_of_app. apply elem_of_app in Hi as [Hi| ->%list_elem_of_singleton]; [left; by apply S4|right; set_solver].
  - intros i c. rewrite Hr', elem_of_app, !elem_of_cons, elem_of_nil. intros [Hi|[[=]|[[= -> ->]|[]]]].
    + destruct (S5 i c Hi) as [?|(? & ? & ?)]; [by left|right]. split_and!; try done. apply elem_of_app. by left.
    + right. split_and!; try done. apply elem_of_app. right. by left.
  - intros c Hc. by destruct (Hno' c).
  - destruct (accept_timeout opts); [done|by intros [? ?]].
  - destruct (accept_timeout opts); [by destruct (accept_sleep s)|done].
  - intros Hd. destruct (D9 Hd) as [told Ht]. exists told. unfold inv in *. cbn [net controls]. by rewrite Hh'.
  - intros Hsh. eapply wind_down_grow; [by apply Dw|done|done|]. cbn. by rewrite Hh'.
Qed.

Lemma safe_take l s t id :
  driver_ok l s → open s → poll_accept (net (conn s)) = (Ready (Ok (Some id)), t) →
  wp (take_stream opts id) (λ o s', o = Done () ∧ driver_ok l s' ∧ open s')
    (set_conn (MkConn (controls (conn s)) (shared (conn s)) t) s).
Proof.
  intros Hs Ho E. pose proof (refused_served l s id Hs Ho) as Href. unfold take_stream.
  apply wp_bind, wp_modify. cbn [andthen]. apply wp_self, wp_bind, wp_modify. cbn [andthen].
  change (shutdown _ && _) with (refused s id). rewrite Href.
  change (wp (if negb (served (last_sent s) id) then call_and_forget (poll_reset id H3_REQUEST_REJECTED) else modify (spawn id))
    (λ o s', o = Done () ∧ driver_ok l s' ∧ open s') (arriving_at s t id)).
  destruct (served (last_sent s) id) eqn:Es; apply wp_modify; (split; [done|]).
  - by apply ok_spawned.
  - exact (ok_rejected l s t id Hs Ho E Es).
Qed.

Lemma safe_accept l fuel : ∀ s, driver_ok l s → open s →
  wp (accept_streams opts fuel) (λ o s', kept l o s') s.
Proof.
  induction fuel as [|fuel IH]; intros s Hs Ho; [done|]. cbn [accept_streams]. apply wp_bind, wp_ask_net. intros r E. cbn zeta.
  pose proof (requests_accept (net (conn s))) as Hr. pose proof (history_arrival (net (conn s))) as Hh.
  destruct (poll_accept (net (conn s))) as [r' t] eqn:Ea. cbn [fst snd] in *. subst r'.
  assert (arrival_event r = [] → driver_ok l (set_conn (MkConn (controls (conn s)) (shared (conn s)) t) s)) as Hsame.
  { intros Hn. rewrite Hn in Hr. apply (ok_net l s t []); [done|done|done|done|by intros id c ?%elem_of_nil|by intros c ?%elem_of_nil]. }
  destruct r as [[[id|]|e]|]; cbn [andthen]; try (by apply Hsame). apply wp_bind.
  eapply wp_mono; [by apply (safe_take l s t id)|]. intros o s' (-> & Hs' & Ho'). by apply IH.
Qed.

(** A task that has ended is dropped. *)
Lemma drop_ended_spec l rest : drop_ended l = Some rest →
  ∃ l1 id l2, l = l1 ++ (id, true) :: l2 ∧ rest = l1 ++ l2.
Proof.
  revert rest. induction l as [|[id ended] l IH]; [done|]. intros rest. cbn. destruct ended.
  - intros [= <-]. by exists [], id, l.
  - destruct (drop_ended l) as [l'|]; [|done]. intros [= <-]. destruct (IH l' eq_refl) as (l1 & i & l2 & -> & ->).
    by exists ((id, false) :: l1), i, l2.
Qed.

Lemma safe_collect log : safe (log, false) collect.
Proof.
  intros s Hs. unfold collect. apply wp_self. destruct (drop_ended (ongoing s)) as [rest|] eqn:E; [|done].
  apply wp_bind, wp_modify. destruct (drop_ended_spec _ _ E) as (l1 & id & l2 & El & ->).
  destruct Hs as [S1 S2 S3 S4 S5 D4 D5 Dr D6 Dg D7 D8 Dt Ds D9 Dw]. rewrite El in D5, Dr. split; try done; cbn.
  - etransitivity; [|exact D5]. rewrite !fmap_app, fmap_cons. apply sublist_app; [done|]. by apply sublist_cons.
  - intros i Hi. destruct (Dr i Hi) as [Hin|?]; [left|by right].
    apply elem_of_app in Hin as [?|[[=]|?]%elem_of_cons]; apply elem_of_app; auto.
  - intros c Hin. destruct (D6 c Hin) as [?|(? & Ho & ? & ?)]; [by left|]. rewrite Ho in E. done.
  - intros Hsl. by destruct (Ds Hsl) as [[=] _].
Qed.
End invariant.
