(* ===== verification/H3DriverRuns.v ===== *)
(** * Runs of the driver of an HTTP/3 connection

    A run is any sequence of polls of [handle], with anything the request tasks,
    the timers, the transport and the shutdown token do in between.  The
    invariant of H3DriverSpec holds in each of its states; what it says of the
    streams accepted and of the codes the connection is closed with are the
    theorems of this file; and over a transport with finitely much to deliver
    every poll of a run comes back. *)

From S2P Require Import Prelude H3Error Varint Incremental H3Frame H3Settings QpackTable QpackString QpackDecoder QpackEncoder Poll H3Transport H3Endpoint H3Shared H3Reading H3Control H3ControlSpec H3ControlLoop H3Resets H3Driver H3DriverSpec.

(** ** A poll keeps the invariant *)

Section poll.
Context {T : Type} `{RecordedEndpoint T} (opts : Http3Options).

Lemma ok_open reported s : driver_ok opts reported s → shutdown s = false → open s.
Proof.
  intros Hs Hsh. split; [|congruence]. intros c Hin.
  destruct (do_close opts reported s Hs c Hin) as [Hc|(_ & _ & ? & _)]; [|congruence].
  destruct (do_closing opts reported s Hs c Hc). congruence.
Qed.

Lemma safe_control reported fuel : safe opts reported (poll_control fuel).
Proof.
  intros s Hs. unfold poll_control. apply wp_self. destruct (control_dead s) eqn:E; [done|]. by apply safe_events.
Qed.

(** The end of a turn. *)
Lemma safe_rest log fuel s : driver_ok opts (log, false) s → open s →
  wp (ended ← accept_streams opts fuel;
      if ended : bool then mret Return
      else again ← collect; mret (if again : bool then Again else Park)) (kept opts (log, false)) s.
Proof.
  intros Hs Ho. apply wp_bind. eapply wp_mono; [by apply safe_accept|].
  intros [[]|e| |] s' Hs'; try done. cbn [andthen]. apply safe_bind; [apply safe_collect|by intros a ? ?|done].
Qed.

Lemma safe_end log fuel : safe opts (log, false)
  (s ← self;
   closed ← (if shutdown s then shut_down else mret false);
   if closed : bool then mret Return
   else
     ended ← accept_streams opts fuel;
     if ended : bool then mret Return
     else again ← collect; mret (if again : bool then Again else Park)).
Proof.
  intros s Hs. apply wp_self, wp_bind. destruct (shutdown s) eqn:E.
  - eapply wp_mono; [by apply safe_shut_down|]. intros [[]|e| |] s' (Hk & Ho & _); try done.
    cbn [andthen]. apply safe_rest; auto.
  - cbn [andthen]. apply safe_rest; [done|by eapply ok_open].
Qed.

Lemma safe_turn reported fuel : safe opts reported (turn opts fuel).
Proof.
  unfold turn. apply safe_bind; [apply safe_reported|intros _]. intros s Hs. apply wp_bind.
  eapply wp_mono; [by apply (wp_watch_accept opts reported)|].
  assert (∀ A (o : outcome DriverError A) s', kept opts (reported.1, false) o s' → kept opts reported o s') as Hkept.
  { intros A [a|e| |] s' Hk; try done; by apply ok_unseen. }
  intros [[fired|]|e| |] s' [Hs' Hf]; try (by apply Hkept). cbn [andthen]. eapply wp_mono; [|apply Hkept].
  apply safe_bind; [apply safe_shutdown; by intros ->; apply Hf| |done]. intros _.
  apply safe_bind; [apply safe_hand|intros _]. apply safe_bind; [apply safe_flush|intros _].
  apply safe_bind; [apply safe_control|intros _]. apply safe_end.
Qed.

Lemma safe_turns reported fuel turns : safe opts reported (run_turns opts fuel turns).
Proof.
  induction turns as [|turns IH]; [by intros s Hs|]. cbn [run_turns].
  apply safe_bind; [apply safe_turn|]. intros []; [exact IH|by intros s|by intros s].
Qed.

Lemma safe_set_up reported : safe opts reported set_up.
Proof.
  intros s Hs. unfold set_up. apply wp_self. destruct (started s); [done|]. apply wp_bind.
  eapply wp_mono; [apply (safe_conn opts reported)|].
  - exact Hs.
  - apply within_bind; [typeclasses eauto|apply apart_init|intros _; apply apart_flush].
  - intros evs Hi. exists []. rewrite app_nil_r. eapply control_inv_quiet; [exact Hi|].
    apply within_bind; [typeclasses eauto|apply quiet_init|intros _; apply quiet_flush].
  - intros o s' [-> Hs']. cbn [andthen]. destruct (fst _); try done. by destruct Hs'.
Qed.

Lemma safe_poll reported fuel : safe opts reported (poll_driver opts fuel).
Proof. apply safe_bind; [apply safe_set_up|]. intros _. apply safe_turns. Qed.
End poll.

(** ** Runs *)

Section runs.
Context {T : Type} `{RecordedEndpoint T} (opts : Http3Options).

(** Request tasks reset and stop streams. *)
Definition by_task (ev : request_event) : Prop :=
  match ev with ResetAsked _ _ | StopAsked _ _ => True | Arrived _ | CloseAsked _ => False end.

(** What happens between two polls: a task ends, is counted against a budget,
    reports a code; a timer runs out; the token is cancelled; request tasks use
    the codecs and the transport, but do not read the streams of the control
    plane. *)
Inductive meanwhile : Driver T → list happening → Driver T → Prop :=
| MEnd s l id r : ongoing s = l ++ (id, false) :: r → meanwhile s [TaskEnded id] (set_ongoing (l ++ (id, true) :: r) s)
| MCount s r : close_code r = close_code (resets s) → meanwhile s [] (set_resets r s)
| MReport s c : meanwhile s [Reported c] (set_resets (set_close_code (Some c) (resets s)) s)
| MAccept s : accept_sleep s = Some false → meanwhile s [TimerRan (ongoing s)] (set_accept_sleep (Some true) s)
| MGrace s : drain_grace s = Some false → meanwhile s [GraceRan] (set_drain_grace (Some true) s)
| MCancel s : meanwhile s [] (set_cancelled s)
| MTask s sh t k evs : history t = history (net (conn s)) ++ k →
    (∀ id, id ∈ roles (inbound (controls (conn s))) → received id k = []) →
    requests t = requests (net (conn s)) ++ evs → Forall by_task evs →
    meanwhile s (TaskAsked <$> evs) (set_conn (MkConn (controls (conn s)) sh t) s).

(** The polls of one [handle], with what happened between them so far. *)
Inductive runs (now : Z) (t : T) : list happening → Driver T → Prop :=
| RStart : runs now t [] (new_driver opts now t)
| RPoll log s fuel s' : runs now t log s → poll_driver opts fuel s = (Wait, s') → runs now t log s'
| RMeanwhile log s more s' : runs now t log s → meanwhile s more s' → runs now t (log ++ more) s'.

Lemma ok_start now t : requests t = [] → history t = [] → driver_ok opts ([], true) (new_driver opts now t).
Proof.
  intros Hr Hh. split; cbn; rewrite ?Hr; try done.
  - constructor.
  - by intros id c ?%elem_of_nil.
  - by intros id ?%elem_of_nil.
  - by intros c ?%elem_of_nil.
  - intros _. exists []. by apply start_inv.
Qed.

Lemma wind_down_more log more s : wind_down opts log s → wind_down opts (log ++ more) s.
Proof. intros [?|[?|[?|[? ?]]]]; [by left|by (right; left)|by (right; right; left)|]. right. right. right. split; [done|]. apply elem_of_app. by left. Qed.

Lemma ok_more log more b s : driver_ok opts (log, b) s → driver_ok opts (log ++ more, b) s.
Proof.
  assert (∀ x, x ∈ log → x ∈ log ++ more) as Hin by (intros; apply elem_of_app; by left).
  intros [S1 S2 S3 S4 S5 D4 D5 Dr D6 Dg D7 D8 Dt Ds D9 Dw]. cbn [fst snd] in *. split; cbn [fst snd]; try done; eauto using wind_down_more.
  - intros id c Hc. destruct (S5 id c Hc); auto.
  - intros id Hid. destruct (Dr id Hid); auto.
  - intros c Hc. destruct (D7 c Hc) as (? & ? & [?|Hg]); (split; [done|]; split; [done|]); [left; auto|by right].
  - intros Hs. destruct (Ds Hs). auto.
Qed.

Lemma tasks_arrive_nothing evs : Forall by_task evs → arrivals evs = [] ∧ ∀ c, CloseAsked c ∉ evs.
Proof.
  induction 1 as [|ev evs Hev _ [IH1 IH2]]; [by split; [|intros c ?%elem_of_nil]|]. split.
  - unfold arrivals in *. cbn. by destruct ev.
  - intros c [<-|Hin]%elem_of_cons; [done|]. by apply (IH2 c).
Qed.

Lemma ok_task log b s sh t k evs : driver_ok opts (log, b) s →
  history t = history (net (conn s)) ++ k → (∀ id, id ∈ roles (inbound (controls (conn s))) → received id k = []) →
  requests t = requests (net (conn s)) ++ evs → Forall by_task evs →
  driver_ok opts (log ++ (TaskAsked <$> evs), b) (set_conn (MkConn (controls (conn s)) sh t) s).
Proof.
  intros Hs Hh Hk Hr Hev. apply (ok_more _ (TaskAsked <$> evs)) in Hs as [S1 S2 S3 S4 S5 D4 D5 Dr D6 Dg D7 D8 Dt Ds D9 Dw].
  destruct (tasks_arrive_nothing evs Hev) as [Ha Hc].
  assert (history (net (conn s)) `prefix_of` history t) as Hp by (rewrite Hh; by eexists).
  split; cbn; rewrite ?Hr, ?arrivals_app, ?Ha, ?app_nil_r; try done.
  - intros id Hid Hf. apply elem_of_app. left. by apply S4.
  - intros id c [Hin|Hin]%elem_of_app; [by apply S5|]. left. apply elem_of_app. right. by apply list_elem_of_fmap_2.
  - intros c [Hin|Hin]%elem_of_app; [by apply D6|by destruct (Hc c)].
  - intros c Hcl. destruct (D7 c Hcl) as (? & ? & Hg). split; [done|]. split; [done|]. by eapply grounds_grow.
  - intros Hd. destruct (D9 Hd) as [told Ht]. exists told. by eapply inv_silent.
  - intros Hsh. by eapply wind_down_grow; [apply Dw| | |].
Qed.

Lemma ok_meanwhile log s more s' :
  driver_ok opts (log, true) s → meanwhile s more s' → driver_ok opts (log ++ more, true) s'.
Proof.
  intros Hs Hm. destruct Hm as [s l id r E|s r E|s c|s E|s E|s|s sh t k evs Hh Hk Hr Hev]; [..|by eapply ok_task];
    match goal with |- driver_ok _ (_ ++ ?more, _) _ => apply (ok_more log more true) in Hs as Hs' end;
    [..|apply ok_grace; [done|done|intros _; apply elem_of_app; right; by left]|];
    destruct Hs' as [S1 S2 S3 S4 S5 D4 D5 Dr D6 Dg D7 D8 Dt Ds D9 Dw]; split; try done; cbn.
  - rewrite E in D5. rewrite fmap_app, fmap_cons in *. exact D5.
  - intros i Hi. destruct (Dr i Hi) as [Hin|?]; [|by right]. rewrite E in Hin.
    apply elem_of_app in Hin as [?|[[= ->]|?]%elem_of_cons]; [left|right|left]; apply elem_of_app;
      [by left|right; by left|right; by right].
  - intros c Hin. destruct (D6 c Hin) as [?|(? & Ho & _)]; [by left|]. rewrite Ho in E. by destruct l.
  - intros Hsl. split; [done|]. by destruct l.
  - by rewrite E.
  - intros c' [= <-]. apply elem_of_app. right. by left.
  - intros _. apply Dt. by rewrite E.
  - intros _. split; [done|]. intros ->. apply elem_of_app. right. by left.
  - intros Hsh. destruct (Dw Hsh) as [?|[?|?]]; [by left|right; by left|by do 2 right].
Qed.

Lemma runs_ok now t log s : requests t = [] → history t = [] → runs now t log s → driver_ok opts (log, true) s.
Proof.
  intros Hr Hh. induction 1 as [|log s fuel s' _ IH E|log s more s' _ IH Hm].
  - by apply ok_start.
  - pose proof (safe_poll opts (log, true) fuel s IH) as Hp. unfold wp in Hp. by rewrite E in Hp.
  - by eapply ok_meanwhile.
Qed.

(** A poll in a run. *)
Lemma poll_ok now t log s fuel o s' : requests t = [] → history t = [] → runs now t log s →
  poll_driver opts fuel s = (o, s') → o ≠ Stuck → driver_ok opts (log, true) s'.
Proof.
  intros Hr Hh Hrun E Ho. pose proof (safe_poll opts (log, true) fuel s (runs_ok now t log s Hr Hh Hrun)) as Hp.
  unfold wp in Hp. rewrite E in Hp. cbn in *. by destruct o.
Qed.
End runs.

(** ** More fuel *)

Section fuel.
Context {T : Type} `{RecordedEndpoint T}.

(** *** The control plane needs none to write *)

Lemma unstuck_call {A} (f : T → poll (result TransportError A) * T) : unstuck (call f).
Proof. intros s. unfold call. by destruct (f (net s)) as [[[a|e]|] t]. Qed.

Lemma unstuck_controls f : unstuck (on_controls (T:=T) f).
Proof. by intros s. Qed.

Lemma unstuck_queue id pop q : unstuck (flush_queue (T:=T) id pop q).
Proof. induction q as [|x q IH]; cbn [flush_queue]; unsticks; auto using unstuck_call, unstuck_controls. Qed.

Lemma unstuck_flush : unstuck (poll_flush (T:=T)).
Proof. unfold poll_flush. unsticks; auto using unstuck_queue, unstuck_call, unstuck_controls. Qed.

Lemma unstuck_init : unstuck (poll_init (T:=T)).
Proof. unfold poll_init. unsticks; auto using unstuck_call, unstuck_controls. Qed.

(** *** The parts of a turn *)

Context (opts : Http3Options).

Lemma unstuck_ask {A} (f : T → poll (result TransportError A) * T) : unstuck (ask f).
Proof. intros s. unfold ask. by destruct (f (net (conn s))) as [[[a|e]|] t]. Qed.

Lemma unstuck_conn {A} (m : op (Conn T) ControlError A) : unstuck (on_conn m).
Proof. by intros s. Qed.

(** A call of the control plane that needs no fuel. *)
Lemma unstuck_on {A B} (m : op (Conn T) ControlError A) (f : outcome ControlError A → op (Driver T) DriverError B) :
  unstuck m → (∀ o, o ≠ Stuck → unstuck (f o)) → unstuck (on_conn m ≫= f).
Proof. intros Hm Hf s. unfold mbind, op_bind, on_conn. by apply Hf. Qed.

Lemma unstuck_set_up : unstuck (set_up (T:=T)).
Proof.
  apply unstuck_self. intros s. destruct (started s); [by intros ?|]. apply unstuck_on; [unsticks; auto using unstuck_init, unstuck_flush|]. intros []; try done; intros _; unsticks.
Qed.

Lemma unstuck_failed e : unstuck (control_failed (T:=T) e).
Proof. unfold control_failed. unsticks. Qed.

Lemma unstuck_flush_control : unstuck (flush_control (T:=T)).
Proof.
  apply unstuck_self. intros s. destruct (control_dead s); [by intros ?|]. apply unstuck_on; [apply unstuck_flush|]. intros []; try done; intros _; unsticks; apply unstuck_failed.
Qed.

Lemma unstuck_shut_down : unstuck (shut_down (T:=T)).
Proof. unfold shut_down, finish. unsticks; apply unstuck_ask. Qed.

Lemma unstuck_collect : unstuck (collect (T:=T)).
Proof. unfold collect. unsticks. Qed.

Lemma unstuck_reported : unstuck (take_reported (T:=T)).
Proof. unfold take_reported. unsticks. Qed.

Lemma unstuck_watch_accept : unstuck (watch_accept (T:=T) opts).
Proof. unfold watch_accept. unsticks. Qed.

Lemma unstuck_watch_shutdown fired : unstuck (watch_shutdown (T:=T) fired).
Proof. unfold watch_shutdown. unsticks. Qed.

Lemma unstuck_take id : unstuck (take_stream (T:=T) opts id).
Proof. unfold take_stream, call_and_forget. unsticks. Qed.

(** *** More fuel *)

Lemma conn_steady {A} (m m' : op (Conn T) ControlError A) {B} (f f' : outcome ControlError A → op (Driver T) DriverError B) :
  steady m m' → (∀ o, steady (f o) (f' o)) → f Stuck = stuck → steady (on_conn m ≫= f) (on_conn m' ≫= f').
Proof.
  intros Hm Hf Hs s. specialize (Hm (conn s)). unfold mbind, op_bind, on_conn. destruct (m (conn s)) as [o x] eqn:E; cbn in *.
  intros Hn. assert (o ≠ Stuck) as Ho by (intros ->; by rewrite Hs in Hn). rewrite Hm by done. by apply Hf.
Qed.

Lemma events_steady fuel fuel' : (fuel ≤ fuel')%nat → ∀ n n', (n ≤ n')%nat →
  steady (read_events (T:=T) fuel n) (read_events fuel' n').
Proof.
  intros Hf. induction n as [|n IH]; intros n' Hn; [apply steady_stuck|]. destruct n' as [|n']; [lia|]. cbn [read_events].
  assert (steady (read_events (T:=T) fuel n) (read_events fuel' n')) as Hr by (apply IH; lia).
  apply conn_steady; [by apply read_steady| |done]. intros [[]|e| |]; steadies; exact Hr.
Qed.

Lemma accept_steady n : ∀ n', (n ≤ n')%nat → steady (accept_streams (T:=T) opts n) (accept_streams opts n').
Proof.
  induction n as [|n IH]; intros n' Hn; [apply steady_stuck|]. destruct n' as [|n']; [lia|]. cbn [accept_streams].
  steadies. apply IH. lia.
Qed.

Lemma control_fueled : fueled (poll_control (T:=T)).
Proof. intros n k Hk. unfold poll_control. steadies. by apply events_steady. Qed.

Lemma turn_fueled : fueled (turn (T:=T) opts).
Proof. intros n k Hk. unfold turn. steadies; [by apply control_fueled|by apply accept_steady]. Qed.

Lemma turns_steady fuel fuel' : (fuel ≤ fuel')%nat → ∀ n n', (n ≤ n')%nat →
  steady (run_turns (T:=T) opts fuel n) (run_turns opts fuel' n').
Proof.
  intros Hf. induction n as [|n IH]; intros n' Hn; [apply steady_stuck|]. destruct n' as [|n']; [lia|]. cbn [run_turns].
  steadies; [by apply turn_fueled|apply IH; lia].
Qed.

Lemma poll_fueled : fueled (poll_driver (T:=T) opts).
Proof. intros n k Hk. unfold poll_driver. steadies. by apply turns_steady. Qed.
End fuel.

(** ** A poll comes back *)

Section returning.
Context {T : Type} `{RecordedEndpoint T} `{!Finite T} `{!FiniteEndpoint T} (opts : Http3Options).

(** A call of [poll_read], with enough fuel and with any more. *)
Lemma read_once evs x : inv evs x → ∃ N o x', (∀ fuel, (N ≤ fuel)%nat → poll_read fuel x = (o, x')) ∧ o ≠ Stuck
  ∧ ∀ ev, o = Done ev → fewer (to_tell x') (to_tell x) ∧ inv (evs ++ [ev]) x'.
Proof.
  intros Hi. set (N := S (S (left_over x))). pose proof (read_ends N N evs x Hi) as He. unfold wp in He. fold (poll_read N) in He.
  assert ((poll_read N x).1 ≠ Stuck) as Hn.
  { intros E. rewrite E in He. apply He; [lia|]. case_bool_decide; lia. }
  exists N, (poll_read N x).1, (poll_read N x).2. split; [|split; [exact Hn|]].
  - intros fuel Hle. rewrite (read_steady N fuel Hle x Hn). by destruct (poll_read N x).
  - intros ev E. pose proof (read_fewer N N evs x Hi) as Hl. unfold wp in Hl. fold (poll_read N) in Hl. rewrite E in Hl.
    split; [apply Hl; lia|]. eapply (inv_read evs x N); [done|]. by apply ends_with.
Qed.

(** The loop over it: every event leaves less to tell. *)
Lemma events_return m : ∀ evs x, to_tell x = m → inv evs x →
  ∃ N, ∀ fuel n s, (N ≤ fuel)%nat → (N ≤ n)%nat → conn s = x → (read_events fuel n s).1 ≠ Stuck.
Proof.
  induction (fewer_wf m) as [m _ IH]. intros evs x <- Hi. destruct (read_once evs x Hi) as (N & o & x' & Hr & Ho & Hev).
  assert (∃ M, ∀ ev, o = Done ev → ∀ fuel n s, (M ≤ fuel)%nat → (M ≤ n)%nat → conn s = x' →
    (read_events fuel n s).1 ≠ Stuck) as [M HM].
  { destruct o as [ev|e| |]; [|by exists 0%nat..]. destruct (Hev ev eq_refl) as [Hf Hi'].
    destruct (IH _ Hf _ _ eq_refl Hi') as [M HM]. exists M. by intros ev' [= <-]. }
  exists (S (N + M)). intros fuel n s Hle Hn <-. destruct n as [|n]; [lia|]. cbn [read_events].
  unfold mbind at 1, op_bind at 1, on_conn. rewrite Hr by lia. cbn [fst snd].
  destruct o as [[p|id|id|id]|e| |]; try done; [|.. |apply unstuck_failed];
    try (eapply HM; [done|lia|lia|done]).
  unfold mbind, op_bind, self. destruct (shutdown _); (eapply HM; [done|lia|lia|done]).
Qed.

Lemma control_returns reported s : driver_ok opts reported s → enough poll_control s.
Proof.
  intros Hs. destruct (control_dead s) eqn:E.
  - exists 0%nat. intros fuel _. unfold poll_control, mbind, op_bind, self. by rewrite E.
  - destruct (do_control opts reported s Hs E) as [evs Hi]. destruct (events_return _ evs (conn s) eq_refl Hi) as [N HN].
    exists N. intros fuel Hle. unfold poll_control, mbind, op_bind, self. rewrite E. by apply HN.
Qed.

(** Accepting: every stream leaves fewer to come. *)
Lemma take_backlog id s : wp (take_stream opts id) (λ o s', o = Done () ∧ (backlog (net (conn s')) ≤ backlog (net (conn s)))%nat) s.
Proof.
  unfold take_stream. apply wp_bind, wp_modify, wp_self, wp_bind, wp_modify. cbn zeta.
  destruct (_ && _); apply wp_modify; (split; [done|]); cbn; [apply backlog_reset|done].
Qed.

Lemma accept_ends fuel : ∀ s, (backlog (net (conn s)) < fuel)%nat → (accept_streams opts fuel s).1 ≠ Stuck.
Proof.
  induction fuel as [|fuel IH]; intros s Hf; [lia|]. cbn [accept_streams]. pose proof (backlog_arrival (net (conn s))) as Hb.
  unfold mbind, op_bind, ask. destruct (poll_accept (net (conn s))) as [[[[id|]|e]|] t]; cbn in Hb |- *; try done.
  pose proof (take_backlog id (set_conn (MkConn (controls (conn s)) (shared (conn s)) t) s)) as Ht. unfold wp in Ht.
  destruct (take_stream opts id _) as [o s']. cbn in Ht. destruct Ht as [-> Ht]. apply IH. lia.
Qed.

Lemma accept_returns s : enough (accept_streams opts) s.
Proof. exists (S (backlog (net (conn s)))). intros fuel Hf. apply accept_ends. lia. Qed.

(** A turn comes to an end. *)
Lemma safe_returns reported {A B} (m : op (Driver T) DriverError A) (f : nat → A → op (Driver T) DriverError B) s :
  driver_ok opts reported s → unstuck m → safe opts reported m →
  (∀ a s', driver_ok opts reported s' → enough (λ fuel, f fuel a) s') → enough (λ fuel, m ≫= f fuel) s.
Proof.
  intros Hs Hu Hm Hf. apply enough_then; [done|]. eapply wp_mono; [by apply Hm|]. intros [a|e| |] s' Hs'; try done. by apply Hf.
Qed.

Lemma end_returns s : enough (λ fuel,
  s ← self;
  closed ← (if shutdown s then shut_down else mret false);
  if closed : bool then mret Return
  else
    ended ← accept_streams opts fuel;
    if ended : bool then mret Return
    else again ← collect; mret (if again : bool then Again else Park)) s.
Proof.
  apply (enough_then self); [done|]. apply enough_then; [unsticks; apply unstuck_shut_down|].
  unfold wp. destruct (fst _) as [[]|e| |]; try done; [by exists 0%nat|].
  apply enough_bind; [intros n k; apply accept_steady|apply accept_returns|].
  intros _ ended s' _. apply enough_unstuck. unsticks. apply unstuck_collect.
Qed.

Lemma turn_returns reported s : driver_ok opts reported s → enough (turn opts) s.
Proof.
  intros Hs. unfold turn. apply (safe_returns reported); [done|apply unstuck_reported|apply safe_reported|]. clear s Hs. intros _ s Hs.
  apply enough_then; [apply unstuck_watch_accept|]. eapply wp_mono; [by apply (wp_watch_accept opts reported)|].
  intros [[fired|]|e| |] s' [Hs' Hf]; try done; [|by apply enough_unstuck]. clear s Hs. rename s' into s, Hs' into Hs.
  apply (safe_returns (reported.1, false)); [done|apply unstuck_watch_shutdown|apply safe_shutdown; by intros ->; apply Hf|].
  clear s Hs Hf. intros _ s Hs.
  apply (safe_returns (reported.1, false)); [done|apply unstuck_conn|apply safe_hand|]. clear s Hs. intros _ s Hs.
  apply (safe_returns (reported.1, false)); [done|apply unstuck_flush_control|apply safe_flush|]. clear s Hs. intros _ s Hs.
  apply enough_bind; [apply control_fueled|by eapply control_returns|]. intros _ _ s' _. apply end_returns.
Qed.

(** *** The turns of a poll *)

(** The tasks that have ended are collected one a turn; the timer is armed when
    none is left. *)
Definition ended_tasks (s : Driver T) : nat := length (filter (λ x : Z * bool, x.2 = true) (ongoing s)).
Definition rounds (s : Driver T) : nat :=
  (2 * ended_tasks s + (if bool_decide (accept_sleep s = None) then 1 else 0))%nat.

(** Apart from the timer and the accept loop nothing touches the tasks. *)
Definition same_tasks (s s' : Driver T) : Prop := ongoing s' = ongoing s ∧ accept_sleep s' = accept_sleep s.

#[local] Instance same_tasks_preorder : PreOrder same_tasks.
Proof. unfold same_tasks. split; [by intros s|]. intros s1 s2 s3 [? ?] [? ?]. split; congruence. Qed.

Lemma tasks_conn {A} (m : op (Conn T) ControlError A) : within same_tasks (on_conn m).
Proof. by intros s. Qed.

Lemma tasks_modify f : (∀ s, same_tasks s (f s)) → within (E:=DriverError) same_tasks (modify f).
Proof. intros Hf. by apply within_modify. Qed.

Lemma tasks_ask {A} (f : T → poll (result TransportError A) * T) : within same_tasks (ask f).
Proof. intros s. unfold ask. by destruct (f (net (conn s))) as [[[a|e]|] t]. Qed.

Create HintDb tasks.
#[local] Hint Resolve tasks_conn tasks_ask : tasks.
#[local] Hint Extern 1 (within same_tasks (modify _)) => apply tasks_modify; done : tasks.

Lemma tasks_failed e : within same_tasks (control_failed e).
Proof. unfold control_failed. stays; auto with tasks. Qed.

Lemma tasks_events fuel n : within same_tasks (read_events fuel n).
Proof. induction n as [|n IH]; cbn [read_events]; stays; auto using tasks_failed with tasks. Qed.

Lemma tasks_shut_down : within same_tasks shut_down.
Proof. unfold shut_down, finish. stays; auto with tasks. Qed.

(** A shutdown that goes on without tasks waits for the grace period. *)
Lemma shut_down_grace s : wp shut_down (λ o s', o = Done false → ongoing s' = [] → drain_grace s' ≠ None) s.
Proof.
  unfold shut_down. apply wp_self. destruct (closing_with s) as [code|].
  - apply wp_bind, wp_ready, wp_ask_net. intros [[u|e]|] _; cbn [andthen]; try done. apply wp_self, wp_bind, wp_modify.
    cbn [andthen]. by destruct (default _ _).
  - apply wp_bind. assert (∀ s1, ongoing s1 = ongoing s → wp
      (if bool_decide (ongoing s = []) then
        _ ← modify (set_drain_grace (Some (default false (drain_grace s))));
        if default false (drain_grace s) then
          _ ← ready (ask (poll_shutdown H3_NO_ERROR));
          s ← self;
          _ ← modify (set_outcome None);
          finish (default (Ok ()) (outcome_ s))
        else mret false
      else mret false) (λ o s', o = Done false → ongoing s' = [] → drain_grace s' ≠ None) s1) as Hrest.
    { intros s1 E1. case_bool_decide as Ho; [|apply wp_ret; intros _ ?; congruence]. apply wp_bind, wp_modify. cbn [andthen].
      destruct (default false _); [|done]. apply wp_bind, wp_ready, wp_ask_net.
      intros [[u|e]|] _; cbn [andthen]; try done. apply wp_self, wp_bind, wp_modify. cbn [andthen]. by destruct (default _ _). }
    destruct (bool_decide (goaway_sent _ = None)); by apply Hrest.
Qed.

(** The accept loop adds tasks that run. *)
Definition more_tasks (s s' : Driver T) : Prop :=
  ended_tasks s' = ended_tasks s ∧ (ongoing s' = [] → ongoing s = []) ∧ shutdown s' = shutdown s ∧ drain_grace s' = drain_grace s.

#[local] Instance more_tasks_preorder : PreOrder more_tasks.
Proof.
  split; [by intros s|]. intros s1 s2 s3 (A1 & A2 & A3 & A4) (B1 & B2 & B3 & B4). unfold more_tasks. split_and!; [congruence|auto|congruence..].
Qed.

Lemma more_take id : within more_tasks (take_stream opts id).
Proof.
  intros s. unfold take_stream. run_op. set (refuse := shutdown s && _). destruct refuse; run_op; [by split|].
  unfold more_tasks, ended_tasks. cbn. rewrite filter_app, length_app, filter_cons_False by done. rewrite filter_nil. split; [cbn; lia|]. split; [|done]. by destruct (ongoing s).
Qed.

Lemma more_accept fuel : within more_tasks (accept_streams opts fuel).
Proof.
  induction fuel as [|fuel IH]; cbn [accept_streams]; stays; auto using more_take.
  intros s. unfold ask. by destruct (poll_accept (net (conn s))) as [[[a|e]|] t].
Qed.

Lemma drop_ended_fewer l rest : drop_ended l = Some rest →
  (length (filter (λ x : Z * bool, x.2 = true) rest) < length (filter (λ x : Z * bool, x.2 = true) l))%nat.
Proof.
  revert rest. induction l as [|[id []] l IH]; intros rest; cbn [drop_ended]; [done|by intros [= <-]; rewrite filter_cons_True by done; cbn [length]; lia|].
  destruct (drop_ended l) as [l'|]; [|done]. intros [= <-]. rewrite !filter_cons_False by done. by apply IH.
Qed.

(** Going round once more: a task that had ended was collected. *)
Lemma collect_fewer s : (shutdown s = true → ongoing s = [] → drain_grace s ≠ None) →
  wp collect (λ o s', o = Done true → (ended_tasks s' < ended_tasks s)%nat) s.
Proof.
  intros Hg. unfold collect. apply wp_self. destruct (drop_ended (ongoing s)) as [rest|] eqn:E.
  - apply wp_bind, wp_modify. intros _. by apply drop_ended_fewer.
  - apply wp_ret. intros [= [[Ho%bool_decide_eq_true_1 Hs]%andb_true_iff Hd%bool_decide_eq_true_1]%andb_true_iff]. by destruct (Hg Hs Ho).
Qed.

Lemma end_fewer fuel s : wp (
  s ← self;
  closed ← (if shutdown s then shut_down else mret false);
  if closed : bool then mret Return
  else
    ended ← accept_streams opts fuel;
    if ended : bool then mret Return
    else again ← collect; mret (if again : bool then Again else Park))
  (λ o s', o = Done Again → (ended_tasks s' < ended_tasks s)%nat) s.
Proof.
  apply wp_self, wp_bind. set (m := if shutdown s then shut_down else mret false).
  assert (wp m (λ o s', ongoing s' = ongoing s ∧ (o = Done false → shutdown s' = true → ongoing s' = [] → drain_grace s' ≠ None)) s) as Hm.
  { unfold m. destruct (shutdown s) eqn:E.
    - split; [apply (tasks_shut_down s)|]. intros Hd _. by apply (shut_down_grace s).
    - apply wp_ret. split; [done|]. congruence. }
  eapply wp_mono; [exact Hm|]. clear m Hm. intros [[]|e| |] s1 [E1 Hg]; try done. cbn [andthen]. apply wp_bind.
  pose proof (more_accept fuel s1) as Ha. unfold wp. destruct (accept_streams opts fuel s1) as [[[]|e| |] s2]; try done.
  cbn [fst snd] in Ha |- *. destruct Ha as (A1 & A2 & A3 & A4). cbn [andthen]. apply wp_bind.
  eapply wp_mono; [apply collect_fewer; rewrite A3, A4; auto|]. intros [[]|e| |] s3 Hc; try done. intros _.
  specialize (Hc eq_refl). unfold ended_tasks in *. cbn. rewrite E1 in A1. lia.
Qed.


(** A part of a turn that leaves the tasks alone. *)
Lemma tasks_then {A} (m : op (Driver T) DriverError A) (f : A → op (Driver T) DriverError Turn) n s :
  within same_tasks m → ended_tasks s = n →
  (∀ a s', ended_tasks s' = n → wp (f a) (λ o s', o = Done Again → (ended_tasks s' < n)%nat) s') →
  wp (m ≫= f) (λ o s', o = Done Again → (ended_tasks s' < n)%nat) s.
Proof.
  intros Hm <- Hf. apply wp_bind. specialize (Hm s). unfold wp in *. destruct (m s) as [[a|e| |] s']; try done.
  cbn [fst snd andthen] in *. refine (Hf a s' _). unfold ended_tasks. by destruct Hm as [-> _].
Qed.

Lemma watch_accept_rounds s : wp (watch_accept opts) (λ o s', match o with
  | Done None => (rounds s' < rounds s)%nat | Done (Some _) => ended_tasks s' = ended_tasks s | _ => False end) s.
Proof.
  unfold watch_accept. apply wp_self. destruct (negb _); [done|]. destruct (accept_sleep s) as [[]|] eqn:E; [done..|].
  destruct (accept_timeout opts); [|done]. apply wp_bind, wp_modify. unfold rounds, ended_tasks. rewrite E. cbn. lia.
Qed.

Lemma turn_fewer fuel s : wp (turn opts fuel) (λ o s', o = Done Again → (rounds s' < rounds s)%nat) s.
Proof.
  unfold turn. apply wp_bind. assert (within same_tasks take_reported) as Hr by (unfold take_reported; stays; auto with tasks).
  specialize (Hr s). unfold wp at 1. destruct (take_reported s) as [[u|e| |] s1]; try done. cbn [fst snd andthen] in *.
  assert (rounds s1 = rounds s) as <- by (unfold rounds, ended_tasks; by destruct Hr as [-> ->]). clear s Hr u. apply wp_bind.
  eapply wp_mono; [apply watch_accept_rounds|]. intros [[fired|]|e| |] s2 Hw; try done; cbn [andthen]; [|by apply wp_ret].
  eapply (wp_mono _ (λ o s', o = Done Again → (ended_tasks s' < ended_tasks s1)%nat)).
  - apply tasks_then; [unfold watch_shutdown; stays; auto with tasks|done|intros _ s3 H3].
    apply tasks_then; [auto with tasks|done|intros _ s4 H4].
    apply tasks_then; [unfold flush_control; stays; auto using tasks_failed with tasks|done|intros _ s5 H5].
    apply tasks_then; [unfold poll_control; stays; auto using tasks_events|done|intros _ s6 H6]. rewrite <- H6. apply end_fewer.
  - intros o s' Hq Ho. specialize (Hq Ho). unfold rounds. destruct (bool_decide _), (bool_decide _); lia.
Qed.

(** *** The poll *)

Lemma turns_return reported n : ∀ s, (rounds s < n)%nat → driver_ok opts reported s →
  ∃ N, ∀ fuel turns, (N ≤ fuel)%nat → (N ≤ turns)%nat → (run_turns opts fuel turns s).1 ≠ Stuck.
Proof.
  induction n as [|n IH]; intros s Hn Hs; [lia|].
  destruct (enough_same (turn opts) s (turn_fueled opts) (turn_returns reported s Hs)) as (N & o & s' & Ho & Ht).
  pose proof (turn_fewer N s) as Hf. pose proof (safe_turn opts reported N s Hs) as Hk. unfold wp in Hf, Hk.
  rewrite Ht in Hf, Hk by done. cbn [fst snd] in Hf, Hk.
  assert (∃ M, o = Done Again → ∀ fuel turns, (M ≤ fuel)%nat → (M ≤ turns)%nat → (run_turns opts fuel turns s').1 ≠ Stuck) as [M HM].
  { destruct o as [[]|e| |]; [|by exists 0%nat..]. destruct (IH s') as [M HM]; [specialize (Hf eq_refl); lia|exact Hk|]. by exists M. }
  exists (S (N + M)). intros fuel turns Hle Hlt. destruct turns as [|turns]; [lia|]. cbn [run_turns]. unfold mbind, op_bind.
  rewrite Ht by lia. destruct o as [[]|e| |]; try done. apply HM; [done|lia..].
Qed.

Lemma poll_returns reported s : driver_ok opts reported s → enough (poll_driver opts) s.
Proof.
  intros Hs. unfold poll_driver. apply (safe_returns reported); [done|apply unstuck_set_up|apply safe_set_up|].
  clear s Hs. intros _ s Hs. destruct (turns_return reported (S (rounds s)) s (le_n _) Hs) as [N HN].
  exists N. intros fuel Hle. by apply HN.
Qed.
End returning.

(** ** Properties *)

(** C10. Every request stream is dealt with once, as GOAWAY says.  In any run of
    the driver, after any poll: no stream arrives twice; the tasks spawned are,
    in order and each once, those of the streams that arrived with an identifier
    up to the one in our GOAWAY, of all of them as long as none was sent, also
    counting those that arrived before it was sent; every other stream that
    arrived was reset with H3_REQUEST_REJECTED; no reset was asked for but of
    such a stream and by request tasks; and a task that was spawned is ongoing
    unless it has ended: the driver drops no request that runs.  The identifier
    in GOAWAY is that of the last stream that arrived, 0 when none had, so that a
    first stream 0 is served behind GOAWAY, although the comment in mod.rs has
    requests after our GOAWAY rejected. *)
Theorem streams_judged {T} `{RecordedEndpoint T} opts now (t : T) log s fuel o s' :
  requests t = [] → history t = [] → runs opts now t log s →
  poll_driver opts fuel s = (o, s') → o ≠ Stuck →
  let arrived := arrivals (requests (net (conn s'))) in
  let goaway := goaway_sent (controls (conn s')) in
  NoDup arrived ∧ spawned s' = served_streams goaway arrived
  ∧ (∀ id, id ∈ arrived → served goaway id = false → ResetAsked id H3_REQUEST_REJECTED ∈ requests (net (conn s')))
  ∧ (∀ id c, ResetAsked id c ∈ requests (net (conn s')) →
       TaskAsked (ResetAsked id c) ∈ log ∨ c = H3_REQUEST_REJECTED ∧ id ∈ arrived ∧ served goaway id = false)
  ∧ (ongoing s').*1 `sublist_of` spawned s'
  ∧ (∀ id, id ∈ spawned s' → (id, false) ∈ ongoing s' ∨ TaskEnded id ∈ log).
Proof.
  intros Hr Hh Hrun E Ho. pose proof (poll_ok opts now t log s fuel o s' Hr Hh Hrun E Ho) as Hs. cbn zeta.
  split_and!; [apply (do_once _ _ _ Hs)|apply (do_spawned _ _ _ Hs)|apply (do_rejected _ _ _ Hs)|apply (do_resets _ _ _ Hs)
    |apply (do_ongoing _ _ _ Hs)|apply (do_running _ _ _ Hs)].
Qed.

(** C15. The connection is closed for a reason.  In any run of the driver, a
    code it closes the connection with is one that a request task reported, or
    the code of an error of the control plane that was justified, when it was
    raised, by what had happened on the transport and the codecs as they were
    then; or it is H3_NO_ERROR, no request is in flight, the grace timer has run
    out, and the shutdown was asked for: by the token, by the peer's GOAWAY, by
    the accept timeout, whose timer has run out while no request was in flight,
    or by one of the reasons above. *)
Theorem closed_for_a_reason {T} `{RecordedEndpoint T} opts now (t : T) log s fuel o s' c :
  requests t = [] → history t = [] → runs opts now t log s →
  poll_driver opts fuel s = (o, s') → o ≠ Stuck → CloseAsked c ∈ requests (net (conn s')) →
  grounds log (failure s') (history (net (conn s'))) c
  ∨ c = H3_NO_ERROR ∧ ongoing s' = [] ∧ GraceRan ∈ log
    ∧ (cancelled s' = true ∨ goaway_received (history (net (conn s'))) ∨ idle_too_long opts log
       ∨ ∃ c', closing_with s' = Some c' ∧ grounds log (failure s') (history (net (conn s'))) c').
Proof.
  intros Hr Hh Hrun E Ho Hin. pose proof (poll_ok opts now t log s fuel o s' Hr Hh Hrun E Ho) as Hs.
  destruct (do_close _ _ _ Hs c Hin) as [Hc|(-> & Hon & Hsh & Hg)]; [left; by apply (do_closing _ _ _ Hs)|].
  right. split; [done|]. split; [done|]. split; [by apply (do_grace _ _ _ Hs)|].
  destruct (do_why _ _ _ Hs Hsh) as [[c' Hc]|[?|[?|?]]]; auto.
  do 3 right. exists c'. split; [done|]. by apply (do_closing _ _ _ Hs).
Qed.

(** C16. Every poll of the driver comes back: in any run, over a transport that has
    finitely many streams and chunks to deliver, there is one outcome and one
    state that the poll ends with, whatever fuel beyond some bound it is given. *)
Theorem driver_poll_returns {T} `{RecordedEndpoint T} `{!Finite T} `{!FiniteEndpoint T} opts now (t : T) log s :
  requests t = [] → history t = [] → runs opts now t log s →
  ∃ N o s', o ≠ Stuck ∧ ∀ fuel, (N ≤ fuel)%nat → poll_driver opts fuel s = (o, s').
Proof.
  intros Hr Hh Hrun. pose proof (runs_ok opts now t log s Hr Hh Hrun) as Hs.
  apply enough_same; [apply poll_fueled|by eapply poll_returns].
Qed.

(** Two requests, a shutdown, a request behind GOAWAY, the end of the tasks, and
    the end of the grace period. *)
Definition shutdown_opts : Http3Options := MkOptions default_local false (MkResetLimits None (Some 20)).
Definition shutdown_peer : Peer := MkPeer
  (MkScript [Some [Ready (Ok (Some [0; 4; 0]))]] [] [] [])
  [Ready (Ok true); Ready (Ok true); Pending; Pending; Ready (Ok true); Pending] [] [].
Definition polled (s : Driver Peer) : Driver Peer := (poll_driver shutdown_opts 20 s).2.
Definition run_start : Driver Peer := polled (new_driver shutdown_opts 0 shutdown_peer).
Definition run_goaway : Driver Peer := polled (set_cancelled run_start).
Definition run_refused : Driver Peer := polled run_goaway.
Definition run_first : Driver Peer := set_ongoing [(0, true); (4, false)] run_refused.
Definition run_both : Driver Peer := set_ongoing [(0, true); (4, true)] run_first.
Definition run_drained : Driver Peer := set_drain_grace (Some true) (polled run_both).

Lemma nothing_asked : requests shutdown_peer = [].
Proof. reflexivity. Qed.

Lemma nothing_happened : history shutdown_peer = [].
Proof. reflexivity. Qed.

Lemma polled_with s o : (poll_driver shutdown_opts 20 s).1 = o → poll_driver shutdown_opts 20 s = (o, polled s).
Proof. apply ends_with. Qed.

Lemma polled_wait log s :
  runs shutdown_opts 0 shutdown_peer log s → (poll_driver shutdown_opts 20 s).1 = Wait →
  runs shutdown_opts 0 shutdown_peer log (polled s).
Proof. intros Hs E. eapply RPoll; [exact Hs|]. by apply polled_with. Qed.

Lemma run_goaway_runs : runs shutdown_opts 0 shutdown_peer [] run_goaway.
Proof.
  apply polled_wait; [|vm_compute; reflexivity]. apply (RMeanwhile _ _ _ [] run_start []); [|constructor].
  apply polled_wait; [constructor|vm_compute; reflexivity].
Qed.

Definition drained_log : list happening := [TaskEnded 0; TaskEnded 4; GraceRan].

Lemma run_drained_runs : runs shutdown_opts 0 shutdown_peer drained_log run_drained.
Proof.
  unfold run_drained. change drained_log with ([TaskEnded 0; TaskEnded 4] ++ [GraceRan]).
  apply (RMeanwhile _ _ _ _ (polled run_both)); [|apply MGrace; vm_compute; reflexivity].
  apply polled_wait; [|vm_compute; reflexivity].
  unfold run_both. change [TaskEnded 0; TaskEnded 4] with ([TaskEnded 0] ++ [TaskEnded 4]).
  apply (RMeanwhile _ _ _ _ run_first); [|apply (MEnd run_first [(0, true)] 4 []); reflexivity].
  unfold run_first. change [TaskEnded 0] with ([] ++ [TaskEnded 0]). apply (RMeanwhile _ _ _ _ run_refused); [|apply (MEnd run_refused [] 0 [(4, false)]); vm_compute; reflexivity].
  apply polled_wait; [apply run_goaway_runs|vm_compute; reflexivity].
Qed.

Lemma streams_judged_witness :
  let s' := polled run_goaway in
  arrivals (requests (net (conn s'))) = [0; 4; 8] ∧ goaway_sent (controls (conn s')) = Some 4 ∧ spawned s' = [0; 4]
  ∧ spawned s' = served_streams (Some 4) [0; 4; 8]
  ∧ ResetAsked 8 H3_REQUEST_REJECTED ∈ requests (net (conn s')) ∧ (ongoing s').*1 `sublist_of` spawned s'.
Proof.
  intros s'. assert (poll_driver shutdown_opts 20 run_goaway = (Wait, s')) as E.
  { apply polled_with. vm_compute. reflexivity. }
  assert (arrivals (requests (net (conn s'))) = [0; 4; 8]) as Ea by (vm_compute; reflexivity).
  assert (goaway_sent (controls (conn s')) = Some 4) as Eg by (vm_compute; reflexivity).
  destruct (streams_judged shutdown_opts 0 shutdown_peer [] run_goaway 20 Wait s'
    nothing_asked nothing_happened run_goaway_runs E)
    as (_ & H2 & H3 & _ & H5 & _); [discriminate|]. rewrite Ea, Eg in H2, H3.
  split; [exact Ea|]. split; [exact Eg|]. split; [vm_compute; reflexivity|]. split; [exact H2|].
  split; [exact (H3 8 (list_elem_of_further _ _ _ (list_elem_of_further _ _ _ (list_elem_of_here _ _))) eq_refl)|exact H5].
Defined.

(** GOAWAY goes out before any stream has arrived, and names stream 0; the stream
    that arrives then is served. *)
Definition first_peer : Peer := MkPeer (MkScript [] [] [] []) [Pending; Ready (Ok true); Pending] [] [].
Lemma first_stream_served :
  let poll s := (poll_driver shutdown_opts 20 s).2 in
  let s := poll (poll (set_cancelled (new_driver shutdown_opts 0 first_peer))) in
  goaway_sent (controls (conn s)) = Some 0 ∧ arrivals (requests (net (conn s))) = [0] ∧ spawned s = [0].
Proof. vm_compute. auto. Qed.

Lemma closed_for_a_reason_witness :
  let s' := polled run_drained in
  CloseAsked H3_NO_ERROR ∈ requests (net (conn s')) ∧ closing_with s' = None
  ∧ (grounds drained_log (failure s') (history (net (conn s'))) H3_NO_ERROR
     ∨ H3_NO_ERROR = H3_NO_ERROR ∧ ongoing s' = [] ∧ GraceRan ∈ drained_log
       ∧ (cancelled s' = true ∨ goaway_received (history (net (conn s'))) ∨ idle_too_long shutdown_opts drained_log
          ∨ ∃ c', closing_with s' = Some c' ∧ grounds drained_log (failure s') (history (net (conn s'))) c')).
Proof.
  intros s'. assert (poll_driver shutdown_opts 20 run_drained = (Done (), s')) as E.
  { apply polled_with. vm_compute. reflexivity. }
  assert (CloseAsked H3_NO_ERROR ∈ requests (net (conn s'))) as Hin.
  { apply (bool_decide_unpack _). vm_compute. exact I. }
  split; [exact Hin|]. split; [vm_compute; reflexivity|].
  exact (closed_for_a_reason shutdown_opts 0 shutdown_peer drained_log run_drained 20 (Done ()) s' H3_NO_ERROR
    nothing_asked nothing_happened run_drained_runs E ltac:(discriminate) Hin).
Defined.

Lemma driver_poll_returns_witness :
  ∃ N, ∀ fuel, (N ≤ fuel)%nat → poll_driver shutdown_opts fuel run_goaway = (Wait, polled run_goaway).
Proof.
  destruct (driver_poll_returns shutdown_opts 0 shutdown_peer [] run_goaway nothing_asked nothing_happened run_goaway_runs)
    as (N & o & s' & _ & HN). exists N.
  assert (poll_driver shutdown_opts 20 run_goaway = (Wait, polled run_goaway)) as E.
  { apply polled_with. vm_compute. reflexivity. }
  assert ((o, s') = (Wait, polled run_goaway)) as <-.
  { rewrite <- (HN (N + 20)%nat), (poll_fueled shutdown_opts 20%nat (N + 20)%nat); [exact E|lia|by rewrite E|lia]. }
  exact HN.
Defined.
