(* ===== verification/H3Request.v ===== *)
(** * HTTP/3 requests and trailers (src/src/h3/stream/mod.rs)

    What a decoded field section makes: [build_request] for the request,
    [header_map] for the trailers, and the errors of a request stream.  The
    types of the [http] crate are parameters, those of [Http] and of [Http3]. *)

From S2P Require Import Prelude H3Error HpackTable H2Request QpackTable QpackString.

(** ** Errors *)

Inductive StreamError : Type :=
| TransportError_ (e : TransportError)
| MalformedFrame
| FrameTooLong
| MessageError
| UnexpectedFrame
| QpackFailed (e : QpackError)
| HeadersTooBig (size limit : Z).

(** [StreamError::h3_code] and [is_stream_scoped]. *)
Definition stream_code (e : StreamError) : Z :=
  match e with
  | TransportError_ (Closed c) => c
  | TransportError_ _ => code Internal
  | MalformedFrame => code FrameError_
  | FrameTooLong => code ExcessiveLoad
  | MessageError => code Message
  | UnexpectedFrame => code FrameUnexpected
  | QpackFailed e => qpack_code e
  | HeadersTooBig _ _ => code Message
  end.
Definition is_stream_scoped (e : StreamError) : bool :=
  match e with TransportError_ (Reset _ | Stopped _) => true | _ => false end.

(** ** The [http] crate *)

(** What the code calls beyond [Http]: the comparison with [Method::CONNECT],
    [HeaderMap::try_append], which fails when the map is full, and
    [Uri::builder().path_and_query(p).build()]. *)
Class Http3 `{HT : Http} : Type := {
  is_connect_method : Method → bool;
  header_map_try_append : HeaderMap → HeaderName → HeaderValue → option HeaderMap;
  uri_build_path : bytes → option Uri;
}.

(** ** Lossy decoding *)

(** The length of the character a string starts with, or of the part of one
    that is replaced. *)
Definition utf8_head (v : bytes) : nat * bool :=
  match v with
  | [] => (0%nat, true)
  | a :: v =>
      let more x := in_range 0x80 0xbf x in
      let at_ i := default 0 (v !! i) in
      if in_range 0x00 0x7f a then (1%nat, true)
      else if in_range 0xc2 0xdf a then if more (at_ 0%nat) then (2%nat, true) else (1%nat, false)
      else if in_range 0xe0 0xef a then
        let lo := if a =? 0xe0 then 0xa0 else 0x80 in
        let hi := if a =? 0xed then 0x9f else 0xbf in
        if negb (in_range lo hi (at_ 0%nat)) then (1%nat, false)
        else if more (at_ 1%nat) then (3%nat, true) else (2%nat, false)
      else if in_range 0xf0 0xf4 a then
        let lo := if a =? 0xf0 then 0x90 else 0x80 in
        let hi := if a =? 0xf4 then 0x8f else 0xbf in
        if negb (in_range lo hi (at_ 0%nat)) then (1%nat, false)
        else if negb (more (at_ 1%nat)) then (2%nat, false)
        else if more (at_ 2%nat) then (4%nat, true) else (3%nat, false)
      else (1%nat, false)
  end.

(** [String::from_utf8_lossy]: every malformed part becomes U+FFFD. *)
Fixpoint lossy (fuel : nat) (v : bytes) : bytes :=
  match fuel, v with
  | O, _ | _, [] => []
  | S fuel, _ =>
      let '(n, valid) := utf8_head v in
      (if valid then take n v else [0xef; 0xbf; 0xbd]) ++ lossy fuel (drop n v)
  end.
Definition from_utf8_lossy (v : bytes) : bytes := lossy (length v) v.

Example lossy_cases :
  map from_utf8_lossy [b "/a"; [0xc3; 0xa9]; [0x61; 0xff; 0x62]; [0xe2; 0x82]; [0xf0; 0x9f; 0x41]]
  = [b "/a"; [0xc3; 0xa9]; [0x61; 0xef; 0xbf; 0xbd; 0x62]; [0xef; 0xbf; 0xbd]; [0xef; 0xbf; 0xbd; 0x41]].
Proof. reflexivity. Qed.

(** ** Field sections *)

(** [connection_specific]. *)
Definition FIELDS : list bytes :=
  [b "connection"; b "keep-alive"; b "proxy-connection"; b "transfer-encoding"; b "upgrade"].
Definition connection_specific (name value : bytes) : bool :=
  existsb (eq_ignore_ascii_case name) FIELDS
  || (eq_ignore_ascii_case name (b "te") && negb (eq_ignore_ascii_case value (b "trailers"))).

Section request.
Context `{HT : Http} `{HT3 : !Http3}.

Abbreviation check A := (result StreamError A).

(** [http::Request<()>] with version HTTP/3. *)
Record Request : Type := MkRequest { rq_method : Method; rq_uri : Uri; rq_headers : HeaderMap }.

(** [field_name] and the value beside it. *)
Definition field_name (name : bytes) : check HeaderName :=
  _ ← fail_if (existsb is_ascii_uppercase name) MessageError;
  ok_or (header_name_from_bytes name) MessageError.

(** The locals of [build_request]'s loop. *)
Record Parts : Type := MkParts {
  p_method : option bytes;
  p_scheme : option bytes;
  p_authority : option bytes;
  p_path : option bytes;
  p_protocol : option bytes;
  p_regular : list (HeaderName * HeaderValue);
  p_pseudo_done : bool;
}.
Definition no_parts : Parts := MkParts None None None None None [] false.

(** [take_pseudo]. *)
Definition take_pseudo (slot : option bytes) (value : bytes) : check (option bytes) :=
  match slot with Some _ => Err MessageError | None => Ok (Some value) end.

Definition pseudo_part (p : Parts) (name value : bytes) : check Parts :=
  let '(MkParts m s a pa pr rs d) := p in
  _ ← fail_if d MessageError;
  if bool_decide (name = b ":method") then m ← take_pseudo m value; Ok (MkParts m s a pa pr rs d)
  else if bool_decide (name = b ":scheme") then s ← take_pseudo s value; Ok (MkParts m s a pa pr rs d)
  else if bool_decide (name = b ":authority") then a ← take_pseudo a value; Ok (MkParts m s a pa pr rs d)
  else if bool_decide (name = b ":path") then pa ← take_pseudo pa value; Ok (MkParts m s a pa pr rs d)
  else if bool_decide (name = b ":protocol") then pr ← take_pseudo pr value; Ok (MkParts m s a pa pr rs d)
  else Err MessageError.

Definition regular_part (p : Parts) (name value : bytes) : check Parts :=
  let '(MkParts m s a pa pr rs _) := p in
  _ ← fail_if (connection_specific name value) MessageError;
  hn ← field_name name;
  hv ← ok_or (header_value_from value) MessageError;
  Ok (MkParts m s a pa pr (rs ++ [(hn, hv)]) true).

Definition part (p : Parts) (f : field) : check Parts :=
  if bool_decide (head f.1 = Some 0x3a) then pseudo_part p f.1 f.2 else regular_part p f.1 f.2.

Fixpoint parts (p : Parts) (fs : list field) : check Parts :=
  match fs with
  | [] => Ok p
  | f :: fs => p ← part p f; parts p fs
  end.

(** [build_uri]; the [expect]s hold after the checks of [build_request]. *)
Definition build_uri (connect : bool) (scheme authority path : option bytes) : check Uri :=
  if connect then
    let scheme := match scheme with Some s => from_utf8_lossy s | None => b "http" end in
    ok_or (uri_build scheme (Some (from_utf8_lossy (default [] authority))) (b "")) MessageError
  else
    match authority with
    | Some authority =>
        ok_or (uri_build (from_utf8_lossy (default [] scheme)) (Some (from_utf8_lossy authority))
                 (from_utf8_lossy (default [] path))) MessageError
    | None => ok_or (uri_build_path (from_utf8_lossy (default [] path))) MessageError
    end.

(** [for (name, value) in regular { try_append }]. *)
Fixpoint append_all (m : HeaderMap) (l : list (HeaderName * HeaderValue)) : option HeaderMap :=
  match l with
  | [] => Some m
  | (n, v) :: l => m ← header_map_try_append m n v; append_all m l
  end.

(** [build_request]. *)
Definition build_request (headers : list field) : check Request :=
  p ← parts no_parts headers;
  m ← ok_or (p_method p) MessageError;
  method ← ok_or (method_from_bytes m) MessageError;
  let connect := is_connect_method method in
  let extended := bool_decide (is_Some (p_protocol p)) in
  let none o := negb (bool_decide (is_Some (o : option bytes))) in
  _ ← fail_if (extended && negb connect) MessageError;
  _ ← (if connect then
         if extended then fail_if (none (p_scheme p) || none (p_authority p) || negb (none (p_path p))) MessageError
         else fail_if (none (p_authority p) || negb (none (p_scheme p)) || negb (none (p_path p))) MessageError
       else fail_if (none (p_scheme p) || none (p_path p) || none (p_authority p)) MessageError);
  uri ← build_uri connect (p_scheme p) (p_authority p) (p_path p);
  h ← ok_or (append_all header_map_new (p_regular p)) MessageError;
  Ok (MkRequest method uri h).

(** [header_map]: the trailers. *)
Fixpoint header_map_loop (m : HeaderMap) (headers : list field) : check HeaderMap :=
  match headers with
  | [] => Ok m
  | (name, value) :: headers =>
      _ ← fail_if (bool_decide (head name = Some 0x3a) || connection_specific name value) MessageError;
      hn ← field_name name;
      hv ← ok_or (header_value_from value) MessageError;
      m ← ok_or (header_map_try_append m hn hv) MessageError;
      header_map_loop m headers
  end.
Definition header_map (headers : list field) : check HeaderMap := header_map_loop header_map_new headers.
End request.

(** ** What is a request

    The rules of RFC 9114, Sections 4.2 to 4.4, as the code has them, over the
    fields themselves. *)

Section request_spec.
Context `{HT : Http} `{HT3 : !Http3}.

(** The value of the first field with the given name. *)
Fixpoint value_of (fs : list field) (n : bytes) : option bytes :=
  match fs with
  | [] => None
  | f :: fs => if bool_decide (f.1 = n) then Some f.2 else value_of fs n
  end.

(** A field that may follow the pseudo-header fields, and what becomes of it. *)
Definition regular (f : field) (n : HeaderName * HeaderValue) : Prop :=
  head f.1 ≠ Some 0x3a ∧ connection_specific f.1 f.2 = false ∧ existsb is_ascii_uppercase f.1 = false
  ∧ header_name_from_bytes f.1 = Some n.1 ∧ header_value_from f.2 = Some n.2.

(** The target: CONNECT has an authority, no path, and a scheme exactly with a
    protocol; another method has scheme, authority and path and no protocol. *)
Definition target (ps : list field) (m : Method) (u : Uri) : Prop :=
  ∃ a, value_of ps (b ":authority") = Some a ∧
  if is_connect_method m then
    value_of ps (b ":path") = None
    ∧ (is_Some (value_of ps (b ":scheme")) ↔ is_Some (value_of ps (b ":protocol")))
    ∧ uri_build (from_option from_utf8_lossy (b "http") (value_of ps (b ":scheme"))) (Some (from_utf8_lossy a)) (b "") = Some u
  else
    value_of ps (b ":protocol") = None
    ∧ ∃ s p, value_of ps (b ":scheme") = Some s ∧ value_of ps (b ":path") = Some p
      ∧ uri_build (from_utf8_lossy s) (Some (from_utf8_lossy a)) (from_utf8_lossy p) = Some u.

Definition request_of (hs : list field) (r : Request) : Prop :=
  ∃ ps rs ns m, hs = ps ++ rs
  ∧ Forall (λ f, f.1 ∈ PSEUDO) ps ∧ NoDup ps.*1 ∧ Forall2 regular rs ns
  ∧ value_of ps (b ":method") = Some m ∧ method_from_bytes m = Some (rq_method r)
  ∧ target ps (rq_method r) (rq_uri r)
  ∧ append_all header_map_new ns = Some (rq_headers r).

Lemma value_of_app fs gs n : value_of (fs ++ gs) n
  = match value_of fs n with Some v => Some v | None => value_of gs n end.
Proof. induction fs as [|f fs IH]; cbn; [done|]. by case_bool_decide. Qed.

Lemma value_of_None fs n : value_of fs n = None ↔ n ∉ fs.*1.
Proof.
  induction fs as [|f fs IH]; cbn; [set_solver|]. rewrite not_elem_of_cons. case_bool_decide as H.
  - split; [done|]. by intros [[] _].
  - rewrite IH. naive_solver.
Qed.

Lemma value_of_in fs n v : (n, v) ∈ fs → value_of fs n ≠ None.
Proof. intros H E%value_of_None. apply E. by apply (list_elem_of_fmap_2' fst _ (n, v)). Qed.

(** The locals of the loop after the fields [ps] and then regular fields that
    became [ns]. *)
Definition parts_of (ps : list field) (ns : list (HeaderName * HeaderValue)) : Parts :=
  let at_ s := value_of ps (b s) in
  MkParts (at_ ":method") (at_ ":scheme") (at_ ":authority") (at_ ":path") (at_ ":protocol") ns (bool_decide (ns ≠ [])).

Lemma take_pseudo_Ok slot v o : take_pseudo slot v = Ok o ↔ slot = None ∧ o = Some v.
Proof. destruct slot; cbn; naive_solver. Qed.

Lemma pseudo_part_Ok ps ns n v p :
  pseudo_part (parts_of ps ns) n v = Ok p ↔ ns = [] ∧ n ∈ PSEUDO ∧ n ∉ ps.*1 ∧ p = parts_of (ps ++ [(n, v)]) ns.
Proof.
  unfold pseudo_part, parts_of. rewrite bind_Ok, !value_of_app. cbn [value_of fst snd].
  setoid_rewrite fail_if_Ok. setoid_rewrite bool_decide_eq_false.
  assert (∀ (P : Prop), (∃ a : (), ¬ ns ≠ [] ∧ P) ↔ ns = [] ∧ P) as ->.
  { intros P. split; [intros (_ & H & ?); split; [by apply dec_stable|done]|intros [? ?]; exists (); split; [by intros []|done]]. }
  apply and_iff_compat_l. unfold PSEUDO. rewrite <- (value_of_None ps n).
  assert (∀ m : option bytes, match m with Some v => Some v | None => None end = m) as Hid by by intros [].
  repeat (case_bool_decide; [subst n;
    repeat (rewrite bool_decide_false by (intros E; vm_compute in E; discriminate E));
    rewrite ?(bool_decide_true (b _ = b _)) by done; rewrite bind_Ok; setoid_rewrite take_pseudo_Ok; rewrite !Hid;
    split; [intros (o & [-> ->] & [= <-]); split; [set_solver|done]|intros (_ & -> & ->); eexists; done]|]).
  split; [done|]. intros [Hin _]. set_solver.
Qed.

Lemma regular_part_Ok ps ns f p :
  head f.1 ≠ Some 0x3a →
  regular_part (parts_of ps ns) f.1 f.2 = Ok p ↔ ∃ n, regular f n ∧ p = parts_of ps (ns ++ [n]).
Proof.
  intros Hh. unfold regular_part, parts_of, field_name, regular. split.
  - intros H. inv_result. subst. eexists (_, _). cbn. split; [done|]. by rewrite bool_decide_true by (by destruct ns).
  - intros ((hn & hv) & (_ & -> & -> & -> & ->) & ->). cbn. by rewrite bool_decide_true by (by destruct ns).
Qed.

Lemma part_Ok ps ns f p : part (parts_of ps ns) f = Ok p ↔
  (ns = [] ∧ f.1 ∈ PSEUDO ∧ f.1 ∉ ps.*1 ∧ p = parts_of (ps ++ [f]) ns) ∨ (∃ n, regular f n ∧ p = parts_of ps (ns ++ [n])).
Proof.
  unfold part. case_bool_decide as Hh.
  - rewrite pseudo_part_Ok. destruct f as [n v]. split; [by left|]. intros [H|(m & (H & _) & _)]; [done|by destruct H].
  - rewrite regular_part_Ok by done. split; [by right|]. intros [(_ & H & _)|H]; [|done].
    destruct Hh. revert H. unfold PSEUDO. rewrite !elem_of_cons, elem_of_nil. intros [->|[->|[->|[->|[->|[]]]]]]; done.
Qed.

Lemma parts_Ok fs : ∀ ps ns p, parts (parts_of ps ns) fs = Ok p ↔
  ∃ qs rs ms, fs = qs ++ rs ∧ (ns ≠ [] → qs = []) ∧ Forall (λ f, f.1 ∈ PSEUDO ∧ f.1 ∉ ps.*1) qs ∧ NoDup qs.*1
  ∧ Forall2 regular rs ms ∧ p = parts_of (ps ++ qs) (ns ++ ms).
Proof.
  induction fs as [|f fs IH]; intros ps ns p; cbn [parts].
  - split; [intros [= <-]; exists [], [], []; rewrite !app_nil_r; split_and!; by try constructor|].
    intros ([|? ?] & [|? ?] & ms & E & _ & _ & _ & Hr & ->); try done. inversion Hr. by rewrite !app_nil_r.
  - rewrite bind_Ok. split.
    + intros (p1 & [(-> & H1 & H2 & ->)|(n & H1 & ->)]%part_Ok & H).
      * apply IH in H as (qs & rs & ms & -> & _ & Hq & Hn & Hr & ->). exists (f :: qs), rs, ms.
        rewrite fmap_app in Hq. split_and!; try done; [|cbn; constructor; [|done]|by rewrite <- app_assoc].
        { constructor; [done|]. eapply Forall_impl; [exact Hq|]. set_solver. }
        intros (g & E & Hg)%list_elem_of_fmap. rewrite Forall_forall in Hq. apply Hq in Hg. set_solver.
      * apply IH in H as (qs & rs & ms & -> & Hqs & _ & _ & Hr & ->). rewrite Hqs by (by destruct ns).
        exists [], (f :: rs), (n :: ms). rewrite <- app_assoc, app_nil_r.
        split_and!; try done; by constructor.
    + intros (qs & rs & ms & E & Hqs & Hq & Hn & Hr & ->). destruct qs as [|g qs]; cbn in E.
      * subst rs. apply Forall2_cons_inv_l in Hr as (n & ms' & H1 & Hr & ->).
        exists (parts_of ps (ns ++ [n])). split; [apply part_Ok; right; by exists n|].
        apply IH. exists [], fs, ms'. rewrite <- app_assoc. split_and!; by try constructor.
      * injection E as <- ->. destruct (decide (ns = [])) as [->|Hns]; [|by specialize (Hqs Hns)].
        apply Forall_cons in Hq as [[H1 H2] Hq]. cbn in Hn. apply NoDup_cons in Hn as [H3 Hn].
        exists (parts_of (ps ++ [f]) []). split; [apply part_Ok; by left|].
        apply IH. exists qs, rs, ms. rewrite <- app_assoc. split_and!; try done.
        rewrite Forall_forall in Hq |- *. intros g Hg. split; [by apply Hq|]. rewrite fmap_app.
        apply not_elem_of_app. split; [by apply Hq|]. intros ?%list_elem_of_singleton. apply H3. apply list_elem_of_fmap. naive_solver.
Qed.

(** The checks after the loop. *)
Lemma target_Ok ps ns m u (none := λ o : option bytes, negb (bool_decide (is_Some o))) :
  let p := parts_of ps ns in
  (_ ← fail_if (bool_decide (is_Some (p_protocol p)) && negb (is_connect_method m)) MessageError;
   _ ← (if is_connect_method m then
         if bool_decide (is_Some (p_protocol p)) then fail_if (none (p_scheme p) || none (p_authority p) || negb (none (p_path p))) MessageError
         else fail_if (none (p_authority p) || negb (none (p_scheme p)) || negb (none (p_path p))) MessageError
       else fail_if (none (p_scheme p) || none (p_path p) || none (p_authority p)) MessageError);
   build_uri (is_connect_method m) (p_scheme p) (p_authority p) (p_path p)) = Ok u ↔ target ps m u.
Proof.
  cbn -[build_uri]. unfold target, build_uri, none. clear none.
  destruct (value_of ps (b ":authority")) as [a|], (value_of ps (b ":scheme")) as [s|], (value_of ps (b ":path")) as [p|],
    (value_of ps (b ":protocol")) as [pr|], (is_connect_method m); cbn;
    try (split; [done|]; by intros (? & ? & ? & ? & ?));
    try (split; [done|]; intros (? & ? & ? & [H1 H2] & ?); try (by destruct H1; eauto); by destruct H2; eauto);
    try (split; [done|]; by intros (? & ? & ? & ? & ? & ? & ? & ?));
    rewrite ?ok_or_Ok; split; [intros H; eexists; split_and!; try done; naive_solver|naive_solver..].
Qed.

(** The functions of this file fail in one way. *)
Lemma parts_Err fs : ∀ p e, parts p fs = Err e → e = MessageError.
Proof.
  induction fs as [|f fs IH]; intros p e; cbn [parts]; [done|]. rewrite bind_Err.
  intros [H|(p1 & _ & H)]; [|by eapply IH]. revert H.
  unfold part, pseudo_part, regular_part, field_name, take_pseudo, fail_if, ok_or. destruct p.
  repeat (case_match; cbn; try congruence).
Qed.

Lemma build_request_Err hs e : build_request hs = Err e → e = MessageError.
Proof.
  unfold build_request. rewrite bind_Err. intros [H|(p & _ & H)]; [by eapply parts_Err|]. revert H.
  unfold build_uri, fail_if, ok_or. repeat (case_match; cbn; try congruence).
Qed.

Lemma build_request_Ok hs r : build_request hs = Ok r ↔ request_of hs r.
Proof.
  destruct r as [mt u hm]. unfold build_request, request_of. cbn [rq_method rq_uri rq_headers].
  change no_parts with (parts_of [] []). rewrite bind_Ok. split.
  - intros (p & (ps & rs & ns & -> & _ & Hps & Hn & Hr & ->)%parts_Ok & H). cbn [app] in H.
    rewrite bind_Ok in H. destruct H as (m & [=Hm]%ok_or_Ok & H). rewrite bind_Ok in H. destruct H as (mt' & Hmt%ok_or_Ok & H).
    apply bind_Ok in H as ([] & H1 & H). apply bind_Ok in H as ([] & H2 & H). apply bind_Ok in H as (u' & H3 & H).
    apply bind_Ok in H as (hm' & Hh%ok_or_Ok & [= -> -> ->]).
    exists ps, rs, ns, m. split_and!; try done.
    + eapply Forall_impl; [exact Hps|]. by intros ? [? _].
    + eapply target_Ok. cbv zeta. rewrite H1. cbn [mbind result_bind]. rewrite H2. exact H3.
  - intros (ps & rs & ns & m & -> & Hps & Hn & Hr & Hm & Hmt & Ht & Hh). exists (parts_of ps ns). split.
    + apply parts_Ok. exists ps, rs, ns. split_and!; try done.
      eapply Forall_impl; [exact Hps|]. intros f ?. split; [done|]. cbn. set_solver.
    + apply (target_Ok ps ns) in Ht. cbv zeta in Ht.
      apply bind_Ok in Ht as ([] & H1 & Ht). apply bind_Ok in Ht as ([] & H2 & Ht).
      change (p_method (parts_of ps ns)) with (value_of ps (b ":method")). rewrite Hm. cbn [ok_or mbind result_bind].
      rewrite Hmt. cbn [ok_or]. cbn [mbind result_bind] in *. rewrite H1, H2, Ht.
      change (p_regular (parts_of ps ns)) with ns. by rewrite Hh.
Qed.

(** C40. A decoded field section is accepted as a request exactly when it has
    the form the code demands: known pseudo-header fields first, none twice,
    then fields that are lower-case, valid and not specific to a connection; a
    method; and a target: with CONNECT an authority, and beside it a scheme
    exactly when there is a [:protocol], and never a path; with any other
    method a scheme, an authority and a path, and no [:protocol].  The request
    has the method, the URI and, in order, the fields.  Anything else is
    H3_MESSAGE_ERROR.  The code is stricter than RFC 9114 and RFC 9220
    ([valid_requests_refused]). *)
Theorem build_request_spec hs :
  (∀ r, build_request hs = Ok r ↔ request_of hs r) ∧ (∀ e, build_request hs = Err e → e = MessageError).
Proof. split; [apply build_request_Ok|apply build_request_Err]. Qed.

(** What the code demands beyond RFC 9114: every request names its authority,
    and with [:protocol] a request has no [:path]. *)
Lemma request_needs hs r :
  build_request hs = Ok r →
  value_of hs (b ":authority") ≠ None
  ∧ (value_of hs (b ":protocol") ≠ None → value_of hs (b ":path") = None).
Proof.
  intros (ps & rs & ns & m & -> & Hps & Hn & Hr & Hm & Hmt & (a & Ha & Ht) & Hh)%build_request_Ok.
  assert (∀ n, n ∈ PSEUDO → value_of rs n = None) as Hrs.
  { intros n Hin. apply value_of_None. intros (f & -> & Hf)%list_elem_of_fmap.
    assert (Forall (λ f : field, head f.1 ≠ Some 0x3a) rs) as Hc
      by (eapply Forall2_Forall_l; [exact Hr|]; apply Forall_forall; by intros n ? g [? _]).
    rewrite Forall_forall in Hc. apply (Hc f Hf). revert Hin. unfold PSEUDO.
    rewrite !elem_of_cons, elem_of_nil. intros [->|[->|[->|[->|[->|[]]]]]]; done. }
  rewrite !value_of_app, !Hrs, Ha by (unfold PSEUDO; set_solver). split; [done|].
  destruct (is_connect_method _).
  - destruct Ht as (-> & _). done.
  - destruct Ht as (-> & _). done.
Qed.

(** Trailers: regular fields only. *)
Lemma header_map_Ok hs hm :
  header_map hs = Ok hm ↔ ∃ ns, Forall2 regular hs ns ∧ append_all header_map_new ns = Some hm.
Proof.
  unfold header_map. generalize header_map_new as m. induction hs as [|[n v] hs IH]; intros m; cbn [header_map_loop].
  - split; [intros [= <-]; by exists []|]. intros (ns & H%Forall2_nil_inv_l & E). subst. by injection E as ->.
  - unfold field_name. split.
    + intros H. inv_result. apply IH in H as (ns & Hns & E). subst.
      match goal with H : _ || _ = false |- _ => apply orb_false_iff in H as [Hc%bool_decide_eq_false ?] end.
      eexists ((_, _) :: ns). split; [constructor; [by split_and!|done]|]. cbn. by simplify_option_eq.
    + intros (ns & H & E). apply Forall2_cons_inv_l in H as ([hn hv] & ns' & (Hc & H1 & H2 & H3 & H4) & Hns & ->).
      cbn in *. rewrite bool_decide_false, H1, H2, H3, H4 by done. cbn. apply bind_Some in E as (m' & -> & E). cbn.
      apply IH. by exists ns'.
Qed.
End request_spec.

(** ** Concrete requests *)

(** CONNECT is the method so named, and a header map holds a thousand fields. *)
Definition plain_append (m : list (bytes * bytes)) (n v : bytes) : option (list (bytes * bytes)) :=
  if (length m <? 1000)%nat then Some (m ++ [(n, v)]) else None.
#[local] Existing Instance plain_http.
Definition plain_http3 : Http3 :=
  @Build_Http3 plain_http (λ m : bytes, bool_decide (m = b "CONNECT")) plain_append Some.
#[local] Existing Instance plain_http3.

Definition get_section : list field :=
  [(b ":method", b "GET"); (b ":scheme", b "https"); (b ":authority", b "a"); (b ":path", b "/"); (b "te", b "trailers")].

Example requests_built :
  build_request get_section = Ok (MkRequest (b "GET") (b "https://a/") [(b "te", b "trailers")])
  ∧ build_request [(b ":method", b "CONNECT"); (b ":authority", b "a:1")]
    = Ok (MkRequest (b "CONNECT") (b "http://a:1") [])
  ∧ build_request (get_section ++ [(b ":path", b "/")]) = Err MessageError
  ∧ build_request [(b ":method", b "GET"); (b "Host", b "a")] = Err MessageError.
Proof. vm_compute. done. Qed.

Lemma build_request_spec_witness :
  request_of get_section (MkRequest (b "GET") (b "https://a/") [(b "te", b "trailers")])
  ∧ (∀ e, build_request [(b ":method", b "GET")] = Err e → e = MessageError).
Proof.
  split; [apply (proj1 (build_request_spec get_section)); vm_compute; reflexivity|].
  apply (proj2 (build_request_spec [(b ":method", b "GET")])).
Defined.

(** The extended CONNECT of RFC 8441, Section 5.1, and a request whose authority
    is in the Host field (RFC 9114, Section 4.3.1), are refused. *)
Definition websocket : list field :=
  [(b ":method", b "CONNECT"); (b ":protocol", b "websocket"); (b ":scheme", b "https"); (b ":path", b "/chat");
   (b ":authority", b "server.example.com")].
Definition with_host : list field :=
  [(b ":method", b "GET"); (b ":scheme", b "https"); (b ":path", b "/"); (b "host", b "a")].

(** Two kinds of well-formed request are malformed here, whatever else they
    carry: one with both [:protocol] and [:path], as an extended CONNECT has to
    be, and one without [:authority], even if it has a Host field. *)
Theorem valid_requests_refused `{HT : Http} `{HT3 : !Http3} hs :
  (value_of hs (b ":protocol") ≠ None ∧ value_of hs (b ":path") ≠ None) ∨ value_of hs (b ":authority") = None →
  build_request hs = Err MessageError.
Proof.
  intros H. destruct (build_request hs) as [r|e] eqn:E; [|by rewrite (build_request_Err hs e)].
  apply request_needs in E. naive_solver.
Qed.

Lemma valid_requests_refused_witness :
  build_request websocket = Err MessageError ∧ build_request with_host = Err MessageError.
Proof. split; apply valid_requests_refused; [left|right]; vm_compute; done. Defined.
