(* ===== verification/H3Stream.v ===== *)
(** * An HTTP/3 request stream (src/src/h3/stream/mod.rs)

    [RequestStream]: one request and its response on a bidirectional stream.
    A poll function is a computation over the stream's state, the codecs it
    shares with the connection, and its transport stream. *)

From S2P Require Import Prelude H3Error Varint H3Frame HpackTable H2Request QpackTable QpackString QpackDecoder QpackEncoder.
From S2P Require Import Poll H3Transport H3Shared H3Request.

(** [map_frame_error]. *)
Definition stream_frame_error (e : FrameError) : StreamError :=
  match e with
  | BadFrame => MalformedFrame
  | TooLong => FrameTooLong
  | Unexpected _ | BadSettings => UnexpectedFrame
  end.

(** ** State *)

Inductive PendingSend : Type :=
| NoSend
| SendResponse (status : Z)
| SendData
| SendTrailers.

(** The receive state. *)
Record Receiving : Type := MkReceiving {
  frame_decoder : FrameDecoder;
  awaiting_headers : bool;
  headers_blocked : bool;
  recv_data : list bytes;
  trailers_lines : option (list field);
  trailers_blocked : bool;
  trailers_done : bool;
  recv_finished : bool;
}.

(** The send state. *)
Record Sending : Type := MkSending {
  sent_headers : bool;
  sent_trailers : bool;
  sent_fin : bool;
  pending_send : PendingSend;
  send_buf : list bytes;
}.

(** [RequestStream] with its [shared] codecs and its [stream], which [stream_id]
    names. *)
Record RequestStream (T : Type) : Type := MkRequestStream {
  stream_id : Z;
  receiving : Receiving;
  sending : Sending;
  codecs : SharedCodecs;
  quic : T;
}.
Arguments MkRequestStream {T}.
Arguments stream_id {T}.
Arguments receiving {T}.
Arguments sending {T}.
Arguments codecs {T}.
Arguments quic {T}.

(** [RequestStream::new]. *)
Definition new_receiving (max : option Z) : Receiving :=
  MkReceiving (with_max_field_section max) true false [] None false false false.
Definition new_sending : Sending := MkSending false false false NoSend [].
Definition new_request_stream {T} (id : Z) (shared : SharedCodecs) (stream : T) : RequestStream T :=
  MkRequestStream id (new_receiving (local_max_field_section_size shared)) new_sending shared stream.

(** *** Updates *)

Definition set_frame_decoder (d : FrameDecoder) (r : Receiving) : Receiving :=
  MkReceiving d (awaiting_headers r) (headers_blocked r) (recv_data r) (trailers_lines r)
    (trailers_blocked r) (trailers_done r) (recv_finished r).
Definition set_headers_state (awaiting blocked : bool) (r : Receiving) : Receiving :=
  MkReceiving (frame_decoder r) awaiting blocked (recv_data r) (trailers_lines r)
    (trailers_blocked r) (trailers_done r) (recv_finished r).
Definition set_recv_data (l : list bytes) (r : Receiving) : Receiving :=
  MkReceiving (frame_decoder r) (awaiting_headers r) (headers_blocked r) l (trailers_lines r)
    (trailers_blocked r) (trailers_done r) (recv_finished r).
Definition set_trailers (lines : option (list field)) (blocked done : bool) (r : Receiving) : Receiving :=
  MkReceiving (frame_decoder r) (awaiting_headers r) (headers_blocked r) (recv_data r) lines
    blocked done (recv_finished r).
Definition set_recv_finished (r : Receiving) : Receiving :=
  MkReceiving (frame_decoder r) (awaiting_headers r) (headers_blocked r) (recv_data r) (trailers_lines r)
    (trailers_blocked r) (trailers_done r) true.

Definition set_pending_send (p : PendingSend) (w : Sending) : Sending :=
  MkSending (sent_headers w) (sent_trailers w) (sent_fin w) p (send_buf w).
Definition set_send_buf (l : list bytes) (w : Sending) : Sending :=
  MkSending (sent_headers w) (sent_trailers w) (sent_fin w) (pending_send w) l.
Definition set_sent (headers trailers : bool) (w : Sending) : Sending :=
  MkSending headers trailers (sent_fin w) (pending_send w) (send_buf w).

Section ops.
Context {T : Type} `{Transport T}.

Abbreviation request A := (op (RequestStream T) StreamError A).

Definition on_receiving (f : Receiving → Receiving) : request () :=
  modify (λ s, MkRequestStream (stream_id s) (f (receiving s)) (sending s) (codecs s) (quic s)).
Definition on_sending (f : Sending → Sending) : request () :=
  modify (λ s, MkRequestStream (stream_id s) (receiving s) (f (sending s)) (codecs s) (quic s)).
Definition on_codecs (f : SharedCodecs → SharedCodecs) : request () :=
  modify (λ s, MkRequestStream (stream_id s) (receiving s) (sending s) (f (codecs s)) (quic s)).

(** A call of the transport stream, [map_err(StreamError::from)?]. *)
Definition call_stream {A} (f : T → poll (result TransportError A) * T) : request (poll A) := λ s,
  let '(r, t) := f (quic s) in
  let s := MkRequestStream (stream_id s) (receiving s) (sending s) (codecs s) t in
  match r with
  | Ready (Ok a) => (Done (Ready a), s)
  | Ready (Err e) => (Fail (TransportError_ e), s)
  | Pending => (Done Pending, s)
  end.

(** ** Receiving *)

(** The types refused before they are parsed. *)
Definition control_frame_type (ty : Z) : bool :=
  (ty =? FRAME_CANCEL_PUSH) || (ty =? FRAME_SETTINGS) || (ty =? FRAME_PUSH_PROMISE)
  || (ty =? FRAME_GOAWAY) || (ty =? FRAME_MAX_PUSH_ID).

(** [poll_frame]; the fuel bounds the chunks read. *)
Fixpoint poll_frame (fuel : nat) : request (option Frame) :=
  s ← self;
  match fuel, peek_frame_type (frame_decoder (receiving s)) with
  | O, _ | _, None => stuck
  | S fuel, Some ty =>
      if from_option control_frame_type false ty then fail UnexpectedFrame
      else match next_frame (frame_decoder (receiving s)) with
      | None => stuck
      | Some (d, r) =>
          _ ← on_receiving (set_frame_decoder d);
          match r with
          | Ok (Some f) => mret (Some f)
          | Err e => fail (stream_frame_error e)
          | Ok None =>
              r ← ready (call_stream (poll_recv (stream_id s)));
              match r with
              | Some chunk =>
                  _ ← on_receiving (λ r, set_frame_decoder (extend (frame_decoder r) chunk) r);
                  poll_frame fuel
              | None =>
                  s ← self;
                  if negb (buffered (frame_decoder (receiving s)) =? 0) then fail MalformedFrame
                  else _ ← on_receiving set_recv_finished; mret None
              end
          end
      end
  end.

(** [finish_recv]. *)
Definition finish_recv : request () :=
  _ ← on_receiving set_recv_finished;
  s ← self;
  on_codecs (λ sh, set_decoder (stream_finished (decoder sh) (stream_id s)) sh).

(** [decode_block]; [now] is the clock's reading. *)
Definition decode_block (now : Z) (block : bytes) : request (option (list field)) :=
  s ← self;
  '(o, d) ← lift QpackFailed (QpackDecoder.decode_block (decoder (codecs s)) block (stream_id s) now);
  _ ← on_codecs (set_decoder d);
  mret o.

(** [take_unblocked_for]: nothing yet is [Poll::Pending]. *)
Definition take_unblocked : request UnblockedSection :=
  s ← self;
  match take_unblocked_for (stream_id s) (codecs s) with
  | None => wait
  | Some (section, sh) => _ ← on_codecs (λ _, sh); mret section
  end.

(** [Frame::is_known]. *)
Definition is_known (f : Frame) : bool :=
  match f with
  | Data _ | Headers _ | SettingsFrame _ | CancelPush _ | PushPromise _ _ | Goaway _ | MaxPushId _ => true
  end.

Section http.
Context `{HT : Http} `{HT3 : !Http3}.

Definition poll_headers (fuel : nat) (now : Z) : request (option Request) :=
  s ← self;
  if headers_blocked (receiving s) then
    section ← take_unblocked;
    _ ← on_receiving (set_headers_state false false);
    r ← lift id (build_request (un_headers section)); mret (Some r)
  else if negb (awaiting_headers (receiving s)) then mret None
  else
    f ← poll_frame fuel;
    match f with
    | None =>
        _ ← on_receiving (λ r, set_headers_state false (headers_blocked r) r);
        _ ← finish_recv; mret None
    | Some (Headers block) =>
        o ← decode_block now block;
        match o with
        | Some headers =>
            r ← lift id (build_request headers);
            _ ← on_receiving (λ r, set_headers_state false (headers_blocked r) r);
            mret (Some r)
        | None => _ ← on_receiving (λ r, set_headers_state (awaiting_headers r) true r); wait
        end
    | Some _ => fail UnexpectedFrame
    end.

(** [poll_after_trailers]; every frame the decoder returns is known, so there is
    nothing to loop for. *)
Fixpoint poll_after_trailers (fuel : nat) : request () :=
  match fuel with
  | O => stuck
  | S fuel' =>
      f ← poll_frame fuel;
      match f with
      | None => mret ()
      | Some f => if is_known f then fail UnexpectedFrame else poll_after_trailers fuel'
      end
  end.

Definition poll_recv_data (fuel : nat) (now : Z) : request (option bytes) :=
  s ← self;
  let r := receiving s in
  match recv_data r with
  | data :: rest => _ ← on_receiving (set_recv_data rest); mret (Some data)
  | [] =>
      if recv_finished r then mret None
      else if awaiting_headers r || headers_blocked r || trailers_blocked r then wait
      else if trailers_done r then _ ← poll_after_trailers fuel; _ ← finish_recv; mret None
      else
        f ← poll_frame fuel;
        match f with
        | None => _ ← finish_recv; mret None
        | Some (Data data) => mret (Some data)
        | Some (Headers block) =>
            o ← decode_block now block;
            match o with
            | Some headers => _ ← on_receiving (λ r, set_trailers (Some headers) (trailers_blocked r) true r); mret None
            | None => _ ← on_receiving (λ r, set_trailers (trailers_lines r) true (trailers_done r) r); mret None
            end
        | Some _ => fail UnexpectedFrame
        end
  end.

Definition poll_recv_trailers (fuel : nat) (now : Z) : request (option HeaderMap) :=
  s ← self;
  let r := receiving s in
  match trailers_lines r with
  | Some lines =>
      _ ← on_receiving (λ r, set_trailers None (trailers_blocked r) (trailers_done r) r);
      m ← lift id (header_map lines); mret (Some m)
  | None =>
      if trailers_blocked r then
        section ← take_unblocked;
        _ ← on_receiving (λ r, set_trailers (trailers_lines r) false true r);
        m ← lift id (header_map (un_headers section)); mret (Some m)
      else if recv_finished r then mret None
      else if awaiting_headers r || headers_blocked r then wait
      else if trailers_done r then _ ← poll_after_trailers fuel; _ ← finish_recv; mret None
      else
        f ← poll_frame fuel;
        match f with
        | None => _ ← finish_recv; mret None
        | Some (Headers block) =>
            o ← decode_block now block;
            match o with
            | Some headers =>
                _ ← on_receiving (λ r, set_trailers (trailers_lines r) (trailers_blocked r) true r);
                m ← lift id (header_map headers); mret (Some m)
            | None => _ ← on_receiving (λ r, set_trailers (trailers_lines r) true (trailers_done r) r); wait
            end
        | Some _ => fail UnexpectedFrame
        end
  end.
End http.

(** ** Sending *)

Definition WRITE_INLINE_LIMIT : Z := 16384.

(** [status.as_str()] and [status.is_informational()]. *)
Definition status_str (status : Z) : bytes := [48 + status / 100; 48 + status / 10 mod 10; 48 + status mod 10].
Definition is_informational (status : Z) : bool := (100 <=? status) && (status <? 200).

(** [poll_write]'s loop over the buffered ranges. *)
Fixpoint drain_send_buf (buf : list bytes) : request () :=
  match buf with
  | [] => mret ()
  | bytes :: buf =>
      s ← self;
      _ ← ready (call_stream (poll_send (stream_id s) bytes));
      _ ← on_sending (set_send_buf buf);
      drain_send_buf buf
  end.

Definition poll_write (bytes : bytes) : request () :=
  _ ← (if bool_decide (bytes = []) then mret () else on_sending (λ w, set_send_buf (send_buf w ++ [bytes]) w));
  s ← self;
  drain_send_buf (send_buf (sending s)).

Definition poll_write_parts (first second : bytes) : request () :=
  let push l := on_sending (λ w, set_send_buf (send_buf w ++ l) w) in
  if bool_decide (first = []) then
    if bool_decide (second = []) then poll_write [] else _ ← push [second]; poll_write []
  else if bool_decide (second = []) then _ ← push [first]; poll_write []
  else
    _ ← (if zlen first + zlen second <=? WRITE_INLINE_LIMIT then push [first ++ second] else push [first; second]);
    poll_write [].

(** [encode_headers]. *)
Definition encode_headers (lines : list field) : request (bytes * bytes) :=
  s ← self;
  match encoder (codecs s) with
  | None => fail MessageError
  | Some e =>
      let '(section, e) := encode_section_with_ack_base e (stream_id s) lines in
      _ ← on_codecs (set_encoder (Some e));
      let size := zlen (block section) in
      _ ← match peer_max_field_section_size (codecs s) with
          | Some limit => if limit <? size then fail (HeadersTooBig size limit) else mret ()
          | None => mret ()
          end;
      let es := QpackEncoder.encoder_stream section in
      _ ← (if bool_decide (es = []) then mret ()
           else on_codecs (λ sh, set_encoder_stream (H3Shared.encoder_stream sh ++ [es]) sh));
      mret (write_varint FRAME_HEADERS ++ write_varint size, block section)
  end.

(** The header map as its iterator yields it. *)
Definition has_pseudo (headers : list field) : bool := existsb (λ f : field, bool_decide (head f.1 = Some 0x3a)) headers.

(** After the response's HEADERS are written. *)
Definition response_sent : request () :=
  s ← self;
  _ ← on_sending (set_pending_send NoSend);
  match pending_send (sending s) with
  | SendResponse status =>
      if is_informational status then mret () else on_sending (λ w, set_sent true (sent_trailers w) w)
  | _ => mret ()
  end.

Definition poll_send_response (status : Z) (headers : list field) : request () :=
  s ← self;
  if sent_headers (sending s) && negb (is_informational status) then fail MessageError
  else match pending_send (sending s) with
  | SendResponse _ => _ ← poll_write []; response_sent
  | NoSend =>
      if has_pseudo headers then fail MessageError
      else
        '(frame_header, section) ← encode_headers ((b ":status", status_str status) :: headers);
        _ ← on_sending (set_pending_send (SendResponse status));
        _ ← poll_write_parts frame_header section;
        response_sent
  | _ => fail MessageError
  end.

Definition poll_send_data (data : bytes) : request () :=
  s ← self;
  match pending_send (sending s) with
  | SendData => _ ← poll_write []; on_sending (set_pending_send NoSend)
  | NoSend =>
      _ ← on_sending (set_pending_send SendData);
      _ ← poll_write_parts (write_varint FRAME_DATA ++ write_varint (zlen data)) data;
      on_sending (set_pending_send NoSend)
  | _ => fail MessageError
  end.

Definition poll_send_trailers (trailers : list field) : request () :=
  s ← self;
  if negb (sent_headers (sending s)) then fail MessageError
  else match pending_send (sending s) with
  | SendTrailers => _ ← poll_write []; on_sending (set_pending_send NoSend)
  | NoSend =>
      if has_pseudo trailers then fail MessageError
      else
        '(frame_header, section) ← encode_headers trailers;
        _ ← on_sending (set_pending_send SendTrailers);
        _ ← poll_write_parts frame_header section;
        _ ← on_sending (set_pending_send NoSend);
        on_sending (λ w, set_sent (sent_headers w) true w)
  | _ => fail MessageError
  end.

(** [RequestStream::poll_finish]. *)
Definition poll_finish_response : request () :=
  _ ← poll_write [];
  s ← self;
  ready (call_stream (poll_finish (stream_id s))).

(** *** Rules *)

Lemma wp_receiving f Q s : wp (on_receiving f) Q s
  ↔ Q (Done ()) (MkRequestStream (stream_id s) (f (receiving s)) (sending s) (codecs s) (quic s)).
Proof. done. Qed.

Lemma wp_sending f Q s : wp (on_sending f) Q s
  ↔ Q (Done ()) (MkRequestStream (stream_id s) (receiving s) (f (sending s)) (codecs s) (quic s)).
Proof. done. Qed.

Lemma wp_codecs f Q s : wp (on_codecs f) Q s
  ↔ Q (Done ()) (MkRequestStream (stream_id s) (receiving s) (sending s) (f (codecs s)) (quic s)).
Proof. done. Qed.
End ops.

(** Steps that need no case analysis. *)
Ltac rsteps := repeat (lazymatch goal with
  | |- wp (self ≫= _) _ _ => apply wp_self
  | |- wp (_ ≫= _) _ _ => apply wp_bind
  | |- wp (on_receiving _) _ _ => apply wp_receiving
  | |- wp (on_sending _) _ _ => apply wp_sending
  | |- wp (on_codecs _) _ _ => apply wp_codecs
  | |- wp (mret _) _ _ => apply wp_ret
  | |- wp (fail _) _ _ => apply wp_fail
  end; cbn [andthen]).
