(* ===== verification/H3StreamSpec.v ===== *)
(** * What a request stream reads

    Whatever the transport delivers and in whatever pieces, the calls that read
    a request stream hand over the frames of the octets received, in the order
    RFC 9114, Section 4.1, gives them, and fail only with a reason. *)

From S2P Require Import Prelude H3Error Varint Incremental H3Frame HpackTable H2Request QpackTable QpackString QpackDecoder.
From S2P Require Import Poll H3Transport H3Shared H3Reading H3Request H3Stream.

Section frames.
Context {T : Type} `{Recorded T} (max : option Z).

(** The frames [fs] have been read off what was received. *)
Record reading (fs : list Frame) (s : RequestStream T) : Prop := MkReading {
  rd_ok : decoder_ok (frame_decoder (receiving s));
  rd_max : max_field_section (frame_decoder (receiving s)) = max;
  rd_bytes : bytes_ok (received (stream_id s) (history (quic s)));
  rd_took : took max (received (stream_id s) (history (quic s))) fs (flat (frame_decoder (receiving s)));
  rd_end : recv_finished (receiving s) = true → flat (frame_decoder (receiving s)) = [];
}.

(** Every whole frame has been handed over. *)
Definition exhausted (fs : list Frame) (s : RequestStream T) : Prop :=
  frames max (received (stream_id s) (history (quic s))) = (fs, flat (frame_decoder (receiving s)), None).

(** Why reading a frame of stream [id] fails after the frames [fs], when [h] has
    happened. *)
Inductive frame_fault (fs : list Frame) (id : Z) (h : list event) : StreamError → Prop :=
| FMalformed rest e : frames max (received id h) = (fs, rest, Some e) → frame_fault fs id h (stream_frame_error e)
| FControl ty n rest : took max (received id h) fs rest → parse_varint rest = Ok (Some (ty, n)) →
    control_frame_type ty = true → frame_fault fs id h UnexpectedFrame
| FCut rest : last h = Some (Ended id) → frames max (received id h) = (fs, rest, None) → rest ≠ [] →
    frame_fault fs id h MalformedFrame
| FTransport e : last h = Some (Broke id e) → frame_fault fs id h (TransportError_ e).

(** The stream once the decoder is [d] and the transport [t]. *)
Definition read_to (d : FrameDecoder) (t : T) (s : RequestStream T) : RequestStream T :=
  MkRequestStream (stream_id s) (set_frame_decoder d (receiving s)) (sending s) (codecs s) t.
Definition finished (s : RequestStream T) : RequestStream T :=
  MkRequestStream (stream_id s) (set_recv_finished (receiving s)) (sending s) (codecs s) (quic s).

Lemma peek_flat d : wf d →
  peek_frame_type d = Some (match parse_varint (flat d) with Ok (Some (ty, _)) => Some ty | _ => None end).
Proof. intros Hd. unfold peek_frame_type. by rewrite parse_varint_at_flat. Qed.

Lemma wp_stream_recv id Q (s : RequestStream T) :
  (∀ r t, history t = history (quic s) ++ recv_event id r → octets_only r →
    let s' := MkRequestStream (stream_id s) (receiving s) (sending s) (codecs s) t in
    match r with
    | Ready (Ok o) => Q (Done o) s'
    | Ready (Err e) => Q (Fail (TransportError_ e)) s'
    | Pending => Q Wait s'
    end) → wp (ready (call_stream (poll_recv id))) Q s.
Proof.
  intros HQ. apply wp_ready. unfold wp, call_stream. pose proof (history_recv id (quic s)) as Hh.
  pose proof (received_bytes id (quic s)) as Hb. destruct (poll_recv id (quic s)) as [r t]. cbn in Hh, Hb.
  specialize (HQ r t Hh Hb). by destruct r as [[o|e]|].
Qed.

Lemma reading_read fs d t s s' : reading fs (read_to d t s) → s' = read_to d t s → reading fs s'.
Proof. by intros ? ->. Qed.

Lemma reading_chunk fs s r t : reading fs s → recv_finished (receiving s) = false →
  history t = history (quic s) ++ recv_event (stream_id s) r → octets_only r →
  let c := chunk_for (stream_id s) (stream_id s) r in
  reading fs (read_to (extend (frame_decoder (receiving s)) c) t s).
Proof.
  intros [H1 H2 H3 H4 H5] Hf Hh Hr c. pose proof (chunk_for_ok (stream_id s) (stream_id s) r Hr) as Hc. fold c in Hc.
  split; cbn [read_to receiving quic stream_id set_frame_decoder frame_decoder recv_finished].
  - by apply extend_ok.
  - by rewrite extend_max.
  - rewrite Hh, received_one. by apply Forall_app.
  - rewrite Hh, received_one, extend_flat. by apply took_extend; [| apply H1| |].
  - by rewrite Hf.
Qed.

Definition frame_post (fs : list Frame) (s : RequestStream T) (o : outcome StreamError (option Frame)) (s' : RequestStream T) : Prop :=
  ∃ d t, match o with
    | Done (Some f) => s' = read_to d t s ∧ reading (fs ++ [f]) s'
    | Done None => s' = finished (read_to d t s) ∧ reading fs s'
    | Wait => s' = read_to d t s ∧ reading fs s' ∧ exhausted fs s'
    | Fail e => frame_fault fs (stream_id s') (history (quic s')) e
    | Stuck => True
    end.

Lemma took_exhausted l fs r : took max l fs r → frames max r = ([], r, None) → frames max l = (fs, r, None).
Proof.
  intros Ht E. unfold took in Ht. rewrite E in Ht. destruct (frames max l) as [[hs r'] e'].
  destruct Ht as (-> & -> & Ht). by rewrite app_nil_r, Ht.
Qed.

Lemma read_to_again d t d' t' s : read_to d t (read_to d' t' s) = read_to d t s.
Proof. by destruct s as [? []]. Qed.

Lemma poll_frame_spec fuel : ∀ fs s, reading fs s → recv_finished (receiving s) = false →
  wp (poll_frame fuel) (frame_post fs s) s.
Proof.
  induction fuel as [|fuel IH]; intros fs s Hr Hf; cbn [poll_frame]; rsteps; [by exists (frame_decoder (receiving s)), (quic s)|].
  destruct Hr as [H1 H2 H3 H4 H5]. rewrite peek_flat by apply H1.
  destruct (from_option _ _ _) eqn:Ec; rsteps.
  { exists (frame_decoder (receiving s)), (quic s).
    destruct (parse_varint _) as [[[ty n]|]|e] eqn:E in Ec; try done. by eapply FControl. }
  destruct (next_frame_flat _ H1) as (d & r & Hn & Ha). rewrite Hn.
  pose proof (took_next max _ fs _ d r H1 H4 H2 Ha) as Ht. rsteps. destruct r as [[f|]|e]; rsteps.
  - exists d, (quic s). split; [done|]. destruct Ha as (Hw & Hb & Hm & _). split; cbn; try done; congruence.
  - destruct Ha as (Hw & Hb & Hm & Hfr).
    assert (reading fs (read_to d (quic s) s)) as Hr by (split; cbn; try done; congruence).
    assert (frames max (received (stream_id s) (history (quic s))) = (fs, flat d, None)) as Hx.
    { apply took_exhausted; [exact Ht|]. rewrite H2 in Hfr. eapply frames_wait; [apply H1|exact Hfr]. }
    apply wp_stream_recv. intros r t Hh Ho. cbn [stream_id quic] in *. pose proof (reading_chunk fs _ r t Hr Hf Hh Ho) as Hc.
    cbn [read_to receiving stream_id set_frame_decoder frame_decoder] in Hc.
    destruct r as [[[c|]|e]|]; cbn [andthen chunk_for] in *; rewrite ?Z.eqb_refl in Hc; rsteps.
    + eapply wp_mono; [apply (IH fs _ Hc Hf)|]. intros o s' (d' & t' & Hp). exists d', t'.
      by destruct o as [[f|]|e| |].
    + cbn [receiving frame_decoder buffered set_frame_decoder]. unfold buffered. rewrite Hw.
      destruct (Z.eqb_spec (zlen (flat d)) 0) as [E|E]; cbn [negb]; rsteps; exists d, t.
      * split; [done|]. assert (flat d = []) as E' by (destruct (flat d); [done|rewrite zlen_cons in E; pose proof (zlen_nonneg l); lia]).
        by destruct Hc.
      * eapply FCut; [cbn [quic stream_id]; rewrite Hh; apply last_snoc| |intros E'; by rewrite E' in E]. cbn [stream_id quic]. rewrite Hh, received_one, app_nil_r. exact Hx.
    + exists d, t. apply FTransport. cbn [quic stream_id]. rewrite Hh. apply last_snoc.
    + exists d, t. split; [done|]. split; [by destruct Hc|]. unfold exhausted. cbn [read_to stream_id quic receiving]. rewrite Hh, received_one, app_nil_r. exact Hx.
  - exists d, (quic s). destruct Ht as [rest Ht]. by eapply FMalformed.
Qed.

(** ** The calls and what they have handed over *)

Context `{HT : Http} `{HT3 : !Http3}.

(** The calls of a request stream, and what they return. *)
Inductive call : Type :=
| PollHeaders (now : Z)
| PollRecvData (now : Z)
| PollRecvTrailers (now : Z)
| CallSendResponse (status : Z) (headers : list field)
| CallSendData (data : bytes)
| CallSendTrailers (trailers : list field)
| CallFinish.

Inductive reply : Type :=
| GotRequest (r : option Request)
| GotData (d : option bytes)
| GotTrailers (m : option HeaderMap)
| Sent.

Definition perform (fuel : nat) (c : call) : op (RequestStream T) StreamError reply :=
  match c with
  | PollHeaders now => r ← poll_headers fuel now; mret (GotRequest r)
  | PollRecvData now => d ← poll_recv_data fuel now; mret (GotData d)
  | PollRecvTrailers now => m ← poll_recv_trailers fuel now; mret (GotTrailers m)
  | CallSendResponse status headers => _ ← poll_send_response status headers; mret Sent
  | CallSendData data => _ ← poll_send_data data; mret Sent
  | CallSendTrailers trailers => _ ← poll_send_trailers trailers; mret Sent
  | CallFinish => _ ← poll_finish_response; mret Sent
  end.

Definition receives (c : call) : bool :=
  match c with PollHeaders _ | PollRecvData _ | PollRecvTrailers _ => true | _ => false end.

(** What has been handed over: the request, the body, the trailers. *)
Record handed : Type := MkHanded {
  h_request : list Request;
  h_body : list bytes;
  h_trailers : list HeaderMap;
}.
Definition nothing_handed : handed := MkHanded [] [] [].
Definition hand (h : handed) (o : outcome StreamError reply) : handed :=
  match o with
  | Done (GotRequest (Some r)) => MkHanded (h_request h ++ [r]) (h_body h) (h_trailers h)
  | Done (GotData (Some d)) => MkHanded (h_request h) (h_body h ++ [d]) (h_trailers h)
  | Done (GotTrailers (Some m)) => MkHanded (h_request h) (h_body h) (h_trailers h ++ [m])
  | _ => h
  end.

(** A call that was made, the codecs it found, and what it returned. *)
Definition entry : Type := call * SharedCodecs * outcome StreamError reply.
Definition clock (c : call) : option Z :=
  match c with PollHeaders now | PollRecvData now | PollRecvTrailers now => Some now | _ => None end.

(** What the decoder, as the call found it, makes of a block. *)
Definition decodes (id : Z) (block : bytes) (x : entry) (r : result QpackError (option (list field))) : Prop :=
  ∃ now, clock x.1.1 = Some now ∧ match QpackDecoder.decode_block (decoder x.1.2) block id now with
    | Ok (o, _) => r = Ok o
    | Err e => r = Err e
    end.

(** The section that the call found first among those of the stream that came
    unblocked. *)
Definition unblocked_first (id : Z) (x : entry) : option UnblockedSection :=
  match unblocked x.1.2 !! id with Some (section :: _) => Some section | _ => None end.

(** The fields of a block, in the calls made: the decoder decoded them in one of
    the calls, or put the block aside in a call and they were found among the
    unblocked sections of the stream by a later one. *)
Inductive fields_of (tr : list entry) (id : Z) (block : bytes) (hs : list field) : Prop :=
| FieldsDecoded x : x ∈ tr → decodes id block x (Ok (Some hs)) → fields_of tr id block hs
| FieldsUnblocked x y section : [x; y] `sublist_of` tr → decodes id block x (Ok None) →
    unblocked_first id y = Some section → un_headers section = hs → fields_of tr id block hs.

(** The decoder put the block aside. *)
Definition aside_block (tr : list entry) (id : Z) (block : bytes) : Prop := ∃ x, x ∈ tr ∧ decodes id block x (Ok None).

(** The request a block makes. *)
Definition opening (tr : list entry) (id : Z) (block : bytes) (q : Request) : Prop :=
  ∃ hs, fields_of tr id block hs ∧ build_request hs = Ok q.

(** Where the exchange stands: the frames read, what has been handed over of
    them, and the state. *)
Inductive stage (tr : list entry) (id : Z) : list Frame → handed → Receiving → Prop :=
| StWaiting d : stage tr id [] nothing_handed (MkReceiving d true false [] None false false false)
| StBlocked d block : aside_block tr id block →
    stage tr id [Headers block] nothing_handed (MkReceiving d true true [] None false false false)
| StEmpty d : stage tr id [] nothing_handed (MkReceiving d false false [] None false false true)
| StBody d block q body fin : opening tr id block q →
    stage tr id (Headers block :: (Data <$> body)) (MkHanded [q] body []) (MkReceiving d false false [] None false false fin)
| StTrailersBlocked d block q body tb : opening tr id block q → aside_block tr id tb →
    stage tr id (Headers block :: (Data <$> body) ++ [Headers tb]) (MkHanded [q] body [])
      (MkReceiving d false false [] None true false false)
| StTrailers d block q body tb lines fin : opening tr id block q → fields_of tr id tb lines →
    stage tr id (Headers block :: (Data <$> body) ++ [Headers tb]) (MkHanded [q] body [])
      (MkReceiving d false false [] (Some lines) false true fin)
| StDone d block q body tb lines m fin : opening tr id block q → fields_of tr id tb lines → header_map lines = Ok m →
    stage tr id (Headers block :: (Data <$> body) ++ [Headers tb]) (MkHanded [q] body [m])
      (MkReceiving d false false [] None false true fin).

(** What the calls made has been found out stays so. *)
Lemma fields_more tr tr' id block hs : fields_of tr id block hs → fields_of (tr ++ tr') id block hs.
Proof.
  intros [x Hx Hd|x y section Hs Hd Hu <-]; [eapply FieldsDecoded; [|exact Hd]; set_solver|].
  eapply FieldsUnblocked; [|done..]. by apply sublist_inserts_r.
Qed.

Lemma aside_more tr tr' id block : aside_block tr id block → aside_block (tr ++ tr') id block.
Proof. intros (x & Hx & Hd). exists x. split; [set_solver|done]. Qed.

Lemma opening_more tr tr' id block q : opening tr id block q → opening (tr ++ tr') id block q.
Proof. intros (hs & Hf & Hb). exists hs. split; [by apply fields_more|done]. Qed.

Lemma stage_more tr tr' id fs hd r : stage tr id fs hd r → stage (tr ++ tr') id fs hd r.
Proof. intros Hs. inversion Hs; subst; econstructor; eauto using fields_more, aside_more, opening_more. Qed.

(** The frames a request stream may carry, and those a call takes. *)
Definition request_frames (fs : list Frame) : Prop :=
  fs = [] ∨ ∃ block body, fs = Headers block :: (Data <$> body)
    ∨ ∃ tb, fs = Headers block :: (Data <$> body) ++ [Headers tb].
Definition misplaced (c : call) (fs : list Frame) (f : Frame) : Prop :=
  ¬ request_frames (fs ++ [f]) ∨ ((if c is PollRecvTrailers _ then true else false) ∧ ∃ d, f = Data d).

(** Why the call [x], after the calls [tr], fails. *)
Inductive fault (tr : list entry) (x : entry) (fs : list Frame) (id : Z) (h : list event) : StreamError → Prop :=
| JFrame e : frame_fault fs id h e → fault tr x fs id h e
| JPlace f rest : took max (received id h) (fs ++ [f]) rest → misplaced x.1.1 fs f → fault tr x fs id h UnexpectedFrame
| JQpack block rest e : took max (received id h) (fs ++ [Headers block]) rest → decodes id block x (Err e) →
    fault tr x fs id h (QpackFailed e)
| JRequest now block rest hs : x.1.1 = PollHeaders now → took max (received id h) [Headers block] rest →
    fields_of (tr ++ [x]) id block hs → build_request hs = Err MessageError → fault tr x fs id h MessageError
| JTrailers now block body tb rest hs : x.1.1 = PollRecvTrailers now →
    took max (received id h) (Headers block :: (Data <$> body) ++ [Headers tb]) rest →
    fields_of (tr ++ [x]) id tb hs → header_map hs = Err MessageError → fault tr x fs id h MessageError.

Definition stands (tr : list entry) (hd : handed) (fs : list Frame) (s : RequestStream T) : Prop :=
  reading fs s ∧ stage tr (stream_id s) fs hd (receiving s).

(** Whether a call collects the section of a block that was put aside. *)
Definition collects (c : call) (hd : handed) : Prop :=
  match c with PollHeaders _ => h_request hd = [] | PollRecvTrailers _ => h_request hd ≠ [] | _ => False end.

(** Why the call [x] answers [Pending]: it waits for the transport; for a block
    that the decoder puts aside, or that was put aside and is not yet among the
    unblocked sections of the stream; for the request; or for the trailers to be
    collected. *)
Inductive waits (tr : list entry) (x : entry) (hd : handed) (fs : list Frame) (s : RequestStream T) : Prop :=
| WRead : exhausted fs s → waits tr x hd fs s
| WBlocked block : last fs = Some (Headers block) → collects x.1.1 hd →
    decodes (stream_id s) block x (Ok None)
    ∨ aside_block tr (stream_id s) block ∧ unblocked_first (stream_id s) x = None → waits tr x hd fs s
| WRequest : h_request hd = [] → (∀ now, x.1.1 ≠ PollHeaders now) → waits tr x hd fs s
| WTrailers now tb : x.1.1 = PollRecvData now → last fs = Some (Headers tb) → h_request hd ≠ [] →
    aside_block tr (stream_id s) tb → waits tr x hd fs s.

(** What the call [c], which found the codecs [k], answers. *)
Definition answers (tr : list entry) (c : call) (k : SharedCodecs) (hd : handed) (fs : list Frame)
    (o : outcome StreamError reply) (s' : RequestStream T) : Prop :=
  let x := (c, k, o) in
  match o with
  | Done _ => ∃ fs', stands (tr ++ [x]) (hand hd o) fs' s'
  | Wait => ∃ fs', stands (tr ++ [x]) hd fs' s' ∧ waits tr x hd fs' s'
  | Fail e => fault tr x fs (stream_id s') (history (quic s')) e
  | Stuck => True
  end.

(** *** Small steps *)

Lemma reading_same fs s s' : reading fs s →
  frame_decoder (receiving s') = frame_decoder (receiving s) → stream_id s' = stream_id s →
  history (quic s') = history (quic s) → recv_finished (receiving s') = recv_finished (receiving s) → reading fs s'.
Proof. intros [H1 H2 H3 H4 H5] E1 E2 E3 E4. split; rewrite ?E1, ?E2, ?E3, ?E4; done. Qed.

Lemma exhausted_same fs s s' : exhausted fs s → frame_decoder (receiving s') = frame_decoder (receiving s) →
  stream_id s' = stream_id s → quic s' = quic s → exhausted fs s'.
Proof. unfold exhausted. intros E E1 E2 E3. by rewrite E1, E2, E3. Qed.

Lemma wp_decode now block Q (s : RequestStream T) :
  match QpackDecoder.decode_block (decoder (codecs s)) block (stream_id s) now with
  | Ok (o, d) => Q (Done o) (MkRequestStream (stream_id s) (receiving s) (sending s) (set_decoder d (codecs s)) (quic s))
  | Err e => Q (Fail (QpackFailed e)) s
  end → wp (decode_block now block) Q s.
Proof.
  intros HQ. unfold decode_block. rsteps. apply wp_lift.
  destruct (QpackDecoder.decode_block _ _ _ _) as [[o d]|e]; cbn [andthen]; [by rsteps|done].
Qed.

Lemma wp_take Q (s : RequestStream T) :
  match take_unblocked_for (stream_id s) (codecs s) with
  | Some (section, sh) => Q (Done section) (MkRequestStream (stream_id s) (receiving s) (sending s) sh (quic s))
  | None => Q Wait s
  end → wp take_unblocked Q s.
Proof.
  intros HQ. unfold take_unblocked. rsteps. destruct (take_unblocked_for _ _) as [[section sh]|]; [by rsteps|done].
Qed.

Lemma wp_finish Q (s : RequestStream T) :
  Q (Done ()) (MkRequestStream (stream_id s) (set_recv_finished (receiving s)) (sending s)
    (set_decoder (stream_finished (decoder (codecs s)) (stream_id s)) (codecs s)) (quic s)) →
  wp finish_recv Q s.
Proof. intros HQ. unfold finish_recv. by rsteps. Qed.

(** Reading the next frame, seen from the calls. *)
Lemma wp_frame fuel fs s Q : reading fs s → recv_finished (receiving s) = false →
  (∀ f d t, reading (fs ++ [f]) (read_to d t s) → Q (Done (Some f)) (read_to d t s)) →
  (∀ d t, reading fs (finished (read_to d t s)) → Q (Done None) (finished (read_to d t s))) →
  (∀ d t, reading fs (read_to d t s) → exhausted fs (read_to d t s) → Q Wait (read_to d t s)) →
  (∀ e s', frame_fault fs (stream_id s') (history (quic s')) e → Q (Fail e) s') →
  (∀ s', Q Stuck s') →
  wp (poll_frame fuel) Q s.
Proof.
  intros Hr Hf H1 H2 H3 H4 H5. eapply wp_mono; [by apply poll_frame_spec|]. intros o s' (d & t & Hp).
  destruct o as [[f|]|e| |].
  - destruct Hp as [-> ?]. by apply H1.
  - destruct Hp as [-> ?]. by apply H2.
  - by apply H4.
  - destruct Hp as (-> & ? & ?). by apply H3.
  - apply H5.
Qed.

(** The frames after the first, and after the trailers. *)
Lemma request_first f : request_frames [f] → ∃ block, f = Headers block.
Proof.
  intros [?|(block & body & [[= ->]|(tb & [= -> E])])]; [done|eauto|]. by destruct body.
Qed.

Lemma request_next block body f : request_frames ((Headers block :: (Data <$> body)) ++ [f]) →
  (∃ d, f = Data d) ∨ ∃ tb, f = Headers tb.
Proof.
  intros [?|(block' & body' & [[= -> E]|(tb & [= -> E])])]; [done| |].
  - left. destruct body' as [|d body' _] using rev_ind; [by destruct body|].
    rewrite fmap_app in E. apply app_inj_tail in E as [_ ->]. eauto.
  - apply app_inj_tail in E as [_ ->]. eauto.
Qed.

Lemma data_no_headers (body k : list bytes) l tb : Data <$> k = (Data <$> body) ++ Headers tb :: l → False.
Proof.
  intros E. assert (Headers tb ∈ Data <$> k) as (d & ? & _)%list_elem_of_fmap; [|done]. rewrite E. set_solver.
Qed.

Lemma request_over block body tb f : ¬ request_frames ((Headers block :: (Data <$> body) ++ [Headers tb]) ++ [f]).
Proof.
  intros [?|(block' & body' & [[= -> E]|(tb' & [= -> E])])]; [done| |].
  - rewrite <- app_assoc in E. symmetry in E. by eapply data_no_headers.
  - apply app_inj_tail in E as [E _]. symmetry in E. by eapply data_no_headers.
Qed.

Lemma reading_took fs s : reading fs s →
  took max (received (stream_id s) (history (quic s))) fs (flat (frame_decoder (receiving s))).
Proof. by intros []. Qed.

Lemma fields_now tr c k o id block now hs d : clock c = Some now →
  QpackDecoder.decode_block (decoder k) block id now = Ok (Some hs, d) → fields_of (tr ++ [(c, k, o)]) id block hs.
Proof. intros Hc E. apply (FieldsDecoded _ _ _ _ (c, k, o)); [set_solver|]. exists now. cbn. by rewrite E. Qed.

Lemma aside_now c k o id block now d : clock c = Some now → QpackDecoder.decode_block (decoder k) block id now = Ok (None, d) →
  decodes id block (c, k, o) (Ok None).
Proof. intros Hc E. exists now. cbn. by rewrite E. Qed.

Lemma aside_last tr x id block : decodes id block x (Ok None) → aside_block (tr ++ [x]) id block.
Proof. intros Hd. exists x. split; [set_solver|done]. Qed.

Lemma fields_later tr c k o id block section sh' : aside_block tr id block → take_unblocked_for id k = Some (section, sh') →
  fields_of (tr ++ [(c, k, o)]) id block (un_headers section).
Proof.
  intros (x & Hx & Hd) E. eapply (FieldsUnblocked _ _ _ _ x (c, k, o) section); [|exact Hd| |done].
  - apply (sublist_app [x]); [by apply singleton_sublist_l|done].
  - unfold unblocked_first. cbn. unfold take_unblocked_for in E. destruct (unblocked k !! id) as [[|sec q]|]; try done. by injection E as <- _.
Qed.

Lemma none_later c k o id : take_unblocked_for id k = None → unblocked_first id (c, k, o) = None.
Proof. unfold take_unblocked_for, unblocked_first. cbn. by destruct (unblocked k !! id) as [[|sec q]|]. Qed.

Lemma header_map_Err hs e : header_map hs = Err e → e = MessageError.
Proof.
  unfold header_map. generalize header_map_new as m. induction hs as [|[n v] hs IH]; intros m; [done|].
  cbn [header_map_loop]. unfold field_name, fail_if, ok_or. repeat (case_match; cbn; try congruence). apply IH.
Qed.

(** What follows the trailers. *)
Lemma after_trailers_spec fuel fs s tr c k Q : reading fs s → recv_finished (receiving s) = false →
  (∀ f, ¬ request_frames (fs ++ [f])) →
  (∀ d t, reading fs (finished (read_to d t s)) → Q (Done ()) (finished (read_to d t s))) →
  (∀ d t, reading fs (read_to d t s) → exhausted fs (read_to d t s) → Q Wait (read_to d t s)) →
  (∀ e s', fault tr (c, k, Fail e) fs (stream_id s') (history (quic s')) e → Q (Fail e) s') →
  (∀ s', Q Stuck s') →
  wp (poll_after_trailers fuel) Q s.
Proof.
  intros Hr Hf Ho HD HW HF HS. destruct fuel as [|fuel]; cbn [poll_after_trailers]; [apply HS|]. rsteps.
  apply (wp_frame _ fs _ _ Hr Hf); cbn [andthen].
  - intros f d t Hr'. assert (is_known f = true) as -> by (by destruct f). rsteps. apply HF.
    eapply JPlace; [apply (reading_took _ _ Hr')|left; apply Ho].
  - intros d t Hr'. rsteps. by apply HD.
  - apply HW.
  - intros e s' He. apply HF. by apply JFrame.
  - apply HS.
Qed.

(** The calls that leave everything as it is. *)
Lemma stands_idle tr x hd fs s : stands tr hd fs s → stands (tr ++ [x]) hd fs s.
Proof. intros [Hr Hs]. split; [done|]. by apply stage_more. Qed.

#[local] Hint Resolve fields_more aside_more opening_more aside_last fields_now aside_now fields_later : stages.

Lemma headers_spec fuel now tr hd fs s : stands tr hd fs s →
  wp (perform fuel (PollHeaders now)) (answers tr (PollHeaders now) (codecs s) hd fs) s.
Proof.
  intros Hst. pose proof Hst as [Hr Hs]. destruct s as [id r w sh t]. cbn [receiving stream_id codecs] in *. unfold perform, poll_headers. rsteps.
  inversion Hs; subst; cbn [receiving headers_blocked awaiting_headers negb]; rsteps; try (eexists; by apply stands_idle).
  - apply (wp_frame _ [] _ _ Hr); [done|..].
    + intros f d' t' Hr'. cbn [andthen]. pose proof (reading_took _ _ Hr') as Ht.
      destruct f as [|block|settings|i|i p|i|i]; try (rsteps; eapply JPlace; [exact Ht|left; by intros (? & ?)%request_first]).
      rsteps. apply wp_decode. cbn [stream_id codecs read_to].
      destruct (QpackDecoder.decode_block _ _ _ _) as [[[hs|] d2]|e] eqn:E; cbn [andthen].
      * rsteps. apply wp_lift. destruct (build_request hs) as [q|e] eqn:Eq; cbn [andthen].
        -- rsteps. eexists. split; [by eapply reading_same|]. apply (StBody _ id d' block q [] false). exists hs. eauto with stages.
        -- pose proof (build_request_Err _ _ Eq) as ->. eapply (JRequest _ _ _ _ _ now block); [done|exact Ht|by eauto with stages|exact Eq].
      * rsteps. eexists. split; [split; [by eapply reading_same|constructor; by eauto with stages]|].
        eapply (WBlocked _ _ _ _ _ block); [done|done|left; by eauto with stages].
      * eapply JQpack; [exact Ht|]. exists now. cbn. by rewrite E.
    + intros d' t' Hr'. cbn [andthen]. rsteps. apply wp_finish. cbn [andthen]. rsteps.
      eexists. split; [by eapply reading_same|]. apply StEmpty.
    + intros d' t' Hr' He. cbn [andthen]. eexists. split; [split; [exact Hr'|constructor]|]. by apply WRead.
    + intros e s' He. cbn. by apply JFrame.
    + done.
  - apply wp_take. cbn [stream_id codecs].
    destruct (take_unblocked_for id sh) as [[section sh']|] eqn:E; cbn [andthen].
    + rsteps. apply wp_lift. destruct (build_request _) as [q|e] eqn:Eq; cbn [andthen].
      * rsteps. eexists. split; [by eapply reading_same|]. apply (StBody _ id d block q [] false). eexists; eauto with stages.
      * pose proof (build_request_Err _ _ Eq) as ->.
        eapply (JRequest _ _ _ _ _ now block); [done|apply (reading_took _ _ Hr)|by eauto with stages|exact Eq].
    + eexists. split; [by apply stands_idle|]. eapply (WBlocked _ _ _ _ _ block); [done|done|right]. split; [done|by apply none_later].
Qed.

Lemma body_grows block (body : list bytes) data :
  (Headers block :: (Data <$> body)) ++ [Data data] = Headers block :: (Data <$> body ++ [data]).
Proof. by rewrite fmap_app. Qed.

Lemma last_trailers block (body : list bytes) tb : last (Headers block :: (Data <$> body) ++ [Headers tb]) = Some (Headers tb).
Proof. rewrite app_comm_cons. apply last_snoc. Qed.

Lemma data_spec fuel now tr hd fs s : stands tr hd fs s →
  wp (perform fuel (PollRecvData now)) (answers tr (PollRecvData now) (codecs s) hd fs) s.
Proof.
  intros Hst. pose proof Hst as [Hr Hs]. destruct s as [id r w sh t]. cbn [receiving stream_id codecs] in *. unfold perform, poll_recv_data. rsteps.
  inversion Hs; subst; cbn [receiving recv_data recv_finished awaiting_headers headers_blocked trailers_blocked trailers_done orb].
  - eexists. split; [by apply stands_idle|]. by apply WRequest.
  - eexists. split; [by apply stands_idle|]. by apply WRequest.
  - rsteps. eexists. by apply stands_idle.
  - destruct fin; rsteps; [eexists; by apply stands_idle|].
    apply (wp_frame _ _ _ _ Hr); [done|..].
    + intros f d' t' Hr'. cbn [andthen]. pose proof (reading_took _ _ Hr') as Ht.
      destruct f as [data|tb|settings|i|i p|i|i];
        try (rsteps; eapply JPlace; [exact Ht|left; by intros [(? & ?)|(? & ?)]%request_next]).
      * rsteps. eexists. split; [exact Hr'|]. rewrite body_grows. apply StBody. by eauto with stages.
      * rsteps. apply wp_decode. cbn [stream_id codecs read_to].
        destruct (QpackDecoder.decode_block _ _ _ _) as [[[hs|] d2]|e] eqn:E; cbn [andthen].
        -- rsteps. eexists. split; [by eapply reading_same|]. apply StTrailers; by eauto with stages.
        -- rsteps. eexists. split; [by eapply reading_same|]. apply StTrailersBlocked; by eauto with stages.
        -- eapply JQpack; [exact Ht|]. exists now. cbn. by rewrite E.
    + intros d' t' Hr'. cbn [andthen]. rsteps. apply wp_finish. cbn [andthen]. rsteps.
      eexists. split; [by eapply reading_same|]. apply (StBody _ id d' block q body true). by eauto with stages.
    + intros d' t' Hr' He. cbn [andthen]. eexists. split; [split; [exact Hr'|apply (StBody _ id d' block q body false); by eauto with stages]|]. by apply WRead.
    + intros e s' He. cbn. by apply JFrame.
    + done.
  - eexists. split; [by apply stands_idle|]. eapply (WTrailers _ _ _ _ _ now tb); [done|apply last_trailers|done|done].
  - destruct fin; rsteps; [eexists; by apply stands_idle|].
    eapply (after_trailers_spec _ _ _ tr (PollRecvData now) sh _ Hr); [done|apply request_over|..]; cbn [andthen]; try done.
    + intros d' t' Hr'. rsteps. apply wp_finish. cbn [andthen]. rsteps.
      eexists. split; [by eapply reading_same|]. eapply StTrailers; by eauto with stages.
    + intros d' t' Hr' He. eexists. split; [split; [exact Hr'|eapply StTrailers; by eauto with stages]|]. by apply WRead.
  - destruct fin; rsteps; [eexists; by apply stands_idle|].
    eapply (after_trailers_spec _ _ _ tr (PollRecvData now) sh _ Hr); [done|apply request_over|..]; cbn [andthen]; try done.
    + intros d' t' Hr'. rsteps. apply wp_finish. cbn [andthen]. rsteps.
      eexists. split; [by eapply reading_same|]. eapply StDone; by eauto with stages.
    + intros d' t' Hr' He. eexists. split; [split; [exact Hr'|eapply StDone; by eauto with stages]|]. by apply WRead.
Qed.

(** Trailers asked for when the body has been read. *)
Lemma trailers_after_body fuel now tr id d block q body w sh t (s := MkRequestStream id (MkReceiving d false false [] None false false false) w sh t) :
  reading (Headers block :: (Data <$> body)) s → opening tr id block q →
  wp (perform fuel (PollRecvTrailers now))
    (answers tr (PollRecvTrailers now) sh (MkHanded [q] body []) (Headers block :: (Data <$> body))) s.
Proof.
  intros Hr Hq. subst s. unfold perform, poll_recv_trailers. rsteps.
  cbn [receiving trailers_lines recv_finished awaiting_headers headers_blocked trailers_blocked trailers_done orb]. rsteps.
  apply (wp_frame _ _ _ _ Hr); [done|..].
  + intros f d' t' Hr'. cbn [andthen]. pose proof (reading_took _ _ Hr') as Ht.
    destruct f as [data|tb|settings|i|i p|i|i];
      try (rsteps; eapply JPlace; [exact Ht|first [by right; split; [done|eauto]|left; by intros [(? & ?)|(? & ?)]%request_next]]).
    rsteps. apply wp_decode. cbn [stream_id codecs read_to].
    destruct (QpackDecoder.decode_block _ _ _ _) as [[[hs|] d2]|e] eqn:E; cbn [andthen].
    * rsteps. apply wp_lift. destruct (header_map hs) as [m|e] eqn:Em; cbn [andthen].
      -- rsteps. eexists. split; [by eapply reading_same|]. eapply StDone; by eauto with stages.
      -- pose proof (header_map_Err _ _ Em) as ->.
         eapply (JTrailers _ _ _ _ _ now block body tb); [done|exact Ht|by eauto with stages|exact Em].
    * rsteps. eexists. split; [split; [by eapply reading_same|apply StTrailersBlocked; by eauto with stages]|].
      eapply (WBlocked _ _ _ _ _ tb); [apply last_trailers|done|left; by eauto with stages].
    * eapply JQpack; [exact Ht|]. exists now. cbn. by rewrite E.
  + intros d' t' Hr'. cbn [andthen]. rsteps. apply wp_finish. cbn [andthen]. rsteps.
    eexists. split; [by eapply reading_same|]. apply (StBody _ id d' block q body true). by eauto with stages.
  + intros d' t' Hr' He. cbn [andthen]. eexists. split; [split; [exact Hr'|apply (StBody _ id d' block q body false); by eauto with stages]|]. by apply WRead.
  + intros e s' He. cbn. by apply JFrame.
  + done.
Qed.

Lemma trailers_spec fuel now tr hd fs s : stands tr hd fs s →
  wp (perform fuel (PollRecvTrailers now)) (answers tr (PollRecvTrailers now) (codecs s) hd fs) s.
Proof.
  intros Hst. pose proof Hst as [Hr Hs]. destruct s as [id r w sh t]. cbn [receiving stream_id codecs] in *. inversion Hs; subst;
    [| | |destruct fin; [|by apply trailers_after_body]| | |]; unfold perform, poll_recv_trailers; rsteps; cbn [receiving trailers_lines recv_finished awaiting_headers headers_blocked trailers_blocked trailers_done orb].
  - eexists. split; [by apply stands_idle|]. by apply WRequest.
  - eexists. split; [by apply stands_idle|]. by apply WRequest.
  - rsteps. eexists. by apply stands_idle.
  - rsteps. eexists. by apply stands_idle.
  - rsteps. apply wp_take. cbn [stream_id codecs].
    destruct (take_unblocked_for id sh) as [[section sh']|] eqn:E; cbn [andthen].
    + rsteps. apply wp_lift. destruct (header_map _) as [m|e] eqn:Em; cbn [andthen].
      * rsteps. eexists. split; [by eapply reading_same|]. eapply StDone; by eauto with stages.
      * pose proof (header_map_Err _ _ Em) as ->.
        eapply (JTrailers _ _ _ _ _ now block body tb); [done|apply (reading_took _ _ Hr)|by eauto with stages|exact Em].
    + eexists. split; [by apply stands_idle|]. eapply (WBlocked _ _ _ _ _ tb); [apply last_trailers|done|right]. split; [done|by apply none_later].
  - rsteps. apply wp_lift. destruct (header_map lines) as [m|e] eqn:Em; cbn [andthen].
    + rsteps. eexists. split; [by eapply reading_same|]. eapply StDone; by eauto with stages.
    + pose proof (header_map_Err _ _ Em) as ->.
      eapply (JTrailers _ _ _ _ _ now block body tb); [done|apply (reading_took _ _ Hr)|by eauto with stages|exact Em].
  - destruct fin; rsteps; [eexists; by apply stands_idle|].
    eapply (after_trailers_spec _ _ _ tr (PollRecvTrailers now) sh _ Hr); [done|apply request_over|..]; cbn [andthen]; try done.
    + intros d' t' Hr'. rsteps. apply wp_finish. cbn [andthen]. rsteps.
      eexists. split; [by eapply reading_same|]. eapply StDone; by eauto with stages.
    + intros d' t' Hr' He. eexists. split; [split; [exact Hr'|eapply StDone; by eauto with stages]|]. by apply WRead.
Qed.
End frames.
