(* ===== verification/H3StreamSend.v ===== *)
(** * What a request stream writes

    Every accepted call of the send side puts its frame on the stream once, in
    the order of the calls, however often the transport makes it wait. *)

From S2P Require Import Prelude H3Error Varint H3Frame HpackTable H2Request QpackTable QpackString QpackEncoder.
From S2P Require Import Poll H3Transport H3Shared H3Request H3Stream H3StreamSpec.

Section sending.
Context {T : Type} `{Recorded T} `{HT : Http} `{HT3 : !Http3}.

(** The frame of a call.  A field section is what the connection's encoder made
    of the fields when the call was accepted. *)
Inductive emits (id : Z) : call → Frame → Prop :=
| EResponse status headers e : emits id (CallSendResponse status headers)
    (Headers (block (encode_section_with_ack_base e id ((b ":status", status_str status) :: headers)).1))
| EData data : emits id (CallSendData data) (Data data)
| ETrailers trailers e : emits id (CallSendTrailers trailers) (Headers (block (encode_section_with_ack_base e id trailers).1)).

(** The calls that were accepted, and whether the last one still waits: a call
    that is polled again is the same call. *)
Definition note (a : bool * list call) (x : call * outcome StreamError reply) : bool * list call :=
  match x.1 with
  | CallSendResponse _ _ | CallSendData _ | CallSendTrailers _ =>
      let accepted := if a.1 then a.2 else a.2 ++ [x.1] in
      match x.2 with
      | Done _ => (false, accepted)
      | Wait | Fail (TransportError_ _) => (true, accepted)
      | _ => a
      end
  | _ => a
  end.

(** The final responses among the calls. *)
Definition is_final (c : call) : bool :=
  match c with CallSendResponse status _ => negb (is_informational status) | _ => false end.
Definition finals (cs : list call) : list call := filter is_final cs.
Definition pending_final (p : PendingSend) : bool :=
  match p with SendResponse status => negb (is_informational status) | _ => false end.

(** No second final response, and trailers only after one. *)
Definition in_order (cs : list call) : Prop :=
  (length (finals cs) ≤ 1)%nat
  ∧ ∀ l k trailers, cs = l ++ CallSendTrailers trailers :: k → length (finals l) = 1%nat.

(** The frames of the accepted calls are on the stream or wait for it. *)
Definition carries (cs : list call) (fs : list Frame) (s : RequestStream T) : Prop :=
  Forall2 (emits (stream_id s)) cs fs
  ∧ written (stream_id s) (history (quic s)) ++ mjoin (send_buf (sending s)) = mjoin (H3Frame.encode <$> fs).

(** The flags of the send state after the calls. *)
Record flags (a : bool * list call) (w : Sending) : Prop := MkFlags {
  fl_busy : a.1 = false ↔ pending_send w = NoSend;
  fl_finals : length (finals a.2) = (if sent_headers w || pending_final (pending_send w) then 1 else 0)%nat;
  fl_once : sent_headers w = true → pending_final (pending_send w) = false;
  fl_order : in_order a.2;
}.

Definition sends (a : bool * list call) (s : RequestStream T) : Prop :=
  (∃ fs, carries a.2 fs s) ∧ (a.1 = false → send_buf (sending s) = []) ∧ flags a (sending s).

(** ** Draining the buffer *)

(** The buffer after some of it was handed to the transport. *)
Definition drained_to (s : RequestStream T) (o : outcome StreamError ()) (s' : RequestStream T) : Prop :=
  ∃ buf t, s' = MkRequestStream (stream_id s) (receiving s) (set_send_buf buf (sending s)) (codecs s) t
  ∧ written (stream_id s) (history t) ++ mjoin buf = written (stream_id s) (history (quic s)) ++ mjoin (send_buf (sending s))
  ∧ match o with
    | Done _ => buf = []
    | Wait => True
    | Fail e => ∃ x, e = TransportError_ x
    | Stuck => False
    end.

Lemma wp_stream_send id data Q (s : RequestStream T) :
  (∀ r t, history t = history (quic s) ++ done_event (Wrote id data) r →
    let s' := MkRequestStream (stream_id s) (receiving s) (sending s) (codecs s) t in
    match r with
    | Ready (Ok o) => Q (Done o) s'
    | Ready (Err e) => Q (Fail (TransportError_ e)) s'
    | Pending => Q Wait s'
    end) → wp (ready (call_stream (poll_send id data))) Q s.
Proof.
  intros HQ. apply wp_ready. unfold wp, call_stream. pose proof (history_send id data (quic s)) as Hh.
  destruct (poll_send id data (quic s)) as [r t]. cbn in Hh. specialize (HQ r t Hh). by destruct r as [[o|e]|].
Qed.

Lemma drain_buf buf : ∀ s, send_buf (sending s) = buf → wp (drain_send_buf buf) (drained_to s) s.
Proof.
  induction buf as [|c buf IH]; intros s Hb; cbn [drain_send_buf]; rsteps.
  { exists [], (quic s). rewrite Hb. split; [|done]. destruct s as [? ? [] ? ?]. cbn in *. by subst. }
  apply wp_stream_send. intros r t Hh. destruct r as [[[]|e]|]; cbn [andthen].
  - assert (written (stream_id s) (history t) = written (stream_id s) (history (quic s)) ++ c) as Ht
      by (by rewrite Hh, written_one, Z.eqb_refl).
    rsteps. eapply wp_mono; [by apply IH|]. intros o s' (buf' & t' & -> & Hw & Ho).
    exists buf', t'. split; [by destruct s as [? ? [] ? ?]|]. split; [|done]. cbn [stream_id quic sending send_buf set_send_buf] in *.
    rewrite Hw, Ht, Hb. change (mjoin (c :: buf)) with (c ++ mjoin buf). by rewrite app_assoc.
  - exists (c :: buf), t. split; [destruct s as [? ? [] ? ?]; cbn in *; by subst|]. split; [|by exists e].
    by rewrite Hh, written_one, app_nil_r, Hb.
  - exists (c :: buf), t. split; [destruct s as [? ? [] ? ?]; cbn in *; by subst|]. split; [|done].
    by rewrite Hh, written_one, app_nil_r, Hb.
Qed.

Lemma wp_write s Q : (∀ o s', drained_to s o s' → Q o s') → wp (poll_write []) Q s.
Proof. intros HQ. unfold poll_write. rsteps. rewrite bool_decide_true by done. rsteps. eapply wp_mono; [by apply drain_buf|done]. Qed.

Lemma wp_parts first second s Q :
  (∀ l, mjoin l = first ++ second → ∀ o s', drained_to (MkRequestStream (stream_id s) (receiving s)
      (set_send_buf (send_buf (sending s) ++ l) (sending s)) (codecs s) (quic s)) o s' → Q o s') →
  wp (poll_write_parts first second) Q s.
Proof.
  intros HQ. unfold poll_write_parts.
  assert (∀ l, mjoin l = first ++ second →
    wp (_ ← on_sending (λ w, set_send_buf (send_buf w ++ l) w); poll_write []) Q s) as Hl.
  { intros l Hl. rsteps. apply wp_write. by apply HQ. }
  assert (mjoin [] = first ++ second → wp (poll_write []) Q s) as Hn.
  { intros E. apply wp_write. intros o s' Hd. apply (HQ [] E). rewrite app_nil_r. by destruct s as [? ? [] ? ?]. }
  case_bool_decide as E1; case_bool_decide as E2; subst.
  - by apply Hn.
  - apply Hl. cbn. by rewrite app_nil_r.
  - apply Hl. cbn. by rewrite app_nil_r.
  - apply wp_bind. destruct (_ <=? _); rsteps; (apply wp_write; apply HQ; cbn; by rewrite !app_nil_r).
Qed.

(** ** The calls *)

Lemma carries_drained cs fs s o s' : carries cs fs s → drained_to s o s' → carries cs fs s'.
Proof. intros [H1 H2] (buf & t & -> & Hw & _). split; [done|]. cbn. by rewrite Hw, H2. Qed.

Lemma carries_new cs fs s c f l s' : carries cs fs s → emits (stream_id s) c f → send_buf (sending s) = [] →
  mjoin l = H3Frame.encode f → stream_id s' = stream_id s → quic s' = quic s → send_buf (sending s') = l →
  carries (cs ++ [c]) (fs ++ [f]) s'.
Proof.
  intros [H1 H2] He Hb Hl E1 E2 E3. unfold carries. rewrite E1, E2, E3. split; [by apply Forall2_app; [|constructor]|].
  rewrite Hb, app_nil_r in H2. rewrite H2, fmap_app, join_app, Hl. cbn. by rewrite app_nil_r.
Qed.

Lemma finals_app l k : finals (l ++ k) = finals l ++ finals k.
Proof. apply filter_app. Qed.

Lemma in_order_snoc cs c : in_order cs → (length (finals (cs ++ [c])) ≤ 1)%nat →
  ((∃ trailers, c = CallSendTrailers trailers) → length (finals cs) = 1%nat) → in_order (cs ++ [c]).
Proof.
  intros [H1 H2] Hl Hc. split; [done|]. intros l k trailers E.
  destruct k as [|x k _] using rev_ind.
  - apply app_inj_tail in E as [-> ->]. apply Hc. eauto.
  - rewrite app_comm_cons, app_assoc in E. apply app_inj_tail in E as [E _]. by eapply H2.
Qed.

(** A call is accepted. *)
Lemma flags_new cs c w p w' : flags (false, cs) w → pending_send w' = p → sent_headers w' = sent_headers w → p ≠ NoSend →
  is_final c = pending_final p → (is_final c = true → sent_headers w = false) →
  ((∃ trailers, c = CallSendTrailers trailers) → sent_headers w = true) → flags (true, cs ++ [c]) w'.
Proof.
  intros [H1 H2 H3 H4] Ep Es Hp Hf Hn Ht. cbn [fst snd] in *. destruct H1 as [H1 _]. rewrite H1 in * by done. rewrite orb_false_r in H2.
  assert (length (finals (cs ++ [c])) = length (finals cs) + if is_final c then 1 else 0)%nat as El.
  { rewrite finals_app, length_app. f_equal. unfold finals. rewrite filter_cons. by destruct (is_final c). }
  split; cbn [fst snd]; rewrite ?Ep, ?Es.
  - naive_solver.
  - rewrite El, H2. rewrite <- Hf. destruct (is_final c); [by rewrite Hn|]. by rewrite orb_false_r, Nat.add_0_r.
  - intros E. rewrite <- Hf. destruct (is_final c); [|done]. rewrite Hn in E; done.
  - apply in_order_snoc; [done|rewrite El, H2; destruct (is_final c); [rewrite Hn by done; lia|destruct (sent_headers w); lia]|].
    intros Hc. by rewrite H2, Ht.
Qed.

(** Its frame has gone out. *)
Lemma flags_done cs w w' : flags (true, cs) w → pending_send w' = NoSend →
  sent_headers w' = sent_headers w || pending_final (pending_send w) → flags (false, cs) w'.
Proof.
  intros [H1 H2 H3 H4] Ep Es. split; cbn [fst snd] in *; rewrite ?Ep, ?Es; [done| |done|done].
  by rewrite orb_false_r.
Qed.

Lemma flags_buf a w buf : flags a (set_send_buf buf w) ↔ flags a w.
Proof. split; intros [H1 H2 H3 H4]; by split. Qed.

(** A frame is queued and drained. *)
Lemma new_frame cs fs s c f first second w k Q :
  carries cs fs s → flags (false, cs) (sending s) → send_buf (sending s) = [] → emits (stream_id s) c f →
  first ++ second = H3Frame.encode f → send_buf w = [] → flags (true, cs ++ [c]) w →
  (∀ s', carries (cs ++ [c]) (fs ++ [f]) s' → send_buf (sending s') = [] → sending s' = w → Q (Done ()) s') →
  (∀ o s', (o = Wait ∨ ∃ x, o = Fail (TransportError_ x)) → sends (true, cs ++ [c]) s' → Q o s') →
  k = MkRequestStream (stream_id s) (receiving s) w (codecs s) (quic s) →
  wp (poll_write_parts first second) Q k.
Proof.
  intros Hc Hf Hb He Hl Ew Hw HD HW ->. apply wp_parts. intros l El o s' Hd. cbn [stream_id receiving sending codecs quic] in Hd. rewrite Ew in Hd.
  assert (carries (cs ++ [c]) (fs ++ [f]) (MkRequestStream (stream_id s) (receiving s) (set_send_buf l w) (codecs s) (quic s))) as Hn
    by (eapply (carries_new _ _ _ _ _ l); [exact Hc|exact He|exact Hb|congruence|done..]).
  pose proof (carries_drained _ _ _ _ _ Hn Hd) as Hs. destruct Hd as (buf & t & -> & _ & Ho).
  destruct o as [[]|e| |]; [|destruct Ho as [x ->]| |done].
  - subst buf. apply HD; [done|done|]. destruct w; cbn in *. by subst.
  - apply HW; [right; eauto|]. split; [by eexists|]. split; [done|]. cbn. by rewrite !flags_buf.
  - apply HW; [by left|]. split; [by eexists|]. split; [done|]. cbn. by rewrite !flags_buf.
Qed.

(** What is waiting is drained. *)
Lemma old_frame cs fs s Q :
  carries cs fs s → flags (true, cs) (sending s) →
  (∀ s', carries cs fs s' → send_buf (sending s') = [] → flags (true, cs) (sending s') →
     pending_send (sending s') = pending_send (sending s) → sent_headers (sending s') = sent_headers (sending s) → Q (Done ()) s') →
  (∀ o s', (o = Wait ∨ ∃ x, o = Fail (TransportError_ x)) → sends (true, cs) s' → Q o s') →
  wp (poll_write []) Q s.
Proof.
  intros Hc Hf HD HW. apply wp_write. intros o s' Hd.
  pose proof (carries_drained _ _ _ _ _ Hc Hd) as Hs. destruct Hd as (buf & t & -> & _ & Ho).
  destruct o as [[]|e| |]; [|destruct Ho as [x ->]| |done].
  - subst buf. apply HD; try done. cbn. by rewrite flags_buf.
  - apply HW; [right; eauto|]. split; [by eexists|]. split; [done|]. cbn. by rewrite flags_buf.
  - apply HW; [by left|]. split; [by eexists|]. split; [done|]. cbn. by rewrite flags_buf.
Qed.

Definition with_codecs (sh : SharedCodecs) (s : RequestStream T) : RequestStream T :=
  MkRequestStream (stream_id s) (receiving s) (sending s) sh (quic s).

Lemma sends_codecs a sh s : sends a s → sends a (with_codecs sh s).
Proof. done. Qed.

(** What the encoder makes of a list of fields is a HEADERS frame in two parts. *)
Lemma wp_encode lines Q (s : RequestStream T) :
  (∀ e sh, let section := block (encode_section_with_ack_base e (stream_id s) lines).1 in
     Q (Done (write_varint FRAME_HEADERS ++ write_varint (zlen section), section)) (with_codecs sh s)) →
  (∀ err sh, (err = MessageError ∨ ∃ size limit, err = HeadersTooBig size limit) → Q (Fail err) (with_codecs sh s)) →
  wp (encode_headers lines) Q s.
Proof.
  intros HD HF. unfold encode_headers. rsteps. destruct (encoder (codecs s)) as [e|]; rsteps.
  2:{ destruct s. apply (HF _ _ (or_introl eq_refl)). }
  specialize (HD e). destruct (encode_section_with_ack_base e (stream_id s) lines) as [section e']. rsteps.
  assert (∀ s', (∃ sh, s' = with_codecs sh s) → wp
    (_ ← (if bool_decide (QpackEncoder.encoder_stream section = []) then mret ()
          else on_codecs (λ sh, set_encoder_stream (H3Shared.encoder_stream sh ++ [QpackEncoder.encoder_stream section]) sh));
     mret (write_varint FRAME_HEADERS ++ write_varint (zlen (block section)), block section)) Q s') as Hend.
  { intros s' [sh ->]. rsteps. case_bool_decide; rsteps; apply HD. }
  destruct (peer_max_field_section_size (codecs s)) as [limit|]; [destruct (limit <? zlen (block section))|].
  - rsteps. apply HF. right. eauto.
  - apply wp_ret. cbn [andthen]. apply Hend. by eexists.
  - apply wp_ret. cbn [andthen]. apply Hend. by eexists.
Qed.

Lemma encode_headers_frame section : (write_varint FRAME_HEADERS ++ write_varint (zlen section)) ++ section = H3Frame.encode (Headers section).
Proof. by rewrite encode_payload, <- app_assoc. Qed.

Lemma data_frame data : (write_varint FRAME_DATA ++ write_varint (zlen data)) ++ data = H3Frame.encode (Data data).
Proof. by rewrite encode_payload, <- app_assoc. Qed.

(** The flags tell whether a call waits. *)
Lemma sends_idle a s : sends a s → pending_send (sending s) = NoSend → a.1 = false ∧ send_buf (sending s) = [].
Proof. intros (_ & Hb & [H1 _ _ _]) E. apply H1 in E. auto. Qed.

Lemma sends_busy a s : sends a s → pending_send (sending s) ≠ NoSend → ∃ cs, a = (true, cs).
Proof. intros (_ & _ & [Hi _ _ _]) E. destruct a as [[] cs]; cbn in *; [eauto|naive_solver]. Qed.

Lemma data_sends fuel data a s : sends a s →
  wp (perform fuel (CallSendData data)) (λ o s', sends (note a (CallSendData data, o)) s') s.
Proof.
  intros Hs. unfold perform, poll_send_data. rsteps. destruct (pending_send (sending s)) as [|status| |] eqn:Ep; try (rsteps; exact Hs).
  - destruct (sends_idle a s Hs Ep) as [Ea Eb]. destruct a as [b cs]. cbn in Ea. subst b. destruct Hs as ([fs Hc] & _ & Hf). rsteps.
    eapply (new_frame cs fs s (CallSendData data) (Data data) _ _ (set_pending_send SendData (sending s))); [exact Hc|exact Hf|exact Eb|apply EData|apply data_frame|exact Eb| | | |reflexivity].
    + eapply flags_new; [exact Hf|done..|by intros [? ?]].
    + intros s' Hc' Hb' Ew. cbn [andthen]. rsteps. split; [by eexists|]. split; [done|].
      eapply (flags_done _ (sending s')); [|done|cbn; rewrite Ew; cbn; by rewrite orb_false_r].
      rewrite Ew. eapply flags_new; [exact Hf|done..|by intros [? ?]].
    + intros o s' [->|[x ->]] Hw; exact Hw.
  - destruct (sends_busy a s Hs) as [cs ->]; [by rewrite Ep|]. destruct Hs as ([fs Hc] & _ & Hf). rsteps.
    eapply (old_frame cs fs); [exact Hc|exact Hf|..].
    + intros s' Hc' Hb' Hf' Ep' Es'. cbn [andthen]. rsteps. split; [by eexists|]. split; [done|].
      eapply flags_done; [exact Hf'|done|]. cbn. by rewrite Ep', Ep, orb_false_r.
    + intros o s' [->|[x ->]] Hw; exact Hw.
Qed.

Lemma response_done cs fs s st : carries cs fs s → send_buf (sending s) = [] → flags (true, cs) (sending s) →
  pending_send (sending s) = SendResponse st → wp response_sent (λ o s', o = Done () ∧ sends (false, cs) s') s.
Proof.
  intros Hc Hb Hf Ep. unfold response_sent. rsteps. rewrite Ep.
  destruct (is_informational st) eqn:Ei; rsteps; (split; [done|]; split; [by eexists|]; split; [done|]);
    (eapply flags_done; [exact Hf|done|]); cbn; rewrite Ep; cbn; rewrite Ei; cbn; by rewrite ?orb_false_r, ?orb_true_r.
Qed.

Lemma response_sends fuel status headers a s : sends a s →
  wp (perform fuel (CallSendResponse status headers)) (λ o s', sends (note a (CallSendResponse status headers, o)) s') s.
Proof.
  intros Hs. unfold perform, poll_send_response. rsteps.
  destruct (sent_headers (sending s) && negb (is_informational status)) eqn:Eg; [rsteps; exact Hs|].
  destruct (pending_send (sending s)) as [|st| |] eqn:Ep; try (rsteps; exact Hs).
  - destruct (sends_idle a s Hs Ep) as [Ea Eb]. destruct a as [b cs]. cbn in Ea. subst b.
    destruct (has_pseudo headers); [rsteps; exact Hs|]. rsteps. apply wp_encode.
    + intros e sh section. cbn [andthen]. rsteps. destruct (sends_codecs _ sh _ Hs) as ([fs Hc] & _ & Hf).
      eapply (new_frame cs fs (with_codecs sh s) (CallSendResponse status headers) (Headers section) _ _
        (set_pending_send (SendResponse status) (sending s)));
        [exact Hc|exact Hf|exact Eb|apply EResponse|apply encode_headers_frame|exact Eb| | | |reflexivity].
      * eapply flags_new; [exact Hf|done..| |by intros [? ?]]. cbn. intros E. by rewrite E, andb_true_r in Eg.
      * intros s' Hc' Hb' Ew. cbn [andthen]. eapply wp_mono; [eapply response_done; [exact Hc'|done| |by rewrite Ew]|].
        -- rewrite Ew. eapply flags_new; [exact Hf|done..| |by intros [? ?]]. cbn. intros E. by rewrite E, andb_true_r in Eg.
        -- intros o s2 [-> H2]. exact H2.
      * intros o s' [->|[x ->]] Hw; exact Hw.
    + intros err sh [->|(? & ? & ->)]; exact (sends_codecs _ sh _ Hs).
  - destruct (sends_busy a s Hs) as [cs ->]; [by rewrite Ep|]. destruct Hs as ([fs Hc] & _ & Hf). rsteps.
    eapply (old_frame cs fs); [exact Hc|exact Hf|..].
    + intros s' Hc' Hb' Hf' Ep' Es'. cbn [andthen]. eapply wp_mono; [by eapply response_done; [..|rewrite Ep'; exact Ep]|].
      intros o s2 [-> H2]. exact H2.
    + intros o s' [->|[x ->]] Hw; exact Hw.
Qed.

Lemma trailers_sends fuel trailers a s : sends a s →
  wp (perform fuel (CallSendTrailers trailers)) (λ o s', sends (note a (CallSendTrailers trailers, o)) s') s.
Proof.
  intros Hs. unfold perform, poll_send_trailers. rsteps.
  destruct (sent_headers (sending s)) eqn:Eh; cbn [negb]; [|rsteps; exact Hs].
  destruct (pending_send (sending s)) as [|st| |] eqn:Ep; try (rsteps; exact Hs).
  - destruct (sends_idle a s Hs Ep) as [Ea Eb]. destruct a as [b cs]. cbn in Ea. subst b.
    destruct (has_pseudo trailers); [rsteps; exact Hs|]. rsteps. apply wp_encode.
    + intros e sh section. cbn [andthen]. rsteps. destruct (sends_codecs _ sh _ Hs) as ([fs Hc] & _ & Hf).
      eapply (new_frame cs fs (with_codecs sh s) (CallSendTrailers trailers) (Headers section) _ _
        (set_pending_send SendTrailers (sending s)));
        [exact Hc|exact Hf|exact Eb|apply ETrailers|apply encode_headers_frame|exact Eb| | | |reflexivity].
      * by eapply flags_new.
      * intros s' Hc' Hb' Ew. cbn [andthen]. rsteps. split; [by eexists|]. split; [done|].
        eapply (flags_done _ (sending s')); [|done|cbn; rewrite Ew; cbn; by rewrite orb_false_r].
        rewrite Ew. by eapply flags_new.
      * intros o s' [->|[x ->]] Hw; exact Hw.
    + intros err sh [->|(? & ? & ->)]; exact (sends_codecs _ sh _ Hs).
  - destruct (sends_busy a s Hs) as [cs ->]; [by rewrite Ep|]. destruct Hs as ([fs Hc] & _ & Hf). rsteps.
    eapply (old_frame cs fs); [exact Hc|exact Hf|..].
    + intros s' Hc' Hb' Hf' Ep' Es'. cbn [andthen]. rsteps. split; [by eexists|]. split; [done|].
      eapply flags_done; [exact Hf'|done|]. cbn. by rewrite Ep', Ep, orb_false_r.
    + intros o s' [->|[x ->]] Hw; exact Hw.
Qed.

(** Ending the stream drains what waits. *)
Lemma write_nothing s : send_buf (sending s) = [] → poll_write [] s = (Done (), s).
Proof. intros E. unfold poll_write. run_op. rewrite E. reflexivity. Qed.

Lemma wp_stream_finish id Q (s : RequestStream T) :
  (∀ o t, written (stream_id s) (history t) = written (stream_id s) (history (quic s)) →
    Q o (MkRequestStream (stream_id s) (receiving s) (sending s) (codecs s) t)) →
  wp (ready (call_stream (poll_finish id))) Q s.
Proof.
  intros HQ. apply wp_ready. unfold wp, call_stream. pose proof (history_finish id (quic s)) as Hh.
  destruct (poll_finish id (quic s)) as [r t]. cbn in Hh.
  assert (written (stream_id s) (history t) = written (stream_id s) (history (quic s))) as Hw.
  { rewrite Hh, written_app. destruct r as [[]|]; cbn; apply app_nil_r. }
  destruct r as [[[]|e]|]; by apply HQ.
Qed.

Lemma finish_sends fuel a s : sends a s → wp (perform fuel CallFinish) (λ o s', sends (note a (CallFinish, o)) s') s.
Proof.
  intros Hs. unfold perform, poll_finish_response. rsteps. cbn [note fst].
  assert (∀ s', sends a s' → wp (ready (call_stream (poll_finish (stream_id s'))))
    (andthen (λ _ : (), mret Sent) (λ _ s2, sends a s2)) s') as Hend.
  { intros s' ([fs [H1 H2]] & Hb & Hf). apply wp_stream_finish. intros o t Hw.
    assert (sends a (MkRequestStream (stream_id s') (receiving s') (sending s') (codecs s') t)) as Hg
      by (split; [exists fs; split; [done|]; cbn; by rewrite Hw|done]).
    by destruct o. }
  destruct a as [[] cs].
  - destruct Hs as ([fs Hc] & _ & Hf). eapply (old_frame cs fs); [exact Hc|exact Hf|..].
    + intros s' Hc' Hb' Hf' _ _. cbn [andthen]. rsteps. apply Hend. split; [by eexists|done].
    + intros o s' [->|[x ->]] Hw; exact Hw.
  - unfold wp. rewrite write_nothing by (by apply Hs). cbn [fst snd andthen]. rsteps. by apply Hend.
Qed.

(** When [poll_finish] is done everything has been written. *)
Lemma finish_flushes cs fs fuel s s' : carries cs fs s → perform fuel CallFinish s = (Done Sent, s') →
  written (stream_id s') (history (quic s')) = mjoin (H3Frame.encode <$> fs).
Proof.
  intros Hc E. enough (wp (perform fuel CallFinish) (λ o s', o = Done Sent →
    written (stream_id s') (history (quic s')) = mjoin (H3Frame.encode <$> fs)) s) as Hw by (unfold wp in Hw; rewrite E in Hw; by apply Hw).
  unfold perform, poll_finish_response. rsteps. apply wp_write. intros o s1 Hd.
  pose proof (carries_drained _ _ _ _ _ Hc Hd) as [_ Hs]. destruct Hd as (buf & t & -> & _ & Ho).
  destruct o as [[]|e| |]; cbn [andthen]; try done. rsteps. apply wp_stream_finish. intros o t' Ew.
  subst buf. cbn in Hs, Ew. rewrite app_nil_r in Hs. destruct o as [[]|e| |]; cbn [andthen]; try done.
  rsteps. intros _. cbn. by rewrite Ew.
Qed.
End sending.
