(* ===== verification/H3StreamRun.v ===== *)
(** * A request stream over its whole life

    Any sequence of calls on a request stream, with the rest of the connection
    changing the codecs in between: what it has handed over and written, why a
    call fails, and that every call returns. *)

From S2P Require Import Prelude H3Error Varint Incremental H3Frame HpackTable H2Request QpackTable QpackString QpackDecoder QpackEncoder H3Settings.
From S2P Require Import Poll H3Transport H3Shared H3Reading H3Request H3Stream H3StreamSpec H3StreamSend.

(** ** Runs *)

Section runs.
Context {T : Type} `{Recorded T} `{HT : Http} `{HT3 : !Http3}.

Abbreviation trace := (list entry).

(** The stream on a transport that has moved on. *)
Definition with_quic (t : T) (s : RequestStream T) : RequestStream T :=
  MkRequestStream (stream_id s) (receiving s) (sending s) (codecs s) t.

(** The calls made, the codecs they found and what they returned.  Between two of them the control
    plane and the other streams do what they like with the codecs, and the
    transport is asked to reset or stop the stream. *)
Inductive runs (s0 : RequestStream T) : trace → RequestStream T → Prop :=
| RunStart : runs s0 [] s0
| RunCall tr s fuel c o s' : runs s0 tr s → perform fuel c s = (o, s') → runs s0 (tr ++ [(c, codecs s, o)]) s'
| RunCodecs tr s sh : runs s0 tr s → runs s0 tr (with_codecs sh s)
| RunAside tr s t : runs s0 tr s → history t = history (quic s) → runs s0 tr (with_quic t s).

(** No call that reads has failed. *)
Definition unfailed (x : entry) : bool :=
  negb (receives x.1.1) || match x.2 with Done _ | Wait => true | _ => false end.
Definition clean (tr : trace) : Prop := Forall unfailed tr.

Definition handed_over (tr : trace) : handed := foldl (λ h x, hand h x.2) nothing_handed tr.
Definition accepted (tr : trace) : bool * list call := foldl (λ a x, note a (x.1.1, x.2)) (false, []) tr.

(** The frames [fs] were read, and what was handed over is theirs. *)
Definition accounts (tr : trace) (id : Z) (hd : handed) (fs : list Frame) : Prop :=
  (fs = [] ∧ hd = nothing_handed)
  ∨ (∃ block, fs = [Headers block] ∧ hd = nothing_handed ∧ aside_block tr id block)
  ∨ ∃ block q, h_request hd = [q] ∧ opening tr id block q
    ∧ ((fs = Headers block :: (Data <$> h_body hd) ∧ h_trailers hd = [])
       ∨ ∃ tb, fs = Headers block :: (Data <$> h_body hd) ++ [Headers tb]
         ∧ (h_trailers hd = [] ∨ ∃ lines m, h_trailers hd = [m] ∧ fields_of tr id tb lines ∧ header_map lines = Ok m)).

Lemma stage_accounts tr id fs hd r : stage tr id fs hd r → accounts tr id hd fs.
Proof.
  intros Hs. inversion Hs; subst; unfold accounts; cbn; [by left|right; left; eauto|by left|right; right; do 2 eexists; split; [done|]; split; [done|]..].
  - by left.
  - right. eauto.
  - right. eauto.
  - right. eexists. split; [done|]. right. eauto.
Qed.

(** *** Receiving *)

(** What the sending calls leave alone. *)
Definition reads_nothing (s s' : RequestStream T) : Prop :=
  stream_id s' = stream_id s ∧ receiving s' = receiving s
  ∧ ∃ k, history (quic s') = history (quic s) ++ k ∧ received (stream_id s) k = [].

#[local] Instance reads_nothing_preorder : PreOrder reads_nothing.
Proof.
  split.
  - intros s. split; [done|]. split; [done|]. exists []. by rewrite app_nil_r.
  - intros s1 s2 s3 (A1 & A2 & k1 & A3 & A4) (B1 & B2 & k2 & B3 & B4). rewrite A1 in *. split; [done|]. split; [congruence|].
    exists (k1 ++ k2). split; [by rewrite B3, A3, app_assoc|]. by rewrite received_app, A4, B4.
Qed.

Lemma nothing_sending f : within reads_nothing (on_sending f).
Proof. apply within_modify. intros s. split; [done|]. split; [done|]. exists []. by rewrite app_nil_r. Qed.

Lemma nothing_codecs f : within reads_nothing (on_codecs f).
Proof. apply within_modify. intros s. split; [done|]. split; [done|]. exists []. by rewrite app_nil_r. Qed.

Lemma nothing_send id data : within reads_nothing (call_stream (poll_send id data)).
Proof.
  intros s. unfold call_stream. pose proof (history_send id data (quic s)) as Hh.
  destruct (poll_send id data (quic s)) as [[[[]|e]|] t]; cbn in Hh |- *;
    (split; [done|]; split; [done|]); eexists; (split; [exact Hh|done]).
Qed.

Lemma nothing_finish id : within reads_nothing (call_stream (poll_finish id)).
Proof.
  intros s. unfold call_stream. pose proof (history_finish id (quic s)) as Hh.
  destruct (poll_finish id (quic s)) as [[[[]|e]|] t]; cbn in Hh |- *;
    (split; [done|]; split; [done|]); eexists; (split; [exact Hh|done]).
Qed.

Create HintDb sending.
#[local] Hint Resolve nothing_sending nothing_codecs nothing_send nothing_finish : sending.

Lemma nothing_drain buf : within reads_nothing (drain_send_buf buf).
Proof. induction buf as [|c buf IH]; cbn [drain_send_buf]; stays; auto with sending. Qed.

Lemma nothing_write c : within reads_nothing (poll_write c).
Proof. unfold poll_write. stays; auto using nothing_drain with sending. Qed.

Lemma nothing_parts c d : within reads_nothing (poll_write_parts c d).
Proof. unfold poll_write_parts. stays; auto using nothing_write with sending. Qed.

Lemma nothing_encode lines : within reads_nothing (encode_headers lines).
Proof. unfold encode_headers. stays; auto with sending. Qed.

Lemma sending_reads_nothing fuel c : receives c = false → within reads_nothing (perform fuel c).
Proof.
  destruct c; try done; intros _; unfold perform, poll_send_response, poll_send_data, poll_send_trailers, poll_finish_response, response_sent;
    stays; auto using nothing_write, nothing_parts, nothing_encode with sending.
Qed.

Lemma stands_nothing max tr hd fs s s' : stands max tr hd fs s → reads_nothing s s' → stands max tr hd fs s'.
Proof.
  intros [[H1 H2 H3 H4 H5] Hs] (E1 & E2 & k & E3 & E4).
  assert (received (stream_id s') (history (quic s')) = received (stream_id s) (history (quic s))) as Er
    by (by rewrite E1, E3, received_app, E4, app_nil_r).
  split; [split; rewrite ?Er, ?E2; done|by rewrite E1, E2].
Qed.

Lemma receive_spec max fuel c tr hd fs s : receives c = true → stands max tr hd fs s →
  wp (perform fuel c) (answers max tr c (codecs s) hd fs) s.
Proof.
  destruct c; try done; intros _ Hs; [by apply headers_spec|by apply data_spec|by apply trailers_spec].
Qed.

(** What the receiving calls leave alone. *)
Definition writes_nothing (s s' : RequestStream T) : Prop :=
  stream_id s' = stream_id s ∧ sending s' = sending s
  ∧ ∃ k, history (quic s') = history (quic s) ++ k ∧ written (stream_id s) k = [].

#[local] Instance writes_nothing_preorder : PreOrder writes_nothing.
Proof.
  split.
  - intros s. split; [done|]. split; [done|]. exists []. by rewrite app_nil_r.
  - intros s1 s2 s3 (A1 & A2 & k1 & A3 & A4) (B1 & B2 & k2 & B3 & B4). rewrite A1 in *. split; [done|]. split; [congruence|].
    exists (k1 ++ k2). split; [by rewrite B3, A3, app_assoc|]. by rewrite written_app, A4, B4.
Qed.

Lemma silent_receiving f : within writes_nothing (on_receiving f).
Proof. apply within_modify. intros s. split; [done|]. split; [done|]. exists []. by rewrite app_nil_r. Qed.

Lemma silent_codecs f : within writes_nothing (on_codecs f).
Proof. apply within_modify. intros s. split; [done|]. split; [done|]. exists []. by rewrite app_nil_r. Qed.

Lemma silent_recv id : within writes_nothing (call_stream (poll_recv id)).
Proof.
  intros s. unfold call_stream. pose proof (history_recv id (quic s)) as Hh.
  destruct (poll_recv id (quic s)) as [[[[c|]|e]|] t]; cbn in Hh |- *;
    (split; [done|]; split; [done|]); eexists; (split; [exact Hh|done]).
Qed.

Create HintDb receiving.
#[local] Hint Resolve silent_receiving silent_codecs silent_recv : receiving.

Lemma silent_frame fuel : within writes_nothing (poll_frame fuel).
Proof. induction fuel as [|fuel IH]; cbn [poll_frame]; stays; auto with receiving. Qed.

Lemma silent_after fuel : within writes_nothing (poll_after_trailers fuel).
Proof. induction fuel as [|fuel IH]; cbn [poll_after_trailers]; stays; auto using silent_frame. Qed.

Lemma silent_decode now block : within writes_nothing (decode_block now block).
Proof. unfold decode_block. stays; auto with receiving. Qed.

Lemma silent_take : within writes_nothing take_unblocked.
Proof. unfold take_unblocked. stays; auto with receiving. Qed.

Lemma silent_end : within writes_nothing finish_recv.
Proof. unfold finish_recv. stays; auto with receiving. Qed.

Lemma receiving_writes_nothing fuel c : receives c = true → within writes_nothing (perform fuel c).
Proof.
  destruct c; try done; intros _; unfold perform, poll_headers, poll_recv_data, poll_recv_trailers; stays;
    auto using silent_frame, silent_after, silent_decode, silent_take, silent_end with receiving.
Qed.

(** *** The unblocked sections *)

(** The sections of a stream that came unblocked and were not collected. *)
Definition sections_of (id : Z) (s : RequestStream T) : list UnblockedSection := default [] (unblocked (codecs s) !! id).

(** A call that asks for a section that was put aside. *)
Definition collecting (c : call) (r : Receiving) : bool :=
  match c with
  | PollHeaders _ => headers_blocked r
  | PollRecvTrailers _ => bool_decide (trailers_lines r = None) && trailers_blocked r
  | _ => false
  end.

Definition same_sections (s s' : RequestStream T) : Prop := ∀ id, sections_of id s' = sections_of id s.

#[local] Instance same_sections_preorder : PreOrder same_sections.
Proof. split; [done|]. intros s1 s2 s3 H1 H2 id. by rewrite H2, H1. Qed.

Lemma same_call {A} (f : T → poll (result TransportError A) * T) : within same_sections (call_stream f).
Proof. intros s id. unfold call_stream. by destruct (f (quic s)) as [[[a|e]|] t]. Qed.

Create HintDb sections.
#[local] Hint Resolve same_call : sections.
#[local] Hint Extern 1 (within same_sections (on_receiving _)) => apply within_modify; done : sections.
#[local] Hint Extern 1 (within same_sections (on_sending _)) => apply within_modify; done : sections.
#[local] Hint Extern 1 (within same_sections (on_codecs _)) => apply within_modify; done : sections.

Lemma same_frame fuel : within same_sections (poll_frame fuel).
Proof. induction fuel as [|fuel IH]; cbn [poll_frame]; stays; auto with sections. Qed.
#[local] Hint Resolve same_frame : sections.

Lemma same_after fuel : within same_sections (poll_after_trailers fuel).
Proof. induction fuel as [|fuel IH]; cbn [poll_after_trailers]; stays; auto with sections. Qed.

Lemma same_decode now block : within same_sections (decode_block now block).
Proof. unfold decode_block. stays; auto with sections. Qed.

Lemma same_end : within same_sections finish_recv.
Proof. unfold finish_recv. stays; auto with sections. Qed.

Lemma same_drain buf : within same_sections (drain_send_buf buf).
Proof. induction buf as [|c buf IH]; cbn [drain_send_buf]; stays; auto with sections. Qed.

Lemma same_write c : within same_sections (poll_write c).
Proof. unfold poll_write. stays; auto using same_drain with sections. Qed.

Lemma same_parts c d : within same_sections (poll_write_parts c d).
Proof. unfold poll_write_parts. stays; auto using same_write with sections. Qed.

Lemma same_encode lines : within same_sections (encode_headers lines).
Proof. unfold encode_headers. stays; auto with sections. Qed.
#[local] Hint Resolve same_after same_decode same_end same_write same_parts same_encode : sections.

(** Taking a section, and what is done with it. *)
Lemma taken_section {A} (f : UnblockedSection → op (RequestStream T) StreamError A) s id : (∀ section, within same_sections (f section)) →
  sections_of id ((take_unblocked ≫= f) s).2 = (if Z.eqb id (stream_id s) then tail else λ l, l) (sections_of id s).
Proof.
  intros Hf. assert (sections_of id (take_unblocked s).2 = (if Z.eqb id (stream_id s) then tail else λ l, l) (sections_of id s)) as Htake.
  { unfold take_unblocked, sections_of, take_unblocked_for. change ((self ≫= ?f) s) with (f s s). cbv beta.
    destruct (unblocked (codecs s) !! stream_id s) as [[|section queue]|] eqn:E; [|case_bool_decide as Eq|];
      unfold on_codecs, modify, mbind, op_bind; cbn -[delete insert lookup]; destruct (Z.eqb_spec id (stream_id s)) as [->|Hne]; try (by rewrite ?E).
    - by rewrite E, Eq, lookup_delete_eq.
    - by rewrite lookup_delete_ne.
    - by rewrite E, lookup_insert_eq.
    - by rewrite lookup_insert_ne. }
  rewrite <- Htake. unfold mbind, op_bind. destruct (take_unblocked s) as [[section|e| |] s']; try done. apply Hf.
Qed.

Lemma sections_spec fuel c s id : sections_of id (perform fuel c s).2
  = (if collecting c (receiving s) && Z.eqb id (stream_id s) then tail else λ l, l) (sections_of id s).
Proof.
  assert (∀ A (m : op (RequestStream T) StreamError A) f, sections_of id ((r ← m; mret (f r : reply)) s).2 = sections_of id (m s).2) as Hret.
  { intros A m f. unfold mbind, op_bind. by destruct (m s) as [[a|e| |] s2]. }
  assert (∀ A (m : op (RequestStream T) StreamError A), within same_sections m → sections_of id (m s).2 = sections_of id s) as Hsame by (intros A m Hm; apply Hm).
  destruct c as [now|now|now|status headers|data|trailers|]; cbn [perform collecting andb]; rewrite Hret.
  - unfold poll_headers. change ((self ≫= ?f) s) with (f s s). cbv beta. destruct (headers_blocked (receiving s)); cbn [andb].
    + apply taken_section. intros section. stays; auto with sections.
    + apply Hsame. stays; auto with sections.
  - apply Hsame. unfold poll_recv_data. stays; auto with sections.
  - unfold poll_recv_trailers. change ((self ≫= ?f) s) with (f s s). cbv beta zeta.
    destruct (trailers_lines (receiving s)) as [lines|]; [|destruct (trailers_blocked (receiving s))]; cbn [andb bool_decide].
    + apply Hsame. stays; auto with sections.
    + rewrite bool_decide_true by done. apply taken_section. intros section. stays; auto with sections.
    + rewrite andb_false_r. apply Hsame. stays; auto with sections.
  - apply Hsame. unfold poll_send_response, response_sent. stays; auto with sections.
  - apply Hsame. unfold poll_send_data. stays; auto with sections.
  - apply Hsame. unfold poll_send_trailers. stays; auto with sections.
  - apply Hsame. unfold poll_finish_response. stays; auto with sections.
Qed.

Lemma sends_silent a s s' : sends a s → writes_nothing s s' → sends a s'.
Proof.
  intros ([fs [H1 H2]] & Hb & Hf) (E1 & E2 & k & E3 & E4). unfold sends, carries. rewrite E1, E2, E3, written_app, E4, app_nil_r.
  split; [by exists fs|done].
Qed.

Lemma send_spec fuel c a s : receives c = false → sends a s → wp (perform fuel c) (λ o s', sends (note a (c, o)) s') s.
Proof.
  destruct c; try done; intros _ Hs;
    [by apply response_sends|by apply data_sends|by apply trailers_sends|by apply finish_sends].
Qed.

(** *** The invariants of a run *)

Lemma runs_id s0 tr s : runs s0 tr s → stream_id s = stream_id s0.
Proof.
  induction 1 as [|tr s fuel c o s' _ IH E| |]; [done| |done|done]. rewrite <- IH.
  destruct (receives c) eqn:Ec.
  - pose proof (receiving_writes_nothing fuel c Ec s) as (E1 & _). by rewrite E in E1.
  - pose proof (sending_reads_nothing fuel c Ec s) as (E1 & _). by rewrite E in E1.
Qed.

Lemma handed_over_snoc tr x : handed_over (tr ++ [x]) = hand (handed_over tr) x.2.
Proof. unfold handed_over. by rewrite foldl_app. Qed.

Lemma sent_only (m : op (RequestStream T) StreamError ()) h s : hand h ((_ ← m; mret Sent) s).1 = h.
Proof. unfold mbind, op_bind. by destruct (m s) as [[[]|e| |] s']. Qed.

Lemma sending_hands fuel c h s : receives c = false → hand h (perform fuel c s).1 = h.
Proof. destruct c; try done; intros _; apply sent_only. Qed.

Lemma runs_stands id sh t tr s : received id (history t) = [] →
  runs (new_request_stream id sh t) tr s → clean tr →
  ∃ fs, stands (local_max_field_section_size sh) tr (handed_over tr) fs s.
Proof.
  intros Ht Hr. induction Hr as [|tr s fuel c o s' Hr IH E|tr s sh' Hr IH|tr s t' Hr IH Eh]; intros Hc.
  - exists []. split; [|apply StWaiting]. split; cbn; [split; [done|apply Forall_nil_2]|done|rewrite Ht; by apply Forall_nil_2|rewrite Ht; by cbn|done].
  - apply Forall_app in Hc as [Hc Hx]. rewrite Forall_singleton in Hx. destruct (IH Hc) as [fs Hs].
    rewrite handed_over_snoc. cbn [snd]. destruct (receives c) eqn:Ec.
    + pose proof (receive_spec _ fuel c _ _ fs s Ec Hs) as Hw. unfold wp in Hw. rewrite E in Hw. cbn [fst snd] in Hw.
      unfold unfailed in Hx. cbn [fst snd] in Hx. rewrite Ec in Hx. destruct o as [r|e| |]; cbn in Hx; try done.
      destruct Hw as (fs' & Hs' & _). exists fs'. exact Hs'.
    + pose proof (sending_hands fuel c (handed_over tr) s Ec) as Eh. rewrite E in Eh. cbn [fst] in Eh. rewrite Eh.
      exists fs. eapply stands_nothing; [by apply stands_idle|]. pose proof (sending_reads_nothing fuel c Ec s) as Hn. by rewrite E in Hn.
  - destruct (IH Hc) as (fs & Hd & Hs). exists fs. split; [by eapply reading_same|exact Hs].
  - destruct (IH Hc) as (fs & [H1 H2 H3 H4 H5] & Hs). exists fs. split; [|exact Hs].
    split; cbn [with_quic receiving quic stream_id]; rewrite ?Eh; done.
Qed.

Lemma runs_sends id sh t tr s : written id (history t) = [] → runs (new_request_stream id sh t) tr s → sends (accepted tr) s.
Proof.
  intros Ht Hr. induction Hr as [|tr s fuel c o s' Hr IH E|tr s sh' Hr IH|tr s t' Hr IH Eh].
  - split; [exists []; split; [constructor|]; cbn; by rewrite Ht|]. split; [done|].
    split; cbn; try done. split; [cbn; lia|]. by intros [|] k trailers.
  - unfold accepted. rewrite foldl_app. fold (accepted tr). cbn [foldl]. destruct (receives c) eqn:Ec.
    + assert (note (accepted tr) (c, o) = accepted tr) as En by (by destruct c). cbn [fst snd]. rewrite En.
      eapply sends_silent; [exact IH|]. pose proof (receiving_writes_nothing fuel c Ec s) as Hn. by rewrite E in Hn.
    + pose proof (send_spec fuel c _ s Ec IH) as Hw. unfold wp in Hw. by rewrite E in Hw.
  - exact IH.
  - destruct IH as ([fs [Hf Hw]] & Hb & Hfl). split; [exists fs; split; [exact Hf|]|by split].
    cbn [with_quic quic sending stream_id]. rewrite Eh. exact Hw.
Qed.

(** *** Every call returns *)

Definition returns {S E A} (m : op S E A) (s : S) : Prop := wp m (λ o _, o ≠ Stuck) s.

Lemma returns_bind {S E A B} (m : op S E A) (f : A → op S E B) s : returns m s → (∀ a s', returns (f a) s') → returns (m ≫= f) s.
Proof. unfold returns, wp, mbind, op_bind. intros Hm Hf. destruct (m s) as [[a|e| |] s']; try done. Qed.

Lemma returns_ready {S E A} (m : op S E (poll A)) s : returns m s → returns (ready m) s.
Proof. intros Hm. apply returns_bind; [done|]. by intros [a|] s'. Qed.

Lemma returns_call {A} (f : T → poll (result TransportError A) * T) (s : RequestStream T) : returns (call_stream f) s.
Proof. unfold returns, wp, call_stream. by destruct (f (quic s)) as [[[a|e]|] t]. Qed.

Lemma returns_lift {S E F A} (f : F → E) (r : result F A) (s : S) : returns (lift f r : op S E A) s.
Proof. by destruct r. Qed.

Ltac finishes := repeat (intros; lazymatch goal with
  | |- returns (self ≫= ?f) ?s => change (returns (f s) s); cbv beta
  | |- returns (_ ≫= _) _ => apply returns_bind
  | |- returns (ready _) _ => apply returns_ready
  | |- returns (call_stream _) _ => apply returns_call
  | |- returns (lift _ _) _ => apply returns_lift
  | |- returns (if ?b then _ else _) _ => destruct b
  | |- returns (match ?x with _ => _ end) _ => destruct x
  | |- returns _ _ => solve [auto with returns|done]
  end).
Create HintDb returns.

Lemma drain_returns buf : ∀ s : RequestStream T, returns (drain_send_buf buf) s.
Proof. induction buf as [|c buf IH]; cbn [drain_send_buf]; finishes. Qed.

#[local] Hint Resolve drain_returns : returns.

Lemma write_returns c (s : RequestStream T) : returns (poll_write c) s.
Proof. unfold poll_write. finishes. Qed.
#[local] Hint Resolve write_returns : returns.

Lemma parts_return c d (s : RequestStream T) : returns (poll_write_parts c d) s.
Proof. unfold poll_write_parts. finishes. Qed.

Lemma encode_returns lines (s : RequestStream T) : returns (encode_headers lines) s.
Proof. unfold encode_headers. finishes. Qed.

Lemma decode_returns now block (s : RequestStream T) : returns (decode_block now block) s.
Proof. unfold decode_block. finishes. Qed.

Lemma take_returns (s : RequestStream T) : returns take_unblocked s.
Proof. unfold take_unblocked. finishes. Qed.
#[local] Hint Resolve parts_return encode_returns decode_returns take_returns : returns.

Lemma sending_returns fuel c s : receives c = false → returns (perform fuel c) s.
Proof.
  destruct c; try done; intros _; unfold perform, poll_send_response, poll_send_data, poll_send_trailers, poll_finish_response, response_sent;
    finishes.
Qed.

Context `{!Finite T}.

(** A transport with less to deliver than the fuel does not exhaust it. *)
Lemma frame_returns max fuel : ∀ fs s, reading max fs s → recv_finished (receiving s) = false →
  (backlog (quic s) < fuel)%nat → returns (poll_frame fuel) s.
Proof.
  induction fuel as [|fuel IH]; intros fs s Hr Hf Hb; [lia|]. cbn [poll_frame]. unfold returns. rsteps.
  destruct Hr as [H1 H2 H3 H4 H5]. rewrite peek_flat by apply H1.
  destruct (from_option _ _ _); [by rsteps|]. destruct (next_frame_flat _ H1) as (d & r & Hn & Ha). rewrite Hn.
  pose proof (took_next max _ fs _ d r H1 H4 H2 Ha) as Ht. rsteps. destruct r as [[f|]|e]; rsteps; [done| |done].
  destruct Ha as (Hw & Hbd & Hm & Hfr). assert (reading max fs (read_to d (quic s) s)) as Hr by (split; cbn; try done; congruence).
  apply wp_ready. unfold wp, call_stream. cbn [stream_id quic].
  pose proof (history_recv (stream_id s) (quic s)) as Hh. pose proof (received_bytes (stream_id s) (quic s)) as Ho.
  pose proof (backlog_recv (stream_id s) (quic s)) as Hl.
  destruct (poll_recv (stream_id s) (quic s)) as [r t]. cbn [fst snd] in Hh, Ho, Hl. pose proof (reading_chunk max fs _ r t Hr Hf Hh Ho) as Hc.
  cbn [read_to receiving stream_id set_frame_decoder frame_decoder] in Hc.
  destruct r as [[[c|]|e]|]; cbn [fst snd andthen chunk_for] in *; rewrite ?Z.eqb_refl in Hc; try done; rsteps.
  - eapply IH; [exact Hc|exact Hf|]. cbn [delivers_one] in Hl. cbn [quic]. lia.
  - destruct (negb _); by rsteps.
Qed.

Lemma after_returns max fuel fs s : reading max fs s → recv_finished (receiving s) = false →
  (backlog (quic s) < fuel)%nat → returns (poll_after_trailers fuel) s.
Proof.
  intros Hr Hf Hb. destruct fuel as [|fuel]; [lia|]. cbn [poll_after_trailers].
  apply returns_bind; [by eapply frame_returns|]. intros [f|] s'; [|done]. assert (is_known f = true) as -> by (by destruct f). done.
Qed.

Lemma receiving_returns max fuel c tr hd fs s : receives c = true → stands max tr hd fs s → (backlog (quic s) < fuel)%nat →
  returns (perform fuel c) s.
Proof.
  intros Hc [Hr Hs] Hb. destruct s as [id r w sh t]. cbn [receiving stream_id quic] in *.
  assert (recv_finished r = false → returns (poll_frame fuel) (MkRequestStream id r w sh t)) as Hframe by (intros; by eapply frame_returns).
  assert (recv_finished r = false → returns (poll_after_trailers fuel) (MkRequestStream id r w sh t)) as Hafter by (intros; by eapply after_returns).
  destruct c; try done; unfold perform, poll_headers, poll_recv_data, poll_recv_trailers; inversion Hs; subst;
    (apply returns_bind; [|done]);
    match goal with |- returns (self ≫= ?f) ?s => change (returns (f s) s); cbv beta zeta end;
    cbn [receiving headers_blocked awaiting_headers recv_data recv_finished trailers_blocked trailers_done trailers_lines orb negb] in *;
    try destruct fin; try done; (apply returns_bind; [by auto with returns|]); finishes.
Qed.
End runs.

(** ** What the calls of a request stream promise *)

Section promises.
Context {T : Type} `{Recorded T} `{HT : Http} `{HT3 : !Http3}.

Lemma stream_told id sh (t : T) tr s :
  received id (history t) = [] → runs (new_request_stream id sh t) tr s → clean tr →
  ∃ fs more rest e, frames (local_max_field_section_size sh) (received id (history (quic s))) = (fs ++ more, rest, e)
    ∧ accounts tr id (handed_over tr) fs
    ∧ (recv_finished (receiving s) = true → more = [] ∧ rest = [] ∧ e = None).
Proof.
  intros Ht Hr Hc. destruct (runs_stands _ _ _ _ _ Ht Hr Hc) as (fs & [H1 H2 H3 H4 H5] & Hs).
  rewrite (runs_id _ _ _ Hr) in *. cbn [stream_id new_request_stream] in *. apply stage_accounts in Hs. unfold took in H4.
  destruct (frames _ (flat _)) as [[gs r] e] eqn:Eg, (frames _ (received _ _)) as [[hs r'] e']. destruct H4 as (-> & -> & H4).
  exists fs, gs, r', e. split; [done|]. split; [done|]. intros Hf. rewrite (H5 Hf) in Eg. by injection Eg as <- <- <-; rewrite H4.
Qed.

Lemma stream_faults id sh (t : T) tr s fuel c e s' :
  received id (history t) = [] → runs (new_request_stream id sh t) tr s → clean tr →
  receives c = true → perform fuel c s = (Fail e, s') →
  ∃ fs, accounts tr id (handed_over tr) fs
    ∧ fault (local_max_field_section_size sh) tr (c, codecs s, Fail e) fs id (history (quic s')) e.
Proof.
  intros Ht Hr Hc Hrc E. destruct (runs_stands _ _ _ _ _ Ht Hr Hc) as (fs & Hs).
  pose proof (receive_spec _ fuel c _ _ fs s Hrc Hs) as Hw. unfold wp in Hw. rewrite E in Hw. cbn [fst snd answers] in Hw.
  pose proof (receiving_writes_nothing fuel c Hrc s) as (Eid & _). rewrite E in Eid. cbn [snd] in Eid.
  rewrite Eid, (runs_id _ _ _ Hr) in Hw. exists fs. split; [|exact Hw].
  destruct Hs as [_ Hs]. rewrite (runs_id _ _ _ Hr) in Hs. by eapply stage_accounts.
Qed.

(** C4. Whatever calls are made on a request stream, however its octets arrive
    and whatever others do to the codecs between the calls: as long as no
    reading call fails, the frames of the octets received begin with those read
    so far, HEADERS, DATA and again HEADERS; the request handed over is what the
    fields of the first block make, the body is the payloads of the DATA frames
    in order, each once, and the trailers are what the second block makes.  The
    fields of a block are those the connection's decoder gave for it in one of
    the calls made; or the decoder put the block aside in one call, and a later
    call found them first among the unblocked sections queued for this very
    stream.  A call that asks for a section put aside takes the first one of
    this stream off its queue, and no call changes the queues otherwise.  When
    the stream is reported finished, the octets received are exactly these
    frames. *)
Theorem request_stream_told id sh (t : T) tr s :
  received id (history t) = [] → runs (new_request_stream id sh t) tr s → clean tr →
  ∃ fs more rest e, frames (local_max_field_section_size sh) (received id (history (quic s))) = (fs ++ more, rest, e)
    ∧ accounts tr id (handed_over tr) fs
    ∧ (recv_finished (receiving s) = true → more = [] ∧ rest = [] ∧ e = None)
    ∧ ∀ fuel c sid, sections_of sid (perform fuel c s).2
        = (if collecting c (receiving s) && Z.eqb sid id then tail else λ l, l) (sections_of sid s).
Proof.
  intros Ht Hr Hc. destruct (stream_told id sh t tr s Ht Hr Hc) as (fs & more & rest & e & Hf & Ha & He).
  exists fs, more, rest, e. split_and!; [done..|]. intros fuel c sid. rewrite sections_spec. by rewrite (runs_id _ _ _ Hr).
Qed.

(** C32. A call that reads fails only with a reason, and with the error that
    goes with it: the octets received hold a malformed or oversized frame, or
    the stream has just ended within one, or the transport has just failed; the
    next frame of the octets received
    has no place after those read, which is [UnexpectedFrame]; the decoder, as
    this call found it, refuses the block of the next frame, with the QPACK
    error it gave; or the fields of the request's block, or of the trailers'
    block, as decoded in this call or an earlier one, are refused as a request
    or as trailers, which is [MessageError].  A control frame whose type is at
    the front of what is buffered is refused for its place; behind an unknown
    frame it is parsed first, and a malformed one is refused for its form. *)
Theorem request_stream_faults id sh (t : T) tr s fuel c e s' :
  received id (history t) = [] → runs (new_request_stream id sh t) tr s → clean tr →
  receives c = true → perform fuel c s = (Fail e, s') →
  ∃ fs, accounts tr id (handed_over tr) fs
    ∧ fault (local_max_field_section_size sh) tr (c, codecs s, Fail e) fs id (history (quic s')) e.
Proof. apply stream_faults. Qed.

(** C33. Every call returns, if the fuel exceeds what the transport has to
    deliver.  A call that reads answers [Pending] only when every whole frame
    received has been handed over; or when the block of the last frame read was
    put aside by the decoder, in this very call, or in an earlier one and no
    unblocked section is queued for the stream when the call is made; or when
    the body or the trailers are asked for before the request was handed over;
    or when the body is asked for while the trailers' block, put aside, is yet
    to be collected by [poll_recv_trailers]. *)
Theorem request_calls_return `{!Finite T} id sh (t : T) tr s fuel c o s' :
  received id (history t) = [] → runs (new_request_stream id sh t) tr s → clean tr →
  (backlog (quic s) < fuel)%nat → perform fuel c s = (o, s') →
  o ≠ Stuck ∧ (o = Wait → receives c = true →
    ∃ fs, accounts (tr ++ [(c, codecs s, o)]) id (handed_over tr) fs
      ∧ waits (local_max_field_section_size sh) tr (c, codecs s, o) (handed_over tr) fs s').
Proof.
  intros Ht Hr Hc Hb E. destruct (runs_stands _ _ _ _ _ Ht Hr Hc) as (fs & Hs). destruct (receives c) eqn:Hrc.
  - pose proof (receiving_returns _ fuel c _ _ fs s Hrc Hs Hb) as Hn. unfold returns, wp in Hn. rewrite E in Hn. split; [exact Hn|].
    intros -> _. pose proof (receive_spec _ fuel c _ _ fs s Hrc Hs) as Hw. unfold wp in Hw. rewrite E in Hw. cbn [fst snd answers] in Hw.
    destruct Hw as (fs' & [_ Hs'] & Hw). exists fs'. split; [|exact Hw].
    pose proof (receiving_writes_nothing fuel c Hrc s) as (Eid & _). rewrite E in Eid. cbn [snd] in Eid.
    rewrite Eid, (runs_id _ _ _ Hr) in Hs'. by eapply stage_accounts.
  - pose proof (sending_returns fuel c s Hrc) as Hn. unfold returns, wp in Hn. by rewrite E in Hn.
Qed.

(** C17. The stream carries the frames of the accepted calls, each exactly once
    and in order, however often a call had to be polled: what was written and
    what is buffered are their encodings, a DATA frame of the octets given and
    HEADERS frames of what the encoder made of the fields.  Nothing is buffered
    unless a call waits; there is at most one final response, and trailers only
    after it; and when [poll_finish] is done all of it has been written. *)
Theorem response_written id sh (t : T) tr s :
  written id (history t) = [] → runs (new_request_stream id sh t) tr s →
  ∃ fs, Forall2 (emits id) (accepted tr).2 fs
    ∧ written id (history (quic s)) ++ mjoin (send_buf (sending s)) = mjoin (H3Frame.encode <$> fs)
    ∧ ((accepted tr).1 = false → send_buf (sending s) = [])
    ∧ in_order (accepted tr).2
    ∧ ∀ fuel s', perform fuel CallFinish s = (Done Sent, s') → written id (history (quic s')) = mjoin (H3Frame.encode <$> fs).
Proof.
  intros Ht Hr. destruct (runs_sends _ _ _ _ _ Ht Hr) as ([fs Hc] & Hb & [_ _ _ Ho]).
  pose proof (runs_id _ _ _ Hr) as Eid. cbn in Eid. exists fs. split; [rewrite <- Eid; apply Hc|].
  split; [rewrite <- Eid; apply Hc|]. split; [exact Hb|]. split; [exact Ho|].
  intros fuel s' E. pose proof (finish_flushes _ _ _ _ _ Hc E) as Hw.
  pose proof (sending_reads_nothing fuel CallFinish eq_refl s) as (E1 & _). rewrite E in E1. cbn in E1. by rewrite E1, Eid in Hw.
Qed.
End promises.

(** ** A request and its response *)

#[local] Existing Instance plain_http.
#[local] Existing Instance plain_http3.

(** Makes the calls one after the other. *)
Fixpoint exec (fuel : nat) (cs : list call) (s : RequestStream Script) : list entry * RequestStream Script :=
  match cs with
  | [] => ([], s)
  | c :: cs => let '(o, s') := perform fuel c s in let '(tr, s'') := exec fuel cs s' in ((c, codecs s, o) :: tr, s'')
  end.

Lemma exec_runs fuel cs : ∀ s0 tr s, runs s0 tr s → runs s0 (tr ++ (exec fuel cs s).1) (exec fuel cs s).2.
Proof.
  induction cs as [|c cs IH]; intros s0 tr s Hr; cbn [exec]; [by rewrite app_nil_r|].
  destruct (perform fuel c s) as [o s1] eqn:E. specialize (IH s0 _ _ (RunCall _ _ _ _ _ _ _ Hr E)).
  destruct (exec fuel cs s1) as [tr' s2]. cbn [fst snd] in *. by rewrite <- app_assoc in IH.
Qed.

Lemma exec_start fuel cs s0 : runs s0 (exec fuel cs s0).1 (exec fuel cs s0).2.
Proof. apply (exec_runs fuel cs s0 [] s0), RunStart. Qed.

(** [POST https://a/] with a body of five octets in two frames, and a trailer
    field, from a client that does not use the dynamic table. *)
Definition post_section : list field :=
  [(b ":method", b "POST"); (b ":scheme", b "https"); (b ":authority", b "a"); (b ":path", b "/")].
Definition block_of (fs : list field) : bytes := block (encode_section_with_ack_base (new_encoder 0 true) 0 fs).1.
Definition post_frames : list Frame :=
  [Headers (block_of post_section); Data (b "hel"); Data (b "lo"); Headers (block_of [(b "x", b "y")])].
Definition post_octets : bytes := mjoin (H3Frame.encode <$> post_frames).

(** The octets in three chunks with a wait in between, and a transport that
    makes the first write wait. *)
Definition post_script : Script :=
  MkScript []
    [(0, Ready (Ok (Some (take 3 post_octets)))); (0, Pending); (0, Ready (Ok (Some (take 20 (drop 3 post_octets)))));
     (0, Ready (Ok (Some (drop 23 post_octets)))); (0, Ready (Ok None))]
    [Pending] [Accepted 0].
Definition post_shared : SharedCodecs := set_encoder (Some (new_encoder 0 true)) (new_shared default_local).
Definition post_start : RequestStream Script := new_request_stream 0 post_shared post_script.
Definition post_calls : list call :=
  [PollHeaders 0; PollHeaders 0; PollRecvData 0; PollRecvData 0; PollRecvData 0; PollRecvTrailers 0; PollRecvData 0;
   CallSendResponse 200 [(b "a", b "b")]; CallSendResponse 200 [(b "a", b "b")]; CallSendData (b "ok");
   CallSendTrailers [(b "t", b "u")]].
Definition post_run : list entry * RequestStream Script := exec 20 post_calls post_start.

Example post_handed : handed_over post_run.1
  = MkHanded [MkRequest (b "POST") (b "https://a/") []] [b "hel"; b "lo"] [[(b "x", b "y")]]
  ∧ recv_finished (receiving post_run.2) = true
  ∧ (accepted post_run.1).2 = [CallSendResponse 200 [(b "a", b "b")]; CallSendData (b "ok"); CallSendTrailers [(b "t", b "u")]].
Proof. split_and!; vm_compute; reflexivity. Qed.

Lemma post_runs : runs post_start post_run.1 post_run.2.
Proof. exact (exec_start 20 post_calls post_start). Qed.

Lemma request_stream_told_witness :
  ∃ fs more rest e, frames (local_max_field_section_size post_shared) (received 0 (history (quic post_run.2))) = (fs ++ more, rest, e)
    ∧ accounts post_run.1 0 (handed_over post_run.1) fs
    ∧ (recv_finished (receiving post_run.2) = true → more = [] ∧ rest = [] ∧ e = None)
    ∧ ∀ fuel c sid, sections_of sid (perform fuel c post_run.2).2
        = (if collecting c (receiving post_run.2) && Z.eqb sid 0 then tail else λ l, l) (sections_of sid post_run.2).
Proof.
  assert (received 0 (history post_script) = []) as Ht by (vm_compute; reflexivity).
  assert (clean post_run.1) as Hc by (apply (bool_decide_unpack _); vm_compute; exact I).
  exact (request_stream_told 0 post_shared post_script _ _ Ht post_runs Hc).
Defined.

Lemma response_written_witness :
  ∃ fs, Forall2 (emits 0) (accepted post_run.1).2 fs
    ∧ written 0 (history (quic post_run.2)) ++ mjoin (send_buf (sending post_run.2)) = mjoin (H3Frame.encode <$> fs).
Proof.
  assert (written 0 (history post_script) = []) as Ht by (vm_compute; reflexivity).
  destruct (response_written 0 post_shared post_script _ _ Ht post_runs) as (fs & H1 & H2 & _).
  exact (ex_intro _ fs (conj H1 H2)).
Defined.

(** The DATA frame comes first. *)
Definition bad_script : Script := MkScript [] [(0, Ready (Ok (Some (H3Frame.encode (Data (b "x"))))))] [] [Accepted 0].
Definition bad_start : RequestStream Script := new_request_stream 0 post_shared bad_script.

Lemma request_stream_faults_witness :
  ∃ fs, accounts [] 0 (handed_over []) fs
    ∧ fault (local_max_field_section_size post_shared) [] (PollHeaders 0, post_shared, Fail UnexpectedFrame) fs 0 (history (quic (perform 5 (PollHeaders 0) bad_start).2)) UnexpectedFrame.
Proof.
  assert (received 0 (history bad_script) = []) as Ht by (vm_compute; reflexivity).
  assert ((perform 5 (PollHeaders 0) bad_start).1 = Fail UnexpectedFrame) as E by (vm_compute; reflexivity).
  exact (request_stream_faults 0 post_shared bad_script [] bad_start 5 (PollHeaders 0) UnexpectedFrame _ Ht
    (RunStart _) (Forall_nil_2 _) eq_refl (ends_with _ _ E)).
Defined.

(** The first call has three octets of the request. *)
Lemma request_calls_return_witness :
  (perform 20 (PollHeaders 0) post_start).1 = Wait ∧ backlog (quic post_start) = 5%nat
  ∧ ∃ fs, accounts [(PollHeaders 0, post_shared, Wait)] 0 nothing_handed fs
    ∧ waits (local_max_field_section_size post_shared) [] (PollHeaders 0, post_shared, Wait) nothing_handed fs
        (perform 20 (PollHeaders 0) post_start).2.
Proof.
  assert (received 0 (history post_script) = []) as Ht by (vm_compute; reflexivity).
  assert ((perform 20 (PollHeaders 0) post_start).1 = Wait) as Ew by (vm_compute; reflexivity).
  assert (backlog (quic post_start) = 5%nat) as Eb by (vm_compute; reflexivity).
  assert (backlog (quic post_start) < 20)%nat as Hb by (rewrite Eb; lia).
  split; [exact Ew|]. split; [exact Eb|].
  exact (proj2 (request_calls_return 0 post_shared post_script [] post_start 20 (PollHeaders 0) Wait _ Ht
    (RunStart _) (Forall_nil_2 _) Hb (ends_with _ _ Ew)) eq_refl eq_refl).
Defined.
