(* ===== verification/H3Body.v ===== *)
(** * The body of an HTTP/3 request (src/src/h3/mod.rs)

    [H3Body]: what a handler polls to read the body and the trailers of its
    request.  It works on the request stream through the mutex it shares with
    the request task, and tells the driver of failures that concern the whole
    connection. *)

From S2P Require Import Prelude H3Error Varint H3Frame HpackTable H2Request QpackTable QpackString QpackDecoder QpackEncoder H3Settings.
From S2P Require Import Poll H3Transport H3Shared H3Reading H3Request H3Stream H3StreamSpec H3StreamSend H3StreamRun H3Resets.

(** [report_connection_error]. *)
Definition report_connection_error (e : StreamError) (s : ConnResetState) : ConnResetState :=
  match e with QpackFailed err => set_close_code (Some (qpack_code err)) s | _ => s end.

(** [http_body::Frame]. *)
Inductive BodyFrame `{HT : Http} : Type :=
| BodyData (data : bytes)
| BodyTrailers (trailers : HeaderMap).

(** [H3Body]: [send_continue_body] is the flag that asks for [100 Continue], when
    there is one; [conn_state] and [stream] are shared.  [lock_free] are the
    answers of the mutex, free when they are used up; [made] records the calls
    made on the stream, and the code has no such field. *)
Record H3Body `{HT : Http} (T : Type) : Type := MkH3Body {
  data_done : bool;
  send_continue_body : option bool;
  conn_state : ConnResetState;
  stream : RequestStream T;
  lock_free : list bool;
  made : list entry;
}.
Arguments MkH3Body {HT T}.
Arguments data_done {HT T}.
Arguments send_continue_body {HT T}.
Arguments conn_state {HT T}.
Arguments stream {HT T}.
Arguments lock_free {HT T}.
Arguments made {HT T}.

(** [H3Body::new]; [earlier] are the calls made before, for the head. *)
Definition new_h3_body `{HT : Http} {T} (earlier : list entry) (stream : RequestStream T) (scb : option bool) (conn : ConnResetState) (locks : list bool) : H3Body T :=
  MkH3Body false scb conn stream locks earlier.

Section body.
Context {T : Type} `{Transport T} `{HT : Http} `{HT3 : !Http3}.

Abbreviation body A := (op (H3Body T) StreamError A).

Definition set_data_done : body () :=
  modify (λ s, MkH3Body true (send_continue_body s) (conn_state s) (stream s) (lock_free s) (made s)).
(** [scb.store(true)]. *)
Definition want_continue : body () :=
  modify (λ s, MkH3Body (data_done s) ((λ _, true) <$> send_continue_body s) (conn_state s) (stream s) (lock_free s) (made s)).
Definition on_conn_state (f : ConnResetState → ConnResetState) : body () :=
  modify (λ s, MkH3Body (data_done s) (send_continue_body s) (f (conn_state s)) (stream s) (lock_free s) (made s)).

(** A poll of [self.stream.lock()]. *)
Definition try_lock : body bool := λ s,
  (Done (default true (head (lock_free s))),
   MkH3Body (data_done s) (send_continue_body s) (conn_state s) (stream s) (tail (lock_free s)) (made s)).

(** A call on the stream, and what it came back with. *)
Definition as_reply {A} (mk : A → reply) (o : outcome StreamError A) : outcome StreamError reply :=
  match o with Done a => Done (mk a) | Fail e => Fail e | Wait => Wait | Stuck => Stuck end.
Definition on_stream {A} (c : call) (mk : A → reply) (m : op (RequestStream T) StreamError A) : body (outcome StreamError A) := λ s,
  (Done (m (stream s)).1,
   MkH3Body (data_done s) (send_continue_body s) (conn_state s) (m (stream s)).2 (lock_free s)
     (made s ++ [(c, codecs (stream s), as_reply mk (m (stream s)).1)])).

(** [report_connection_error(..); return Some(Err(..))]. *)
Definition body_error {A} (e : StreamError) : body A :=
  _ ← on_conn_state (report_connection_error e); fail e.

(** The loop over [poll_recv_data]; [turns] bounds the empty frames, [fuel] is
    that of the calls. *)
Fixpoint poll_data (turns fuel : nat) (now : Z) : body (option bytes) :=
  match turns with
  | O => stuck
  | S turns =>
      free ← try_lock;
      if negb free then wait
      else
        r ← on_stream (PollRecvData now) GotData (poll_recv_data fuel now);
        match r with
        | Done (Some data) => if bool_decide (data = []) then poll_data turns fuel now else mret (Some data)
        | Done None => _ ← set_data_done; mret None
        | Fail e => body_error e
        | Wait => _ ← want_continue; wait
        | Stuck => stuck
        end
  end.

(** What follows the data. *)
Definition poll_trailers (fuel : nat) (now : Z) : body (option BodyFrame) :=
  free ← try_lock;
  if negb free then _ ← want_continue; wait
  else
    r ← on_stream (PollRecvTrailers now) GotTrailers (poll_recv_trailers fuel now);
    match r with
    | Done o => mret (BodyTrailers <$> o)
    | Fail e => body_error e
    | Wait => _ ← want_continue; wait
    | Stuck => stuck
    end.

(** [Body::poll_frame]. *)
Definition poll_body_frame (turns fuel : nat) (now : Z) : body (option BodyFrame) :=
  s ← self;
  d ← (if data_done s then mret None else poll_data turns fuel now);
  match d with
  | Some data => mret (Some (BodyData data))
  | None => poll_trailers fuel now
  end.
End body.

(** ** What the handler is given *)

Section spec.
Context {T : Type} `{Recorded T} `{HT : Http} `{HT3 : !Http3}.

(** The frames of a body: the data without empty pieces, then the trailers. *)
Definition body_frames (h : handed) : list BodyFrame :=
  (BodyData <$> filter (λ d, d ≠ []) (h_body h)) ++ (BodyTrailers <$> h_trailers h).

(** [got] is what the polls gave so far, in the run of the stream. *)
Definition given (s0 : RequestStream T) (got : list BodyFrame) (b : H3Body T) : Prop :=
  runs s0 (made b) (stream b) ∧ clean (made b) ∧ body_frames (handed_over (made b)) = got
  ∧ (data_done b = false → h_trailers (handed_over (made b)) = []).

Lemma given_same s0 got b b' : given s0 got b → stream b' = stream b → made b' = made b → (data_done b' = false → data_done b = false) →
  given s0 got b'.
Proof. intros (Hr & Hc & Hg & Hd) E Em Hdd. unfold given. rewrite E, Em. repeat split; auto. Qed.

(** The last call made gave [e], with a reason. *)
Definition failed_with (s0 : RequestStream T) (e : StreamError) (b : H3Body T) : Prop := ∃ tr s fuel c s',
  runs s0 tr s ∧ clean tr ∧ receives c = true ∧ perform fuel c s = (Fail e, s')
  ∧ made b = tr ++ [(c, codecs s, Fail e)] ∧ stream b = s'.

(** A call that reads. *)
Lemma wp_read {A} (m : op (RequestStream T) StreamError A) (Q : outcome StreamError (outcome StreamError A) → H3Body T → Prop)
    c fuel (mk : A → reply) s0 got b :
  perform fuel c = (r ← m; mret (mk r)) → receives c = true → given s0 got b →
  (∀ o s', m (stream b) = (o, s') →
     let b' := MkH3Body (data_done b) (send_continue_body b) (conn_state b) s' (lock_free b)
       (made b ++ [(c, codecs (stream b), as_reply mk o)]) in
     runs s0 (made b') s' → (if o is Done _ then clean (made b') else if o is Wait then clean (made b') else True) →
     (∀ e, o = Fail e → failed_with s0 e b') → Q (Done o) b') →
  wp (on_stream c mk m) Q b.
Proof.
  intros Hp Hrc (Hr & Hc & Hg & Hd) HQ. unfold wp, on_stream. cbn [fst snd].
  destruct (m (stream b)) as [o s'] eqn:E. cbn [fst snd].
  assert (perform fuel c (stream b) = (as_reply mk o, s')) as Ep.
  { rewrite Hp. unfold mbind, op_bind. rewrite E. by destruct o. }
  apply (HQ o s' eq_refl).
  - eapply RunCall; [exact Hr|exact Ep].
  - destruct o; try done; (apply Forall_app; split; [exact Hc|]); apply Forall_singleton; unfold unfailed; cbn; by rewrite Hrc.
  - intros e ->. by exists (made b), (stream b), fuel, c, s'.
Qed.

Lemma body_more h d : h_trailers h = [] → d ≠ [] →
  body_frames (hand h (Done (GotData (Some d)))) = body_frames h ++ [BodyData d].
Proof.
  intros Ht Hd. unfold body_frames. cbn [hand h_body h_trailers]. rewrite Ht, !app_nil_r, filter_app, filter_cons_True by done.
  by rewrite fmap_app.
Qed.

Lemma body_empty h : body_frames (hand h (Done (GotData (Some [])))) = body_frames h.
Proof. unfold body_frames. cbn [hand h_body h_trailers]. rewrite filter_app, filter_cons_False, filter_nil, app_nil_r by tauto. done. Qed.

Lemma body_trailers h m : body_frames (hand h (Done (GotTrailers (Some m)))) = body_frames h ++ [BodyTrailers m].
Proof. unfold body_frames. cbn [hand h_body h_trailers]. by rewrite fmap_app, app_assoc. Qed.

Lemma data_given turns fuel now : ∀ s0 got b, given s0 got b → data_done b = false →
  wp (poll_data turns fuel now) (λ o b', match o with
    | Done (Some d) => given s0 (got ++ [BodyData d]) b'
    | Done None | Wait => given s0 got b'
    | Fail e => conn_state b' = report_connection_error e (conn_state b) ∧ failed_with s0 e b'
    | Stuck => True
    end) b.
Proof.
  induction turns as [|turns IH]; intros s0 got b Hg Hd; [done|]. cbn [poll_data]. apply wp_bind. unfold wp at 1, try_lock. cbn [fst snd andthen].
  set (b1 := MkH3Body _ _ _ _ _ _). assert (given s0 got b1) as Hg1 by by eapply given_same.
  destruct (default true (head (lock_free b))); cbn [negb]; [|exact Hg1]. apply wp_bind.
  eapply (wp_read _ _ (PollRecvData now) fuel GotData); [done|done|exact Hg1|].
  intros o s' Em b' Hr' Hc' Hf. destruct Hg1 as (Hr & Hc & Hgot & Htr). cbn [andthen].
  assert (handed_over (made b') = hand (handed_over (made b1)) (as_reply GotData o)) as Eh by apply handed_over_snoc.
  assert (∀ b2 got', stream b2 = stream b' → made b2 = made b' → clean (made b') →
    body_frames (handed_over (made b')) = got' → h_trailers (handed_over (made b')) = [] → given s0 got' b2) as Hkeep.
  { intros b2 got' E1 E2 Hcl Eb Et. unfold given. rewrite E1, E2. by split_and!. }
  specialize (Htr Hd).
  destruct o as [[d|]|e| |]; cbn [as_reply] in Eh; [case_bool_decide as E| | | |done].
  - eapply wp_mono; [apply (IH s0 got)|by intros [[]|e| |] b2 Hb2]; [|exact Hd].
    apply (Hkeep b'); [done..| |by rewrite Eh]. rewrite Eh. subst d. by rewrite body_empty.
  - apply (Hkeep b'); [done..| |by rewrite Eh]. rewrite Eh, body_more by done. by rewrite Hgot.
  - eapply Hkeep; [done..| |by rewrite Eh]. by rewrite Eh.
  - split; [done|]. destruct (Hf e eq_refl) as (tr & s & fu & c & s2 & H1). by exists tr, s, fu, c, s2.
  - eapply Hkeep; [done..| |by rewrite Eh]. by rewrite Eh.
Qed.

(** Without data there is no more to come, and nothing is reported. *)
Lemma data_leaves turns fuel now : ∀ b,
  wp (poll_data turns fuel now) (λ o b', match o with
    | Done None => data_done b' = true ∧ conn_state b' = conn_state b
    | _ => True end) b.
Proof.
  induction turns as [|turns IH]; intros b; [done|]. cbn [poll_data]. apply wp_bind. unfold wp at 1, try_lock. cbn [fst snd andthen].
  destruct (default true (head (lock_free b))); cbn [negb]; [|done]. apply wp_bind. unfold wp at 1, on_stream. cbn [fst snd andthen].
  destruct (poll_recv_data fuel now _) as [[[d|]|e| |] s']; cbn [fst snd]; try done.
  case_bool_decide; [|done]. eapply wp_mono; [apply IH|]. by intros [[]|e| |] b' Hb'.
Qed.

(** A stream without trailers left has been read to its end. *)
Lemma no_trailers_finished fuel now (s : RequestStream T) :
  wp (poll_recv_trailers fuel now) (λ o s', o = Done None → recv_finished (receiving s') = true) s.
Proof.
  unfold poll_recv_trailers. apply wp_self. destruct (trailers_lines _) as [lines|].
  { rsteps. apply wp_lift. by destruct (header_map lines). }
  destruct (trailers_blocked _).
  { unfold take_unblocked. rsteps. destruct (take_unblocked_for _ _) as [[section sh]|]; [|done].
    rsteps. apply wp_lift. by destruct (header_map _). }
  destruct (recv_finished _) eqn:E; [by intros _|]. destruct (_ || _); [done|].
  destruct (trailers_done _).
  { apply wp_bind. destruct (poll_after_trailers fuel s) as [[u|e| |] s1] eqn:Ea; unfold wp at 1; rewrite Ea; cbn [fst snd andthen]; try done. }
  apply wp_bind. destruct (poll_frame fuel s) as [[[f|]|e| |] s1] eqn:Ef; unfold wp at 1; rewrite Ef; cbn [fst snd andthen]; try done.
  destruct f as [|payload| | | | |]; try done. apply wp_bind. destruct (decode_block now payload s1) as [[[hs|]|e| |] s2] eqn:Eb; unfold wp at 1; rewrite Eb; cbn [fst snd andthen]; try done.
  rsteps. apply wp_lift. by destruct (header_map hs).
Qed.

Lemma trailers_given fuel now s0 got b : given s0 got b → data_done b = true →
  wp (poll_trailers fuel now) (λ o b', match o with
    | Done (Some f) => given s0 (got ++ [f]) b'
    | Done None => given s0 got b' ∧ recv_finished (receiving (stream b')) = true
    | Wait => given s0 got b'
    | Fail e => conn_state b' = report_connection_error e (conn_state b) ∧ failed_with s0 e b'
    | Stuck => True
    end) b.
Proof.
  intros Hg Hd. unfold poll_trailers. apply wp_bind. unfold wp at 1, try_lock. cbn [fst snd andthen].
  set (b1 := MkH3Body _ _ _ _ _ _). assert (given s0 got b1) as Hg1 by by eapply given_same.
  destruct (default true (head (lock_free b))); cbn [negb]; [|by eapply given_same]. apply wp_bind.
  eapply (wp_read _ _ (PollRecvTrailers now) fuel GotTrailers); [done|done|exact Hg1|].
  intros o s' Em b' Hr' Hc' Hf. destruct Hg1 as (Hr & Hc & Hgot & Htr). cbn [andthen].
  assert (∀ b2 got', stream b2 = stream b' → made b2 = made b' → data_done b2 = data_done b → clean (made b') →
    body_frames (hand (handed_over (made b1)) (as_reply GotTrailers o)) = got' → given s0 got' b2) as Hnow.
  { intros b2 got' E1 E2 E3 Hcl Eb. split; [by rewrite E1, E2|]. rewrite E2, E3, Hd. split; [exact Hcl|]. split; [|done].
    rewrite <- Eb. f_equal. apply handed_over_snoc. }
  destruct o as [[m|]|e| |]; try done.
  - apply (Hnow b'); try done. cbn [as_reply]. by rewrite body_trailers, Hgot.
  - split; [by apply (Hnow b')|]. pose proof (no_trailers_finished fuel now (stream b1)) as Hfin. unfold wp in Hfin. rewrite Em in Hfin. by apply Hfin.
  - split; [done|]. destruct (Hf e eq_refl) as (tr & s & fu & c & s2 & H1). by exists tr, s, fu, c, s2.
  - by eapply Hnow.
Qed.
End spec.

(** ** Runs *)

Section runs.
Context {T : Type} `{Recorded T} `{HT : Http} `{HT3 : !Http3}.

(** A poll that has not failed. *)
Definition frame_of (o : outcome StreamError (option BodyFrame)) : option (list BodyFrame) :=
  match o with Done f => Some (option_list f) | Wait => Some [] | _ => None end.

(** The polls of one body, with what they gave.  They begin when the request has
    been handed over; between two of them the request task makes its sending
    calls, and the codecs, the mutex, the flag and the budgets change. *)
Inductive reads (s0 : RequestStream T) : list BodyFrame → H3Body T → Prop :=
| BStart b : runs s0 (made b) (stream b) → clean (made b) → body_frames (handed_over (made b)) = [] → reads s0 [] b
| BPoll got b turns fuel now o b' l : reads s0 got b → poll_body_frame turns fuel now b = (o, b') → frame_of o = Some l →
    reads s0 (got ++ l) b'
| BSend got b fuel c o s' : reads s0 got b → receives c = false → perform fuel c (stream b) = (o, s') →
    reads s0 got (MkH3Body (data_done b) (send_continue_body b) (conn_state b) s' (lock_free b) (made b ++ [(c, codecs (stream b), o)]))
| BElse got b scb conn sh locks : reads s0 got b →
    reads s0 got (MkH3Body (data_done b) scb conn (with_codecs sh (stream b)) locks (made b)).

(** What a poll gives, and what it says when it fails. *)
Lemma frame_given turns fuel now s0 got b : given s0 got b →
  wp (poll_body_frame turns fuel now) (λ o b', match o with
    | Done (Some f) => given s0 (got ++ [f]) b'
    | Done None => given s0 got b' ∧ recv_finished (receiving (stream b')) = true
    | Wait => given s0 got b'
    | Fail e => conn_state b' = report_connection_error e (conn_state b) ∧ failed_with s0 e b'
    | Stuck => True
    end) b.
Proof.
  intros Hg. unfold poll_body_frame. apply wp_self, wp_bind. destruct (data_done b) eqn:Hd.
  - apply wp_ret. cbn [andthen]. by apply trailers_given.
  - pose proof (data_given turns fuel now s0 got b Hg Hd) as Hs. pose proof (data_leaves turns fuel now b) as Hl.
    unfold wp in Hs, Hl. unfold wp at 1. destruct (poll_data turns fuel now b) as [[[d|]|e| |] b']; cbn [fst snd andthen] in *; try done.
    destruct Hl as [Hdone Hconn]. rewrite <- Hconn. by apply trailers_given.
Qed.

Lemma reads_given s0 got b : reads s0 got b → given s0 got b.
Proof.
  induction 1 as [b Hr Hc Hh|got b turns fuel now o b' l _ IH E El|got b fuel c o s' _ IH Hc E|got b scb conn sh locks _ IH].
  - split; [done|]. split; [done|]. split; [done|]. intros _. unfold body_frames in Hh.
    by apply app_nil in Hh as [_ Hh%fmap_nil_inv].
  - pose proof (frame_given turns fuel now s0 got b IH) as Hg. unfold wp in Hg. rewrite E in Hg. cbn [fst snd] in Hg.
    destruct o as [[f|]|e| |]; try done; injection El as <-; cbn [option_list]; rewrite ?app_nil_r; [done|apply Hg|done].
  - destruct IH as (Hr & Hcl & Hg & Hd). split; [by eapply RunCall|].
    split; [apply Forall_app; split; [done|]; apply Forall_singleton; unfold unfailed; cbn; by rewrite Hc|].
    pose proof (sending_hands fuel c (handed_over (made b)) (stream b) Hc) as Eh. rewrite E in Eh. cbn [fst] in Eh.
    assert (handed_over (made b ++ [(c, codecs (stream b), o)]) = handed_over (made b)) as Em by (etransitivity; [apply handed_over_snoc|exact Eh]).
    cbn [made data_done]. rewrite Em. by split.
  - destruct IH as (Hr & Hcl & Hg & Hd). split; [by apply RunCodecs|]. by split.
Qed.
End runs.

(** C37. The body a handler reads is the body received.  However its octets
    arrive, whoever holds the mutex, whatever the request task writes and the
    control plane does in between: what the polls gave is the payloads of the
    DATA frames received, in order and each once but for empty ones, and then
    the trailers, which are what the decoder made of the second block in one of
    the calls made, or what a call found unblocked first for the stream after
    the decoder had put the block aside; a poll that waits or gives a frame has
    nothing in between left out, and when it reports the end the octets received
    are exactly these frames.  A poll fails because its last call failed, for
    one of the reasons of a call, and has the driver close the connection with
    the code of QPACK when QPACK is the reason. *)
Theorem request_body_told {T} `{Recorded T} `{HT : Http} `{HT3 : !Http3} id sh (t : T) got b turns fuel now o b' :
  received id (history t) = [] → reads (new_request_stream id sh t) got b →
  poll_body_frame turns fuel now b = (o, b') →
  let max := local_max_field_section_size sh in let h := history (quic (stream b')) in
  match o with
  | Done _ | Wait => ∃ fs more rest e hd,
      frames max (received id h) = (fs ++ more, rest, e)
      ∧ accounts (made b') id hd fs ∧ got ++ default [] (frame_of o) = body_frames hd
      ∧ (o = Done None → more = [] ∧ rest = [] ∧ e = None)
  | Fail e => (∃ tr c k fs, made b' = tr ++ [(c, k, Fail e)] ∧ accounts tr id (handed_over tr) fs
        ∧ fault max tr (c, k, Fail e) fs id h e)
      ∧ ∀ err, e = QpackFailed err → close_code (H3Body.conn_state b') = Some (qpack_code err)
  | Stuck => True
  end.
Proof.
  intros Ht Hr E. apply reads_given in Hr. pose proof (frame_given turns fuel now _ got b Hr) as Hg. unfold wp in Hg. rewrite E in Hg. cbn [fst snd] in Hg.
  assert (∀ got', given (new_request_stream id sh t) got' b' → (o = Done None → recv_finished (receiving (stream b')) = true) →
    ∃ fs more rest e hd, frames (local_max_field_section_size sh) (received id (history (quic (stream b')))) = (fs ++ more, rest, e)
      ∧ accounts (made b') id hd fs ∧ got' = body_frames hd ∧ (o = Done None → more = [] ∧ rest = [] ∧ e = None)) as Htold.
  { intros got' (Hrun & Hc & <- & _) Hfin. destruct (stream_told id sh t _ _ Ht Hrun Hc) as (fs & more & rest & e & Hf & Ha & He).
    exists fs, more, rest, e, (handed_over (made b')). split; [exact Hf|]. split; [exact Ha|]. split; [done|]. auto. }
  cbv zeta. destruct o as [[f|]|e| |]; cbn [frame_of default option_list]; rewrite ?app_nil_r.
  - by apply Htold.
  - destruct Hg as [Hg Hfin]. by apply Htold.
  - destruct Hg as [Hconn (tr & s & fu & c & s' & Hrun & Hc & Hrc & Ep & Em & <-)]. split; [|rewrite Hconn; by intros err ->].
    destruct (stream_faults id sh t _ _ _ _ _ _ Ht Hrun Hc Hrc Ep) as (fs & Ha & Hf). by exists tr, c, (codecs s), fs.
  - by apply Htold.
  - done.
Qed.

(** ** A body *)

#[local] Existing Instance plain_http.
#[local] Existing Instance plain_http3.

(** The request of H3StreamRun, once its head has been read; the mutex is taken
    once. *)
Definition body_limits : ConnResetState := new_reset_state (MkResetLimits None (Some 20)) 0.
Definition body_head : list entry * RequestStream Script :=
  exec 20 [PollHeaders 0; PollHeaders 0] post_start.
Definition body_start : H3Body Script := new_h3_body body_head.1 body_head.2 (Some false) body_limits [false].
Definition body_poll (b : H3Body Script) : H3Body Script := (poll_body_frame 5 20 0 b).2.

Lemma body_step s0 got b l : reads s0 got b → frame_of (poll_body_frame 5 20 0 b).1 = Some l → reads s0 (got ++ l) (body_poll b).
Proof. intros Hr E. eapply BPoll; [exact Hr|apply surjective_pairing|exact E]. Qed.

Lemma body_begins : reads post_start [] body_start.
Proof.
  apply (BStart post_start body_start); [exact (exec_start 20 _ post_start)| |vm_compute; reflexivity].
  apply (bool_decide_unpack _). vm_compute. exact I.
Qed.

Definition body_ended : H3Body Script := body_poll (body_poll (body_poll (body_poll body_start))).

Lemma body_reads : reads post_start ([] ++ [] ++ [BodyData (b "hel")] ++ [BodyData (b "lo")] ++ [BodyTrailers [(b "x", b "y")]]) body_ended.
Proof.
  rewrite !app_assoc. do 4 (eapply body_step; [|vm_compute; reflexivity]). exact body_begins.
Qed.

Lemma request_body_told_witness :
  ∃ fs more rest e hd, frames (local_max_field_section_size post_shared) (received 0 (history (quic (stream (body_poll body_ended))))) = (fs ++ more, rest, e)
    ∧ accounts (made (body_poll body_ended)) 0 hd fs
    ∧ [BodyData (b "hel"); BodyData (b "lo"); BodyTrailers [(b "x", b "y")]] ++ default [] (frame_of (poll_body_frame 5 20 0 body_ended).1) = body_frames hd
    ∧ more = [] ∧ rest = [] ∧ e = None.
Proof.
  assert (received 0 (history post_script) = []) as Ht by (vm_compute; reflexivity).
  assert ((poll_body_frame 5 20 0 body_ended).1 = Done None) as E by (vm_compute; reflexivity).
  pose proof (request_body_told 0 post_shared post_script _ body_ended 5 20 0 _ _ Ht body_reads (surjective_pairing _)) as H.
  rewrite E in H |- *. destruct H as (fs & more & rest & e & hd & H1 & H2 & H3 & H4).
  exists fs, more, rest, e, hd. split; [exact H1|]. split; [exact H2|]. split; [exact H3|exact (H4 eq_refl)].
Defined.

(** A body with a frame that has no place in it: SETTINGS behind the head. *)
Definition bad_body_script : Script :=
  MkScript [] [(0, Ready (Ok (Some (H3Frame.encode (Headers (block_of post_section)) ++ [4; 0]))))] [] [Accepted 0].
Definition bad_head : list entry * RequestStream Script := exec 20 [PollHeaders 0] (new_request_stream 0 post_shared bad_body_script).
Definition bad_body : H3Body Script := new_h3_body bad_head.1 bad_head.2 None body_limits [].

(** A fault of the frames of a body is not reported.  The handler sees an
    error, but no code is recorded for the connection, although the error is one
    of the connection, H3_FRAME_UNEXPECTED; [handle_request] reports the same
    fault when it comes before the head. *)
Theorem body_fault_unreported :
  let '(o, b') := poll_body_frame 5 20 0 bad_body in
  o = Fail UnexpectedFrame ∧ stream_code UnexpectedFrame = 0x105 ∧ close_code (conn_state b') = None.
Proof. vm_compute. done. Qed.
