(* ===== verification/H3Task.v ===== *)
(** * The request tasks of HTTP/3 (src/src/h3/mod.rs)

    [handle_request]: what becomes of a request stream the driver has accepted.
    It reads the head, calls the handler, and writes interim responses, the
    response, its body and its trailers.  The handler, the body of its response
    and the rest of the connection are the class [Application].

    An await polls until the call is ready; in between the task is suspended, and
    others work on the codecs.  The handler runs within a poll of this task, so
    the mutex of the stream is free whenever the task takes it. *)

From S2P Require Import Prelude H3Error Varint H3Frame HpackTable H2Request QpackTable QpackString QpackDecoder QpackEncoder.
From S2P Require Import Poll H3Transport H3Endpoint H3Shared H3Request H3Stream H3Resets.

(** ** The environment *)

(** What the code calls of the [http] crate for a response: [HeaderMap::get] and
    the octets of the value, [contains_key], [insert], [remove], the iterator;
    [HeaderValue::from] a number; and the comparison with [Method::HEAD]. *)
Class H3Crates `{HT : Http} : Type := {
  header_get : HeaderMap → bytes → option bytes;
  header_insert : HeaderMap → bytes → bytes → HeaderMap;
  header_remove : HeaderMap → bytes → HeaderMap;
  header_iter : HeaderMap → list field;
  header_number : Z → bytes;
  is_head_method : Method → bool;
}.

(** A response: [rs_ends] is [is_end_stream()] of its body, [rs_size] the exact
    size hint. *)
Record Response `{HT : Http} : Type := MkResponse {
  rs_status : Z;
  rs_headers : HeaderMap;
  rs_ends : bool;
  rs_size : option Z;
}.
#[global] Arguments MkResponse {HT} _ _ _ _.

Inductive ResponseFrame `{HT : Http} : Type :=
| FrameData (data : bytes)
| FrameTrailers (trailers : HeaderMap)
| FrameOther.

(** Why a hint was not sent, and the outcomes of the calls a task makes. *)
Class Application (T W : Type) `{HT : Http} : Type := {
  (** While the task is suspended; [None] when it is never polled again. *)
  meanwhile : RequestStream T → W → option (SharedCodecs * W);
  (** The call of the handler, for a CONNECT or not, and a poll of its future,
      which may read the body of the request. *)
  dispatch : Request → bool → W → W;
  poll_response : RequestStream T → W → poll (result () Response) * (RequestStream T * W);
  (** [early_hints_rx.poll_recv] and the answer to its sender. *)
  poll_hint : W → poll (option HeaderMap) * W;
  answer_hint : result StreamError () → W → W;
  (** The flag that a body sets when it waits. *)
  load_continue : W → bool * W;
  (** [response_body.frame()]. *)
  poll_body : W → poll (option (result () ResponseFrame)) * W;
  (** The flag of an upgrade, and its bridge task. *)
  load_upgraded : W → bool * W;
  run_upgrade : RequestStream T → W → RequestStream T * W;
  (** The clock, the cached date, and the error callback. *)
  now : W → Z;
  date_value : W → option bytes;
  report : W → W;
}.

(** ** The state *)

Record Task (T W : Type) : Type := MkTask {
  request : RequestStream T;
  conn_state : ConnResetState;
  world : W;
}.
Arguments MkTask {T W}.
Arguments request {T W}.
Arguments conn_state {T W}.
Arguments world {T W}.

(** [return]. *)
Inductive Returned : Type := EarlyReturn.

(** What the task is created with. *)
Record TaskOptions : Type := MkTaskOptions {
  send_continue_response : bool;
  send_date_header : bool;
}.

Section task.
Context {T W : Type} `{Endpoint T} `{HT : Http} `{HT3 : !Http3} `{HC : !H3Crates} `{HA : !Application T W}.

Abbreviation task A := (op (Task T W) Returned A).

Definition return_ {A} : task A := fail EarlyReturn.

Definition on_world (f : W → W) : task () := modify (λ s, MkTask (request s) (conn_state s) (f (world s))).
Definition ask_world {A} (f : W → A * W) : task A := λ s,
  (Done (f (world s)).1, MkTask (request s) (conn_state s) (f (world s)).2).
Definition on_conn_state (f : ConnResetState → ConnResetState) : task () :=
  modify (λ s, MkTask (request s) (f (conn_state s)) (world s)).

(** A poll of the request stream, and what it came back with. *)
Definition on_request {A} (m : op (RequestStream T) StreamError A) : task (outcome StreamError A) := λ s,
  (Done (m (request s)).1, MkTask (m (request s)).2 (conn_state s) (world s)).

(** A poll of the handler. *)
Definition poll_handler : task (poll (result () Response)) := λ s,
  let '(r, (q, w)) := poll_response (request s) (world s) in (Done r, MkTask q (conn_state s) w).

(** The task is suspended, and polled again unless nothing wakes it. *)
Definition suspend : task () := λ s,
  match meanwhile (request s) (world s) with
  | Some (sh, w) => (Done (), MkTask (MkRequestStream (stream_id (request s)) (receiving (request s)) (sending (request s)) sh (quic (request s))) (conn_state s) w)
  | None => (Wait, s)
  end.

(** [poll_fn(|cx| m).await] on the request stream, with the clock's reading. *)
Fixpoint await {A} (polls : nat) (m : Z → op (RequestStream T) StreamError A) : task (result StreamError A) :=
  match polls with
  | O => stuck
  | S polls =>
      s ← self;
      r ← on_request (m (now (world s)));
      match r with
      | Done a => mret (Ok a)
      | Fail e => mret (Err e)
      | Wait => _ ← suspend; await polls m
      | Stuck => stuck
      end
  end.

(** [RequestStream::poll_reset], [poll_stop_sending], [poll_stopped]. *)
Definition stream_reset (code : Z) : op (RequestStream T) StreamError () :=
  s ← self; ready (call_stream (poll_reset (stream_id s) code)).
Definition stream_stop (code : Z) : op (RequestStream T) StreamError () :=
  s ← self; ready (call_stream (poll_stop_sending (stream_id s) code)).
Definition stream_stopped : op (RequestStream T) StreamError () :=
  s ← self; ready (call_stream (poll_stopped (stream_id s))).

(** ** Helpers *)

Definition HTTP3_INVALID_HEADERS : list bytes :=
  [b "keep-alive"; b "proxy-connection"; b "connection"; b "transfer-encoding"; b "upgrade"].

Definition remove_invalid_http3_headers (m : HeaderMap) : HeaderMap :=
  let m := foldl header_remove m HTTP3_INVALID_HEADERS in
  if from_option (λ v, negb (bool_decide (v = b "trailers"))) false (header_get m (b "te"))
  then header_remove m (b "te") else m.

(** [wait_for_encoder]. *)
Fixpoint wait_for_encoder (polls : nat) : task () :=
  match polls with
  | O => stuck
  | S polls =>
      s ← self;
      match encoder (codecs (request s)) with
      | Some _ => mret ()
      | None => _ ← suspend; wait_for_encoder polls
      end
  end.

Definition send_interim_response (polls : nat) (status : Z) : task (result StreamError ()) :=
  await polls (λ _, poll_send_response status (header_iter header_map_new)).

Definition send_response (polls : nat) (status : Z) (headers : HeaderMap) : task (result StreamError ()) :=
  _ ← wait_for_encoder polls;
  await polls (λ _, poll_send_response status (header_iter headers)).

Definition send_data (polls : nat) (data : bytes) : task (result StreamError ()) :=
  await polls (λ _, poll_send_data data).

Definition send_trailers (polls : nat) (trailers : HeaderMap) : task (result StreamError ()) :=
  await polls (λ _, poll_send_trailers (header_iter trailers)).

Definition abort (polls : nat) : task () :=
  _ ← await polls (λ _, stream_reset (code Internal)); mret ().

Definition send_finish (polls : nat) : task (result StreamError ()) :=
  r ← await polls (λ _, poll_finish_response);
  r2 ← await polls (λ _, stream_stopped);
  mret (match r with Ok a => Ok a | Err _ => r2 end).

(** A failure that ends the task: it is reported, and the stream reset. *)
Definition break_off {A} (polls : nat) : task A := _ ← on_world report; _ ← abort polls; return_.

(** [if let Err(error) = r { report(..); abort(..).await; return; }]. *)
Definition or_break_off (polls : nat) (r : result StreamError ()) : task () :=
  match r with Ok _ => mret () | Err _ => break_off polls end.

(** ** The stages of [handle_request] *)

(** A charge to a budget; it may order the connection closed. *)
Definition charge (f : ConnResetState → option Z * ConnResetState) : task () :=
  on_conn_state (λ c, let '(o, c) := f c in set_close_code o c).

(** The head of the request. *)
Definition read_request (fuel polls : nat) : task Request :=
  r ← await polls (poll_headers fuel);
  match r with
  | Ok (Some request) => mret request
  | Ok None => return_
  | Err e =>
      if is_stream_scoped e then
        _ ← on_world report;
        s ← self;
        _ ← charge (note_pending_accept_reset (now (world s)));
        return_
      else match e with
      | MessageError =>
          _ ← on_world report;
          _ ← await polls (λ _, stream_reset (stream_code e));
          _ ← await polls (λ _, stream_stop (stream_code e));
          _ ← charge note_local_error_reset;
          return_
      | _ => _ ← on_conn_state (set_close_code (Some (stream_code e))); return_
      end
  end.

Definition CONTINUE : Z := 100.
Definition EARLY_HINTS : Z := 103.

(** Whether the request asks for [100 Continue]. *)
Definition wants_continue (opts : TaskOptions) (q : Request) : bool :=
  send_continue_response opts
  && from_option (λ v, eq_ignore_ascii_case v (b "100-continue")) false (header_map_expect (rq_headers q)).

(** The loop until the response is there: [open] is [early_hints_open], [sent]
    is [continue_sent].  The response, and [sent]. *)
Fixpoint await_response (turns polls : nat) (is_100_continue open sent : bool) : task (result () Response * bool) :=
  match turns with
  | O => stuck
  | S turns =>
      let again := await_response turns polls is_100_continue in
      r ← poll_handler;
      match r with
      | Ready r => mret (r, sent)
      | Pending =>
          if negb open then _ ← suspend; again open sent
          else
            hint ← ask_world poll_hint;
            match hint with
            | Ready (Some headers) =>
                r ← send_response polls EARLY_HINTS headers;
                _ ← on_world (answer_hint r);
                again open sent
            | Ready None => again false sent
            | Pending =>
                wanted ← (if negb sent && is_100_continue then ask_world load_continue else mret false);
                if wanted : bool then
                  r ← send_interim_response polls CONTINUE;
                  _ ← or_break_off polls r;
                  again open true
                else _ ← suspend; again open sent
            end
      end
  end.

(** The headers of the response as they are sent. *)
Definition with_date (date : option bytes) (m : HeaderMap) : HeaderMap :=
  match date with
  | Some date => if bool_decide (header_get m (b "date") = None) then header_insert m (b "date") date else m
  | None => m
  end.
Definition with_length (r : Response) (m : HeaderMap) : HeaderMap :=
  match rs_size r with
  | Some size =>
      if negb (rs_ends r) && bool_decide (header_get m (b "content-length") = None)
      then header_insert m (b "content-length") (header_number size) else m
  | None => m
  end.
Definition prepare (date : option bytes) (r : Response) : HeaderMap :=
  with_length r (remove_invalid_http3_headers (with_date date (rs_headers r))).

(** [is_client_error() || is_server_error()]. *)
Definition is_error_status (status : Z) : bool := (400 <=? status) && (status <? 600).

(** The head of the response. *)
Definition send_head (polls : nat) (opts : TaskOptions) (is_100_continue sent : bool) (r : Response) : task () :=
  s ← self;
  let headers := prepare (if send_date_header opts then date_value (world s) else None) r in
  _ ← (if is_100_continue && negb sent && negb (is_error_status (rs_status r)) then
         i ← send_interim_response polls CONTINUE; or_break_off polls i
       else mret ());
  r ← send_response polls (rs_status r) headers;
  or_break_off polls r.

(** [frame().await]. *)
Fixpoint await_frame (polls : nat) : task (option (result () ResponseFrame)) :=
  match polls with
  | O => stuck
  | S polls =>
      r ← ask_world poll_body;
      match r with Ready f => mret f | Pending => _ ← suspend; await_frame polls end
  end.

(** The body of the response; [turns] bounds its frames. *)
Fixpoint send_body (turns polls : nat) : task () :=
  match turns with
  | O => stuck
  | S turns =>
      f ← await_frame polls;
      match f with
      | None => mret ()
      | Some (Err _) => break_off polls
      | Some (Ok (FrameData data)) =>
          if bool_decide (data = []) then send_body turns polls
          else r ← send_data polls data; _ ← or_break_off polls r; send_body turns polls
      | Some (Ok (FrameTrailers trailers)) =>
          r ← send_trailers polls (remove_invalid_http3_headers trailers);
          or_break_off polls r
      | Some (Ok FrameOther) => send_body turns polls
      end
  end.

(** The stream of a CONNECT is handed over when the handler has upgraded. *)
Definition try_upgrade (connect : bool) : task () :=
  if connect then
    upgraded ← ask_world load_upgraded;
    if upgraded : bool then
      _ ← modify (λ s, let '(q, w) := run_upgrade (request s) (world s) in MkTask q (conn_state s) w);
      return_
    else mret ()
  else mret ().

(** [handle_request]; [turns] bounds the loops over hints and frames, [polls] the
    polls of an await, [fuel] is that of [poll_headers]. *)
Definition handle_request (opts : TaskOptions) (fuel polls turns : nat) : task () :=
  q ← read_request fuel polls;
  let is_100_continue := wants_continue opts q in
  let connect := is_connect_method (rq_method q) in
  _ ← on_world (dispatch q connect);
  '(r, sent) ← await_response turns polls is_100_continue true false;
  match r with
  | Err _ => break_off polls
  | Ok r =>
      _ ← send_head polls opts is_100_continue sent r;
      _ ← try_upgrade connect;
      _ ← (if rs_ends r || is_head_method (rq_method q) then mret () else send_body turns polls);
      f ← send_finish polls;
      match f with Ok _ => mret () | Err _ => on_world report end
  end.
End task.
