(* ===== verification/H3TaskSpec.v ===== *)
(** * What a request task of HTTP/3 writes

    Whatever the handler, the body of its response, the transport and the rest
    of the connection do: a stream carries the interim responses, the response
    and the body the handler gave, in order and once, and a response that is not
    whole is reset. *)

From S2P Require Import Prelude H3Error Varint H3Frame HpackTable H2Request QpackTable QpackString QpackDecoder QpackEncoder H3Settings.
From S2P Require Import Poll H3Transport H3Endpoint H3Shared H3Reading H3Request H3Stream H3StreamSpec H3StreamSend H3StreamRun H3Resets H3Task.

(** ** What the application does *)

Inductive app_event `{HT : Http} : Type :=
| Dispatched (q : Request) (connect : bool)
| Responded (r : result () Response)
| Hinted (m : HeaderMap)
| Answered (r : result StreamError ())
| ContinueAsked
| Gave (f : option (result () ResponseFrame))
| Upgraded_.

Definition event_when `{HT : Http} (b : bool) (ev : app_event) : list app_event := if b then [ev] else [].

(** An application that remembers.  A handler only reads the request stream, and
    while the task is suspended nothing but the codecs changes. *)
Class RecordedApplication (T W : Type) `{Recorded T} `{HT : Http} `{!Http3} `{!Application T W} : Type := {
  past : W → list app_event;
  past_meanwhile q w sh w' : meanwhile q w = Some (sh, w') → past w' = past w;
  past_dispatch q c w : past (dispatch q c w) = past w ++ [Dispatched q c];
  past_response q w : past (poll_response q w).2.2
    = past w ++ match (poll_response q w).1 with Ready r => [Responded r] | Pending => [] end;
  past_hint w : past (poll_hint w).2 = past w ++ match (poll_hint w).1 with Ready (Some m) => [Hinted m] | _ => [] end;
  past_answer r w : past (answer_hint r w) = past w ++ [Answered r];
  past_continue w : past (load_continue w).2 = past w ++ event_when (load_continue w).1 ContinueAsked;
  past_body w : past (poll_body w).2 = past w ++ match (poll_body w).1 with Ready f => [Gave f] | Pending => [] end;
  past_upgraded w : past (load_upgraded w).2 = past w ++ event_when (load_upgraded w).1 Upgraded_;
  past_upgrade q w : past (run_upgrade q w).2 = past w;
  past_report w : past (report w) = past w;
  handler_reads s0 tr q w : runs s0 tr q →
    ∃ tr', runs s0 (tr ++ tr') (poll_response q w).2.1 ∧ Forall (λ x, receives x.1.1 = true) tr';
}.

Section spec.
Context {T W : Type} `{RecordedEndpoint T} `{HT : Http} `{HT3 : !Http3} `{HC : !H3Crates}
  `{HA : !Application T W} `{HR : !RecordedApplication T W}.

Abbreviation task A := (op (Task T W) Returned A).

(** The messages a stream owes for what the application did.  [date] is the
    date of the response, [is_100] whether the request asked for [100 Continue],
    [sent] whether that has been answered. *)
Fixpoint owed (date : option bytes) (is_100 sent : bool) (h : list app_event) : list call :=
  match h with
  | [] => []
  | Hinted m :: h => CallSendResponse EARLY_HINTS (header_iter m) :: owed date is_100 sent h
  | ContinueAsked :: h =>
      (if is_100 && negb sent then [CallSendResponse CONTINUE (header_iter header_map_new)] else []) ++ owed date is_100 true h
  | Responded (Ok r) :: h =>
      (if is_100 && negb sent && negb (is_error_status (rs_status r))
       then [CallSendResponse CONTINUE (header_iter header_map_new)] else [])
      ++ CallSendResponse (rs_status r) (header_iter (prepare date r)) :: owed date is_100 sent h
  | Gave (Some (Ok (FrameData data))) :: h =>
      (if bool_decide (data = []) then [] else [CallSendData data]) ++ owed date is_100 sent h
  | Gave (Some (Ok (FrameTrailers m))) :: h =>
      CallSendTrailers (header_iter (remove_invalid_http3_headers m)) :: owed date is_100 sent h
  | _ :: h => owed date is_100 sent h
  end.

Definition continued (sent : bool) (h : list app_event) : bool :=
  sent || existsb (λ ev, match ev with ContinueAsked => true | _ => false end) h.

Lemma owed_app date is_100 h : ∀ sent k,
  owed date is_100 sent (h ++ k) = owed date is_100 sent h ++ owed date is_100 (continued sent h) k.
Proof.
  induction h as [|ev h IH]; intros sent k; [by unfold continued; rewrite orb_false_r|].
  destruct ev as [q c|[r|u]|m|r| |[[[data|m|]|u]|]|]; cbn [app owed continued existsb orb]; rewrite IH; try done.
  - by rewrite <- app_assoc.
  - unfold continued. by rewrite orb_true_r, <- app_assoc.
  - by rewrite <- app_assoc.
Qed.

(** Nothing is promised once an early hint has failed, whose failure the handler
    was told, or the stream was handed over. *)
Definition excused (h : list app_event) : Prop := Upgraded_ ∈ h ∨ ∃ e, Answered (Err e) ∈ h.

Lemma excused_grow h k : excused h → excused (h ++ k).
Proof. intros [?|[e ?]]; [left|right; exists e]; apply elem_of_app; by left. Qed.

(** *** The state of a task *)

Context (s0 : RequestStream T).

(** The accepted calls of the stream's run, and whether the last one waits. *)
Definition stands_at (a : bool * list call) (s : Task T W) : Prop :=
  ∃ tr, runs s0 tr (request s) ∧ accepted tr = a.

(** All of [l] is on the stream; some first part of it is. *)
Definition exact (l : list call) (s : Task T W) : Prop := stands_at (false, l) s.
Definition partial (l : list call) (s : Task T W) : Prop := ∃ b cs, stands_at (b, cs) s ∧ cs `prefix_of` l.

Definition reset_internally (s : Task T W) : Prop :=
  ResetAsked (stream_id s0) (code Internal) ∈ requests (quic (request s)).

Lemma exact_partial l s : exact l s → partial l s.
Proof. intros Hs. exists false, l. by split. Qed.

Lemma exact_more l k s : exact l s → partial (l ++ k) s.
Proof. intros Hs. exists false, l. split; [done|by eexists]. Qed.

Lemma partial_more l k s : partial l s → partial (l ++ k) s.
Proof. intros (b & cs & Hs & Hp). exists b, cs. split; [done|]. by apply prefix_app_r. Qed.

(** *** The moves of a task *)

(** The stream moves on by other hands: codecs, reading calls, resets. *)
Lemma stands_codecs a s sh w c : stands_at a s → stands_at a (MkTask (with_codecs sh (request s)) c w).
Proof. intros (tr & Hr & Ha). exists tr. split; [by apply RunCodecs|done]. Qed.

Lemma stands_world a s c w : stands_at a s → stands_at a (MkTask (request s) c w).
Proof. done. Qed.

Lemma accepted_reads tr tr' : Forall (λ x : entry, receives x.1.1 = true) tr' → accepted (tr ++ tr') = accepted tr.
Proof.
  intros Hr. unfold accepted. rewrite foldl_app. generalize (foldl (λ a x, note a (x.1.1, x.2)) (false, []) tr). induction Hr as [|[[c k] o] tr' Hc _ IH]; intros a; [done|].
  cbn [foldl]. rewrite <- IH. f_equal. by destruct c.
Qed.

Lemma wp_suspend Q s :
  (∀ sh w, past w = past (world s) → Q (Done ()) (MkTask (with_codecs sh (request s)) (conn_state s) w)) →
  Q Wait s → wp suspend Q s.
Proof.
  intros Hd Hw. unfold wp, suspend. destruct (meanwhile (request s) (world s)) as [[sh w]|] eqn:E; [|exact Hw].
  apply Hd. by eapply past_meanwhile.
Qed.

(** An await of a call that neither sends nor ends the stream's run. *)
Lemma await_rule {A} (m : Z → op (RequestStream T) StreamError A) (I : RequestStream T → Prop)
    (J : result StreamError A → RequestStream T → Prop) polls : ∀ s (Q : outcome Returned (result StreamError A) → Task T W → Prop),
  I (request s) → (∀ q sh, I q → I (with_codecs sh q)) →
  (∀ z q, I q → wp (m z) (λ o q', match o with Done a => J (Ok a) q' | Fail e => J (Err e) q' | Wait => I q' | Stuck => I q' end) q) →
  (∀ r q w, J r q → past w = past (world s) → Q (Done r) (MkTask q (conn_state s) w)) →
  (∀ q w, I q → past w = past (world s) → Q Wait (MkTask q (conn_state s) w) ∧ Q Stuck (MkTask q (conn_state s) w)) →
  wp (await polls m) Q s.
Proof.
  induction polls as [|polls IH]; intros s Q Hi Hc Hm HJ HI; cbn [await].
  { destruct s as [q c w]. by apply HI. }
  apply wp_self, wp_bind. unfold wp at 1, on_request. cbn [fst snd andthen]. specialize (Hm (now (world s)) (request s) Hi) as Hq. unfold wp in Hq.
  destruct (m (now (world s)) (request s)) as [[a|e| |] q]; cbn [fst snd] in *.
  - by apply HJ.
  - by apply HJ.
  - apply wp_bind. apply wp_suspend; cbn [request conn_state world].
    + intros sh w Hw. cbn [andthen]. apply IH; cbn [request conn_state world]; [by apply Hc|done|done| |].
      * intros r q' w' Hj Hw'. apply HJ; [done|]. congruence.
      * intros q' w' Hi' Hw'. apply HI; [done|]. congruence.
    + by apply HI.
  - by apply HI.
Qed.

(** Sending a frame. *)
Definition frame_call (c : call) : bool :=
  match c with CallSendResponse _ _ | CallSendData _ | CallSendTrailers _ => true | _ => false end.

(** The stream's run has come to [a]. *)
Definition runs_at (a : bool * list call) (q : RequestStream T) : Prop := ∃ tr, runs s0 tr q ∧ accepted tr = a.

Lemma performs (c : call) (m : op (RequestStream T) StreamError ()) a q :
  perform 0 c = (_ ← m; mret Sent) → runs_at a q →
  wp m (λ o q', runs_at (note a (c, match o with Done _ => Done Sent | Fail e => Fail e | Wait => Wait | Stuck => Stuck end)) q') q.
Proof.
  intros Hp (tr & Hr & Ha). unfold wp. destruct (m q) as [o q'] eqn:E. cbn [fst snd].
  set (o' := match o with Done _ => _ | _ => _ end). exists (tr ++ [(c, codecs q, o')]). split.
  - eapply RunCall; [exact Hr|]. rewrite Hp. unfold mbind, op_bind. rewrite E. by destruct o as [[]|e| |].
  - unfold accepted. rewrite foldl_app. fold (accepted tr). by rewrite Ha.
Qed.

Lemma send_rule polls (m : Z → op (RequestStream T) StreamError ()) c l s (Q : outcome Returned (result StreamError ()) → Task T W → Prop) :
  (∀ z, perform 0 c = (_ ← m z; mret Sent)) → frame_call c = true → exact l s →
  (∀ s', exact (l ++ [c]) s' → past (world s') = past (world s) → Q (Done (Ok ())) s') →
  (∀ o s', partial (l ++ [c]) s' → past (world s') = past (world s) →
     (match o with Done (Ok _) | Fail _ => False | _ => True end) → Q o s') → wp (await polls m) Q s.
Proof.
  intros Hp Hc Hs Hd Hq.
  set (I := λ q, runs_at (false, l) q ∨ runs_at (true, l ++ [c]) q).
  assert (∀ q, I q → ∃ b cs, runs_at (b, cs) q ∧ cs `prefix_of` l ++ [c]) as Hpart.
  { intros q [Hi|Hi]; eexists _, _; (split; [exact Hi|]); [by eexists|done]. }
  apply (await_rule m I (λ r q, match r with Ok _ => runs_at (false, l ++ [c]) q | Err _ => I q end)).
  - left. exact Hs.
  - intros q sh [(tr & Hr & Ha)|(tr & Hr & Ha)]; [left|right]; exists tr; (split; [by apply RunCodecs|done]).
  - intros z q Hi. assert (∀ a, runs_at a q → (a = (false, l) ∨ a = (true, l ++ [c])) →
      wp (m z) (λ o q', match o with Done _ => runs_at (false, l ++ [c]) q' | _ => I q' end) q) as H'.
    { intros a Ha Hal. eapply wp_mono; [exact (performs c (m z) a q (Hp z) Ha)|]. intros o q' Hn.
      destruct Hal as [->| ->]; destruct c; try done; destruct o as [[]|[]| |]; cbn in Hn; try exact Hn; try (left; exact Hn); right; exact Hn. }
    assert (wp (m z) (λ o q', match o with Done _ => runs_at (false, l ++ [c]) q' | _ => I q' end) q) as H2
      by (destruct Hi as [Hi|Hi]; eapply H'; eauto).
    eapply wp_mono; [exact H2|]. by intros [[]|e| |] q'.
  - intros [[]|e] q w Hj Hw; [by apply Hd|]. apply Hq; [|done|done]. by apply Hpart.
  - intros q w Hi Hw. split; (apply Hq; [by apply Hpart|done|done]).
Qed.

(** Waiting for the encoder. *)
Lemma wp_encoder polls : ∀ l s (Q : outcome Returned () → Task T W → Prop), exact l s →
  (∀ o s', exact l s' → past (world s') = past (world s) → (if o is Fail _ then False else True) → Q o s') →
  wp (wait_for_encoder polls) Q s.
Proof.
  induction polls as [|polls IH]; intros l s Q Hs HQ; cbn [wait_for_encoder]; [by apply HQ|]. apply wp_self.
  destruct (encoder _); [by apply HQ|]. apply wp_bind, wp_suspend; [|by apply HQ].
  intros sh w Hw. cbn [andthen]. eapply IH; [by apply stands_codecs|]. intros o s' Hs' Hp. apply HQ; [done|].
  rewrite Hp. exact Hw.
Qed.

Lemma wp_send_response polls status headers l s (Q : outcome Returned (result StreamError ()) → Task T W → Prop) :
  let c := CallSendResponse status (header_iter headers) in
  exact l s →
  (∀ s', exact (l ++ [c]) s' → past (world s') = past (world s) → Q (Done (Ok ())) s') →
  (∀ o s', partial (l ++ [c]) s' → past (world s') = past (world s) →
     (match o with Done (Ok _) | Fail _ => False | _ => True end) → Q o s') →
  wp (send_response polls status headers) Q s.
Proof.
  intros c Hs Hd Hq. unfold send_response. apply wp_bind, (wp_encoder polls l); [done|]. intros [[]|e| |] s1 Hs1 Hp Ho; try done; cbn [andthen].
  - apply (send_rule _ _ c l); [done|done|done| |]; intros; [apply Hd|apply Hq]; try done; congruence.
  - apply Hq; [by apply exact_more|done|done].
  - apply Hq; [by apply exact_more|done|done].
Qed.

(** Giving up. *)
Definition post (L : list app_event → list call) {A} (ok : A → Task T W → Prop) (o : outcome Returned A) (s : Task T W) : Prop :=
  excused (past (world s)) ∨ match o with
  | Done a => ok a s
  | Fail _ => partial (L (past (world s))) s ∧ reset_internally s
  | _ => partial (L (past (world s))) s
  end.

Lemma wp_reset z (q : RequestStream T) : ∀ b cs, runs_at (b, cs) q →
  wp (stream_reset z) (λ o q', runs_at (b, cs) q' ∧ match o with
    | Done _ | Fail _ => ResetAsked (stream_id s0) z ∈ requests (quic q') | _ => True end) q.
Proof.
  intros b cs (tr & Hr & Ha). unfold stream_reset. apply wp_self, wp_ready. rewrite (runs_id _ _ _ Hr). unfold wp, call_stream.
  pose proof (history_reset (stream_id s0) z (quic q)) as Hh. pose proof (requests_reset (stream_id s0) z (quic q)) as Hq.
  destruct (poll_reset (stream_id s0) z (quic q)) as [r t]. cbn [fst snd] in Hh, Hq.
  assert (runs_at (b, cs) (with_quic t q)) as Hrun by (exists tr; split; [by apply RunAside|done]).
  assert (ResetAsked (stream_id s0) z ∈ requests t) as Hin by (rewrite Hq; apply elem_of_app; right; by left).
  destruct r as [[[]|e]|]; cbn [fst snd]; by split.
Qed.

Lemma wp_break_off {A} polls L l (ok : A → Task T W → Prop) s :
  partial l s → L (past (world s)) = l → wp (break_off polls) (post L ok) s.
Proof.
  intros (b & cs & Hs & Hp) HL. unfold break_off. apply wp_bind, wp_modify. cbn [andthen]. apply wp_bind. unfold abort. apply wp_bind.
  apply (await_rule _ (runs_at (b, cs)) (λ _ q, runs_at (b, cs) q ∧ ResetAsked (stream_id s0) (code Internal) ∈ requests (quic q))).
  - exact Hs.
  - intros q sh (tr & Hr & Ha). exists tr. split; [by apply RunCodecs|done].
  - intros z q Hq. eapply wp_mono; [by apply wp_reset|]. by intros [[]|e| |] q' [? ?].
  - intros r q w [Hq Hin] Hw. cbn [andthen world] in *. apply wp_ret. cbn [andthen]. apply wp_fail.
    right. cbn [world request]. rewrite Hw, past_report, HL. split; [by exists b, cs|exact Hin].
  - intros q w Hq Hw. cbn [world] in *. rewrite past_report in Hw.
    split; cbn [andthen]; right; cbn [world]; rewrite Hw, HL; by exists b, cs.
Qed.

Lemma wp_or_break_off polls L l r (ok : () → Task T W → Prop) s :
  L (past (world s)) = l → (match r with Ok _ => ok () s | Err _ => partial l s end) → wp (or_break_off polls r) (post L ok) s.
Proof.
  intros HL Hr. destruct r as [[]|e]; [right; exact Hr|]. by apply (wp_break_off polls L l).
Qed.

(** *** The past only grows *)

Definition remembers (s s' : Task T W) : Prop := past (world s) `prefix_of` past (world s').

#[local] Instance remembers_preorder : PreOrder remembers.
Proof. unfold remembers. split; [by intros s|]. intros s1 s2 s3 ? ?. by etransitivity. Qed.

Abbreviation mindful m := (within remembers m).

Create HintDb mindful.

Lemma mindful_request {A} (m : op (RequestStream T) StreamError A) : mindful (on_request m).
Proof. intros s. by exists []; rewrite app_nil_r. Qed.

Lemma mindful_ask {A} (f : W → A * W) : (∀ w, past w `prefix_of` past (f w).2) → mindful (ask_world f).
Proof. intros Hf s. apply Hf. Qed.

Lemma mindful_world f : (∀ w, past w `prefix_of` past (f w)) → mindful (on_world f).
Proof. intros Hf s. apply Hf. Qed.

Lemma mindful_conn f : mindful (on_conn_state f).
Proof. intros s. by exists []; rewrite app_nil_r. Qed.

Lemma mindful_suspend : mindful suspend.
Proof.
  intros s. unfold suspend. destruct (meanwhile (request s) (world s)) as [[sh w]|] eqn:E; [|reflexivity].
  unfold remembers. cbn. by rewrite (past_meanwhile _ _ _ _ E).
Qed.

Lemma mindful_handler : mindful poll_handler.
Proof.
  intros s. unfold remembers, poll_handler. pose proof (past_response (request s) (world s)) as Hp.
  destruct (poll_response _ _) as [r [q w]]. cbn in Hp |- *. rewrite Hp. by eexists.
Qed.

#[local] Hint Resolve mindful_request mindful_conn mindful_suspend mindful_handler : mindful.
#[local] Hint Extern 1 (mindful (ask_world _)) => apply mindful_ask; intros ?;
  rewrite ?past_hint, ?past_continue, ?past_body, ?past_upgraded; by eexists : mindful.
#[local] Hint Extern 1 (mindful (on_world report)) => apply mindful_world; intros ?; by rewrite past_report : mindful.
#[local] Hint Extern 1 (mindful (on_world _)) => apply mindful_world; intros ?; rewrite ?past_answer, ?past_dispatch; by eexists : mindful.

Lemma mindful_await {A} polls (m : Z → op (RequestStream T) StreamError A) : mindful (await polls m).
Proof. induction polls as [|polls IH]; cbn [await]; stays; auto with mindful. Qed.
#[local] Hint Resolve mindful_await : mindful.

Lemma mindful_encoder polls : mindful (wait_for_encoder polls).
Proof. induction polls as [|polls IH]; cbn [wait_for_encoder]; stays; auto with mindful. Qed.
#[local] Hint Resolve mindful_encoder : mindful.

Lemma mindful_send_response polls status headers : mindful (send_response polls status headers).
Proof. unfold send_response. stays; auto with mindful. Qed.

Lemma mindful_break_off {A} polls : mindful (break_off polls : task A).
Proof. unfold break_off, abort, return_. stays; auto with mindful. Qed.
#[local] Hint Resolve mindful_send_response mindful_break_off : mindful.

Lemma mindful_or_break_off polls r : mindful (or_break_off polls r).
Proof. unfold or_break_off. stays; auto with mindful. Qed.
#[local] Hint Resolve mindful_or_break_off : mindful.

Lemma mindful_response turns polls is_100 : ∀ open sent, mindful (await_response turns polls is_100 open sent).
Proof.
  induction turns as [|turns IH]; intros open sent; cbn [await_response]; unfold send_interim_response; stays; auto with mindful.
Qed.

Lemma mindful_head polls opts is_100 sent r : mindful (send_head polls opts is_100 sent r).
Proof. unfold send_head, send_interim_response. stays; auto with mindful. Qed.

Lemma mindful_frame polls : mindful (await_frame polls).
Proof. induction polls as [|polls IH]; cbn [await_frame]; stays; auto with mindful. Qed.
#[local] Hint Resolve mindful_frame : mindful.

Lemma mindful_body turns polls : mindful (send_body turns polls).
Proof. induction turns as [|turns IH]; cbn [send_body]; unfold send_data, send_trailers; stays; auto with mindful. Qed.

Lemma mindful_upgrade connect : mindful (try_upgrade connect).
Proof.
  unfold try_upgrade, return_. stays; auto with mindful. intros s. unfold remembers. cbn. pose proof (past_upgrade (request s) (world s)) as Hp.
  destruct (run_upgrade _ _) as [q w]. cbn in *. by rewrite Hp.
Qed.

Lemma mindful_finish polls : mindful (send_finish polls).
Proof. unfold send_finish. stays; auto with mindful. Qed.

(** An excused state meets every post. *)
Lemma post_excused {A} L (ok : A → Task T W → Prop) (m : task A) s :
  mindful m → excused (past (world s)) → wp m (post L ok) s.
Proof. intros Hm Hs. left. destruct (Hm s) as [k Hk]. rewrite Hk. by apply excused_grow. Qed.
(** *** The stages *)

Lemma wp_post_bind {A B} L (ok : A → Task T W → Prop) (ok' : B → Task T W → Prop) (m : task A) (f : A → task B) s :
  wp m (post L ok) s → (∀ a, mindful (f a)) → (∀ a s', ok a s' → wp (f a) (post L ok') s') → wp (m ≫= f) (post L ok') s.
Proof.
  intros Hm Hf Hok. apply wp_bind. eapply wp_mono; [exact Hm|]. intros [a|e| |] s' [He|Hp]; cbn [andthen];
    try (by left); try (by right); [by apply post_excused|by apply Hok].
Qed.

Lemma wp_handler a s (Q : outcome Returned (poll (result () Response)) → Task T W → Prop) : stands_at a s →
  (∀ r s', stands_at a s' → past (world s') = past (world s) ++ match r with Ready r => [Responded r] | Pending => [] end → Q (Done r) s') →
  wp poll_handler Q s.
Proof.
  intros (tr & Hr & Ha) HQ. unfold wp, poll_handler. pose proof (past_response (request s) (world s)) as Hp.
  destruct (handler_reads s0 tr (request s) (world s) Hr) as (tr' & Hr' & Hc).
  destruct (poll_response _ _) as [r [q w]]. cbn [fst snd] in *. apply HQ; [|exact Hp].
  exists (tr ++ tr'). split; [exact Hr'|]. by rewrite accepted_reads.
Qed.

Section stages.
Context (date : option bytes) (is_100 : bool).

Abbreviation L := (owed date is_100 false).

(** A frame is sent that is owed next. *)
Definition sent_frame (s : Task T W) (l : list call) (c : call) (r : result StreamError ()) (s' : Task T W) : Prop :=
  past (world s') = past (world s) ∧ match r with Ok _ => exact (l ++ [c]) s' | Err _ => partial (L (past (world s'))) s' end.

Lemma prefix_partial l k s : partial l s → l `prefix_of` k → partial k s.
Proof. intros (b & cs & Hs & Hp) Hk. exists b, cs. split; [done|]. by etransitivity. Qed.

Lemma send_post polls (m : Z → op (RequestStream T) StreamError ()) c l s :
  (∀ z, perform 0 c = (_ ← m z; mret Sent)) → frame_call c = true → exact l s → l ++ [c] `prefix_of` L (past (world s)) →
  wp (await polls m) (post L (sent_frame s l c)) s.
Proof.
  intros Hp Hc Hs Hl. apply (send_rule polls m c l); [done|done|done|by right|].
  intros o s' Hs' Hw Ho. right. eapply prefix_partial in Hs'; [|exact Hl]. unfold sent_frame. rewrite Hw. by destruct o as [[]|e| |].
Qed.

Lemma send_response_post polls status headers l s :
  let c := CallSendResponse status (header_iter headers) in
  exact l s → l ++ [c] `prefix_of` L (past (world s)) → wp (send_response polls status headers) (post L (sent_frame s l c)) s.
Proof.
  intros c Hs Hl. apply (wp_send_response polls status headers l); [done|by right|].
  intros o s' Hs' Hw Ho. right. eapply prefix_partial in Hs'; [|exact Hl]. unfold sent_frame. rewrite Hw. by destruct o as [[]|e| |].
Qed.

(** Or the task gives up. *)
Lemma or_break_off_post polls s l c r s' : sent_frame s l c r s' →
  wp (or_break_off polls r) (post L (λ _ s', past (world s') = past (world s) ∧ exact (l ++ [c]) s')) s'.
Proof.
  intros [Hw Hr]. eapply wp_or_break_off; [done|]. by destruct r.
Qed.

Lemma owed_one h ev : L (h ++ [ev]) = L h ++ owed date is_100 (continued false h) [ev].
Proof. apply owed_app. Qed.

Lemma continued_snoc h ev : continued false (h ++ [ev]) = continued false h || match ev with ContinueAsked => true | _ => false end.
Proof. unfold continued. cbn. rewrite existsb_app. cbn. by rewrite orb_false_r. Qed.

(** The response, with all of what came before it on the stream. *)
Definition responded (x : result () Response * bool) (s : Task T W) : Prop :=
  match x with
  | (Ok r, sent) => ∃ h, past (world s) = h ++ [Responded (Ok r)] ∧ exact (L h) s ∧ sent = continued false h
  | (Err _, _) => exact (L (past (world s))) s
  end.

(** The turn in which there is neither a response nor a hint. *)
Lemma asked polls turns sent h s :
  (∀ sent s h, past (world s) = h → exact (L h) s → sent = continued false h →
     wp (await_response turns polls is_100 true sent) (post L responded) s) →
  past (world s) = h → exact (L h) s → sent = continued false h →
  wp (wanted ← (if negb sent && is_100 then ask_world load_continue else mret false);
      if wanted : bool then
        r ← send_interim_response polls CONTINUE;
        _ ← or_break_off polls r;
        await_response turns polls is_100 true true
      else _ ← suspend; await_response turns polls is_100 true sent) (post L responded) s.
Proof.
  intros IH Hh Hs Hsent.
  assert (∀ w, past w = h → wp (_ ← suspend; await_response turns polls is_100 true sent) (post L responded)
    (MkTask (request s) (conn_state s) w)) as Hrest.
  { intros w Hw. apply wp_bind, wp_suspend; cbn [andthen request conn_state world].
    - intros sh w' Hw'. apply (IH sent _ h); cbn [world]; [by rewrite Hw'|by apply stands_codecs|done].
    - right. cbn [world]. rewrite Hw. by apply exact_partial. }
  apply wp_bind. destruct (negb sent && is_100) eqn:Hask.
  - unfold wp at 1, ask_world. cbn [fst snd andthen]. pose proof (past_continue (world s)) as Hc. rewrite Hh in Hc.
    destruct (load_continue (world s)) as [[] w]; cbn [fst snd event_when] in *; [|apply Hrest; by rewrite app_nil_r in Hc].
    assert (L (h ++ [ContinueAsked]) = L h ++ [CallSendResponse CONTINUE (header_iter header_map_new)]) as Hone.
    { rewrite owed_one. cbn [owed]. by rewrite <- Hsent, andb_comm, Hask. }
    apply (wp_post_bind _ (sent_frame (MkTask (request s) (conn_state s) w) (L h) (CallSendResponse CONTINUE (header_iter header_map_new)))).
    + apply send_post; [done|done|exact Hs|]. cbn [world]. by rewrite Hc, Hone.
    + intros r. stays; [apply mindful_or_break_off|apply mindful_response].
    + intros r s2 Hr. apply (wp_post_bind _ (λ _ s', past (world s') = h ++ [ContinueAsked] ∧ exact (L (h ++ [ContinueAsked])) s')).
      * eapply wp_mono; [by eapply or_break_off_post|]. intros o s3 [He|Hp]; [by left|right]. destruct o as [[]|e| |]; try done.
        cbn [world] in Hp. rewrite Hc in Hp. by rewrite Hone.
      * intros _. apply mindful_response.
      * intros _ s3 [Hw Hs3]. eapply IH; [exact Hw|exact Hs3|]. by rewrite continued_snoc, orb_true_r.
  - cbn [andthen]. apply wp_ret. cbn [andthen]. destruct s as [q c w]. by apply Hrest.
Qed.

Lemma response_spec turns polls : ∀ open sent s h,
  past (world s) = h → exact (L h) s → sent = continued false h →
  wp (await_response turns polls is_100 open sent) (post L responded) s.
Proof.
  induction turns as [|turns IH]; intros open sent s h Hh Hs Hsent; cbn [await_response].
  { right. change (partial (L (past (world s))) s). rewrite Hh. by apply exact_partial. }
  apply wp_bind, (wp_handler _ _ _ Hs). intros r s1 Hs1 Hp1. rewrite Hh in Hp1. cbn [andthen]. destruct r as [[r|u]|].
  - right. exists h. by split.
  - right. cbn. rewrite Hp1, owed_one, app_nil_r. exact Hs1.
  - rewrite app_nil_r in Hp1. destruct open; cbn [negb].
    + apply wp_bind. unfold wp at 1, ask_world. cbn [fst snd andthen]. pose proof (past_hint (world s1)) as Hph. rewrite Hp1 in Hph.
      destruct (poll_hint (world s1)) as [hint w]. cbn [fst snd] in *. destruct hint as [[m|]|].
      * apply (wp_post_bind _ (sent_frame (MkTask (request s1) (conn_state s1) w) (L h) (CallSendResponse EARLY_HINTS (header_iter m)))).
        -- apply send_response_post; [exact Hs1|]. cbn [world]. by rewrite Hph, owed_one.
        -- intros r. stays; [apply mindful_world; intros ?; rewrite past_answer; by eexists|apply mindful_response].
        -- intros r s2 [Hw Hr]. cbn [world] in Hw. rewrite Hph in Hw. apply wp_bind, wp_modify. cbn [andthen]. destruct r as [[]|e].
           ++ eapply IH; cbn [world]; [done| |]; rewrite past_answer, Hw.
              ** rewrite owed_app, owed_one, app_nil_r. exact Hr.
              ** by rewrite !continued_snoc, !orb_false_r.
           ++ apply post_excused; [apply mindful_response|]. cbn [world]. rewrite past_answer. right. exists e. apply elem_of_app. right. by left.
      * rewrite app_nil_r in Hph. by eapply IH.
      * rewrite app_nil_r in Hph. apply (asked polls turns sent h); try done; by intros; eapply IH.
    + apply wp_bind, wp_suspend; cbn [andthen].
      * intros sh w Hw. apply (IH false sent _ h); cbn [world]; [by rewrite Hw|by apply stands_codecs|done].
      * right. rewrite Hp1. by apply exact_partial.
Qed.
(** The head of the response. *)
Lemma head_spec polls opts sent r s h :
  date = (if send_date_header opts then date_value (world s) else None) →
  past (world s) = h ++ [Responded (Ok r)] → exact (L h) s → sent = continued false h →
  wp (send_head polls opts is_100 sent r) (post L (λ _ s', exact (L (past (world s'))) s')) s.
Proof.
  intros Hdate Hp Hs Hsent. unfold send_head. apply wp_self. rewrite <- Hdate. cbn zeta.
  set (final := CallSendResponse (rs_status r) (header_iter (prepare date r))).
  set (interim := CallSendResponse CONTINUE (header_iter header_map_new)).
  assert (L (past (world s)) = L h ++ (if is_100 && negb sent && negb (is_error_status (rs_status r)) then [interim] else []) ++ [final]) as HL.
  { rewrite Hp, owed_one. cbn. by rewrite Hsent. }
  assert (∀ l s1, past (world s1) = past (world s) → exact l s1 → L (past (world s)) = l ++ [final] →
    wp (r0 ← send_response polls (rs_status r) (prepare date r); or_break_off polls r0)
      (post L (λ _ s', exact (L (past (world s'))) s')) s1) as Hfinal.
  { intros l s1 Hw Hs1 Hl. apply (wp_post_bind _ (sent_frame s1 l final)).
    - apply send_response_post; [exact Hs1|]. rewrite Hw, Hl. done.
    - intros r0. apply mindful_or_break_off.
    - intros r0 s2 Hr0. eapply wp_mono; [by apply (or_break_off_post _ s1 l final)|]. intros o s3 [He|Ho]; [by left|right].
      destruct o as [[]|e| |]; try done. destruct Ho as [Hw3 Hs3]. by rewrite Hw3, Hw, Hl. }
  destruct (is_100 && negb sent && negb (is_error_status (rs_status r))).
  - apply (wp_post_bind _ (λ _ s', past (world s') = past (world s) ∧ exact (L h ++ [interim]) s')).
    + apply (wp_post_bind _ (sent_frame s (L h) interim)).
      * apply send_post; [done|done|exact Hs|]. rewrite HL, app_assoc. by eexists.
      * intros r0. apply mindful_or_break_off.
      * intros r0 s2 Hr0. by apply (or_break_off_post _ s (L h) interim r0).
    + intros _. stays; [apply mindful_send_response|apply mindful_or_break_off].
    + intros _ s1 [Hw Hs1]. apply (Hfinal (L h ++ [interim])); [done|done|]. by rewrite HL, <- app_assoc.
  - cbn. by apply (Hfinal (L h)).
Qed.

(** The body of the response. *)
Lemma frame_spec polls : ∀ l s, exact l s → l = L (past (world s)) →
  wp (await_frame polls) (post L (λ f s', exact l s' ∧ past (world s') = past (world s) ++ [Gave f])) s.
Proof.
  induction polls as [|polls IH]; intros l s Hs Hl; cbn [await_frame].
  { right. change (partial (L (past (world s))) s). rewrite <- Hl. by apply exact_partial. }
  apply wp_bind. unfold wp at 1, ask_world. cbn [fst snd andthen]. pose proof (past_body (world s)) as Hp.
  destruct (poll_body (world s)) as [[f|] w]; cbn [fst snd] in *; [by right|]. rewrite app_nil_r in Hp.
  apply wp_bind, wp_suspend; cbn [andthen request conn_state world].
  - intros sh w' Hw. assert (past w' = past (world s)) as Hw' by congruence. eapply wp_mono; [apply (IH l); cbn [world]|].
    + by apply stands_codecs.
    + by rewrite Hw'.
    + intros o s' [He|Ho]; [by left|right]. destruct o as [f|e| |]; try done. cbn [world] in Ho. by rewrite Hw' in Ho.
  - right. cbn [world]. rewrite Hp, <- Hl. by apply exact_partial.
Qed.

Lemma body_spec turns polls : ∀ s, exact (L (past (world s))) s →
  wp (send_body turns polls) (post L (λ _ s', exact (L (past (world s'))) s')) s.
Proof.
  induction turns as [|turns IH]; intros s Hs; cbn [send_body]; [right; by apply exact_partial|].
  eapply wp_post_bind; [by apply frame_spec| |].
  { intros f. unfold send_data, send_trailers. stays; auto using mindful_break_off, mindful_await, mindful_or_break_off, mindful_body. }
  intros f s1 [Hs1 Hp]. pose proof (owed_one (past (world s)) (Gave f)) as HL. rewrite <- Hp in HL.
  assert (∀ (m : Z → op (RequestStream T) StreamError ()) c (k : task ()), (∀ z, perform 0 c = (_ ← m z; mret Sent)) → frame_call c = true →
    L (past (world s1)) = L (past (world s)) ++ [c] →
    wp (r ← await polls m; or_break_off polls r) (post L (λ _ s', exact (L (past (world s'))) s')) s1) as Hsend.
  { intros m c k Hm Hc HLc. apply (wp_post_bind _ (sent_frame s1 (L (past (world s))) c)).
    - apply send_post; [done|done|done|]. by rewrite HLc.
    - intros r. apply mindful_or_break_off.
    - intros r s2 Hr. eapply wp_mono; [by apply (or_break_off_post _ s1 (L (past (world s))) c)|]. intros o s3 [He|Ho]; [by left|right].
      destruct o as [[]|e| |]; try done. destruct Ho as [Hw3 Hs3]. by rewrite Hw3, HLc. }
  destruct f as [[[data|m|]|u]|]; cbn [owed app] in HL; rewrite ?app_nil_r in HL.
  - case_bool_decide as Hd; [apply IH; rewrite HL; cbn; by rewrite app_nil_r|].
    cbn [app] in HL. pose proof (Hsend (λ _, poll_send_data data) (CallSendData data) (mret ()) (λ _, eq_refl) eq_refl HL) as Hw.
    apply wp_bind in Hw. apply wp_bind. eapply wp_mono; [exact Hw|]. intros [r|e| |] s2 Hr; cbn [andthen] in *; [|exact Hr..].
    eapply wp_post_bind; [exact Hr|intros _; apply mindful_body|]. intros a s3 Hs3. by apply IH.
  - exact (Hsend (λ _, poll_send_trailers (header_iter (remove_invalid_http3_headers m)))
      (CallSendTrailers (header_iter (remove_invalid_http3_headers m))) (mret ()) (λ _, eq_refl) eq_refl HL).
  - apply IH. by rewrite HL.
  - apply (wp_break_off polls L (L (past (world s)))); [by apply exact_partial|exact HL].
  - right. change (exact (L (past (world s1))) s1). by rewrite HL.
Qed.

Lemma upgrade_spec connect s : exact (L (past (world s))) s →
  wp (try_upgrade connect) (post L (λ _ s', exact (L (past (world s'))) s')) s.
Proof.
  intros Hs. unfold try_upgrade. destruct connect; [|by right]. apply wp_bind. unfold wp at 1, ask_world. cbn [fst snd andthen].
  pose proof (past_upgraded (world s)) as Hp. destruct (load_upgraded (world s)) as [[] w]; cbn [fst snd event_when] in *.
  - left. run_op. pose proof (past_upgrade (request s) w) as Hu. destruct (run_upgrade (request s) w) as [q w']. cbn in *.
    rewrite Hu, Hp. left. apply elem_of_app. right. by left.
  - right. cbn [world]. rewrite app_nil_r in Hp. change (exact (L (past w)) (MkTask (request s) (conn_state s) w)). by rewrite Hp.
Qed.

Lemma finish_spec polls s : exact (L (past (world s))) s →
  wp (send_finish polls) (post L (λ _ s', exact (L (past (world s'))) s')) s.
Proof.
  intros Hs. unfold send_finish. set (l := L (past (world s))) in *.
  assert (∀ (m : op (RequestStream T) StreamError ()) s1, past (world s1) = past (world s) → exact l s1 →
    (∀ q, runs_at (false, l) q → wp m (λ _ q', runs_at (false, l) q') q) →
    wp (await polls (λ _, m)) (post L (λ _ s', past (world s') = past (world s) ∧ exact l s')) s1) as Hcall.
  { intros m s1 Hw Hs1 Hm. apply (await_rule _ (runs_at (false, l)) (λ _, runs_at (false, l))).
    - exact Hs1.
    - intros q sh (tr & Hr & Ha). exists tr. split; [by apply RunCodecs|done].
    - intros z q Hq. eapply wp_mono; [by apply Hm|]. by intros [[]|e| |] q'.
    - intros r q w Hq Hw'. right. cbn [world]. split; [congruence|exact Hq].
    - intros q w Hq Hw'. assert (partial (L (past w)) (MkTask q (conn_state s1) w)) as Hpart.
      { rewrite Hw', Hw. by apply exact_partial. }
      by split; right. }
  eapply wp_post_bind; [apply Hcall; [done|exact Hs|]| |].
  - intros q Hq. eapply wp_mono; [exact (performs CallFinish poll_finish_response _ q eq_refl Hq)|]. done.
  - intros r. stays. apply mindful_await.
  - intros r s1 [Hw Hs1]. eapply wp_post_bind; [apply Hcall; [exact Hw|exact Hs1|]| |].
    + intros q (tr & Hr & Ha). unfold stream_stopped. apply wp_self, wp_ready. unfold wp, call_stream.
      pose proof (history_stopped (stream_id q) (quic q)) as Hh. destruct (poll_stopped (stream_id q) (quic q)) as [a t]. cbn [snd] in Hh.
      assert (runs_at (false, l) (with_quic t q)) as Hrun by (exists tr; split; [by apply RunAside|done]).
      by destruct a as [[[]|e]|].
    + intros r2. stays.
    + intros r2 s2 [Hw2 Hs2]. right. change (exact (L (past (world s2))) s2). by rewrite Hw2.
Qed.
End stages.

(** The head of the request: nothing is written. *)
Lemma request_read fuel polls s : exact [] s →
  wp (read_request fuel polls) (λ o s', past (world s') = past (world s) ∧ exact [] s') s.
Proof.
  intros Hs. set (P := λ (o : outcome Returned Request) s', past (world s') = past (world s) ∧ exact [] s').
  assert (∀ {A} (m : Z → op (RequestStream T) StreamError A) (k : result StreamError A → task Request) s1,
    past (world s1) = past (world s) → exact [] s1 → (∀ z q, runs_at (false, []) q → wp (m z) (λ _ q', runs_at (false, []) q') q) →
    (∀ r s2, past (world s2) = past (world s) → exact [] s2 → wp (k r) P s2) → wp (r ← await polls m; k r) P s1) as Hawait.
  { intros A m k s1 Hw Hs1 Hm Hk. apply wp_bind, (await_rule _ (runs_at (false, [])) (λ _, runs_at (false, []))).
    - exact Hs1.
    - intros q sh (tr & Hr & Ha). exists tr. split; [by apply RunCodecs|done].
    - intros z q Hq. eapply wp_mono; [by apply Hm|]. by intros [a|e| |] q'.
    - intros r q w Hq Hw'. cbn [andthen]. apply Hk; [cbn [world]; congruence|exact Hq].
    - intros q w Hq Hw'. split; (split; [cbn [world]; congruence|exact Hq]). }
  assert (∀ code q, runs_at (false, []) q → wp (stream_reset code) (λ _ q', runs_at (false, []) q') q) as Hreset.
  { intros code q Hq. eapply wp_mono; [by apply wp_reset|]. by intros o q' [? _]. }
  assert (∀ code q, runs_at (false, []) q → wp (stream_stop code) (λ _ q', runs_at (false, []) q') q) as Hstop.
  { intros code q (tr & Hr & Ha). unfold stream_stop. apply wp_self, wp_ready. unfold wp, call_stream.
    pose proof (history_stop (stream_id q) code (quic q)) as Hh. destruct (poll_stop_sending (stream_id q) code (quic q)) as [a t]. cbn [snd] in Hh.
    assert (runs_at (false, []) (with_quic t q)) as Hrun by (exists tr; split; [by apply RunAside|done]).
    by destruct a as [[[]|e]|]. }
  unfold read_request. apply Hawait; [done|exact Hs| |].
  - intros z q (tr & Hr & Ha). unfold wp. destruct (poll_headers fuel z q) as [o q'] eqn:E. cbn [fst snd].
    set (o' := match o with Done r => Done (GotRequest r) | Fail e => Fail e | Wait => Wait | Stuck => Stuck end : outcome StreamError reply).
    exists (tr ++ [(PollHeaders z, codecs q, o')]). split; [|rewrite accepted_reads; [done|by apply Forall_singleton]].
    eapply RunCall; [exact Hr|]. cbn [perform]. unfold mbind, op_bind. rewrite E. by destruct o.
  - intros r s1 Hw1 Hs1. destruct r as [[q|]|e]; [by split|by split|]. destruct (is_stream_scoped e).
    { apply wp_bind, wp_modify. cbn [andthen]. apply wp_self. apply wp_bind, wp_modify. cbn [andthen]. apply wp_fail.
      split; [cbn [world]; by rewrite past_report|exact Hs1]. }
    destruct e; try by split. apply wp_bind, wp_modify. cbn [andthen].
    apply Hawait; [cbn [world]; by rewrite past_report|exact Hs1|intros _; apply Hreset|]. intros _ s2 Hw2 Hs2.
    apply Hawait; [done|done|intros _; apply Hstop|]. intros _ s3 Hw3 Hs3. by split.
Qed.
(** *** The whole task *)

Lemma mindful_rest opts polls turns q (r : result () Response) sent :
  mindful (match r with
    | Err _ => break_off polls
    | Ok r =>
        _ ← send_head polls opts (wants_continue opts q) sent r;
        _ ← try_upgrade (is_connect_method (rq_method q));
        _ ← (if rs_ends r || is_head_method (rq_method q) then mret () else send_body turns polls);
        f ← send_finish polls;
        match f with Ok _ => mret () | Err _ => on_world report end
    end).
Proof. stays; auto using mindful_head, mindful_upgrade, mindful_body, mindful_finish with mindful. Qed.

(** What the stream of a task carries when the request was [q]. *)
Definition relayed (opts : TaskOptions) (q : Request) (o : outcome Returned ()) (s : Task T W) : Prop :=
  ∃ date, post (owed date (wants_continue opts q) false) (λ _ s, exact (owed date (wants_continue opts q) false (past (world s))) s) o s.

Lemma rest_spec opts polls turns q s : past (world s) = [Dispatched q (is_connect_method (rq_method q))] → exact [] s →
  wp ('(r, sent) ← await_response turns polls (wants_continue opts q) true false;
      match r with
      | Err _ => break_off polls
      | Ok r =>
          _ ← send_head polls opts (wants_continue opts q) sent r;
          _ ← try_upgrade (is_connect_method (rq_method q));
          _ ← (if rs_ends r || is_head_method (rq_method q) then mret () else send_body turns polls);
          f ← send_finish polls;
          match f with Ok _ => mret () | Err _ => on_world report end
      end) (relayed opts q) s.
Proof.
  intros Hp Hs. set (is_100 := wants_continue opts q).
  assert (∀ date, wp (await_response turns polls is_100 true false) (post (owed date is_100 false) (responded date is_100)) s) as Hresp.
  { intros date. eapply response_spec; [exact Hp|exact Hs|done]. }
  apply wp_bind. unfold wp in Hresp |- * at 1.
  destruct (await_response turns polls is_100 true false s) as [[[r sent]|e| |] s1] eqn:E; cbn [fst snd andthen] in *;
    try by exists None; apply (Hresp None).
  set (date := if send_date_header opts then date_value (world s1) else None). specialize (Hresp date).
  assert (∀ (m : task ()), wp m (post (owed date is_100 false) (λ _ s, exact (owed date is_100 false (past (world s))) s)) s1 →
    wp m (relayed opts q) s1) as Hdate.
  { intros m Hm. eapply wp_mono; [exact Hm|]. intros o s' Ho. by exists date. }
  destruct Hresp as [He|Hr]; [apply Hdate, post_excused; [apply mindful_rest|exact He]|].
  destruct r as [r|u]; cbn in Hr; [|apply Hdate; eapply wp_break_off; [by apply exact_partial|done]].
  destruct Hr as (h & Hh & Hl & Hsent). apply Hdate.
  eapply wp_post_bind; [by eapply head_spec| |].
  { intros _. stays; auto using mindful_upgrade, mindful_body, mindful_finish with mindful. }
  intros u2 s2 Hs2. eapply wp_post_bind; [by apply upgrade_spec| |].
  { intros _. stays; auto using mindful_body, mindful_finish with mindful. }
  intros u3 s3 Hs3. eapply wp_post_bind.
  - instantiate (1 := λ _ s, exact (owed date is_100 false (past (world s))) s).
    destruct (_ || _); [by right|by apply body_spec].
  - intros _. stays; auto using mindful_finish with mindful.
  - intros u4 s4 Hs4. eapply wp_post_bind; [by apply finish_spec| |].
    + intros f. stays; auto with mindful.
    + intros [[]|e] s5 Hs5; [by right|]. right. cbn. by rewrite past_report.
Qed.

Lemma task_spec opts fuel polls turns s : past (world s) = [] → exact [] s →
  wp (handle_request opts fuel polls turns) (λ o s',
    (past (world s') = [] ∧ exact [] s' ∧ if o is Done _ then False else True)
    ∨ ∃ q rest, past (world s') = Dispatched q (is_connect_method (rq_method q)) :: rest ∧ relayed opts q o s') s.
Proof.
  intros Hp Hs. unfold handle_request. apply wp_bind. eapply wp_mono; [by apply request_read|].
  intros [q|e| |] s1 [Hp1 Hs1]; cbn [andthen]; try (left; split; [congruence|done]). right.
  apply wp_bind, wp_modify. cbn [andthen]. set (s2 := MkTask _ _ _).
  assert (past (world s2) = [Dispatched q (is_connect_method (rq_method q))]) as Hp2.
  { cbn. by rewrite past_dispatch, Hp1, Hp. }
  exists q. pose proof (rest_spec opts polls turns q s2 Hp2 Hs1) as Hrest.
  assert (mindful ('(r, sent) ← await_response turns polls (wants_continue opts q) true false;
      match r with
      | Err _ => break_off polls
      | Ok r =>
          _ ← send_head polls opts (wants_continue opts q) sent r;
          _ ← try_upgrade (is_connect_method (rq_method q));
          _ ← (if rs_ends r || is_head_method (rq_method q) then mret () else send_body turns polls);
          f ← send_finish polls;
          match f with Ok _ => mret () | Err _ => on_world report end
      end)) as Hm.
  { apply (within_bind _); [apply mindful_response|]. intros [r sent]. apply mindful_rest. }
  destruct (Hm s2) as [rest Hrest2]. exists rest. rewrite Hp2 in Hrest2. split; [exact Hrest2|exact Hrest].
Qed.
End spec.

(** C11. A response is relayed whole, or its stream is reset.  Let a request task
    run on a new stream, with any handler and body, over any transport, with the
    codecs changed by others whenever it waits, and let no early hint fail nor
    the stream be handed over.  Then the stream carries frames of the first
    calls owed for what the handler did: interim responses for its hints and,
    once, for [100 Continue], its response with the headers prepared, its data
    without empty pieces, its trailers.  When the task ends normally it carries
    all of them, and nothing waits to be written; when the task ends early after
    it has called the handler, the stream was reset with H3_INTERNAL_ERROR; and
    when the task waits what it has written is still the first part. *)
Theorem response_relayed {T W} `{RecordedEndpoint T} `{HT : Http} `{HT3 : !Http3} `{HC : !H3Crates}
    `{HA : !Application T W} `{HR : !RecordedApplication T W} id sh (t : T) conn w opts fuel polls turns :
  written id (history t) = [] → past w = [] →
  let '(o, s) := handle_request opts fuel polls turns (MkTask (new_request_stream id sh t) conn w) in
  ¬ excused (past (world s)) →
  ∃ cs fs, Forall2 (emits id) cs fs
    ∧ written id (history (quic (request s))) ++ mjoin (send_buf (sending (request s))) = mjoin (H3Frame.encode <$> fs)
    ∧ match past (world s) with
      | Dispatched q _ :: _ => ∃ date, cs `prefix_of` owed date (wants_continue opts q) false (past (world s))
          ∧ match o with
            | Done _ => cs = owed date (wants_continue opts q) false (past (world s)) ∧ send_buf (sending (request s)) = []
            | Fail _ => ResetAsked id (code Internal) ∈ requests (quic (request s))
            | _ => True
            end
      | _ => cs = [] ∧ ∀ u, o ≠ Done u
      end.
Proof.
  intros Hw Hp. set (s0 := new_request_stream id sh t). set (s := MkTask s0 conn w).
  assert (exact s0 [] s) as Hs by (exists []; split; [constructor|done]).
  pose proof (task_spec s0 opts fuel polls turns s Hp Hs) as Ht. unfold wp in Ht.
  destruct (handle_request opts fuel polls turns s) as [o s'] eqn:E. cbn [fst snd] in Ht. intros He.
  assert (∀ b cs, stands_at s0 (b, cs) s' → ∃ fs, Forall2 (emits id) cs fs
    ∧ written id (history (quic (request s'))) ++ mjoin (send_buf (sending (request s'))) = mjoin (H3Frame.encode <$> fs)
    ∧ (b = false → send_buf (sending (request s')) = [])) as Hfs.
  { intros b cs (tr & Hr & Ha). pose proof (runs_sends _ _ _ _ _ Hw Hr) as ([fs [Hf Hb]] & Hbuf & _). rewrite Ha in Hf, Hbuf.
    pose proof (runs_id _ _ _ Hr) as Eid. cbn in Eid. rewrite Eid in *. exists fs. by split. }
  destruct Ht as [(Hp' & Hs' & Ho)|(q & rest & Hp' & date & [Hx|Hpost])]; [|done|].
  - destruct (Hfs _ _ Hs') as (fs & Hf & Hb & _). exists [], fs. split; [done|]. split; [done|]. rewrite Hp'. split; [done|].
    intros u ->. done.
  - rewrite Hp' in Hpost |- *. destruct o as [u|e| |].
    + destruct (Hfs _ _ Hpost) as (fs & Hf & Hb & Hbuf). eexists _, fs. split; [exact Hf|]. split; [exact Hb|]. exists date. auto.
    + destruct Hpost as [(b & cs & Hcs & Hpre) Hreset]. destruct (Hfs _ _ Hcs) as (fs & Hf & Hb & _). exists cs, fs. eauto.
    + destruct Hpost as (b & cs & Hcs & Hpre). destruct (Hfs _ _ Hcs) as (fs & Hf & Hb & _). exists cs, fs. eauto.
    + destruct Hpost as (b & cs & Hcs & Hpre). destruct (Hfs _ _ Hcs) as (fs & Hf & Hb & _). exists cs, fs. eauto.
Qed.

(** ** A task on a concrete stream

    An application that plays back prepared answers. *)

#[local] Existing Instance plain_http.
#[local] Existing Instance plain_http3.

(** ** The instances *)

Fixpoint decimal (fuel : nat) (n : Z) : bytes :=
  match fuel with
  | O => []
  | S fuel => if n <? 10 then [48 + n] else decimal fuel (n / 10) ++ [48 + n mod 10]
  end.

Definition plain_crates : H3Crates :=
  {| header_get m n := snd <$> head (filter (λ f, f.1 = n) m);
     header_insert m n v := filter (λ f, f.1 ≠ n) m ++ [(n, v)];
     header_remove m n := filter (λ f, f.1 ≠ n) m;
     header_iter m := m;
     header_number := decimal 20;
     is_head_method m := bool_decide (m = b "HEAD") |}.
#[local] Existing Instance plain_crates.

(** The answers of the handler, of the early hints, of the flag for [100
    Continue] and of the body; [resumed]: for every suspension the encoder that
    was made meanwhile, if one was; the task is not polled again when they are
    used up. *)
Record App : Type := MkApp {
  responses : list (poll (result () Response));
  hints : list (poll (option HeaderMap));
  flags_ : list bool;
  pieces : list (poll (option (result () ResponseFrame)));
  resumed : list (option Encoder);
  log : list app_event;
}.

Definition log_event (l : list app_event) (w : App) : App :=
  MkApp (responses w) (hints w) (flags_ w) (pieces w) (resumed w) (log w ++ l).

#[local] Instance app_application : Application Peer App := {
  meanwhile q w :=
    match resumed w with
    | [] => None
    | e :: l => Some (match e with Some e => set_encoder (Some e) (codecs q) | None => codecs q end,
                      MkApp (responses w) (hints w) (flags_ w) (pieces w) l (log w))
    end;
  dispatch q c := log_event [Dispatched q c];
  poll_response q w :=
    let r := default Pending (head (responses w)) in
    (r, (q, log_event (match r with Ready r => [Responded r] | Pending => [] end)
              (MkApp (tail (responses w)) (hints w) (flags_ w) (pieces w) (resumed w) (log w))));
  poll_hint w :=
    let r := default Pending (head (hints w)) in
    (r, log_event (match r with Ready (Some m) => [Hinted m] | _ => [] end)
          (MkApp (responses w) (tail (hints w)) (flags_ w) (pieces w) (resumed w) (log w)));
  answer_hint r := log_event [Answered r];
  load_continue w :=
    let r := default false (head (flags_ w)) in
    (r, log_event (event_when r ContinueAsked) (MkApp (responses w) (hints w) (tail (flags_ w)) (pieces w) (resumed w) (log w)));
  poll_body w :=
    let r := default (Ready None) (head (pieces w)) in
    (r, log_event (match r with Ready f => [Gave f] | Pending => [] end)
          (MkApp (responses w) (hints w) (flags_ w) (tail (pieces w)) (resumed w) (log w)));
  load_upgraded w := (false, w);
  run_upgrade q w := (q, w);
  now _ := 0;
  date_value _ := Some (b "today");
  report w := w;
}.

#[local] Program Instance app_recorded : RecordedApplication Peer App := {| past := log |}.
Solve Obligations with try done.
Next Obligation. intros q w sh w'. cbn. destruct (resumed w) as [|e l]; [done|]. by intros [= _ <-]. Qed.
Next Obligation. intros w. cbn. by rewrite app_nil_r. Qed.
Next Obligation. intros s0 tr q w Hr. exists []. rewrite app_nil_r. by split. Qed.

(** ** A response that is relayed *)

Definition task_limits : ConnResetState := new_reset_state (MkResetLimits (Some 10) (Some 20)) 0.
Definition both : TaskOptions := MkTaskOptions true true.

(** A POST that asks for [100 Continue], in two pieces. *)
Definition expect_section : list field := post_section ++ [(b "expect", b "100-continue")].
Definition expect_octets : bytes := H3Frame.encode (Headers (block_of expect_section)).
Definition expect_peer : Peer := MkPeer
  (MkScript [] [(0, Ready (Ok (Some (take 5 expect_octets)))); (0, Pending); (0, Ready (Ok (Some (drop 5 expect_octets))))]
     [Pending; Ready (Ok ()); Pending] [Accepted 0]) [] [] [].

(** The handler hints, reads, and responds with a body in two pieces and
    trailers; the peer's SETTINGS arrive while the hint waits. *)
Definition relaying_app : App := MkApp
  [Pending; Pending; Pending; Ready (Ok (MkResponse 200 [(b "connection", b "close"); (b "a", b "b")] false (Some 5)))]
  [Ready (Some [(b "link", b "x")])] [true]
  [Pending; Ready (Some (Ok (FrameData (b "hel")))); Ready (Some (Ok (FrameData []))); Ready (Some (Ok (FrameData (b "lo"))));
   Ready (Some (Ok (FrameTrailers [(b "te", b "gzip"); (b "t", b "u")])))]
  [None; Some (new_encoder 0 true); None; None; None; None; None; None] [].
Abbreviation relaying := (handle_request both 20 20 20
  (MkTask (new_request_stream 0 (new_shared default_local) expect_peer) task_limits relaying_app)).

(** The calls the stream carries when it has ended. *)
Definition relayed_calls (date : option bytes) : list call :=
  [CallSendResponse 103 [(b "link", b "x")]; CallSendResponse 100 [];
   CallSendResponse 200 ([(b "a", b "b")] ++ from_option (λ d, [(b "date", d)]) [] date ++ [(b "content-length", b "5")]);
   CallSendData (b "hel"); CallSendData (b "lo"); CallSendTrailers [(b "t", b "u")]].

Lemma relaying_unexcused : ¬ excused (past (world relaying.2)).
Proof.
  assert (Forall (λ ev, match ev with Upgraded_ | Answered (Err _) => False | _ => True end) (past (world relaying.2))) as Hf.
  { vm_compute. repeat constructor. }
  rewrite Forall_forall in Hf. intros [Hu|[e He]]; [apply (Hf _ Hu)|apply (Hf _ He)].
Qed.

Lemma relaying_done : relaying.1 = Done ().
Proof. by vm_compute. Qed.

Lemma relaying_owed date : match past (world relaying.2) with
  | Dispatched q _ :: _ => owed date (wants_continue both q) false (past (world relaying.2)) = relayed_calls date
  | _ => False
  end.
Proof. destruct date; by vm_compute. Qed.

Lemma response_relayed_witness : relaying.1 = Done () ∧ ∃ date fs, Forall2 (emits 0) (relayed_calls date) fs
  ∧ written 0 (history (quic (request relaying.2))) = mjoin (H3Frame.encode <$> fs).
Proof.
  split; [exact relaying_done|].
  pose proof (response_relayed 0 (new_shared default_local) expect_peer task_limits relaying_app both 20 20 20 eq_refl eq_refl) as Hr.
  revert Hr. pose proof relaying_unexcused as Hu. pose proof relaying_done as Hd. pose proof relaying_owed as Ho.
  destruct relaying as [o s]. cbn [fst snd] in *. subst o. intros Hr.
  destruct (Hr Hu) as (cs & fs & Hf & Hb & Hm). destruct (past (world s)) as [|[q c| | | | | |] l]; try by destruct (Ho None).
  destruct Hm as (date & _ & -> & Hbuf). exists date, fs. rewrite Ho in Hf. rewrite Hbuf, app_nil_r in Hb. by split.
Defined.
