(* ===== verification/H3Deviations.v ===== *)
(** * Where HTTP/3 requests depart from the RFCs

    Behaviour of the code, shown on concrete streams and tasks. *)

From S2P Require Import Prelude H3Error Varint H3Frame HpackTable H2Request QpackTable QpackString QpackDecoder QpackEncoder H3Settings.
From S2P Require Import Poll H3Transport H3Endpoint H3Shared H3Request H3Stream H3StreamSpec H3StreamSend H3StreamRun H3Resets H3Task H3TaskSpec.

#[local] Existing Instance plain_http.
#[local] Existing Instance plain_http3.

(** A stream of a connection whose peer takes field sections of [limit] octets
    and offers a dynamic table of 4096. *)
Definition limited_shared (limit : Z) : SharedCodecs :=
  set_peer_max (Some limit) (set_encoder (Some (new_encoder 4096 true)) (new_shared default_local)).
Definition limited_start (limit : Z) : RequestStream Script :=
  new_request_stream 0 (limited_shared limit) (MkScript [] [] [] [Accepted 0]).

(** What the peer reads of the response: the blocks written on the stream, by a
    decoder that was fed all of the encoder stream. *)
Definition response_blocks (s : RequestStream Script) : list bytes :=
  omap (λ f, if f is Headers block then Some block else None) (frames None (written 0 (history (quic s)))).1.1.
Definition read_by_peer (s : RequestStream Script) (block : bytes) : result QpackError (option (list field)) :=
  '(_, d) ← feed_encoder_stream (new_decoder 4096 100) (mjoin (H3Shared.encoder_stream (codecs s)));
  '(o, _) ← QpackDecoder.decode_block d block 0 0;
  Ok o.

(** The size of a field section (RFC 9114, Section 4.2.2). *)
Definition section_size (fs : list field) : Z := foldr (λ f n, zlen f.1 + zlen f.2 + 32 + n) 0 fs.

(** An early response that names a cookie, which is never put in the table, and
    then a response with the other field alone. *)
Definition cookie_response : list field := [(b "x-a", b "v"); (b "cookie", replicate 64 0x7b)].
Definition desync_run : list entry * RequestStream Script :=
  exec 5 [CallSendResponse 103 cookie_response; CallSendResponse 200 [(b "x-a", b "v")]] (limited_start 40).

(** A response that is refused for its size has already changed the
    encoder's table, and the instructions that tell the peer are thrown away:
    the next response refers to the entry, nothing is on the encoder stream, and
    the peer's decoder waits for ever for an entry it is never sent. *)
Theorem oversized_response_desynchronises :
  desync_run.1.*2 = [Fail (HeadersTooBig 70 40); Done Sent]
  ∧ H3Shared.encoder_stream (codecs desync_run.2) = []
  ∧ read_by_peer desync_run.2 <$> response_blocks desync_run.2 = [Ok None].
Proof. split_and!; vm_compute; reflexivity. Qed.

(** A field of 64 octets, put in the table. *)
Definition large_response : list field := [(b "x-b", replicate 64 0x61)].
Definition large_run : list entry * RequestStream Script :=
  exec 5 [CallSendResponse 200 large_response] (limited_start 40).

(** The peer's limit is compared with the octets of the block, not with the
    size of the field section: a section of 141 octets is sent to a peer that
    takes 40. *)
Theorem section_limit_exceeded :
  peer_max_field_section_size (codecs large_run.2) = Some 40 ∧ large_run.1.*2 = [Done Sent]
  ∧ read_by_peer large_run.2 <$> response_blocks large_run.2 = [Ok (Some ((b ":status", b "200") :: large_response))]
  ∧ section_size ((b ":status", b "200") :: large_response) = 141.
Proof. split_and!; vm_compute; reflexivity. Qed.

(** A malformed SETTINGS frame is refused for its place when it comes first, but
    for its form when an unknown frame is before it. *)
Definition settings_stream (l : bytes) : RequestStream Script :=
  new_request_stream 0 post_shared (MkScript [] [(0, Ready (Ok (Some l)))] [] [Accepted 0]).
Example settings_after_unknown :
  (perform 5 (PollHeaders 0) (settings_stream [4; 1; 2])).1 = Fail UnexpectedFrame
  ∧ (perform 5 (PollHeaders 0) (settings_stream ([0x21; 0] ++ [4; 1; 2]))).1 = Fail MalformedFrame.
Proof. split; vm_compute; reflexivity. Qed.

(** ** A task before the peer's SETTINGS *)

#[local] Existing Instance plain_crates.
#[local] Existing Instance app_application.
#[local] Existing Instance app_recorded.

(** A handler that reads the body of its request, so that [100 Continue] is
    asked for, and then responds; the peer's SETTINGS arrive when the task is
    suspended for the first time. *)
Definition reading_app (flag : bool) : App := MkApp
  [Pending; Pending; Ready (Ok (MkResponse 200 [] true None))] [] [flag] []
  [Some (new_encoder 0 true); None; None; None] [].

(** The request is there at once, before or after the peer's SETTINGS. *)
Definition prompt_peer : Peer :=
  MkPeer (MkScript [] [(0, Ready (Ok (Some expect_octets)))] [] [Accepted 0]) [] [] [].
Definition with_settings (e : option Encoder) : SharedCodecs := set_encoder e (new_shared default_local).
Definition prompt_task (e : option Encoder) (flag : bool) : outcome Returned () * Task Peer App :=
  handle_request both 20 20 20 (MkTask (new_request_stream 0 (with_settings e) prompt_peer) task_limits (reading_app flag)).

(** The calls of the application, the frames on the stream and the resets. *)
Definition seen (r : outcome Returned () * Task Peer App) :=
  (r.1, (frames None (written 0 (history (quic (request r.2))))).1.1, requests (quic (request r.2)), length (past (world r.2))).

(** A [100 Continue] and a response with the date. *)
Definition continued_frames : list Frame :=
  [Headers [0; 0; 0xff; 0]; Headers [0; 0; 0xd9; 0x56; 0x84; 0x49; 0xe4; 0x1f; 0xaf]].

(** A response waits for the peer's SETTINGS, and so does its [100 Continue] when
    the response is there first.  But the [100 Continue] a handler asks for by
    reading the body does not: when SETTINGS have not arrived the task ends, the
    stream is reset with H3_INTERNAL_ERROR, and the handler is never polled
    again, although its response was about to be ready. *)
Theorem continue_before_settings :
  let '(o, fs, resets, events) := seen (prompt_task None true) in
  (o, fs, resets) = (Fail EarlyReturn, [], [ResetAsked 0 (code Internal)]) ∧ events = 2%nat
  ∧ (∀ u, last (past (world (prompt_task None true).2)) ≠ Some (Responded u))
  ∧ (seen (prompt_task None false)).1 = (Done (), continued_frames, [])
  ∧ (seen (prompt_task (Some (new_encoder 0 true)) true)).1 = (Done (), continued_frames, []).
Proof.
  vm_compute. split_and!; try reflexivity. intros u. discriminate.
Qed.
