(* ===== verification/H3Upgrade.v ===== *)
(** * Upgraded HTTP/3 streams (src/src/h3/upgrade.rs)

    [H3Upgraded], what the application reads and writes after an extended
    CONNECT, and [UpgradedSendStreamTask], the task that puts its writes on the
    request stream.  The two share the stream behind a mutex; the writes travel
    through a channel and the error of the stream comes back through another,
    which are the class [Bridge]. *)

From S2P Require Import Prelude H3Error Varint H3Frame HpackTable H2Request QpackTable QpackString QpackDecoder QpackEncoder H3Settings.
From S2P Require Import Poll H3Transport H3Shared H3Reading H3Request H3Stream H3StreamSpec H3StreamSend H3StreamRun.

(** ** The environment *)

(** A channel of [kanal] for the writes, a channel of [oneshot] for the error,
    and the mutex of [tokio], of which [bridge_lock] is a poll when no task holds
    it: it may ask the task to yield.  A future that is polled is dropped when it
    is pending, and the octets of a [send] with it. *)
Class Bridge (K : Type) : Type := {
  bridge_send : bytes → K → poll (result () ()) * K;
  bridge_recv : K → poll (result () bytes) * K;
  bridge_close : K → K;
  error_send : StreamError → K → K;
  error_recv : K → poll (result () StreamError) * K;
  bridge_lock : K → bool * K;
}.

(** A channel that keeps the order, and lets nothing in once it is closed; a
    message that waits may be thrown away when it is closed. *)
Class Channel (K : Type) `{Bridge K} : Type := {
  queued : K → list bytes;
  closed : K → bool;
  queued_send d k : queued (bridge_send d k).2 = queued k ++ match (bridge_send d k).1 with Ready (Ok _) => [d] | _ => [] end;
  queued_recv k : queued k = match (bridge_recv k).1 with Ready (Ok d) => [d] | _ => [] end ++ queued (bridge_recv k).2;
  queued_close k : queued (bridge_close k) `prefix_of` queued k;
  queued_error e k : queued (error_send e k) = queued k;
  queued_errors k : queued (error_recv k).2 = queued k;
  queued_lock k : queued (bridge_lock k).2 = queued k;
  closed_send d k : closed (bridge_send d k).2 = closed k ∧ (closed k = true → ∀ u, (bridge_send d k).1 ≠ Ready (Ok u));
  closed_recv k : closed (bridge_recv k).2 = closed k ∧ (closed k = true → queued k = [] → ∃ u, (bridge_recv k).1 = Ready (Err u));
  closed_close k : closed (bridge_close k) = true;
  closed_error e k : closed (error_send e k) = closed k;
  closed_errors k : closed (error_recv k).2 = closed k;
  closed_lock k : closed (bridge_lock k).2 = closed k;
}.

(** ** The state *)

(** [send_fut]: a future of [send_data] or of [finish], and whether it holds the
    mutex, which it does while the stream makes it wait. *)
Inductive SendFut : Type :=
| FutData (data : bytes) (held : bool)
| FutFinish (held : bool).
Definition holds (f : SendFut) : bool := match f with FutData _ held | FutFinish held => held end.
Definition hold (f : SendFut) : SendFut := match f with FutData d _ => FutData d true | FutFinish _ => FutFinish true end.

(** Both halves: the stream they share, the buffer of [H3Upgraded], the future of
    the task, whether it has its [error_tx] still, and what is between them. *)
Record Upgraded (T K : Type) : Type := MkUpgraded {
  inner : RequestStream T;
  buf : bytes;
  send_fut : option SendFut;
  error_tx : bool;
  bridge : K;
}.
Arguments MkUpgraded {T K}.
Arguments inner {T K}.
Arguments buf {T K}.
Arguments send_fut {T K}.
Arguments error_tx {T K}.
Arguments bridge {T K}.

Definition pair {T K} (inner : RequestStream T) (k : K) : Upgraded T K := MkUpgraded inner [] None true k.

(** The errors of a write. *)
Inductive WriteError : Type := OtherError (e : StreamError) | BrokenPipe.

Section upgrade.
Context {T K : Type} `{Transport T} `{HT : Http} `{HT3 : !Http3} `{HB : Bridge K}.

Abbreviation upgraded E A := (op (Upgraded T K) E A).

Definition set_buf {E} (l : bytes) : upgraded E () := modify (λ s, MkUpgraded (inner s) l (send_fut s) (error_tx s) (bridge s)).
Definition set_send_fut {E} (f : option SendFut) : upgraded E () :=
  modify (λ s, MkUpgraded (inner s) (buf s) f (error_tx s) (bridge s)).
Definition on_bridge {E} (f : K → K) : upgraded E () :=
  modify (λ s, MkUpgraded (inner s) (buf s) (send_fut s) (error_tx s) (f (bridge s))).
Definition ask_bridge {E A} (f : K → A * K) : upgraded E A := λ s,
  (Done (f (bridge s)).1, MkUpgraded (inner s) (buf s) (send_fut s) (error_tx s) (f (bridge s)).2).

(** A poll of the stream, and what it came back with. *)
Definition on_inner {E A} (m : op (RequestStream T) StreamError A) : upgraded E (outcome StreamError A) := λ s,
  (Done (m (inner s)).1, MkUpgraded (m (inner s)).2 (buf s) (send_fut s) (error_tx s) (bridge s)).

(** A poll of a new [inner.lock()]. *)
Definition lock_inner {E} : upgraded E bool :=
  s ← self;
  if from_option holds false (send_fut s) then mret false else ask_bridge bridge_lock.

(** ** [H3Upgraded] *)

(** The loop over [poll_recv_data]; [turns] bounds the empty pieces. *)
Fixpoint fill_buf (turns fuel : nat) (now : Z) : upgraded StreamError (option bytes) :=
  match turns with
  | O => stuck
  | S turns =>
      free ← lock_inner;
      if negb free then wait
      else
        r ← on_inner (poll_recv_data fuel now);
        match r with
        | Done (Some d) => if bool_decide (d = []) then fill_buf turns fuel now else mret (Some d)
        | Done None => mret None
        | Fail e => fail e
        | Wait => wait
        | Stuck => stuck
        end
  end.

(** [poll_read] into a buffer with so much room: the octets put there. *)
Definition poll_read (turns fuel : nat) (now room : Z) : upgraded StreamError bytes :=
  s ← self;
  d ← (if bool_decide (buf s = []) then fill_buf turns fuel now else mret (Some (buf s)));
  match d with
  | None => mret []
  | Some d =>
      let cnt := Z.to_nat (Z.min (zlen d) room) in
      _ ← set_buf (drop cnt d);
      mret (take cnt d)
  end.

(** The error of the task, once it is gone. *)
Definition task_error {A} (dropped : upgraded WriteError A) : upgraded WriteError A :=
  r ← ask_bridge error_recv;
  match r with
  | Ready (Ok e) => fail (OtherError e)
  | Ready (Err _) => dropped
  | Pending => wait
  end.

Definition poll_write (d : bytes) : upgraded WriteError Z :=
  if bool_decide (d = []) then mret 0
  else
    r ← ask_bridge (bridge_send d);
    match r with
    | Ready (Ok _) => mret (zlen d)
    | Pending => wait
    | Ready (Err _) => task_error (fail BrokenPipe)
    end.

Definition poll_flush : upgraded WriteError () := mret ().

Definition poll_shutdown : upgraded WriteError () :=
  _ ← on_bridge bridge_close;
  task_error (mret ()).

(** ** [UpgradedSendStreamTask] *)

(** The calls of [send_data] and of [finish]. *)
Definition call_of (f : SendFut) : op (RequestStream T) StreamError () :=
  match f with FutData d _ => poll_send_data d | FutFinish _ => poll_finish_response end.

(** A poll of the future taken out of [send_fut]. *)
Definition poll_fut (f : SendFut) : upgraded StreamError () :=
  free ← (if holds f then mret true else ask_bridge bridge_lock);
  if negb free then _ ← set_send_fut (Some f); wait
  else
    r ← on_inner (call_of f);
    match r with
    | Done _ => mret ()
    | Fail e => fail e
    | Wait => _ ← set_send_fut (Some (hold f)); wait
    | Stuck => stuck
    end.

(** [tick]; [turns] bounds its loop. *)
Fixpoint tick (turns : nat) : upgraded StreamError () :=
  match turns with
  | O => stuck
  | S turns =>
      s ← self;
      _ ← match send_fut s with
          | Some f => _ ← set_send_fut None; poll_fut f
          | None => mret ()
          end;
      r ← ask_bridge bridge_recv;
      match r with
      | Ready (Ok d) => _ ← set_send_fut (Some (FutData d false)); tick turns
      | Ready (Err _) => _ ← set_send_fut (Some (FutFinish false)); tick turns
      | Pending => wait
      end
  end.

(** [Future::poll] of the task. *)
Definition poll_task (turns : nat) : upgraded StreamError () := λ s,
  match tick turns s with
  | (Fail e, s) =>
      (Done (), MkUpgraded (inner s) (buf s) (send_fut s) false (if error_tx s then error_send e (bridge s) else bridge s))
  | r => r
  end.
End upgrade.

(** ** What travels in both directions *)

Section spec.
Context {T K : Type} `{HR : Recorded T} `{HT : Http} `{HT3 : !Http3} `{HB : Bridge K} `{HC : !Channel K}.

(** What the future of the task stands for: whether a call waits on the stream,
    and the write that has not been handed to it. *)
Definition in_flight (f : option SendFut) (busy : bool) (relayed flight : list bytes) : Prop :=
  match f with
  | None | Some (FutFinish _) => busy = false ∧ flight = []
  | Some (FutData d false) => busy = false ∧ flight = [d]
  | Some (FutData d true) => busy = true ∧ flight = [] ∧ last relayed = Some d
  end.

(** The stream has run with [cs] accepted before the upgrade; [read] is what it
    handed over, and [wrote] the writes the application was told are done: on
    the stream, in the future, in the channel, or thrown away by its closing. *)
Definition relays (s0 : RequestStream T) (cs : list call) (read : bytes) (wrote : list bytes) (alive : bool) (s : Upgraded T K) : Prop :=
  ∃ tr busy relayed flight lost, runs s0 tr (inner s) ∧ clean tr ∧ mjoin (h_body (handed_over tr)) = read
  ∧ accepted tr = (busy, cs ++ (CallSendData <$> relayed))
  ∧ wrote = relayed ++ flight ++ queued (bridge s) ++ lost ∧ (closed (bridge s) = false → lost = [])
  ∧ (alive = true → in_flight (send_fut s) busy relayed flight).

Lemma relays_bridge s0 cs read wrote alive s s' : relays s0 cs read wrote alive s →
  inner s' = inner s → send_fut s' = send_fut s → queued (bridge s') = queued (bridge s) → closed (bridge s') = closed (bridge s) →
  relays s0 cs read wrote alive s'.
Proof.
  intros (tr & bu & rl & fl & lo & H1 & H2 & H3 & H4 & H5 & H6 & H7) E1 E2 E3 E4. exists tr, bu, rl, fl, lo.
  rewrite E1, E2, E3, E4. by split_and!.
Qed.

Lemma relays_dead s0 cs read wrote alive s s' : relays s0 cs read wrote alive s →
  inner s' = inner s → queued (bridge s') = queued (bridge s) → closed (bridge s') = closed (bridge s) →
  relays s0 cs read wrote false s'.
Proof.
  intros (tr & bu & rl & fl & lo & H1 & H2 & H3 & H4 & H5 & H6 & H7) E1 E2 E3. exists tr, bu, rl, fl, lo.
  rewrite E1, E2, E3. by split_and!.
Qed.

(** *** Reading *)

(** A call that reads, with what it adds to [read]. *)
Lemma relays_reads s0 cs read wrote alive s now fuel o q :
  relays s0 cs read wrote alive s → poll_recv_data fuel now (inner s) = (o, q) →
  match o with Fail _ | Stuck => False | _ => True end →
  relays s0 cs (read ++ match o with Done (Some d) => d | _ => [] end) wrote alive
    (MkUpgraded q (buf s) (send_fut s) (error_tx s) (bridge s)).
Proof.
  intros (tr & bu & rl & fl & lo & H1 & H2 & H3 & H4 & H5 & H6 & H7) E Ho.
  exists (tr ++ [(PollRecvData now, codecs (inner s), match o with Done a => Done (GotData a) | Fail e => Fail e | Wait => Wait | Stuck => Stuck end)]), bu, rl, fl, lo.
  split; [|split; [|split; [|split; [|by split_and!]]]].
  - eapply RunCall; [exact H1|]. cbn [perform]. unfold mbind, op_bind. rewrite E. by destruct o.
  - apply Forall_app. split; [exact H2|]. apply Forall_singleton. by destruct o.
  - rewrite (handed_over_snoc tr). cbn [snd]. destruct o as [[d|]|e| |]; cbn [hand h_body]; rewrite ?app_nil_r; try done.
    rewrite join_app, H3. cbn. by rewrite app_nil_r.
  - unfold accepted in *. rewrite foldl_app, H4. done.
Qed.

Lemma wp_lock {E} (Q : outcome E bool → Upgraded T K → Prop) s :
  (∀ o k, queued k = queued (bridge s) → closed k = closed (bridge s) →
    Q (Done o) (MkUpgraded (inner s) (buf s) (send_fut s) (error_tx s) k)) → wp lock_inner Q s.
Proof.
  intros HQ. apply wp_self. destruct (from_option _ _ _).
  - apply wp_ret. destruct s as [q l f e k]. by apply HQ.
  - apply HQ; [apply queued_lock|apply closed_lock].
Qed.

Lemma fill_relays s0 cs wrote alive turns fuel now : ∀ read s, relays s0 cs read wrote alive s →
  wp (fill_buf turns fuel now) (λ o s', buf s' = buf s ∧ error_tx s' = error_tx s ∧ match o with
    | Done d => relays s0 cs (read ++ default [] d) wrote alive s'
    | Wait => relays s0 cs read wrote alive s'
    | _ => True
    end) s.
Proof.
  induction turns as [|turns IH]; intros read s Hs; [done|]. cbn [fill_buf]. apply wp_bind, wp_lock. intros free k Hq Hc. cbn [andthen].
  set (s1 := MkUpgraded _ _ _ _ k). assert (relays s0 cs read wrote alive s1) as Hs1 by by eapply relays_bridge.
  destruct free; cbn [negb]; [|by split_and!]. apply wp_bind. unfold wp at 1, on_inner. cbn [fst snd andthen].
  destruct (poll_recv_data fuel now (inner s1)) as [o q] eqn:E. pose proof (relays_reads s0 cs read wrote alive s1 now fuel o q Hs1 E) as Hr.
  destruct o as [[d|]|e| |]; cbn [fst snd] in *; try by split_and!.
  - specialize (Hr I). case_bool_decide as Ed; [|by split_and!].
    subst d. rewrite app_nil_r in Hr. apply (IH read) in Hr. by cbn in Hr.
  - specialize (Hr I). by split_and!.
  - specialize (Hr I). rewrite app_nil_r in Hr. by split_and!.
Qed.

(** A poll of the reading half gives the octets that come next. *)
Lemma read_relays s0 cs got wrote alive turns fuel now room s : relays s0 cs (got ++ buf s) wrote alive s →
  wp (poll_read turns fuel now room) (λ o s', error_tx s' = error_tx s ∧ match o with
    | Done l => relays s0 cs ((got ++ l) ++ buf s') wrote alive s'
    | Wait => relays s0 cs (got ++ buf s') wrote alive s'
    | _ => True
    end) s.
Proof.
  intros Hs. unfold poll_read. apply wp_self, wp_bind. case_bool_decide as Eb.
  - rewrite Eb, app_nil_r in Hs. pose proof (fill_relays s0 cs wrote alive turns fuel now got s Hs) as Hf. unfold wp in Hf. unfold wp at 1.
    destruct (fill_buf turns fuel now s) as [[[d|]|e| |] s']; cbn [fst snd andthen default] in *; destruct Hf as (E1 & E2 & Hr); try done.
    + apply wp_bind, wp_modify. cbn [andthen]. apply wp_ret. split; [exact E2|]. cbn [buf]. rewrite <- (app_assoc got), take_drop.
      by eapply relays_bridge.
    + apply wp_ret. split; [exact E2|]. rewrite E1, Eb, !app_nil_r. by rewrite app_nil_r in Hr.
    + split; [exact E2|]. by rewrite E1, Eb, app_nil_r.
  - apply wp_ret. cbn [andthen]. apply wp_bind, wp_modify. cbn [andthen]. apply wp_ret. split; [done|]. cbn [buf].
    rewrite <- (app_assoc got), take_drop. by eapply relays_bridge.
Qed.
(** *** Writing *)

Lemma wp_task_error {A} s0 cs read wrote alive (m : op (Upgraded T K) WriteError A) (Q : outcome WriteError A → Upgraded T K → Prop) s :
  relays s0 cs read wrote alive s →
  (∀ s', relays s0 cs read wrote alive s' → buf s' = buf s → error_tx s' = error_tx s → wp m Q s' ∧ Q Wait s' ∧ ∀ e, Q (Fail e) s') →
  wp (task_error m) Q s.
Proof.
  intros Hs HQ. unfold task_error. apply wp_bind. unfold wp at 1, ask_bridge. cbn [fst snd andthen].
  set (s' := MkUpgraded _ _ _ _ _). destruct (HQ s') as (H1 & H2 & H3); [|done|done|].
  - eapply relays_bridge; [exact Hs|done|done|apply queued_errors|apply closed_errors].
  - destruct (error_recv (bridge s)).1 as [[e|u]|]; [apply H3|exact H1|exact H2].
Qed.

Definition taken (d : bytes) (o : outcome WriteError Z) : list bytes :=
  match o with Done _ => if bool_decide (d = []) then [] else [d] | _ => [] end.

Lemma write_relays s0 cs read wrote alive d s : relays s0 cs read wrote alive s →
  wp (poll_write d) (λ o s', buf s' = buf s ∧ error_tx s' = error_tx s ∧ relays s0 cs read (wrote ++ taken d o) alive s') s.
Proof.
  intros Hs. unfold poll_write. destruct (bool_decide (d = [])) eqn:Ed.
  { apply wp_ret. cbn [taken]. by rewrite Ed, app_nil_r. }
  apply wp_bind. unfold wp at 1, ask_bridge. cbn [fst snd andthen]. set (s1 := MkUpgraded _ _ _ _ _).
  pose proof (queued_send d (bridge s)) as Hq. destruct (closed_send d (bridge s)) as [Hc Hno].
  assert ((∀ u, (bridge_send d (bridge s)).1 ≠ Ready (Ok u)) → relays s0 cs read wrote alive s1) as Hs1.
  { intros Hn. eapply relays_bridge; [exact Hs|done|done| |exact Hc]. cbn [bridge s1]. rewrite Hq.
    destruct (bridge_send d (bridge s)).1 as [[u|u]|]; [by destruct (Hn u)|by rewrite app_nil_r..]. }
  destruct (bridge_send d (bridge s)).1 as [[u|u]|] eqn:Es.
  - apply wp_ret. split; [done|]. split; [done|]. cbn [taken]. rewrite Ed. destruct Hs as (tr & bu & rl & fl & lo & H1 & H2 & H3 & H4 & H5 & H6 & H7).
    assert (closed (bridge s) = false) as Hopen by (apply not_true_is_false; intros E; by apply (Hno E u)).
    exists tr, bu, rl, fl, []. split_and!; try done. cbn [bridge s1]. rewrite Hq, H5, (H6 Hopen), !app_nil_r. by rewrite <- !app_assoc.
  - eapply wp_task_error; [by apply Hs1|]. intros s' Hs' E1 E2. unfold wp, fail. cbn [fst snd taken].
    rewrite app_nil_r. repeat split; done.
  - unfold wp. cbn [fst snd wait taken]. rewrite app_nil_r. split_and!; try done. by apply Hs1.
Qed.

Lemma shutdown_relays s0 cs read wrote alive s : relays s0 cs read wrote alive s →
  wp poll_shutdown (λ _ s', buf s' = buf s ∧ error_tx s' = error_tx s ∧ relays s0 cs read wrote alive s') s.
Proof.
  intros (tr & bu & rl & fl & lo & H1 & H2 & H3 & H4 & H5 & H6 & H7). unfold poll_shutdown. apply wp_bind, wp_modify. cbn [andthen].
  eapply wp_task_error; [|intros s' Hs' E1 E2; split_and!; done].
  destruct (queued_close (bridge s)) as [x Hx]. exists tr, bu, rl, fl, (x ++ lo). split_and!; try done.
  - cbn [bridge]. rewrite H5, Hx. by rewrite <- !app_assoc.
  - cbn [bridge]. by rewrite closed_close.
Qed.

(** *** The task *)

(** A call of the future, on the stream. *)
Lemma relays_call s0 cs read wrote s f o q : relays s0 cs read wrote true s → send_fut s = Some f →
  call_of f (inner s) = (o, q) →
  let moved alive f' := relays s0 cs read wrote alive (MkUpgraded q (buf s) f' (error_tx s) (bridge s)) in
  match o with Done _ => moved true None | Wait => moved true (Some (hold f)) | Fail _ => moved false None | Stuck => True end.
Proof.
  intros (tr & bu & rl & fl & lo & H1 & H2 & H3 & H4 & H5 & H6 & H7) Ef Eo moved. specialize (H7 eq_refl). rewrite Ef in H7.
  set (c := match f with FutData d _ => CallSendData d | FutFinish _ => CallFinish end).
  set (o' := match o with Done _ => Done Sent | Fail e => Fail e | Wait => Wait | Stuck => Stuck end : outcome StreamError reply).
  assert (perform 0 c (inner s) = (o', q)) as Ep.
  { destruct f; cbn [perform c call_of] in *; unfold mbind, op_bind; rewrite Eo; by destruct o. }
  assert (runs s0 (tr ++ [(c, codecs (inner s), o')]) q) as Hr by by eapply RunCall.
  assert (clean (tr ++ [(c, codecs (inner s), o')])) as Hcl by (apply Forall_app; split; [exact H2|]; apply Forall_singleton; by destruct f).
  assert (mjoin (h_body (handed_over (tr ++ [(c, codecs (inner s), o')]))) = read) as Hb by (rewrite (handed_over_snoc tr); cbn [snd]; by destruct o).
  assert (accepted (tr ++ [(c, codecs (inner s), o')]) = note (accepted tr) (c, o')) as Ha by (unfold accepted; by rewrite foldl_app).
  assert (∀ alive f' bu' rl' fl', note (accepted tr) (c, o') = (bu', cs ++ (CallSendData <$> rl')) → rl' ++ fl' = rl ++ fl →
    (alive = true → in_flight f' bu' rl' fl') → moved alive f') as Hm.
  { intros alive f' bu' rl' fl' E1 E2 E3. exists (tr ++ [(c, codecs (inner s), o')]), bu', rl', fl', lo. rewrite Ha. split_and!; try done.
    cbn [bridge]. by rewrite H5, !app_assoc, E2. }
  rewrite H4 in Hm. destruct f as [d [|]|held]; cbn [in_flight] in H7.
  - destruct H7 as (-> & -> & Hl). destruct o as [u|e| |]; try done; eapply (Hm _ _ _ rl []); try done; by destruct e.
  - destruct H7 as (-> & ->). assert (cs ++ (CallSendData <$> rl ++ [d]) = (cs ++ (CallSendData <$> rl)) ++ [CallSendData d]) as El.
    { by rewrite fmap_app, app_assoc. }
    destruct o as [u|e| |]; try done.
    + apply (Hm true None false (rl ++ [d]) []); [by rewrite El|by rewrite app_nil_r|done].
    + destruct e; first [by apply (Hm false None true (rl ++ [d]) []); [rewrite El|rewrite app_nil_r|]|by apply (Hm false None false rl [d])].
    + apply (Hm true (Some (FutData d true)) true (rl ++ [d]) []); [by rewrite El|by rewrite app_nil_r|]. intros _. split_and!; try done. by rewrite last_snoc.
  - destruct H7 as (-> & ->). destruct o as [u|e| |]; try done; by apply (Hm _ _ false rl []).
Qed.

Definition keeps_task (s0 : RequestStream T) (cs : list call) (read : bytes) (wrote : list bytes) (s : Upgraded T K)
    (o : outcome StreamError ()) (s' : Upgraded T K) : Prop :=
  buf s' = buf s ∧ error_tx s' = error_tx s ∧ match o with
    | Done _ => relays s0 cs read wrote true s' ∧ send_fut s' = None
    | Wait => relays s0 cs read wrote true s'
    | Fail _ => relays s0 cs read wrote false s'
    | Stuck => True
    end.

Lemma fut_relays s0 cs read wrote f s : relays s0 cs read wrote true s → send_fut s = Some f →
  wp (_ ← set_send_fut None; poll_fut f) (keeps_task s0 cs read wrote s) s.
Proof.
  intros Hs Ef. apply wp_bind, wp_modify. cbn [andthen]. unfold poll_fut. apply wp_bind.
  assert (∀ free k, queued k = queued (bridge s) → closed k = closed (bridge s) → (holds f = true → free = true) →
    wp (if negb free then _ ← set_send_fut (Some f); wait
      else r ← on_inner (call_of f);
        match r with
        | Done _ => mret ()
        | Fail e => fail e
        | Wait => _ ← set_send_fut (Some (hold f)); wait
        | Stuck => stuck
        end) (keeps_task s0 cs read wrote s) (MkUpgraded (inner s) (buf s) None (error_tx s) k)) as Hcall.
  { intros free k Hq Hc Hheld. set (s1 := MkUpgraded (inner s) (buf s) (Some f) (error_tx s) k).
    assert (relays s0 cs read wrote true s1) as Hs1 by by eapply relays_bridge. destruct free; cbn [negb].
    - apply wp_bind. unfold wp at 1, on_inner. cbn [fst snd andthen inner]. destruct (call_of f (inner s)) as [o q] eqn:E.
      pose proof (relays_call s0 cs read wrote s1 f o q Hs1 eq_refl E) as Hm. destruct o; cbn [fst snd] in *; by split_and!.
    - apply wp_bind, wp_modify. cbn [andthen]. by split_and!. }
  destruct (holds f) eqn:Eh.
  - apply wp_ret. cbn [andthen]. by apply Hcall.
  - unfold wp at 1, ask_bridge. cbn [fst snd andthen]. apply Hcall; [apply queued_lock|apply closed_lock|done].
Qed.

(** The task moves writes from the channel to its future and on to the stream;
    it never ends without an error. *)
Lemma tick_relays s0 cs read wrote turns : ∀ s, relays s0 cs read wrote true s →
  wp (tick turns) (λ o s', keeps_task s0 cs read wrote s o s' ∧ ∀ u, o ≠ Done u) s.
Proof.
  induction turns as [|turns IH]; intros s Hs; [by split_and!|]. cbn [tick]. apply wp_self, wp_bind.
  assert (∀ s1, relays s0 cs read wrote true s1 → send_fut s1 = None → buf s1 = buf s → error_tx s1 = error_tx s →
    wp (r ← ask_bridge bridge_recv;
      match r with
      | Ready (Ok d) => _ ← set_send_fut (Some (FutData d false)); tick turns
      | Ready (Err _) => _ ← set_send_fut (Some (FutFinish false)); tick turns
      | Pending => wait
      end) (λ o s', keeps_task s0 cs read wrote s o s' ∧ ∀ u, o ≠ Done u) s1) as Hrest.
  { intros s1 (tr & bu & rl & fl & lo & H1 & H2 & H3 & H4 & H5 & H6 & H7) Ef E1 E2. specialize (H7 eq_refl). rewrite Ef in H7. destruct H7 as [-> ->].
    apply wp_bind. unfold wp at 1, ask_bridge. cbn [fst snd andthen]. pose proof (queued_recv (bridge s1)) as Hq. destruct (closed_recv (bridge s1)) as [Hc _].
    assert (∀ f fl', rl ++ fl' ++ queued (bridge_recv (bridge s1)).2 = rl ++ queued (bridge s1) → in_flight f false rl fl' →
      relays s0 cs read wrote true (MkUpgraded (inner s1) (buf s1) f (error_tx s1) (bridge_recv (bridge s1)).2)) as Hm.
    { intros f fl' E3 Hf. exists tr, false, rl, fl', lo. split_and!; try done; cbn [bridge]; [|by rewrite Hc].
      rewrite H5. cbn [app]. apply (f_equal (λ l, l ++ lo)) in E3. rewrite <- !app_assoc in E3. by rewrite <- E3. }
    assert (∀ s2, relays s0 cs read wrote true s2 → buf s2 = buf s1 → error_tx s2 = error_tx s1 →
      wp (tick turns) (λ o s', keeps_task s0 cs read wrote s o s' ∧ ∀ u, o ≠ Done u) s2) as Hagain.
    { intros s2 Hs2 E3 E4. eapply wp_mono; [by apply IH|]. intros o s' [(E5 & E6 & Ho) Hn]. split; [|exact Hn]. split; [congruence|]. by split; [congruence|]. }
    destruct (bridge_recv (bridge s1)).1 as [[d|u]|] eqn:Er; rewrite Hq in Hm.
    - apply wp_bind, wp_modify. apply Hagain; [by apply (Hm _ [d])|done|done].
    - apply wp_bind, wp_modify. apply Hagain; [by apply (Hm _ [])|done|done].
    - split; [|done]. split_and!; try done. rewrite <- Ef. by apply (Hm _ []); [|rewrite Ef]. }
  destruct (send_fut s) as [f|] eqn:Ef.
  - eapply wp_mono; [by apply fut_relays|]. intros o s1 (E1 & E2 & Ho). destruct o as [u|e| |]; cbn [andthen]; [|by split_and!..].
    by apply Hrest; destruct Ho.
  - apply wp_ret. cbn [andthen]. by apply Hrest.
Qed.
(** *** Runs *)

Definition octets (o : outcome StreamError bytes) : bytes := match o with Done l => l | _ => [] end.

(** An upgraded stream: what was read from it so far and which writes it took.
    The application polls its half and the connection polls the task until it
    has ended, in any order; the codecs and the transport move on; when the task
    has ended its end of the channel is gone. *)
Inductive lives (s0 : RequestStream T) (cs : list call) : bytes → list bytes → Upgraded T K → Prop :=
| LPair tr q k : runs s0 tr q → clean tr → mjoin (h_body (handed_over tr)) = [] → accepted tr = (false, cs) → queued k = [] →
    lives s0 cs [] [] (pair q k)
| LRead got wrote s turns fuel now room o s' : lives s0 cs got wrote s → poll_read turns fuel now room s = (o, s') →
    match o with Fail _ | Stuck => False | _ => True end → lives s0 cs (got ++ octets o) wrote s'
| LWrite got wrote s d o s' : lives s0 cs got wrote s → poll_write d s = (o, s') → lives s0 cs got (wrote ++ taken d o) s'
| LShutdown got wrote s : lives s0 cs got wrote s → lives s0 cs got wrote (poll_shutdown s).2
| LTask got wrote s turns o s' : lives s0 cs got wrote s → error_tx s = true → poll_task turns s = (o, s') → o ≠ Stuck →
    lives s0 cs got wrote s'
| LElse got wrote s sh t k : lives s0 cs got wrote s → history t = history (quic (inner s)) →
    queued k `prefix_of` queued (bridge s) → (error_tx s = true → queued k = queued (bridge s) ∧ closed k = closed (bridge s)) →
    (error_tx s = false → closed k = true) →
    lives s0 cs got wrote (MkUpgraded (with_quic t (with_codecs sh (inner s))) (buf s) (send_fut s) (error_tx s) k).

Lemma lives_relays s0 cs got wrote s : lives s0 cs got wrote s → relays s0 cs (got ++ buf s) wrote (error_tx s) s.
Proof.
  induction 1 as [tr q k Hr Hc Hb Ha Hq|got wrote s turns fuel now room o s' _ IH E Ho|got wrote s d o s' _ IH E|got wrote s _ IH
    |got wrote s turns o s' _ IH Et E Ho|got wrote s sh t k _ IH Eh Hq Ha Hd].
  - exists tr, false, [], [], []. cbn. rewrite Hq, app_nil_r. by split_and!.
  - pose proof (read_relays s0 cs got wrote (error_tx s) turns fuel now room s IH) as Hr. unfold wp in Hr. rewrite E in Hr.
    cbn [fst snd] in Hr. destruct Hr as [-> Hr]. destruct o; cbn [octets]; rewrite ?app_nil_r; done.
  - pose proof (write_relays s0 cs _ wrote _ d s IH) as Hr. unfold wp in Hr. rewrite E in Hr. cbn [fst snd] in Hr.
    by destruct Hr as (-> & -> & Hr).
  - pose proof (shutdown_relays s0 cs _ wrote _ s IH) as Hr. unfold wp in Hr. by destruct Hr as (-> & -> & Hr).
  - rewrite Et in IH. pose proof (tick_relays s0 cs _ wrote turns s IH) as Hr. unfold wp in Hr. unfold poll_task in E.
    destruct (tick turns s) as [[u|e| |] s1]; cbn [fst snd] in Hr; destruct Hr as [(E1 & E2 & Hr) Hn]; injection E as <- <-; try done.
    + by destruct (Hn u).
    + cbn [buf error_tx]. rewrite E1. eapply relays_dead; [exact Hr|done|..]; cbn [bridge]; rewrite E2, Et; [apply queued_error|apply closed_error].
    + by rewrite E1, E2, Et.
  - destruct IH as (tr & bu & rl & fl & lo & H1 & H2 & H3 & H4 & H5 & H6 & H7). destruct Hq as [x Hx].
    exists tr, bu, rl, fl, (x ++ lo). cbn [inner buf bridge send_fut error_tx]. split_and!; try done.
    + apply RunAside; [by apply RunCodecs|exact Eh].
    + rewrite H5, Hx. by rewrite <- !app_assoc.
    + intros Ec. destruct (error_tx s); [|by rewrite Hd in Ec]. destruct (Ha eq_refl) as [E1 E2]. rewrite E2 in Ec.
      rewrite (H6 Ec), app_nil_r. rewrite E1 in Hx. apply (f_equal length) in Hx. rewrite length_app in Hx. apply length_zero_iff_nil. lia.
Qed.
End spec.

(** C38. An upgraded stream carries the octets of both sides.  Whatever the
    application and the task do and in whichever order, however the transport
    and the channel make them wait: the stream carries, behind the frames of the
    response, a DATA frame for each of the first writes that were taken, in
    order and once; while the channel is open nothing is lost, and a task that
    waits for the channel leaves on it what it has not relayed.  What the
    application has read is, with the rest in the buffer, the payloads of the
    DATA frames received, in order. *)
Theorem upgraded_stream_faithful {T K} `{HR : Recorded T} `{HT : Http} `{HT3 : !Http3} `{HB : Bridge K} `{HC : !Channel K}
    id sh (t : T) cs got wrote (s : Upgraded T K) :
  written id (history t) = [] → received id (history t) = [] → lives (new_request_stream id sh t) cs got wrote s →
  (∃ relayed rest fs, wrote = relayed ++ rest
    ∧ Forall2 (emits id) (cs ++ (CallSendData <$> relayed)) fs
    ∧ written id (history (quic (inner s))) ++ mjoin (send_buf (sending (inner s))) = mjoin (H3Frame.encode <$> fs)
    ∧ (error_tx s = true → send_fut s = None → send_buf (sending (inner s)) = [] ∧ (closed (bridge s) = false → rest = queued (bridge s))))
  ∧ ∃ fs more rest e tr hd, frames (local_max_field_section_size sh) (received id (history (quic (inner s)))) = (fs ++ more, rest, e)
    ∧ runs (new_request_stream id sh t) tr (inner s) ∧ clean tr ∧ accounts tr id hd fs ∧ got ++ buf s = mjoin (h_body hd).
Proof.
  intros Hw Hrc Hl. apply lives_relays in Hl. destruct Hl as (tr & bu & rl & fl & lo & H1 & H2 & H3 & H4 & H5 & H6 & H7). split.
  - destruct (runs_sends _ _ _ _ _ Hw H1) as ([fs [Hf Hb]] & Hbuf & _). rewrite H4 in Hf, Hbuf.
    pose proof (runs_id _ _ _ H1) as Eid. cbn in Eid. rewrite Eid in *. exists rl, (fl ++ queued (bridge s) ++ lo), fs.
    split_and!; try done. intros Ea Ef. specialize (H7 Ea). rewrite Ef in H7. destruct H7 as [-> ->]. split; [by apply Hbuf|].
    intros Hc. by rewrite (H6 Hc), app_nil_r.
  - destruct (stream_told id sh t tr _ Hrc H1 H2) as (fs & more & rest & e & Hf & Ha & _).
    exists fs, more, rest, e, tr, (handed_over tr). by rewrite H3.
Qed.

(** ** The end of the task *)

Section ending.
Context {T K : Type} `{HR : Recorded T} `{HT : Http} `{HT3 : !Http3} `{HB : Bridge K} `{HC : !Channel K}.

(** On an [eager] transport finishing a stream never fails or waits. *)
Context (eager : T → Prop).
Context (finishes : ∀ id t, eager t → (poll_finish id t).1 = Ready (Ok ()) ∧ eager (poll_finish id t).2).

(** The application has closed its half, and everything it wrote is on the
    stream. *)
Definition all_written (s : Upgraded T K) : Prop :=
  closed (bridge s) = true ∧ queued (bridge s) = [] ∧ send_buf (sending (inner s)) = [] ∧ eager (quic (inner s))
  ∧ match send_fut s with Some (FutData _ _) => False | _ => True end.

Definition spins (s : Upgraded T K) (o : outcome StreamError ()) (s' : Upgraded T K) : Prop :=
  (o = Wait ∨ o = Stuck) ∧ all_written s' ∧ error_tx s' = error_tx s
  ∧ ((∀ k : K, (bridge_lock k).1 = true) → o = Stuck).

Lemma finish_again (s : RequestStream T) : eager (quic s) → send_buf (sending s) = [] →
  poll_finish_response s = (Done (), with_quic (poll_finish (stream_id s) (quic s)).2 s).
Proof.
  intros He Hb. unfold poll_finish_response, mbind, op_bind. rewrite write_nothing by done. cbn.
  destruct (finishes (stream_id s) (quic s) He) as [Hfin _]. unfold ready, mbind, op_bind, call_stream.
  destruct (poll_finish (stream_id s) (quic s)) as [r t]. cbn in Hfin. by subst r.
Qed.

Lemma finish_spins (s : Upgraded T K) f : all_written s → send_fut s = Some f →
  wp (_ ← set_send_fut None; poll_fut f) (λ o s', all_written s' ∧ error_tx s' = error_tx s ∧
    (o = Done () ∨ (o = Wait ∧ ¬ ∀ k : K, (bridge_lock k).1 = true))) s.
Proof.
  intros (Hc & Hq & Hb & He & Hf) Ef. rewrite Ef in Hf. destruct f as [|held]; [done|].
  apply wp_bind, wp_modify. cbn [andthen]. unfold poll_fut. apply wp_bind.
  assert (∀ free k, queued k = [] → closed k = true → (free = false → ¬ ∀ k : K, (bridge_lock k).1 = true) →
    wp (if negb free then _ ← set_send_fut (Some (FutFinish held)); wait
      else r ← on_inner (call_of (FutFinish held));
        match r with
        | Done _ => mret ()
        | Fail e => fail e
        | Wait => _ ← set_send_fut (Some (hold (FutFinish held))); wait
        | Stuck => stuck
        end) (λ o s', all_written s' ∧ error_tx s' = error_tx s ∧
          (o = Done () ∨ (o = Wait ∧ ¬ ∀ k : K, (bridge_lock k).1 = true))) (MkUpgraded (inner s) (buf s) None (error_tx s) k)) as Hcall.
  { intros free k Hqk Hck Hl. destruct free; cbn [negb].
    - apply wp_bind. unfold wp at 1, on_inner. cbn [inner call_of]. rewrite finish_again by done. cbn [fst snd andthen].
      apply wp_ret. split; [|split; [done|by left]]. split_and!; try done. by apply finishes.
    - apply wp_bind, wp_modify. cbn [andthen]. split; [by split_and!|]. split; [done|right]. split; [done|by apply Hl]. }
  cbn [holds]. destruct held.
  - apply wp_ret. cbn [andthen]. by apply Hcall.
  - unfold wp at 1, ask_bridge. cbn [fst snd andthen]. apply Hcall; cbn [bridge]; rewrite ?queued_lock, ?closed_lock; try done.
    intros E Hall. by rewrite Hall in E.
Qed.

Lemma tick_spins turns : ∀ s, all_written s → wp (tick turns) (spins s) s.
Proof.
  induction turns as [|turns IH]; intros s Hs; [split_and!; auto|]. cbn [tick]. apply wp_self, wp_bind.
  assert (∀ s1, all_written s1 → error_tx s1 = error_tx s →
    wp (r ← ask_bridge bridge_recv;
      match r with
      | Ready (Ok d) => _ ← set_send_fut (Some (FutData d false)); tick turns
      | Ready (Err _) => _ ← set_send_fut (Some (FutFinish false)); tick turns
      | Pending => wait
      end) (spins s) s1) as Hrest.
  { intros s1 (Hc & Hq & Hb & He & Hf) Et. apply wp_bind. unfold wp at 1, ask_bridge. cbn [fst snd andthen].
    pose proof (queued_recv (bridge s1)) as Hqr. destruct (closed_recv (bridge s1)) as [Hcr Herr]. destruct (Herr Hc Hq) as [u Hu].
    rewrite Hu, Hq in Hqr. rewrite Hu. apply wp_bind, wp_modify. cbn [andthen]. eapply wp_mono; [apply IH|].
    - split; cbn [bridge]; [by rewrite Hcr|]. by split.
    - intros o s' (H1 & H2 & H3 & H4). split; [exact H1|]. split; [exact H2|]. split; [by etransitivity|exact H4]. }
  destruct (send_fut s) as [f|] eqn:Ef.
  - eapply wp_mono; [by apply finish_spins|]. intros o s1 (H1 & H2 & [->|[-> Hl]]); cbn [andthen]; [by apply Hrest|].
    split_and!; auto. intros Hall. by destruct Hl.
  - apply wp_ret. cbn [andthen]. by apply Hrest.
Qed.
End ending.

(** The task of an upgraded stream does not end when the application closes its
    half.  On a transport where finishing a stream never fails or waits, like that
    of h3/quinn.rs, once all that was written is on the stream every poll of the
    task finishes the stream again: it waits when the mutex asks it to yield, it
    loops for ever when it does not, and it never ends.  The task that relays
    never ends but by an error, so [poll_shutdown], which waits for the end of
    the task, waits for ever too. *)
Theorem upgrade_never_ends {T K} `{HR : Recorded T} `{HT : Http} `{HT3 : !Http3} `{HB : Bridge K} `{HC : !Channel K}
    (eager : T → Prop) turns (s : Upgraded T K) :
  (∀ id t, eager t → (poll_finish id t).1 = Ready (Ok ()) ∧ eager (poll_finish id t).2) → all_written eager s →
  let '(o, s') := poll_task turns s in
  (o = Wait ∨ o = Stuck) ∧ all_written eager s' ∧ error_tx s' = error_tx s ∧ ((∀ k : K, (bridge_lock k).1 = true) → o = Stuck).
Proof.
  intros Hfin Hs. pose proof (tick_spins eager Hfin turns s Hs) as Ht. unfold wp in Ht. unfold poll_task.
  destruct (tick turns s) as [[u|e| |] s']; cbn [fst snd] in Ht; try exact Ht. by destruct Ht as ([?|?] & _).
Qed.

(** ** A tunnel *)

#[local] Existing Instance plain_http.
#[local] Existing Instance plain_http3.

(** A channel of one message; the answers of the mutex, free when they are used
    up. *)
Record Pipe : Type := MkPipe {
  pipe_queue : list bytes;
  pipe_closed : bool;
  pipe_error : option StreamError;
  pipe_locks : list bool;
}.

#[local] Instance pipe_bridge : Bridge Pipe := {
  bridge_send d k :=
    if pipe_closed k then (Ready (Err ()), k)
    else if bool_decide (pipe_queue k = []) then (Ready (Ok ()), MkPipe [d] false (pipe_error k) (pipe_locks k))
    else (Pending, k);
  bridge_recv k :=
    match pipe_queue k with
    | d :: q => (Ready (Ok d), MkPipe q (pipe_closed k) (pipe_error k) (pipe_locks k))
    | [] => (if pipe_closed k then Ready (Err ()) else Pending, k)
    end;
  bridge_close k := MkPipe (pipe_queue k) true (pipe_error k) (pipe_locks k);
  error_send e k := MkPipe (pipe_queue k) (pipe_closed k) (Some e) (pipe_locks k);
  error_recv k := (from_option (λ e, Ready (Ok e)) Pending (pipe_error k), k);
  bridge_lock k := (default true (head (pipe_locks k)), MkPipe (pipe_queue k) (pipe_closed k) (pipe_error k) (tail (pipe_locks k)));
}.

#[local] Program Instance pipe_channel : Channel Pipe := {| queued := pipe_queue; closed := pipe_closed |}.
Solve Obligations with try done.
Next Obligation. intros d [[|e q] [] r l]; cbn; by rewrite ?app_nil_r. Qed.
Next Obligation. intros [[|d q] [] r l]; done. Qed.
Next Obligation. intros d [[|e q] [] r l]; done. Qed.
Next Obligation. intros [[|d q] [] r l]; cbn; split; try done. by exists (). Qed.

(** A CONNECT that is answered, and octets of the client; the transport makes
    the first DATA frame wait, and the mutex asks the task once to yield. *)
Definition connect_section : list field := [(b ":method", b "CONNECT"); (b ":authority", b "a:1")].
Definition tunnel_script : Script := MkScript []
  [(0, Ready (Ok (Some (H3Frame.encode (Headers (block_of connect_section))))));
   (0, Ready (Ok (Some (H3Frame.encode (Data (b "hello"))))))] [Ready (Ok ()); Pending] [Accepted 0].
Definition tunnel_stream : RequestStream Script := new_request_stream 0 post_shared tunnel_script.
Definition tunnel_head : list entry * RequestStream Script :=
  exec 20 [PollHeaders 0; CallSendResponse 200 []] tunnel_stream.
Definition tunnel : Upgraded Script Pipe := pair tunnel_head.2 (MkPipe [] false None [true; false]).

(** What an application does, and what becomes of it; [n] is the fuel of each
    poll. *)
Inductive act : Type := AWrite (d : bytes) | ARead (room : Z) | ATask | AShutdown.
Definition act_step (n : nat) (a : act) (x : bytes * list bytes * Upgraded Script Pipe) : bytes * list bytes * Upgraded Script Pipe :=
  let '(got, wrote, s) := x in
  match a with
  | AWrite d => (got, wrote ++ taken d (poll_write d s).1, (poll_write d s).2)
  | ARead room => (got ++ octets (poll_read n n 0 room s).1, wrote, (poll_read n n 0 room s).2)
  | ATask => (got, wrote, (poll_task n s).2)
  | AShutdown => (got, wrote, (poll_shutdown s).2)
  end.
Definition acts_ok (n : nat) (a : act) (s : Upgraded Script Pipe) : bool :=
  match a with
  | ARead room => match (poll_read n n 0 room s).1 with Fail _ | Stuck => false | _ => true end
  | ATask => error_tx s && match (poll_task n s).1 with Stuck => false | _ => true end
  | _ => true
  end.
Fixpoint act_run (n : nat) (acts : list act) (x : bytes * list bytes * Upgraded Script Pipe) : option (bytes * list bytes * Upgraded Script Pipe) :=
  match acts with
  | [] => Some x
  | a :: acts => if acts_ok n a x.2 then act_run n acts (act_step n a x) else None
  end.

Lemma act_lives s0 cs n acts : ∀ x y, lives s0 cs x.1.1 x.1.2 x.2 → act_run n acts x = Some y → lives s0 cs y.1.1 y.1.2 y.2.
Proof.
  induction acts as [|a acts IH]; intros x y Hx E; cbn [act_run] in E; [by injection E as <-|].
  destruct (acts_ok n a x.2) eqn:Ea; [|done]. apply (IH _ y) in E; [exact E|]. destruct x as [[got wrote] s].
  destruct a; cbn [act_step acts_ok fst snd] in *.
  - eapply LWrite; [exact Hx|apply surjective_pairing].
  - eapply LRead; [exact Hx|apply surjective_pairing|]. by destruct (poll_read n n 0 room s).1.
  - apply andb_prop in Ea as [Et Ho]. eapply LTask; [exact Hx|exact Et|apply surjective_pairing|]. intros E2. by rewrite E2 in Ho.
  - by apply LShutdown.
Qed.

Definition tunnel_acts : list act :=
  [AWrite (b "ab"); ATask; AWrite (b "cd"); AWrite (b "no"); ARead 3; ATask; ARead 3; ARead 3; AWrite []; ATask].
Definition tunnelled : bytes * list bytes * Upgraded Script Pipe :=
  default ([], [], tunnel) (act_run 20 tunnel_acts ([], [], tunnel)).

Lemma tunnel_lives : lives tunnel_stream [CallSendResponse 200 []] tunnelled.1.1 tunnelled.1.2 tunnelled.2.
Proof.
  apply (act_lives tunnel_stream [CallSendResponse 200 []] 20 tunnel_acts ([], [], tunnel)); [|by vm_compute].
  eapply (LPair tunnel_stream _ tunnel_head.1); [exact (exec_start 20 _ tunnel_stream)| |by vm_compute..].
  apply (bool_decide_unpack _). vm_compute. exact I.
Qed.

Lemma upgraded_stream_faithful_witness :
  tunnelled.1 = (b "hello", [b "ab"; b "cd"]) ∧ buf tunnelled.2 = [] ∧ send_fut tunnelled.2 = None
  ∧ (∃ relayed rest fs, [b "ab"; b "cd"] = relayed ++ rest ∧ rest = queued (bridge tunnelled.2)
    ∧ Forall2 (emits 0) (CallSendResponse 200 [] :: (CallSendData <$> relayed)) fs
    ∧ written 0 (history (quic (inner tunnelled.2))) = mjoin (H3Frame.encode <$> fs))
  ∧ ∃ fs more rest e tr hd, frames (local_max_field_section_size post_shared) (received 0 (history (quic (inner tunnelled.2)))) = (fs ++ more, rest, e)
    ∧ runs tunnel_stream tr (inner tunnelled.2) ∧ clean tr ∧ accounts tr 0 hd fs ∧ b "hello" = mjoin (h_body hd).
Proof.
  assert (tunnelled.1 = (b "hello", [b "ab"; b "cd"]) ∧ buf tunnelled.2 = [] ∧ send_fut tunnelled.2 = None
    ∧ error_tx tunnelled.2 = true ∧ closed (bridge tunnelled.2) = false) as (E1 & E2 & E3 & E4 & E5) by (split_and!; vm_compute; reflexivity).
  assert (written 0 (history tunnel_script) = [] ∧ received 0 (history tunnel_script) = []) as [Hw Hr0] by (split; vm_compute; reflexivity).
  destruct (upgraded_stream_faithful 0 post_shared tunnel_script _ _ _ _ Hw Hr0 tunnel_lives) as [(rl & rest & fs & H1 & H2 & H3 & H4) H5].
  rewrite E1, E2 in *. cbn [fst snd] in *. destruct (H4 E4 E3) as [Hb Hr]. rewrite Hb in H3. cbn [mjoin list_join] in H3. rewrite app_nil_r in H3, H5.
  split; [done|]. split; [done|]. split; [done|]. split; [|exact H5]. exists rl, rest, fs. split; [done|]. split; [by apply Hr|]. by split.
Defined.

(** The application closes its half: it waits, and the task finishes the stream
    over and over. *)
Definition shut : Upgraded Script Pipe := (poll_shutdown tunnelled.2).2.

Lemma shut_waits : (poll_shutdown tunnelled.2).1 = Wait ∧ (poll_task 50 shut).1 = Stuck.
Proof. split; vm_compute; reflexivity. Qed.

Lemma shut_written : all_written (λ t : Script, replies t = []) shut.
Proof. split_and!; vm_compute; try reflexivity; exact I. Qed.

Lemma script_finishes id (t : Script) : replies t = [] →
  (poll_finish id t).1 = Ready (Ok ()) ∧ replies (poll_finish id t).2 = [].
Proof. destruct t as [ac inb [|r rs] pa]; cbn; by intros [=]. Qed.

Lemma shut_never_ends turns : let '(o, s') := poll_task turns shut in
  (o = Wait ∨ o = Stuck) ∧ error_tx s' = error_tx shut.
Proof.
  pose proof (upgrade_never_ends (λ t : Script, replies t = []) turns shut script_finishes shut_written) as Hn.
  destruct (poll_task turns shut) as [o s']. destruct Hn as (H1 & _ & H2 & _). by split.
Qed.
